(* ===== verification/_CoqProject ===== *)
-Q . S2P
Prelude.v
Template.v
SeekSequence.v
PatchParser.v
Replacements.v
StreamingPatchParser.v
StreamParser.v
Utf8Stream.v
HeadTailBuffer.v
Truncate.v
ContextFragments.v
History.v
Rollout.v
AbsolutePath.v
Host.v
Permissions.v
SandboxRoots.v
PolicyTransforms.v
Bwrap.v
BwrapView.v
LinuxSandbox.v
MountRegistry.v
IpAddr.v
NetworkPolicy.v
NetworkConfig.v
MitmHook.v
NetworkState.v
ProxyHandlers.v
FileSystem.v
ApplyPatch.v
Invocation.v
ExecPolicy.v
PolicyParser.v
ShellParse.v
CommandSafety.v
Approval.v
NetworkSpec.v
