(* ===== verification/Prelude.v ===== *)
(** * A verification library for the Codex agent ([codex-rs])

    ** The program

    [codex-rs] is a coding agent: a model proposes shell commands and patches,
    and the program decides whether they may run, applies the patches to the
    user's files, runs the commands and feeds their (truncated) output back to
    the model.  The parts modelled here are the ones where a mistake costs the
    user data or safety:

    - [apply-patch]: a patch text is parsed (in one go by [parse_patch], or
      while it streams in by [StreamingPatchParser]), its chunks are located in
      the lines of a file ([seek_sequence]), turned into replacements and new
      contents, shown for approval ([verify_apply_patch_args]) and written to
      the file system ([apply_patch]), with a delta of what was committed;
    - [utils/absolute-path]: how a path of a patch becomes the path of a file;
    - [execpolicy]: which commands and hosts a policy allows, how policies are
      read, merged and amended;
    - [shell-command]: how a script is cut into commands ([bash.rs]), which
      commands run without asking and which are flagged, where no policy rule
      matches ([command_safety]);
    - [protocol/permissions]: which paths a permission policy lets be read and
      written, and what the sandbox of the platform is told;
      [sandboxing/policy_transforms]: how permissions granted for one command
      are laid over it;
    - [sandboxing] and [linux-sandbox]: how a command is wrapped for its sandbox
      on Linux, by a helper that starts itself again inside bubblewrap and
      installs a seccomp filter, and how concurrent helpers share the files they
      mount over;
    - [network-proxy] and [core/config/network_proxy_spec]: the proxy through
      which a sandboxed command reaches the network, what it lets through, and
      how the settings of the user are held to those of an administrator;
    - [core/exec_policy] and [core/safety]: how rules, heuristics, approval mode
      and sandbox combine into the decision to run, to ask or to refuse;
    - [core/context_manager], [core/compact], [core/session]: the conversation
      sent to the model, its rollback, its compaction, and how it is rebuilt from
      the log of a thread; [core/context]: the context injected into it;
    - [utils/stream-parser]: the tags taken out of the model's streamed text;
    - [utils/template]: the templates of prompts;
    - [utils/string], [utils/output-truncation] and
      [core/unified_exec/head_tail_buffer]: what the model sees of an output.

    The parts meet as follows.  [ApplyPatch] and [Invocation] resolve paths with
    [AbsolutePath] and reach files through the interface of [FileSystem];
    [Approval] takes the changes that [Invocation] verified, the policies of
    [ExecPolicy] and [PolicyParser], the commands of [ShellParse], the heuristics
    of [CommandSafety] and the policies of [Permissions] and [SandboxRoots]; [History] truncates with
    [Truncate] and tells injected from written messages with [ContextFragments];
    [Rollout] replays logs into [History]; [Utf8Stream] feeds any parser that has
    the interface of [StreamParser].  [PolicyTransforms] combines policies of
    [Permissions]; [Bwrap] turns the result into mounts, [LinuxSandbox] into the
    commands that run, and [MountRegistry] keeps the targets of the mounts.
    [NetworkState] compiles the settings of [NetworkConfig] with the patterns of
    [NetworkPolicy] (over [IpAddr]) and the hooks of [MitmHook]; the handlers of
    [ProxyHandlers] question it for each request; [NetworkSpec] makes it from the
    settings, the requirements and the network rules of [ExecPolicy].

    ** The files

    - [Prelude] (this file): Rust's strings (lists of Unicode scalar values with
      the [str] methods the sources use), saturating 64-bit arithmetic, UTF-8
      byte offsets ([split_at_byte], whose [None] is the panic of a bad slice),
      [Result] as a monad, vectors and the stable sort; tactics, the hint
      database [rust] and the lemmas that all parts share.
    - [Template]: utils/template/src/lib.rs.
    - [SeekSequence]: apply-patch/src/seek_sequence.rs.
    - [PatchParser]: apply-patch/src/parser.rs, the data model of a patch and
      the batch parser, with a printer of the documented grammar.
    - [Replacements]: compute_replacements, apply_replacements and
      derive_new_contents_from_chunks of apply-patch/src/lib.rs, with the
      abstract specification [splice].
    - [StreamingPatchParser]: apply-patch/src/streaming_parser.rs, a state
      machine fed character by character.
    - [StreamParser]: utils/stream-parser/src, the interface [StreamTextParser]
      with its promise [ChunkInsensitive], and the parsers of citations, tagged
      lines, proposed plans and assistant text.
    - [Utf8Stream]: utils/stream-parser/src/utf8_stream.rs over any such parser.
    - [HeadTailBuffer]: core/src/unified_exec/head_tail_buffer.rs.
    - [Truncate]: utils/string/src/{truncate,lib}.rs and
      utils/output-truncation/src/lib.rs.
    - [ContextFragments]: context-fragments/src, core/src/context,
      core/src/state/additional_context.rs and the recognisers of
      core/src/event_mapping.rs.
    - [History]: core/src/context_manager/{normalize,history}.rs with the item
      and token types of protocol/src.
    - [Rollout]: parse_turn_item of core/src/event_mapping.rs, the compacted
      histories of core/src/compact.rs, core/src/thread_rollout_truncation.rs and
      core/src/session/rollout_reconstruction.rs.
    - [AbsolutePath]: utils/absolute-path/src, on Unix.
    - [Host]: what the code asks the machine (home, directories, links) as a
      record, and canonicalisation on top of it.
    - [Permissions]: protocol/src/permissions.rs, policies and the access of a
      path; [SandboxRoots]: the roots and denials handed to the sandbox, legacy
      policies and permission profiles (protocol/src/{permissions,protocol,
      models}.rs).
    - [PolicyTransforms]: sandboxing/src/policy_transforms.rs and the additional
      permissions of protocol/src/models.rs.
    - [Bwrap]: linux-sandbox/src/bwrap.rs, the bubblewrap arguments of a policy;
      [BwrapView]: what a process sees behind such arguments, by the rules of
      bwrap(1), and the theorems that relate it to the policy.
    - [LinuxSandbox]: sandboxing/src/{manager,landlock}.rs and
      linux-sandbox/src/{linux_run_main,landlock}.rs, from the command that is
      asked for to the one that is executed; [MountRegistry]: the registry of
      mount targets of linux_run_main.rs as steps of concurrent helpers and the
      monitor threads that remove watched paths.
    - [IpAddr]: the parser and predicates of [std::net] with the classification of
      addresses of network-proxy/src/policy.rs; [NetworkPolicy]: the hosts and
      patterns of that file; [NetworkConfig]: network-proxy/src/config.rs;
      [MitmHook]: network-proxy/src/mitm_hook.rs; [NetworkState]:
      network-proxy/src/{state,runtime}.rs, with the operations on the shared state
      as steps of concurrent tasks (Module [Tasks]); [ProxyHandlers]:
      network-proxy/src/{network_policy,http_proxy,socks5,mitm,connect_policy}.rs;
      [NetworkSpec]: core/src/config/network_proxy_spec.rs.
    - [FileSystem]: the interface [ExecutorFileSystem] of file-system/src/lib.rs
      as a class, the laws its users rely on as further classes
      ([FileSystemLaws] without symbolic links, [LinkedFileSystemLaws] with
      links in the last component of a path, and their common part [TextLaws]),
      and an in-memory file system of either kind that satisfies them.
    - [ApplyPatch]: apply_hunks_to_files, apply_hunks and apply_patch of
      apply-patch/src/lib.rs in a monad with state (world and delta), errors and
      panics; the specification is on [view]s, the texts of all files, up to
      pointwise equality.
    - [Invocation]: apply-patch/src/invocation.rs.
    - [ExecPolicy]: execpolicy/src/{decision,rule,policy,error}.rs.
    - [PolicyParser]: execpolicy/src/{parser,amend}.rs.
    - [ShellParse]: shell-command/src/bash.rs over the tree of tree-sitter;
      [CommandSafety]: shell-command/src/command_safety on Unix.
    - [Approval]: core/src/{exec_policy,safety,command_canonicalization}.rs and
      core/src/tools/sandboxing.rs; Module [Updates] has the concurrent updates of
      the policy manager as a step relation.

    ** What the theorems show

    Patches.  [parse_print_roundtrip]: every patch in the documented grammar is
    parsed back from its text, or rejected where a chunk has no change line; [parse_patch_total]: parsing always terminates;
    [parse_heredoc_wrapped]: the lenient mode sees through a heredoc;
    [streaming_agrees_with_parse_patch], [push_all_chunking] and
    [streaming_session_complete]: streaming gives the batch result however the
    text is cut, when no context or destination ends in white space.  [seek_sequence_Some_iff] and [seek_sequence_None_iff]
    characterise the fuzzy search; [compute_replacements_placed],
    [apply_replacements_splice], [derive_new_contents_refines] and
    [derive_new_contents_no_panic] carry it to the new contents of a file.
    [apply_hunks_to_files_refines]: on any lawful file system a patch that
    succeeds has exactly the effect its hunks prescribe;
    [apply_patch_delta_faithful]: an exact delta can be replayed and reverted,
    also after a failure half-way and where files are links; [verified_changes_applied]: what was shown
    for approval is what was done, if the hunks touch different files;
    [verified_body_explicit]: nothing is applied without an explicit call;
    [resolve_path_absolute] and [absolute_path_roundtrip]: path resolution.

    Policies.  [check_most_restrictive], [matches_prefix_spec],
    [merge_overlay_monotone], [compiled_network_domains_last],
    [add_network_rule_hosts_ok], [prefix_rule_enforced], [parse_examples_hold],
    [append_locked_line_spec]: a rule in a file is enforced, the strictest match
    wins, merging lifts no restriction unless a rule for a path hides one for a
    name, the last network rule of a host
    decides, examples are checked, remembering a rule is idempotent.
    [safe_not_dangerous], [safe_git_command_read_only], [valid_sed_n_arg_spec]:
    the two command classifications are disjoint and what they let through.
    [script_commands_spec]: which scripts are cut into commands, and that none is
    left out.

    Permissions.  [resolve_access_most_specific] and [resolve_access_order]: the
    most specific entry decides, whatever the order of the entries;
    [metadata_write_protected] and [workspace_write_protects_metadata]: version
    control and agent metadata below a writable root; [full_disk_write_everywhere]
    and [full_disk_read_everywhere]: the shortcuts do not overstate;
    [materialize_survives_cwd], [preserve_deny_denies]: rewriting a policy keeps
    what it means; [writable_roots_sound], [read_deny_fails_closed]: the sandbox
    grants no more than the policy; [legacy_policy_roundtrip],
    [profile_keeps_permissions]: conversions lose nothing.
    [intersection_within_request], [intersection_keeps_denied_globs]: a grant
    gives no more than was asked for, read-only places below writable ones apart; [effective_profile_spec],
    [merge_is_sequential_overlay], [normalize_request_spec],
    [permissions_wire_roundtrip]: laying permissions over a profile.

    The sandbox, on a host without symbolic links.  [bwrap_writes_allowed],
    [bwrap_reads_allowed]: what the mounts show, the policy allows, with the
    exceptions the theorems name; [sandboxed_command_confined],
    [sandboxed_command_runs], [transform_outcome]: the command that is asked for
    is the one that runs, confined as the policy says; [seccomp_filter_spec]: the
    system calls of each network mode; [registered_mount_target_kept],
    [helpers_restore_files]: the cleanup of concurrent helpers, crashes included,
    pulls no file from under another (the monitor of a watched path does), and
    helpers that watch nothing leave none behind.

    The network.  [non_public_ipv4_ranges], [parse_ipv4_iff]: addresses;
    [denied_domains_iff], [allowed_domains_iff], [upsert_domain_lists]: the lists
    of the settings; [bind_addresses_loopback]: where the proxy listens;
    [constrained_patterns_sound]: a pattern held to a managed one matches no more
    than it; [compiled_hooks_evaluate], [validated_hooks_compile]: hooks.
    [host_blocked_allowed_iff]: when a host is allowed; [reachable_state_valid],
    [managed_denials_enforced], [managed_allowlist_enforced]: constraints hold in
    every state that concurrent updates and reloads reach; [denial_takes_effect]:
    an update does what it says.  [forwarded_requests_admitted],
    [denied_host_never_forwarded], [intercepted_request_allowed],
    [connect_target_public]: no handler lets through more than the state allows;
    [managed_only_end_to_end], [requirements_accepted]: from the settings and
    requirements of a session to the requests that leave it.

    Approvals.  [never_never_asks], [patch_never_asks]: a mode without prompts has
    none; [skip_commands_trusted], [bypass_sandbox_justified],
    [forbidden_rule_forbids], [patch_auto_approved]: what runs unasked, or outside
    the sandbox, was allowed to; [requested_amendment_approves],
    [append_amendment_effect], [load_enforces_requirements]: remembered and managed
    rules are in force; [updates_not_lost]: concurrent amendments are not lost.

    Conversations.  [prompt_history_normal], [prompt_history_complete],
    [remove_first_keeps_pairing]: calls and outputs stay paired and nothing else is
    dropped; [rollback_drops_last_turns], [token_estimate_bounds];
    [injected_context_recognised]; [reconstruction_is_replay],
    [truncate_before_nth_user_message], [keep_last_fork_turns],
    [compacted_history_shape], [initial_context_placed]: logs, forks and
    compaction.  [citations_chunk_insensitive], [plans_chunk_insensitive],
    [assistant_text_reference], [utf8_stream_reference], [utf8_text_roundtrip],
    [pending_utf8_bounded], [push_bytes_rollback]: the streamed text.

    Output.  [push_chunk_refines], [to_bytes_head_tail], [drain_chunks_resets]:
    the buffer keeps a prefix and a suffix of the output within its budget;
    [truncate_middle_chars_spec], [truncate_token_budget_spec],
    [truncate_items_spec], [sanitize_metric_tag_value_valid]: truncation is
    greedy on character boundaries, counts exactly what it removes and never
    slices inside a character.  [template_render_spec], [template_print_parse]:
    templates.

    Some theorems record behaviour that the code should not have:
    [seek_sequence_eof_ignores_start], [contents_of_lines_newlines],
    [eof_chunk_overlap_lost], [move_to_itself_deletes],
    [verify_keeps_last_hunk], [normalize_host_not_idempotent],
    [metadata_rule_order_dependent], [full_disk_write_without_tmp],
    [parse_error_drops_requirements], [additional_key_not_recognised],
    [rollback_over_checkpoint_loses_history],
    [user_positions_after_agent_rollback],
    [intersection_drops_read_only_place], [gitdir_pointer_reopens_denied_path],
    [late_registration_leaves_mount_point], [two_kinds_leave_mount_point],
    [monitor_removes_registered_mount_point], [nested_metadata_writable],
    [path_rule_hides_name_rule], [consecutive_contexts_rejected],
    [trailing_space_disagrees], [constraint_port_bypass],
    [constraint_ipv6_bypass], [ipv6_spelling_not_denied],
    [not_routable_ipv6_public], [update_loses_record],
    [force_reload_resets_total], [second_connection_header_ignored],
    [full_mode_enters_mitm] and [denial_in_other_case_rejected].

    ** Fuel, bounds and parameters

    Loops over a shrinking slice in [PatchParser] take the number of remaining
    lines as fuel ([parse_patch_total] shows that it suffices); the shell
    detection of [CommandSafety] takes the length of the path
    ([detect_shell_fuel_enough]); the loop over hidden tags of [StreamParser] takes
    the length of the pending text, the decoder of [Utf8Stream] the number of
    bytes, the ancestors of a path in [Host] the number of components, the bounded
    queue of [NetworkState] the number of its records, the loop over Connection
    headers of [ProxyHandlers] the number of headers, the walks of [ShellParse]
    the number of nodes of the tree: each turn consumes at least one, and the theorems are about the results, not about runs
    that return.  The walk of [Bwrap] below a denied pattern takes a depth that
    bounds the directory tree of the host.  Everything else is structural.  [usize] and
    [u64] are 64 bits wide and saturate where the source saturates; lengths of
    vectors in memory are [nat].  Code outside the repository is a parameter:
    the home and current directories, the file system and the writers of
    [ApplyPatch], the tree-sitter extraction and the diff of [Invocation], the
    tree-sitter parser of [ShellParse] (any split of a script, in
    [CommandSafety]), the Starlark evaluator, shlex and JSON
    quoting of [PolicyParser], the machine of [Host], the glob compiler of
    [SandboxRoots], directory listings and shlex of [Approval], the
    XML deserialiser of [ContextFragments], and in [History] the class [External]
    (JSON values, their serialised length, image sizes and the parser of
    inter-agent messages).  In [PolicyTransforms] it is the glob compiler; in
    [Bwrap] ripgrep and globset (record [LinuxHost]); in [LinuxSandbox] the
    argument parser of clap and serde_json, with the laws that are used of them,
    and what the kernel and the bubblewrap executable do (record [Process]); in
    [MountRegistry] which process is alive.  In the files of the proxy it is the
    parsers of the crate url ([UrlHostParser], [UrlParser]), globset
    ([GlobEngine], laws [GlobLaws]), the crates http and form_urlencoded
    ([HttpLib]), the environment, the certificate authority and the resolver
    (record [ProxyHost]), the answers of the reloader, and the decider of the
    session.  [debug_assertions] is a parameter where a debug build
    panics ([error_or_panic], overflowing 64-bit counters); the factor 1.2 of
    [process_item] is IEEE double arithmetic.

    ** Not modelled

    Windows paths and command lists, PowerShell, the Starlark evaluator, the
    tree-sitter grammar, the Seatbelt profiles of macOS, and everything that is
    I/O, rendering, networking or generated protocol (the TUI, the app server,
    the model clients, MCP, login, telemetry, SQLite state).  Of the sandbox, the
    search for a bubblewrap executable, the bridge to the proxy, signal
    forwarding and the inotify events of the monitor; of the proxy, the
    listeners, TLS and certificates, the upstream client, the responses beyond
    their reason, audit events, and the prompts behind the decider
    (core/src/tools/network_approval.rs).  Of the modelled files, serde formats
    (the ones of additional permissions apart), log messages and caches are left
    out.  turn_diff_tracker and the summaries of
    shell-command/src/parse_command.rs only display what the parts above did. *)

From stdpp Require Export base decidable numbers list strings sets gmap.
From Stdlib Require Export Ascii Sorted.

(** ** Text

    A Rust [char] is a Unicode scalar value and a [String]/[&str] the
    sequence of its scalar values; the UTF-8 byte length, where the source
    looks at it, is computed from them by [str_len]. *)

Abbreviation char := N (only parsing).
Abbreviation str := (list N) (only parsing).

(** ASCII string literals. *)
Definition lit (s : string) : str := N_of_ascii <$> String.list_ascii_of_string s.

Declare Scope rust_scope.
Delimit Scope rust_scope with rust.
Open Scope rust_scope.

(** [s == t] on strings, as a boolean. *)
Notation "s =s? t" := (bool_decide (s = t)) (at level 70, no associativity) : rust_scope.

(** ['\n'], ['\r'] and the other characters the parsers look at. *)
Definition LF : char := 10%N.
Definition CR : char := 13%N.
Definition SP : char := 32%N.
Definition PLUS : char := 43%N.
Definition MINUS : char := 45%N.
Definition STAR : char := 42%N.

(** [char::is_whitespace]: the Unicode [White_Space] property. *)
Definition is_whitespace (c : char) : bool :=
  (((9 <=? c) && (c <=? 13)) || (c =? 32) || (c =? 133) || (c =? 160) || (c =? 5760)
   || ((8192 <=? c) && (c <=? 8202)) || (c =? 8232) || (c =? 8233) || (c =? 8239)
   || (c =? 8287) || (c =? 12288))%N.

Definition is_ascii_digit (c : char) : bool := ((48 <=? c) && (c <=? 57))%N.
Definition is_ascii_uppercase (c : char) : bool := ((65 <=? c) && (c <=? 90))%N.
Definition is_ascii_lowercase (c : char) : bool := ((97 <=? c) && (c <=? 122))%N.
Definition is_ascii_alphanumeric (c : char) : bool :=
  is_ascii_digit c || is_ascii_uppercase c || is_ascii_lowercase c.
Definition to_ascii_lowercase (s : str) : str :=
  (fun c => if is_ascii_uppercase c then (c + 32)%N else c) <$> s.
(** [str::eq_ignore_ascii_case]. *)
Definition eq_ignore_ascii_case (s t : str) : bool := to_ascii_lowercase s =s? to_ascii_lowercase t.

(** Drop the longest prefix whose characters satisfy [p]. *)
Fixpoint drop_while {A} (p : A -> bool) (s : list A) : list A :=
  match s with
  | [] => []
  | c :: s' => if p c then drop_while p s' else s
  end.

Definition drop_end_while {A} (p : A -> bool) (s : list A) : list A :=
  reverse (drop_while p (reverse s)).

(** [str::trim_start], [trim_end], [trim], [trim_matches], [trim_end_matches]. *)
Definition trim_start (s : str) : str := drop_while is_whitespace s.
Definition trim_end (s : str) : str := drop_end_while is_whitespace s.
Definition trim (s : str) : str := trim_end (trim_start s).
Definition trim_end_matches (c : char) (s : str) : str := drop_end_while (N.eqb c) s.
Definition trim_matches (c : char) (s : str) : str :=
  drop_end_while (N.eqb c) (drop_while (N.eqb c) s).

(** [str::strip_prefix], [starts_with], [strip_suffix], [ends_with]. *)
Fixpoint strip_prefix (p s : str) : option str :=
  match p, s with
  | [], _ => Some s
  | _ :: _, [] => None
  | a :: p', b :: s' => if (a =? b)%N then strip_prefix p' s' else None
  end.

Definition starts_with (p s : str) : bool := bool_decide (is_Some (strip_prefix p s)).
Definition strip_suffix (p s : str) : option str :=
  reverse <$> strip_prefix (reverse p) (reverse s).
Definition ends_with (p s : str) : bool := bool_decide (is_Some (strip_suffix p s)).

(** [str::contains(char)] and [str::contains(&str)]. *)
Definition contains_char (c : char) (s : str) : bool := existsb (N.eqb c) s.
Fixpoint contains_str (p s : str) : bool :=
  starts_with p s || match s with [] => false | _ :: s' => contains_str p s' end.

(** [str::find] and [split_once(&str)], as the text before the first occurrence and the text after it. *)
Fixpoint find_sub (needle s : str) : option (str * str) :=
  match strip_prefix needle s with
  | Some r => Some ([], r)
  | None =>
      match s with
      | [] => None
      | c :: s' => match find_sub needle s' with Some (b, r) => Some (c :: b, r) | None => None end
      end
  end.

(** [str::split(char)]: always at least one piece. *)
Fixpoint split_on (c : char) (s : str) : list str :=
  match s with
  | [] => [[]]
  | x :: s' =>
      if (x =? c)%N then [] :: split_on c s'
      else match split_on c s' with
           | [] => [[x]]
           | piece :: rest => (x :: piece) :: rest
           end
  end.

(** [str::split_once(char)] and [rsplit_once(char)]. *)
Fixpoint split_once (c : char) (s : str) : option (str * str) :=
  match s with
  | [] => None
  | x :: s' =>
      if (x =? c)%N then Some ([], s')
      else match split_once c s' with
           | Some (a, b) => Some (x :: a, b)
           | None => None
           end
  end.
Definition rsplit_once (c : char) (s : str) : option (str * str) :=
  match split_once c (reverse s) with
  | Some (a, b) => Some (reverse b, reverse a)
  | None => None
  end.

(** [slice::join]. *)
Fixpoint join (sep : str) (ls : list str) : str :=
  match ls with
  | [] => []
  | [l] => l
  | l :: ls' => l ++ sep ++ join sep ls'
  end.

(** [str::lines]: split at ['\n'], a final empty piece dropped; a line that
    was ended by ['\n'] also loses one ['\r'] before it. *)
Definition strip_cr (l : str) : str := from_option id l (strip_suffix [CR] l).
Fixpoint lines_of_pieces (ps : list str) : list str :=
  match ps with
  | [] => []
  | [p] => if bool_decide (p = []) then [] else [p]
  | p :: ps' => strip_cr p :: lines_of_pieces ps'
  end.
Definition str_lines (s : str) : list str := lines_of_pieces (split_on LF s).

(** [str::cmp]: the order of the bytes is the order of the characters. *)
Fixpoint str_leb (s t : str) : bool :=
  match s, t with
  | [], _ => true
  | _ :: _, [] => false
  | a :: s, b :: t => if (a =? b)%N then str_leb s t else (a <? b)%N
  end.

(** ** Machine integers

    [usize] and [u64] are 64 bits wide.  Where the source uses saturating
    arithmetic the width is written out; an index into a [Vec] that is in
    memory stays below it and is a [nat]. *)

Definition u64_max : N := 18446744073709551615%N.
Definition usize_max : N := u64_max.
Definition i64_max : Z := 9223372036854775807%Z.
Definition sat_add (a b : N) : N := N.min (a + b) usize_max.
Definition sat_sub (a b : N) : N := (a - b)%N.
Definition sat_mul (a b : N) : N := N.min (a * b) usize_max.

(** [char::len_utf8] and [str::len]. *)
Definition len_utf8 (c : char) : N :=
  if (c <? 128)%N then 1%N
  else if (c <? 2048)%N then 2%N
  else if (c <? 65536)%N then 3%N
  else 4%N.
Fixpoint str_len (s : str) : N :=
  match s with
  | [] => 0%N
  | c :: s' => (len_utf8 c + str_len s')%N
  end.

(** [s[..n]] and [s[n..]] with byte offsets; [None] is the panic of an
    offset that is out of range or inside a character. *)
Fixpoint split_at_byte (n : N) (s : str) : option (str * str) :=
  if (n =? 0)%N then Some ([], s)
  else match s with
       | [] => None
       | c :: s' =>
           if (len_utf8 c <=? n)%N then
             match split_at_byte (n - len_utf8 c) s' with
             | Some (a, b) => Some (c :: a, b)
             | None => None
             end
           else None
       end.

(** Decimal rendering of an unsigned integer ([{n}] in a format string). *)
Fixpoint N_digits (fuel : nat) (n : N) (acc : str) : str :=
  match fuel with
  | O => acc
  | S fuel' =>
      let acc' := (48 + n mod 10)%N :: acc in
      if (n <? 10)%N then acc' else N_digits fuel' (n / 10)%N acc'
  end.
Definition show_N (n : N) : str := N_digits (S (N.to_nat (N.log2 n))) n [].
Definition show_nat (n : nat) : str := show_N (N.of_nat n).

(** ** Results

    [Result<A, E>], with [?] as the monadic bind. *)

Inductive result (E A : Type) : Type :=
| Ok (a : A)
| Err (e : E).
Arguments Ok {E A} a.
Arguments Err {E A} e.

#[export] Instance result_ret E : MRet (result E) := fun _ a => Ok a.
#[export] Instance result_bind E : MBind (result E) := fun _ _ f r =>
  match r with
  | Ok a => f a
  | Err e => Err e
  end.
#[export] Instance result_fmap E : FMap (result E) := fun _ _ f r =>
  match r with
  | Ok a => Ok (f a)
  | Err e => Err e
  end.

Definition map_err {E F A} (f : E -> F) (r : result E A) : result F A :=
  match r with
  | Ok a => Ok a
  | Err e => Err (f e)
  end.
Definition is_ok {E A} (r : result E A) : bool :=
  match r with Ok _ => true | Err _ => false end.
Definition ok {E A} (r : result E A) : option A :=
  match r with Ok a => Some a | Err _ => None end.

#[export] Instance result_eq_dec {E A} `{EqDecision E, EqDecision A} : EqDecision (result E A).
Proof. solve_decision. Defined.

(** ** Tactics and hint databases *)

Create HintDb rust.

(** Split the boolean connectives of the hypotheses and the goal into
    propositions about the comparisons they are made of. *)
Ltac bool_to_prop :=
  repeat match goal with
  | H : _ && _ = true |- _ => apply andb_true_iff in H as [? ?]
  | H : _ || _ = false |- _ => apply orb_false_iff in H as [? ?]
  | H : negb _ = true |- _ => apply negb_true_iff in H
  | H : negb _ = false |- _ => apply negb_false_iff in H
  | H : bool_decide _ = true |- _ => apply bool_decide_eq_true_1 in H
  | H : bool_decide _ = false |- _ => apply bool_decide_eq_false_1 in H
  | H : (_ =? _)%N = true |- _ => apply N.eqb_eq in H
  | H : (_ =? _)%N = false |- _ => apply N.eqb_neq in H
  | H : (_ <=? _)%N = true |- _ => apply N.leb_le in H
  | H : (_ <=? _)%N = false |- _ => apply N.leb_gt in H
  | H : (_ <? _)%N = true |- _ => apply N.ltb_lt in H
  | H : (_ <? _)%N = false |- _ => apply N.ltb_ge in H
  end.

(** Case on the innermost scrutinee of a [match] or [if] in the goal or in
    a named hypothesis, keeping the equation. *)
Ltac case_goal :=
  match goal with
  | |- context [match ?x with _ => _ end] => destruct x eqn:?
  end; simplify_eq/=.
Ltac case_in H :=
  match type of H with
  | context [match ?x with _ => _ end] => destruct x eqn:?
  end; simplify_eq/=.

(** ** Generic lemmas *)

Lemma result_bind_ok {E A B} (f : A -> result E B) (r : result E A) (b : B) :
  (r ≫= f) = Ok b <-> exists a, r = Ok a /\ f a = Ok b.
Proof. destruct r; naive_solver. Qed.

Lemma drop_while_suffix {A} (p : A -> bool) (s : list A) :
  exists pre, s = pre ++ drop_while p s /\ Forall (fun c => p c = true) pre.
Proof.
  induction s as [|c s IH]; simpl; [by exists []|].
  destruct (p c) eqn:Hp; [|by exists []].
  destruct IH as (pre & Heq & Hall). exists (c :: pre); split; [simpl; congruence | auto].
Qed.

Lemma drop_while_idemp {A} (p : A -> bool) (s : list A) :
  drop_while p (drop_while p s) = drop_while p s.
Proof. induction s as [|c s IH]; simpl; [done|]. destruct (p c) eqn:Hp; [done|]. simpl. by rewrite Hp. Qed.

Lemma drop_while_head {A} (p : A -> bool) (s : list A) (c : A) (s' : list A) :
  drop_while p s = c :: s' -> p c = false.
Proof. induction s as [|d s IH]; simpl; [done|]. destruct (p d) eqn:Hp; naive_solver. Qed.

Lemma drop_while_all {A} (p : A -> bool) (s t : list A) :
  Forall (fun c => p c = true) s -> drop_while p (s ++ t) = drop_while p t.
Proof. induction 1 as [|c s Hc _ IH]; simpl; [done|]. by rewrite Hc. Qed.

Lemma drop_while_nil {A} (p : A -> bool) (s : list A) :
  drop_while p s = [] <-> Forall (fun c => p c = true) s.
Proof.
  induction s as [|c s IH]; simpl; [naive_solver|].
  destruct (p c) eqn:Hp; rewrite Forall_cons, ?IH; naive_solver congruence.
Qed.

Lemma drop_end_while_idemp {A} (p : A -> bool) (s : list A) :
  drop_end_while p (drop_end_while p s) = drop_end_while p s.
Proof. unfold drop_end_while. by rewrite reverse_involutive, drop_while_idemp. Qed.

Lemma drop_end_while_prefix {A} (p : A -> bool) (s : list A) :
  exists suf, s = drop_end_while p s ++ suf /\ Forall (fun c => p c = true) suf.
Proof.
  destruct (drop_while_suffix p (reverse s)) as (pre & Heq & Hall).
  exists (reverse pre); split.
  - unfold drop_end_while. rewrite <- reverse_app, <- Heq. by rewrite reverse_involutive.
  - by apply Forall_reverse.
Qed.

Lemma drop_end_while_snoc {A} (p : A -> bool) (s : list A) (c : A) :
  drop_end_while p (s ++ [c]) = if p c then drop_end_while p s else s ++ [c].
Proof.
  unfold drop_end_while. rewrite reverse_snoc. simpl. destruct (p c); [done|].
  by rewrite reverse_cons, reverse_involutive.
Qed.

Lemma drop_end_while_keep {A} (p : A -> bool) (s : list A) :
  (forall c, last s = Some c -> p c = false) -> drop_end_while p s = s.
Proof.
  destruct s as [|c s _] using rev_ind; [done|].
  intros H. rewrite drop_end_while_snoc. by rewrite (H c) by apply last_snoc.
Qed.

Lemma trim_end_trim (s : str) : trim (trim_end s) = trim s.
Proof.
  unfold trim. induction s as [|c s IH] using rev_ind; [done|].
  unfold trim_end at 2. rewrite drop_end_while_snoc.
  destruct (is_whitespace c) eqn:Hc; [|done].
  unfold trim_end in IH at 2. rewrite IH.
  unfold trim_start. clear IH. induction s as [|d s IH]; simpl.
  - by rewrite Hc.
  - destruct (is_whitespace d); [done|].
    unfold trim_end. change (d :: s ++ [c]) with ((d :: s) ++ [c]).
    by rewrite drop_end_while_snoc, Hc.
Qed.

Lemma trim_idemp (s : str) : trim (trim s) = trim s.
Proof.
  unfold trim at 2. rewrite trim_end_trim. unfold trim, trim_start. by rewrite drop_while_idemp.
Qed.

Lemma strip_prefix_Some (p s r : str) : strip_prefix p s = Some r <-> s = p ++ r.
Proof.
  revert s; induction p as [|a p IH]; intros [|b s]; simpl; try naive_solver.
  destruct (a =? b)%N eqn:Hab; bool_to_prop; [subst; rewrite IH; naive_solver|].
  split; [done|]. intros ?; simplify_eq.
Qed.

Lemma strip_prefix_app (p r : str) : strip_prefix p (p ++ r) = Some r.
Proof. by apply strip_prefix_Some. Qed.

Lemma starts_with_true (p s : str) : starts_with p s = true <-> exists r, s = p ++ r.
Proof.
  unfold starts_with. rewrite bool_decide_eq_true. unfold is_Some.
  split; intros [r Hr]; exists r; [by apply strip_prefix_Some | by apply strip_prefix_Some in Hr || apply strip_prefix_Some].
Qed.

Lemma strip_suffix_Some (p s r : str) : strip_suffix p s = Some r <-> s = r ++ p.
Proof.
  unfold strip_suffix. destruct (strip_prefix (reverse p) (reverse s)) as [q|] eqn:Hq; simpl.
  - apply strip_prefix_Some in Hq.
    assert (s = reverse q ++ p) as ->.
    { rewrite <- (reverse_involutive s), Hq, reverse_app. by rewrite reverse_involutive. }
    split; [intros; by simplify_eq|]. intros Heq. f_equal. by simplify_list_eq.
  - split; [done|]. intros ->. rewrite reverse_app, strip_prefix_app in Hq. done.
Qed.

Lemma ends_with_true (p s : str) : ends_with p s = true <-> exists r, s = r ++ p.
Proof.
  unfold ends_with. rewrite bool_decide_eq_true.
  split; intros [r Hr]; exists r; by apply strip_suffix_Some.
Qed.

Lemma contains_char_false (c : char) (s : str) : contains_char c s = false <-> c ∉ s.
Proof.
  unfold contains_char. rewrite <- not_true_iff_false, existsb_exists. split.
  - intros Hc Hin. apply Hc. exists c. split; [by apply list_elem_of_In|apply N.eqb_refl].
  - intros Hc (x & Hin%list_elem_of_In & ->%N.eqb_eq). done.
Qed.

Lemma find_sub_Some (n s b r : str) : find_sub n s = Some (b, r) -> s = b ++ n ++ r.
Proof.
  revert b r. induction s as [|c s IH]; intros b r; cbn [find_sub].
  - destruct (strip_prefix n []) eqn:Hs; [|done]. intros [= <- <-]. by apply strip_prefix_Some in Hs.
  - destruct (strip_prefix n (c :: s)) eqn:Hs; [intros [= <- <-]; by apply strip_prefix_Some in Hs|].
    destruct (find_sub n s) as [[b' r']|]; [|done]. intros [= <- <-]. cbn. f_equal. by apply IH.
Qed.

#[export] Hint Rewrite @drop_while_idemp @drop_end_while_idemp strip_prefix_app : rust.

(** Splitting inverts joining. *)
Lemma split_on_app_no (c : char) (s : str) :
  c ∉ s -> split_on c s = [s].
Proof.
  induction s as [|x s IH]; intros Hn; simpl; [done|].
  destruct (x =? c)%N eqn:Hx; bool_to_prop; [set_solver|].
  rewrite IH by set_solver. done.
Qed.

Lemma split_on_app (c : char) (s t : str) :
  c ∉ s -> split_on c (s ++ c :: t) = s :: split_on c t.
Proof.
  induction s as [|x s IH]; intros Hn; simpl.
  - by rewrite N.eqb_refl.
  - destruct (x =? c)%N eqn:Hx; bool_to_prop; [set_solver|].
    by rewrite IH by set_solver.
Qed.

Lemma split_on_join (c : char) (ls : list str) :
  ls <> [] -> Forall (fun l => c ∉ l) ls -> split_on c (join [c] ls) = ls.
Proof.
  induction ls as [|l ls IH]; intros Hne Hall; [done|].
  inversion Hall; subst. destruct ls as [|l' ls]; simpl.
  - by apply split_on_app_no.
  - rewrite split_on_app by done. f_equal. by apply IH.
Qed.

Lemma join_split_on (c : char) (s : str) : join [c] (split_on c s) = s.
Proof.
  induction s as [|x s IH]; simpl; [done|].
  assert (split_on c s <> []) as Hne.
  { clear. destruct s as [|y s]; simpl; [done|]. destruct (y =? c)%N; [done|]. by destruct (split_on c s). }
  destruct (x =? c)%N eqn:Hx; bool_to_prop.
  - subst. destruct (split_on c s) eqn:Hs; [done|]. change (c :: join [c] (l :: l0) = c :: s). by rewrite IH.
  - destruct (split_on c s) as [|p ps]; [done|]. rewrite <- IH. by destruct ps.
Qed.

Lemma split_once_app_eq c s a b : split_once c s = Some (a, b) -> s = a ++ c :: b.
Proof.
  revert a. induction s as [|y s IH]; intros a; cbn [split_once]; [done|].
  destruct (y =? c)%N eqn:Hy; bool_to_prop; [intros; by simplify_eq|].
  destruct (split_once c s) as [[a' b']|]; [|done]. intros [= <- <-]. cbn [app]. f_equal. by apply IH.
Qed.

Lemma rsplit_once_app_eq c s a b : rsplit_once c s = Some (a, b) -> s = a ++ c :: b.
Proof.
  unfold rsplit_once. destruct (split_once c (reverse s)) as [[x y]|] eqn:Hs; [|done]. intros [= <- <-].
  apply split_once_app_eq in Hs. rewrite <- (reverse_involutive s), Hs, reverse_app, reverse_cons.
  by rewrite <- app_assoc.
Qed.

(** A line of text as [str::lines] yields it from a text that was joined with ['\n']. *)
Definition line_ok (l : str) : Prop := LF ∉ l /\ last l <> Some CR.

Lemma strip_cr_id (l : str) : last l <> Some CR -> strip_cr l = l.
Proof.
  unfold strip_cr. intros H. destruct (strip_suffix [CR] l) as [r|] eqn:Hs; [|done].
  apply strip_suffix_Some in Hs as ->. by rewrite last_snoc in H.
Qed.

Lemma str_lines_join (ls : list str) :
  ls <> [] -> last ls <> Some [] -> Forall line_ok ls -> str_lines (join [LF] ls) = ls.
Proof.
  intros Hne Hlast Hall. unfold str_lines.
  rewrite split_on_join; [|done|eapply Forall_impl; [exact Hall|]; by intros l [? _]].
  clear Hne. induction Hall as [|l ls [_ Hcr] Hall IH]; [done|].
  destruct ls as [|l' ls]; simpl in *.
  - rewrite bool_decide_eq_false_2; [done|]. congruence.
  - rewrite strip_cr_id by done. f_equal. by apply IH.
Qed.

Lemma trim_id (s : str) :
  (forall c, head s = Some c -> is_whitespace c = false) ->
  (forall c, last s = Some c -> is_whitespace c = false) -> trim s = s.
Proof.
  intros Hh Hl. unfold trim, trim_start, trim_end.
  assert (drop_while is_whitespace s = s) as ->.
  { destruct s as [|c s]; [done|]. simpl. by rewrite (Hh c). }
  by apply drop_end_while_keep.
Qed.

Lemma line_ok_app (m p : str) : line_ok m -> line_ok p -> line_ok (m ++ p).
Proof.
  intros [? Hm] [? Hp]. split; [set_solver|]. rewrite last_app. by destruct (last p).
Qed.

#[export] Instance line_ok_dec (l : str) : Decision (line_ok l).
Proof. unfold line_ok. apply _. Defined.

Lemma join_snoc (sep : str) (ls : list str) (x : str) :
  ls <> [] -> join sep (ls ++ [x]) = join sep ls ++ sep ++ x.
Proof.
  induction ls as [|l ls IH]; intros Hne; [done|]. destruct ls as [|l' ls]; [done|].
  change (join sep ((l :: l' :: ls) ++ [x])) with (l ++ sep ++ join sep ((l' :: ls) ++ [x])).
  rewrite IH by done. simpl. by rewrite <- !app_assoc.
Qed.

Lemma join_head (sep : str) (c : char) (l : str) (ls : list str) :
  head (join sep ((c :: l) :: ls)) = Some c.
Proof. by destruct ls. Qed.

(** Byte lengths, and slicing at the length of a prefix, which never panics. *)
Lemma len_utf8_pos (c : char) : (1 <= len_utf8 c <= 4)%N.
Proof. unfold len_utf8. repeat case_match; lia. Qed.

Lemma str_len_app (s t : str) : str_len (s ++ t) = (str_len s + str_len t)%N.
Proof. induction s as [|c s IH]; [done|]. cbn [app str_len]. rewrite IH. lia. Qed.

Lemma split_at_byte_app (s t : str) : split_at_byte (str_len s) (s ++ t) = Some (s, t).
Proof.
  induction s as [|c s IH]; [by destruct t|]. cbn [str_len app split_at_byte].
  pose proof (len_utf8_pos c). rewrite (proj2 (N.eqb_neq _ _)) by lia.
  rewrite (proj2 (N.leb_le _ _)) by lia.
  replace (len_utf8 c + str_len s - len_utf8 c)%N with (str_len s) by lia. by rewrite IH.
Qed.

Lemma split_at_byte_Some (n : N) (s a b : str) :
  split_at_byte n s = Some (a, b) -> s = a ++ b /\ str_len a = n.
Proof.
  revert n a. induction s as [|c s IH]; intros n a; cbn [split_at_byte].
  - destruct (n =? 0)%N eqn:Hn; bool_to_prop; intros; by simplify_eq/=.
  - destruct (n =? 0)%N eqn:Hn; bool_to_prop; [intros; by simplify_eq/=|].
    destruct (len_utf8 c <=? n)%N eqn:Hc; [|done]; bool_to_prop.
    destruct (split_at_byte _ s) as [[a' b']|] eqn:Hs; [|done].
    intros ?; simplify_eq/=. apply IH in Hs as [-> Hlen]. split; [done|lia].
Qed.

(** The order of strings is total. *)
Definition str_lt (s t : str) : Prop := str_leb s t = true /\ s <> t.

Lemma str_leb_total s t : str_leb s t = true \/ str_leb t s = true.
Proof.
  revert t. induction s as [|a s IH]; intros [|b t]; cbn [str_leb]; auto.
  destruct (N.lt_trichotomy a b) as [Hab|[->|Hab]].
  - left. rewrite (proj2 (N.eqb_neq _ _)) by lia. by apply N.ltb_lt.
  - rewrite N.eqb_refl. apply IH.
  - right. rewrite (proj2 (N.eqb_neq _ _)) by lia. by apply N.ltb_lt.
Qed.

Lemma str_leb_antisym s t : str_leb s t = true -> str_leb t s = true -> s = t.
Proof.
  revert t. induction s as [|a s IH]; intros [|b t]; cbn [str_leb]; try done.
  rewrite (N.eqb_sym b a). destruct (a =? b)%N eqn:E; bool_to_prop; [subst; intros; f_equal; auto|].
  intros; bool_to_prop; lia.
Qed.

Lemma str_leb_trans r s t : str_leb r s = true -> str_leb s t = true -> str_leb r t = true.
Proof.
  revert s t. induction r as [|a r IH]; intros [|b s] [|c t]; cbn [str_leb]; try done.
  destruct (a =? b)%N eqn:E1, (b =? c)%N eqn:E2; bool_to_prop; subst; rewrite ?N.eqb_refl; eauto.
  - by rewrite (proj2 (N.eqb_neq _ _)).
  - by rewrite (proj2 (N.eqb_neq _ _)).
  - intros; bool_to_prop. rewrite (proj2 (N.eqb_neq _ _)) by lia. apply N.ltb_lt. lia.
Qed.

Lemma str_lt_trans r s t : str_leb r s = true -> str_lt s t -> str_lt r t.
Proof.
  intros H1 [H2 Hne]. split; [by eapply str_leb_trans|]. intros ->. by apply Hne, str_leb_antisym.
Qed.

(** Literals and prefix tests stay folded under [simpl]. *)
#[global] Arguments lit : simpl never.
#[global] Arguments strip_prefix : simpl never.
#[global] Arguments strip_suffix : simpl never.
#[global] Arguments starts_with : simpl never.
#[global] Arguments ends_with : simpl never.
#[global] Arguments trim : simpl never.
#[global] Arguments trim_start : simpl never.
#[global] Arguments trim_end : simpl never.

(** ** Vectors

    [Vec::remove], [Vec::insert] ([None] is the panic of an index past the end)
    and the stable [sort_by_key]. *)

Definition vec_remove {A} (i : nat) (l : list A) : list A := take i l ++ drop (S i) l.
Definition vec_insert {A} (i : nat) (x : A) (l : list A) : option (list A) :=
  if bool_decide (i ≤ length l)%nat then Some (take i l ++ x :: drop i l) else None.

Fixpoint insert_by_key {A} (key : A -> nat) (x : A) (l : list A) : list A :=
  match l with
  | [] => [x]
  | y :: l' => if bool_decide (key x ≤ key y)%nat then x :: y :: l' else y :: insert_by_key key x l'
  end.
Definition sort_by_key {A} (key : A -> nat) (l : list A) : list A := foldr (insert_by_key key) [] l.

Lemma insert_by_key_perm {A} (key : A -> nat) (x : A) (l : list A) :
  insert_by_key key x l ≡ₚ x :: l.
Proof.
  induction l as [|y l IH]; simpl; [done|]. destruct (bool_decide _); [done|].
  rewrite IH. by rewrite Permutation_swap.
Qed.

Lemma sort_by_key_perm {A} (key : A -> nat) (l : list A) : sort_by_key key l ≡ₚ l.
Proof. induction l as [|x l IH]; simpl; [done|]. by rewrite insert_by_key_perm, IH. Qed.

Definition sorted_by {A} (key : A -> nat) (l : list A) : Prop :=
  StronglySorted (fun a b => key a ≤ key b)%nat l.

Lemma insert_by_key_sorted {A} (key : A -> nat) (x : A) (l : list A) :
  sorted_by key l -> sorted_by key (insert_by_key key x l).
Proof.
  unfold sorted_by. induction 1 as [|y l Hs IH Hall]; simpl.
  - repeat constructor.
  - destruct (bool_decide _) eqn:Hb; bool_to_prop.
    + constructor; [by constructor|]. constructor; [done|].
      eapply Forall_impl; [exact Hall|]. simpl; lia.
    + constructor; [done|]. rewrite insert_by_key_perm. constructor; [lia|done].
Qed.

Lemma sort_by_key_sorted {A} (key : A -> nat) (l : list A) : sorted_by key (sort_by_key key l).
Proof. induction l; simpl; [constructor|]. by apply insert_by_key_sorted. Qed.

(** The sort is stable, so it leaves a sorted vector alone. *)
Lemma sort_by_key_id {A} (key : A -> nat) (l : list A) : sorted_by key l -> sort_by_key key l = l.
Proof.
  unfold sorted_by. induction 1 as [|x l Hs IH Hall]; simpl; [done|]. rewrite IH.
  destruct l as [|y l]; simpl; [done|]. inversion Hall; subst. by rewrite bool_decide_eq_true_2.
Qed.

(** ** Maxima and sorts under a boolean order

    [Iterator::max_by_key] keeps the last of the greatest elements; [sort_by]
    is stable. *)

Definition max_step {A} (le : A -> A -> bool) (best x : A) : A := if le best x then x else best.
Definition max_by {A} (le : A -> A -> bool) (l : list A) : option A :=
  match l with [] => None | x :: l => Some (fold_left (max_step le) l x) end.

Fixpoint insert_by {A} (le : A -> A -> bool) (x : A) (l : list A) : list A :=
  match l with
  | [] => [x]
  | y :: l' => if le x y then x :: l else y :: insert_by le x l'
  end.
Definition sort_by {A} (le : A -> A -> bool) (l : list A) : list A := foldr (insert_by le) [] l.

Lemma max_fold_in {A} (le : A -> A -> bool) (l : list A) (x : A) :
  fold_left (max_step le) l x ∈ x :: l.
Proof.
  revert x. induction l as [|y l IH]; intros x; simpl; [set_solver|].
  specialize (IH (max_step le x y)). unfold max_step in *. destruct (le x y); set_solver.
Qed.

Lemma max_by_in {A} (le : A -> A -> bool) (l : list A) (x : A) : max_by le l = Some x -> x ∈ l.
Proof. destruct l as [|y l]; intros H; simplify_eq/=. apply max_fold_in. Qed.

Lemma max_by_None {A} (le : A -> A -> bool) (l : list A) : max_by le l = None <-> l = [].
Proof. by destruct l. Qed.

Section max_order.
Context {A : Type} (le : A -> A -> bool).
Context (le_refl : forall x, le x x = true).
Context (le_trans : forall x y z, le x y = true -> le y z = true -> le x z = true).
Context (le_total : forall x y, le x y = true \/ le y x = true).

Lemma max_fold_upper (l : list A) (x y : A) : y ∈ x :: l -> le y (fold_left (max_step le) l x) = true.
Proof.
  revert x y. induction l as [|z l IH]; intros x y Hy; simpl.
  - apply list_elem_of_singleton in Hy as ->. apply le_refl.
  - assert (le x (max_step le x z) = true /\ le z (max_step le x z) = true) as [Hx Hz].
    { unfold max_step. destruct (le x z) eqn:E; [by rewrite E|].
      split; [done|]. destruct (le_total x z); congruence. }
    rewrite !elem_of_cons in Hy. destruct Hy as [->|[->|Hy]].
    + apply (le_trans _ _ _ Hx), IH. set_solver.
    + apply (le_trans _ _ _ Hz), IH. set_solver.
    + apply IH. set_solver.
Qed.

Lemma max_by_upper (l : list A) (x y : A) : max_by le l = Some x -> y ∈ l -> le y x = true.
Proof. destruct l as [|z l]; intros H; simplify_eq/=. apply max_fold_upper. Qed.
End max_order.

Lemma insert_by_perm {A} (le : A -> A -> bool) (x : A) (l : list A) : insert_by le x l ≡ₚ x :: l.
Proof.
  induction l as [|y l IH]; simpl; [done|]. destruct (le x y); [done|].
  rewrite IH. apply Permutation_swap.
Qed.
Lemma sort_by_perm {A} (le : A -> A -> bool) (l : list A) : sort_by le l ≡ₚ l.
Proof. induction l as [|x l IH]; simpl; [done|]. by rewrite insert_by_perm, IH. Qed.

(** ** Boolean list functions *)

Lemma elem_of_filter_bool {A} (f : A -> bool) (l : list A) (x : A) :
  x ∈ List.filter f l <-> x ∈ l /\ f x = true.
Proof. rewrite !list_elem_of_In. apply filter_In. Qed.

Lemma existsb_false {A} (f : A -> bool) (l : list A) (x : A) : existsb f l = false -> x ∈ l -> f x = false.
Proof.
  intros Hf Hx. apply not_true_iff_false. intros Ht. apply not_true_iff_false in Hf. apply Hf.
  apply existsb_exists. exists x. split; [by apply list_elem_of_In|done].
Qed.
