(* ===== verification/Template.v ===== *)
(** * Templates: [utils/template/src/lib.rs]

    [Template::parse] walks over the source with a byte cursor and slices the text
    at it; slices are [split_at_byte], whose [None] is the panic of an offset that
    is not a character boundary, so that a result of [Some] is a proof that no
    slice panics.  [BTreeSet]s and [BTreeMap]s are lists sorted by key.  The loops
    take the number of characters as fuel: every turn moves the cursor by at least
    one. *)

From S2P Require Import Prelude.

(** ** Data *)

Inductive TemplateParseError : Type :=
| EmptyPlaceholder (start : N)
| NestedPlaceholder (start : N)
| UnmatchedClosingDelimiter (start : N)
| UnterminatedPlaceholder (start : N).
Inductive TemplateRenderError : Type :=
| DuplicateValue (name : str)
| ExtraValue (name : str)
| MissingValue (name : str).
Inductive TemplateError : Type :=
| TemplateParse (e : TemplateParseError)
| TemplateRender (e : TemplateRenderError).

Inductive Segment : Type :=
| Literal (s : str)
| Placeholder (name : str).
#[export] Instance Segment_eq_dec : EqDecision Segment.
Proof. solve_decision. Defined.
Record Template : Type := mkTemplate { placeholders : list str; segments : list Segment }.

Definition OPEN : str := lit "{{".
Definition CLOSE : str := lit "}}".
Definition ESCAPED_OPEN : str := lit "{{{{".
Definition ESCAPED_CLOSE : str := lit "}}}}".

(** [BTreeSet::insert] on the sorted list of the elements. *)
Fixpoint btree_set_insert (x : str) (l : list str) : list str :=
  match l with
  | [] => [x]
  | y :: l' => if x =s? y then l else if str_leb x y then x :: l else y :: btree_set_insert x l'
  end.
(** [BTreeMap::insert]: the old value, and the new map. *)
Fixpoint btree_map_insert {V} (k : str) (v : V) (m : list (str * V)) : option V * list (str * V) :=
  match m with
  | [] => (None, [(k, v)])
  | (k', v') :: m' =>
      if k =s? k' then (Some v', (k, v) :: m')
      else if str_leb k k' then (None, (k, v) :: m)
      else let '(old, m') := btree_map_insert k v m' in (old, (k', v') :: m')
  end.
Fixpoint btree_map_get {V} (k : str) (m : list (str * V)) : option V :=
  match m with
  | [] => None
  | (k', v) :: m => if k' =s? k then Some v else btree_map_get k m
  end.

(** [&s[a..]] and [&s[a..b]]. *)
Definition slice_from (a : N) (s : str) : option str := snd <$> split_at_byte a s.
Definition slice (a b : N) (s : str) : option str := '(t, _) ← split_at_byte b s; slice_from a t.

(** ** Parsing *)

Definition push_literal (segments : list Segment) (literal : str) : list Segment :=
  if literal =s? [] then segments
  else match last segments with
       | Some (Literal existing) => removelast segments ++ [Literal (existing ++ literal)]
       | _ => segments ++ [Literal literal]
       end.

(** [None] is a panic; the inner result is the one of the code. *)
Fixpoint parse_placeholder_loop (fuel : nat) (source : str) (start placeholder_start cursor : N) :
  option (result TemplateParseError (str * N)) :=
  match fuel with
  | O => None
  | S fuel =>
      if (cursor <? str_len source)%N then
        rest ← slice_from cursor source;
        if starts_with OPEN rest then Some (Err (NestedPlaceholder start))
        else if starts_with CLOSE rest then
          raw ← slice placeholder_start cursor source;
          let placeholder := trim raw in
          if placeholder =s? [] then Some (Err (EmptyPlaceholder start))
          else Some (Ok (placeholder, cursor + str_len CLOSE)%N)
        else match rest with
             | [] => Some (Err (UnterminatedPlaceholder start))
             | ch :: _ => parse_placeholder_loop fuel source start placeholder_start (cursor + len_utf8 ch)
             end
      else Some (Err (UnterminatedPlaceholder start))
  end.
Definition parse_placeholder (source : str) (start : N) : option (result TemplateParseError (str * N)) :=
  let placeholder_start := (start + str_len OPEN)%N in
  parse_placeholder_loop (S (length source)) source start placeholder_start placeholder_start.

Fixpoint parse_loop (fuel : nat) (source : str) (placeholders : list str) (segments : list Segment)
    (literal_start cursor : N) : option (result TemplateParseError Template) :=
  match fuel with
  | O => None
  | S fuel =>
      if (cursor <? str_len source)%N then
        rest ← slice_from cursor source;
        if starts_with ESCAPED_OPEN rest then
          literal ← slice literal_start cursor source;
          let cursor := (cursor + str_len ESCAPED_OPEN)%N in
          parse_loop fuel source placeholders (push_literal (push_literal segments literal) OPEN) cursor cursor
        else if starts_with ESCAPED_CLOSE rest then
          literal ← slice literal_start cursor source;
          let cursor := (cursor + str_len ESCAPED_CLOSE)%N in
          parse_loop fuel source placeholders (push_literal (push_literal segments literal) CLOSE) cursor cursor
        else if starts_with OPEN rest then
          literal ← slice literal_start cursor source;
          let segments := push_literal segments literal in
          parsed ← parse_placeholder source cursor;
          match parsed with
          | Err e => Some (Err e)
          | Ok (placeholder, next_cursor) =>
              parse_loop fuel source (btree_set_insert placeholder placeholders)
                (segments ++ [Placeholder placeholder]) next_cursor next_cursor
          end
        else if starts_with CLOSE rest then Some (Err (UnmatchedClosingDelimiter cursor))
        else match rest with
             | [] => literal ← slice_from literal_start source;
                     Some (Ok (mkTemplate placeholders (push_literal segments literal)))
             | ch :: _ => parse_loop fuel source placeholders segments literal_start (cursor + len_utf8 ch)
             end
      else
        literal ← slice_from literal_start source;
        Some (Ok (mkTemplate placeholders (push_literal segments literal)))
  end.
Definition parse (source : str) : option (result TemplateParseError Template) :=
  parse_loop (S (length source)) source [] [] 0 0.

(** ** Rendering *)

Fixpoint build_variable_map (variables : list (str * str)) (map : list (str * str)) :
  result TemplateRenderError (list (str * str)) :=
  match variables with
  | [] => Ok map
  | (name, value) :: variables =>
      match btree_map_insert name value map with
      | (Some _, _) => Err (DuplicateValue name)
      | (None, map) => build_variable_map variables map
      end
  end.

Definition contains_key {V} (m : list (str * V)) (k : str) : bool := bool_decide (is_Some (btree_map_get k m)).

Fixpoint render_segments (variables : list (str * str)) (segments : list Segment) (rendered : str) :
  result TemplateRenderError str :=
  match segments with
  | [] => Ok rendered
  | Literal literal :: segments => render_segments variables segments (rendered ++ literal)
  | Placeholder name :: segments =>
      match btree_map_get name variables with
      | None => Err (MissingValue name)
      | Some value => render_segments variables segments (rendered ++ value)
      end
  end.

Definition template_render (self : Template) (variables : list (str * str)) : result TemplateRenderError str :=
  match build_variable_map variables [] with
  | Err e => Err e
  | Ok variables =>
      match List.find (fun placeholder => negb (contains_key variables placeholder)) (placeholders self) with
      | Some placeholder => Err (MissingValue placeholder)
      | None =>
          match List.find (fun name => negb (bool_decide (name ∈ placeholders self))) (map fst variables) with
          | Some name => Err (ExtraValue name)
          | None => render_segments variables (segments self) []
          end
      end
  end.

(** The function [render]; [None] is a panic. *)
Definition template_render_source (template : str) (variables : list (str * str)) :
  option (result TemplateError str) :=
  parsed ← parse template;
  Some (match parsed with
        | Err e => Err (TemplateParse e)
        | Ok t => map_err TemplateRender (template_render t variables)
        end).

(** ** The parser on the text that is left

    [parse_at] is the loop with the text cut at its cursors: [pre] before the
    current literal, [literal] up to the cursor, [rest] behind it. *)

Definition parse_at (fuel : nat) (pre literal rest : str) (phs : list str) (segs : list Segment) :=
  parse_loop fuel (pre ++ literal ++ rest) phs segs (str_len pre) (str_len (pre ++ literal)).

(** A placeholder, character by character: the raw name and the text behind it. *)
Fixpoint placeholder_ref (start : N) (acc rest : str) : result TemplateParseError (str * str) :=
  match rest with
  | [] => Err (UnterminatedPlaceholder start)
  | ch :: rest' =>
      if starts_with OPEN rest then Err (NestedPlaceholder start)
      else match strip_prefix CLOSE rest with
           | Some after => if trim acc =s? [] then Err (EmptyPlaceholder start) else Ok (acc, after)
           | None => placeholder_ref start (acc ++ [ch]) rest'
           end
  end.

Lemma slice_from_app (a b : str) : slice_from (str_len a) (a ++ b) = Some b.
Proof. unfold slice_from. by rewrite split_at_byte_app. Qed.
Lemma slice_app (a b c : str) : slice (str_len a) (str_len (a ++ b)) (a ++ b ++ c) = Some b.
Proof. unfold slice. rewrite app_assoc, split_at_byte_app. cbn. by rewrite slice_from_app. Qed.
Lemma slice_from_end (s : str) : slice_from (str_len s) s = Some [].
Proof. rewrite <- (app_nil_r s) at 2. apply slice_from_app. Qed.

Lemma cursor_lt (a b : str) : (str_len a <? str_len (a ++ b))%N = negb (b =s? []).
Proof.
  rewrite str_len_app. destruct b as [|c b]; cbn [str_len].
  - rewrite bool_decide_eq_true_2 by done. apply N.ltb_ge. lia.
  - rewrite bool_decide_eq_false_2 by done. pose proof (len_utf8_pos c). apply N.ltb_lt. lia.
Qed.

Lemma starts_with_strip (p s : str) : starts_with p s = match strip_prefix p s with Some _ => true | None => false end.
Proof. unfold starts_with. by destruct (strip_prefix p s). Qed.

Lemma parse_placeholder_loop_ref fuel pre acc rest :
  (length rest < fuel)%nat ->
  parse_placeholder_loop fuel (pre ++ OPEN ++ acc ++ rest) (str_len pre) (str_len (pre ++ OPEN))
    (str_len (pre ++ OPEN ++ acc))
  = Some (match placeholder_ref (str_len pre) acc rest with
          | Err e => Err e
          | Ok (raw, _) => Ok (trim raw, str_len (pre ++ OPEN ++ raw ++ CLOSE))
          end).
Proof.
  revert acc rest. induction fuel as [|fuel IH]; intros acc rest Hf; [lia|].
  cbn [parse_placeholder_loop].
  replace (pre ++ OPEN ++ acc ++ rest) with ((pre ++ OPEN ++ acc) ++ rest) by by rewrite <- !app_assoc.
  rewrite cursor_lt, slice_from_app. destruct rest as [|ch rest]; cbn [placeholder_ref]; [done|].
  rewrite bool_decide_eq_false_2 by done. cbn [negb mbind option_bind].
  destruct (starts_with OPEN (ch :: rest)); [done|].
  rewrite starts_with_strip. destruct (strip_prefix CLOSE (ch :: rest)) as [after|] eqn:Hc.
  - replace ((pre ++ OPEN ++ acc) ++ ch :: rest) with ((pre ++ OPEN) ++ acc ++ ch :: rest)
      by by rewrite <- !app_assoc.
    replace (str_len (pre ++ OPEN ++ acc)) with (str_len ((pre ++ OPEN) ++ acc)) by by rewrite <- !app_assoc.
    rewrite slice_app. cbn [mbind option_bind].
    destruct (trim acc =s? []); [done|]. do 2 f_equal. f_equal.
    by rewrite !str_len_app; lia.
  - rewrite <- (IH (acc ++ [ch]) rest) by (cbn in Hf; lia). f_equal; [by rewrite <- !app_assoc|].
    rewrite !str_len_app. cbn [str_len]. lia.
Qed.

Lemma placeholder_ref_split start acc rest raw after :
  placeholder_ref start acc rest = Ok (raw, after) ->
  acc ++ rest = raw ++ CLOSE ++ after /\ trim raw <> [] /\ (length after < length rest)%nat.
Proof.
  revert acc. induction rest as [|ch rest IH]; intros acc; cbn [placeholder_ref]; [done|].
  destruct (starts_with OPEN (ch :: rest)); [done|].
  destruct (strip_prefix CLOSE (ch :: rest)) as [a|] eqn:Hc.
  - apply strip_prefix_Some in Hc. case_bool_decide; [done|]. intros [= <- <-]. rewrite Hc.
    split_and!; [done..|]. rewrite length_app. change (length CLOSE) with 2%nat. lia.
  - intros H. apply IH in H as (Heq & Hr & Hl). rewrite <- app_assoc in Heq. cbn in *. split_and!; [done..|lia].
Qed.

(** One turn of the loop. *)
Lemma parse_at_S fuel pre literal rest phs segs :
  parse_at (S fuel) pre literal rest phs segs =
  match strip_prefix ESCAPED_OPEN rest with
  | Some r => parse_at fuel (pre ++ literal ++ ESCAPED_OPEN) [] r phs (push_literal (push_literal segs literal) OPEN)
  | None =>
  match strip_prefix ESCAPED_CLOSE rest with
  | Some r => parse_at fuel (pre ++ literal ++ ESCAPED_CLOSE) [] r phs (push_literal (push_literal segs literal) CLOSE)
  | None =>
  match strip_prefix OPEN rest with
  | Some r =>
      match placeholder_ref (str_len (pre ++ literal)) [] r with
      | Err e => Some (Err e)
      | Ok (raw, r) =>
          parse_at fuel (pre ++ literal ++ OPEN ++ raw ++ CLOSE) [] r (btree_set_insert (trim raw) phs)
            (push_literal segs literal ++ [Placeholder (trim raw)])
      end
  | None =>
  match strip_prefix CLOSE rest with
  | Some _ => Some (Err (UnmatchedClosingDelimiter (str_len (pre ++ literal))))
  | None =>
  match rest with
  | [] => Some (Ok (mkTemplate phs (push_literal segs literal)))
  | ch :: r => parse_at fuel pre (literal ++ [ch]) r phs segs
  end end end end end.
Proof.
  unfold parse_at. cbn [parse_loop]. rewrite app_assoc, cursor_lt, slice_from_app.
  destruct rest as [|ch rest].
  { cbn [negb bool_decide]. rewrite bool_decide_eq_true_2 by done. cbn [negb].
    rewrite app_nil_r, slice_from_app. done. }
  rewrite bool_decide_eq_false_2 by done. cbn [negb mbind option_bind].
  rewrite !starts_with_strip, <- app_assoc, slice_app. cbn [mbind option_bind].
  destruct (strip_prefix ESCAPED_OPEN (ch :: rest)) as [r|] eqn:H1.
  { apply strip_prefix_Some in H1. rewrite H1. unfold parse_at. rewrite app_nil_r, <- !app_assoc. cbn [app].
    f_equal; by rewrite !str_len_app; lia. }
  destruct (strip_prefix ESCAPED_CLOSE (ch :: rest)) as [r|] eqn:H2.
  { apply strip_prefix_Some in H2. rewrite H2. unfold parse_at. rewrite app_nil_r, <- !app_assoc. cbn [app].
    f_equal; by rewrite !str_len_app; lia. }
  destruct (strip_prefix OPEN (ch :: rest)) as [r|] eqn:H3.
  { apply strip_prefix_Some in H3. rewrite H3. unfold parse_placeholder.
    assert ((str_len (pre ++ literal) + str_len OPEN)%N = str_len ((pre ++ literal) ++ OPEN ++ [])) as ->
      by (rewrite app_nil_r, !str_len_app; lia).
    replace (pre ++ literal ++ OPEN ++ r) with ((pre ++ literal) ++ OPEN ++ [] ++ r) by by rewrite <- !app_assoc.
    pose proof (parse_placeholder_loop_ref (S (length ((pre ++ literal) ++ OPEN ++ [] ++ r))) (pre ++ literal) [] r) as Hp.
    rewrite app_nil_r in Hp |- *. rewrite Hp by (rewrite !length_app; lia). clear Hp. cbn [mbind option_bind].
    destruct (placeholder_ref _ [] r) as [[raw r']|e] eqn:Hr; [|done].
    apply placeholder_ref_split in Hr as (Hr & _). cbn [app] in Hr |- *. rewrite Hr. unfold parse_at.
    rewrite app_nil_r, <- !app_assoc. done. }
  destruct (strip_prefix CLOSE (ch :: rest)); [done|]. unfold parse_at. rewrite <- !app_assoc. cbn [app].
  f_equal. rewrite !str_len_app. cbn [str_len]. lia.
Qed.

(** ** Well-formed templates *)

Definition name_ok (n : str) : bool :=
  negb (n =s? []) && (trim n =s? n) && negb (contains_str OPEN n) && negb (contains_str CLOSE n).
(** No empty literal and no two literals side by side. *)
Fixpoint normal_segments (after_literal : bool) (segs : list Segment) : bool :=
  match segs with
  | [] => true
  | Literal s :: segs => negb after_literal && negb (s =s? []) && normal_segments true segs
  | Placeholder n :: segs => name_ok n && normal_segments false segs
  end.
Definition segment_names (segs : list Segment) : list str :=
  omap (fun s => match s with Placeholder n => Some n | Literal _ => None end) segs.

Record template_ok (t : Template) : Prop := {
  ok_segments : normal_segments false (segments t) = true;
  ok_names : forall n, n ∈ placeholders t <-> n ∈ segment_names (segments t);
  ok_sorted : StronglySorted str_lt (placeholders t)
}.

(** What a source spells: literals with their escapes, and trimmed names. *)
Inductive spells : list Segment -> str -> list Segment -> Prop :=
| spells_end acc : spells acc [] acc
| spells_escaped_open acc r out : spells (push_literal acc OPEN) r out -> spells acc (ESCAPED_OPEN ++ r) out
| spells_escaped_close acc r out : spells (push_literal acc CLOSE) r out -> spells acc (ESCAPED_CLOSE ++ r) out
| spells_name acc raw r out :
    trim raw <> [] -> spells (acc ++ [Placeholder (trim raw)]) r out -> spells acc (OPEN ++ raw ++ CLOSE ++ r) out
| spells_char acc c r out : spells (push_literal acc [c]) r out -> spells acc (c :: r) out.

(** Where an error points to. *)
Definition error_at (source : str) (e : TemplateParseError) : Prop :=
  exists before after, source = before ++ after /\
  match e with
  | UnmatchedClosingDelimiter start => start = str_len before /\ starts_with CLOSE after = true
  | EmptyPlaceholder start | NestedPlaceholder start | UnterminatedPlaceholder start =>
      start = str_len before /\ starts_with OPEN after = true
  end.

Lemma btree_set_insert_elem x y l : y ∈ btree_set_insert x l <-> y = x \/ y ∈ l.
Proof.
  induction l as [|z l IH]; cbn [btree_set_insert]; [set_solver|].
  case_bool_decide; [set_solver|]. destruct (str_leb x z); set_solver.
Qed.

Lemma btree_set_insert_sorted x l : StronglySorted str_lt l -> StronglySorted str_lt (btree_set_insert x l).
Proof.
  induction 1 as [|z l Hs IH Hall]; cbn [btree_set_insert]; [repeat constructor|].
  case_bool_decide as Hxz; [by constructor|]. destruct (str_leb x z) eqn:Hle.
  - constructor; [by constructor|]. constructor; [done|].
    eapply Forall_impl; [exact Hall|]. intros y Hy. by apply (str_lt_trans x z y).
  - constructor; [done|]. apply Forall_forall. intros y Hy. apply btree_set_insert_elem in Hy as [->|Hy].
    + split; [by destruct (str_leb_total x z); congruence|done].
    + rewrite Forall_forall in Hall. by apply Hall.
Qed.

Lemma push_literal_app segs a b : push_literal (push_literal segs a) b = push_literal segs (a ++ b).
Proof.
  unfold push_literal. destruct (decide (a = [])) as [->|Ha]; [done|].
  destruct (decide (b = [])) as [->|Hb]; [by rewrite app_nil_r|].
  rewrite (bool_decide_eq_false_2 (a = [])), (bool_decide_eq_false_2 (b = [])) by done.
  rewrite (bool_decide_eq_false_2 (a ++ b = [])) by (by destruct a).
  destruct (last segs) as [[s|n]|] eqn:Hl; rewrite ?last_snoc, ?removelast_last, <- ?app_assoc; done.
Qed.

Lemma normal_snoc b segs x :
  normal_segments b (segs ++ [x]) = normal_segments b segs
    && match x with
       | Literal s => negb (match last segs with Some (Literal _) => true | Some (Placeholder _) => false | None => b end)
                      && negb (s =s? [])
       | Placeholder n => name_ok n
       end.
Proof.
  revert b. induction segs as [|y segs IH]; intros b.
  - destruct x; cbn; by rewrite ?andb_true_r.
  - rewrite last_cons.
    cbn [app normal_segments]. destruct y as [s|n]; rewrite IH, !andb_assoc.
    all: destruct (last segs) as [[]|]; try done.
Qed.

Lemma push_literal_normal segs a :
  normal_segments false segs = true -> normal_segments false (push_literal segs a) = true.
Proof.
  intros H. unfold push_literal. case_bool_decide as Ha; [done|].
  destruct (last segs) as [[s|n]|] eqn:Hl; rewrite ?normal_snoc, ?H, ?Hl, ?bool_decide_eq_false_2 by done; try done.
  apply last_Some in Hl as [l ->]. rewrite removelast_last. rewrite normal_snoc in H. bool_to_prop.
  rewrite H, (bool_decide_eq_false_2 (s ++ a = [])) by by destruct s. by destruct (last l) as [[]|].
Qed.

Lemma push_literal_names segs a : segment_names (push_literal segs a) = segment_names segs.
Proof.
  unfold push_literal. case_bool_decide; [done|]. unfold segment_names.
  destruct (last segs) as [[s|n]|] eqn:Hl; rewrite ?omap_app; cbn; rewrite ?app_nil_r; try done.
  apply last_Some in Hl as [l ->]. rewrite removelast_last, omap_app. cbn. by rewrite app_nil_r.
Qed.

(** A name the scanner accepts holds no delimiter. *)
Lemma contains_str_app_l p a b : contains_str p a = true -> contains_str p (a ++ b) = true.
Proof.
  induction a as [|c a IH]; cbn [contains_str app]; intros H.
  - rewrite orb_false_r in H. apply starts_with_true in H as [r Hr].
    assert (p = []) as -> by (by destruct p). by destruct b.
  - apply orb_true_iff in H as [H|H]; apply orb_true_iff; [left|right; auto].
    apply starts_with_true in H as [r Hr]. apply starts_with_true. exists (r ++ b).
    change (c :: a ++ b) with ((c :: a) ++ b). by rewrite Hr, <- app_assoc.
Qed.
Lemma contains_str_app_r p a b : contains_str p b = true -> contains_str p (a ++ b) = true.
Proof. intros H. induction a as [|c a IH]; cbn [contains_str app]; [done|]. by rewrite IH, orb_true_r. Qed.

Lemma contains_trim p s : contains_str p (trim s) = true -> contains_str p s = true.
Proof.
  unfold trim, trim_start, trim_end. intros H.
  destruct (drop_while_suffix is_whitespace s) as (a & Ha & _). rewrite Ha. apply contains_str_app_r.
  destruct (drop_end_while_prefix is_whitespace (drop_while is_whitespace s)) as (b & Hb & _). rewrite Hb.
  by apply contains_str_app_l.
Qed.

(** No delimiter starts inside what the scanner has read. *)
Lemma placeholder_ref_clean start acc rest raw after :
  placeholder_ref start acc rest = Ok (raw, after) ->
  exists mid, raw = acc ++ mid /\ rest = mid ++ CLOSE ++ after
    /\ contains_str OPEN mid = false /\ contains_str CLOSE mid = false.
Proof.
  revert acc. induction rest as [|ch rest IH]; intros acc; cbn [placeholder_ref]; [done|].
  destruct (starts_with OPEN (ch :: rest)) eqn:Ho; [done|].
  destruct (strip_prefix CLOSE (ch :: rest)) as [a|] eqn:Hc.
  - case_bool_decide; [done|]. intros [= <- <-]. exists []. rewrite app_nil_r.
    split_and!; [done|by apply strip_prefix_Some in Hc|done..].
  - intros H. apply IH in H as (mid & -> & Hr & H1 & H2). exists (ch :: mid). rewrite <- app_assoc.
    split_and!; [done|by rewrite Hr|..]; cbn [contains_str]; rewrite ?H1, ?H2, orb_false_r.
    + apply not_true_iff_false. intros Hs. apply not_true_iff_false in Ho. apply Ho.
      rewrite starts_with_true in Hs |- *. destruct Hs as [r Hs]. exists (r ++ CLOSE ++ after).
      change (ch :: rest) with ([ch] ++ rest). rewrite Hr. cbn. change (ch :: mid ++ CLOSE ++ after) with ((ch :: mid) ++ CLOSE ++ after).
      by rewrite Hs, <- app_assoc.
    + apply not_true_iff_false. intros Hs. rewrite starts_with_true in Hs. destruct Hs as [r Hs].
      assert (strip_prefix CLOSE (ch :: rest) = Some (r ++ CLOSE ++ after)); [|congruence].
      apply strip_prefix_Some. rewrite Hr. change (ch :: mid ++ CLOSE ++ after) with ((ch :: mid) ++ CLOSE ++ after).
      by rewrite Hs, <- app_assoc.
Qed.

Lemma placeholder_ref_name start rest raw after :
  placeholder_ref start [] rest = Ok (raw, after) -> name_ok (trim raw) = true.
Proof.
  intros H. destruct (placeholder_ref_split _ _ _ _ _ H) as (_ & Hne & _).
  apply placeholder_ref_clean in H as (mid & -> & _ & H1 & H2). cbn [app] in *.
  unfold name_ok. rewrite bool_decide_eq_false_2, trim_idemp, bool_decide_eq_true_2 by done. cbn.
  destruct (contains_str OPEN (trim mid)) eqn:E1; [apply contains_trim in E1; congruence|].
  destruct (contains_str CLOSE (trim mid)) eqn:E2; [apply contains_trim in E2; congruence|]. done.
Qed.

(** ** Soundness of the parser *)

Lemma spells_cons_literal segs literal ch r out :
  spells (push_literal segs (literal ++ [ch])) r out -> spells (push_literal segs literal) (ch :: r) out.
Proof. intros H. apply spells_char. by rewrite push_literal_app. Qed.

Lemma parse_at_sound fuel pre literal rest phs segs :
  (length rest < fuel)%nat -> normal_segments false segs = true ->
  (forall n, n ∈ phs <-> n ∈ segment_names segs) -> StronglySorted str_lt phs ->
  exists r, parse_at fuel pre literal rest phs segs = Some r /\
  match r with
  | Ok t => template_ok t /\ spells (push_literal segs literal) rest (segments t)
  | Err e => error_at (pre ++ literal ++ rest) e
  end.
Proof.
  revert pre literal rest phs segs. induction fuel as [|fuel IH]; intros pre literal rest phs segs Hf Hn Hp Hs; [lia|].
  rewrite parse_at_S.
  destruct (strip_prefix ESCAPED_OPEN rest) as [r|] eqn:H1; [|destruct (strip_prefix ESCAPED_CLOSE rest) as [r|] eqn:H2;
    [|destruct (strip_prefix OPEN rest) as [r|] eqn:H3; [|destruct (strip_prefix CLOSE rest) as [r|] eqn:H4; [|destruct rest as [|ch r]]]]].
  - apply strip_prefix_Some in H1 as ->. rewrite length_app in Hf. change (length ESCAPED_OPEN) with 4%nat in Hf.
    edestruct (IH (pre ++ literal ++ ESCAPED_OPEN) [] r phs (push_literal (push_literal segs literal) OPEN))
      as (x & -> & Hx); [lia|by do 2 apply push_literal_normal|by rewrite !push_literal_names|done|].
    exists x. split; [done|]. destruct x as [t|e]; [destruct Hx; split; [done|by apply spells_escaped_open]|].
    by rewrite <- !app_assoc in Hx.
  - apply strip_prefix_Some in H2 as ->. rewrite length_app in Hf. change (length ESCAPED_CLOSE) with 4%nat in Hf.
    edestruct (IH (pre ++ literal ++ ESCAPED_CLOSE) [] r phs (push_literal (push_literal segs literal) CLOSE))
      as (x & -> & Hx); [lia|by do 2 apply push_literal_normal|by rewrite !push_literal_names|done|].
    exists x. split; [done|]. destruct x as [t|e]; [destruct Hx; split; [done|by apply spells_escaped_close]|].
    by rewrite <- !app_assoc in Hx.
  - apply strip_prefix_Some in H3 as ->. rewrite length_app in Hf. change (length OPEN) with 2%nat in Hf.
    destruct (placeholder_ref (str_len (pre ++ literal)) [] r) as [[raw r']|e] eqn:Hr.
    + destruct (placeholder_ref_split _ _ _ _ _ Hr) as (Heq & Hne & Hl). cbn [app] in Heq.
      edestruct (IH (pre ++ literal ++ OPEN ++ raw ++ CLOSE) [] r' (btree_set_insert (trim raw) phs)
        (push_literal segs literal ++ [Placeholder (trim raw)])) as (x & -> & Hx).
      * lia.
      * rewrite normal_snoc, push_literal_normal by done. cbn. by eapply placeholder_ref_name.
      * intros n. rewrite btree_set_insert_elem. unfold segment_names. rewrite omap_app. cbn.
        fold (segment_names (push_literal segs literal)). rewrite push_literal_names, Hp. set_solver.
      * by apply btree_set_insert_sorted.
      * exists x. split; [done|]. rewrite Heq. destruct x as [t|e]; [destruct Hx; split; [done|by apply spells_name]|].
        by rewrite <- !app_assoc in Hx.
    + eexists. split; [done|]. exists (pre ++ literal), (OPEN ++ r). rewrite <- app_assoc. split; [done|].
      assert (forall acc, placeholder_ref (str_len (pre ++ literal)) acc r = Err e -> e ∈
        [UnterminatedPlaceholder (str_len (pre ++ literal)); NestedPlaceholder (str_len (pre ++ literal));
         EmptyPlaceholder (str_len (pre ++ literal))]) as He.
      { clear. induction r as [|ch r IHr]; intros acc; cbn [placeholder_ref]; [intros [= <-]; set_solver|].
        destruct (starts_with OPEN (ch :: r)); [intros [= <-]; set_solver|].
        destruct (strip_prefix CLOSE (ch :: r)); [|apply IHr]. case_bool_decide; [intros [= <-]; set_solver|done]. }
      apply He in Hr. rewrite !elem_of_cons, elem_of_nil in Hr.
      assert (starts_with OPEN (OPEN ++ r) = true) by (apply starts_with_true; eauto).
      destruct Hr as [->|[->|[->|[]]]]; done.
  - eexists. split; [done|]. apply strip_prefix_Some in H4 as ->. exists (pre ++ literal), (CLOSE ++ r).
    rewrite <- app_assoc. split_and!; [done..|]. apply starts_with_true. eauto.
  - eexists. split; [done|]. cbn. split; [|constructor]. split; cbn; [by apply push_literal_normal| |done].
    by rewrite push_literal_names.
  - edestruct (IH pre (literal ++ [ch]) r phs segs) as (x & -> & Hx); [cbn in Hf; lia|done..|].
    exists x. split; [done|]. destruct x as [t|e]; [destruct Hx; split; [done|by apply spells_cons_literal]|].
    by rewrite <- !app_assoc in Hx.
Qed.

(** ** Printing *)

(** A literal with its delimiters doubled; [dangling] when a single brace is left
    at the end. *)
Fixpoint escape (s : str) : str :=
  match s with
  | a :: ((b :: s'') as s') =>
      if (a =? 123)%N && (b =? 123)%N then ESCAPED_OPEN ++ escape s''
      else if (a =? 125)%N && (b =? 125)%N then ESCAPED_CLOSE ++ escape s''
      else a :: escape s'
  | _ => s
  end.
Fixpoint dangling (s : str) : bool :=
  match s with
  | [] => false
  | [a] => (a =? 123)%N
  | a :: ((b :: s'') as s') =>
      if ((a =? 123)%N && (b =? 123)%N) || ((a =? 125)%N && (b =? 125)%N) then dangling s'' else dangling s'
  end.
Definition print_segment (s : Segment) : str :=
  match s with
  | Literal s => escape s
  | Placeholder n => OPEN ++ [SP] ++ n ++ [SP] ++ CLOSE
  end.
Definition print_segments (segs : list Segment) : str := concat (map print_segment segs).

(** A literal in front of a placeholder must not end in a single brace. *)
Fixpoint printable (segs : list Segment) : bool :=
  match segs with
  | Literal s :: ((Placeholder _ :: _) as segs') => negb (dangling s) && printable segs'
  | _ :: segs' => printable segs'
  | [] => true
  end.

Definition add_segment (acc : list Segment) (s : Segment) : list Segment :=
  match s with Literal s => push_literal acc s | Placeholder _ => acc ++ [s] end.

Lemma add_segments_normal acc segs :
  normal_segments (match last acc with Some (Literal _) => true | _ => false end) segs = true ->
  fold_left add_segment segs acc = acc ++ segs.
Proof.
  revert acc. induction segs as [|s segs IH]; intros acc H; cbn [fold_left]; [by rewrite app_nil_r|].
  destruct s as [s|n]; cbn [normal_segments add_segment] in *; bool_to_prop.
  - unfold push_literal. rewrite bool_decide_eq_false_2 by done.
    destruct (last acc) as [[s'|n']|] eqn:Hl; try done; rewrite IH by (by rewrite last_snoc); by rewrite <- app_assoc.
  - rewrite IH by (by rewrite last_snoc). by rewrite <- app_assoc.
Qed.

Lemma strip2_None (p : char) c d s : c <> p \/ d <> p -> strip_prefix [p; p] (c :: d :: s) = None.
Proof.
  intros H. destruct (strip_prefix [p; p] (c :: d :: s)) as [r|] eqn:E; [|done].
  apply strip_prefix_Some in E. injection E as -> -> _. destruct H; done.
Qed.

Lemma strip2_single (p c : char) : strip_prefix [p; p] [c] = None.
Proof. destruct (strip_prefix [p; p] [c]) as [r|] eqn:E; [|done]. by apply strip_prefix_Some in E. Qed.

(** A character that starts no delimiter is read as it is. *)
Lemma parse_at_char fuel pre literal c r phs segs :
  match r with d :: _ => (c <> 123 \/ d <> 123) /\ (c <> 125 \/ d <> 125) | [] => True end%N ->
  parse_at (S fuel) pre literal (c :: r) phs segs = parse_at fuel pre (literal ++ [c]) r phs segs.
Proof.
  intros H. rewrite parse_at_S.
  assert (strip_prefix OPEN (c :: r) = None /\ strip_prefix CLOSE (c :: r) = None) as [Ho Hc].
  { destruct r as [|d r]; [split; apply strip2_single|]. destruct H. by split; apply strip2_None. }
  assert (strip_prefix ESCAPED_OPEN (c :: r) = None) as ->.
  { destruct (strip_prefix ESCAPED_OPEN _) as [x|] eqn:E; [|done]. apply strip_prefix_Some in E. rewrite E in Ho.
    change (ESCAPED_OPEN ++ x) with (OPEN ++ OPEN ++ x) in Ho. by rewrite strip_prefix_app in Ho. }
  assert (strip_prefix ESCAPED_CLOSE (c :: r) = None) as ->.
  { destruct (strip_prefix ESCAPED_CLOSE _) as [x|] eqn:E; [|done]. apply strip_prefix_Some in E. rewrite E in Hc.
    change (ESCAPED_CLOSE ++ x) with (CLOSE ++ CLOSE ++ x) in Hc. by rewrite strip_prefix_app in Hc. }
  by rewrite Ho, Hc.
Qed.

Lemma escape_cons2 a b s :
  escape (a :: b :: s) = if (a =? 123)%N && (b =? 123)%N then ESCAPED_OPEN ++ escape s
                         else if (a =? 125)%N && (b =? 125)%N then ESCAPED_CLOSE ++ escape s
                         else a :: escape (b :: s).
Proof. done. Qed.

Lemma escape_head s : head (escape s) = head s.
Proof.
  destruct s as [|a [|b s]]; [done..|]. cbn [escape].
  destruct ((a =? 123)%N && (b =? 123)%N) eqn:E1; [bool_to_prop; subst; done|].
  destruct ((a =? 125)%N && (b =? 125)%N) eqn:E2; [bool_to_prop; subst; done|]. done.
Qed.

Lemma push_literal_nil segs : push_literal segs [] = segs.
Proof. done. Qed.

(** The text of a literal in front of [tail] is read as that literal. *)
Lemma parse_at_escape n : forall s tail pre literal phs segs fuel,
  (length s <= n)%nat ->
  (tail = [] \/ (exists t, tail = OPEN ++ t) /\ dangling s = false) ->
  (length (escape s ++ tail) < fuel)%nat ->
  exists fuel' pre' literal' segs', (length tail < fuel')%nat
    /\ parse_at fuel pre literal (escape s ++ tail) phs segs = parse_at fuel' pre' literal' tail phs segs'
    /\ push_literal segs' literal' = push_literal (push_literal segs literal) s.
Proof.
  induction n as [|n IH]; intros s tail pre literal phs segs fuel Hn Ht Hf;
    (destruct s as [|a s]; [exists fuel, pre, literal, segs; done|]); [cbn in Hn; lia|].
  destruct fuel as [|fuel]; [lia|]. destruct s as [|b s].
  - exists fuel, pre, (literal ++ [a]), segs. cbn [escape app dangling length] in *. split; [lia|].
    rewrite push_literal_app. split; [|done]. apply parse_at_char.
    destruct Ht as [->|[[t ->] Ha]]; [done|]. bool_to_prop. cbn. split; [by left|right; done].
  - assert (dangling (a :: b :: s) = if ((a =? 123)%N && (b =? 123)%N) || ((a =? 125)%N && (b =? 125)%N)
              then dangling s else dangling (b :: s)) as Hd by done.
    rewrite escape_cons2 in Hf |- *. cbn [length] in Hn.
    destruct ((a =? 123)%N && (b =? 123)%N) eqn:E1.
    { bool_to_prop. subst. rewrite <- app_assoc, length_app in *. change (length ESCAPED_OPEN) with 4%nat in Hf.
      edestruct (IH s tail (pre ++ literal ++ ESCAPED_OPEN) [] phs (push_literal (push_literal segs literal) OPEN) fuel)
        as (f & p & l & g & Hl & Heq & Hg); [lia| |lia|]; [destruct Ht as [|[? Ht]]; [by left|right; split; [done|exact Ht]]|].
      exists f, p, l, g. split; [done|]. rewrite parse_at_S, strip_prefix_app, Heq, Hg, push_literal_nil, push_literal_app. done. }
    destruct ((a =? 125)%N && (b =? 125)%N) eqn:E2.
    { bool_to_prop. subst. rewrite <- app_assoc, length_app in *. change (length ESCAPED_CLOSE) with 4%nat in Hf.
      edestruct (IH s tail (pre ++ literal ++ ESCAPED_CLOSE) [] phs (push_literal (push_literal segs literal) CLOSE) fuel)
        as (f & p & l & g & Hl & Heq & Hg); [lia| |lia|]; [destruct Ht as [|[? Ht]]; [by left|right; split; [done|exact Ht]]|].
      exists f, p, l, g. split; [done|]. rewrite parse_at_S.
      assert (forall r, strip_prefix ESCAPED_OPEN (ESCAPED_CLOSE ++ r) = None) as -> by done.
      rewrite strip_prefix_app, Heq, Hg, push_literal_nil, push_literal_app. done. }
    edestruct (IH (b :: s) tail pre (literal ++ [a]) phs segs fuel) as (f & p & l & g & Hl & Heq & Hg);
      [cbn [length]; lia| |cbn [length app] in Hf; lia|].
    { destruct Ht as [|[? Ht]]; [by left|right; split; [done|]]. by rewrite Hd in Ht. }
    exists f, p, l, g. split; [done|]. split; [|by rewrite Hg, !push_literal_app, <- app_assoc].
    rewrite <- Heq. cbn [app]. apply parse_at_char.
    pose proof (escape_head (b :: s)) as Hh. destruct (escape (b :: s)) as [|d t]; [done|]. injection Hh as ->. cbn.
    apply andb_false_iff in E1, E2. rewrite !N.eqb_neq in E1, E2. done.
Qed.

Lemma placeholder_ref_cons start acc c rest :
  placeholder_ref start acc (c :: rest) =
  match strip_prefix OPEN (c :: rest), strip_prefix CLOSE (c :: rest) with
  | Some _, _ => Err (NestedPlaceholder start)
  | None, Some after => if trim acc =s? [] then Err (EmptyPlaceholder start) else Ok (acc, after)
  | None, None => placeholder_ref start (acc ++ [c]) rest
  end.
Proof. cbn [placeholder_ref]. rewrite starts_with_strip. by destruct (strip_prefix OPEN (c :: rest)). Qed.

Lemma placeholder_ref_print start n acc r :
  contains_str OPEN n = false -> contains_str CLOSE n = false ->
  trim (acc ++ n ++ [SP]) <> [] ->
  placeholder_ref start acc (n ++ [SP] ++ CLOSE ++ r) = Ok (acc ++ n ++ [SP], r).
Proof.
  revert acc. induction n as [|c n IH]; intros acc H1 H2 Hne.
  - change ([] ++ [SP] ++ CLOSE ++ r) with (SP :: 125%N :: 125%N :: r). rewrite !placeholder_ref_cons.
    assert (strip_prefix OPEN (SP :: 125%N :: 125%N :: r) = None) as -> by done.
    assert (strip_prefix CLOSE (SP :: 125%N :: 125%N :: r) = None) as -> by done.
    assert (strip_prefix OPEN (125%N :: 125%N :: r) = None) as -> by done.
    assert (strip_prefix CLOSE (125%N :: 125%N :: r) = Some r) as -> by apply (strip_prefix_app CLOSE).
    cbn [app] in *. by rewrite bool_decide_eq_false_2.
  - cbn [app contains_str] in *. apply orb_false_iff in H1 as [H1 H1'], H2 as [H2 H2'].
    assert (forall p, (c <> p \/ match n with d :: _ => d <> p | [] => True end) -> p <> SP ->
      strip_prefix [p; p] (c :: n ++ SP :: CLOSE ++ r) = None) as Hs.
    { intros p Hp HSP. destruct n as [|d n]; cbn [app]; apply strip2_None; [right; done|done]. }
    assert (forall p, starts_with [p; p] (c :: n) = false -> c <> p \/ match n with d :: _ => d <> p | [] => True end) as Hw.
    { intros p Hp. destruct n as [|d n]; [by right|]. destruct (decide (c = p)) as [->|]; [|by left]. right. intros ->.
      rewrite starts_with_strip in Hp. change (p :: p :: n) with ([p; p] ++ n) in Hp. by rewrite strip_prefix_app in Hp. }
    rewrite placeholder_ref_cons, (Hs 123%N : _ -> _ -> strip_prefix OPEN _ = None),
      (Hs 125%N : _ -> _ -> strip_prefix CLOSE _ = None) by (done || by apply Hw).
    rewrite IH; [by rewrite <- app_assoc|done..|by rewrite <- app_assoc].
Qed.

Lemma trim_spaces n : name_ok n = true -> trim ([SP] ++ n ++ [SP]) = n.
Proof.
  unfold name_ok. intros H. bool_to_prop. rewrite app_assoc, <- trim_end_trim.
  assert (forall s, trim_end (s ++ [SP]) = trim_end s) as -> by (intros s; unfold trim_end; by rewrite drop_end_while_snoc).
  rewrite trim_end_trim. done.
Qed.

Lemma parse_at_print segs : forall b fuel pre literal phs acc,
  normal_segments b segs = true -> printable segs = true -> (length (print_segments segs) < fuel)%nat ->
  parse_at fuel pre literal (print_segments segs) phs acc
  = Some (Ok (mkTemplate (fold_left (fun l n => btree_set_insert n l) (segment_names segs) phs)
                (fold_left add_segment segs (push_literal acc literal)))).
Proof.
  induction segs as [|s segs IH]; intros b fuel pre literal phs acc Hn Hp Hf;
    (destruct fuel as [|fuel]; [lia|]); [by rewrite parse_at_S|].
  unfold print_segments in *. cbn [map concat] in *. destruct s as [s|n]; cbn [print_segment normal_segments] in *; bool_to_prop.
  - assert (printable segs = true) by (destruct segs as [|[] ?]; cbn [printable] in Hp; bool_to_prop; done).
    edestruct (parse_at_escape (length s) s (concat (map print_segment segs)) pre literal phs acc (S fuel))
      as (f & p & l & g & Hl & -> & Hg); [done| |done|].
    { destruct segs as [|[s'|n] segs]; [by left|cbn in *; bool_to_prop; done|]. right. cbn [printable map concat print_segment] in *.
      bool_to_prop. split; [|done]. rewrite <- app_assoc. eauto. }
    rewrite (IH true) by done. cbn [fold_left add_segment]. by rewrite Hg.
  - rewrite parse_at_S. set (tail := concat (map print_segment segs)) in *.
    replace ((OPEN ++ [SP] ++ n ++ [SP] ++ CLOSE) ++ tail) with (OPEN ++ SP :: n ++ [SP] ++ CLOSE ++ tail) in *
      by by rewrite <- !app_assoc.
    assert (strip_prefix ESCAPED_OPEN (OPEN ++ SP :: n ++ [SP] ++ CLOSE ++ tail) = None) as -> by done.
    assert (strip_prefix ESCAPED_CLOSE (OPEN ++ SP :: n ++ [SP] ++ CLOSE ++ tail) = None) as -> by done.
    rewrite strip_prefix_app.
    assert (placeholder_ref (str_len (pre ++ literal)) [] (SP :: n ++ [SP] ++ CLOSE ++ tail) = Ok ([SP] ++ n ++ [SP], tail)) as ->.
    { pose proof (trim_spaces n ltac:(done)) as Ht. unfold name_ok in *. bool_to_prop.
      assert (forall p, p <> SP -> strip_prefix [p; p] (SP :: n ++ [SP] ++ CLOSE ++ tail) = None) as Hs.
      { intros p Hps. by destruct n; apply strip2_None; left. }
      rewrite placeholder_ref_cons, (Hs 123%N : _ -> strip_prefix OPEN _ = None), (Hs 125%N : _ -> strip_prefix CLOSE _ = None) by done.
      apply placeholder_ref_print; [done..|]. cbn [app] in *. by rewrite Ht. }
    rewrite trim_spaces by done. rewrite (IH false); [done|done|by destruct segs|].
    rewrite length_app in Hf. cbn [length] in Hf. rewrite !length_app in Hf. lia.
Qed.

(** ** Rendering *)

Lemma btree_map_insert_get {V} k (v : V) m old m' :
  StronglySorted str_lt (map fst m) -> btree_map_insert k v m = (old, m') ->
  StronglySorted str_lt (map fst m') /\ old = btree_map_get k m
  /\ (forall x, x ∈ map fst m' <-> x = k \/ x ∈ map fst m)
  /\ forall k', btree_map_get k' m' = if k =s? k' then Some v else btree_map_get k' m.
Proof.
  revert old m'. induction m as [|[q w] m IH]; intros old m' Hs; cbn [btree_map_insert map btree_map_get fst].
  - intros [= <- <-]. cbn. split_and!; [repeat constructor|done|set_solver|done].
  - inversion Hs as [|? ? Hs' Hall]; subst. rewrite (bool_decide_ext (q = k) (k = q)) by done.
    case_bool_decide as Hkq.
    { subst q. intros [= <- <-]. cbn. split_and!; [by constructor|done|set_solver|].
      intros k'. by case_bool_decide. }
    destruct (str_leb k q) eqn:Hle.
    { intros [= <- <-]. cbn. split_and!; [|symmetry|set_solver|done].
      - constructor; [done|]. constructor; [done|]. eapply Forall_impl; [exact Hall|]. intros x. by apply str_lt_trans.
      - clear IH. assert (forall x, x ∈ map fst m -> x <> k) as Hx.
        { intros x Hx ->. rewrite Forall_forall in Hall. destruct (Hall _ Hx) as [Hq Hne]. by apply Hkq, str_leb_antisym. }
        clear -Hx. induction m as [|[x w] m IH]; cbn; [done|]. rewrite bool_decide_eq_false_2; [apply IH; set_solver|].
        apply Hx. set_solver. }
    destruct (btree_map_insert k v m) as [o m2] eqn:Hi. intros [= <- <-].
    destruct (IH _ _ Hs' eq_refl) as (H1 & H2 & H3 & H4). cbn.
    split_and!; [|done|intros x; rewrite !elem_of_cons, H3; tauto|].
    + constructor; [done|]. apply Forall_forall. intros x Hx. apply H3 in Hx as [->|Hx].
      * split; [destruct (str_leb_total k q); congruence|done].
      * rewrite Forall_forall in Hall. by apply Hall.
    + intros k'. rewrite H4. case_bool_decide as Ha; [|done]. subst. by rewrite bool_decide_eq_false_2.
Qed.

Lemma btree_map_get_None {V} k (m : list (str * V)) : btree_map_get k m = None <-> k ∉ map fst m.
Proof.
  induction m as [|[q w] m IH]; cbn; [set_solver|]. case_bool_decide; [subst; set_solver|]. rewrite IH. set_solver.
Qed.

(** The value given for a name. *)
Fixpoint value_of (variables : list (str * str)) (name : str) : option str :=
  match variables with
  | [] => None
  | (k, v) :: variables => if k =s? name then Some v else value_of variables name
  end.

Lemma build_variable_map_spec vars m0 :
  StronglySorted str_lt (map fst m0) ->
  match build_variable_map vars m0 with
  | Ok m => NoDup (map fst vars) /\ (forall k, k ∈ map fst vars -> k ∉ map fst m0)
            /\ StronglySorted str_lt (map fst m)
            /\ (forall x, x ∈ map fst m <-> x ∈ map fst m0 \/ x ∈ map fst vars)
            /\ forall k, btree_map_get k m = match value_of vars k with Some v => Some v | None => btree_map_get k m0 end
  | Err e => exists before n v after, e = DuplicateValue n /\ vars = before ++ (n, v) :: after
             /\ (n ∈ map fst m0 \/ n ∈ map fst before)
  end.
Proof.
  revert m0. induction vars as [|[k v] vars IH]; intros m0 Hs; cbn [build_variable_map].
  - cbn. split_and!; [constructor|set_solver|done|set_solver|done].
  - destruct (btree_map_insert k v m0) as [old m1] eqn:Hi.
    destruct (btree_map_insert_get _ _ _ _ _ Hs Hi) as (H1 & -> & H3 & H4).
    destruct (btree_map_get k m0) as [o|] eqn:Ho.
    { exists [], k, v, vars. split_and!; [done..|]. left.
      destruct (decide (k ∈ map fst m0)) as [|Hn]; [done|]. apply btree_map_get_None in Hn. congruence. }
    apply btree_map_get_None in Ho. specialize (IH m1 H1).
    destruct (build_variable_map vars m1) as [m|e].
    + destruct IH as (Hd & Hout & Hsm & Hel & Hget). cbn [map fst].
      assert (k ∉ map fst vars) by (intros Hk; apply (Hout k Hk), H3; by left).
      split_and!; [by constructor| |done| |].
      * intros x Hx. apply elem_of_cons in Hx as [->|Hx]; [done|]. intros Hm. apply (Hout x Hx), H3. by right.
      * intros x. rewrite Hel, H3. set_solver.
      * intros x. rewrite Hget, H4. cbn [value_of]. case_bool_decide as Hkx; [|done]. subst x.
        destruct (value_of vars k) eqn:Hv; [|done]. exfalso. clear -Hv H.
        induction vars as [|[a b] vars IHv]; cbn in *; [done|]. case_bool_decide; set_solver.
    + destruct IH as (before & n & w & after & -> & -> & Hn). exists ((k, v) :: before), n, w, after.
      split_and!; [done..|]. cbn [map fst]. rewrite H3 in Hn. set_solver.
Qed.

Definition subst_segment (variables : list (str * str)) (s : Segment) : str :=
  match s with Literal s => s | Placeholder n => default [] (value_of variables n) end.

Lemma render_segments_spec m vars segs acc :
  (forall k, btree_map_get k m = value_of vars k) -> (forall n, n ∈ segment_names segs -> is_Some (value_of vars n)) ->
  render_segments m segs acc = Ok (acc ++ concat (map (subst_segment vars) segs)).
Proof.
  intros Hm. revert acc. induction segs as [|[s|n] segs IH]; intros acc Hn; cbn [render_segments map concat].
  - by rewrite app_nil_r.
  - rewrite IH by (intros n Hn'; apply Hn; done). cbn. by rewrite <- app_assoc.
  - rewrite Hm. destruct (Hn n) as [v Hv]; [cbn; set_solver|]. rewrite Hv. rewrite IH by (intros k Hk; apply Hn; cbn; set_solver).
    cbn. by rewrite Hv, <- app_assoc.
Qed.

Lemma value_of_is_Some vars n : is_Some (value_of vars n) <-> n ∈ map fst vars.
Proof.
  induction vars as [|[k v] vars IH]; cbn; [split; [intros [? ?]; done|set_solver]|].
  case_bool_decide; [subst; split; [set_solver|eauto]|]. rewrite IH. set_solver.
Qed.

(** The first element of a sorted list with a property is its least one. *)
Lemma find_least (p : str -> bool) l x :
  StronglySorted str_lt l -> List.find p l = Some x ->
  x ∈ l /\ p x = true /\ forall y, y ∈ l -> p y = true -> str_leb x y = true.
Proof.
  induction 1 as [|y l Hs IH Hall]; cbn; [done|]. destruct (p y) eqn:Hp.
  - intros [= <-]. split_and!; [set_solver|done|]. intros z Hz _. apply elem_of_cons in Hz as [->|Hz].
    + by destruct (str_leb_total y y).
    + rewrite Forall_forall in Hall. by apply Hall.
  - intros H. destruct (IH H) as (Hx & Hpx & Hl). split_and!; [set_solver|done|].
    intros z Hz Hpz. apply elem_of_cons in Hz as [->|Hz]; [congruence|auto].
Qed.

Lemma find_None (p : str -> bool) l : List.find p l = None <-> forall x, x ∈ l -> p x = false.
Proof.
  induction l as [|y l IH]; cbn; [set_solver|]. destruct (p y) eqn:Hp.
  - split; [done|]. intros H. specialize (H y ltac:(set_solver)). congruence.
  - rewrite IH. set_solver.
Qed.

Lemma insert_all_elem names : forall l n,
  n ∈ fold_left (fun l n => btree_set_insert n l) names l <-> n ∈ l \/ n ∈ names.
Proof.
  induction names as [|m names IH]; intros l n; cbn [fold_left]; [set_solver|].
  rewrite IH, btree_set_insert_elem. set_solver.
Qed.

Lemma template_parse_ok source t : parse source = Some (Ok t) -> template_ok t.
Proof.
  intros Hp. destruct (parse_at_sound (S (length source)) [] [] source [] []) as (r & Hr & H);
    [lia|done|set_solver|constructor|].
  change (parse source = Some r) in Hr. rewrite Hp in Hr. injection Hr as <-. apply H.
Qed.

(** ** The theorems *)

(** Parsing a template never panics and always has an answer.  An accepted
    source spells its segments: literals with the escapes undone and trimmed
    placeholder names; the template has no empty and no adjacent literals, its
    names hold no delimiter, and its sorted set of placeholders is that of its
    segments.  An error carries the byte offset of a delimiter in the source. *)
Theorem template_parse_sound (source : str) :
  exists r, parse source = Some r /\
  match r with
  | Ok t => template_ok t /\ spells [] source (segments t)
  | Err e => error_at source e
  end.
Proof.
  destruct (parse_at_sound (S (length source)) [] [] source [] []) as (r & Hr & H); [lia|done|set_solver|constructor|].
  exists r. split; [exact Hr|]. by destruct r.
Qed.

(** Templates round trip: the printed form of any normal sequence of segments
    parses to those segments, provided no literal in front of a placeholder ends in
    a single brace, which the syntax cannot express. *)
Theorem template_print_parse (segs : list Segment) :
  normal_segments false segs = true -> printable segs = true ->
  exists t, parse (print_segments segs) = Some (Ok t) /\ segments t = segs
    /\ forall n, n ∈ placeholders t <-> n ∈ segment_names segs.
Proof.
  intros Hn Hp. eexists. split; [apply (parse_at_print segs false (S (length (print_segments segs))) [] [] [] []); [done..|lia]|].
  cbn. rewrite add_segments_normal by done. split; [done|]. intros n. rewrite insert_all_elem. set_solver.
Qed.
Lemma template_print_parse_witness :
  normal_segments false [Literal (lit "a {{ b"); Placeholder (lit "x"); Literal (lit "}")] = true
  /\ exists t, parse (print_segments [Literal (lit "a {{ b"); Placeholder (lit "x"); Literal (lit "}")]) = Some (Ok t)
     /\ segments t = [Literal (lit "a {{ b"); Placeholder (lit "x"); Literal (lit "}")]
     /\ forall n, n ∈ placeholders t <-> n ∈ [lit "x"].
Proof. split; [by vm_compute|]. apply template_print_parse; by vm_compute. Defined.

(** Rendering a parsed template: a name given twice is refused first; then the
    least placeholder without a value; then the least value without a placeholder;
    otherwise the text is that of the segments with every placeholder replaced by
    its value, which is inserted as it is. *)
Theorem template_render_spec (source : str) (t : Template) (variables : list (str * str)) :
  parse source = Some (Ok t) ->
  let given n := n ∈ map fst variables in
  match template_render t variables with
  | Err (DuplicateValue n) =>
      exists before v after, variables = before ++ (n, v) :: after /\ n ∈ map fst before
  | Err (MissingValue n) =>
      NoDup (map fst variables) /\ n ∈ placeholders t /\ ~ given n
      /\ forall m, m ∈ placeholders t -> ~ given m -> str_leb n m = true
  | Err (ExtraValue n) =>
      NoDup (map fst variables) /\ (forall m, m ∈ placeholders t -> given m) /\ given n /\ n ∉ placeholders t
      /\ forall m, given m -> m ∉ placeholders t -> str_leb n m = true
  | Ok text =>
      NoDup (map fst variables) /\ (forall m, m ∈ placeholders t <-> given m)
      /\ text = concat (map (subst_segment variables) (segments t))
  end.
Proof.
  intros Hparse given. destruct (template_parse_ok _ _ Hparse) as [Hnorm Hnames Hsorted].
  unfold template_render. pose proof (build_variable_map_spec variables [] ltac:(constructor)) as Hb.
  destruct (build_variable_map variables []) as [m|e].
  2: { destruct Hb as (before & n & v & after & -> & Heq & Hn). exists before, v, after. split; [done|]. set_solver. }
  destruct Hb as (Hd & _ & Hs & Hel & Hget).
  assert (forall k, btree_map_get k m = value_of variables k) as Hv by (intros k; rewrite Hget; by destruct (value_of _ _)).
  assert (forall n, contains_key m n = true <-> given n) as Hk.
  { intros n. unfold contains_key. rewrite Hv, bool_decide_eq_true. apply value_of_is_Some. }
  assert (forall n, n ∈ map fst m <-> given n) as Hm by (intros n; rewrite Hel; set_solver).
  destruct (List.find _ (placeholders t)) as [n|] eqn:Hf.
  { apply find_least in Hf as (Hn & Hc & Hl); [|done]. apply negb_true_iff in Hc.
    assert (forall x, ~ given x <-> contains_key m x = false) as Hneg by (intros x; rewrite <- Hk; by rewrite not_true_iff_false).
    split_and!; [done..|by apply Hneg|]. intros x Hx Hg. apply Hl; [done|]. by apply negb_true_iff, Hneg. }
  rewrite find_None in Hf.
  assert (forall x, x ∈ placeholders t -> given x) as Hall by (intros x Hx; apply Hk, negb_false_iff, Hf, Hx).
  destruct (List.find _ (map fst m)) as [n|] eqn:He.
  { apply find_least in He as (Hn & Hc & Hl); [|done]. bool_to_prop. split_and!; [done..|by apply Hm|done|].
    intros x Hx Hnx. apply Hl; [by apply Hm|]. by rewrite bool_decide_eq_false_2. }
  rewrite find_None in He. rewrite (render_segments_spec m variables) by
    (done || (intros x Hx; apply value_of_is_Some, Hall, Hnames, Hx)).
  split_and!; [done| |done]. intros x. split; [auto|]. intros Hx. apply Hm, He in Hx. by bool_to_prop.
Qed.
Lemma template_render_spec_witness :
  exists t, parse (lit "Hi {{ b }}{{ a }}") = Some (Ok t)
  /\ match template_render t [(lit "c", lit "1")] with
     | Err (MissingValue n) =>
         NoDup (map fst [(lit "c", lit "1")]) /\ n ∈ placeholders t /\ ~ (n ∈ map fst [(lit "c", lit "1")])
         /\ forall m, m ∈ placeholders t -> ~ (m ∈ map fst [(lit "c", lit "1")]) -> str_leb n m = true
     | _ => False
     end.
Proof.
  eexists. split; [vm_compute; reflexivity|].
  match goal with |- match template_render ?t ?v with _ => _ end =>
    pose proof (template_render_spec (lit "Hi {{ b }}{{ a }}") t v ltac:(vm_compute; reflexivity)) as H end.
  cbv zeta in H. match type of H with match ?x with _ => _ end => destruct x as [|[]] eqn:E end; try by vm_compute in E.
Defined.

(** Text is never taken for a placeholder: every text, with its delimiters
    doubled, renders to itself, without values. *)
Theorem template_escape_literal (s : str) :
  template_render_source (escape s) [] = Some (Ok s).
Proof.
  unfold template_render_source. destruct (decide (s = [])) as [->|Hs]; [done|].
  assert (normal_segments false [Literal s] = true) as Hn by (cbn; by rewrite bool_decide_eq_false_2).
  pose proof (parse_at_print [Literal s] false (S (length (print_segments [Literal s]))) [] [] [] [] Hn eq_refl ltac:(lia)) as H.
  unfold print_segments in H. cbn [map concat print_segment] in H. rewrite app_nil_r in H.
  unfold parse. unfold parse_at in H. cbn [app str_len] in H. rewrite H.
  cbn [mbind option_bind]. rewrite add_segments_normal by done. reflexivity.
Qed.
