(* ===== verification/SeekSequence.v ===== *)
(** * Locating patch context: [apply-patch/src/seek_sequence.rs]

    [seek_sequence] looks for the lines of a pattern in the lines of a file,
    with four passes of decreasing strictness.  The theorems give its
    specification: a result is the first match of the strictest relation that
    has one, it is in range, and [None] means that not even the most lenient
    relation matches anywhere in the searched range. *)

From S2P Require Import Prelude.

(** ** Definitions *)

(** The character map of [normalise]: typographic dashes, quotes and spaces
    to their ASCII equivalents. *)
Definition normalise_char (c : char) : char :=
  (if ((8208 <=? c) && (c <=? 8213)) || (c =? 8722) then 45
   else if (8216 <=? c) && (c <=? 8219) then 39
   else if (8220 <=? c) && (c <=? 8223) then 34
   else if (c =? 160) || ((8194 <=? c) && (c <=? 8202)) || (c =? 8239) || (c =? 8287)
           || (c =? 12288) then 32
   else c)%N.

Definition normalise (s : str) : str := normalise_char <$> trim s.

(** The index loop over [pattern] at offset [i]: every [lines[i + p_idx]]
    agrees with its pattern line under the comparison [eqv]. *)
Fixpoint matches_from (eqv : str -> str -> bool) (lines : list str) (i : nat)
    (pattern : list str) : bool :=
  match pattern with
  | [] => true
  | pat :: pattern' =>
      match lines !! i with
      | Some line => eqv line pat && matches_from eqv lines (S i) pattern'
      | None => false
      end
  end.

(** One pass: the [for i in search_start..=lines.len().saturating_sub(pattern.len())]
    loop, returning the first [i] that matches. *)
Definition seek_pass (eqv : str -> str -> bool) (lines pattern : list str)
    (search_start : nat) : option nat :=
  List.find (fun i => matches_from eqv lines i pattern)
    (seq search_start (S (length lines - length pattern) - search_start)).

Definition exact_eq (a b : str) : bool := bool_decide (a = b).
Definition rstrip_eq (a b : str) : bool := bool_decide (trim_end a = trim_end b).
Definition trim_eq (a b : str) : bool := bool_decide (trim a = trim b).
Definition normalise_eq (a b : str) : bool := bool_decide (normalise a = normalise b).

Definition search_start_of (lines pattern : list str) (start : nat) (eof : bool) : nat :=
  if eof && bool_decide (length pattern ≤ length lines)%nat
  then (length lines - length pattern)%nat
  else start.

Definition seek_sequence (lines pattern : list str) (start : nat) (eof : bool) : option nat :=
  if bool_decide (pattern = []) then Some start
  else if bool_decide (length lines < length pattern)%nat then None
  else
    let search_start := search_start_of lines pattern start eof in
    match seek_pass exact_eq lines pattern search_start with
    | Some i => Some i
    | None =>
        match seek_pass rstrip_eq lines pattern search_start with
        | Some i => Some i
        | None =>
            match seek_pass trim_eq lines pattern search_start with
            | Some i => Some i
            | None => seek_pass normalise_eq lines pattern search_start
            end
        end
    end.

(** ** The specification *)

(** [pattern] occurs in [lines] at [i] under [eqv]: the slice
    [lines[i .. i + pattern.len()]] exists and agrees line by line. *)
Definition occurs_at (eqv : str -> str -> bool) (lines pattern : list str) (i : nat) : Prop :=
  Forall2 (fun l p => eqv l p = true) (take (length pattern) (drop i lines)) pattern.

Lemma matches_from_spec eqv lines i pattern :
  matches_from eqv lines i pattern = true <-> occurs_at eqv lines pattern i.
Proof.
  unfold occurs_at. revert i. induction pattern as [|pat pattern IH]; intros i; simpl.
  - rewrite take_0. split; auto using Forall2_nil.
  - destruct (lines !! i) as [line|] eqn:Hi.
    + rewrite (drop_S _ _ _ Hi). simpl. rewrite andb_true_iff, Forall2_cons, IH. done.
    + apply lookup_ge_None in Hi. rewrite drop_ge by done. split; [done|]. inversion 1.
Qed.

Lemma occurs_at_in_range eqv lines pattern i :
  pattern <> [] -> occurs_at eqv lines pattern i -> (i + length pattern ≤ length lines)%nat.
Proof.
  intros Hne Hocc%Forall2_length. rewrite length_take, length_drop in Hocc.
  assert (length pattern <> 0)%nat by (by destruct pattern). lia.
Qed.

Lemma find_seq_Some (f : nat -> bool) a n i :
  List.find f (seq a n) = Some i <->
  (a ≤ i < a + n)%nat /\ f i = true /\ forall j, (a ≤ j < i)%nat -> f j = false.
Proof.
  revert a. induction n as [|n IH]; intros a; simpl; [split; [done|]; lia|].
  destruct (f a) eqn:Ha.
  - split.
    + intros [= <-]. split_and!; [lia..|done|]. intros; lia.
    + intros (? & Hi & Hmin). f_equal. destruct (decide (a = i)); [done|].
      rewrite Hmin in Ha by lia. done.
  - rewrite IH. split.
    + intros (? & ? & Hmin). split_and!; [lia..|done|].
      intros j ?. destruct (decide (j = a)) as [->|]; [done|]. apply Hmin. lia.
    + intros (? & Hi & Hmin). destruct (decide (a = i)) as [->|]; [congruence|].
      split_and!; [lia..|done|]. intros; apply Hmin; lia.
Qed.

Lemma find_seq_None (f : nat -> bool) a n :
  List.find f (seq a n) = None <-> forall j, (a ≤ j < a + n)%nat -> f j = false.
Proof.
  revert a. induction n as [|n IH]; intros a; simpl; [split; [lia|done]|].
  destruct (f a) eqn:Ha.
  - split; [done|]. intros H. rewrite H in Ha by lia. done.
  - rewrite IH. split; intros H j ?.
    + destruct (decide (j = a)) as [->|]; [done|]. apply H. lia.
    + apply H. lia.
Qed.

(** A pass returns [i] exactly when [i] is the least index at or after
    [search_start] where the pattern occurs. *)
Lemma seek_pass_Some eqv lines pattern s i :
  pattern <> [] ->
  seek_pass eqv lines pattern s = Some i <->
  (s ≤ i)%nat /\ occurs_at eqv lines pattern i /\
  forall j, (s ≤ j < i)%nat -> ~ occurs_at eqv lines pattern j.
Proof.
  intros Hne. unfold seek_pass. rewrite find_seq_Some, matches_from_spec. split.
  - intros (? & Hocc & Hmin). split_and!; [lia|done|].
    intros j Hj. rewrite <- matches_from_spec, Hmin; done.
  - intros (? & Hocc & Hmin).
    pose proof (occurs_at_in_range _ _ _ _ Hne Hocc). split_and!; [lia..|done|].
    intros j Hj. apply not_true_iff_false. rewrite matches_from_spec. auto.
Qed.

Lemma seek_pass_None eqv lines pattern s :
  pattern <> [] ->
  seek_pass eqv lines pattern s = None <->
  forall j, (s ≤ j)%nat -> ~ occurs_at eqv lines pattern j.
Proof.
  intros Hne. unfold seek_pass. rewrite find_seq_None. split.
  - intros H j Hj Hocc. pose proof (occurs_at_in_range _ _ _ _ Hne Hocc).
    apply matches_from_spec in Hocc. rewrite H in Hocc by lia. done.
  - intros H j Hj. apply not_true_iff_false. rewrite matches_from_spec. apply H. lia.
Qed.

(** Each relation is coarser than the one before it. *)
Lemma exact_rstrip a b : exact_eq a b = true -> rstrip_eq a b = true.
Proof. unfold exact_eq, rstrip_eq. rewrite !bool_decide_eq_true. by intros ->. Qed.

Lemma rstrip_trim a b : rstrip_eq a b = true -> trim_eq a b = true.
Proof.
  unfold rstrip_eq, trim_eq. rewrite !bool_decide_eq_true. intros H.
  by rewrite <- (trim_end_trim a), <- (trim_end_trim b), H.
Qed.

Lemma trim_normalise a b : trim_eq a b = true -> normalise_eq a b = true.
Proof. unfold trim_eq, normalise_eq, normalise. rewrite !bool_decide_eq_true. by intros ->. Qed.

Lemma occurs_at_mono (e1 e2 : str -> str -> bool) lines pattern i :
  (forall a b, e1 a b = true -> e2 a b = true) ->
  occurs_at e1 lines pattern i -> occurs_at e2 lines pattern i.
Proof. unfold occurs_at. intros ? H. eapply Forall2_impl; eauto. Qed.

#[export] Hint Resolve exact_rstrip rstrip_trim trim_normalise : rust.

Lemma occurs_exact_normalise lines pattern i :
  occurs_at exact_eq lines pattern i -> occurs_at normalise_eq lines pattern i.
Proof. apply occurs_at_mono. auto with rust. Qed.

Lemma occurs_rstrip_normalise lines pattern i :
  occurs_at rstrip_eq lines pattern i -> occurs_at normalise_eq lines pattern i.
Proof. apply occurs_at_mono. auto with rust. Qed.

Lemma occurs_trim_normalise lines pattern i :
  occurs_at trim_eq lines pattern i -> occurs_at normalise_eq lines pattern i.
Proof. apply occurs_at_mono. auto with rust. Qed.

(** The passes in order of strictness; the search is the first that succeeds. *)
Definition strictness : list (str -> str -> bool) := [exact_eq; rstrip_eq; trim_eq; normalise_eq].

Lemma seek_sequence_passes lines pattern start eof :
  pattern <> [] -> (length pattern ≤ length lines)%nat ->
  seek_sequence lines pattern start eof =
  foldr (fun e r => match seek_pass e lines pattern (search_start_of lines pattern start eof) with
                    | Some i => Some i | None => r end) None strictness.
Proof.
  intros Hne Hlen. unfold seek_sequence.
  rewrite bool_decide_eq_false_2 by done. rewrite bool_decide_eq_false_2 by lia. simpl.
  by destruct (seek_pass normalise_eq _ _ _).
Qed.

(** The first success of a list of passes. *)
Lemma first_pass_Some (pass : (str -> str -> bool) -> option nat) es i :
  foldr (fun e r => match pass e with Some i => Some i | None => r end) None es = Some i <->
  exists es1 e es2, es = es1 ++ e :: es2 /\ pass e = Some i /\ Forall (fun e => pass e = None) es1.
Proof.
  induction es as [|e es IH]; simpl.
  - split; [done|]. intros (es1 & ? & ? & ? & _). by destruct es1.
  - destruct (pass e) as [j|] eqn:He.
    + split; [intros [= ->]; by exists [], e, es|].
      intros ([|e' es1] & e0 & es2 & Heq & Hp & Hall); simplify_eq/=; [done|].
      inversion Hall; congruence.
    + rewrite IH. split.
      * intros (es1 & e0 & es2 & -> & Hp & Hall). exists (e :: es1), e0, es2. auto.
      * intros ([|e' es1] & e0 & es2 & Heq & Hp & Hall); simplify_eq/=.
        inversion Hall; subst. by exists es1, e0, es2.
Qed.

Lemma first_pass_None (pass : (str -> str -> bool) -> option nat) es :
  foldr (fun e r => match pass e with Some i => Some i | None => r end) None es = None <->
  Forall (fun e => pass e = None) es.
Proof.
  induction es as [|e es IH]; simpl; [done|].
  rewrite Forall_cons, <- IH. destruct (pass e); naive_solver.
Qed.

Lemma strictness_normalise e a b : e ∈ strictness -> e a b = true -> normalise_eq a b = true.
Proof.
  unfold strictness. rewrite !elem_of_cons.
  intros [->|[->|[->|[->|?%elem_of_nil]]]]; auto with rust; done.
Qed.

(** What a successful search guarantees, for the use by [compute_replacements]. *)
Lemma seek_sequence_found lines pattern start eof i :
  pattern <> [] -> seek_sequence lines pattern start eof = Some i ->
  (search_start_of lines pattern start eof ≤ i)%nat /\
  occurs_at normalise_eq lines pattern i.
Proof.
  intros Hne Hs.
  destruct (decide (length lines < length pattern)%nat) as [Hlt|Hge].
  { unfold seek_sequence in Hs. rewrite bool_decide_eq_false_2 in Hs by done.
    by rewrite bool_decide_eq_true_2 in Hs. }
  rewrite seek_sequence_passes in Hs by (done || lia).
  apply (first_pass_Some (fun e => seek_pass e _ _ _)) in Hs as (es1 & e & es2 & Heq & Hp & _).
  apply seek_pass_Some in Hp as (? & Hocc & _); [|done]. split; [done|].
  eapply occurs_at_mono, Hocc. intros a b. apply strictness_normalise. rewrite Heq. set_solver.
Qed.

Lemma seek_sequence_range lines pattern start eof i :
  pattern <> [] -> seek_sequence lines pattern start eof = Some i ->
  (i + length pattern ≤ length lines)%nat.
Proof. intros Hne [_ Hocc]%seek_sequence_found; [|done]. eauto using occurs_at_in_range. Qed.

(** ** Properties *)

(** Specification of [seek_sequence] on a non-empty pattern: a result [i]
    is given by one of the four comparisons, in order of strictness, such that
    no stricter one matches anywhere at or after the search start, and [i] is
    the least index at or after the search start where that comparison
    matches, with the whole pattern inside the file. *)
Theorem seek_sequence_Some_iff (lines pattern : list str) (start : nat) (eof : bool) (i : nat) :
  pattern <> [] ->
  seek_sequence lines pattern start eof = Some i <->
  exists stricter eqv rest,
    strictness = stricter ++ eqv :: rest /\
    (search_start_of lines pattern start eof ≤ i)%nat /\
    (i + length pattern ≤ length lines)%nat /\
    occurs_at eqv lines pattern i /\
    (forall j, (search_start_of lines pattern start eof ≤ j < i)%nat ->
               ~ occurs_at eqv lines pattern j) /\
    (forall e j, e ∈ stricter -> (search_start_of lines pattern start eof ≤ j)%nat ->
                 ~ occurs_at e lines pattern j).
Proof.
  intros Hne. destruct (decide (length lines < length pattern)%nat) as [Hlt|Hge].
  { unfold seek_sequence. rewrite bool_decide_eq_false_2, bool_decide_eq_true_2 by done.
    split; [done|]. intros (? & ? & ? & ? & ? & ? & _). lia. }
  rewrite seek_sequence_passes by (done || lia).
  rewrite (first_pass_Some (fun e => seek_pass e _ _ _)). split.
  - intros (es1 & e & es2 & Heq & Hp & Hall). apply seek_pass_Some in Hp as (? & ? & ?); [|done].
    exists es1, e, es2. split_and!; eauto using occurs_at_in_range.
    intros e' j He'. rewrite Forall_forall in Hall.
    apply (proj1 (seek_pass_None _ _ _ _ Hne) (Hall _ He')).
  - intros (es1 & e & es2 & Heq & ? & ? & ? & ? & Hall). exists es1, e, es2.
    split_and!; [done|by apply seek_pass_Some|].
    apply Forall_forall. intros e' He'. apply seek_pass_None; eauto.
Qed.

(** [seek_sequence] gives up exactly when the pattern is non-empty and does
    not occur at or after the search start even after trimming and normalising
    punctuation: no pass misses a match that a more lenient pass accepts. *)
Theorem seek_sequence_None_iff (lines pattern : list str) (start : nat) (eof : bool) :
  seek_sequence lines pattern start eof = None <->
  pattern <> [] /\
  forall j, (search_start_of lines pattern start eof ≤ j)%nat ->
            ~ occurs_at normalise_eq lines pattern j.
Proof.
  destruct (decide (pattern = [])) as [->|Hne]; [naive_solver|].
  destruct (decide (length lines < length pattern)%nat) as [Hlt|Hge].
  { unfold seek_sequence. rewrite bool_decide_eq_false_2, bool_decide_eq_true_2 by done.
    split; [|done]. split; [done|]. intros j _ Hocc%occurs_at_in_range; [lia|done]. }
  rewrite seek_sequence_passes by (done || lia).
  rewrite (first_pass_None (fun e => seek_pass e _ _ _)), Forall_forall. split.
  - intros H. split; [done|]. apply seek_pass_None; [done|]. apply H. set_solver.
  - intros [_ H] e He. apply seek_pass_None; [done|]. intros j Hj Hocc. apply (H j Hj).
    eapply occurs_at_mono, Hocc. intros a b. by apply strictness_normalise.
Qed.

(** With [eof] set the search looks at one position only, the end of the
    file, whatever [start] is: it neither falls back to searching from [start]
    nor respects it. *)
Theorem seek_sequence_eof_ignores_start (lines pattern : list str) (start start' i : nat) :
  pattern <> [] ->
  seek_sequence lines pattern start true = Some i ->
  i = (length lines - length pattern)%nat /\
  seek_sequence lines pattern start' true = Some i.
Proof.
  intros Hne Hs. pose proof (seek_sequence_range _ _ _ _ _ Hne Hs) as Hr.
  pose proof (proj1 (seek_sequence_found _ _ _ _ _ Hne Hs)) as Hge.
  unfold search_start_of in Hge. rewrite bool_decide_eq_true_2 in Hge by lia. simpl in Hge.
  split; [lia|]. rewrite <- Hs. rewrite !seek_sequence_passes by (done || lia).
  unfold search_start_of. by rewrite bool_decide_eq_true_2 by lia.
Qed.

(** ** Witnesses *)

Definition demo_lines : list str :=
  [lit "fn main() {"; lit "    run();  "; lit "}"; lit "// end"].

Lemma seek_sequence_Some_iff_witness :
  [lit "run();"] <> [] /\
  seek_sequence demo_lines [lit "run();"] 0 false = Some 1%nat /\
  exists stricter eqv rest,
    strictness = stricter ++ eqv :: rest /\ occurs_at eqv demo_lines [lit "run();"] 1.
Proof.
  split; [done|]. split; [vm_compute; reflexivity|].
  destruct (proj1 (seek_sequence_Some_iff demo_lines [lit "run();"] 0 false 1
                     ltac:(discriminate)) ltac:(vm_compute; reflexivity))
    as (s & e & r & ? & _ & _ & ? & _).
  exists s, e, r. split; assumption.
Defined.

Lemma seek_sequence_eof_ignores_start_witness :
  seek_sequence demo_lines [lit "// end"] 0 true = Some 3%nat /\
  seek_sequence demo_lines [lit "// end"] 9 true = Some 3%nat.
Proof.
  split; [vm_compute; reflexivity|].
  apply (seek_sequence_eof_ignores_start demo_lines [lit "// end"] 0 9 3);
    [discriminate | vm_compute; reflexivity].
Defined.
