(* ===== verification/PatchParser.v ===== *)
(** * The patch grammar: [apply-patch/src/parser.rs]

    The data model of a patch ([Hunk], [UpdateFileChunk], [ParseError]) and
    the batch parser [parse_patch].  Loops over a shrinking slice of lines take
    fuel; [None] is "out of fuel" and the termination theorem shows that the
    fuel given is always enough.  The round-trip theorem parses back every
    patch printed in the documented grammar whose chunks have change lines, and
    shows that the others are rejected. *)

From S2P Require Import Prelude.

(** ** Data *)

Definition BEGIN_PATCH_MARKER : str := lit "*** Begin Patch".
Definition ENVIRONMENT_ID_MARKER : str := lit "*** Environment ID: ".
Definition END_PATCH_MARKER : str := lit "*** End Patch".
Definition ADD_FILE_MARKER : str := lit "*** Add File: ".
Definition DELETE_FILE_MARKER : str := lit "*** Delete File: ".
Definition UPDATE_FILE_MARKER : str := lit "*** Update File: ".
Definition MOVE_TO_MARKER : str := lit "*** Move to: ".
Definition EOF_MARKER : str := lit "*** End of File".
Definition CHANGE_CONTEXT_MARKER : str := lit "@@ ".
Definition EMPTY_CHANGE_CONTEXT_MARKER : str := lit "@@".
Definition PARSE_IN_STRICT_MODE : bool := false.

Inductive ParseError : Type :=
| InvalidPatchError (message : str)
| InvalidHunkError (message : str) (line_number : nat).

#[export] Instance ParseError_eq_dec : EqDecision ParseError.
Proof. solve_decision. Defined.

Record UpdateFileChunk : Type := mkChunk {
  change_context : option str;
  old_lines : list str;
  new_lines : list str;
  is_end_of_file : bool;
}.

#[export] Instance UpdateFileChunk_eq_dec : EqDecision UpdateFileChunk.
Proof. solve_decision. Defined.

Inductive Hunk : Type :=
| AddFile (path : str) (contents : str)
| DeleteFile (path : str)
| UpdateFile (path : str) (move_path : option str) (chunks : list UpdateFileChunk).

#[export] Instance Hunk_eq_dec : EqDecision Hunk.
Proof. solve_decision. Defined.

(** [Hunk::path]: the path affected, the destination for a rename. *)
Definition hunk_path (h : Hunk) : str :=
  match h with
  | AddFile path _ => path
  | DeleteFile path => path
  | UpdateFile _ (Some path) _ => path
  | UpdateFile path None _ => path
  end.

(** The path that [Hunk::resolve_path] resolves against the working directory. *)
Definition hunk_source_path (h : Hunk) : str :=
  match h with
  | UpdateFile path _ _ => path
  | AddFile _ _ | DeleteFile _ => hunk_path h
  end.

Record ApplyPatchArgs : Type := mkArgs {
  patch : str;
  hunks : list Hunk;
  workdir : option str;
  environment_id : option str;
}.

Inductive ParseMode : Type := Strict | Lenient.

(** ** Operations *)

Definition msg_first_line : str := lit "The first line of the patch must be '*** Begin Patch'".
Definition msg_last_line : str := lit "The last line of the patch must be '*** End Patch'".
Definition msg_no_lines : str := lit "Update hunk does not contain any lines".
Definition msg_bad_header (header : str) : str :=
  lit "'" ++ header ++ lit "' is not a valid hunk header. Valid hunk headers: '*** Add File: {path}', '*** Delete File: {path}', '*** Update File: {path}'".
Definition msg_empty_update (path : str) : str :=
  lit "Update file hunk for path '" ++ path ++ lit "' is empty".
Definition msg_expected_context (line : str) : str :=
  lit "Expected update hunk to start with a @@ context marker, got: '" ++ line ++ lit "'".
Definition msg_unexpected_line (line : str) : str :=
  lit "Unexpected line found in update hunk: '" ++ line ++ lit "'. Every line should start with ' ' (context line), '+' (added line), or '-' (removed line)".

Definition check_start_and_end_lines_strict (first_line last_line : option str)
    : result ParseError unit :=
  let first_line := trim <$> first_line in
  let last_line := trim <$> last_line in
  match first_line with
  | Some first =>
      if (match last_line with
          | Some l => (first =s? BEGIN_PATCH_MARKER) && (l =s? END_PATCH_MARKER)
          | None => false
          end)
      then Ok tt
      else if first =s? BEGIN_PATCH_MARKER then Err (InvalidPatchError msg_last_line)
      else Err (InvalidPatchError msg_first_line)
  | None => Err (InvalidPatchError msg_last_line)
  end.

(** [&lines[1..lines.len() - 1]] *)
Definition inner_slice {A} (lines : list A) : list A := take (length lines - 2) (drop 1 lines).

Definition check_patch_boundaries_strict (lines : list str)
    : result ParseError (list str * list str) :=
  _ ← check_start_and_end_lines_strict (head lines) (last lines);
  Ok (lines, inner_slice lines).

Definition DQUOTE : char := 34%N.

Definition check_patch_boundaries_lenient (original_lines : list str)
    : result ParseError (list str * list str) :=
  match check_patch_boundaries_strict original_lines with
  | Ok lines => Ok lines
  | Err original_parse_error =>
      match head original_lines, last original_lines with
      | Some first, Some l =>
          if ((first =s? lit "<<EOF") || (first =s? lit "<<'EOF'")
              || (first =s? lit "<<" ++ [DQUOTE] ++ lit "EOF" ++ [DQUOTE]))
             && ends_with (lit "EOF") l
             && bool_decide (4 ≤ length original_lines)%nat
          then check_patch_boundaries_strict (inner_slice original_lines)
          else Err original_parse_error
      | _, _ => Err original_parse_error
      end
  end.

Definition parse_environment_id_preamble (hunk_lines : list str)
    : result ParseError (option str * list str * nat) :=
  match hunk_lines with
  | [] => Ok (None, hunk_lines, 2%nat)
  | first_line :: rest =>
      match strip_prefix ENVIRONMENT_ID_MARKER (trim_start first_line) with
      | None => Ok (None, hunk_lines, 2%nat)
      | Some environment_id =>
          let environment_id := trim environment_id in
          if environment_id =s? [] then
            Err (InvalidPatchError (lit "apply_patch environment_id cannot be empty"))
          else Ok (Some environment_id, rest, 3%nat)
      end
  end.

(** The [for line in &lines[start_index..]] loop of [parse_update_file_chunk]:
    the chunk so far and the number of lines parsed are threaded through. *)
Definition push_old (l : str) (c : UpdateFileChunk) : UpdateFileChunk :=
  mkChunk (change_context c) (old_lines c ++ [l]) (new_lines c) (is_end_of_file c).
Definition push_new (l : str) (c : UpdateFileChunk) : UpdateFileChunk :=
  mkChunk (change_context c) (old_lines c) (new_lines c ++ [l]) (is_end_of_file c).
Definition set_end_of_file (c : UpdateFileChunk) : UpdateFileChunk :=
  mkChunk (change_context c) (old_lines c) (new_lines c) true.

Fixpoint parse_chunk_lines (lines : list str) (line_number : nat) (chunk : UpdateFileChunk)
    (parsed_lines : nat) : result ParseError (UpdateFileChunk * nat) :=
  match lines with
  | [] => Ok (chunk, parsed_lines)
  | line_contents :: lines' =>
      if line_contents =s? EOF_MARKER then
        if bool_decide (parsed_lines = 0%nat)
        then Err (InvalidHunkError msg_no_lines (line_number + 1))
        else Ok (set_end_of_file chunk, S parsed_lines)
      else
        match line_contents with
        | [] => parse_chunk_lines lines' line_number (push_new [] (push_old [] chunk)) (S parsed_lines)
        | c :: rest =>
            if (c =? SP)%N then
              parse_chunk_lines lines' line_number (push_new rest (push_old rest chunk)) (S parsed_lines)
            else if (c =? PLUS)%N then
              parse_chunk_lines lines' line_number (push_new rest chunk) (S parsed_lines)
            else if (c =? MINUS)%N then
              parse_chunk_lines lines' line_number (push_old rest chunk) (S parsed_lines)
            else if bool_decide (parsed_lines = 0%nat)
            then Err (InvalidHunkError (msg_unexpected_line line_contents) (line_number + 1))
            else Ok (chunk, parsed_lines)
        end
  end.

Definition empty_chunk (ctx : option str) : UpdateFileChunk := mkChunk ctx [] [] false.

Definition parse_update_file_chunk (lines : list str) (line_number : nat)
    (allow_missing_context : bool) : result ParseError (UpdateFileChunk * nat) :=
  match lines with
  | [] => Err (InvalidHunkError msg_no_lines line_number)
  | line0 :: _ =>
      '(ctx, start_index) ←
        (if line0 =s? EMPTY_CHANGE_CONTEXT_MARKER then Ok (None, 1%nat)
         else match strip_prefix CHANGE_CONTEXT_MARKER line0 with
              | Some context => Ok (Some context, 1%nat)
              | None =>
                  if negb allow_missing_context
                  then Err (InvalidHunkError (msg_expected_context line0) line_number)
                  else Ok (None, 0%nat)
              end);
      if bool_decide (length lines ≤ start_index)%nat
      then Err (InvalidHunkError msg_no_lines (line_number + 1))
      else
        '(chunk, parsed_lines) ←
          parse_chunk_lines (drop start_index lines) line_number (empty_chunk ctx) 0;
        Ok (chunk, (parsed_lines + start_index)%nat)
  end.

(** The [for add_line in &lines[1..]] loop of an [AddFile] hunk. *)
Fixpoint parse_add_lines (lines : list str) (contents : str) (parsed_lines : nat) : str * nat :=
  match lines with
  | [] => (contents, parsed_lines)
  | add_line :: lines' =>
      match strip_prefix [PLUS] add_line with
      | Some line_to_add => parse_add_lines lines' (contents ++ line_to_add ++ [LF]) (S parsed_lines)
      | None => (contents, parsed_lines)
      end
  end.

(** The [while !remaining_lines.is_empty()] loop of an [UpdateFile] hunk. *)
Fixpoint parse_chunks (fuel : nat) (remaining_lines : list str) (line_number parsed_lines : nat)
    (chunks : list UpdateFileChunk) : option (result ParseError (list UpdateFileChunk * nat)) :=
  match remaining_lines with
  | [] => Some (Ok (chunks, parsed_lines))
  | line0 :: rest =>
      match fuel with
      | O => None
      | S fuel' =>
          if trim line0 =s? [] then
            parse_chunks fuel' rest line_number (S parsed_lines) chunks
          else if starts_with [STAR] line0 then Some (Ok (chunks, parsed_lines))
          else
            match parse_update_file_chunk remaining_lines (line_number + parsed_lines)
                    (chunks =s? []) with
            | Err e => Some (Err e)
            | Ok (chunk, chunk_lines) =>
                parse_chunks fuel' (drop chunk_lines remaining_lines) line_number
                  (parsed_lines + chunk_lines) (chunks ++ [chunk])
            end
      end
  end.

Definition parse_update_hunk (path : str) (rest : list str) (line_number : nat)
    : option (result ParseError (Hunk * nat)) :=
  let move_path := match rest with
                   | [] => None
                   | x :: _ => strip_prefix MOVE_TO_MARKER x
                   end in
  let '(remaining_lines, parsed_lines) :=
    match move_path with
    | Some _ => (drop 1 rest, 2%nat)
    | None => (rest, 1%nat)
    end in
  r ← parse_chunks (length remaining_lines) remaining_lines line_number parsed_lines [];
  Some ('(chunks, parsed_lines) ← r;
        if chunks =s? [] then Err (InvalidHunkError (msg_empty_update path) line_number)
        else Ok (UpdateFile path move_path chunks, parsed_lines)).

Definition parse_one_hunk (lines : list str) (line_number : nat)
    : option (result ParseError (Hunk * nat)) :=
  match lines with
  | [] => Some (Err (InvalidHunkError [] line_number)) (* [lines[0]] is never reached on [] *)
  | line0 :: rest =>
      let first_line := trim line0 in
      match strip_prefix ADD_FILE_MARKER first_line with
      | Some path =>
          let '(contents, parsed_lines) := parse_add_lines rest [] 1 in
          Some (Ok (AddFile path contents, parsed_lines))
      | None =>
          match strip_prefix DELETE_FILE_MARKER first_line with
          | Some path => Some (Ok (DeleteFile path, 1%nat))
          | None =>
              match strip_prefix UPDATE_FILE_MARKER first_line with
              | Some path => parse_update_hunk path rest line_number
              | None => Some (Err (InvalidHunkError (msg_bad_header first_line) line_number))
              end
          end
      end
  end.

(** The [while !remaining_lines.is_empty()] loop of [parse_patch_text]. *)
Fixpoint parse_hunks (fuel : nat) (remaining_lines : list str) (line_number : nat)
    (hunks : list Hunk) : option (result ParseError (list Hunk)) :=
  match remaining_lines with
  | [] => Some (Ok hunks)
  | _ :: _ =>
      match fuel with
      | O => None
      | S fuel' =>
          r ← parse_one_hunk remaining_lines line_number;
          match r with
          | Err e => Some (Err e)
          | Ok (hunk, hunk_lines) =>
              parse_hunks fuel' (drop hunk_lines remaining_lines) (line_number + hunk_lines)
                (hunks ++ [hunk])
          end
      end
  end.

Definition parse_patch_text (patch : str) (mode : ParseMode)
    : option (result ParseError ApplyPatchArgs) :=
  let lines := str_lines (trim patch) in
  match (match mode with
         | Strict => check_patch_boundaries_strict lines
         | Lenient => check_patch_boundaries_lenient lines
         end) with
  | Err e => Some (Err e)
  | Ok (patch_lines, hunk_lines) =>
      match parse_environment_id_preamble hunk_lines with
      | Err e => Some (Err e)
      | Ok (environment_id, remaining_lines, line_number) =>
          r ← parse_hunks (length remaining_lines) remaining_lines line_number [];
          Some (hunks ← r;
                Ok (mkArgs (join [LF] patch_lines) hunks None environment_id))
      end
  end.

Definition parse_patch (patch : str) : option (result ParseError ApplyPatchArgs) :=
  parse_patch_text patch (if PARSE_IN_STRICT_MODE then Strict else Lenient).

#[global] Arguments parse_update_file_chunk : simpl never.
#[global] Arguments parse_one_hunk : simpl never.

(** ** Termination and slice bounds *)

(** The loop of a chunk consumes some lines of its input, at least one when
    nothing was parsed before. *)
Lemma parse_chunk_lines_bounds lines ln c n c' n' :
  lines <> [] \/ n <> 0%nat ->
  parse_chunk_lines lines ln c n = Ok (c', n') ->
  (n ≤ n' ≤ n + length lines)%nat /\ (1 ≤ n')%nat.
Proof.
  revert c n. induction lines as [|l lines IH]; intros c n Hne H; simpl in *.
  { simplify_eq. destruct Hne; [done|]. lia. }
  repeat case_in H; bool_to_prop; simplify_eq; try lia.
  all: apply IH in H; [|by right]; lia.
Qed.

Lemma parse_update_file_chunk_bounds lines ln b c n :
  parse_update_file_chunk lines ln b = Ok (c, n) -> (1 ≤ n ≤ length lines)%nat.
Proof.
  unfold parse_update_file_chunk. intros H. destruct lines as [|l lines]; [done|].
  apply result_bind_ok in H as ((ctx & start) & Hstart & H).
  destruct (bool_decide (length (l :: lines) ≤ start)) eqn:Hlen; [done|]. bool_to_prop.
  apply result_bind_ok in H as ((c' & n') & Hp & H). simplify_eq.
  apply parse_chunk_lines_bounds in Hp; rewrite ?length_drop in *; [lia|].
  left. intros Hnil%(f_equal length). rewrite length_drop in Hnil. simpl in *. lia.
Qed.

Lemma parse_chunks_total fuel lines ln n cs :
  (length lines ≤ fuel)%nat ->
  exists r, parse_chunks fuel lines ln n cs = Some r /\
            forall cs' n', r = Ok (cs', n') -> (n ≤ n' ≤ n + length lines)%nat.
Proof.
  revert lines n cs. induction fuel as [|fuel IH]; intros [|l lines] n cs Hf; simpl in *;
    try lia; try (eexists; split; [reflexivity|]; intros; simplify_eq; lia).
  destruct (bool_decide (trim l = [])).
  { destruct (IH lines (S n) cs) as (r & -> & Hr); [lia|]. exists r; split; [done|].
    intros ? ? Heq. apply Hr in Heq. lia. }
  destruct (starts_with [STAR] l); [eexists; split; [reflexivity|]; intros; simplify_eq; lia|].
  destruct (parse_update_file_chunk (l :: lines) _ _) as [[c k]|e] eqn:Hc;
    [|eexists; split; [reflexivity|]; intros; simplify_eq].
  apply parse_update_file_chunk_bounds in Hc as Hk. simpl in Hk.
  destruct (IH (drop k (l :: lines)) (n + k)%nat (cs ++ [c])) as (r & -> & Hr);
    [rewrite length_drop; simpl; lia|].
  exists r; split; [done|]. intros ? ? Heq. apply Hr in Heq. rewrite length_drop in Heq. simpl in *. lia.
Qed.

Lemma parse_add_lines_bounds lines contents n c' n' :
  parse_add_lines lines contents n = (c', n') -> (n ≤ n' ≤ n + length lines)%nat.
Proof.
  revert contents n. induction lines as [|l lines IH]; intros contents n H; simpl in *; [simplify_eq; lia|].
  case_in H; [apply IH in H|]; lia.
Qed.

Lemma parse_one_hunk_total lines ln :
  exists r, parse_one_hunk lines ln = Some r /\
            forall h n, r = Ok (h, n) -> (1 ≤ n ≤ length lines)%nat.
Proof.
  unfold parse_one_hunk.
  destruct lines as [|l lines]; [eexists; split; [reflexivity|]; naive_solver|]; simpl.
  destruct (strip_prefix ADD_FILE_MARKER (trim l)) as [p|].
  { destruct (parse_add_lines lines [] 1) as [c n] eqn:Ha. apply parse_add_lines_bounds in Ha.
    eexists; split; [reflexivity|]. intros; simplify_eq. lia. }
  destruct (strip_prefix DELETE_FILE_MARKER (trim l)) as [p|].
  { eexists; split; [reflexivity|]. intros; simplify_eq. lia. }
  destruct (strip_prefix UPDATE_FILE_MARKER (trim l)) as [p|];
    [|eexists; split; [reflexivity|]; intros; simplify_eq].
  unfold parse_update_hunk.
  destruct (match lines with [] => None | x :: _ => strip_prefix MOVE_TO_MARKER x end) as [m|] eqn:Hm.
  - destruct (parse_chunks_total (length (drop 1 lines)) (drop 1 lines) ln 2 []) as (r & -> & Hr); [done|].
    eexists; split; [reflexivity|]. intros h n [[cs k] [-> Hk]]%result_bind_ok.
    destruct (Hr _ _ eq_refl). rewrite length_drop in *. case_in Hk; destruct lines; simplify_eq/=; lia.
  - destruct (parse_chunks_total (length lines) lines ln 1 []) as (r & -> & Hr); [done|].
    eexists; split; [reflexivity|]. intros h n [[cs k] [-> Hk]]%result_bind_ok.
    destruct (Hr _ _ eq_refl). case_in Hk; lia.
Qed.

Lemma parse_hunks_total fuel lines ln hs :
  (length lines ≤ fuel)%nat -> is_Some (parse_hunks fuel lines ln hs).
Proof.
  revert lines ln hs. induction fuel as [|fuel IH]; intros [|l lines] ln hs Hf; simpl in *; eauto; [lia|].
  destruct (parse_one_hunk_total (l :: lines) ln) as (r & Hr & Hb).
  rewrite Hr. simpl. destruct r as [[h n]|e]; [|eauto].
  destruct (Hb _ _ eq_refl). apply IH. rewrite length_drop. simpl in *. lia.
Qed.

Lemma parse_patch_text_total (p : str) (mode : ParseMode) :
  exists r, parse_patch_text p mode = Some r.
Proof.
  unfold parse_patch_text. destruct (match mode with Strict => _ | Lenient => _ end) as [[pl hl]|e]; [|eauto].
  destruct (parse_environment_id_preamble hl) as [[[env rest] ln]|e]; [|eauto].
  destruct (parse_hunks_total (length rest) rest ln []) as [r ->]; [done|]. simpl. eauto.
Qed.

(** C27. [parse_patch] terminates on every input: the loops over the remaining
    lines always consume at least one line and never more than there are, so
    the parser returns hunks or a [ParseError] and no slice is out of range. *)
Theorem parse_patch_total (p : str) (mode : ParseMode) :
  exists r, parse_patch_text p mode = Some r.
Proof. apply parse_patch_text_total. Qed.

(** ** Round trip

    The documented grammar as a printer.  A change line is one of ' ' (kept),
    '+' (added) and '-' (removed); a chunk is an optional context line, its
    change lines and an optional end-of-file marker. *)

Inductive ChangeLine : Type := Keep (l : str) | Add (l : str) | Remove (l : str).

Record PrintedChunk : Type := mkPrinted {
  pc_context : option str;
  pc_changes : list ChangeLine;
  pc_eof : bool;
}.

Inductive PrintedHunk : Type :=
| PAdd (path : str) (added : list str)
| PDelete (path : str)
| PUpdate (path : str) (move_to : option str) (chunks : list PrintedChunk).

Definition print_change (e : ChangeLine) : str :=
  match e with
  | Keep l => SP :: l
  | Add l => PLUS :: l
  | Remove l => MINUS :: l
  end.

Definition print_context (ctx : option str) : str :=
  match ctx with
  | None => EMPTY_CHANGE_CONTEXT_MARKER
  | Some c => CHANGE_CONTEXT_MARKER ++ c
  end.

Definition print_chunk (c : PrintedChunk) : list str :=
  print_context (pc_context c) :: map print_change (pc_changes c)
  ++ (if pc_eof c then [EOF_MARKER] else []).

Definition print_hunk (h : PrintedHunk) : list str :=
  match h with
  | PAdd path added => (ADD_FILE_MARKER ++ path) :: map (cons PLUS) added
  | PDelete path => [DELETE_FILE_MARKER ++ path]
  | PUpdate path move_to chunks =>
      (UPDATE_FILE_MARKER ++ path)
      :: (match move_to with Some m => [MOVE_TO_MARKER ++ m] | None => [] end)
      ++ concat (map print_chunk chunks)
  end.

Definition print_env (env : option str) : list str :=
  match env with Some e => [ENVIRONMENT_ID_MARKER ++ e] | None => [] end.

Definition print_patch_lines (env : option str) (hs : list PrintedHunk) : list str :=
  BEGIN_PATCH_MARKER :: print_env env ++ concat (map print_hunk hs) ++ [END_PATCH_MARKER].

Definition print_patch (env : option str) (hs : list PrintedHunk) : str :=
  join [LF] (print_patch_lines env hs).

#[global] Arguments print_chunk : simpl never.
#[global] Arguments print_hunk : simpl never.

(** The hunk a printed hunk denotes. *)
Definition old_of (e : ChangeLine) : list str :=
  match e with Keep l => [l] | Add _ => [] | Remove l => [l] end.
Definition new_of (e : ChangeLine) : list str :=
  match e with Keep l => [l] | Add l => [l] | Remove _ => [] end.

Definition chunk_of (c : PrintedChunk) : UpdateFileChunk :=
  mkChunk (pc_context c) (concat (map old_of (pc_changes c)))
    (concat (map new_of (pc_changes c))) (pc_eof c).

Definition hunk_of (h : PrintedHunk) : Hunk :=
  match h with
  | PAdd path added => AddFile path (concat (map (fun l => l ++ [LF]) added))
  | PDelete path => DeleteFile path
  | PUpdate path move_to chunks => UpdateFile path move_to (map chunk_of chunks)
  end.

(** Well-formed printed hunks: what a file name or line may be in the grammar. *)
Definition name_ok (p : str) : Prop :=
  line_ok p /\ exists c, last p = Some c /\ is_whitespace c = false.
Definition change_text (e : ChangeLine) : str :=
  match e with Keep l => l | Add l => l | Remove l => l end.
Definition chunk_ok (c : PrintedChunk) : Prop :=
  pc_changes c <> [] /\ Forall (fun e => line_ok (change_text e)) (pc_changes c) /\
  (forall ctx, pc_context c = Some ctx -> line_ok ctx).
Definition hunk_ok (h : PrintedHunk) : Prop :=
  match h with
  | PAdd path added => name_ok path /\ Forall line_ok added
  | PDelete path => name_ok path
  | PUpdate path move_to chunks =>
      name_ok path /\ (forall m, move_to = Some m -> line_ok m) /\
      chunks <> [] /\ Forall chunk_ok chunks
  end.
(** The same without the conditions that the grammar does not have: an update
    has chunks, a chunk has change lines. *)
Definition chunk_written (c : PrintedChunk) : Prop :=
  Forall (fun e => line_ok (change_text e)) (pc_changes c) /\ (forall ctx, pc_context c = Some ctx -> line_ok ctx).
Definition hunk_written (h : PrintedHunk) : Prop :=
  match h with
  | PAdd path added => name_ok path /\ Forall line_ok added
  | PDelete path => name_ok path
  | PUpdate path move_to chunks =>
      name_ok path /\ (forall m, move_to = Some m -> line_ok m) /\ Forall chunk_written chunks
  end.
Definition chunk_filled (c : PrintedChunk) : bool := match pc_changes c with [] => false | _ => true end.
Definition hunk_filled (h : PrintedHunk) : bool :=
  match h with
  | PAdd _ _ | PDelete _ => true
  | PUpdate _ _ [] => false
  | PUpdate _ _ chunks => forallb chunk_filled chunks
  end.
Definition env_ok (env : option str) : Prop :=
  forall e, env = Some e -> name_ok e /\ trim e = e.

Lemma chunk_ok_iff c : chunk_ok c <-> chunk_written c /\ chunk_filled c = true.
Proof. unfold chunk_ok, chunk_written, chunk_filled. destruct (pc_changes c); naive_solver. Qed.
Lemma hunk_ok_iff h : hunk_ok h <-> hunk_written h /\ hunk_filled h = true.
Proof.
  destruct h as [p added|p|p mv cs]; cbn [hunk_ok hunk_written hunk_filled]; [tauto..|].
  assert (Forall chunk_ok cs <-> Forall chunk_written cs /\ forallb chunk_filled cs = true) as Hall.
  { rewrite forallb_forall, !Forall_forall. setoid_rewrite <- list_elem_of_In. setoid_rewrite chunk_ok_iff. naive_solver. }
  rewrite Hall. destruct cs; naive_solver.
Qed.

(** The lines that may follow a chunk or hunk: the rest starts with a marker. *)
Definition starts_marker (t : list str) : Prop :=
  t = [] \/ exists c l t', t = (c :: l) :: t' /\ (c = 64%N \/ c = STAR).
Definition starts_header (t : list str) : Prop :=
  t = [] \/ exists l t', t = (STAR :: l) :: t'.

Lemma starts_header_marker t : starts_header t -> starts_marker t.
Proof. intros [->|(l & t' & ->)]; [by left|]. right. exists STAR, l, t'. auto. Qed.

Definition apply_changes (es : list ChangeLine) (c : UpdateFileChunk) : UpdateFileChunk :=
  mkChunk (change_context c) (old_lines c ++ concat (map old_of es))
    (new_lines c ++ concat (map new_of es)) (is_end_of_file c).

Lemma parse_chunk_lines_changes es t ln c n :
  parse_chunk_lines (map print_change es ++ t) ln c n =
  parse_chunk_lines t ln (apply_changes es c) (n + length es).
Proof.
  revert c n. induction es as [|e es IH]; intros c n; simpl.
  - unfold apply_changes. simpl. rewrite !app_nil_r, Nat.add_0_r. by destruct c.
  - assert (print_change e <> EOF_MARKER) as Hne by (by destruct e).
    rewrite bool_decide_eq_false_2 by done.
    destruct e; simpl; rewrite IH; unfold apply_changes; simpl; rewrite <- !app_assoc; f_equal; lia.
Qed.

Lemma parse_chunk_lines_stop t ln c n :
  starts_marker t -> head t <> Some EOF_MARKER -> n <> 0%nat ->
  parse_chunk_lines t ln c n = Ok (c, n).
Proof.
  intros [->|(d & l & t' & -> & Hd)] Hne Hn; [done|]. simpl.
  rewrite bool_decide_eq_false_2 by (simpl in Hne; congruence).
  destruct Hd as [->| ->]; simpl; by rewrite bool_decide_eq_false_2.
Qed.

Lemma parse_update_file_chunk_print c t ln b :
  chunk_filled c = true -> starts_marker t -> head t <> Some EOF_MARKER ->
  parse_update_file_chunk (print_chunk c ++ t) ln b = Ok (chunk_of c, length (print_chunk c)).
Proof.
  intros Hcomp Ht Heof. assert (pc_changes c <> []) as Hne by (intros E; unfold chunk_filled in Hcomp; by rewrite E in Hcomp).
  clear Hcomp. destruct c as [ctx es eof]; simpl in *.
  unfold parse_update_file_chunk, print_chunk; simpl.
  assert (exists k, k = 1%nat /\
    (if print_context ctx =s? EMPTY_CHANGE_CONTEXT_MARKER then Ok (None, 1%nat)
     else match strip_prefix CHANGE_CONTEXT_MARKER (print_context ctx) with
          | Some context => Ok (Some context, 1%nat)
          | None => if negb b then Err (InvalidHunkError (msg_expected_context (print_context ctx)) ln)
                    else Ok (None, 0%nat)
          end) = (Ok (ctx, k) : result ParseError _)) as (k & -> & ->).
  { exists 1%nat. by destruct ctx. }
  simpl. assert (length es <> 0%nat) by (by destruct es).
  rewrite bool_decide_eq_false_2 by (rewrite !length_app, length_map; lia).
  rewrite drop_0, <- app_assoc, parse_chunk_lines_changes.
  destruct eof; simpl.
  - rewrite bool_decide_eq_false_2 by lia. simpl.
    unfold chunk_of, apply_changes, set_end_of_file; simpl.
    rewrite length_app, length_map; simpl. repeat f_equal; lia.
  - rewrite parse_chunk_lines_stop by (done || lia). simpl.
    unfold chunk_of, apply_changes; simpl. rewrite app_nil_r, length_map. repeat f_equal; lia.
Qed.

Lemma print_chunk_not_blank c : exists l0 rest, print_chunk c = l0 :: rest /\
  trim l0 <> [] /\ starts_with [STAR] l0 = false /\ exists l, l0 = 64%N :: l.
Proof.
  destruct c as [ctx es eof]. unfold print_chunk; simpl. do 2 eexists. split; [reflexivity|].
  assert (forall l, trim (64%N :: l) <> []) as Htrim.
  { intros l. unfold trim, trim_start, trim_end; simpl. intros Hnil%(f_equal length).
    destruct (drop_end_while_prefix is_whitespace (64%N :: l)) as (suf & Heq & Hall).
    destruct (drop_end_while _ _); [|done]. simpl in Heq. subst. by inversion Hall. }
  destruct ctx as [ctx|]; simpl.
  - split_and!; [apply Htrim|done|by eexists].
  - split_and!; [apply (Htrim [64%N])|done|by eexists].
Qed.

Lemma concat_chunks_marker cs t :
  starts_header t -> head t <> Some EOF_MARKER ->
  starts_marker (concat (map print_chunk cs) ++ t) /\
  head (concat (map print_chunk cs) ++ t) <> Some EOF_MARKER.
Proof.
  intros Ht Hne. destruct cs as [|c cs]; [split; [by apply starts_header_marker|done]|].
  cbn [map concat]. rewrite <- app_assoc.
  destruct (print_chunk_not_blank c) as (l0 & rest & -> & _ & _ & l & ->). simpl.
  split; [|done]. right. do 3 eexists. split; [reflexivity|]. by left.
Qed.

Lemma parse_chunks_print cs t ln n acc fuel :
  Forall (fun c => chunk_filled c = true) cs -> starts_header t -> head t <> Some EOF_MARKER ->
  (length (concat (map print_chunk cs) ++ t) ≤ fuel)%nat ->
  parse_chunks fuel (concat (map print_chunk cs) ++ t) ln n acc =
  Some (Ok (acc ++ map chunk_of cs, (n + length (concat (map print_chunk cs)))%nat)).
Proof.
  intros Hall Ht Hne. revert n acc fuel. induction Hall as [|c cs Hc Hall IH]; intros n acc fuel Hf; cbn [map concat] in *.
  - simpl in *. rewrite app_nil_r, Nat.add_0_r. destruct Ht as [->|(l & t' & ->)]; [by destruct fuel|].
    destruct fuel; simpl in *; [lia|].
    destruct (bool_decide (trim (STAR :: l) = [])) eqn:Hb; [|done]. bool_to_prop.
    unfold trim, trim_start in Hb. simpl in Hb.
    destruct (drop_end_while_prefix is_whitespace (STAR :: l)) as (suf & Heq & Hs).
    unfold trim_end in Hb. rewrite Hb in Heq. simpl in Heq. subst. by inversion Hs.
  - destruct (print_chunk_not_blank c) as (l0 & rest & Hp & Hb & Hs & _).
    rewrite <- app_assoc in *.
    destruct (concat_chunks_marker cs t Ht Hne) as [Hm Hh].
    pose proof (parse_update_file_chunk_print c _ (ln + n)%nat (acc =s? []) Hc Hm Hh) as Hparse.
    rewrite !length_app in Hf.
    rewrite Hp in Hparse, Hf |- *. destruct fuel; simpl in *; [lia|].
    rewrite bool_decide_eq_false_2 by done. rewrite Hs, Hparse.
    change (l0 :: rest ++ concat (map print_chunk cs) ++ t)
      with ((l0 :: rest) ++ concat (map print_chunk cs) ++ t).
    rewrite drop_app_length' by done. rewrite IH by (rewrite length_app; lia).
    rewrite <- app_assoc, length_app. simpl. do 3 f_equal; lia.
Qed.

(** A header line is its own trimmed form: the markers start with '*' and the
    name ends with a visible character. *)
Lemma trim_header m p : head m = Some STAR -> name_ok p -> trim (m ++ p) = m ++ p.
Proof.
  intros Hm (_ & c & Hl & Hc). apply trim_id.
  - destruct m; simplify_eq/=. by intros ? [= <-].
  - intros d Hd. rewrite last_app, Hl in Hd. by simplify_eq.
Qed.

Lemma parse_add_lines_print added t contents n :
  starts_header t ->
  parse_add_lines (map (cons PLUS) added ++ t) contents n =
  (contents ++ concat (map (fun l => l ++ [LF]) added), (n + length added)%nat).
Proof.
  intros Ht. revert contents n. induction added as [|l added IH]; intros contents n; simpl.
  - rewrite app_nil_r, Nat.add_0_r. by destruct Ht as [->|(l & t' & ->)].
  - change (strip_prefix [PLUS] (PLUS :: l)) with (Some l). simpl. rewrite IH.
    rewrite <- !app_assoc. f_equal. lia.
Qed.

Lemma print_hunk_head h : exists l t, print_hunk h = (STAR :: l) :: t.
Proof. destruct h; unfold print_hunk; do 2 eexists; reflexivity. Qed.

(** Parsing the lines of one printed hunk gives the hunk and consumes exactly
    those lines. *)
Lemma parse_one_hunk_print h t ln :
  hunk_ok h -> starts_header t -> head t <> Some EOF_MARKER ->
  parse_one_hunk (print_hunk h ++ t) ln = Some (Ok (hunk_of h, length (print_hunk h))).
Proof.
  intros Hok Ht Hne. destruct h as [p added|p|p mv cs]; simpl in Hok; unfold print_hunk, parse_one_hunk.
  - destruct Hok as [Hp _]. rewrite <- app_comm_cons.
    cbv zeta. rewrite (trim_header ADD_FILE_MARKER p eq_refl Hp).
    rewrite strip_prefix_app, parse_add_lines_print by done. simpl. by rewrite length_map.
  - rewrite <- app_comm_cons, app_nil_l. cbv zeta. rewrite (trim_header DELETE_FILE_MARKER p eq_refl Hok).
    replace (strip_prefix ADD_FILE_MARKER (DELETE_FILE_MARKER ++ p)) with (@None str) by reflexivity.
    by rewrite strip_prefix_app.
  - destruct Hok as (Hp & Hmv & Hcs & Hall0). rewrite <- app_comm_cons.
    assert (Forall (fun c => chunk_filled c = true) cs) as Hall
      by (eapply Forall_impl; [exact Hall0|]; intros c Hc; by apply chunk_ok_iff in Hc as [_ ?]).
    cbv zeta. rewrite (trim_header UPDATE_FILE_MARKER p eq_refl Hp).
    replace (strip_prefix ADD_FILE_MARKER (UPDATE_FILE_MARKER ++ p)) with (@None str) by reflexivity.
    replace (strip_prefix DELETE_FILE_MARKER (UPDATE_FILE_MARKER ++ p)) with (@None str) by reflexivity.
    rewrite strip_prefix_app. unfold parse_update_hunk.
    destruct mv as [m|].
    + rewrite <- !app_comm_cons, app_nil_l, strip_prefix_app. cbv zeta iota beta.
      rewrite skipn_cons, drop_0, parse_chunks_print by done. simpl.
      rewrite bool_decide_eq_false_2 by (by destruct cs). done.
    + rewrite app_nil_l. destruct cs as [|c cs]; [done|].
      assert (match concat (map print_chunk (c :: cs)) ++ t with
              | [] => None | x :: _ => strip_prefix MOVE_TO_MARKER x end = None) as ->.
      { cbn [map concat]. destruct (print_chunk_not_blank c) as (l0 & rest & -> & _ & _ & l & ->). done. }
      cbv zeta iota beta. rewrite parse_chunks_print by done. simpl. done.
Qed.

Lemma print_hunks_header hs :
  starts_header (concat (map print_hunk hs)) /\
  head (concat (map print_hunk hs)) <> Some EOF_MARKER.
Proof.
  destruct hs as [|h hs]; cbn [map concat]; [split; [by left|done]|]. split.
  - destruct (print_hunk_head h) as (l & t & ->). right. do 2 eexists. reflexivity.
  - by destruct h.
Qed.

Lemma parse_hunks_print hs ln acc fuel :
  Forall hunk_ok hs -> (length (concat (map print_hunk hs)) ≤ fuel)%nat ->
  parse_hunks fuel (concat (map print_hunk hs)) ln acc = Some (Ok (acc ++ map hunk_of hs)).
Proof.
  intros Hall. revert ln acc fuel. induction Hall as [|h hs Hh Hall IH]; intros ln acc fuel Hf;
    cbn [map concat] in *; [rewrite app_nil_r; by destruct fuel|].
  destruct (print_hunks_header hs) as [Hs Hne].
  pose proof (parse_one_hunk_print h _ ln Hh Hs Hne) as Hp. rewrite length_app in Hf.
  destruct (print_hunk_head h) as (l & t & Heq). rewrite Heq in *.
  destruct fuel; simpl in *; [lia|]. rewrite Hp. simpl.
  rewrite drop_app_length' by done. rewrite IH by lia. by rewrite <- app_assoc.
Qed.

Lemma print_lines_ok env hs :
  env_ok env -> Forall hunk_written hs -> Forall line_ok (print_patch_lines env hs).
Proof.
  assert (forall m p, bool_decide (line_ok m) = true -> line_ok p -> line_ok (m ++ p)) as Happ.
  { intros m p Hm%bool_decide_eq_true_1. by apply line_ok_app. }
  intros He Hall. unfold print_patch_lines. constructor; [by apply (bool_decide_unpack _)|].
  rewrite !Forall_app. split_and!.
  - destruct env as [e|]; [|done]. constructor; [|done].
    destruct (He e eq_refl) as [[? _] _]. by apply Happ.
  - apply Forall_concat, Forall_map. eapply Forall_impl; [exact Hall|]. clear -Happ. intros h Hh.
    destruct h as [p added|p|p mv cs]; unfold print_hunk; simpl in Hh.
    + destruct Hh as [[Hp _] Ha]. constructor; [by apply Happ|].
      apply Forall_map. eapply Forall_impl; [exact Ha|]. intros l Hl. by apply (Happ [PLUS]).
    + destruct Hh as [Hp _]. constructor; [by apply Happ|done].
    + destruct Hh as ([Hp _] & Hm & Hcs). constructor; [by apply Happ|]. apply Forall_app. split.
      * destruct mv as [m|]; [|done]. constructor; [apply Happ; auto|done].
      * apply Forall_concat, Forall_map. eapply Forall_impl; [exact Hcs|].
        intros [ctx es eof] (Hes & Hctx). unfold print_chunk; cbn [pc_context pc_changes pc_eof] in *. constructor.
        { destruct ctx; [apply Happ; auto|by apply (bool_decide_unpack _)]. }
        apply Forall_app. split; [|destruct eof; repeat constructor; by apply (bool_decide_unpack _)].
        apply Forall_map. eapply Forall_impl; [exact Hes|].
        intros [l|l|l] Hl; by apply (Happ [_]).
  - constructor; [by apply (bool_decide_unpack _)|done].
Qed.

Lemma print_patch_trim env hs : trim (print_patch env hs) = print_patch env hs.
Proof.
  unfold print_patch, print_patch_lines. apply trim_id.
  - intros c. change BEGIN_PATCH_MARKER with (STAR :: lit "** Begin Patch").
    rewrite join_head. by intros [= <-].
  - intros c. rewrite app_assoc, app_comm_cons. rewrite join_snoc by done.
    rewrite !last_app. simpl. by intros [= <-].
Qed.

Lemma inner_slice_ends {A} (a b : A) (l : list A) : inner_slice (a :: l ++ [b]) = l.
Proof.
  unfold inner_slice. rewrite skipn_cons, drop_0. apply take_app_length'.
  rewrite length_cons, length_app. simpl. lia.
Qed.

Lemma boundaries_print env hs :
  check_patch_boundaries_strict (print_patch_lines env hs) =
  Ok (print_patch_lines env hs, print_env env ++ concat (map print_hunk hs)).
Proof.
  unfold check_patch_boundaries_strict, print_patch_lines.
  rewrite app_assoc, inner_slice_ends, app_comm_cons, last_snoc. done.
Qed.

Lemma preamble_print env hs :
  env_ok env ->
  exists ln, parse_environment_id_preamble (print_env env ++ concat (map print_hunk hs)) =
             Ok (env, concat (map print_hunk hs), ln).
Proof.
  intros He. destruct env as [e|].
  - unfold print_env. rewrite <- app_comm_cons, app_nil_l. unfold parse_environment_id_preamble.
    destruct (He e eq_refl) as [(_ & c & Hl & _) Htrim].
    change (trim_start (ENVIRONMENT_ID_MARKER ++ e)) with (ENVIRONMENT_ID_MARKER ++ e).
    rewrite strip_prefix_app. cbv zeta. rewrite Htrim, bool_decide_eq_false_2 by (by intros ->). eauto.
  - exists 2%nat. destruct hs as [|h hs]; cbn [map concat]; [done|].
    by destruct h.
Qed.

Lemma hunks_ok_written hs : Forall hunk_ok hs -> Forall hunk_written hs.
Proof. intros Hall. eapply Forall_impl; [exact Hall|]. intros h Hh. by apply hunk_ok_iff in Hh as [? _]. Qed.

Lemma parse_printed (env : option str) (hs : list PrintedHunk) :
  env_ok env -> Forall hunk_ok hs ->
  parse_patch (print_patch env hs) =
  Some (Ok (mkArgs (print_patch env hs) (map hunk_of hs) None env)).
Proof.
  intros He Hall. unfold parse_patch, parse_patch_text; simpl.
  rewrite print_patch_trim. unfold print_patch at 1. rewrite str_lines_join.
  2: done.
  2: { unfold print_patch_lines. by rewrite app_assoc, app_comm_cons, last_snoc. }
  2: by apply print_lines_ok, hunks_ok_written.
  unfold check_patch_boundaries_lenient. rewrite boundaries_print.
  destruct (preamble_print env hs He) as [ln ->]. rewrite parse_hunks_print by done. done.
Qed.

(** ** What the grammar allows and the parser does not *)

Definition is_hunk_error {A} (o : option (result ParseError A)) : Prop :=
  exists message n, o = Some (Err (InvalidHunkError message n)).

(** A chunk without change lines, such as the first of two context lines. *)
Lemma parse_empty_chunk c t ln b :
  chunk_filled c = false -> starts_marker t ->
  exists message n, parse_update_file_chunk (print_chunk c ++ t) ln b = Err (InvalidHunkError message n).
Proof.
  intros Hc Ht. assert (pc_changes c = []) as Hnil by by unfold chunk_filled in Hc; destruct (pc_changes c).
  destruct c as [ctx es eof]; cbn in Hnil; subst es. unfold parse_update_file_chunk, print_chunk; cbn [pc_context pc_changes pc_eof map app].
  assert ((if print_context ctx =s? EMPTY_CHANGE_CONTEXT_MARKER then Ok (None, 1%nat)
     else match strip_prefix CHANGE_CONTEXT_MARKER (print_context ctx) with
          | Some context => Ok (Some context, 1%nat)
          | None => if negb b then Err (InvalidHunkError (msg_expected_context (print_context ctx)) ln)
                    else Ok (None, 0%nat)
          end) = (Ok (ctx, 1%nat) : result ParseError _)) as -> by by destruct ctx.
  cbn [mbind result_bind]. case_bool_decide; [by eexists _, _|]. rewrite skipn_cons, drop_0.
  destruct eof; [by eexists _, _|]. cbn [app].
  destruct Ht as [->|(d & l & t' & -> & Hd)]; [cbn in *; lia|]. cbn [parse_chunk_lines].
  case_bool_decide; [by eexists _, _|]. destruct Hd as [->| ->]; by eexists _, _.
Qed.

Lemma parse_chunks_incomplete cs t ln n acc fuel :
  forallb chunk_filled cs = false -> starts_header t -> head t <> Some EOF_MARKER ->
  (length (concat (map print_chunk cs) ++ t) ≤ fuel)%nat ->
  is_hunk_error (parse_chunks fuel (concat (map print_chunk cs) ++ t) ln n acc).
Proof.
  intros Hall Ht Hne. revert n acc fuel. induction cs as [|c cs IH]; intros n acc fuel Hf; [done|].
  cbn [map concat forallb] in *. destruct (print_chunk_not_blank c) as (l0 & rest & Hp & Hb & Hs & _).
  rewrite <- app_assoc in *. destruct (concat_chunks_marker cs t Ht Hne) as [Hm Hh]. rewrite !length_app in Hf.
  destruct (chunk_filled c) eqn:Hc; cbn [andb] in Hall.
  - pose proof (parse_update_file_chunk_print c _ (ln + n)%nat (acc =s? []) Hc Hm Hh) as Hparse.
    rewrite Hp in Hparse, Hf |- *. destruct fuel; simpl in *; [lia|].
    rewrite bool_decide_eq_false_2 by done. rewrite Hs, Hparse.
    change (l0 :: rest ++ concat (map print_chunk cs) ++ t) with ((l0 :: rest) ++ concat (map print_chunk cs) ++ t).
    rewrite drop_app_length' by done. apply IH; [done|]. rewrite length_app. lia.
  - destruct (parse_empty_chunk c _ (ln + n)%nat (acc =s? []) Hc Hm) as (message & k & Hparse).
    rewrite Hp in Hparse, Hf |- *. destruct fuel; simpl in *; [lia|].
    rewrite bool_decide_eq_false_2 by done. rewrite Hs, Hparse. by exists message, k.
Qed.

Lemma parse_update_incomplete p mv cs hs ln :
  hunk_filled (PUpdate p mv cs) = false ->
  is_hunk_error (parse_update_hunk p ((match mv with Some m => [MOVE_TO_MARKER ++ m] | None => [] end)
    ++ concat (map print_chunk cs) ++ concat (map print_hunk hs)) ln).
Proof.
  intros Hc. destruct (print_hunks_header hs) as [Ht Hne]. unfold parse_update_hunk.
  set (t := concat (map print_hunk hs)) in *.
  assert (forall fuel n, (length (concat (map print_chunk cs) ++ t) ≤ fuel)%nat ->
    parse_chunks fuel (concat (map print_chunk cs) ++ t) ln n [] = Some (Ok ([], n))
    \/ is_hunk_error (parse_chunks fuel (concat (map print_chunk cs) ++ t) ln n [])) as Hchunks.
  { intros fuel n Hf. destruct cs as [|c cs]; [left|right; by apply parse_chunks_incomplete].
    rewrite (parse_chunks_print [] t ln n [] fuel (Forall_nil_2 _) Ht Hne Hf). by rewrite Nat.add_0_r. }
  assert (forall mp n,
    is_hunk_error (r ← parse_chunks (length (concat (map print_chunk cs) ++ t)) (concat (map print_chunk cs) ++ t) ln n [];
      Some ('(chunks, parsed_lines) ← r;
        if chunks =s? [] then Err (InvalidHunkError (msg_empty_update p) ln)
        else Ok (UpdateFile p mp chunks, parsed_lines)))) as Hgo.
  { intros mp n. destruct (Hchunks _ n ltac:(reflexivity)) as [->|(message & k & ->)]; by eexists _, _. }
  destruct mv as [m|].
  - cbn [app]. rewrite strip_prefix_app. cbv zeta iota beta. rewrite skipn_cons, drop_0. apply Hgo.
  - cbn [app].
    assert (match concat (map print_chunk cs) ++ t with [] => None | x :: _ => strip_prefix MOVE_TO_MARKER x end = None) as ->.
    { destruct cs as [|c cs]; [|cbn [map concat]; destruct (print_chunk_not_blank c) as (l0 & rest & -> & _ & _ & l & ->); done].
      subst t. destruct hs as [|h hs]; [done|]. cbn [map concat app]. by destruct h. }
    cbv zeta iota beta. apply Hgo.
Qed.

Lemma parse_hunks_incomplete hs ln acc fuel :
  Forall hunk_written hs -> forallb hunk_filled hs = false -> (length (concat (map print_hunk hs)) ≤ fuel)%nat ->
  is_hunk_error (parse_hunks fuel (concat (map print_hunk hs)) ln acc).
Proof.
  intros Hall. revert ln acc fuel. induction Hall as [|h hs Hh Hall IH]; intros ln acc fuel Hc Hf; [done|].
  cbn [map concat forallb] in *. destruct (print_hunks_header hs) as [Hs Hne]. rewrite length_app in Hf.
  destruct (hunk_filled h) eqn:Hch; cbn [andb] in Hc.
  - pose proof (parse_one_hunk_print h _ ln (proj2 (hunk_ok_iff h) (conj Hh Hch)) Hs Hne) as Hp.
    destruct (print_hunk_head h) as (l & t & Heq). rewrite Heq in *.
    destruct fuel; simpl in *; [lia|]. rewrite Hp. simpl. rewrite drop_app_length' by done. apply IH; [done|lia].
  - destruct h as [p added|p|p mv cs]; [done..|]. destruct Hh as (Hp & _).
    destruct (parse_update_incomplete p mv cs hs ln Hch) as (message & k & Hu).
    assert (parse_one_hunk (print_hunk (PUpdate p mv cs) ++ concat (map print_hunk hs)) ln
      = Some (Err (InvalidHunkError message k))) as Hone.
    { unfold print_hunk at 1, parse_one_hunk. rewrite <- app_comm_cons. cbv zeta.
      rewrite (trim_header UPDATE_FILE_MARKER p eq_refl Hp).
      replace (strip_prefix ADD_FILE_MARKER (UPDATE_FILE_MARKER ++ p)) with (@None str) by reflexivity.
      replace (strip_prefix DELETE_FILE_MARKER (UPDATE_FILE_MARKER ++ p)) with (@None str) by reflexivity.
      by rewrite strip_prefix_app, <- app_assoc. }
    destruct (print_hunk_head (PUpdate p mv cs)) as (l & t & Heq). rewrite Heq in *.
    destruct fuel; simpl in *; [lia|]. rewrite Hone. by exists message, k.
Qed.

Lemma parse_printed_incomplete (env : option str) (hs : list PrintedHunk) :
  env_ok env -> Forall hunk_written hs -> forallb hunk_filled hs = false ->
  is_hunk_error (parse_patch (print_patch env hs)).
Proof.
  intros He Hall Hc. unfold parse_patch, parse_patch_text; simpl.
  rewrite print_patch_trim. unfold print_patch at 1. rewrite str_lines_join.
  2: done.
  2: { unfold print_patch_lines. by rewrite app_assoc, app_comm_cons, last_snoc. }
  2: by apply print_lines_ok.
  unfold check_patch_boundaries_lenient. rewrite boundaries_print.
  destruct (preamble_print env hs He) as [ln ->].
  destruct (parse_hunks_incomplete hs ln [] (length (concat (map print_hunk hs))) Hall Hc) as (message & k & ->); [done|].
  by exists message, k.
Qed.

Definition heredoc_openers : list str :=
  [lit "<<EOF"; lit "<<'EOF'"; lit "<<" ++ [DQUOTE] ++ lit "EOF" ++ [DQUOTE]].

Lemma heredoc_opener_facts opener :
  opener ∈ heredoc_openers ->
  line_ok opener /\ head opener = Some 60%N /\ trim opener <> BEGIN_PATCH_MARKER /\
  (bool_decide (opener = lit "<<EOF") || bool_decide (opener = lit "<<'EOF'")
   || bool_decide (opener = lit "<<" ++ [DQUOTE] ++ lit "EOF" ++ [DQUOTE])) = true.
Proof.
  unfold heredoc_openers. rewrite !elem_of_cons.
  intros [->|[->|[->|?%elem_of_nil]]]; [..|done];
    split_and!; try done; by apply (bool_decide_unpack _).
Qed.

Lemma lenient_heredoc_boundaries opener ls :
  opener ∈ heredoc_openers -> (2 ≤ length ls)%nat ->
  check_patch_boundaries_lenient (opener :: ls ++ [lit "EOF"]) = check_patch_boundaries_strict ls.
Proof.
  intros Ho Hlen. destruct (heredoc_opener_facts opener Ho) as (_ & _ & Hne & Hopen).
  unfold check_patch_boundaries_lenient.
  assert (check_patch_boundaries_strict (opener :: ls ++ [lit "EOF"]) =
          Err (InvalidPatchError msg_first_line)) as ->.
  { unfold check_patch_boundaries_strict, check_start_and_end_lines_strict.
    rewrite app_comm_cons, last_snoc. cbn [head fmap option_fmap option_map app].
    by rewrite bool_decide_eq_false_2. }
  rewrite inner_slice_ends, app_comm_cons, last_snoc, <- app_comm_cons. cbn [head].
  rewrite Hopen. rewrite bool_decide_eq_true_2 by (rewrite length_cons, length_app; simpl; lia).
  done.
Qed.


(** Lenient mode: a printed patch wrapped in a heredoc ([<<EOF], [<<'EOF'] or
    [<<"EOF"], closed by [EOF]) is parsed to the same result as the bare patch,
    without the heredoc lines. *)
Theorem parse_heredoc_wrapped (opener : str) (env : option str) (hs : list PrintedHunk) :
  opener ∈ heredoc_openers -> env_ok env -> Forall hunk_ok hs ->
  parse_patch (join [LF] (opener :: print_patch_lines env hs ++ [lit "EOF"])) =
  parse_patch (print_patch env hs).
Proof.
  intros Ho He Hall. destruct (heredoc_opener_facts opener Ho) as (Hok & Hhd & _ & _).
  rewrite parse_printed by done.
  unfold parse_patch, parse_patch_text. cbn [PARSE_IN_STRICT_MODE].
  rewrite trim_id.
  2: { intros c. destruct opener as [|d opener]; [done|]. rewrite join_head. simplify_eq/=. by intros [= <-]. }
  2: { intros c. rewrite app_comm_cons, join_snoc by done. rewrite !last_app. by intros [= <-]. }
  rewrite str_lines_join.
  2: done.
  2: by rewrite app_comm_cons, last_snoc.
  2: { constructor; [done|]. apply Forall_app. split; [by apply print_lines_ok, hunks_ok_written|].
       constructor; [by apply (bool_decide_unpack _)|done]. }
  rewrite lenient_heredoc_boundaries, boundaries_print.
  2: done.
  2: { unfold print_patch_lines. rewrite length_cons, !length_app. simpl. lia. }
  destruct (preamble_print env hs He) as [ln ->]. by rewrite parse_hunks_print.
Qed.

(** ** Witnesses *)

Definition demo_hunks : list PrintedHunk :=
  [PAdd (lit "src/new.rs") [lit "fn f() {}"; []];
   PDelete (lit "old.txt");
   PUpdate (lit "a.rs") (Some (lit "b.rs"))
     [mkPrinted (Some (lit "fn main()")) [Keep (lit "  x"); Remove (lit "  y"); Add (lit "  z")] false;
      mkPrinted None [Add (lit "tail")] true]].

Lemma demo_hunks_ok : Forall hunk_ok demo_hunks.
Proof.
  repeat first
    [ done | by apply (bool_decide_unpack _)
    | eexists; split; [vm_compute; reflexivity | reflexivity]
    | intros ? [= <-]; by apply (bool_decide_unpack _)
    | apply Forall_nil_2 | apply Forall_cons_2 | split ].
Defined.

Lemma demo_env_ok : env_ok (Some (lit "remote-1")).
Proof.
  intros e [= <-]. split; [|vm_compute; reflexivity].
  split; [by apply (bool_decide_unpack _)|]. eexists; split; [vm_compute; reflexivity | reflexivity].
Defined.


(** The example of the tool instructions with two context lines. *)
Example consecutive_contexts_rejected :
  let patch := print_patch None [PUpdate (lit "a.py") None
    [mkPrinted (Some (lit "class BaseClass")) [] false;
     mkPrinted (Some (lit "def method():")) [Remove (lit "old"); Add (lit "new")] false]] in
  parse_patch patch = Some (Err (InvalidHunkError (msg_unexpected_line (lit "@@ def method():")) 4)).
Proof. vm_compute. reflexivity. Qed.

Lemma parse_heredoc_wrapped_witness :
  parse_patch (join [LF] (lit "<<'EOF'" :: print_patch_lines None demo_hunks ++ [lit "EOF"])) =
  parse_patch (print_patch None demo_hunks).
Proof.
  apply (parse_heredoc_wrapped (lit "<<'EOF'") None demo_hunks); [|done|exact demo_hunks_ok].
  unfold heredoc_openers. rewrite !elem_of_cons. auto.
Defined.
