(* ===== verification/Replacements.v ===== *)
(** * Computing and applying replacements: [apply-patch/src/lib.rs]

    [compute_replacements] places the chunks of an update hunk in the lines of
    a file, [apply_replacements] edits the lines, and
    [derive_new_contents_from_chunks] goes from the contents of the file to its
    new contents.  The abstract specification is [splice]: copy the untouched
    lines, emit the new ones.  The in-place editing loop, which removes and
    inserts one line at a time from the last replacement to the first, is shown
    to implement it, and never to hit the panic of [Vec::insert]. *)

From S2P Require Import Prelude SeekSequence PatchParser.

(** ** Data *)

(** [io::Error]: the kind the source tests and the text it prints. *)
Inductive ErrorKind : Type := NotFound | AlreadyExists | InvalidInput | InvalidData | OtherKind.
#[export] Instance ErrorKind_eq_dec : EqDecision ErrorKind.
Proof. solve_decision. Defined.

Record io_Error : Type := mkIo { kind : ErrorKind; text : str }.
#[export] Instance io_Error_eq_dec : EqDecision io_Error.
Proof. solve_decision. Defined.

Record IoError : Type := mkIoError { context : str; source : io_Error }.
#[export] Instance IoError_eq_dec : EqDecision IoError.
Proof. solve_decision. Defined.

Inductive ApplyPatchError : Type :=
| ApplyParseError (e : ParseError)
| ApplyIoError (e : IoError)
| ComputeReplacements (message : str)
| ImplicitInvocation.
#[export] Instance ApplyPatchError_eq_dec : EqDecision ApplyPatchError.
Proof. solve_decision. Defined.

(** [(start_index, old_len, new_lines)] *)
Abbreviation replacement := (nat * nat * list str)%type (only parsing).
Definition repl_start (r : replacement) : nat := r.1.1.

(** ** Operations *)

Definition last_is_empty (ls : list str) : bool :=
  match last ls with Some l => bool_decide (l = []) | None => false end.

Definition msg_no_context (ctx_line path : str) : str :=
  lit "Failed to find context '" ++ ctx_line ++ lit "' in " ++ path.
Definition msg_no_lines_found (path : str) (old : list str) : str :=
  lit "Failed to find expected lines in " ++ path ++ lit ":" ++ [LF] ++ join [LF] old.

(** [slice[..slice.len() - 1]] *)
Definition drop_last {A} (l : list A) : list A := take (length l - 1) l.

(** The search for [old_lines], with the retry without a trailing empty line:
    the start found, the pattern and the new lines that go with it. *)
Definition locate_old_lines (original_lines : list str) (line_index : nat) (chunk : UpdateFileChunk)
    : option nat * list str * list str :=
  let pattern := old_lines chunk in
  let found := seek_sequence original_lines pattern line_index (is_end_of_file chunk) in
  let new_slice := new_lines chunk in
  match found with
  | None =>
      if last_is_empty pattern then
        let pattern := drop_last pattern in
        let new_slice := if last_is_empty new_slice then drop_last new_slice else new_slice in
        (seek_sequence original_lines pattern line_index (is_end_of_file chunk), pattern, new_slice)
      else (None, pattern, new_slice)
  | Some i => (Some i, pattern, new_slice)
  end.

(** The [for chunk in chunks] loop. *)
Fixpoint compute_loop (original_lines : list str) (path : str) (chunks : list UpdateFileChunk)
    (line_index : nat) (replacements : list replacement)
    : result ApplyPatchError (list replacement) :=
  match chunks with
  | [] => Ok replacements
  | chunk :: chunks' =>
      line_index ←
        match change_context chunk with
        | Some ctx_line =>
            match seek_sequence original_lines [ctx_line] line_index false with
            | Some idx => Ok (idx + 1)%nat
            | None => Err (ComputeReplacements (msg_no_context ctx_line path))
            end
        | None => Ok line_index
        end;
      if bool_decide (old_lines chunk = []) then
        let insertion_idx := if last_is_empty original_lines
                             then (length original_lines - 1)%nat
                             else length original_lines in
        compute_loop original_lines path chunks' line_index
          (replacements ++ [(insertion_idx, 0%nat, new_lines chunk)])
      else
        match locate_old_lines original_lines line_index chunk with
        | (Some start_idx, pattern, new_slice) =>
            compute_loop original_lines path chunks' (start_idx + length pattern)
              (replacements ++ [(start_idx, length pattern, new_slice)])
        | (None, _, _) => Err (ComputeReplacements (msg_no_lines_found path (old_lines chunk)))
        end
  end.

Definition compute_replacements (original_lines : list str) (path : str)
    (chunks : list UpdateFileChunk) : result ApplyPatchError (list replacement) :=
  replacements ← compute_loop original_lines path chunks 0 [];
  Ok (sort_by_key repl_start replacements).

(** [for _ in 0..old_len { if start_idx < lines.len() { lines.remove(start_idx); } }] *)
Fixpoint remove_old (old_len start_idx : nat) (lines : list str) : list str :=
  match old_len with
  | O => lines
  | S n =>
      remove_old n start_idx
        (if bool_decide (start_idx < length lines)%nat then vec_remove start_idx lines else lines)
  end.

(** [for (offset, new_line) in new_segment.iter().enumerate() { lines.insert(start_idx + offset, ..) }] *)
Fixpoint insert_new (idx : nat) (new_segment : list str) (lines : list str) : option (list str) :=
  match new_segment with
  | [] => Some lines
  | new_line :: rest => lines' ← vec_insert idx new_line lines; insert_new (S idx) rest lines'
  end.

Definition apply_one (r : replacement) (lines : list str) : option (list str) :=
  let '(start_idx, old_len, new_segment) := r in
  insert_new start_idx new_segment (remove_old old_len start_idx lines).

(** [for (..) in replacements.iter().rev()] *)
Definition apply_replacements (lines : list str) (replacements : list replacement)
    : option (list str) :=
  foldr (fun r acc => lines ← acc; apply_one r lines) (Some lines) replacements.

Record AppliedPatch : Type := mkApplied {
  original_contents : str;
  new_contents : str;
}.

(** The lines of a file: split at newlines, without the empty piece after the
    final newline. *)
Definition original_lines_of (contents : str) : list str :=
  let ls := split_on LF contents in
  if last_is_empty ls then removelast ls else ls.

Definition contents_of_lines (ls : list str) : str :=
  join [LF] (if last_is_empty ls then ls else ls ++ [[]]).

(** [derive_new_contents_from_chunks] after its [read_file_text]; the inner
    [None] is the panic of [apply_replacements]. *)
Definition derive_new_contents (path : str) (original : str) (chunks : list UpdateFileChunk)
    : option (result ApplyPatchError AppliedPatch) :=
  let original_lines := original_lines_of original in
  match compute_replacements original_lines path chunks with
  | Err e => Some (Err e)
  | Ok replacements =>
      new_lines ← apply_replacements original_lines replacements;
      Some (Ok (mkApplied original (contents_of_lines new_lines)))
  end.

(** ** The specification *)

(** Copy the lines from [pos] on, replacing the listed regions. *)
Fixpoint splice (pos : nat) (lines : list str) (rs : list replacement) : list str :=
  match rs with
  | [] => drop pos lines
  | (s, n, seg) :: rs' => take (s - pos) (drop pos lines) ++ seg ++ splice (s + n) lines rs'
  end.

(** The regions are in order, disjoint and inside the file. *)
Fixpoint in_order (pos len : nat) (rs : list replacement) : Prop :=
  match rs with
  | [] => (pos ≤ len)%nat
  | (s, n, _) :: rs' => (pos ≤ s)%nat /\ in_order (s + n) len rs'
  end.

(** [placed lines pos chunks rs]: from line [pos] on, the chunks are found one
    after the other; the context line of a chunk comes first, then its old
    lines (up to the tolerances of [seek_sequence], and without a trailing
    empty line if need be) at the place of its replacement. *)
Inductive placed (lines : list str) : nat -> list UpdateFileChunk -> list replacement -> Prop :=
| placed_nil pos : (pos ≤ length lines)%nat -> placed lines pos [] []
| placed_cons pos pos' c cs s pattern seg rs :
    match change_context c with
    | None => pos' = pos
    | Some ctx => exists i, (pos ≤ i)%nat /\ pos' = S i /\ occurs_at normalise_eq lines [ctx] i
    end ->
    (pos' ≤ s)%nat ->
    occurs_at normalise_eq lines pattern s ->
    (pattern = old_lines c /\ seg = new_lines c \/
     old_lines c = pattern ++ [[]] /\
     (new_lines c = seg ++ [[]] \/ new_lines c = seg)) ->
    placed lines (s + length pattern) cs rs ->
    placed lines pos (c :: cs) ((s, length pattern, seg) :: rs).

(** ** The editing loop *)

Lemma remove_old_spec n s (l : list str) : remove_old n s l = take s l ++ drop (s + n) l.
Proof.
  revert l. induction n as [|n IH]; intros l; simpl; [by rewrite Nat.add_0_r, take_drop|].
  rewrite IH. destruct (bool_decide (s < length l)) eqn:Hs; bool_to_prop.
  - unfold vec_remove.
    rewrite take_app_length' by (rewrite length_take; lia).
    rewrite <- drop_drop, drop_app_length' by (rewrite length_take; lia).
    rewrite drop_drop. do 2 f_equal. lia.
  - by rewrite !take_ge, !drop_ge by lia.
Qed.

Lemma insert_new_spec seg s (l : list str) :
  (s ≤ length l)%nat -> insert_new s seg l = Some (take s l ++ seg ++ drop s l).
Proof.
  revert s l. induction seg as [|x seg IH]; intros s l Hs; simpl; [by rewrite take_drop|].
  unfold vec_insert. rewrite bool_decide_eq_true_2 by done. simpl.
  assert (length (take s l) = s) as Hlen by (rewrite length_take; lia).
  rewrite IH by (rewrite length_app, length_cons, length_drop, Hlen; lia).
  rewrite (cons_middle x). rewrite !app_assoc.
  rewrite take_app_length', drop_app_length' by (rewrite length_app, Hlen; simpl; lia).
  by rewrite <- !app_assoc.
Qed.

Lemma apply_one_spec s n seg (l : list str) :
  (s ≤ length l)%nat -> apply_one (s, n, seg) l = Some (take s l ++ seg ++ drop (s + n) l).
Proof.
  intros Hs. simpl. rewrite remove_old_spec.
  assert (length (take s l) = s) as Hlen by (rewrite length_take; lia).
  rewrite insert_new_spec by (rewrite length_app, Hlen; lia).
  by rewrite take_app_length', drop_app_length' by done.
Qed.

Lemma in_order_le pos len rs : in_order pos len rs -> (pos ≤ len)%nat.
Proof.
  revert pos. induction rs as [|[[s n] seg] rs IH]; intros pos; simpl; [done|].
  intros [? ?%IH]. lia.
Qed.

Lemma apply_replacements_from lines pos rs :
  in_order pos (length lines) rs ->
  apply_replacements lines rs = Some (take pos lines ++ splice pos lines rs).
Proof.
  revert pos. induction rs as [|[[s n] seg] rs IH]; intros pos Hin; simpl.
  - by rewrite take_drop.
  - destruct Hin as [Hpos Hin]. rewrite (IH _ Hin). simpl.
    apply in_order_le in Hin.
    change (insert_new s seg (remove_old n s ?l)) with (apply_one (s, n, seg) l).
    assert (length (take (s + n) lines) = s + n)%nat as Hlen by (rewrite length_take; lia).
    rewrite apply_one_spec by (rewrite length_app, Hlen; lia).
    rewrite take_app_le, take_take, drop_app_length' by lia.
    replace (s `min` (s + n))%nat with s by lia.
    replace (take s lines) with (take pos lines ++ take (s - pos) (drop pos lines)).
    + by rewrite <- app_assoc.
    + rewrite take_drop_commute. replace (pos + (s - pos))%nat with s by lia.
      replace (take pos lines) with (take pos (take s lines)) by (rewrite take_take; f_equal; lia).
      apply take_drop.
Qed.

(** The editing loop runs from the last replacement to the first, and no
    insertion is past the end when the starts are sorted and in the file. *)
Lemma apply_replacements_total lines rs :
  sorted_by repl_start rs -> Forall (fun r => repl_start r ≤ length lines)%nat rs ->
  exists l', apply_replacements lines rs = Some l' /\
    forall k, (k ≤ length lines)%nat -> Forall (fun r => k ≤ repl_start r)%nat rs -> (k ≤ length l')%nat.
Proof.
  intros Hs. induction Hs as [|[[s n] seg] rs Hs IH Hall]; intros Hle; simpl.
  - eexists; split; [reflexivity|]. auto.
  - apply Forall_cons in Hle as [Hs' Hle]. destruct (IH Hle) as (l' & -> & Hk). simpl.
    unfold repl_start in Hs'; simpl in Hs'.
    assert (s ≤ length l')%nat as Hsl by (apply Hk; done).
    change (insert_new s seg (remove_old n s l')) with (apply_one (s, n, seg) l').
    rewrite apply_one_spec by done. eexists; split; [reflexivity|].
    intros k _ [? _]%Forall_cons. rewrite length_app, length_take. unfold repl_start in *; simpl in *. lia.
Qed.

(** ** Placing the chunks *)

Lemma last_is_empty_true ls : last_is_empty ls = true -> exists ls', ls = ls' ++ [[]].
Proof.
  unfold last_is_empty. destruct (last ls) as [l|] eqn:Hl; [|done]. intros ?; bool_to_prop; subst.
  apply last_Some in Hl as [ls' ->]. eauto.
Qed.

Lemma drop_last_snoc {A} (l : list A) (x : A) : drop_last (l ++ [x]) = l.
Proof. unfold drop_last. apply take_app_length'. rewrite length_app. simpl. lia. Qed.

Lemma search_start_no_eof lines pattern start : search_start_of lines pattern start false = start.
Proof. done. Qed.

(** A successful search for the old lines, also through the retry. *)
Lemma locate_old_lines_found lines idx c s pattern seg :
  locate_old_lines lines idx c = (Some s, pattern, seg) -> (idx ≤ length lines)%nat ->
  (is_end_of_file c = false -> idx ≤ s)%nat /\
  (s + length pattern ≤ length lines)%nat /\
  occurs_at normalise_eq lines pattern s /\
  (pattern = old_lines c /\ seg = new_lines c \/
   old_lines c = pattern ++ [[]] /\ (new_lines c = seg ++ [[]] \/ new_lines c = seg)).
Proof.
  unfold locate_old_lines. intros H Hidx.
  assert (forall p, seek_sequence lines p idx (is_end_of_file c) = Some s ->
    (is_end_of_file c = false -> idx ≤ s)%nat /\ (s + length p ≤ length lines)%nat /\
    occurs_at normalise_eq lines p s) as Hseek.
  { intros p Hp. destruct (decide (p = [])) as [->|Hne].
    - injection Hp as <-. split_and!; [lia|simpl; lia|]. unfold occurs_at. by rewrite take_0.
    - destruct (seek_sequence_found _ _ _ _ _ Hne Hp) as [Hge Hocc].
      split_and!; [|by eapply occurs_at_in_range|done]. intros Heof. by rewrite Heof in Hge. }
  case_in H; [destruct (Hseek _ ltac:(eassumption)) as (? & ? & ?); auto 6|].
  case_in H. destruct (Hseek _ ltac:(eassumption)) as (? & ? & ?).
  split_and!; [done..|]. right.
  match goal with E : last_is_empty (old_lines c) = true |- _ => apply last_is_empty_true in E as [old Hold] end.
  rewrite Hold, drop_last_snoc. split; [done|].
  destruct (last_is_empty (new_lines c)) eqn:Hn; [left|by right].
  apply last_is_empty_true in Hn as [new ->]. by rewrite drop_last_snoc.
Qed.

Definition plain_chunk (c : UpdateFileChunk) : Prop := is_end_of_file c = false /\ old_lines c <> [].

Lemma context_step lines path c pos pos' :
  (pos ≤ length lines)%nat ->
  match change_context c with
  | Some ctx_line =>
      match seek_sequence lines [ctx_line] pos false with
      | Some idx => Ok (idx + 1)%nat
      | None => Err (ComputeReplacements (msg_no_context ctx_line path))
      end
  | None => Ok pos
  end = Ok pos' ->
  (pos ≤ pos' ≤ length lines)%nat /\
  match change_context c with
  | None => pos' = pos
  | Some ctx => exists i, (pos ≤ i)%nat /\ pos' = S i /\ occurs_at normalise_eq lines [ctx] i
  end.
Proof.
  intros Hle H. destruct (change_context c) as [ctx|]; [|by simplify_eq].
  destruct (seek_sequence lines [ctx] pos false) as [i|] eqn:Hs; [|done]. simplify_eq.
  assert ([ctx] <> []) as Hne by done.
  pose proof (seek_sequence_range _ _ _ _ _ Hne Hs) as Hr. simpl in Hr.
  destruct (seek_sequence_found _ _ _ _ _ Hne Hs) as [Hge Hocc]. unfold search_start_of in Hge; simpl in Hge.
  split; [lia|]. exists i. split_and!; [done|lia|done].
Qed.

Lemma compute_loop_placed lines path chunks pos acc rs :
  Forall plain_chunk chunks -> (pos ≤ length lines)%nat ->
  compute_loop lines path chunks pos acc = Ok rs ->
  exists rs', rs = acc ++ rs' /\ placed lines pos chunks rs'.
Proof.
  intros Hall. revert pos acc. induction Hall as [|c cs [Heof Hold] Hall IH]; intros pos acc Hpos H; simpl in H.
  - simplify_eq. exists []. rewrite app_nil_r. split; [done|]. by constructor.
  - apply result_bind_ok in H as (pos' & Hctx & H).
    apply context_step in Hctx as [Hle Hctx]; [|done].
    rewrite bool_decide_eq_false_2 in H by done.
    destruct (locate_old_lines lines pos' c) as [[[s|] pattern] seg] eqn:Hl; [|done].
    apply locate_old_lines_found in Hl as (Hge & Hr & Hocc & Hseg); [|lia].
    apply IH in H as (rs' & -> & Hp); [|done].
    exists ((s, length pattern, seg) :: rs'). split; [by rewrite <- app_assoc|].
    eapply placed_cons; eauto.
Qed.

Lemma placed_in_order lines pos chunks rs :
  placed lines pos chunks rs -> in_order pos (length lines) rs.
Proof.
  induction 1 as [|pos pos' c cs s pattern seg rs Hctx ? ? ? Hp IH]; simpl; [done|].
  split; [|done]. destruct (change_context c); [destruct Hctx as (i & ? & ? & _)|]; lia.
Qed.

Lemma in_order_sorted pos len rs :
  in_order pos len rs -> sorted_by repl_start rs /\ Forall (fun r => pos ≤ repl_start r)%nat rs.
Proof.
  revert pos. induction rs as [|[[s n] seg] rs IH]; intros pos; simpl; [split; constructor|].
  intros [Hpos Hin]. destruct (IH _ Hin) as [Hs Hall]. unfold sorted_by, repl_start in *; simpl in *.
  split; constructor; simpl; try done; eapply Forall_impl; try exact Hall; simpl; lia.
Qed.

(** Every replacement computed starts inside the file. *)
Lemma compute_loop_starts lines path chunks pos acc rs :
  (pos ≤ length lines)%nat -> Forall (fun r => repl_start r ≤ length lines)%nat acc ->
  compute_loop lines path chunks pos acc = Ok rs ->
  Forall (fun r => repl_start r ≤ length lines)%nat rs.
Proof.
  revert pos acc. induction chunks as [|c cs IH]; intros pos acc Hpos Hacc H; simpl in H; [by simplify_eq|].
  apply result_bind_ok in H as (pos' & Hctx & H). apply context_step in Hctx as [Hle _]; [|done].
  case_in H.
  - eapply IH; [|idtac|exact H]; [lia|]. apply Forall_app. split; [done|].
    constructor; [|done]. unfold repl_start; simpl. case_match; lia.
  - destruct (locate_old_lines lines pos' c) as [[[s|] pattern] seg] eqn:Hl; [|done].
    apply locate_old_lines_found in Hl as (_ & Hr & _); [|lia].
    eapply IH; [|idtac|exact H]; [lia|]. apply Forall_app. split; [done|].
    constructor; [|done]. unfold repl_start; simpl. lia.
Qed.

(** ** Contents *)

Lemma last_is_empty_spec ls : last_is_empty ls = true <-> last ls = Some [].
Proof.
  unfold last_is_empty. destruct (last ls) as [l|]; [|done].
  rewrite bool_decide_eq_true. naive_solver.
Qed.

Lemma join_terminated ls : join [LF] (ls ++ [[]]) = concat (map (fun l => l ++ [LF]) ls).
Proof.
  induction ls as [|l ls IH]; [done|]. simpl. rewrite <- IH.
  destruct ls; simpl; by rewrite <- app_assoc.
Qed.

Lemma split_on_nonempty c s : split_on c s <> [].
Proof. destruct s as [|x s]; simpl; [done|]. destruct (x =? c)%N; [done|]. by destruct (split_on c s). Qed.

(** A file whose text ends with a newline is its lines, each ended by one. *)
Lemma original_lines_terminated s :
  original_lines_of (s ++ [LF]) = split_on LF s /\
  concat (map (fun l => l ++ [LF]) (split_on LF s)) = s ++ [LF].
Proof.
  assert (split_on LF (s ++ [LF]) = split_on LF s ++ [[]]) as Hsplit.
  { induction s as [|x s IH]; [done|]. simpl. destruct (x =? LF)%N; [by rewrite IH|].
    rewrite IH. destruct (split_on LF s) eqn:E; [by apply split_on_nonempty in E|]. done. }
  split.
  - unfold original_lines_of. rewrite Hsplit.
    assert (last_is_empty (split_on LF s ++ [[]]) = true) as ->
      by (apply last_is_empty_spec, last_snoc).
    apply removelast_last.
  - by rewrite <- join_terminated, <- Hsplit, join_split_on.
Qed.

Lemma derive_new_contents_total (path original : str) (chunks : list UpdateFileChunk) :
  exists r, derive_new_contents path original chunks = Some r /\
    match r with
    | Ok a => original_contents a = original
    | Err e => exists m, e = ComputeReplacements m
    end.
Proof.
  unfold derive_new_contents, compute_replacements. set (lines := original_lines_of original).
  destruct (compute_loop lines path chunks 0 []) as [rs|e] eqn:Hc; simpl.
  - apply compute_loop_starts in Hc; [|lia|constructor].
    destruct (apply_replacements_total lines (sort_by_key repl_start rs)) as (l' & -> & _).
    + apply sort_by_key_sorted.
    + by rewrite sort_by_key_perm.
    + simpl. eexists; split; [reflexivity|done].
  - eexists; split; [reflexivity|]. simpl. clear -Hc. revert Hc. generalize 0%nat as pos, (@nil replacement) as acc.
    induction chunks as [|c cs IH]; intros pos acc H; simpl in H; [done|].
    destruct (match change_context c with Some _ => _ | None => _ end) as [pos'|e'] eqn:Hctx; simpl in H.
    + repeat case_in H; eauto.
    + simplify_eq. repeat case_in Hctx; eauto.
Qed.

(** ** Properties *)

(** Refinement: on replacements that are in order, disjoint and inside the
    file, the editing loop of [apply_replacements] computes the abstract
    splice: every line outside the replaced regions is kept, in order, and
    each region is replaced by its new lines. *)
Theorem apply_replacements_splice (lines : list str) (rs : list replacement) :
  in_order 0 (length lines) rs ->
  apply_replacements lines rs = Some (splice 0 lines rs).
Proof. intros H. by rewrite (apply_replacements_from lines 0 rs H), take_0. Qed.

(** [compute_replacements] places the chunks of an update (none of them
    anchored at the end of file, each with old lines) one after the other: each
    chunk's context line and then its old lines are found in the file, after
    everything the previous chunk replaced. *)
Theorem compute_replacements_placed (lines : list str) (path : str)
    (chunks : list UpdateFileChunk) (rs : list replacement) :
  Forall plain_chunk chunks ->
  compute_replacements lines path chunks = Ok rs ->
  placed lines 0 chunks rs.
Proof.
  intros Hall (rs0 & Hloop & Hs)%result_bind_ok.
  apply compute_loop_placed in Hloop as (rs' & -> & Hp); [|done|lia].
  simplify_eq/=. rewrite sort_by_key_id; [done|].
  eapply in_order_sorted, placed_in_order, Hp.
Qed.

(** Safety: applying any list of chunks to any contents never panics, also
    for chunks anchored at the end of file and pure additions: the result is
    new contents or a [ComputeReplacements] error. *)
Theorem derive_new_contents_no_panic (path original : str) (chunks : list UpdateFileChunk) :
  exists r, derive_new_contents path original chunks = Some r /\
    match r with
    | Ok a => original_contents a = original
    | Err e => exists m, e = ComputeReplacements m
    end.
Proof. apply derive_new_contents_total. Qed.

(** Newlines of the written contents: when the last resulting line is not
    empty (or there is none) every line is ended by a newline; when it is
    empty, the text is one newline short, so a blank line at the end of the
    file is lost. *)
Theorem contents_of_lines_newlines (ls : list str) :
  (last ls <> Some [] -> contents_of_lines ls = concat (map (fun l => l ++ [LF]) ls)) /\
  (last ls = Some [] -> contents_of_lines ls ++ [LF] = concat (map (fun l => l ++ [LF]) ls)).
Proof.
  unfold contents_of_lines. destruct (last_is_empty ls) eqn:Hl.
  - apply last_is_empty_spec in Hl. split; [congruence|]. intros _.
    apply last_Some in Hl as [ls' ->].
    rewrite join_terminated, map_app, concat_app. done.
  - split; [|intros H; by rewrite (proj2 (last_is_empty_spec ls) H) in Hl].
    intros _. apply join_terminated.
Qed.

(** The text of lines, each ended by a newline. *)
Definition text_of_lines (ls : list str) : str := concat (map (fun l => l ++ [LF]) ls).


(** For instance, replacing [a] by [b] in ["a\n\n"] writes ["b\n"]. *)
Example trailing_blank_line_lost :
  derive_new_contents (lit "f") (lit "a" ++ [LF; LF])
    [mkChunk None [lit "a"] [lit "b"] false] =
  Some (Ok (mkApplied (lit "a" ++ [LF; LF]) (lit "b" ++ [LF]))).
Proof. vm_compute. reflexivity. Qed.

(** A chunk anchored at the end of file is placed without regard to the
    lines already consumed, so it can overlap an earlier chunk, whose edit then
    replaces it: both chunks rewrite the only line, no error is reported, and
    the second edit is gone. *)
Theorem eof_chunk_overlap_lost :
  derive_new_contents (lit "f") (lit "a" ++ [LF])
    [mkChunk None [lit "a"] [lit "b"] false; mkChunk None [lit "a"] [lit "c"] true] =
  Some (Ok (mkApplied (lit "a" ++ [LF]) (lit "b" ++ [LF]))) /\
  is_ok (compute_replacements [lit "a"] (lit "f")
    [mkChunk None [lit "a"] [lit "b"] false; mkChunk None [lit "a"] [lit "c"] false]) = false.
Proof. vm_compute. split; reflexivity. Qed.

(** ** Witnesses *)

Definition demo_file : list str := [lit "fn a() {"; lit "  1"; lit "}"; lit "fn b() {"; lit "  1"; lit "}"].
Definition demo_chunks : list UpdateFileChunk :=
  [mkChunk None [lit "  1"] [lit "  2"; lit "  3"] false;
   mkChunk (Some (lit "fn b() {")) [lit "1"; lit "}"] [lit "}"] false].
Definition demo_replacements : list replacement :=
  [(1%nat, 1%nat, [lit "  2"; lit "  3"]); (4%nat, 2%nat, [lit "}"])].

Lemma demo_chunks_plain : Forall plain_chunk demo_chunks.
Proof. repeat first [apply Forall_nil_2 | apply Forall_cons_2 | split | done]. Defined.

Lemma apply_replacements_splice_witness :
  apply_replacements demo_file demo_replacements =
  Some [lit "fn a() {"; lit "  2"; lit "  3"; lit "}"; lit "fn b() {"; lit "}"].
Proof.
  rewrite (apply_replacements_splice demo_file demo_replacements);
    [vm_compute; reflexivity | simpl; lia].
Defined.

Lemma compute_replacements_placed_witness :
  compute_replacements demo_file (lit "x.rs") demo_chunks = Ok demo_replacements /\
  placed demo_file 0 demo_chunks demo_replacements.
Proof.
  split; [vm_compute; reflexivity|].
  apply (compute_replacements_placed demo_file (lit "x.rs"));
    [exact demo_chunks_plain | vm_compute; reflexivity].
Defined.

