(* ===== verification/StreamingPatchParser.v ===== *)
(** * The streaming patch parser: [apply-patch/src/streaming_parser.rs]

    [StreamingPatchParser] is a state machine fed with fragments of a patch as
    the model produces them.  [process_line] is its transition function; it
    changes nothing when it reports an error, so it returns the new state or
    the error.  [push_delta] buffers characters up to a newline; when a line is
    rejected the buffer and the line counter have already moved on, which the
    returned state shows. *)

From S2P Require Import Prelude PatchParser.

(** ** State *)

Inductive StreamingParserMode : Type :=
| NotStarted
| StartedPatch
| ModeAddFile
| ModeDeleteFile
| ModeUpdateFile (hunk_line_number : nat)
| EndedPatch.

Record StreamingPatchParser : Type := mkStreaming {
  line_buffer : str;
  mode : StreamingParserMode;
  st_hunks : list Hunk;
  line_number : nat;
}.

Definition streaming_default : StreamingPatchParser := mkStreaming [] NotStarted [] 0.

Definition set_mode (m : StreamingParserMode) (p : StreamingPatchParser) : StreamingPatchParser :=
  mkStreaming (line_buffer p) m (st_hunks p) (line_number p).
Definition push_hunk (h : Hunk) (p : StreamingPatchParser) : StreamingPatchParser :=
  mkStreaming (line_buffer p) (mode p) (st_hunks p ++ [h]) (line_number p).
(** [*self.state.hunks.last_mut() = h] *)
Definition set_last_hunk (h : Hunk) (p : StreamingPatchParser) : StreamingPatchParser :=
  mkStreaming (line_buffer p) (mode p) (removelast (st_hunks p) ++ [h]) (line_number p).

(** ** Operations *)

Definition is_environment_id_preamble_line (line : str) : bool :=
  starts_with ENVIRONMENT_ID_MARKER line.

Definition chunk_is_empty (c : UpdateFileChunk) : bool :=
  bool_decide (old_lines c = []) && bool_decide (new_lines c = []).

(** [chunks.last().is_some_and(|chunk| chunk.old_lines.is_empty() && chunk.new_lines.is_empty())] *)
Definition last_chunk_empty (chunks : list UpdateFileChunk) : bool :=
  match last chunks with Some c => chunk_is_empty c | None => false end.

Definition ensure_update_hunk_is_not_empty (p : StreamingPatchParser) (line : str)
    : result ParseError unit :=
  match last (st_hunks p) with
  | Some (UpdateFile path _ chunks) =>
      match chunks, mode p with
      | [], ModeUpdateFile hunk_line_number =>
          Err (InvalidHunkError (msg_empty_update path) hunk_line_number)
      | _, _ =>
          if last_chunk_empty chunks then
            if line =s? END_PATCH_MARKER
            then Err (InvalidHunkError msg_no_lines (line_number p))
            else Err (InvalidHunkError (msg_unexpected_line line) (line_number p))
          else Ok tt
      end
  | _ => Ok tt
  end.

(** [Ok (Some p')] is the code's [Ok(true)] with the new state, [Ok None] its [Ok(false)]. *)
Definition handle_hunk_headers_and_end_patch (p : StreamingPatchParser) (trimmed : str)
    : result ParseError (option StreamingPatchParser) :=
  if trimmed =s? END_PATCH_MARKER then
    _ ← ensure_update_hunk_is_not_empty p trimmed;
    Ok (Some (set_mode EndedPatch p))
  else
    match strip_prefix ADD_FILE_MARKER trimmed with
    | Some path =>
        _ ← ensure_update_hunk_is_not_empty p trimmed;
        Ok (Some (set_mode ModeAddFile (push_hunk (AddFile path []) p)))
    | None =>
        match strip_prefix DELETE_FILE_MARKER trimmed with
        | Some path =>
            _ ← ensure_update_hunk_is_not_empty p trimmed;
            Ok (Some (set_mode ModeDeleteFile (push_hunk (DeleteFile path) p)))
        | None =>
            match strip_prefix UPDATE_FILE_MARKER trimmed with
            | Some path =>
                _ ← ensure_update_hunk_is_not_empty p trimmed;
                Ok (Some (set_mode (ModeUpdateFile (line_number p))
                            (push_hunk (UpdateFile path None []) p)))
            | None => Ok None
            end
        end
    end.

(** [if chunks.is_empty() { chunks.push(..) }; if let Some(chunk) = chunks.last_mut() { .. }] *)
Definition update_last_chunk (f : UpdateFileChunk -> UpdateFileChunk) (chunks : list UpdateFileChunk)
    : list UpdateFileChunk :=
  match last chunks with
  | Some c => removelast chunks ++ [f c]
  | None => [f (empty_chunk None)]
  end.

(** The body of the [UpdateFile] mode, for the path, destination and chunks of
    the hunk that is being read: its new destination and chunks, or an error. *)
Definition update_file_line (p : StreamingPatchParser) (line : str) (move_path : option str)
    (chunks : list UpdateFileChunk) : result ParseError (option str * list UpdateFileChunk) :=
  let update_line := trim_end line in
  let unexpected := Err (InvalidHunkError (msg_unexpected_line line) (line_number p)) in
  let is_context := (update_line =s? EMPTY_CHANGE_CONTEXT_MARKER)
                    || starts_with CHANGE_CONTEXT_MARKER update_line in
  match (if (chunks =s? []) && (move_path =s? None)
         then strip_prefix MOVE_TO_MARKER update_line else None) with
  | Some move_to_path => Ok (Some move_to_path, chunks)
  | None =>
      if is_context && last_chunk_empty chunks then unexpected
      else if update_line =s? EMPTY_CHANGE_CONTEXT_MARKER
      then Ok (move_path, chunks ++ [empty_chunk None])
      else
        match strip_prefix CHANGE_CONTEXT_MARKER update_line with
        | Some change_context => Ok (move_path, chunks ++ [empty_chunk (Some change_context)])
        | None =>
            if update_line =s? EOF_MARKER then
              if last_chunk_empty chunks
              then Err (InvalidHunkError msg_no_lines (line_number p))
              else Ok (move_path,
                       match last chunks with
                       | Some c => removelast chunks ++ [set_end_of_file c]
                       | None => chunks
                       end)
            else
              match line with
              | [] => Ok (move_path, update_last_chunk (fun c => push_new [] (push_old [] c)) chunks)
              | c :: rest =>
                  if (c =? SP)%N then
                    Ok (move_path, update_last_chunk (fun c => push_new rest (push_old rest c)) chunks)
                  else if (c =? PLUS)%N then
                    Ok (move_path, update_last_chunk (push_new rest) chunks)
                  else if (c =? MINUS)%N then
                    Ok (move_path, update_last_chunk (push_old rest) chunks)
                  else if (match last chunks with Some c => negb (chunk_is_empty c) | None => false end)
                  then Err (InvalidHunkError (msg_expected_context line) (line_number p))
                  else unexpected
              end
        end
  end.

Definition process_line (p : StreamingPatchParser) (line : str)
    : result ParseError StreamingPatchParser :=
  let trimmed := trim line in
  let bad_header := Err (InvalidHunkError (msg_bad_header trimmed) (line_number p)) in
  match mode p with
  | NotStarted =>
      if trimmed =s? BEGIN_PATCH_MARKER then Ok (set_mode StartedPatch p)
      else Err (InvalidPatchError msg_first_line)
  | StartedPatch =>
      if is_environment_id_preamble_line line then Ok p
      else
        handled ← handle_hunk_headers_and_end_patch p trimmed;
        match handled with Some p' => Ok p' | None => bad_header end
  | ModeAddFile =>
      handled ← handle_hunk_headers_and_end_patch p trimmed;
      match handled with
      | Some p' => Ok p'
      | None =>
          match strip_prefix [PLUS] line, last (st_hunks p) with
          | Some line_to_add, Some (AddFile path contents) =>
              Ok (set_last_hunk (AddFile path (contents ++ line_to_add ++ [LF])) p)
          | _, _ => bad_header
          end
      end
  | ModeDeleteFile =>
      handled ← handle_hunk_headers_and_end_patch p trimmed;
      match handled with Some p' => Ok p' | None => bad_header end
  | ModeUpdateFile hunk_line_number =>
      handled ← handle_hunk_headers_and_end_patch p (trim_end line);
      match handled with
      | Some p' => Ok p'
      | None =>
          match last (st_hunks p) with
          | Some (UpdateFile path move_path chunks) =>
              '(move_path, chunks) ← update_file_line p line move_path chunks;
              Ok (set_last_hunk (UpdateFile path move_path chunks) p)
          | _ => Err (InvalidHunkError (msg_unexpected_line line) (line_number p))
          end
      end
  | EndedPatch => Ok p
  end.

(** One character of [push_delta]; the state is returned also with an error. *)
Definition push_char (p : StreamingPatchParser) (ch : char)
    : StreamingPatchParser * result ParseError unit :=
  if (ch =? LF)%N then
    let line := strip_cr (line_buffer p) in
    let p := mkStreaming [] (mode p) (st_hunks p) (S (line_number p)) in
    match process_line p line with
    | Ok p' => (p', Ok tt)
    | Err e => (p, Err e)
    end
  else (mkStreaming (line_buffer p ++ [ch]) (mode p) (st_hunks p) (line_number p), Ok tt).

Fixpoint push_delta (p : StreamingPatchParser) (delta : str)
    : StreamingPatchParser * result ParseError (list Hunk) :=
  match delta with
  | [] => (p, Ok (st_hunks p))
  | ch :: delta' =>
      match push_char p ch with
      | (p', Ok _) => push_delta p' delta'
      | (p', Err e) => (p', Err e)
      end
  end.

Definition finish (p : StreamingPatchParser) : StreamingPatchParser * result ParseError (list Hunk) :=
  let '(p, r) :=
    if line_buffer p =s? [] then (p, Ok tt)
    else
      let line := line_buffer p in
      let p := mkStreaming [] (mode p) (st_hunks p) (S (line_number p)) in
      match (if trim line =s? END_PATCH_MARKER
             then _ ← ensure_update_hunk_is_not_empty p (trim line); Ok (set_mode EndedPatch p)
             else process_line p line) with
      | Ok p' => (p', Ok tt)
      | Err e => (p, Err e)
      end in
  match r with
  | Err e => (p, Err e)
  | Ok _ =>
      match mode p with
      | EndedPatch => (p, Ok (st_hunks p))
      | _ => (p, Err (InvalidPatchError msg_last_line))
      end
  end.

(** A whole session: deltas in order, then [finish]. *)
Fixpoint push_all (p : StreamingPatchParser) (deltas : list str)
    : StreamingPatchParser * result ParseError (list Hunk) :=
  match deltas with
  | [] => finish p
  | d :: deltas' =>
      match push_delta p d with
      | (p', Ok _) => push_all p' deltas'
      | (p', Err e) => (p', Err e)
      end
  end.

(** ** The invariant *)

(** A hunk that is worth applying: an update has chunks and every one has lines. *)
Definition hunk_complete (h : Hunk) : Prop :=
  match h with
  | UpdateFile _ _ chunks => chunks <> [] /\ Forall (fun c => chunk_is_empty c = false) chunks
  | _ => True
  end.

(** The mode agrees with the last hunk, and every hunk before it is complete. *)
Definition mode_inv (m : StreamingParserMode) (hs : list Hunk) : Prop :=
  match m with
  | NotStarted | StartedPatch => hs = []
  | ModeAddFile =>
      exists hs' path contents, hs = hs' ++ [AddFile path contents] /\ Forall hunk_complete hs'
  | ModeDeleteFile =>
      exists hs' path, hs = hs' ++ [DeleteFile path] /\ Forall hunk_complete hs'
  | ModeUpdateFile _ =>
      exists hs' path mv cs, hs = hs' ++ [UpdateFile path mv cs] /\ Forall hunk_complete hs' /\
        Forall (fun c => chunk_is_empty c = false) (removelast cs)
  | EndedPatch => Forall hunk_complete hs
  end.
Definition streaming_inv (p : StreamingPatchParser) : Prop := mode_inv (mode p) (st_hunks p).

Lemma last_chunk_nonempty cs :
  cs <> [] -> last_chunk_empty cs = false ->
  Forall (fun c => chunk_is_empty c = false) (removelast cs) ->
  Forall (fun c => chunk_is_empty c = false) cs.
Proof.
  destruct cs as [|c cs _] using rev_ind; [done|]. intros _. unfold last_chunk_empty.
  rewrite last_snoc, removelast_last. intros Hc Hall. apply Forall_app. auto.
Qed.

Lemma ensure_complete p line u :
  streaming_inv p -> ensure_update_hunk_is_not_empty p line = Ok u -> Forall hunk_complete (st_hunks p).
Proof.
  unfold streaming_inv, ensure_update_hunk_is_not_empty. destruct (mode p) as [| | | |n|]; simpl.
  - by intros ->.
  - by intros ->.
  - intros (hs' & path & c & -> & Hall) _. apply Forall_app. split; [done|]. by repeat constructor.
  - intros (hs' & path & -> & Hall) _. apply Forall_app. split; [done|]. by repeat constructor.
  - intros (hs' & path & mv & cs & -> & Hall & Hcs). rewrite last_snoc. intros H.
    apply Forall_app. split; [done|]. constructor; [|done]. simpl.
    destruct cs as [|c cs]; [done|]. split; [done|].
    apply last_chunk_nonempty; [done| |done]. by destruct (last_chunk_empty (c :: cs)), (line =s? _).
  - done.
Qed.

Lemma handle_headers_inv p trimmed p' :
  streaming_inv p -> handle_hunk_headers_and_end_patch p trimmed = Ok (Some p') ->
  streaming_inv p' /\ line_buffer p' = line_buffer p /\ exists new, st_hunks p' = st_hunks p ++ new.
Proof.
  intros Hinv. unfold handle_hunk_headers_and_end_patch.
  destruct (trimmed =s? END_PATCH_MARKER).
  { intros ([] & He & H)%result_bind_ok. simplify_eq. split_and!; [|done|by exists []; rewrite app_nil_r].
    unfold streaming_inv; simpl. by eapply ensure_complete. }
  destruct (strip_prefix ADD_FILE_MARKER trimmed) as [path|].
  { intros ([] & He & H)%result_bind_ok. simplify_eq. split_and!; [|done|by eexists].
    do 3 eexists. split; [done|]. by eapply ensure_complete. }
  destruct (strip_prefix DELETE_FILE_MARKER trimmed) as [path|].
  { intros ([] & He & H)%result_bind_ok. simplify_eq. split_and!; [|done|by eexists].
    do 2 eexists. split; [done|]. by eapply ensure_complete. }
  destruct (strip_prefix UPDATE_FILE_MARKER trimmed) as [path|]; [|done].
  intros ([] & He & H)%result_bind_ok. simplify_eq. split_and!; [|done|by eexists].
  do 4 eexists. split; [done|]. split; [by eapply ensure_complete|done].
Qed.

Lemma push_not_empty l c :
  chunk_is_empty (push_old l c) = false /\ chunk_is_empty (push_new l c) = false.
Proof.
  unfold chunk_is_empty, push_old, push_new; simpl. split.
  - by rewrite (bool_decide_eq_false_2 (old_lines c ++ [l] = [])) by (by destruct (old_lines c)).
  - by rewrite (bool_decide_eq_false_2 (new_lines c ++ [l] = [])), andb_false_r by (by destruct (new_lines c)).
Qed.

Lemma update_last_removelast f cs : removelast (update_last_chunk f cs) = removelast cs.
Proof.
  unfold update_last_chunk. destruct cs as [|c cs _] using rev_ind; [done|].
  by rewrite last_snoc, removelast_last, removelast_last.
Qed.

(** A line of an update hunk keeps every chunk but the last one complete. *)
Lemma update_file_line_inv p line mv cs mv' cs' :
  update_file_line p line mv cs = Ok (mv', cs') ->
  Forall (fun c => chunk_is_empty c = false) (removelast cs) ->
  Forall (fun c => chunk_is_empty c = false) (removelast cs').
Proof.
  intros H Hcs. unfold update_file_line in H. cbv zeta in H.
  assert (forall x, (((trim_end line =s? EMPTY_CHANGE_CONTEXT_MARKER)
      || starts_with CHANGE_CONTEXT_MARKER (trim_end line)) && last_chunk_empty cs) = false ->
    ((trim_end line =s? EMPTY_CHANGE_CONTEXT_MARKER)
      || starts_with CHANGE_CONTEXT_MARKER (trim_end line)) = true ->
    Forall (fun c => chunk_is_empty c = false) (removelast (cs ++ [x]))) as Hpush.
  { intros x Hand Hctx. rewrite Hctx in Hand. simpl in Hand. rewrite removelast_last.
    destruct cs as [|c cs]; [constructor|]. by apply last_chunk_nonempty. }
  case_in H; [done|].
  destruct (_ && last_chunk_empty cs) eqn:Hand; [done|].
  destruct (trim_end line =s? EMPTY_CHANGE_CONTEXT_MARKER) eqn:Hempty.
  { simplify_eq. by apply Hpush. }
  destruct (strip_prefix CHANGE_CONTEXT_MARKER (trim_end line)) as [ctx|] eqn:Hctx.
  { simplify_eq. apply Hpush; [done|]. simpl. apply starts_with_true.
    exists ctx. by apply strip_prefix_Some. }
  destruct (trim_end line =s? EOF_MARKER).
  { case_in H. destruct cs as [|c cs _] using rev_ind; [done|].
    rewrite last_snoc, !removelast_last. by rewrite removelast_last in Hcs. }
  repeat case_in H; by rewrite update_last_removelast.
Qed.

Lemma process_line_inv p line p' :
  streaming_inv p -> process_line p line = Ok p' ->
  streaming_inv p' /\ line_buffer p' = line_buffer p /\
  exists new, st_hunks p' = removelast (st_hunks p) ++ new /\ (st_hunks p <> [] -> new <> []).
Proof.
  assert (forall (hs new : list Hunk), exists new', hs ++ new = removelast hs ++ new' /\ (hs <> [] -> new' <> []))
    as Hgrow.
  { intros hs new. destruct hs as [|h hs _] using rev_ind; [by exists new|].
    rewrite removelast_last, <- app_assoc. by eexists. }
  assert (forall trimmed p', streaming_inv p -> handle_hunk_headers_and_end_patch p trimmed = Ok (Some p') ->
    streaming_inv p' /\ line_buffer p' = line_buffer p /\
    exists new, st_hunks p' = removelast (st_hunks p) ++ new /\ (st_hunks p <> [] -> new <> [])) as Hhandle.
  { intros t q Hinv Hq. destruct (handle_headers_inv _ _ _ Hinv Hq) as (? & ? & new & ->). auto. }
  intros Hinv. unfold process_line.
  destruct (mode p) as [| | | |n|] eqn:Hm; cbv zeta.
  - case_match; [|done]. intros; simplify_eq. unfold streaming_inv in *. rewrite Hm in Hinv. simpl in *.
    split_and!; [done..|]. rewrite Hinv. by exists [].
  - case_match.
    + intros; simplify_eq. split_and!; [done..|]. destruct (Hgrow (st_hunks p') []) as (new & Hn & ?).
      rewrite app_nil_r in Hn. eauto.
    + intros ([q|] & Hq & Hres)%result_bind_ok; [|done]. simplify_eq. eauto.
  - intros ([q|] & Hq & Hres)%result_bind_ok; [simplify_eq; eauto|].
    unfold streaming_inv in Hinv. rewrite Hm in Hinv. destruct Hinv as (hs' & path & c & Hh & Hall).
    rewrite Hh, last_snoc in Hres. case_in Hres. split_and!; [|done|].
    + unfold streaming_inv; simpl. rewrite Hm, Hh, removelast_last. simpl. eauto 6.
    + rewrite Hh, removelast_last. by eexists.
  - intros ([q|] & Hq & Hres)%result_bind_ok; [|done]. simplify_eq. eauto.
  - intros ([q|] & Hq & Hres)%result_bind_ok; [simplify_eq; eauto|].
    unfold streaming_inv in Hinv. rewrite Hm in Hinv.
    destruct Hinv as (hs' & path & mv & cs & Hh & Hall & Hcs).
    rewrite Hh, last_snoc in Hres. apply result_bind_ok in Hres as ([mv' cs'] & Hu & Hres). simplify_eq.
    apply update_file_line_inv in Hu; [|done]. split_and!; [|done|].
    + unfold streaming_inv; simpl. rewrite Hm, Hh, removelast_last. simpl. eauto 8.
    + simpl. rewrite Hh, removelast_last. by eexists.
  - intros; simplify_eq. split_and!; [done..|]. destruct (Hgrow (st_hunks p') []) as (new & Hn & ?).
    rewrite app_nil_r in Hn. eauto.
Qed.

Lemma push_char_inv p ch : streaming_inv p -> streaming_inv (fst (push_char p ch)).
Proof.
  intros Hinv. unfold push_char. destruct (ch =? LF)%N; [|done].
  destruct (process_line _ _) as [p'|e] eqn:Hp; [|done].
  apply process_line_inv in Hp as [? _]; done.
Qed.

Lemma push_delta_inv p delta : streaming_inv p -> streaming_inv (fst (push_delta p delta)).
Proof.
  revert p. induction delta as [|ch delta IH]; intros p Hinv; simpl; [done|].
  pose proof (push_char_inv p ch Hinv) as Hc. destruct (push_char p ch) as [p' [[]|e]]; simpl in *; auto.
Qed.

Lemma finish_inv p p' hs :
  streaming_inv p -> finish p = (p', Ok hs) -> Forall hunk_complete hs.
Proof.
  intros Hinv. unfold finish.
  assert (forall q, streaming_inv q ->
    match mode q with
    | EndedPatch => (q, Ok (st_hunks q))
    | _ => (q, Err (InvalidPatchError msg_last_line))
    end = (p', Ok hs) -> Forall hunk_complete hs) as Hend.
  { intros q Hq H. unfold streaming_inv in Hq. case_in H. done. }
  destruct (line_buffer p =s? []); [by apply Hend|]. cbv zeta.
  set (q := mkStreaming [] (mode p) (st_hunks p) (S (line_number p))).
  destruct (trim (line_buffer p) =s? END_PATCH_MARKER).
  - destruct (ensure_update_hunk_is_not_empty q _) as [u|e] eqn:He; simpl; [|done].
    intros H; simplify_eq/=. exact (ensure_complete q _ _ Hinv He).
  - destruct (process_line q _) as [q'|e] eqn:Hp; [|done].
    apply process_line_inv in Hp as [? _]; [|done]. by apply Hend.
Qed.

Lemma push_delta_app p a b :
  push_delta p (a ++ b) =
  match push_delta p a with
  | (p', Ok _) => push_delta p' b
  | (p', Err e) => (p', Err e)
  end.
Proof.
  revert p. induction a as [|ch a IH]; intros p; simpl; [done|].
  by destruct (push_char p ch) as [p' [[]|e]].
Qed.

Lemma push_all_concat p deltas : push_all p deltas = push_all p [concat deltas].
Proof.
  revert p. induction deltas as [|d deltas IH]; intros p; simpl; [done|].
  rewrite push_delta_app. destruct (push_delta p d) as [p' [hs|e]]; [|done].
  rewrite IH. done.
Qed.

(** The outcome of a session does not depend on how the patch text is cut
    into deltas: equal concatenations give equal states and results. *)
Theorem push_all_chunking (p : StreamingPatchParser) (ds ds' : list str) :
  concat ds = concat ds' -> push_all p ds = push_all p ds'.
Proof. intros H. rewrite push_all_concat, (push_all_concat p ds'). by rewrite H. Qed.

(** Invariant of the state machine over a whole session: if the session
    succeeds, every hunk it returns is complete (an update has at least one
    chunk and no chunk is empty), whatever the input was. *)
Theorem streaming_session_complete (deltas : list str) (p : StreamingPatchParser) (hs : list Hunk) :
  push_all streaming_default deltas = (p, Ok hs) -> Forall hunk_complete hs.
Proof.
  rewrite push_all_concat. simpl.
  assert (streaming_inv streaming_default) as Hinv by done.
  apply (push_delta_inv _ (concat deltas)) in Hinv.
  destruct (push_delta streaming_default (concat deltas)) as [q [hs'|e]]; [|done].
  by apply finish_inv.
Qed.

(** ** Agreement with the batch parser *)

(** The patches on which the parsers agree: a context line or destination that
    is empty or ends in whitespace is trimmed by this parser only. *)
Definition stream_chunk_ok (c : PrintedChunk) : Prop :=
  chunk_ok c /\ (forall ctx, pc_context c = Some ctx -> name_ok ctx).
Definition stream_hunk_ok (h : PrintedHunk) : Prop :=
  match h with
  | PUpdate _ move_to chunks =>
      hunk_ok h /\ (forall m, move_to = Some m -> name_ok m) /\ Forall stream_chunk_ok chunks
  | _ => hunk_ok h
  end.

Lemma stream_hunk_ok_hunk_ok h : stream_hunk_ok h -> hunk_ok h.
Proof. destruct h; simpl; [done..|]. by intros [? _]. Qed.

(** The parser at a line boundary. *)
Definition at_line (m : StreamingParserMode) (hs : list Hunk) (ln : nat) : StreamingPatchParser :=
  mkStreaming [] m hs ln.

(** Feed whole lines. *)
Fixpoint feed (p : StreamingPatchParser) (lines : list str) : result ParseError StreamingPatchParser :=
  match lines with
  | [] => Ok p
  | l :: lines' =>
      p' ← process_line (at_line (mode p) (st_hunks p) (S (line_number p))) l;
      feed p' lines'
  end.

Lemma feed_app p l1 l2 : feed p (l1 ++ l2) = (p' ← feed p l1; feed p' l2).
Proof.
  revert p. induction l1 as [|l l1 IH]; intros p; simpl; [done|].
  destruct (process_line _ l); simpl; auto.
Qed.

Lemma push_delta_no_newline p s :
  LF ∉ s ->
  push_delta p s = (mkStreaming (line_buffer p ++ s) (mode p) (st_hunks p) (line_number p), Ok (st_hunks p)).
Proof.
  revert p. induction s as [|c s IH]; intros p Hn; simpl.
  - rewrite app_nil_r. by destruct p.
  - unfold push_char. rewrite (proj2 (N.eqb_neq c LF)) by set_solver.
    rewrite IH by set_solver. simpl. by rewrite <- app_assoc.
Qed.

Lemma push_delta_feed p p' lines :
  streaming_inv p -> line_buffer p = [] -> Forall line_ok lines -> feed p lines = Ok p' ->
  push_delta p (concat (map (fun l => l ++ [LF]) lines)) = (p', Ok (st_hunks p')) /\ line_buffer p' = [].
Proof.
  intros Hinv Hb Hall. revert p Hinv Hb. induction Hall as [|l lines [Hlf Hcr] Hall IH]; intros p Hinv Hb Hf; simpl in *.
  - by simplify_eq.
  - apply result_bind_ok in Hf as (q & Hq & Hf).
    rewrite <- app_assoc, push_delta_app, push_delta_no_newline by done. simpl.
    unfold push_char; simpl. rewrite Hb, app_nil_l, strip_cr_id by done.
    change (mkStreaming [] (mode p) (st_hunks p) (S (line_number p)))
      with (at_line (mode p) (st_hunks p) (S (line_number p))).
    rewrite Hq. apply process_line_inv in Hq as (Hqi & Hqb & _); [|done].
    apply IH; done.
Qed.

(** Complete hunks raise no objection at the next header. *)
Lemma ensure_of_complete p line :
  Forall hunk_complete (st_hunks p) -> ensure_update_hunk_is_not_empty p line = Ok tt.
Proof.
  unfold ensure_update_hunk_is_not_empty. destruct (last (st_hunks p)) as [h|] eqn:Hl; [|done].
  intros Hall. apply last_Some in Hl as [hs Hh]. rewrite Hh, Forall_app, Forall_cons in Hall.
  destruct Hall as (_ & Hc & _). destruct h as [| |path mv cs]; [done..|]. destruct Hc as [Hne Hcs].
  assert (last_chunk_empty cs = false) as Hle.
  { unfold last_chunk_empty. destruct (last cs) as [c|] eqn:Hc; [|done].
    apply last_Some in Hc as [cs' ->]. rewrite Forall_app, Forall_cons in Hcs. by destruct Hcs as (_ & ? & _). }
  destruct cs; [done|]. by rewrite Hle.
Qed.

Definition reading (m : StreamingParserMode) : Prop :=
  match m with NotStarted | EndedPatch => False | _ => True end.

Lemma trim_end_header mk p : name_ok p -> trim_end (mk ++ p) = mk ++ p.
Proof.
  intros (_ & c & Hl & Hc). apply drop_end_while_keep. intros d Hd.
  rewrite last_app, Hl in Hd. by simplify_eq.
Qed.

(** The header tests fail on a line that is empty or starts with another
    character than ['*']. *)
Lemma not_header p t :
  t = [] \/ (exists c l, t = c :: l /\ c <> STAR) -> handle_hunk_headers_and_end_patch p t = Ok None.
Proof.
  intros Ht. unfold handle_hunk_headers_and_end_patch.
  assert (forall m, strip_prefix (STAR :: m) t = None) as Hstrip.
  { intros m. apply eq_None_not_Some. intros [r Hr%strip_prefix_Some].
    destruct Ht as [->|(c & l & -> & Hc)]; simplify_eq/=. }
  rewrite bool_decide_eq_false_2.
  - change ADD_FILE_MARKER with (STAR :: lit "** Add File: ").
    change DELETE_FILE_MARKER with (STAR :: lit "** Delete File: ").
    change UPDATE_FILE_MARKER with (STAR :: lit "** Update File: ").
    by rewrite !Hstrip.
  - intros ->. destruct Ht as [?|(c & l & ? & Hc)]; [done|].
    change END_PATCH_MARKER with (STAR :: lit "** End Patch") in *. congruence.
Qed.

Lemma trim_end_cons c l : trim_end (c :: l) = [] \/ exists l', trim_end (c :: l) = c :: l'.
Proof.
  destruct (drop_end_while_prefix is_whitespace (c :: l)) as (suf & Heq & _).
  unfold trim_end. destruct (drop_end_while is_whitespace (c :: l)); [by left|].
  right. simplify_list_eq. eauto.
Qed.

Lemma trim_cons c l : is_whitespace c = false -> exists l', trim (c :: l) = c :: l'.
Proof.
  intros Hc. unfold trim, trim_start. simpl. rewrite Hc.
  destruct (drop_end_while_prefix is_whitespace (c :: l)) as (suf & Heq & Hs).
  unfold trim_end. destruct (drop_end_while is_whitespace (c :: l)) as [|d l'].
  - simpl in Heq. subst. inversion Hs; congruence.
  - simplify_list_eq. eauto.
Qed.

(** The markers of the three kinds of hunk header. *)
Lemma header_line m hs ln mk path (h : Hunk) (m' : StreamingParserMode) :
  reading m -> Forall hunk_complete hs -> name_ok path ->
  (mk, h, m') ∈ [(ADD_FILE_MARKER, AddFile path [], ModeAddFile);
                 (DELETE_FILE_MARKER, DeleteFile path, ModeDeleteFile);
                 (UPDATE_FILE_MARKER, UpdateFile path None [], ModeUpdateFile ln)] ->
  process_line (at_line m hs ln) (mk ++ path) = Ok (at_line m' (hs ++ [h]) ln).
Proof.
  intros Hm Hall Hp Hin.
  assert (handle_hunk_headers_and_end_patch (at_line m hs ln) (mk ++ path) =
          Ok (Some (at_line m' (hs ++ [h]) ln)) /\ head mk = Some STAR /\
          is_environment_id_preamble_line (mk ++ path) = false) as (Hh & Hs & Henv).
  { unfold handle_hunk_headers_and_end_patch. rewrite ensure_of_complete by done.
    rewrite !elem_of_cons in Hin.
    destruct Hin as [?|[?|[?|?%elem_of_nil]]]; simplify_eq; [..|done].
    - rewrite strip_prefix_app. done.
    - replace (strip_prefix ADD_FILE_MARKER (DELETE_FILE_MARKER ++ path)) with (@None str) by reflexivity.
      rewrite strip_prefix_app. done.
    - replace (strip_prefix ADD_FILE_MARKER (UPDATE_FILE_MARKER ++ path)) with (@None str) by reflexivity.
      replace (strip_prefix DELETE_FILE_MARKER (UPDATE_FILE_MARKER ++ path)) with (@None str) by reflexivity.
      rewrite strip_prefix_app. done. }
  unfold process_line. destruct m; simpl in Hm; try done; cbn [mode at_line];
    rewrite ?Henv, ?(trim_header mk path Hs Hp), ?(trim_end_header mk path Hp), Hh; done.
Qed.

Lemma add_line hs ln path contents l :
  process_line (at_line ModeAddFile (hs ++ [AddFile path contents]) ln) (PLUS :: l) =
  Ok (at_line ModeAddFile (hs ++ [AddFile path (contents ++ l ++ [LF])]) ln).
Proof.
  unfold process_line. cbn [mode at_line]. destruct (trim_cons PLUS l eq_refl) as [l' ->].
  rewrite not_header by (right; by eexists _, _). cbn.
  rewrite last_snoc. unfold set_last_hunk; cbn. by rewrite removelast_last.
Qed.

(** One step of an update hunk whose line is not a header. *)
Lemma update_line_step hs ln n path mv cs line mv' cs' :
  handle_hunk_headers_and_end_patch (at_line (ModeUpdateFile n) (hs ++ [UpdateFile path mv cs]) ln)
    (trim_end line) = Ok None ->
  update_file_line (at_line (ModeUpdateFile n) (hs ++ [UpdateFile path mv cs]) ln) line mv cs =
    Ok (mv', cs') ->
  process_line (at_line (ModeUpdateFile n) (hs ++ [UpdateFile path mv cs]) ln) line =
  Ok (at_line (ModeUpdateFile n) (hs ++ [UpdateFile path mv' cs']) ln).
Proof.
  intros Hh Hu. unfold process_line. cbn [mode at_line]. rewrite Hh. cbn [mbind result_bind].
  cbn [st_hunks at_line]. rewrite last_snoc. change (mkStreaming [] ?m ?h ?l) with (at_line m h l).
  rewrite Hu. cbn. unfold set_last_hunk; cbn. by rewrite removelast_last.
Qed.

Lemma move_line hs ln n path m :
  name_ok m ->
  process_line (at_line (ModeUpdateFile n) (hs ++ [UpdateFile path None []]) ln) (MOVE_TO_MARKER ++ m) =
  Ok (at_line (ModeUpdateFile n) (hs ++ [UpdateFile path (Some m) []]) ln).
Proof.
  intros Hm. apply update_line_step.
  - rewrite trim_end_header by done. reflexivity.
  - unfold update_file_line. rewrite trim_end_header by done. cbv zeta.
    cbn [bool_decide]. by rewrite strip_prefix_app.
Qed.

Lemma context_line hs ln n path mv cs ctx :
  (forall c, ctx = Some c -> name_ok c) -> last_chunk_empty cs = false ->
  process_line (at_line (ModeUpdateFile n) (hs ++ [UpdateFile path mv cs]) ln) (print_context ctx) =
  Ok (at_line (ModeUpdateFile n) (hs ++ [UpdateFile path mv (cs ++ [empty_chunk ctx])]) ln).
Proof.
  intros Hctx Hcs.
  assert (trim_end (print_context ctx) = print_context ctx) as Htrim.
  { destruct ctx as [c|]; [|done]. apply trim_end_header; auto. }
  apply update_line_step.
  - rewrite Htrim. apply not_header. right. destruct ctx; by eexists 64%N, _.
  - unfold update_file_line. rewrite Htrim, Hcs. cbv zeta.
    assert (strip_prefix MOVE_TO_MARKER (print_context ctx) = None) as -> by (by destruct ctx).
    rewrite andb_false_r. destruct ctx as [c|].
    + case_match; [by case_match|].
      rewrite bool_decide_eq_false_2 by done.
      unfold print_context. by rewrite strip_prefix_app.
    + case_match; [by case_match|]. done.
Qed.

Lemma apply_change_snoc es e c :
  apply_changes (es ++ [e]) c =
  match e with
  | Keep l => push_new l (push_old l (apply_changes es c))
  | Add l => push_new l (apply_changes es c)
  | Remove l => push_old l (apply_changes es c)
  end.
Proof.
  unfold apply_changes. rewrite !map_app, !concat_app.
  destruct e; unfold push_new, push_old; simpl; by rewrite ?app_nil_r, ?app_assoc.
Qed.

Lemma change_line hs ln n path mv cs c e :
  process_line (at_line (ModeUpdateFile n) (hs ++ [UpdateFile path mv (cs ++ [c])]) ln) (print_change e) =
  Ok (at_line (ModeUpdateFile n) (hs ++ [UpdateFile path mv (cs ++ [apply_changes [e] c])]) ln).
Proof.
  assert (exists d l, print_change e = d :: l /\ d <> STAR /\ d <> 64%N) as (d & l & Heq & Hd & Hd').
  { destruct e; by do 2 eexists. }
  assert (trim_end (print_change e) = [] \/ exists l', trim_end (print_change e) = d :: l') as Htrim.
  { rewrite Heq. apply trim_end_cons. }
  apply update_line_step.
  - apply not_header. destruct Htrim as [->|[l' ->]]; [by left|right; by eexists _, _].
  - unfold update_file_line. cbv zeta.
    assert (forall s, s <> [] -> head s <> Some d -> trim_end (print_change e) <> s) as Hne.
    { intros s Hs Hsd Ht. rewrite Ht in Htrim. destruct Htrim as [->|[l' ->]]; done. }
    assert (forall m, m <> [] -> head m <> Some d -> strip_prefix m (trim_end (print_change e)) = None) as Hstrip.
    { intros m Hm Hmd. apply eq_None_not_Some. intros [r Hr%strip_prefix_Some].
      destruct m as [|x m]; [done|]. rewrite Hr in Htrim. destruct Htrim as [?|[l' ?]]; simplify_eq/=. }
    assert (head MOVE_TO_MARKER <> Some d /\ head CHANGE_CONTEXT_MARKER <> Some d /\
            head EMPTY_CHANGE_CONTEXT_MARKER <> Some d /\ head EOF_MARKER <> Some d) as (? & ? & ? & ?).
    { split_and!; intros [= <-]; first [by apply Hd | by apply Hd']. }
    unfold starts_with. rewrite !Hstrip by done.
    rewrite !(bool_decide_eq_false_2 (trim_end (print_change e) = _)) by (by apply Hne).
    assert (bool_decide (is_Some (@None str)) = false) as -> by done. simpl.
    assert (forall (b : bool), (if b then @None str else None) = None) as -> by (by intros []).
    unfold update_last_chunk. rewrite last_snoc, removelast_last.
    destruct e as [x|x|x]; simpl; do 4 f_equal;
      unfold apply_changes, push_new, push_old; simpl; by rewrite ?app_nil_r.
Qed.

Lemma eof_line hs ln n path mv cs c :
  chunk_is_empty c = false ->
  process_line (at_line (ModeUpdateFile n) (hs ++ [UpdateFile path mv (cs ++ [c])]) ln) EOF_MARKER =
  Ok (at_line (ModeUpdateFile n) (hs ++ [UpdateFile path mv (cs ++ [set_end_of_file c])]) ln).
Proof.
  intros Hc. apply update_line_step; [reflexivity|].
  unfold update_file_line. cbv zeta.
  rewrite (bool_decide_eq_false_2 (cs ++ [c] = [])) by (by destruct cs).
  unfold last_chunk_empty. rewrite last_snoc, Hc.
  replace (strip_prefix CHANGE_CONTEXT_MARKER (trim_end EOF_MARKER)) with (@None str) by reflexivity.
  rewrite removelast_last. reflexivity.
Qed.

(** From here on a step of [feed] is one of the lemmas above. *)
Lemma feed_changes hs ln n path mv cs c es :
  feed (at_line (ModeUpdateFile n) (hs ++ [UpdateFile path mv (cs ++ [c])]) ln) (map print_change es) =
  Ok (at_line (ModeUpdateFile n) (hs ++ [UpdateFile path mv (cs ++ [apply_changes es c])]) (ln + length es)).
Proof.
  revert ln c. induction es as [|e es IH]; intros ln c; simpl.
  - unfold apply_changes; simpl. rewrite !app_nil_r, Nat.add_0_r. by destruct c.
  - rewrite change_line. simpl. rewrite IH. unfold apply_changes; simpl.
    rewrite !app_nil_r, <- !app_assoc. by rewrite Nat.add_succ_r.
Qed.

Lemma chunk_of_nonempty c : chunk_ok c -> chunk_is_empty (chunk_of c) = false.
Proof.
  intros (Hne & _). unfold chunk_is_empty, chunk_of; simpl.
  destruct (pc_changes c) as [|[l|l|l] es]; [done|..]; simpl; by rewrite ?andb_false_r.
Qed.

Lemma feed_chunk hs ln n path mv cs c :
  stream_chunk_ok c -> last_chunk_empty cs = false ->
  exists ln', feed (at_line (ModeUpdateFile n) (hs ++ [UpdateFile path mv cs]) ln) (print_chunk c) =
  Ok (at_line (ModeUpdateFile n) (hs ++ [UpdateFile path mv (cs ++ [chunk_of c])]) ln').
Proof.
  intros [Hok Hctx] Hcs. unfold print_chunk. cbn [feed]. cbn [mode st_hunks line_number at_line].
  rewrite context_line by done. cbn [mbind result_bind]. rewrite feed_app, feed_changes. cbn [mbind result_bind].
  pose proof (chunk_of_nonempty c Hok) as Hc.
  destruct c as [ctx es eof]; cbn [pc_context pc_changes pc_eof] in *.
  destruct eof; [|eexists; reflexivity].
  eexists. cbn [feed]. cbn [mode st_hunks line_number at_line]. rewrite eof_line by exact Hc. reflexivity.
Qed.

Lemma last_chunk_of_nonempty cs c : chunk_ok c -> last_chunk_empty (cs ++ [chunk_of c]) = false.
Proof. intros Hc. unfold last_chunk_empty. rewrite last_snoc. by apply chunk_of_nonempty. Qed.

Lemma feed_chunks hs ln n path mv cs pcs :
  Forall stream_chunk_ok pcs -> last_chunk_empty cs = false ->
  exists ln', feed (at_line (ModeUpdateFile n) (hs ++ [UpdateFile path mv cs]) ln) (concat (map print_chunk pcs)) =
  Ok (at_line (ModeUpdateFile n) (hs ++ [UpdateFile path mv (cs ++ map chunk_of pcs)]) ln').
Proof.
  intros Hall. revert ln cs. induction Hall as [|c pcs Hc Hall IH]; intros ln cs Hcs; cbn [map concat].
  - rewrite app_nil_r. eexists; reflexivity.
  - rewrite feed_app. destruct (feed_chunk hs ln n path mv cs c Hc Hcs) as [ln' ->]. cbn [mbind result_bind].
    destruct (IH ln' (cs ++ [chunk_of c])) as [ln'' ->]; [apply last_chunk_of_nonempty, Hc|].
    eexists. by rewrite <- app_assoc.
Qed.

Lemma feed_added hs ln path contents added :
  feed (at_line ModeAddFile (hs ++ [AddFile path contents]) ln) (map (cons PLUS) added) =
  Ok (at_line ModeAddFile
        (hs ++ [AddFile path (contents ++ concat (map (fun l => l ++ [LF]) added))]) (ln + length added)).
Proof.
  revert ln contents. induction added as [|l added IH]; intros ln contents; cbn [map concat feed].
  - rewrite app_nil_r. simpl. by rewrite Nat.add_0_r.
  - cbn [mode st_hunks line_number at_line]. rewrite add_line. cbn [mbind result_bind]. rewrite IH.
    simpl. by rewrite <- !app_assoc, Nat.add_succ_r.
Qed.

Lemma hunk_of_complete h : hunk_ok h -> hunk_complete (hunk_of h).
Proof.
  destruct h as [| |path mv cs]; simpl; [done..|]. intros (_ & _ & Hne & Hall).
  split; [by destruct cs|]. apply Forall_map. eapply Forall_impl; [exact Hall|]. apply chunk_of_nonempty.
Qed.

Lemma feed_hunk m hs ln h :
  reading m -> Forall hunk_complete hs -> stream_hunk_ok h ->
  exists m' ln', reading m' /\ feed (at_line m hs ln) (print_hunk h) = Ok (at_line m' (hs ++ [hunk_of h]) ln').
Proof.
  intros Hm Hall Hok. destruct h as [p added|p|p mv cs]; unfold print_hunk; cbn [feed];
    cbn [mode st_hunks line_number at_line]; simpl in Hok.
  - destruct Hok as [Hp _].
    rewrite (header_line m hs (S ln) ADD_FILE_MARKER p (AddFile p []) ModeAddFile) by (done || (rewrite !elem_of_cons; auto)).
    cbn [mbind result_bind]. rewrite feed_added. do 2 eexists; split; [|reflexivity]; done.
  - rewrite (header_line m hs (S ln) DELETE_FILE_MARKER p (DeleteFile p) ModeDeleteFile) by (done || (rewrite !elem_of_cons; auto)).
    do 2 eexists; split; [|reflexivity]; done.
  - destruct Hok as ((Hp & _) & Hmv & Hcs).
    rewrite (header_line m hs (S ln) UPDATE_FILE_MARKER p (UpdateFile p None []) (ModeUpdateFile (S ln)))
      by (done || (rewrite !elem_of_cons; auto)).
    cbn [mbind result_bind]. exists (ModeUpdateFile (S ln)). rewrite feed_app.
    destruct mv as [mv|]; cbn [feed]; cbn [mode st_hunks line_number at_line].
    + rewrite move_line by auto. cbn [mbind result_bind].
      destruct (feed_chunks hs (S (S ln)) (S ln) p (Some mv) [] cs) as [ln' ->]; [done..|].
      eexists; split; [|reflexivity]; done.
    + cbn [mbind result_bind].
      destruct (feed_chunks hs (S ln) (S ln) p None [] cs) as [ln' ->]; [done..|].
      eexists; split; [|reflexivity]; done.
Qed.

Lemma feed_hunks m hs ln ps :
  reading m -> Forall hunk_complete hs -> Forall stream_hunk_ok ps ->
  exists m' ln', feed (at_line m hs ln) (concat (map print_hunk ps)) = Ok (at_line m' (hs ++ map hunk_of ps) ln').
Proof.
  intros Hm Hall Hps. revert m hs ln Hm Hall. induction Hps as [|h ps Hh Hps IH]; intros m hs ln Hm Hall;
    cbn [map concat].
  - rewrite app_nil_r. by do 2 eexists.
  - rewrite feed_app. destruct (feed_hunk m hs ln h Hm Hall Hh) as (m' & ln' & Hm' & ->). cbn [mbind result_bind].
    destruct (IH m' (hs ++ [hunk_of h]) ln' Hm') as (m'' & ln'' & ->).
    + apply Forall_app. split; [done|]. constructor; [|done]. by apply hunk_of_complete, stream_hunk_ok_hunk_ok.
    + do 2 eexists. by rewrite <- app_assoc.
Qed.

Lemma feed_patch env ps :
  Forall stream_hunk_ok ps ->
  exists m ln, feed streaming_default (BEGIN_PATCH_MARKER :: print_env env ++ concat (map print_hunk ps)) =
               Ok (at_line m (map hunk_of ps) ln).
Proof.
  intros Hps. cbn [feed]. change (process_line _ BEGIN_PATCH_MARKER) with
    (Ok (at_line StartedPatch [] 1) : result ParseError StreamingPatchParser). cbn [mbind result_bind].
  rewrite feed_app.
  assert (exists ln, feed (at_line StartedPatch [] 1) (print_env env) = Ok (at_line StartedPatch [] ln)) as [ln ->].
  { destruct env as [e|]; [|by eexists]. eexists. unfold print_env. cbn [feed].
    unfold process_line, is_environment_id_preamble_line. cbn [mode at_line].
    rewrite (proj2 (starts_with_true _ _)) by (by eexists). reflexivity. }
  cbn [mbind result_bind]. apply (feed_hunks StartedPatch [] ln ps); done.
Qed.

Lemma print_patch_split env ps :
  print_patch env ps =
  concat (map (fun l => l ++ [LF]) (BEGIN_PATCH_MARKER :: print_env env ++ concat (map print_hunk ps)))
  ++ END_PATCH_MARKER.
Proof.
  unfold print_patch, print_patch_lines. rewrite app_assoc, app_comm_cons, join_snoc by done.
  rewrite app_assoc. f_equal.
  generalize (print_env env ++ concat (map print_hunk ps)) as ls. generalize BEGIN_PATCH_MARKER as b.
  intros b ls. revert b. induction ls as [|l ls IH]; intros b.
  - simpl. by rewrite app_nil_r.
  - change (join [LF] (b :: l :: ls)) with (b ++ [LF] ++ join [LF] (l :: ls)).
    rewrite <- !app_assoc, IH. simpl. by rewrite <- !app_assoc.
Qed.

(** C13. Agreement of the two parsers: take a patch printed in the grammar in
    which every update has chunks and every chunk change lines, and in which file
    names, destinations and contexts end in a visible character; cut into deltas
    in any way, the streaming parser succeeds with the hunks the batch parser
    returns.  (A context or destination that ends in white space is trimmed by
    the streaming parser only.) *)
Theorem streaming_agrees_with_parse_patch (env : option str) (ps : list PrintedHunk) (deltas : list str) :
  env_ok env -> Forall stream_hunk_ok ps -> concat deltas = print_patch env ps ->
  exists p args,
    push_all streaming_default deltas = (p, Ok (hunks args)) /\
    parse_patch (concat deltas) = Some (Ok args).
Proof.
  intros He Hps Hd. rewrite push_all_concat, Hd.
  assert (Forall hunk_ok ps) as Hok by (eapply Forall_impl; [exact Hps|]; apply stream_hunk_ok_hunk_ok).
  rewrite parse_printed by done.
  destruct (feed_patch env ps Hps) as (m & ln & Hf). simpl.
  pose proof (print_lines_ok env ps He (hunks_ok_written _ Hok)) as Hlines.
  unfold print_patch_lines in Hlines. rewrite app_assoc, app_comm_cons, Forall_app in Hlines.
  destruct Hlines as [Hlines _].
  destruct (push_delta_feed streaming_default _ _ (eq_refl : streaming_inv streaming_default) eq_refl Hlines Hf) as [Hp Hb].
  rewrite print_patch_split, push_delta_app, Hp.
  rewrite push_delta_no_newline by (apply (bool_decide_unpack _); exact I).
  unfold finish. cbn [line_buffer mode st_hunks line_number at_line]. cbn [app].
  change (END_PATCH_MARKER =s? []) with false. cbv iota zeta.
  change (trim END_PATCH_MARKER =s? END_PATCH_MARKER) with true. cbv iota.
  rewrite ensure_of_complete.
  - cbn [mbind result_bind]. eexists _, (mkArgs _ (map hunk_of ps) None env). split; [reflexivity|].
    by rewrite <- print_patch_split.
  - cbn [st_hunks]. apply Forall_map. eapply Forall_impl; [exact Hok|]. apply hunk_of_complete.
Qed.

(** ** Witnesses *)

Definition demo_text : str := print_patch (Some (lit "remote-1")) demo_hunks.

Lemma push_all_chunking_witness :
  push_all streaming_default [take 30 demo_text; drop 30 demo_text] =
  push_all streaming_default [demo_text].
Proof.
  apply (push_all_chunking streaming_default [take 30 demo_text; drop 30 demo_text] [demo_text]).
  vm_compute. reflexivity.
Defined.

Lemma streaming_session_complete_witness : Forall hunk_complete (map hunk_of demo_hunks).
Proof.
  apply (streaming_session_complete [demo_text] (fst (push_all streaming_default [demo_text]))).
  vm_compute. reflexivity.
Defined.

Lemma demo_stream_ok : Forall stream_hunk_ok demo_hunks.
Proof.
  repeat first
    [ done | by apply (bool_decide_unpack _)
    | eexists; split; [vm_compute; reflexivity | reflexivity]
    | intros ? [= <-] | apply Forall_nil_2 | apply Forall_cons_2 | split ].
Defined.

Lemma streaming_agrees_with_parse_patch_witness :
  exists p args,
    push_all streaming_default [take 7 demo_text; drop 7 demo_text] = (p, Ok (hunks args)) /\
    parse_patch (concat [take 7 demo_text; drop 7 demo_text]) = Some (Ok args).
Proof.
  apply (streaming_agrees_with_parse_patch (Some (lit "remote-1")) demo_hunks
           [take 7 demo_text; drop 7 demo_text] demo_env_ok demo_stream_ok).
  vm_compute. reflexivity.
Defined.

(** A context that ends in a space: the batch parser keeps the space. *)
Example trailing_space_disagrees :
  let patch := print_patch None [PUpdate (lit "a") None [mkPrinted (Some (lit "f ")) [Add (lit "x")] false]] in
  (push_all streaming_default [patch]).2 = Ok [UpdateFile (lit "a") None [mkChunk (Some (lit "f")) [] [lit "x"] false]]
  /\ (exists args, parse_patch patch = Some (Ok args)
       /\ hunks args = [UpdateFile (lit "a") None [mkChunk (Some (lit "f ")) [] [lit "x"] false]]).
Proof. split; [vm_compute; reflexivity|]. eexists. split; vm_compute; reflexivity. Qed.
