(* ===== verification/StreamParser.v ===== *)
(** * Streamed assistant text: [utils/stream-parser/src]

    Text arrives in chunks cut anywhere.  [InlineHiddenTagParser] removes inline
    tags (citations), [TaggedLineParser] removes tagged blocks of lines (proposed
    plans), and [AssistantTextStreamParser] runs the one on the visible output of
    the other.  The interface is the class [StreamTextParser]; what a client needs
    of a parser is that the result of a stream does not depend on how it was cut
    ([ChunkInsensitive]).  The theorems prove it by relating each parser to a
    reference that sees the whole text.  Offsets count characters: every byte
    offset of the code lies on a character boundary. *)

From S2P Require Import Prelude.

(** ** The interface: [stream_text.rs] *)

Record StreamTextChunk (X : Type) : Type := mkChunk { visible_text : str; extracted : list X }.
Arguments mkChunk {X}.
Arguments visible_text {X}.
Arguments extracted {X}.

Definition chunk_default {X} : StreamTextChunk X := mkChunk [] [].
Definition chunk_is_empty {X} (c : StreamTextChunk X) : bool :=
  match visible_text c, extracted c with [], [] => true | _, _ => false end.
(** What a caller that collects the chunks of a stream has. *)
Definition chunk_app {X} (c d : StreamTextChunk X) : StreamTextChunk X :=
  mkChunk (visible_text c ++ visible_text d) (extracted c ++ extracted d).

Class StreamTextParser (P X : Type) : Type := {
  push_str : P -> str -> StreamTextChunk X * P;
  finish : P -> StreamTextChunk X * P
}.

(** A whole stream: the chunks in turn, then the end. *)
Fixpoint push_all {P X} `{StreamTextParser P X} (p : P) (chunks : list str) : StreamTextChunk X * P :=
  match chunks with
  | [] => (chunk_default, p)
  | chunk :: chunks =>
      let '(out, p) := push_str p chunk in
      let '(rest, p) := push_all p chunks in
      (chunk_app out rest, p)
  end.
Definition run_stream {P X} `{StreamTextParser P X} (p : P) (chunks : list str) : StreamTextChunk X :=
  let '(out, p) := push_all p chunks in
  let '(tail, _) := finish p in
  chunk_app out tail.

(** The promise of a parser started in [init]: seen through [view], the result
    depends on the text alone. *)
Class ChunkInsensitive (P X V : Type) `{StreamTextParser P X} (init : P) (view : StreamTextChunk X -> V)
    (reference : str -> V) : Prop :=
  run_stream_reference : forall chunks, view (run_stream init chunks) = reference (concat chunks).

(** ** Searching *)

(** The lengths [k] from [max] down to [1], the first with a match. *)
Fixpoint suffix_prefix_loop (s needle : str) (k : nat) : nat :=
  match k with
  | O => 0
  | S k' => if ends_with (take k needle) s then k else suffix_prefix_loop s needle k'
  end.
Definition longest_suffix_prefix_len (s needle : str) : nat :=
  suffix_prefix_loop s needle (Nat.min (length s) (length needle - 1)).

(** ** Inline tags: [inline_hidden_tag.rs] *)

Section inline.
Context {T : Type}.

Record ExtractedInlineTag : Type := mkExtracted { ext_tag : T; ext_content : str }.
Record InlineTagSpec : Type := mkSpec { spec_tag : T; spec_open : str; spec_close : str }.
Record ActiveTag : Type := mkActive { act_tag : T; act_close : str; act_content : str }.
Record InlineHiddenTagParser : Type := mkInline {
  specs : list InlineTagSpec;
  pending : str;
  active : option ActiveTag
}.

(** The assertions of [new]; [None] is the panic. *)
Definition inline_new (specs : list InlineTagSpec) : option InlineHiddenTagParser :=
  if bool_decide (length specs = 0%nat) then None
  else if forallb (fun spec => negb (spec_open spec =s? []) && negb (spec_close spec =s? [])) specs
  then Some (mkInline specs [] None) else None.

(** Candidates are [(position, byte length of the tag, index)]. *)
Definition open_before (a b : nat * N * nat) : bool :=
  let '(pos_a, len_a, idx_a) := a in
  let '(pos_b, len_b, idx_b) := b in
  (pos_a <? pos_b)%nat
  || ((pos_a =? pos_b)%nat && ((len_b <? len_a)%N || ((len_b =? len_a)%N && (idx_a <=? idx_b)%nat))).
Definition min_open (cs : list (nat * N * nat)) : option (nat * N * nat) :=
  match cs with
  | [] => None
  | c :: cs => Some (fold_left (fun best c => if open_before best c then best else c) cs c)
  end.
Definition find_next_open (self : InlineHiddenTagParser) : option (nat * nat) :=
  match min_open (omap (fun e : nat * InlineTagSpec =>
          match find_sub (spec_open e.2) (pending self) with
          | Some (before, _) => Some (length before, str_len (spec_open e.2), e.1)
          | None => None
          end) (imap pair (specs self))) with
  | Some (pos, _, idx) => Some (pos, idx)
  | None => None
  end.
Definition max_open_prefix_suffix_len (self : InlineHiddenTagParser) : nat :=
  fold_right Nat.max 0%nat (map (fun spec => longest_suffix_prefix_len (pending self) (spec_open spec)) (specs self)).

Definition set_pending (self : InlineHiddenTagParser) (pending : str) : InlineHiddenTagParser :=
  mkInline (specs self) pending (active self).

(** One turn of the loop of [push_str]: the new output and state, and whether the
    loop continues. *)
Definition inline_step (self : InlineHiddenTagParser) (out : StreamTextChunk ExtractedInlineTag) :
  bool * StreamTextChunk ExtractedInlineTag * InlineHiddenTagParser :=
  match active self with
  | Some a =>
      match find_sub (act_close a) (pending self) with
      | Some (before, after) =>
          (true, mkChunk (visible_text out) (extracted out ++ [mkExtracted (act_tag a) (act_content a ++ before)]),
           mkInline (specs self) after None)
      | None =>
          let keep := longest_suffix_prefix_len (pending self) (act_close a) in
          let take_len := (length (pending self) - keep)%nat in
          (false, out,
           mkInline (specs self) (drop take_len (pending self))
             (Some (mkActive (act_tag a) (act_close a) (act_content a ++ take take_len (pending self)))))
      end
  | None =>
      match find_next_open self with
      | Some (open_idx, spec_idx) =>
          match specs self !! spec_idx with
          | Some spec =>
              (true, mkChunk (visible_text out ++ take open_idx (pending self)) (extracted out),
               mkInline (specs self) (drop (open_idx + length (spec_open spec)) (pending self))
                 (Some (mkActive (spec_tag spec) (spec_close spec) [])))
          | None => (false, out, self)
          end
      | None =>
          let keep := max_open_prefix_suffix_len self in
          let take_len := (length (pending self) - keep)%nat in
          (false, mkChunk (visible_text out ++ take take_len (pending self)) (extracted out),
           set_pending self (drop take_len (pending self)))
      end
  end.

Fixpoint inline_loop (fuel : nat) (self : InlineHiddenTagParser) (out : StreamTextChunk ExtractedInlineTag) :
  StreamTextChunk ExtractedInlineTag * InlineHiddenTagParser :=
  match fuel with
  | O => (out, self)
  | S fuel =>
      match inline_step self out with
      | (true, out, self) => inline_loop fuel self out
      | (false, out, self) => (out, self)
      end
  end.

Definition inline_push_str (self : InlineHiddenTagParser) (chunk : str) :
  StreamTextChunk ExtractedInlineTag * InlineHiddenTagParser :=
  let self := set_pending self (pending self ++ chunk) in
  inline_loop (S (length (pending self))) self chunk_default.

Definition inline_finish (self : InlineHiddenTagParser) : StreamTextChunk ExtractedInlineTag * InlineHiddenTagParser :=
  match active self with
  | Some a => (mkChunk [] [mkExtracted (act_tag a) (act_content a ++ pending self)], mkInline (specs self) [] None)
  | None => (mkChunk (pending self) [], mkInline (specs self) [] None)
  end.
End inline.
Arguments ExtractedInlineTag : clear implicits.
Arguments InlineTagSpec : clear implicits.
Arguments InlineHiddenTagParser : clear implicits.
Arguments ActiveTag : clear implicits.

#[export] Instance inline_parser T : StreamTextParser (InlineHiddenTagParser T) (ExtractedInlineTag T) :=
  {| push_str := inline_push_str; finish := inline_finish |}.

(** ** Citations: [citation.rs] *)

Definition CITATION_OPEN : str := lit "<oai-mem-citation>".
Definition CITATION_CLOSE : str := lit "</oai-mem-citation>".

Record CitationStreamParser : Type := mkCitation { inner : InlineHiddenTagParser unit }.
Definition citation_new : CitationStreamParser :=
  mkCitation (mkInline [mkSpec tt CITATION_OPEN CITATION_CLOSE] [] None).
Definition citation_chunk (c : StreamTextChunk (ExtractedInlineTag unit)) : StreamTextChunk str :=
  mkChunk (visible_text c) (map ext_content (extracted c)).
Definition citation_push_str (self : CitationStreamParser) (chunk : str) : StreamTextChunk str * CitationStreamParser :=
  let '(out, inner) := inline_push_str (inner self) chunk in (citation_chunk out, mkCitation inner).
Definition citation_finish (self : CitationStreamParser) : StreamTextChunk str * CitationStreamParser :=
  let '(out, inner) := inline_finish (inner self) in (citation_chunk out, mkCitation inner).

#[export] Instance citation_parser : StreamTextParser CitationStreamParser str :=
  {| push_str := citation_push_str; finish := citation_finish |}.

Definition strip_citations (text : str) : str * list str :=
  let '(out, parser) := citation_push_str citation_new text in
  let '(tail, _) := citation_finish parser in
  (visible_text out ++ visible_text tail, extracted out ++ extracted tail).

(** ** Tagged lines: [tagged_line_parser.rs] *)

Section tagged.
Context {T : Type} `{EqDecision T}.

Record TagSpec : Type := mkTagSpec { ts_open : str; ts_close : str; ts_tag : T }.
Inductive TaggedLineSegment : Type :=
| SegNormal (text : str)
| SegTagStart (tag : T)
| SegTagDelta (tag : T) (text : str)
| SegTagEnd (tag : T).
Record TaggedLineParser : Type := mkTagged {
  tl_specs : list TagSpec;
  active_tag : option T;
  detect_tag : bool;
  line_buffer : str
}.

Definition tagged_new (specs : list TagSpec) : TaggedLineParser := mkTagged specs None true [].

(** [push_segment]: text is merged with a last segment of its kind. *)
Definition push_segment (segments : list TaggedLineSegment) (segment : TaggedLineSegment) : list TaggedLineSegment :=
  match segment with
  | SegNormal delta =>
      if delta =s? [] then segments
      else match last segments with
           | Some (SegNormal existing) => removelast segments ++ [SegNormal (existing ++ delta)]
           | _ => segments ++ [SegNormal delta]
           end
  | SegTagDelta tag delta =>
      if delta =s? [] then segments
      else match last segments with
           | Some (SegTagDelta existing_tag existing) =>
               if bool_decide (existing_tag = tag)
               then removelast segments ++ [SegTagDelta tag (existing ++ delta)]
               else segments ++ [SegTagDelta tag delta]
           | _ => segments ++ [SegTagDelta tag delta]
           end
  | SegTagStart tag => segments ++ [SegTagStart tag]
  | SegTagEnd tag => segments ++ [SegTagEnd tag]
  end.

Definition text_segment (active : option T) (text : str) : TaggedLineSegment :=
  match active with Some tag => SegTagDelta tag text | None => SegNormal text end.
Definition push_text (self : TaggedLineParser) (text : str) (segments : list TaggedLineSegment) :
  list TaggedLineSegment := push_segment segments (text_segment (active_tag self) text).

Definition is_tag_prefix (self : TaggedLineParser) (slug : str) : bool :=
  let slug := trim_end slug in
  existsb (fun spec => starts_with slug (ts_open spec) || starts_with slug (ts_close spec)) (tl_specs self).
Definition match_open (specs : list TagSpec) (slug : str) : option T :=
  match List.find (fun spec => ts_open spec =s? slug) specs with Some spec => Some (ts_tag spec) | None => None end.
Definition match_close (specs : list TagSpec) (slug : str) : option T :=
  match List.find (fun spec => ts_close spec =s? slug) specs with Some spec => Some (ts_tag spec) | None => None end.

Definition line_slug (line : str) : str :=
  trim_end (trim_start (from_option id line (strip_suffix [LF] line))).

Definition finish_line (self : TaggedLineParser) (segments : list TaggedLineSegment) :
  TaggedLineParser * list TaggedLineSegment :=
  let line := line_buffer self in
  let slug := line_slug line in
  match match_open (tl_specs self) slug, active_tag self with
  | Some tag, None => (mkTagged (tl_specs self) (Some tag) true [], push_segment segments (SegTagStart tag))
  | _, _ =>
      match match_close (tl_specs self) slug with
      | Some tag =>
          if bool_decide (active_tag self = Some tag)
          then (mkTagged (tl_specs self) None true [], push_segment segments (SegTagEnd tag))
          else (mkTagged (tl_specs self) (active_tag self) true [], push_text self line segments)
      | None => (mkTagged (tl_specs self) (active_tag self) true [], push_text self line segments)
      end
  end.

(** The loop over the characters of a chunk; [run] is text of a line that is known
    not to be a tag. *)
Fixpoint tagged_loop (self : TaggedLineParser) (run : str) (segments : list TaggedLineSegment) (delta : str) :
  TaggedLineParser * list TaggedLineSegment :=
  match delta with
  | [] => (self, if run =s? [] then segments else push_text self run segments)
  | ch :: delta =>
      if detect_tag self then
        let segments := if run =s? [] then segments else push_text self run segments in
        let self := mkTagged (tl_specs self) (active_tag self) true (line_buffer self ++ [ch]) in
        if (ch =? LF)%N then
          let '(self, segments) := finish_line self segments in tagged_loop self [] segments delta
        else
          let slug := trim_start (line_buffer self) in
          if (slug =s? []) || is_tag_prefix self slug then tagged_loop self [] segments delta
          else
            tagged_loop (mkTagged (tl_specs self) (active_tag self) false []) []
              (push_text self (line_buffer self) segments) delta
      else
        let run := run ++ [ch] in
        if (ch =? LF)%N
        then tagged_loop (mkTagged (tl_specs self) (active_tag self) true (line_buffer self)) []
               (push_text self run segments) delta
        else tagged_loop self run segments delta
  end.

Definition tagged_parse (self : TaggedLineParser) (delta : str) : TaggedLineParser * list TaggedLineSegment :=
  tagged_loop self [] [] delta.

Definition tagged_finish (self : TaggedLineParser) : TaggedLineParser * list TaggedLineSegment :=
  let '(self, segments) :=
    if line_buffer self =s? [] then (self, [])
    else
      let buffered := line_buffer self in
      let slug := line_slug buffered in
      match match_open (tl_specs self) slug, active_tag self with
      | Some tag, None => (mkTagged (tl_specs self) (Some tag) (detect_tag self) [], [SegTagStart tag])
      | _, _ =>
          match match_close (tl_specs self) slug with
          | Some tag =>
              if bool_decide (active_tag self = Some tag)
              then (mkTagged (tl_specs self) None (detect_tag self) [], [SegTagEnd tag])
              else (mkTagged (tl_specs self) (active_tag self) (detect_tag self) [], push_text self buffered [])
          | None => (mkTagged (tl_specs self) (active_tag self) (detect_tag self) [], push_text self buffered [])
          end
      end in
  match active_tag self with
  | Some tag => (mkTagged (tl_specs self) None true (line_buffer self), push_segment segments (SegTagEnd tag))
  | None => (mkTagged (tl_specs self) None true (line_buffer self), segments)
  end.
End tagged.
Arguments TagSpec : clear implicits.
Arguments TaggedLineSegment : clear implicits.
Arguments TaggedLineParser : clear implicits.

(** ** Proposed plans: [proposed_plan.rs] *)

Definition OPEN_TAG : str := lit "<proposed_plan>".
Definition CLOSE_TAG : str := lit "</proposed_plan>".

Inductive ProposedPlanSegment : Type :=
| PlanNormal (text : str)
| ProposedPlanStart
| ProposedPlanDelta (text : str)
| ProposedPlanEnd.

Record ProposedPlanParser : Type := mkPlan { plan_parser : TaggedLineParser unit }.
Definition plan_new : ProposedPlanParser := mkPlan (tagged_new [mkTagSpec OPEN_TAG CLOSE_TAG tt]).

Definition map_segment (s : TaggedLineSegment unit) : ProposedPlanSegment :=
  match s with
  | SegNormal text => PlanNormal text
  | SegTagStart _ => ProposedPlanStart
  | SegTagDelta _ text => ProposedPlanDelta text
  | SegTagEnd _ => ProposedPlanEnd
  end.
Definition normal_text (s : ProposedPlanSegment) : str := match s with PlanNormal text => text | _ => [] end.
Definition map_segments (segments : list (TaggedLineSegment unit)) : StreamTextChunk ProposedPlanSegment :=
  let mapped := map map_segment segments in
  mkChunk (concat (map normal_text mapped)) mapped.

Definition plan_push_str (self : ProposedPlanParser) (chunk : str) :
  StreamTextChunk ProposedPlanSegment * ProposedPlanParser :=
  let '(p, segments) := tagged_parse (plan_parser self) chunk in (map_segments segments, mkPlan p).
Definition plan_finish (self : ProposedPlanParser) : StreamTextChunk ProposedPlanSegment * ProposedPlanParser :=
  let '(p, segments) := tagged_finish (plan_parser self) in (map_segments segments, mkPlan p).

#[export] Instance plan_stream_parser : StreamTextParser ProposedPlanParser ProposedPlanSegment :=
  {| push_str := plan_push_str; finish := plan_finish |}.

Definition strip_proposed_plan_blocks (text : str) : str :=
  let '(out, parser) := plan_push_str plan_new text in
  let '(tail, _) := plan_finish parser in
  visible_text out ++ visible_text tail.

Fixpoint plan_text_loop (saw_plan_block : bool) (plan_text : str) (segments : list ProposedPlanSegment) : option str :=
  match segments with
  | [] => if saw_plan_block then Some plan_text else None
  | ProposedPlanStart :: segments => plan_text_loop true [] segments
  | ProposedPlanDelta delta :: segments => plan_text_loop saw_plan_block (plan_text ++ delta) segments
  | (ProposedPlanEnd | PlanNormal _) :: segments => plan_text_loop saw_plan_block plan_text segments
  end.
Definition extract_proposed_plan_text (text : str) : option str :=
  let '(out, parser) := plan_push_str plan_new text in
  let '(tail, _) := plan_finish parser in
  plan_text_loop false [] (extracted out ++ extracted tail).

(** ** Assistant text: [assistant_text.rs] *)

Record AssistantTextChunk : Type := mkAssistantChunk {
  at_visible_text : str;
  citations : list str;
  plan_segments : list ProposedPlanSegment
}.
Record AssistantTextStreamParser : Type := mkAssistant {
  plan_mode : bool;
  at_citations : CitationStreamParser;
  at_plan : ProposedPlanParser
}.
Definition assistant_new (plan_mode : bool) : AssistantTextStreamParser := mkAssistant plan_mode citation_new plan_new.

Definition parse_visible_text (self : AssistantTextStreamParser) (visible : str) :
  AssistantTextChunk * AssistantTextStreamParser :=
  if negb (plan_mode self) then (mkAssistantChunk visible [] [], self)
  else
    let '(plan_chunk, plan) := plan_push_str (at_plan self) visible in
    (mkAssistantChunk (visible_text plan_chunk) [] (extracted plan_chunk),
     mkAssistant (plan_mode self) (at_citations self) plan).

Definition assistant_push_str (self : AssistantTextStreamParser) (chunk : str) :
  AssistantTextChunk * AssistantTextStreamParser :=
  let '(citation_chunk, cs) := citation_push_str (at_citations self) chunk in
  let '(out, self) := parse_visible_text (mkAssistant (plan_mode self) cs (at_plan self)) (visible_text citation_chunk) in
  (mkAssistantChunk (at_visible_text out) (extracted citation_chunk) (plan_segments out), self).

Definition assistant_finish (self : AssistantTextStreamParser) : AssistantTextChunk * AssistantTextStreamParser :=
  let '(citation_chunk, cs) := citation_finish (at_citations self) in
  let '(out, self) := parse_visible_text (mkAssistant (plan_mode self) cs (at_plan self)) (visible_text citation_chunk) in
  let '(out, self) :=
    if plan_mode self then
      let '(tail, plan) := plan_finish (at_plan self) in
      (if negb (chunk_is_empty tail)
       then mkAssistantChunk (at_visible_text out ++ visible_text tail) (citations out)
              (plan_segments out ++ extracted tail)
       else out, mkAssistant (plan_mode self) (at_citations self) plan)
    else (out, self) in
  (mkAssistantChunk (at_visible_text out) (extracted citation_chunk) (plan_segments out), self).

(** ** Searching in a text that is still growing *)

Lemma strip_prefix_None_app (n s t : str) :
  strip_prefix n s = None -> (length n <= length s)%nat -> strip_prefix n (s ++ t) = None.
Proof.
  intros Hn Hl. destruct (strip_prefix n (s ++ t)) as [r|] eqn:Hr; [|done]. exfalso.
  apply strip_prefix_Some in Hr.
  assert (s = n ++ drop (length n) s) as Hs.
  { apply (f_equal (take (length n))) in Hr as Ht. rewrite take_app_le, take_app_length in Ht by done.
    rewrite <- Ht at 1. by rewrite take_drop. }
  apply (proj2 (strip_prefix_Some n s (drop (length n) s))) in Hs. congruence.
Qed.

(** The first occurrence stays the first when text is added. *)
Lemma find_sub_app (n s t b r : str) : find_sub n s = Some (b, r) -> find_sub n (s ++ t) = Some (b, r ++ t).
Proof.
  revert b r. induction s as [|c s IH]; intros b r Hf.
  - cbn [find_sub] in Hf. destruct (strip_prefix n []) as [r'|] eqn:Hs; [|done]. injection Hf as <- <-.
    apply strip_prefix_Some in Hs. symmetry in Hs. apply app_nil in Hs as [-> ->]. cbn. by destruct t.
  - assert (length n <= length (c :: s))%nat as Hl.
    { apply find_sub_Some in Hf. rewrite Hf, !length_app. lia. }
    cbn [find_sub] in Hf. cbn [app find_sub]. destruct (strip_prefix n (c :: s)) as [r'|] eqn:Hs.
    + injection Hf as <- <-. apply strip_prefix_Some in Hs. rewrite app_comm_cons, Hs, <- app_assoc.
      by rewrite strip_prefix_app.
    + rewrite app_comm_cons, (strip_prefix_None_app n (c :: s) t Hs Hl).
      destruct (find_sub n s) as [[b' r']|] eqn:Hf'; [|done]. injection Hf as <- <-. by rewrite (IH b' r').
Qed.

(** No occurrence starts in [a]: the search goes on behind it. *)
Lemma find_sub_skip (n a t : str) :
  (forall a1 a2, a = a1 ++ a2 -> a2 <> [] -> strip_prefix n (a2 ++ t) = None) ->
  find_sub n (a ++ t) = match find_sub n t with Some (b, r) => Some (a ++ b, r) | None => None end.
Proof.
  induction a as [|c a IH]; intros Ha; [by cbn; destruct (find_sub n t) as [[]|]|].
  cbn [app find_sub]. rewrite app_comm_cons, (Ha [] (c :: a)) by done. rewrite IH.
  - by destruct (find_sub n t) as [[]|].
  - intros a1 a2 -> Hne. by apply (Ha (c :: a1)).
Qed.

Lemma find_sub_None_strip (n s a b : str) : find_sub n s = None -> s = a ++ b -> strip_prefix n b = None.
Proof.
  revert a. induction s as [|c s IH]; intros a Hf Hs.
  - symmetry in Hs. apply app_nil in Hs as [-> ->]. cbn [find_sub] in Hf. by destruct (strip_prefix n []).
  - cbn [find_sub] in Hf. destruct (strip_prefix n (c :: s)) eqn:Hn; [done|].
    destruct (find_sub n s) as [[]|] eqn:Hf'; [done|]. destruct a as [|x a]; cbn in Hs; [by subst|].
    injection Hs as -> ->. by eapply IH.
Qed.

(** ** The kept suffix *)

Lemma suffix_prefix_loop_spec s n k :
  (suffix_prefix_loop s n k <= k)%nat
  /\ (forall j, (suffix_prefix_loop s n k < j <= k)%nat -> ends_with (take j n) s = false)
  /\ ends_with (take (suffix_prefix_loop s n k) n) s = true.
Proof.
  induction k as [|k (H1 & H2 & H3)]; cbn [suffix_prefix_loop].
  - split_and!; [done|lia|]. apply ends_with_true. exists s. by rewrite take_0, app_nil_r.
  - destruct (ends_with (take (S k) n) s) eqn:He; [split_and!; [done|lia|done]|].
    split_and!; [lia| |done]. intros j Hj. destruct (decide (j = S k)) as [->|]; [done|]. apply H2. lia.
Qed.

Definition kept (s n : str) : str := drop (length s - longest_suffix_prefix_len s n) s.
Definition released (s n : str) : str := take (length s - longest_suffix_prefix_len s n) s.

Lemma released_kept s n : s = released s n ++ kept s n.
Proof. unfold released, kept. by rewrite take_drop. Qed.

Lemma longest_le s n : (longest_suffix_prefix_len s n <= length s)%nat.
Proof.
  unfold longest_suffix_prefix_len.
  pose proof (suffix_prefix_loop_spec s n (Nat.min (length s) (length n - 1))) as (H1 & _). lia.
Qed.

Lemma length_kept s n : length (kept s n) = longest_suffix_prefix_len s n.
Proof. unfold kept. rewrite length_drop. pose proof (longest_le s n). lia. Qed.

(** Whatever text follows, no occurrence starts before the kept suffix. *)
Lemma released_no_match (n s t a1 a2 : str) :
  find_sub n s = None -> released s n = a1 ++ a2 -> a2 <> [] -> strip_prefix n (a2 ++ kept s n ++ t) = None.
Proof.
  intros Hf Ha Hne. destruct (strip_prefix n (a2 ++ kept s n ++ t)) as [r|] eqn:Hr; [|done]. exfalso.
  set (u := a2 ++ kept s n). assert (s = a1 ++ u) as Hs.
  { unfold u. rewrite app_assoc, <- Ha. apply released_kept. }
  rewrite app_assoc in Hr. fold u in Hr.
  destruct (decide (length n <= length u)%nat) as [Hl|Hl].
  { rewrite (strip_prefix_None_app n u t) in Hr; [done| |done]. by eapply find_sub_None_strip. }
  apply strip_prefix_Some in Hr. assert (u = take (length u) n) as Hu.
  { apply (f_equal (take (length u))) in Hr. rewrite take_app_length, take_app_le in Hr by lia. done. }
  assert (longest_suffix_prefix_len s n < length u)%nat as Hlt.
  { unfold u. rewrite length_app, length_kept. destruct a2; [done|]. cbn. lia. }
  unfold longest_suffix_prefix_len in Hlt.
  destruct (suffix_prefix_loop_spec s n (Nat.min (length s) (length n - 1))) as (_ & Hmax & _).
  assert (ends_with (take (length u) n) s = false) as Hend.
  { apply Hmax. split; [done|]. rewrite Hs, length_app. lia. }
  rewrite <- Hu in Hend. rewrite (proj2 (ends_with_true u s)) in Hend; [done|]. by exists a1.
Qed.

Lemma find_sub_released (n s t : str) :
  find_sub n s = None ->
  find_sub n (s ++ t) = match find_sub n (kept s n ++ t) with
                        | Some (b, r) => Some (released s n ++ b, r)
                        | None => None
                        end.
Proof.
  intros Hf. rewrite (released_kept s n) at 1. rewrite <- app_assoc. apply find_sub_skip.
  intros a1 a2 Ha Hne. by eapply released_no_match.
Qed.

(** ** One inline tag against the whole text *)

(** The reference: cut the first tag out of the text, then go on behind it; a tag
    that is not closed takes the rest. *)
Fixpoint cut_fuel (fuel : nat) (open close text : str) : str * list str :=
  match fuel with
  | O => (text, [])
  | S fuel =>
      match find_sub open text with
      | None => (text, [])
      | Some (before, rest) =>
          match find_sub close rest with
          | None => (before, [rest])
          | Some (content, rest) =>
              let '(v, es) := cut_fuel fuel open close rest in (before ++ v, content :: es)
          end
      end
  end.
Definition cut_tags (open close text : str) : str * list str := cut_fuel (S (length text)) open close text.

Definition pair_app (p q : str * list str) : str * list str := (p.1 ++ q.1, p.2 ++ q.2).
Lemma pair_app_assoc p q r : pair_app p (pair_app q r) = pair_app (pair_app p q) r.
Proof. unfold pair_app. cbn. by rewrite !app_assoc. Qed.
Lemma pair_app_nil_l p : pair_app ([], []) p = p.
Proof. by destruct p. Qed.

Section one_tag.
Context {T : Type} (spec : InlineTagSpec T).
Context (Hopen : spec_open spec <> []) (Hclose : spec_close spec <> []).
Abbreviation open := (spec_open spec).
Abbreviation close := (spec_close spec).

Lemma find_sub_shorter (n s b r : str) : n <> [] -> find_sub n s = Some (b, r) -> (length r < length s)%nat.
Proof. intros Hn ->%find_sub_Some. rewrite !length_app. destruct n; [done|]. cbn. lia. Qed.

Lemma find_sub_short (n s : str) : (length s < length n)%nat -> find_sub n s = None.
Proof.
  intros Hl. destruct (find_sub n s) as [[b r]|] eqn:Hf; [|done].
  apply find_sub_Some in Hf. rewrite Hf, !length_app in Hl. lia.
Qed.

Lemma cut_fuel_enough f g text :
  (length text < f)%nat -> (length text < g)%nat -> cut_fuel f open close text = cut_fuel g open close text.
Proof.
  revert g text. induction f as [|f IH]; intros [|g] text Hf Hg; try lia. cbn [cut_fuel].
  destruct (find_sub open text) as [[b r]|] eqn:Ho; [|done].
  destruct (find_sub close r) as [[c r']|] eqn:Hc; [|done].
  apply find_sub_shorter in Ho; [|done]. apply find_sub_shorter in Hc; [|done]. by rewrite (IH g) by lia.
Qed.

(** The reference of a text whose tag is already open, with [content] so far. *)
Definition cut_open (content text : str) : str * list str :=
  match find_sub close text with
  | None => ([], [content ++ text])
  | Some (c, r) => pair_app ([], [content ++ c]) (cut_tags open close r)
  end.

Lemma cut_tags_unfold text :
  cut_tags open close text =
  match find_sub open text with
  | None => (text, [])
  | Some (b, r) => pair_app (b, []) (cut_open [] r)
  end.
Proof.
  unfold cut_tags at 1. cbn [cut_fuel]. destruct (find_sub open text) as [[b r]|] eqn:Ho; [|done].
  unfold cut_open, pair_app. destruct (find_sub close r) as [[c r']|] eqn:Hc; cbn [fst snd app]; [|by rewrite app_nil_r].
  unfold cut_tags. rewrite (cut_fuel_enough (length text) (S (length r'))).
  - by destruct (cut_fuel _ _ _ r').
  - apply find_sub_shorter in Ho; [|done]. apply find_sub_shorter in Hc; [|done]. lia.
  - lia.
Qed.

(** What the parser in a state will still produce, given the text to come. *)
Definition to_come (self : InlineHiddenTagParser T) (rest : str) : str * list str :=
  match active self with
  | None => cut_tags open close (pending self ++ rest)
  | Some a => cut_open (act_content a) (pending self ++ rest)
  end.
Definition seen (out : StreamTextChunk (ExtractedInlineTag T)) : str * list str :=
  (visible_text out, map ext_content (extracted out)).

(** The states of the parser of one tag; [settled] once a push has ended. *)
Definition one_ok (self : InlineHiddenTagParser T) : Prop :=
  specs self = [spec] /\ match active self with Some a => act_close a = close | None => True end.
Definition settled (self : InlineHiddenTagParser T) : Prop :=
  find_sub (match active self with Some _ => close | None => open end) (pending self) = None.

Lemma find_next_open_one self :
  specs self = [spec] ->
  find_next_open self = match find_sub open (pending self) with Some (b, _) => Some (length b, 0%nat) | None => None end.
Proof. intros Hs. unfold find_next_open. rewrite Hs. cbn. by destruct (find_sub open (pending self)) as [[]|]. Qed.

Lemma kept_short s n : n <> [] -> find_sub n (kept s n) = None.
Proof.
  intros Hn. apply find_sub_short. rewrite length_kept. unfold longest_suffix_prefix_len.
  pose proof (suffix_prefix_loop_spec s n (Nat.min (length s) (length n - 1))) as (Hk & _).
  destruct n; [done|]. cbn in *. lia.
Qed.

Lemma max_open_one self :
  specs self = [spec] -> max_open_prefix_suffix_len self = longest_suffix_prefix_len (pending self) open.
Proof. intros Hs. unfold max_open_prefix_suffix_len. rewrite Hs. cbn. lia. Qed.

(** One turn of the loop neither loses nor invents anything. *)
Lemma inline_step_sound self out go out' self' :
  one_ok self -> inline_step self out = (go, out', self') ->
  one_ok self' /\ (go = false -> settled self') /\ (go = true -> (length (pending self') < length (pending self))%nat)
  /\ forall rest, pair_app (seen out) (to_come self rest) = pair_app (seen out') (to_come self' rest).
Proof.
  intros [Hs Ha]. unfold inline_step, to_come, settled. destruct (active self) as [a|] eqn:Hact.
  - rewrite Ha. destruct (find_sub close (pending self)) as [[b r]|] eqn:Hf; intros [= <- <- <-];
      cbn [active pending specs].
    + split_and!; [done|done|intros _; exact (find_sub_shorter _ _ _ _ Hclose Hf)|]. intros rest. unfold cut_open.
      rewrite (find_sub_app _ _ rest _ _ Hf), pair_app_assoc. f_equal. unfold pair_app, seen. cbn.
      by rewrite app_nil_r, map_app.
    + fold (kept (pending self) close). fold (released (pending self) close).
      split_and!; [done|intros _; by apply kept_short|done|]. intros rest. f_equal. unfold cut_open. cbn [act_content].
      rewrite (find_sub_released _ _ rest Hf). destruct (find_sub close (kept _ _ ++ rest)) as [[b r]|].
      * by rewrite app_assoc.
      * do 2 f_equal. rewrite (released_kept (pending self) close) at 1. by rewrite <- !app_assoc.
  - rewrite (find_next_open_one self Hs). destruct (find_sub open (pending self)) as [[b r]|] eqn:Hf.
    + rewrite Hs. cbn [list_lookup lookup]. intros [= <- <- <-]. cbn [active pending specs act_close].
      pose proof (find_sub_Some _ _ _ _ Hf) as Hp.
      assert (take (length b) (pending self) = b) as Htake by (rewrite Hp; apply take_app_length).
      assert (drop (length b + length open) (pending self) = r) as Hdrop.
      { rewrite Hp, app_assoc, <- length_app. apply drop_app_length. }
      rewrite Htake, Hdrop. split_and!; [done|done|intros _; exact (find_sub_shorter _ _ _ _ Hopen Hf)|].
      intros rest. rewrite cut_tags_unfold, (find_sub_app _ _ rest _ _ Hf), pair_app_assoc. f_equal.
      unfold pair_app, seen. cbn. by rewrite app_nil_r.
    + rewrite (max_open_one self Hs). intros [= <- <- <-]. cbn [active pending specs set_pending]. rewrite Hact.
      fold (kept (pending self) open). fold (released (pending self) open).
      split_and!; [split; [done|cbn; by rewrite Hact]|intros _; by apply kept_short|done|].
      intros rest. rewrite !cut_tags_unfold, (find_sub_released _ _ rest Hf).
      destruct (find_sub open (kept _ _ ++ rest)) as [[b r]|]; unfold pair_app, seen; cbn.
      * by rewrite !app_assoc.
      * rewrite app_nil_r. f_equal. rewrite (released_kept (pending self) open) at 1. by rewrite !app_assoc.
Qed.

Lemma inline_loop_sound fuel self out out' self' :
  one_ok self -> (length (pending self) < fuel)%nat -> inline_loop fuel self out = (out', self') ->
  one_ok self' /\ settled self'
  /\ forall rest, pair_app (seen out) (to_come self rest) = pair_app (seen out') (to_come self' rest).
Proof.
  revert self out. induction fuel as [|fuel IH]; intros self out Hok Hl; [lia|]. cbn [inline_loop].
  destruct (inline_step self out) as [[go o] s] eqn:Hst.
  destruct (inline_step_sound _ _ _ _ _ Hok Hst) as (Hok' & Hset & Hlen & Heq). destruct go.
  - intros Hl'. destruct (IH s o Hok') as (H1 & H2 & H3); [specialize (Hlen eq_refl); lia|done|].
    split_and!; [done..|]. intros rest. by rewrite Heq, H3.
  - intros [= <- <-]. split_and!; [done|by apply Hset|done].
Qed.

Lemma inline_push_sound self chunk out self' :
  one_ok self -> inline_push_str self chunk = (out, self') ->
  one_ok self' /\ settled self'
  /\ forall rest, to_come self (chunk ++ rest) = pair_app (seen out) (to_come self' rest).
Proof.
  intros [Hs Ha] Hp. unfold inline_push_str in Hp. apply inline_loop_sound in Hp as (H1 & H2 & H3); [|done|lia].
  split_and!; [done..|]. intros rest. specialize (H3 rest). rewrite pair_app_nil_l in H3. rewrite <- H3.
  unfold to_come. cbn. by rewrite app_assoc.
Qed.

Lemma inline_finish_sound self : settled self -> seen (inline_finish self).1 = to_come self [].
Proof.
  unfold settled, to_come, inline_finish. destruct (active self) as [a|]; intros Hf; unfold seen;
    cbn [fst visible_text extracted map ext_content].
  - unfold cut_open. rewrite app_nil_r, Hf. done.
  - by rewrite cut_tags_unfold, app_nil_r, Hf.
Qed.
End one_tag.

(** ** From one push to the whole stream *)

Section simulation.
Context {P X V : Type} `{StreamTextParser P X}.
Context (view : StreamTextChunk X -> V) (op : V -> V -> V) (unit : V).
Context (view_app : forall c d, view (chunk_app c d) = op (view c) (view d)).
Context (view_default : view chunk_default = unit).
Context (op_assoc : forall x y z, op x (op y z) = op (op x y) z) (op_unit : forall x, op unit x = x).
Context (inv : P -> Prop) (to_come : P -> str -> V).
Context (push_sound : forall p chunk out p', inv p -> push_str p chunk = (out, p') ->
  inv p' /\ forall rest, to_come p (chunk ++ rest) = op (view out) (to_come p' rest)).
Context (finish_sound : forall p, inv p -> view (finish p).1 = to_come p []).

Lemma push_all_sound p chunks out p' :
  inv p -> push_all p chunks = (out, p') ->
  inv p' /\ forall rest, to_come p (concat chunks ++ rest) = op (view out) (to_come p' rest).
Proof.
  revert p out. induction chunks as [|chunk chunks IH]; intros p out Hp; cbn [push_all concat].
  - intros [= <- <-]. split; [done|]. intros rest. by rewrite view_default, op_unit.
  - destruct (push_str p chunk) as [o q] eqn:Hq. destruct (push_sound _ _ _ _ Hp Hq) as [Hq' Hs].
    destruct (push_all q chunks) as [o' q'] eqn:Hall. intros [= <- <-].
    destruct (IH _ _ Hq' Hall) as [Hi Hc]. split; [done|]. intros rest.
    by rewrite <- app_assoc, Hs, Hc, view_app, op_assoc.
Qed.

(** A parser that keeps [to_come] is insensitive to the cuts. *)
Lemma simulation_run p chunks : inv p -> view (run_stream p chunks) = to_come p (concat chunks).
Proof.
  intros Hp. unfold run_stream. destruct (push_all p chunks) as [out q] eqn:Hall.
  destruct (push_all_sound _ _ _ _ Hp Hall) as [Hq Hc]. specialize (Hc []). rewrite app_nil_r in Hc.
  pose proof (finish_sound q Hq) as Hf. destruct (finish q) as [tail q']. cbn in Hf. by rewrite view_app, Hf, Hc.
Qed.
End simulation.

(** ** Citations do not depend on the chunks *)

Definition citation_view (c : StreamTextChunk str) : str * list str := (visible_text c, extracted c).
Definition citation_spec : InlineTagSpec unit := mkSpec tt CITATION_OPEN CITATION_CLOSE.
Definition citation_inv (self : CitationStreamParser) : Prop :=
  one_ok citation_spec (inner self) /\ settled citation_spec (inner self).

Lemma citation_push_sound p chunk out p' :
  citation_inv p -> citation_push_str p chunk = (out, p') ->
  citation_inv p' /\ forall rest,
    to_come citation_spec (inner p) (chunk ++ rest)
    = pair_app (citation_view out) (to_come citation_spec (inner p') rest).
Proof.
  intros [Hok _]. unfold citation_push_str. destruct (inline_push_str (inner p) chunk) as [o q] eqn:Hq.
  intros [= <- <-]. apply (inline_push_sound citation_spec) in Hq as (H1 & H2 & H3); [|done..]. done.
Qed.

Lemma citation_finish_sound p :
  citation_inv p -> citation_view (citation_finish p).1 = to_come citation_spec (inner p) [].
Proof.
  intros [Hok Hs]. rewrite <- (inline_finish_sound citation_spec) by done.
  unfold citation_finish. by destruct (inline_finish (inner p)).
Qed.

Lemma citation_run chunks :
  citation_view (run_stream citation_new chunks) = cut_tags CITATION_OPEN CITATION_CLOSE (concat chunks).
Proof.
  apply (simulation_run citation_view pair_app ([], []) ltac:(done) ltac:(done) pair_app_assoc pair_app_nil_l
           citation_inv (fun p => to_come citation_spec (inner p)) citation_push_sound citation_finish_sound citation_new).
  by split.
Qed.

#[export] Instance citation_insensitive :
  ChunkInsensitive CitationStreamParser str (str * list str) citation_new citation_view
    (cut_tags CITATION_OPEN CITATION_CLOSE) := citation_run.

(** ** Tagged lines against the lines of the whole text *)

(** Segments seen as events, one per character: how text was merged or cut into
    segments does not show. *)
Inductive Event (T : Type) : Type :=
| EvChar (active : option T) (c : char)
| EvStart (tag : T)
| EvEnd (tag : T).
Arguments EvChar {T}.
Arguments EvStart {T}.
Arguments EvEnd {T}.

Definition text_events {T} (active : option T) (text : str) : list (Event T) := map (EvChar active) text.
Definition segment_events {T} (s : TaggedLineSegment T) : list (Event T) :=
  match s with
  | SegNormal text => text_events None text
  | SegTagStart tag => [EvStart tag]
  | SegTagDelta tag text => text_events (Some tag) text
  | SegTagEnd tag => [EvEnd tag]
  end.
Definition events {T} (segments : list (TaggedLineSegment T)) : list (Event T) := concat (map segment_events segments).

(** The first line with its line feed, and what follows it. *)
Fixpoint first_line (s : str) : str * str :=
  match s with
  | [] => ([], [])
  | c :: s => if (c =? LF)%N then ([c], s) else let '(l, r) := first_line s in (c :: l, r)
  end.
(** [str::split_inclusive('\n')]. *)
Fixpoint split_inclusive (s : str) : list str :=
  match s with
  | [] => []
  | c :: s =>
      if (c =? LF)%N then [c] :: split_inclusive s
      else match split_inclusive s with [] => [[c]] | l :: ls => (c :: l) :: ls end
  end.

Section tagged_reference.
Context {T : Type} `{EqDecision T} (specs : list (TagSpec T)).

(** What a whole line means. *)
Definition line_reference (active : option T) (line : str) : list (Event T) * option T :=
  let slug := line_slug line in
  match match_open specs slug, active with
  | Some tag, None => ([EvStart tag], Some tag)
  | _, _ =>
      match match_close specs slug with
      | Some tag => if bool_decide (active = Some tag) then ([EvEnd tag], None) else (text_events active line, active)
      | None => (text_events active line, active)
      end
  end.
Fixpoint lines_reference (active : option T) (lines : list str) : list (Event T) :=
  match lines with
  | [] => match active with Some tag => [EvEnd tag] | None => [] end
  | line :: lines => let '(evs, active) := line_reference active line in evs ++ lines_reference active lines
  end.
Definition tagged_reference (active : option T) (text : str) : list (Event T) :=
  lines_reference active (split_inclusive text).

Lemma events_app (a b : list (TaggedLineSegment T)) : events (a ++ b) = events a ++ events b.
Proof. unfold events. by rewrite map_app, concat_app. Qed.

Lemma events_last (s : TaggedLineSegment T) segs t :
  last segs = Some s -> events (removelast segs ++ [t]) = events (removelast segs) ++ segment_events t
  /\ events segs = events (removelast segs) ++ segment_events s.
Proof.
  intros [l ->]%last_Some. rewrite removelast_last, !events_app. split; by unfold events; cbn; rewrite app_nil_r.
Qed.

Lemma events_push (segs : list (TaggedLineSegment T)) s :
  events (push_segment segs s) = events segs ++ segment_events s.
Proof.
  assert (forall t, events (segs ++ [t]) = events segs ++ segment_events t) as Hsnoc.
  { intros t. rewrite events_app. unfold events. cbn. by rewrite app_nil_r. }
  destruct s as [text|tag|tag text|tag]; cbn [push_segment]; try apply Hsnoc.
  - destruct (text =s? []) eqn:He; [apply bool_decide_eq_true in He as ->; cbn; by rewrite app_nil_r|].
    destruct (last segs) as [[]|] eqn:Hl; try apply Hsnoc.
    destruct (events_last _ _ (SegNormal (text0 ++ text)) Hl) as [-> ->].
    cbn. unfold text_events. by rewrite map_app, app_assoc.
  - destruct (text =s? []) eqn:He; [apply bool_decide_eq_true in He as ->; cbn; by rewrite app_nil_r|].
    destruct (last segs) as [[]|] eqn:Hl; try apply Hsnoc.
    destruct (bool_decide_reflect (tag0 = tag)) as [Ht|]; [subst|apply Hsnoc].
    destruct (events_last _ _ (SegTagDelta tag (text0 ++ text)) Hl) as [-> ->].
    cbn. unfold text_events. by rewrite map_app, app_assoc.
Qed.

#[local] Arguments push_segment : simpl never.

Lemma events_push_text (self : TaggedLineParser T) text segs :
  events (push_text self text segs) = events segs ++ text_events (active_tag self) text.
Proof. unfold push_text. rewrite events_push. by destruct (active_tag self). Qed.

Lemma text_events_app (a : option T) s t : text_events a (s ++ t) = text_events a s ++ text_events a t.
Proof. apply map_app. Qed.

(** *** Lines *)

Lemma split_inclusive_first s : s <> [] -> split_inclusive s = (first_line s).1 :: split_inclusive (first_line s).2.
Proof.
  induction s as [|c s IH]; [done|]. intros _. cbn [split_inclusive first_line].
  destruct (c =? LF)%N; [done|]. destruct s as [|d s]; [done|].
  rewrite IH by done. by destruct (first_line (d :: s)).
Qed.

Lemma first_line_app b s : LF ∉ b -> first_line (b ++ s) = (b ++ (first_line s).1, (first_line s).2).
Proof.
  induction b as [|c b IH]; intros Hb; cbn [app first_line]; [by destruct (first_line s)|].
  apply not_elem_of_cons in Hb as [Hc Hb]. rewrite IH by done.
  by destruct (N.eqb_spec c LF) as [->|].
Qed.

Lemma tagged_reference_line active b s :
  LF ∉ b -> b <> [] ->
  tagged_reference active (b ++ s) =
  let '(evs, active') := line_reference active (b ++ (first_line s).1) in
  evs ++ tagged_reference active' (first_line s).2.
Proof.
  intros Hb Hne. unfold tagged_reference. rewrite split_inclusive_first by (by destruct b).
  rewrite first_line_app by done. done.
Qed.

(** *** A line whose start rules the tags out *)

Lemma trim_end_app_prefix (s r : str) : exists q, trim_end (s ++ r) = trim_end s ++ q.
Proof.
  induction r as [|c r [q Hq]] using rev_ind; [exists []; by rewrite !app_nil_r|].
  rewrite app_assoc. unfold trim_end in *. rewrite drop_end_while_snoc. destruct (is_whitespace c); [by exists q|].
  assert (exists w, s = drop_end_while is_whitespace s ++ w) as [w Hw].
  { clear Hq. induction s as [|d s [w Hw]] using rev_ind; [by exists []|]. rewrite drop_end_while_snoc.
    destruct (is_whitespace d); [|exists []; by rewrite app_nil_r].
    exists (w ++ [d]). by rewrite app_assoc, <- Hw. }
  exists (w ++ r ++ [c]). by rewrite app_assoc, <- Hw, app_assoc.
Qed.

Lemma trim_start_app (s r : str) : trim_start s <> [] -> trim_start (s ++ r) = trim_start s ++ r.
Proof.
  unfold trim_start. induction s as [|c s IH]; [done|]. cbn [app drop_while].
  destruct (is_whitespace c); [apply IH|done].
Qed.

Lemma line_slug_app (b l : str) :
  LF ∉ b -> trim_start b <> [] -> exists q, line_slug (b ++ l) = trim_end (trim_start b) ++ q.
Proof.
  intros Hb Hne. unfold line_slug.
  assert (exists l', from_option id (b ++ l) (strip_suffix [LF] (b ++ l)) = b ++ l') as [l' ->].
  { destruct (strip_suffix [LF] (b ++ l)) as [r|] eqn:Hr; [|by exists l]. cbn. apply strip_suffix_Some in Hr.
    destruct l as [|c l _] using rev_ind.
    - rewrite app_nil_r in Hr. subst b. set_solver.
    - rewrite app_assoc in Hr. apply app_inj_tail in Hr as [<- _]. by exists l. }
  rewrite trim_start_app by done. apply trim_end_app_prefix.
Qed.

Lemma find_none_eq {A} (f : A -> str) (slug : str) (l : list A) :
  (forall a, a ∈ l -> f a <> slug) -> List.find (fun a => f a =s? slug) l = None.
Proof.
  intros Hn. destruct (List.find _ l) as [a|] eqn:Ha; [|done]. exfalso.
  apply List.find_some in Ha as [Hin Hd]. apply bool_decide_eq_true in Hd. by eapply Hn; [apply list_elem_of_In|].
Qed.

Lemma line_reference_text active self b l :
  tl_specs self = specs -> LF ∉ b -> trim_start b <> [] -> is_tag_prefix self (trim_start b) = false ->
  line_reference active (b ++ l) = (text_events active (b ++ l), active).
Proof.
  intros Hs Hb Hne Hp. destruct (line_slug_app b l Hb Hne) as [q Hq]. unfold line_reference. rewrite Hq.
  assert (forall sp, sp ∈ specs -> ts_open sp <> trim_end (trim_start b) ++ q /\ ts_close sp <> trim_end (trim_start b) ++ q)
    as Hn.
  { intros sp Hin. unfold is_tag_prefix in Hp. rewrite Hs in Hp.
    rewrite <- not_true_iff_false in Hp. split; intros He; apply Hp; apply existsb_exists;
      exists sp; (split; [by apply list_elem_of_In|]); apply orb_true_iff; [left|right];
      apply starts_with_true; by exists q. }
  unfold match_open, match_close. rewrite !find_none_eq; [done|..]; intros sp Hin; by apply Hn.
Qed.

(** *** The loop *)

Definition tagged_inv (self : TaggedLineParser T) : Prop :=
  tl_specs self = specs /\ LF ∉ line_buffer self /\ (detect_tag self = false -> line_buffer self = []).
Definition tagged_to_come (self : TaggedLineParser T) (rest : str) : list (Event T) :=
  if detect_tag self then tagged_reference (active_tag self) (line_buffer self ++ rest)
  else text_events (active_tag self) (first_line rest).1 ++ tagged_reference (active_tag self) (first_line rest).2.

Lemma finish_line_sound self segs self' segs' line rest :
  tl_specs self = specs -> line_buffer self = line ++ [LF] -> LF ∉ line ->
  finish_line self segs = (self', segs') ->
  tagged_inv self' /\ events segs ++ tagged_reference (active_tag self) (line ++ LF :: rest)
                     = events segs' ++ tagged_to_come self' rest.
Proof.
  intros Hs Hl Hline.
  assert (tagged_reference (active_tag self) (line ++ LF :: rest) =
    let '(evs, active') := line_reference (active_tag self) (line ++ [LF]) in evs ++ tagged_reference active' rest) as ->.
  { unfold tagged_reference. rewrite split_inclusive_first by (by destruct line).
    rewrite first_line_app by done. cbn. done. }
  unfold finish_line, line_reference. rewrite Hs, Hl. unfold tagged_to_come, tagged_inv.
  destruct (match_open specs _) as [t|], (active_tag self) as [a|] eqn:Ha;
    repeat first [case_bool_decide | destruct (match_close specs _) as [c|]];
    intros [= <- <-]; cbn [tl_specs line_buffer detect_tag active_tag]; rewrite ?events_push, ?events_push_text, ?Ha;
    (split; [split_and!; [done|apply not_elem_of_nil|done]|by rewrite <- app_assoc]).
Qed.

Lemma tagged_loop_sound delta : forall self run segs self' segs' rest,
  tagged_inv self -> (run <> [] -> detect_tag self = false) ->
  tagged_loop self run segs delta = (self', segs') ->
  tagged_inv self' /\ events segs ++ text_events (active_tag self) run ++ tagged_to_come self (delta ++ rest)
                     = events segs' ++ tagged_to_come self' rest.
Proof.
  assert (forall (self : TaggedLineParser T) run segs,
    events (if run =s? [] then segs else push_text self run segs) = events segs ++ text_events (active_tag self) run)
    as Hrun.
  { intros self run segs. destruct (run =s? []) eqn:He; [|apply events_push_text].
    apply bool_decide_eq_true in He as ->. by rewrite app_nil_r. }
  induction delta as [|ch delta IH]; intros self run segs self' segs' rest Hinv Hr; cbn [tagged_loop app].
  { intros [= <- <-]. split; [done|]. by rewrite Hrun, <- app_assoc. }
  pose proof Hinv as (Hs & Hb & Hd). destruct (detect_tag self) eqn:Hdet.
  - assert (run = []) as -> by (destruct run; [done|]; by specialize (Hr ltac:(done))).
    rewrite bool_decide_eq_true_2 by done. unfold tagged_to_come at 1. rewrite Hdet.
    destruct (N.eqb_spec ch LF) as [->|Hne].
    + destruct (finish_line _ segs) as [self1 segs1] eqn:Hfl.
      apply (finish_line_sound _ _ _ _ (line_buffer self) (delta ++ rest)) in Hfl as [Hi1 He1]; [|done..].
      intros Hloop. apply (IH _ _ _ _ _ rest) in Hloop as [Hi He]; [|done..]. split; [done|].
      cbn [active_tag] in He1. by rewrite <- He, app_nil_l, app_nil_l, <- He1.
    + assert (LF ∉ line_buffer self ++ [ch]) as Hb' by (apply not_elem_of_app; set_solver).
      assert (forall self1 segs1, tagged_inv self1 -> tagged_loop self1 [] segs1 delta = (self', segs') ->
        events segs ++ tagged_reference (active_tag self) (line_buffer self ++ ch :: delta ++ rest)
        = events segs1 ++ tagged_to_come self1 (delta ++ rest) ->
        tagged_inv self' /\ events segs ++ [] ++ tagged_reference (active_tag self) (line_buffer self ++ ch :: delta ++ rest)
                           = events segs' ++ tagged_to_come self' rest) as Hgo.
      { intros self1 segs1 Hi1 Hloop Heq. apply (IH _ _ _ _ _ rest) in Hloop as [Hi He]; [|done..].
        split; [done|]. by rewrite <- He, !app_nil_l. }
      cbn [line_buffer]. destruct (bool_decide_reflect (trim_start (line_buffer self ++ [ch]) = [])) as [Ht|Ht];
        [|destruct (is_tag_prefix _ (trim_start (line_buffer self ++ [ch]))) eqn:Hp]; cbn [orb]; intros Hloop;
        refine (Hgo _ _ _ Hloop _);
        unfold tagged_inv, tagged_to_come; cbn [tl_specs detect_tag active_tag line_buffer];
        try by split_and!; auto using not_elem_of_nil.
      * by rewrite <- app_assoc.
      * by rewrite <- app_assoc.
      * rewrite events_push_text. cbn [active_tag]. rewrite <- app_assoc. f_equal.
        change (ch :: delta ++ rest) with ([ch] ++ delta ++ rest). rewrite app_assoc.
        rewrite tagged_reference_line by (done || by destruct (line_buffer self)).
        erewrite line_reference_text by done. by rewrite text_events_app, <- app_assoc.
  - unfold tagged_to_come at 1. rewrite Hdet. cbn [first_line].
    destruct (N.eqb_spec ch LF) as [->|Hne]; intros Hloop.
    + apply (IH _ _ _ _ _ rest) in Hloop as [Hi He]; [|by unfold tagged_inv; cbn; split_and!|done]. split; [done|]. rewrite <- He.
      rewrite events_push_text. unfold tagged_to_come. cbn [detect_tag active_tag line_buffer fst snd].
      rewrite (Hd eq_refl), text_events_app. cbn [text_events map app]. by rewrite <- !app_assoc.
    + apply (IH _ _ _ _ _ rest) in Hloop as [Hi He]; [|done|done]. split; [done|]. rewrite <- He.
      unfold tagged_to_come. rewrite Hdet, text_events_app, <- !app_assoc. by destruct (first_line (delta ++ rest)).
Qed.

Lemma tagged_finish_sound self :
  tagged_inv self -> events (tagged_finish self).2 = tagged_to_come self [].
Proof.
  intros (Hs & Hb & Hd). unfold tagged_finish, tagged_to_come. rewrite app_nil_r, Hs.
  destruct (bool_decide_reflect (line_buffer self = [])) as [He|He].
  - rewrite He. by destruct (active_tag self), (detect_tag self).
  - destruct (detect_tag self); [|by specialize (Hd eq_refl)].
    unfold tagged_reference. rewrite split_inclusive_first by done.
    assert (first_line (line_buffer self) = (line_buffer self, [])) as ->.
    { rewrite <- (app_nil_r (line_buffer self)), first_line_app by done. by rewrite !app_nil_r. }
    cbn [fst snd split_inclusive lines_reference]. unfold line_reference.
    destruct (match_open specs _) as [t|], (active_tag self) as [a|] eqn:Ha;
      repeat first [case_bool_decide | destruct (match_close specs _) as [c|]];
      cbn [active_tag snd]; rewrite ?events_push, ?events_push_text, ?Ha, ?app_nil_r; done.
Qed.
End tagged_reference.

(** ** Proposed plans do not depend on the chunks *)

Definition plan_spec : TagSpec unit := mkTagSpec OPEN_TAG CLOSE_TAG tt.
Definition plan_segment_events (s : ProposedPlanSegment) : list (Event unit) :=
  match s with
  | PlanNormal text => text_events None text
  | ProposedPlanStart => [EvStart tt]
  | ProposedPlanDelta text => text_events (Some tt) text
  | ProposedPlanEnd => [EvEnd tt]
  end.
Definition plan_events (segments : list ProposedPlanSegment) : list (Event unit) :=
  concat (map plan_segment_events segments).
(** The characters outside every block. *)
Definition visible_of (evs : list (Event unit)) : str :=
  omap (fun e => match e with EvChar None c => Some c | _ => None end) evs.
Definition plan_view (c : StreamTextChunk ProposedPlanSegment) : str * list (Event unit) :=
  (visible_text c, plan_events (extracted c)).
Definition plan_reference (text : str) : str * list (Event unit) :=
  let evs := tagged_reference [plan_spec] None text in (visible_of evs, evs).
Definition view_app {A} (p q : str * list A) : str * list A := (p.1 ++ q.1, p.2 ++ q.2).

Lemma visible_of_app a b : visible_of (a ++ b) = visible_of a ++ visible_of b.
Proof. apply omap_app. Qed.

Lemma visible_of_segment s : visible_of (plan_segment_events s) = normal_text s.
Proof.
  assert (forall a text, visible_of (text_events a text) = match a with None => text | Some _ => [] end) as Ht.
  { intros a text. induction text as [|c text IH]; [by destruct a|]. destruct a; [exact IH|exact (f_equal (cons c) IH)]. }
  destruct s; cbn [plan_segment_events normal_text]; rewrite ?Ht; done.
Qed.

Lemma plan_view_map segs : plan_view (map_segments segs) = (visible_of (events segs), events segs).
Proof.
  unfold plan_view, map_segments. cbn [visible_text extracted]. assert (plan_events (map map_segment segs) = events segs) as He.
  { unfold plan_events, events. rewrite map_map. f_equal. apply map_ext. intros []; cbn; by destruct tag || done. }
  rewrite <- He. f_equal. unfold plan_events. clear He. induction (map map_segment segs) as [|s l IH]; [done|].
  cbn [map concat]. by rewrite visible_of_app, visible_of_segment, IH.
Qed.

Definition plan_to_come (p : ProposedPlanParser) (rest : str) : str * list (Event unit) :=
  let evs := tagged_to_come [plan_spec] (plan_parser p) rest in (visible_of evs, evs).

Lemma plan_push_sound p chunk out p' :
  tagged_inv [plan_spec] (plan_parser p) -> plan_push_str p chunk = (out, p') ->
  tagged_inv [plan_spec] (plan_parser p')
  /\ forall rest, plan_to_come p (chunk ++ rest) = view_app (plan_view out) (plan_to_come p' rest).
Proof.
  intros Hp. unfold plan_push_str. destruct (tagged_parse (plan_parser p) chunk) as [q segs] eqn:Hq.
  intros [= <- <-]. unfold tagged_parse in Hq.
  pose proof (fun rest => tagged_loop_sound _ _ _ _ _ _ _ rest Hp (fun E => match E eq_refl with end) Hq) as Hl.
  split; [apply (Hl [])|]. intros rest. destruct (Hl rest) as [_ He]. cbn [app text_events map] in He.
  unfold plan_to_come, view_app. rewrite plan_view_map. cbn [plan_parser fst snd].
  rewrite <- visible_of_app. by rewrite <- He.
Qed.

Lemma plan_finish_sound p :
  tagged_inv [plan_spec] (plan_parser p) -> plan_view (plan_finish p).1 = plan_to_come p [].
Proof.
  intros Hp. pose proof (tagged_finish_sound _ _ Hp) as Hf. unfold plan_finish, plan_to_come. rewrite <- Hf.
  destruct (tagged_finish (plan_parser p)) as [q segs]. apply plan_view_map.
Qed.

Lemma plan_run chunks : plan_view (run_stream plan_new chunks) = plan_reference (concat chunks).
Proof.
  apply (simulation_run plan_view view_app ([], [])) with
    (inv := fun p => tagged_inv [plan_spec] (plan_parser p)) (to_come := plan_to_come).
  - intros c d. unfold plan_view, view_app, plan_events. cbn. by rewrite map_app, concat_app.
  - done.
  - intros x y z. unfold view_app. cbn. by rewrite !app_assoc.
  - by intros [].
  - apply plan_push_sound.
  - apply plan_finish_sound.
  - unfold tagged_inv. cbn. split_and!; [done|apply not_elem_of_nil|done].
Qed.

#[export] Instance plan_insensitive :
  ChunkInsensitive ProposedPlanParser ProposedPlanSegment (str * list (Event unit)) plan_new plan_view
    plan_reference := plan_run.

(** ** Assistant text: the composition, through the interface *)

Definition assistant_app (a b : AssistantTextChunk) : AssistantTextChunk :=
  mkAssistantChunk (at_visible_text a ++ at_visible_text b) (citations a ++ citations b)
    (plan_segments a ++ plan_segments b).
(** The session's use of the parser: the deltas of a message, then its end. *)
Fixpoint assistant_run (self : AssistantTextStreamParser) (chunks : list str) : AssistantTextChunk :=
  match chunks with
  | [] => (assistant_finish self).1
  | chunk :: chunks =>
      let '(out, self) := assistant_push_str self chunk in assistant_app out (assistant_run self chunks)
  end.

Lemma run_stream_cons {P X} `{StreamTextParser P X} (p : P) chunk chunks :
  run_stream p (chunk :: chunks)
  = let '(out, p) := push_str p chunk in chunk_app out (run_stream p chunks).
Proof.
  unfold run_stream. cbn [push_all]. destruct (push_str p chunk) as [o q].
  destruct (push_all q chunks) as [o' q']. destruct (finish q') as [tl q'']. unfold chunk_app. cbn.
  by rewrite !app_assoc.
Qed.

(** In plan mode the visible text of the citation parser, push by push, is a
    stream of the plan parser. *)
Lemma assistant_run_plan cs plan chunks :
  exists vs, concat vs = visible_text (run_stream cs chunks)
  /\ assistant_run (mkAssistant true cs plan) chunks
     = mkAssistantChunk (visible_text (run_stream plan vs)) (extracted (run_stream cs chunks))
         (extracted (run_stream plan vs)).
Proof.
  revert cs plan. induction chunks as [|chunk chunks IH]; intros cs plan.
  - exists [visible_text (citation_finish cs).1]. cbn [assistant_run]. rewrite run_stream_cons.
    unfold run_stream, assistant_finish, parse_visible_text. cbn [push_all push_str finish citation_parser plan_stream_parser].
    cbn [at_citations plan_mode negb at_plan].
    destruct (citation_finish cs) as [c cs']. cbn [fst concat visible_text chunk_app chunk_default app].
    destruct (plan_push_str plan (visible_text c)) as [o plan']. cbn [at_plan plan_mode].
    destruct (plan_finish plan') as [tl plan'']. split; [by rewrite app_nil_r|]. cbn.
    unfold chunk_is_empty. destruct (visible_text tl) as [|] eqn:?, (extracted tl) as [|] eqn:?; cbn; congruence || idtac.
    by rewrite !app_nil_r.
  - rewrite run_stream_cons. cbn [assistant_run]. unfold assistant_push_str, parse_visible_text. cbn [push_str citation_parser].
    cbn [at_citations plan_mode negb at_plan]. destruct (citation_push_str cs chunk) as [c cs'].
    destruct (plan_push_str plan (visible_text c)) as [o plan'] eqn:Hpp. cbn [visible_text extracted chunk_app at_citations].
    destruct (IH cs' plan') as (vs & Hvs & Hrun). exists (visible_text c :: vs). cbn [concat]. rewrite Hvs. split; [done|].
    rewrite Hrun, run_stream_cons. cbn [push_str plan_stream_parser]. rewrite Hpp. done.
Qed.

Lemma assistant_run_plain cs plan chunks :
  assistant_run (mkAssistant false cs plan) chunks
  = mkAssistantChunk (visible_text (run_stream cs chunks)) (extracted (run_stream cs chunks)) [].
Proof.
  revert cs. induction chunks as [|chunk chunks IH]; intros cs.
  - unfold run_stream. cbn. unfold assistant_finish. cbn. by destruct (citation_finish cs).
  - rewrite run_stream_cons. cbn [assistant_run]. unfold assistant_push_str. cbn [push_str citation_parser at_citations].
    destruct (citation_push_str cs chunk) as [c cs']. cbn [parse_visible_text plan_mode negb].
    by rewrite IH.
Qed.

(** ** Properties *)

(** Citations are removed the same way whatever the cuts: the visible text and
    the citation bodies of a stream are those of the whole text, cut at the first
    opening tag and the first closing tag after it, again and again; and
    [strip_citations] is that cut. *)
Theorem citations_chunk_insensitive (chunks : list str) :
  citation_view (run_stream citation_new chunks) = cut_tags CITATION_OPEN CITATION_CLOSE (concat chunks)
  /\ strip_citations (concat chunks) = cut_tags CITATION_OPEN CITATION_CLOSE (concat chunks).
Proof.
  split; [apply citation_run|]. pose proof (citation_run [concat chunks]) as Hr. cbn [concat] in Hr.
  rewrite app_nil_r in Hr. rewrite <- Hr. unfold strip_citations. rewrite run_stream_cons. cbn [push_str citation_parser].
  destruct (citation_push_str citation_new (concat chunks)) as [out p]. unfold run_stream. cbn.
  by destruct (citation_finish p).
Qed.

(** Proposed plans are recognised the same way whatever the cuts: the segments,
    character by character, are those of the lines of the whole text, where a line
    that is an opening tag (blanks aside) outside a block starts one and a line that is a closing
    tag inside it ends it; the visible text is the text outside the blocks. *)
Theorem plans_chunk_insensitive (chunks : list str) :
  plan_events (extracted (run_stream plan_new chunks)) = tagged_reference [plan_spec] None (concat chunks)
  /\ visible_text (run_stream plan_new chunks) = visible_of (tagged_reference [plan_spec] None (concat chunks)).
Proof. pose proof (plan_run chunks) as Hr. unfold plan_view, plan_reference in Hr. by simplify_eq. Qed.

(** C15. The assistant's text: whatever the cuts, the citations are those of the whole
    text, and in plan mode the plan segments and the visible text are those of the
    whole text without its citations, a tag that only appears once a citation is
    removed included. *)
Theorem assistant_text_reference (plan_mode : bool) (chunks : list str) :
  let out := assistant_run (assistant_new plan_mode) chunks in
  let '(text, cited) := cut_tags CITATION_OPEN CITATION_CLOSE (concat chunks) in
  citations out = cited
  /\ (at_visible_text out, plan_events (plan_segments out)) = if plan_mode then plan_reference text else (text, []).
Proof.
  cbn zeta. pose proof (run_stream_reference (init := citation_new) chunks) as Hc. unfold citation_view in Hc.
  rewrite <- Hc. destruct plan_mode.
  - destruct (assistant_run_plan citation_new plan_new chunks) as (vs & Hvs & Hrun).
    unfold assistant_new. rewrite Hrun. cbn [citations at_visible_text plan_segments]. split; [done|].
    rewrite <- Hvs. exact (run_stream_reference (view := plan_view) vs).
  - unfold assistant_new. by rewrite assistant_run_plain.
Qed.
