(* ===== verification/Utf8Stream.v ===== *)
(** * Streamed bytes: [utils/stream-parser/src/utf8_stream.rs]

    [Utf8StreamParser] accepts bytes cut anywhere, also inside a character, and
    hands the decoded text to any [StreamTextParser].  Everything is proved against
    the interface of [StreamParser]: an inner parser that is [ChunkInsensitive] makes
    the whole insensitive to the cuts of the bytes.  [std::str::from_utf8] is
    modelled with its error: the length of the valid prefix, and the length of the
    invalid sequence or [None] where the input ends inside a character. *)

From S2P Require Import Prelude StreamParser.

(** ** [std::str::from_utf8] *)

Abbreviation byte := N.

Definition in_range (lo hi b : byte) : bool := ((lo <=? b) && (b <=? hi))%N.
Definition is_cont (b : byte) : bool := in_range 128 191 b.

(** What the bytes at the decoder's position are. *)
Inductive Utf8Step : Type :=
| UChar (c : char) (n : nat)
| UIncomplete
| UInvalid (error_len : nat).

(** The second byte a first byte of a longer sequence admits (Unicode, table 3-7). *)
Definition second3 (b0 b1 : byte) : bool :=
  if (b0 =? 224)%N then in_range 160 191 b1
  else if (b0 =? 237)%N then in_range 128 159 b1
  else is_cont b1.
Definition second4 (b0 b1 : byte) : bool :=
  if (b0 =? 240)%N then in_range 144 191 b1
  else if (b0 =? 244)%N then in_range 128 143 b1
  else is_cont b1.

Definition utf8_step (b0 : byte) (rest : list byte) : Utf8Step :=
  if (b0 <? 128)%N then UChar b0 1
  else if in_range 194 223 b0 then
    match rest with
    | [] => UIncomplete
    | b1 :: _ => if is_cont b1 then UChar ((b0 - 192) * 64 + (b1 - 128)) 2 else UInvalid 1
    end
  else if in_range 224 239 b0 then
    match rest with
    | [] => UIncomplete
    | b1 :: rest =>
        if second3 b0 b1 then
          match rest with
          | [] => UIncomplete
          | b2 :: _ =>
              if is_cont b2 then UChar ((b0 - 224) * 4096 + (b1 - 128) * 64 + (b2 - 128)) 3 else UInvalid 2
          end
        else UInvalid 1
    end
  else if in_range 240 244 b0 then
    match rest with
    | [] => UIncomplete
    | b1 :: rest =>
        if second4 b0 b1 then
          match rest with
          | [] => UIncomplete
          | b2 :: rest =>
              if is_cont b2 then
                match rest with
                | [] => UIncomplete
                | b3 :: _ =>
                    if is_cont b3
                    then UChar ((b0 - 240) * 262144 + (b1 - 128) * 4096 + (b2 - 128) * 64 + (b3 - 128)) 4
                    else UInvalid 3
                end
              else UInvalid 2
          end
        else UInvalid 1
    end
  else UInvalid 1.

Record Utf8Error : Type := mkUtf8Error { err_valid_up_to : nat; err_error_len : option nat }.

Fixpoint from_utf8_at (fuel pos : nat) (bytes : list byte) : str + Utf8Error :=
  match fuel, bytes with
  | _, [] => inl []
  | O, _ => inr (mkUtf8Error pos None)
  | S fuel, b0 :: rest =>
      match utf8_step b0 rest with
      | UChar c n =>
          match from_utf8_at fuel (pos + n) (drop n bytes) with
          | inl s => inl (c :: s)
          | inr e => inr e
          end
      | UIncomplete => inr (mkUtf8Error pos None)
      | UInvalid k => inr (mkUtf8Error pos (Some k))
      end
  end.
Definition from_utf8 (bytes : list byte) : str + Utf8Error := from_utf8_at (length bytes) 0 bytes.

(** The bytes of a character and of a text. *)
Definition encode_char (c : char) : list byte :=
  if (c <? 128)%N then [c]
  else if (c <? 2048)%N then [192 + c / 64; 128 + c mod 64]%N
  else if (c <? 65536)%N then [224 + c / 4096; 128 + c / 64 mod 64; 128 + c mod 64]%N
  else [240 + c / 262144; 128 + c / 4096 mod 64; 128 + c / 64 mod 64; 128 + c mod 64]%N.
Definition encode_utf8 (s : str) : list byte := concat (map encode_char s).
(** A [char] is a Unicode scalar value. *)
Definition is_scalar (c : char) : bool := ((c <? 55296) || ((57344 <=? c) && (c <? 1114112)))%N.

(** ** [Utf8StreamParser] *)

Inductive Utf8StreamParserError : Type :=
| InvalidUtf8 (valid_up_to error_len : nat)
| IncompleteUtf8AtEof.

Record Utf8StreamParser (P : Type) : Type := mkUtf8 { u_inner : P; pending_utf8 : list byte }.
Arguments mkUtf8 {P}.
Arguments u_inner {P}.
Arguments pending_utf8 {P}.

Section utf8.
Context {P X : Type} `{StreamTextParser P X}.

Definition utf8_new (inner : P) : Utf8StreamParser P := mkUtf8 inner [].

(** The state of the parser is returned also where the result is an error. *)
Definition push_bytes (self : Utf8StreamParser P) (chunk : list byte) :
  (StreamTextChunk X + Utf8StreamParserError) * Utf8StreamParser P :=
  let old := pending_utf8 self in
  let pending := old ++ chunk in
  match from_utf8 pending with
  | inl text => let '(out, inner) := push_str (u_inner self) text in (inl out, mkUtf8 inner [])
  | inr err =>
      match err_error_len err with
      | Some error_len =>
          (inr (InvalidUtf8 (err_valid_up_to err) error_len), mkUtf8 (u_inner self) (take (length old) pending))
      | None =>
          let valid_up_to := err_valid_up_to err in
          if (valid_up_to =? 0)%nat then (inl chunk_default, mkUtf8 (u_inner self) pending)
          else
            match from_utf8 (take valid_up_to pending) with
            | inl text =>
                let '(out, inner) := push_str (u_inner self) text in (inl out, mkUtf8 inner (drop valid_up_to pending))
            | inr prefix_err =>
                (inr (InvalidUtf8 (err_valid_up_to prefix_err) (default 0%nat (err_error_len prefix_err))),
                 mkUtf8 (u_inner self) (take (length old) pending))
            end
      end
  end.

Definition utf8_check (pending : list byte) : option Utf8StreamParserError :=
  match from_utf8 pending with
  | inl _ => None
  | inr err =>
      match err_error_len err with
      | Some error_len => Some (InvalidUtf8 (err_valid_up_to err) error_len)
      | None => Some IncompleteUtf8AtEof
      end
  end.

Definition utf8_finish (self : Utf8StreamParser P) :
  (StreamTextChunk X + Utf8StreamParserError) * Utf8StreamParser P :=
  let pending := pending_utf8 self in
  match (match pending with [] => None | _ => utf8_check pending end) with
  | Some e => (inr e, self)
  | None =>
      match pending with
      | [] => let '(tail, inner) := finish (u_inner self) in (inl (chunk_app chunk_default tail), mkUtf8 inner [])
      | _ =>
          match from_utf8 pending with
          | inl text =>
              let '(out, inner) := push_str (u_inner self) text in
              let '(tail, inner) := finish inner in (inl (chunk_app out tail), mkUtf8 inner [])
          | inr err => (inr (InvalidUtf8 (err_valid_up_to err) (default 0%nat (err_error_len err))), self)
          end
      end
  end.

Definition into_inner (self : Utf8StreamParser P) : P + Utf8StreamParserError :=
  match pending_utf8 self with
  | [] => inl (u_inner self)
  | pending => match utf8_check pending with None => inl (u_inner self) | Some e => inr e end
  end.
Definition into_inner_lossy (self : Utf8StreamParser P) : P := u_inner self.

(** A caller that feeds chunks and stops at the first error. *)
Fixpoint run_bytes (self : Utf8StreamParser P) (chunks : list (list byte)) : StreamTextChunk X + Utf8StreamParserError :=
  match chunks with
  | [] => (utf8_finish self).1
  | chunk :: chunks =>
      match push_bytes self chunk with
      | (inr e, _) => inr e
      | (inl out, self) =>
          match run_bytes self chunks with
          | inl rest => inl (chunk_app out rest)
          | inr e => inr e
          end
      end
  end.
End utf8.

(** ** One character *)

(** What is decoded, or rejected, stays so when bytes are added. *)
Lemma utf8_step_app b0 rest t : utf8_step b0 rest <> UIncomplete -> utf8_step b0 (rest ++ t) = utf8_step b0 rest.
Proof. unfold utf8_step. destruct rest as [|b1 [|b2 [|b3 rest]]]; cbn [app]; repeat case_match; congruence. Qed.

Lemma utf8_step_char b0 rest c n : utf8_step b0 rest = UChar c n -> (1 <= n <= S (length rest))%nat.
Proof. unfold utf8_step. intros Hs. repeat case_match; simplify_eq; cbn; lia. Qed.

(** A character that is not complete has at most three bytes. *)
Lemma utf8_step_incomplete b0 rest : utf8_step b0 rest = UIncomplete -> (length rest <= 2)%nat.
Proof. unfold utf8_step. intros Hs. repeat case_match; simplify_eq; cbn; lia. Qed.

Lemma utf8_step_take b0 rest c n m :
  utf8_step b0 rest = UChar c n -> (n <= S m)%nat -> utf8_step b0 (take m rest) = UChar c n.
Proof.
  intros Hs Hm. rewrite <- Hs. rewrite <- (take_drop m rest) at 2. symmetry. apply utf8_step_app.
  revert Hs. unfold utf8_step.
  destruct rest as [|b1 [|b2 [|b3 rest]]], m as [|[|[|m]]]; cbn [take];
    intros Hs; repeat case_match; simplify_eq; first [done | exfalso; cbn in *; lia].
Qed.

(** The digits of a character in base 64. *)
Lemma base64_digits (c : N) :
  exists q1 q2 q3 q4, (c / 262144 = q1 /\ c / 4096 mod 64 = q2 /\ c / 64 mod 64 = q3 /\ c mod 64 = q4
    /\ q2 < 64 /\ q3 < 64 /\ q4 < 64 /\ c = q1 * 262144 + q2 * 4096 + q3 * 64 + q4
    /\ c / 4096 = q1 * 64 + q2 /\ c / 64 = q1 * 4096 + q2 * 64 + q3)%N.
Proof.
  eexists _, _, _, _. do 4 (split; [reflexivity|]). zify. Z.to_euclidean_division_equations. lia.
Qed.

(** Decide the comparisons of the decoder by [lia], one at a time. *)
Ltac utf8_cases :=
  repeat match goal with
  | |- context [(?x <? ?y)%N] =>
      (rewrite (proj2 (N.ltb_lt x y)) by lia) || (rewrite (proj2 (N.ltb_ge x y)) by lia)
  | |- context [(?x <=? ?y)%N] =>
      (rewrite (proj2 (N.leb_le x y)) by lia) || (rewrite (proj2 (N.leb_gt x y)) by lia)
  | |- context [(?x =? ?y)%N] => destruct (N.eqb_spec x y)
  end; cbn [andb]; f_equal; lia.

(** A scalar value's bytes are read back as it, whatever follows. *)
Lemma utf8_step_encode c t :
  is_scalar c = true ->
  exists b0 rest, encode_char c = b0 :: rest /\ utf8_step b0 (rest ++ t) = UChar c (S (length rest)).
Proof.
  unfold is_scalar, encode_char. intros Hc. rewrite orb_true_iff, andb_true_iff, !N.ltb_lt, N.leb_le in Hc.
  destruct (base64_digits c) as (q1 & q2 & q3 & q4 & E1 & E2 & E3 & E4 & L2 & L3 & L4 & Hsum & E5 & E6).
  rewrite E1, E2, E3, E4, E5, E6. clear E1 E2 E3 E4 E5 E6.
  destruct (N.ltb_spec c 128); [|destruct (N.ltb_spec c 2048); [|destruct (N.ltb_spec c 65536)]];
    eexists _, _; (split; [reflexivity|]); cbn [app length]; unfold utf8_step, second3, second4, is_cont, in_range;
    utf8_cases.
Qed.

(** ** A text *)

(** [Decodes bytes s rest]: characters [s] are decoded, the bytes [rest] remain. *)
Inductive Decodes : list byte -> str -> list byte -> Prop :=
| Decodes_stop bytes : Decodes bytes [] bytes
| Decodes_char b0 rest c n s r :
    utf8_step b0 rest = UChar c n -> Decodes (drop n (b0 :: rest)) s r -> Decodes (b0 :: rest) (c :: s) r.

Definition err_step (e : Utf8Error) : Utf8Step :=
  match err_error_len e with Some k => UInvalid k | None => UIncomplete end.

Lemma Decodes_app a s r t : Decodes a s r -> Decodes (a ++ t) s (r ++ t).
Proof.
  induction 1 as [|b0 rest c n s r Hs Hd IH]; [constructor|]. cbn [app]. econstructor.
  - rewrite utf8_step_app; [exact Hs|congruence].
  - pose proof (utf8_step_char _ _ _ _ Hs). change (b0 :: rest ++ t) with ((b0 :: rest) ++ t).
    rewrite drop_app_le by (cbn; lia). exact IH.
Qed.

Lemma Decodes_trans a s b s' r : Decodes a s b -> Decodes b s' r -> Decodes a (s ++ s') r.
Proof. induction 1 as [|b0 rest c n s b Hs Hd IH]; intros Hb; [done|]. econstructor; [done|]. by apply IH. Qed.

Lemma Decodes_length a s r : Decodes a s r -> (length r <= length a)%nat.
Proof. induction 1 as [|b0 rest c n s r Hs Hd IH]; [done|]. rewrite length_drop in IH. lia. Qed.

Lemma Decodes_take a s r : Decodes a s r -> Decodes (take (length a - length r) a) s [].
Proof.
  induction 1 as [|b0 rest c n s r Hs Hd IH]; [rewrite Nat.sub_diag; constructor|].
  pose proof (utf8_step_char _ _ _ _ Hs) as Hn. pose proof (Decodes_length _ _ _ Hd) as Hl.
  rewrite length_drop in IH, Hl. cbn [length] in *.
  replace (S (length rest) - length r)%nat with (S (length rest - length r))%nat by lia. cbn [take]. econstructor.
  - apply utf8_step_take; [exact Hs|lia].
  - change (b0 :: take (length rest - length r) rest) with (take (S (length rest - length r)) (b0 :: rest)).
    rewrite <- take_drop_commute || rewrite skipn_firstn_comm.
    replace (S (length rest - length r) - n)%nat with (S (length rest) - n - length r)%nat by lia. exact IH.
Qed.

Lemma from_utf8_at_spec fuel pos bytes :
  (length bytes <= fuel)%nat ->
  match from_utf8_at fuel pos bytes with
  | inl s => Decodes bytes s []
  | inr e => exists s b0 rest, Decodes bytes s (b0 :: rest) /\ utf8_step b0 rest = err_step e
                             /\ (err_valid_up_to e + length (b0 :: rest) = pos + length bytes)%nat
  end.
Proof.
  revert pos bytes. induction fuel as [|fuel IH]; intros pos [|b0 rest] Hf; try (cbn in Hf; lia); try by constructor.
  cbn [from_utf8_at]. destruct (utf8_step b0 rest) as [c n| |k] eqn:Hs.
  - pose proof (utf8_step_char _ _ _ _ Hs) as Hn.
    specialize (IH (pos + n)%nat (drop n (b0 :: rest))). rewrite length_drop in IH. cbn [length] in IH, Hf.
    specialize (IH ltac:(lia)). destruct (from_utf8_at fuel _ _) as [s|e]; [by econstructor|].
    destruct IH as (s & b & r & Hd & Hst & Hl). exists (c :: s), b, r. split_and!; [by econstructor|done|]. cbn in *. lia.
  - exists [], b0, rest. by split_and!; [constructor| |].
  - exists [], b0, rest. by split_and!; [constructor| |].
Qed.

Lemma Decodes_drop a s r : Decodes a s r -> drop (length a - length r) a = r.
Proof.
  induction 1 as [|b0 rest c n s r Hs Hd IH]; [by rewrite Nat.sub_diag|].
  pose proof (utf8_step_char _ _ _ _ Hs). pose proof (Decodes_length _ _ _ Hd) as Hlen.
  rewrite drop_drop, length_drop in IH. rewrite length_drop in Hlen. cbn [length] in *.
  replace (S (length rest) - length r)%nat with (n + (S (length rest) - n - length r))%nat by lia. exact IH.
Qed.

Lemma Decodes_det a s r s' r' :
  Decodes a s r -> Decodes a s' r' ->
  (forall b0 rest, r = b0 :: rest -> forall c n, utf8_step b0 rest <> UChar c n) ->
  (forall b0 rest, r' = b0 :: rest -> forall c n, utf8_step b0 rest <> UChar c n) -> s = s' /\ r = r'.
Proof.
  intros Hd. revert s' r'. induction Hd as [[|b l]|b0 rest c n s r Hs Hd IH]; intros s' r' Hd' Hr Hr'; inversion Hd'; subst.
  - done.
  - done.
  - by edestruct Hr.
  - by edestruct Hr'.
  - rewrite Hs in H1. injection H1 as <- <-. by destruct (IH _ _ H4 Hr Hr') as [-> ->].
Qed.

(** Where the decoder stops, and why, determines the result. *)
Lemma from_utf8_done bytes s : Decodes bytes s [] -> from_utf8 bytes = inl s.
Proof.
  intros Hd. pose proof (from_utf8_at_spec (length bytes) 0 bytes (le_n _)) as Hsp. fold (from_utf8 bytes) in Hsp.
  destruct (from_utf8 bytes) as [s'|e].
  - destruct (Decodes_det _ _ _ _ _ Hd Hsp) as [-> _]; [done..|]. done.
  - destruct Hsp as (s' & b & r & Hd' & Hst & _). exfalso.
    destruct (Decodes_det _ _ _ _ _ Hd Hd') as [_ ?]; [done| |done].
    intros ? ? [= <- <-] c n. rewrite Hst. unfold err_step. by destruct (err_error_len e).
Qed.

Lemma from_utf8_stop bytes s b0 rest e :
  Decodes bytes s (b0 :: rest) -> utf8_step b0 rest = err_step e ->
  from_utf8 bytes = inr (mkUtf8Error (length bytes - length (b0 :: rest)) (err_error_len e)).
Proof.
  intros Hd Hst. pose proof (from_utf8_at_spec (length bytes) 0 bytes (le_n _)) as Hsp. fold (from_utf8 bytes) in Hsp.
  assert (forall e b r c n, utf8_step b r = err_step e -> utf8_step b r <> UChar c n) as Hno.
  { intros e' b r c n ->. unfold err_step. by destruct (err_error_len e'). }
  destruct (from_utf8 bytes) as [s'|e'].
  - exfalso. destruct (Decodes_det _ _ _ _ _ Hd Hsp) as [_ ?]; [|done..]. intros ? ? [= <- <-] c n. by eapply Hno.
  - destruct Hsp as (s' & b & r & Hd' & Hst' & Hl).
    destruct (Decodes_det _ _ _ _ _ Hd Hd') as [_ [= <- <-]].
    + intros ? ? [= <- <-] c n. by eapply Hno.
    + intros ? ? [= <- <-] c n. by eapply Hno.
    + f_equal. destruct e' as [v k]. cbn in *. f_equal; [lia|]. rewrite Hst in Hst'. unfold err_step in Hst'. cbn in Hst'.
      destruct (err_error_len e), k; congruence.
Qed.

Lemma from_utf8_cases bytes :
  (exists s, from_utf8 bytes = inl s /\ Decodes bytes s [])
  \/ (exists s b0 rest e, from_utf8 bytes = inr e /\ Decodes bytes s (b0 :: rest) /\ utf8_step b0 rest = err_step e
       /\ err_valid_up_to e = (length bytes - length (b0 :: rest))%nat).
Proof.
  pose proof (from_utf8_at_spec (length bytes) 0 bytes (le_n _)) as Hsp. fold (from_utf8 bytes) in Hsp.
  destruct (from_utf8 bytes) as [s|e]; [left; by exists s|right].
  destruct Hsp as (s & b & r & Hd & Hst & Hl). exists s, b, r, e. split_and!; [done..|]. lia.
Qed.

(** Decoding goes on behind what is decoded. *)
Lemma from_utf8_after a s r t :
  Decodes a s r ->
  match from_utf8 (r ++ t) with
  | inl u => from_utf8 (a ++ t) = inl (s ++ u)
  | inr e => exists v, from_utf8 (a ++ t) = inr (mkUtf8Error v (err_error_len e))
  end.
Proof.
  intros Hd. apply (Decodes_app _ _ _ t) in Hd.
  destruct (from_utf8_cases (r ++ t)) as [(u & -> & Hu)|(u & b & l & e & -> & Hu & Hst & _)].
  - apply from_utf8_done. by eapply Decodes_trans.
  - eexists. eapply from_utf8_stop; [by eapply Decodes_trans|done].
Qed.

Lemma from_utf8_encode s : forallb is_scalar s = true -> from_utf8 (encode_utf8 s) = inl s.
Proof.
  intros Hs. apply from_utf8_done. induction s as [|c s IH]; [constructor|].
  cbn [forallb] in Hs. apply andb_true_iff in Hs as [Hc Hs].
  destruct (utf8_step_encode c (encode_utf8 s) Hc) as (b0 & rest & He & Hst).
  unfold encode_utf8 in *. cbn [map concat]. rewrite He. cbn [app]. econstructor; [exact Hst|].
  cbn [drop]. rewrite drop_app_length. by apply IH.
Qed.

(** ** The stream *)

Section utf8_stream.
Context {P X : Type} `{StreamTextParser P X}.

(** Between two calls less than a character is pending. *)
Definition utf8_inv (self : Utf8StreamParser P) : Prop :=
  match pending_utf8 self with [] => True | b0 :: rest => utf8_step b0 rest = UIncomplete end.

(** The result of one push, by what the pending and the new bytes are together. *)
Lemma push_bytes_cases self chunk :
  utf8_inv self ->
  let bytes := pending_utf8 self ++ chunk in
  (exists e k, from_utf8 bytes = inr e /\ err_error_len e = Some k
     /\ push_bytes self chunk = (inr (InvalidUtf8 (err_valid_up_to e) k), self))
  \/ (exists s r, Decodes bytes s r /\ match r with [] => True | b0 :: rest => utf8_step b0 rest = UIncomplete end
       /\ push_bytes self chunk
          = match s, r with
            | [], _ :: _ => (inl chunk_default, mkUtf8 (u_inner self) r)
            | _, _ => let '(out, inner) := push_str (u_inner self) s in (inl out, mkUtf8 inner r)
            end).
Proof.
  intros Hinv bytes. unfold push_bytes. fold bytes.
  destruct (from_utf8_cases bytes) as [(s & -> & Hd)|(s & b & r & e & Hf & Hd & Hst & Hv)].
  { right. exists s, []. split_and!; [done..|]. by destruct s. }
  rewrite Hf. unfold err_step in Hst. destruct (err_error_len e) as [k|] eqn:Hk.
  - left. exists e, k. split_and!; [done..|]. unfold bytes. rewrite take_app_length. by destruct self.
  - right. exists s, (b :: r). split_and!; [done..|]. pose proof (Decodes_take _ _ _ Hd) as Ht.
    rewrite <- Hv in Ht. rewrite (from_utf8_done _ _ Ht).
    pose proof (Decodes_drop _ _ _ Hd) as Hdrop. rewrite <- Hv in Hdrop.
    rewrite Hdrop. destruct (Nat.eqb_spec (err_valid_up_to e) 0) as [He0|Hne].
    + rewrite He0, take_0 in Ht. rewrite He0, drop_0 in Hdrop. rewrite Hdrop. by inversion Ht.
    + destruct s as [|c s]; [|done]. exfalso. apply Hne. rewrite Hv.
      assert (bytes = b :: r) as -> by (by inversion Hd). apply Nat.sub_diag.
Qed.

Lemma push_bytes_keeps self chunk res self' : utf8_inv self -> push_bytes self chunk = (res, self') -> utf8_inv self'.
Proof.
  intros Hinv Hp. destruct (push_bytes_cases self chunk Hinv) as [(e & k & _ & _ & He)|(s & r & _ & Hr & He)];
    rewrite Hp in He; [by injection He as -> ->|].
  unfold utf8_inv. destruct s, r; try (destruct (push_str _ _)); by injection He as -> ->.
Qed.

(** Whatever the cuts, the inner parser sees the decoded text in some pieces, or
    the bytes are not UTF-8 and the error says so. *)
Lemma run_bytes_pieces self chunks :
  utf8_inv self ->
  match from_utf8 (pending_utf8 self ++ concat chunks) with
  | inl text => exists pieces, concat pieces = text /\ run_bytes self chunks = inl (run_stream (u_inner self) pieces)
  | inr e => match err_error_len e with
             | Some k => exists v, run_bytes self chunks = inr (InvalidUtf8 v k)
             | None => run_bytes self chunks = inr IncompleteUtf8AtEof
             end
  end.
Proof.
  revert self. induction chunks as [|chunk chunks IH]; intros self Hinv.
  - cbn [concat run_bytes]. rewrite app_nil_r. unfold utf8_finish. unfold utf8_inv in Hinv.
    destruct (pending_utf8 self) as [|b0 rest] eqn:Hp.
    + exists []. split; [done|]. unfold run_stream. cbn. by destruct (finish (u_inner self)).
    + unfold utf8_check. erewrite (from_utf8_stop (b0 :: rest) [] b0 rest (mkUtf8Error 0 None)); [done|constructor|done].
  - cbn [concat run_bytes]. rewrite app_assoc.
    destruct (push_bytes_cases self chunk Hinv) as [(e & k & Hf & Hk & He)|(s & r & Hd & Hr & He)]; rewrite He.
    + destruct (from_utf8_cases (pending_utf8 self ++ chunk)) as [(s & Hf' & _)|(s & b & r & e' & Hf' & Hd & Hst & _)];
        [congruence|]. assert (e' = e) as -> by congruence.
      assert (utf8_step b (r ++ concat chunks) = err_step e) as Hst'.
      { rewrite utf8_step_app; [done|]. rewrite Hst. unfold err_step. by rewrite Hk. }
      rewrite (from_utf8_stop _ _ _ _ _ (Decodes_app _ _ _ (concat chunks) Hd) Hst'). cbn [err_error_len].
      rewrite Hk. by eexists.
    + pose proof (from_utf8_after _ _ _ (concat chunks) Hd) as Haf.
      set (p := match s, r with
                | [], _ :: _ => (inl chunk_default, mkUtf8 (u_inner self) r)
                | _, _ => let '(out, inner) := push_str (u_inner self) s in (inl out, mkUtf8 inner r)
                end).
      assert (exists out q, p = (inl out, mkUtf8 q r) /\ forall pieces, exists pieces',
        concat pieces' = s ++ concat pieces /\ run_stream (u_inner self) pieces' = chunk_app out (run_stream q pieces))
        as (out & q & -> & Hpieces).
      { assert (forall pieces, run_stream (u_inner self) pieces
                  = chunk_app chunk_default (run_stream (u_inner self) pieces)) as Hdef.
        { intros pieces. unfold chunk_app, chunk_default. cbn. by destruct (run_stream _ _). }
        subst p. destruct s as [|c s], r as [|b r];
          try (eexists _, _; split; [reflexivity|]; intros pieces; by exists pieces);
          destruct (push_str (u_inner self) _) as [out q] eqn:Hps;
          (eexists _, _; split; [reflexivity|]; intros pieces; eexists (_ :: pieces); split; [reflexivity|];
           by rewrite run_stream_cons, Hps). }
      specialize (IH (mkUtf8 q r) Hr). cbn [pending_utf8 u_inner] in IH.
      destruct (from_utf8 (r ++ concat chunks)) as [u|e].
      * destruct IH as (pieces & Hc & Hrun). rewrite Haf, Hrun. destruct (Hpieces pieces) as (pieces' & Hc' & Hr').
        exists pieces'. by rewrite Hc', Hc, Hr'.
      * destruct Haf as [v ->]. cbn [err_error_len]. destruct (err_error_len e); [|by rewrite IH].
        destruct IH as [v' ->]. by exists v'.
Qed.
End utf8_stream.

(** ** Properties *)

(** C39. A byte stream cut anywhere gives what the inner parser gives for the decoded
    text: for every inner parser whose result does not depend on how its text is
    cut, [Utf8StreamParser] succeeds exactly when all the bytes together are UTF-8,
    and the result is the inner parser's reference for the decoded text.  Otherwise
    the caller gets an error, with the length of the invalid sequence, or
    [IncompleteUtf8AtEof] when the stream ends inside a character. *)
Theorem utf8_stream_reference {P X V : Type} `{StreamTextParser P X} (init : P) (view : StreamTextChunk X -> V)
    (reference : str -> V) (Hin : ChunkInsensitive P X V init view reference) (chunks : list (list byte)) :
  match from_utf8 (concat chunks) with
  | inl text => exists out, run_bytes (utf8_new init) chunks = inl out /\ view out = reference text
  | inr e =>
      match err_error_len e with
      | Some k => exists v, run_bytes (utf8_new init) chunks = inr (InvalidUtf8 v k)
      | None => run_bytes (utf8_new init) chunks = inr IncompleteUtf8AtEof
      end
  end.
Proof.
  pose proof (run_bytes_pieces (utf8_new init) chunks I) as Hp. cbn [pending_utf8 utf8_new app u_inner] in Hp.
  destruct (from_utf8 (concat chunks)) as [text|e]; [|done].
  destruct Hp as (pieces & <- & ->). eexists. split; [done|]. apply Hin.
Qed.

(** A citation whose bytes are cut inside characters and inside its tags. *)
Lemma utf8_stream_reference_witness :
  exists out,
    run_bytes (utf8_new citation_new)
      [take 2 (encode_utf8 (lit "a" ++ [233%N])); drop 2 (encode_utf8 (lit "a" ++ [233%N]))
         ++ take 7 (encode_utf8 (CITATION_OPEN ++ [20013%N] ++ CITATION_CLOSE));
       drop 7 (encode_utf8 (CITATION_OPEN ++ [20013%N] ++ CITATION_CLOSE))] = inl out
    /\ citation_view out = (lit "a" ++ [233%N], [[20013%N]]).
Proof.
  exact (utf8_stream_reference citation_new citation_view _ citation_insensitive
    [take 2 (encode_utf8 (lit "a" ++ [233%N])); drop 2 (encode_utf8 (lit "a" ++ [233%N]))
       ++ take 7 (encode_utf8 (CITATION_OPEN ++ [20013%N] ++ CITATION_CLOSE));
     drop 7 (encode_utf8 (CITATION_OPEN ++ [20013%N] ++ CITATION_CLOSE))]).
Defined.

(** The bytes of a text, cut anywhere, give back the text to the inner parser:
    nothing is lost or decoded differently at a cut inside a character. *)
Theorem utf8_text_roundtrip {P X V : Type} `{StreamTextParser P X} (init : P) (view : StreamTextChunk X -> V)
    (reference : str -> V) (Hin : ChunkInsensitive P X V init view reference) (text : str) (chunks : list (list byte))
    (Hs : forallb is_scalar text = true) (Hc : concat chunks = encode_utf8 text) :
  exists out, run_bytes (utf8_new init) chunks = inl out /\ view out = reference text.
Proof.
  pose proof (run_bytes_pieces (utf8_new init) chunks I) as Hp. cbn [pending_utf8 utf8_new app u_inner] in Hp.
  rewrite Hc, (from_utf8_encode _ Hs) in Hp. destruct Hp as (pieces & <- & ->). eexists. split; [done|]. apply Hin.
Qed.

Lemma utf8_text_roundtrip_witness :
  exists out,
    run_bytes (utf8_new plan_new) (map (fun b => [b]) (encode_utf8 ([8364%N] ++ lit "5"))) = inl out
    /\ plan_view out = plan_reference ([8364%N] ++ lit "5").
Proof.
  apply (utf8_text_roundtrip plan_new plan_view plan_reference plan_insensitive ([8364%N] ++ lit "5")); reflexivity.
Defined.

(** Whatever bytes are pushed, valid or not, at most three bytes are ever
    buffered, and they are the start of one character. *)
Theorem pending_utf8_bounded {P X : Type} `{StreamTextParser P X} (init : P) (chunks : list (list byte)) :
  let self := fold_left (fun self chunk => (push_bytes self chunk).2) chunks (utf8_new init) in
  (length (pending_utf8 self) <= 3)%nat
  /\ match pending_utf8 self with [] => True | b0 :: rest => utf8_step b0 rest = UIncomplete end.
Proof.
  intros self. assert (utf8_inv self) as Hinv.
  { subst self. assert (utf8_inv (utf8_new init)) as Hi by done. revert Hi. generalize (utf8_new init).
    induction chunks as [|chunk chunks IH]; intros self Hi; [done|]. cbn [fold_left]. apply IH.
    destruct (push_bytes self chunk) as [res self'] eqn:Hp. by eapply push_bytes_keeps. }
  split; [|exact Hinv]. unfold utf8_inv in Hinv. destruct (pending_utf8 self) as [|b0 rest]; cbn; [lia|].
  apply utf8_step_incomplete in Hinv. lia.
Qed.

(** A rejected chunk leaves no trace: after an error the parser, its buffer and
    the inner parser are what they were, so the caller can go on with other bytes. *)
Theorem push_bytes_rollback {P X : Type} `{StreamTextParser P X} (self self' : Utf8StreamParser P)
    (chunk : list byte) (e : Utf8StreamParserError) (Hinv : utf8_inv self)
    (He : push_bytes self chunk = (inr e, self')) :
  self' = self /\ exists v k, e = InvalidUtf8 v k.
Proof.
  destruct (push_bytes_cases self chunk Hinv) as [(e' & k & _ & _ & Hp)|(s & r & _ & _ & Hp)]; rewrite He in Hp.
  - injection Hp as -> ->. split; [done|]. by eexists _, _.
  - exfalso. destruct s, r; try (destruct (push_str _ _)); done.
Qed.

Lemma push_bytes_rollback_witness :
  mkUtf8 citation_new [195%N] = mkUtf8 citation_new [195%N] /\ exists v k, InvalidUtf8 0 1 = InvalidUtf8 v k.
Proof. apply (push_bytes_rollback (mkUtf8 citation_new [195%N]) _ [65%N]); reflexivity. Defined.
