(* ===== verification/HeadTailBuffer.v ===== *)
(** * The capped output buffer: [core/src/unified_exec/head_tail_buffer.rs]

    [HeadTailBuffer] keeps a stable prefix and a sliding suffix of a stream of
    output chunks.  The abstract state is the whole stream pushed so far; the
    refinement relation [represents] says what the buffer retains of it, and
    every operation is shown to implement its abstract counterpart, with the
    saturating byte counters exact.  [trim_tail_to_budget] is structural on the
    chunks of the tail, so no fuel is needed. *)

From S2P Require Import Prelude.

Abbreviation byte := N (only parsing).

(** [Vec::len] as a [usize]. *)
Definition vec_len {A} (l : list A) : N := N.of_nat (length l).

(** ** State *)

Record HeadTailBuffer : Type := mkHTB {
  max_bytes : N;
  head_budget : N;
  tail_budget : N;
  head : list (list byte);
  tail : list (list byte);
  head_bytes : N;
  tail_bytes : N;
  omitted_bytes : N;
}.

(** ** Operations *)

Definition htb_new (max_bytes : N) : HeadTailBuffer :=
  let head_budget := (max_bytes / 2)%N in
  let tail_budget := sat_sub max_bytes head_budget in
  mkHTB max_bytes head_budget tail_budget [] [] 0 0 0.

Definition retained_bytes (b : HeadTailBuffer) : N := sat_add (head_bytes b) (tail_bytes b).

Definition set_omitted (n : N) (b : HeadTailBuffer) : HeadTailBuffer :=
  mkHTB (max_bytes b) (head_budget b) (tail_budget b) (head b) (tail b)
    (head_bytes b) (tail_bytes b) n.
Definition set_tail (t : list (list byte)) (tb om : N) (b : HeadTailBuffer) : HeadTailBuffer :=
  mkHTB (max_bytes b) (head_budget b) (tail_budget b) (head b) t (head_bytes b) tb om.
Definition push_head (c : list byte) (b : HeadTailBuffer) : HeadTailBuffer :=
  mkHTB (max_bytes b) (head_budget b) (tail_budget b) (head b ++ [c]) (tail b)
    (sat_add (head_bytes b) (vec_len c)) (tail_bytes b) (omitted_bytes b).

(** The [while excess > 0] loop: the tail, its byte count and the omitted count. *)
Fixpoint trim_loop (excess : N) (tail : list (list byte)) (tail_bytes omitted_bytes : N)
    : list (list byte) * N * N :=
  if (excess =? 0)%N then (tail, tail_bytes, omitted_bytes)
  else
    match tail with
    | [] => (tail, tail_bytes, omitted_bytes)
    | front :: rest =>
        if (vec_len front <=? excess)%N then
          trim_loop (excess - vec_len front)%N rest
            (sat_sub tail_bytes (vec_len front)) (sat_add omitted_bytes (vec_len front))
        else
          (drop (N.to_nat excess) front :: rest, sat_sub tail_bytes excess, sat_add omitted_bytes excess)
    end.

Definition trim_tail_to_budget (b : HeadTailBuffer) : HeadTailBuffer :=
  let excess := sat_sub (tail_bytes b) (tail_budget b) in
  let '(t, tb, om) := trim_loop excess (tail b) (tail_bytes b) (omitted_bytes b) in
  set_tail t tb om b.

Definition push_to_tail (chunk : list byte) (b : HeadTailBuffer) : HeadTailBuffer :=
  if (tail_budget b =? 0)%N then
    set_omitted (sat_add (omitted_bytes b) (vec_len chunk)) b
  else if (tail_budget b <=? vec_len chunk)%N then
    let start := sat_sub (vec_len chunk) (tail_budget b) in
    let kept := drop (N.to_nat start) chunk in
    let dropped := sat_sub (vec_len chunk) (vec_len kept) in
    set_tail [kept] (vec_len kept)
      (sat_add (sat_add (omitted_bytes b) (tail_bytes b)) dropped) b
  else
    trim_tail_to_budget
      (set_tail (tail b ++ [chunk]) (sat_add (tail_bytes b) (vec_len chunk)) (omitted_bytes b) b).

Definition push_chunk (chunk : list byte) (b : HeadTailBuffer) : HeadTailBuffer :=
  if (max_bytes b =? 0)%N then
    set_omitted (sat_add (omitted_bytes b) (vec_len chunk)) b
  else if (head_bytes b <? head_budget b)%N then
    let remaining_head := sat_sub (head_budget b) (head_bytes b) in
    if (vec_len chunk <=? remaining_head)%N then push_head chunk b
    else
      let head_part := take (N.to_nat remaining_head) chunk in
      let tail_part := drop (N.to_nat remaining_head) chunk in
      let b := if bool_decide (head_part = []) then b else push_head head_part b in
      push_to_tail tail_part b
  else push_to_tail chunk b.

Definition snapshot_chunks (b : HeadTailBuffer) : list (list byte) := head b ++ tail b.
Definition to_bytes (b : HeadTailBuffer) : list byte := concat (head b) ++ concat (tail b).
Definition drain_chunks (b : HeadTailBuffer) : HeadTailBuffer * list (list byte) :=
  (mkHTB (max_bytes b) (head_budget b) (tail_budget b) [] [] 0 0 0, head b ++ tail b).

(** ** Specification *)

(** The last [n] elements. *)
Definition lastn {A} (n : nat) (l : list A) : list A := drop (length l - n) l.

(** What a buffer of [max] bytes keeps of a stream: the first half of the
    budget from the front, the rest of the budget from the back. *)
Definition head_of (max : N) (s : list byte) : list byte := take (N.to_nat (max / 2)) s.
Definition tail_of (max : N) (s : list byte) : list byte :=
  lastn (N.to_nat (max - max / 2)) (drop (N.to_nat (max / 2)) s).
Definition kept_of (max : N) (s : list byte) : list byte := head_of max s ++ tail_of max s.

Record represents (max : N) (b : HeadTailBuffer) (s : list byte) : Prop := {
  rep_max : max_bytes b = max;
  rep_hb : head_budget b = (max / 2)%N;
  rep_tb : tail_budget b = (max - max / 2)%N;
  rep_head : concat (head b) = head_of max s;
  rep_tail : concat (tail b) = tail_of max s;
  rep_head_bytes : head_bytes b = vec_len (head_of max s);
  rep_tail_bytes : tail_bytes b = vec_len (tail_of max s);
  rep_omitted : omitted_bytes b = N.min (vec_len s - vec_len (kept_of max s)) usize_max;
}.

(** ** Lemmas *)

Lemma lastn_app {A} n (l k : list A) :
  lastn n (l ++ k) = lastn (n - length k) l ++ lastn n k.
Proof.
  unfold lastn. rewrite length_app, drop_app. f_equal; [|f_equal; lia].
  destruct (decide (n ≤ length k)%nat); [by rewrite !drop_ge by lia|f_equal; lia].
Qed.

Lemma lastn_lastn_app {A} n (l k : list A) : lastn n (lastn n l ++ k) = lastn n (l ++ k).
Proof.
  rewrite !lastn_app. f_equal. unfold lastn. rewrite length_drop, drop_drop. f_equal. lia.
Qed.

Lemma lastn_all {A} n (l : list A) : (length l ≤ n)%nat -> lastn n l = l.
Proof. intros H. unfold lastn. by replace (length l - n)%nat with 0%nat by lia. Qed.

Lemma length_lastn {A} n (l : list A) : length (lastn n l) = (n `min` length l)%nat.
Proof. unfold lastn. rewrite length_drop. lia. Qed.

Lemma vec_len_app {A} (l k : list A) : vec_len (l ++ k) = (vec_len l + vec_len k)%N.
Proof. unfold vec_len. rewrite length_app. lia. Qed.

Lemma sat_add_min a b : sat_add (N.min a usize_max) b = N.min (a + b) usize_max.
Proof. unfold sat_add. lia. Qed.

(** The loop drops exactly the excess from the front of the tail. *)
Lemma trim_loop_spec e t tb om :
  (e ≤ vec_len (concat t))%N -> tb = vec_len (concat t) -> (om ≤ usize_max)%N ->
  exists t', trim_loop e t tb om = (t', (tb - e)%N, N.min (om + e) usize_max) /\
             concat t' = drop (N.to_nat e) (concat t).
Proof.
  intros He -> Hom. revert e om He Hom.
  assert (forall x : N, (x - 0 = x)%N) as Hsub by lia.
  induction t as [|c t IH]; intros e om He Hom; simpl trim_loop; simpl concat in *.
  - assert (e = 0%N) as -> by (unfold vec_len in *; simpl in *; lia).
    simpl. exists []. rewrite Hsub. split; [|done]. f_equal. lia.
  - destruct (e =? 0)%N eqn:H0; bool_to_prop.
    { subst. exists (c :: t). rewrite Hsub. split; [|done]. f_equal. lia. }
    rewrite vec_len_app in *. destruct (vec_len c <=? e)%N eqn:Hc; bool_to_prop.
    + replace (sat_sub (vec_len c + vec_len (concat t)) (vec_len c)) with (vec_len (concat t))
        by (unfold sat_sub; lia).
      destruct (IH (e - vec_len c)%N (sat_add om (vec_len c))) as (t' & -> & Ht'); [lia|unfold sat_add; lia|].
      exists t'. split; [f_equal; [f_equal; lia|unfold sat_add; lia]|].
      rewrite Ht', drop_app_ge by (unfold vec_len in *; lia). f_equal. unfold vec_len. lia.
    + exists (drop (N.to_nat e) c :: t). split; [done|]. simpl.
      rewrite drop_app_le by (unfold vec_len in *; lia). done.
Qed.

Lemma head_of_app max s c :
  head_of max (s ++ c) = head_of max s ++ take (N.to_nat (max / 2) - length s) c.
Proof. unfold head_of. by rewrite take_app. Qed.

Lemma tail_of_app max s c :
  tail_of max (s ++ c) =
  lastn (N.to_nat (max - max / 2)) (tail_of max s ++ drop (N.to_nat (max / 2) - length s) c).
Proof. unfold tail_of. by rewrite drop_app, lastn_lastn_app. Qed.

Lemma kept_of_le max s : (vec_len (kept_of max s) ≤ vec_len s)%N.
Proof.
  unfold kept_of, head_of, tail_of, vec_len. rewrite length_app, length_take, length_lastn, length_drop. lia.
Qed.

Lemma vec_len_tail_of max s : (vec_len (tail_of max s) ≤ max - max / 2)%N.
Proof. unfold tail_of, vec_len. rewrite length_lastn. lia. Qed.

(** Pushing to the tail once the head is full (or gets no part of the chunk). *)
Lemma push_to_tail_spec max b s c :
  (max ≤ usize_max)%N -> max <> 0%N -> (N.to_nat (max / 2) ≤ length s)%nat ->
  represents max b s -> represents max (push_to_tail c b) (s ++ c).
Proof.
  intros Hmax H0 Hfull [R1 R2 R3 R4 R5 R6 R7 R8].
  assert (head_of max (s ++ c) = head_of max s) as Hhead.
  { rewrite head_of_app. replace (N.to_nat (max / 2) - length s)%nat with 0%nat by lia.
    by rewrite take_0, app_nil_r. }
  assert (tail_of max (s ++ c) = lastn (N.to_nat (max - max / 2)) (tail_of max s ++ c)) as Htail.
  { rewrite tail_of_app. by replace (N.to_nat (max / 2) - length s)%nat with 0%nat by lia. }
  assert (max / 2 < max)%N by (apply N.div_lt; lia).
  pose proof (vec_len_tail_of max s) as Hts. pose proof (kept_of_le max s) as Hks.
  assert (vec_len (kept_of max s) = vec_len (head_of max s) + vec_len (tail_of max s))%N as Hk
    by apply vec_len_app.
  assert (vec_len (kept_of max (s ++ c)) = vec_len (head_of max s) + vec_len (tail_of max (s ++ c)))%N as Hk'
    by (unfold kept_of; rewrite vec_len_app, Hhead; done).
  unfold push_to_tail. rewrite R3. rewrite (proj2 (N.eqb_neq (max - max / 2) 0)) by lia.
  destruct (max - max / 2 <=? vec_len c)%N eqn:Hc; bool_to_prop.
  - assert (drop (N.to_nat (sat_sub (vec_len c) (max - max / 2))) c = tail_of max (s ++ c)) as Hd.
    { rewrite Htail, lastn_app. replace (N.to_nat (max - max / 2) - length c)%nat with 0%nat by (unfold vec_len in *; lia).
      unfold lastn at 1. rewrite Nat.sub_0_r, drop_all, app_nil_l. unfold lastn, sat_sub, vec_len. f_equal. lia. }
    rewrite Hd. constructor; simpl; try done.
    + by rewrite Hhead.
    + by rewrite app_nil_r.
    + by rewrite Hhead.
    + rewrite R8, R7, !sat_add_min, Hk', vec_len_app.
      assert (vec_len (tail_of max (s ++ c)) = max - max / 2)%N as ->.
      { rewrite Htail. unfold vec_len. rewrite length_lastn, length_app. unfold vec_len in *. lia. }
      rewrite Hk. unfold sat_sub. f_equal. lia.
  - unfold trim_tail_to_budget. cbn [tail_bytes tail_budget tail omitted_bytes set_tail].
    assert (sat_add (tail_bytes b) (vec_len c) = vec_len (concat (tail b ++ [c]))) as Htb.
    { rewrite concat_app, R5, R7, vec_len_app. simpl. rewrite app_nil_r. unfold sat_add.
      assert (max - max / 2 ≤ 9223372036854775808)%N; [|unfold usize_max, u64_max; lia].
      pose proof (N.div_mod max 2). pose proof (N.mod_lt max 2). unfold usize_max, u64_max in Hmax. lia. }
    rewrite Htb, R3.
    destruct (trim_loop_spec (sat_sub (vec_len (concat (tail b ++ [c]))) (max - max / 2)) (tail b ++ [c])
                (vec_len (concat (tail b ++ [c]))) (omitted_bytes b)) as (t' & -> & Ht');
      [unfold sat_sub; lia|done|rewrite R8; lia|].
    assert (concat (tail b ++ [c]) = tail_of max s ++ c) as Hcat
      by (rewrite concat_app, R5; simpl; by rewrite app_nil_r).
    rewrite Hcat in *.
    assert (concat t' = tail_of max (s ++ c)) as Ht.
    { rewrite Ht', Htail. unfold lastn, sat_sub, vec_len. f_equal. lia. }
    constructor; simpl; try done.
    + by rewrite Hhead.
    + by rewrite Hhead.
    + rewrite <- Ht, Ht'. unfold vec_len, sat_sub. rewrite length_drop. unfold vec_len. lia.
    + rewrite R8, Hk', <- Ht, Ht'. rewrite vec_len_app in *. rewrite Hk in *.
      assert (vec_len (drop (N.to_nat (sat_sub (vec_len (tail_of max s) + vec_len c) (max - max / 2)))
                (tail_of max s ++ c)) =
              vec_len (tail_of max s) + vec_len c -
              sat_sub (vec_len (tail_of max s) + vec_len c) (max - max / 2))%N as ->.
      { unfold vec_len at 1. rewrite length_drop, length_app. unfold vec_len, sat_sub. lia. }
      rewrite vec_len_app. unfold sat_sub. lia.
Qed.

Lemma push_chunk_represents max b s c :
  (max ≤ usize_max)%N -> represents max b s -> represents max (push_chunk c b) (s ++ c).
Proof.
  intros Hmax R. pose proof R as [R1 R2 R3 R4 R5 R6 R7 R8]. unfold push_chunk. rewrite R1.
  destruct (max =? 0)%N eqn:H0; bool_to_prop.
  { rewrite H0 in R1, R2, R3, R4, R5, R6, R7, R8 |- *. clear R Hmax.
    assert (forall s', head_of 0 s' = [] /\ tail_of 0 s' = []) as Hnil.
    { intros s'. split; [done|]. unfold tail_of, lastn. simpl. rewrite Nat.sub_0_r. apply drop_all. }
    destruct (Hnil s) as [Hh Ht]. destruct (Hnil (s ++ c)) as [Hh' Ht'].
    constructor; simpl; rewrite ?Hh, ?Ht, ?Hh', ?Ht' in *; try done.
    rewrite R8, sat_add_min. unfold kept_of. rewrite Hh, Ht, Hh', Ht', !vec_len_app.
    change (vec_len (@nil byte)) with 0%N. f_equal. lia. }
  rewrite R2, R6.
  assert (vec_len (head_of max s) = N.min (max / 2) (vec_len s)) as Hlen.
  { unfold head_of, vec_len. rewrite length_take. lia. }
  destruct (vec_len (head_of max s) <? max / 2)%N eqn:Hroom; bool_to_prop.
  2: { apply push_to_tail_spec; try done. unfold vec_len in *. lia. }
  assert (length s < N.to_nat (max / 2))%nat as Hs by (unfold vec_len in *; lia).
  assert (sat_sub (max / 2) (vec_len (head_of max s)) = max / 2 - vec_len s)%N as Hrem
    by (unfold sat_sub; lia).
  rewrite Hrem.
  assert (tail_of max s = []) as Hts.
  { unfold tail_of. rewrite drop_ge by lia. unfold lastn. apply drop_nil. }
  assert (head_of max s = s) as Hhs by (unfold head_of; rewrite take_ge by lia; done).
  (* the part of the chunk that still goes to the head *)
  assert (forall c1, (vec_len c1 ≤ max / 2 - vec_len s)%N -> represents max (push_head c1 b) (s ++ c1)) as Hpush.
  { intros c1 Hc1. assert (length (s ++ c1) ≤ N.to_nat (max / 2))%nat as Hsc
      by (rewrite length_app; unfold vec_len in *; lia).
    assert (head_of max (s ++ c1) = s ++ c1) as Hh by (unfold head_of; by rewrite take_ge).
    assert (tail_of max (s ++ c1) = []) as Ht
      by (unfold tail_of; rewrite drop_ge by lia; unfold lastn; apply drop_nil).
    assert (max / 2 ≤ max)%N by (apply N.Div0.div_le_upper_bound; lia).
    constructor; simpl; rewrite ?Hh, ?Ht; try done.
    - rewrite concat_app, R4, Hhs. simpl. by rewrite app_nil_r.
    - by rewrite R5, Hts.
    - rewrite R6, Hhs, vec_len_app. unfold sat_add. lia.
    - by rewrite R7, Hts.
    - rewrite R8. unfold kept_of. rewrite Hh, Ht, Hhs, Hts, !app_nil_r. f_equal. lia. }
  destruct (vec_len c <=? max / 2 - vec_len s)%N eqn:Hc; bool_to_prop; [by apply Hpush|].
  set (k := N.to_nat (max / 2 - vec_len s)).
  assert (0 < k < length c)%nat as Hk by (unfold k, vec_len in *; lia).
  rewrite bool_decide_eq_false_2.
  2: { intros Hnil%(f_equal length). rewrite length_take in Hnil. simpl in Hnil. lia. }
  rewrite <- (take_drop k c) at 3. rewrite app_assoc.
  assert (length (take k c) = k) as Htk by (rewrite length_take; lia).
  apply push_to_tail_spec; try done.
  - rewrite length_app, Htk. unfold k, vec_len in *. lia.
  - apply Hpush. unfold vec_len at 1. rewrite Htk. unfold k, vec_len. lia.
Qed.

Lemma new_represents max : represents max (htb_new max) [].
Proof.
  assert (head_of max [] = []) as Hh by apply take_nil.
  assert (tail_of max [] = []) as Ht by (unfold tail_of; rewrite drop_nil; done).
  constructor; simpl; rewrite ?Hh, ?Ht; done.
Qed.

(** A stream of pushes. *)
Definition push_chunks (b : HeadTailBuffer) (chunks : list (list byte)) : HeadTailBuffer :=
  foldl (fun b c => push_chunk c b) b chunks.

Lemma push_chunks_represents max b s chunks :
  (max ≤ usize_max)%N -> represents max b s -> represents max (push_chunks b chunks) (s ++ concat chunks).
Proof.
  intros Hmax. revert b s. induction chunks as [|c chunks IH]; intros b s R; simpl.
  - by rewrite app_nil_r.
  - rewrite app_assoc. apply IH. by apply push_chunk_represents.
Qed.

(** ** Properties *)

(** C37. Refinement of one push: if a buffer represents a stream, then after
    [push_chunk] it represents the stream extended by the chunk: the head is
    the first [max/2] bytes, the tail the last [max - max/2] bytes of the rest,
    and the byte counters are exact (the omitted counter up to saturation). *)
Theorem push_chunk_refines (max : N) (b : HeadTailBuffer) (s c : list byte) :
  (max ≤ usize_max)%N -> represents max b s -> represents max (push_chunk c b) (s ++ c).
Proof. apply push_chunk_represents. Qed.

(** Whatever the chunk boundaries, a fresh buffer fed with a stream returns
    its first [max/2] bytes followed by its last [max - max/2] remaining bytes;
    retained and omitted bytes add up to the stream's length (below
    saturation), and no more than [max] bytes are ever retained. *)
Theorem to_bytes_head_tail (max : N) (chunks : list (list byte)) :
  (max ≤ usize_max)%N -> (vec_len (concat chunks) ≤ usize_max)%N ->
  let b := push_chunks (htb_new max) chunks in
  to_bytes b = kept_of max (concat chunks) /\
  (vec_len (to_bytes b) ≤ max)%N /\
  retained_bytes b = vec_len (to_bytes b) /\
  (retained_bytes b + omitted_bytes b = vec_len (concat chunks))%N.
Proof.
  intros Hmax Hlen b.
  destruct (push_chunks_represents max (htb_new max) [] chunks Hmax (new_represents max))
    as [R1 R2 R3 R4 R5 R6 R7 R8].
  fold b in R1, R2, R3, R4, R5, R6, R7, R8. simpl app in *. set (s := concat chunks) in *.
  assert (to_bytes b = kept_of max s) as Hb by (unfold to_bytes; by rewrite R4, R5).
  assert (vec_len (kept_of max s) = vec_len (head_of max s) + vec_len (tail_of max s))%N as Hk
    by apply vec_len_app.
  assert (vec_len (head_of max s) ≤ max / 2)%N by (unfold head_of, vec_len; rewrite length_take; lia).
  pose proof (vec_len_tail_of max s). pose proof (kept_of_le max s).
  assert (max / 2 ≤ max)%N by (apply N.Div0.div_le_upper_bound; lia).
  unfold retained_bytes, sat_add. rewrite Hb, R6, R7, R8, Hk. split_and!; [done|lia..].
Qed.

(** Nothing is lost below the limit: a stream of at most [max/2] bytes, or one
    that never exceeds [max] bytes in total, is returned unchanged. *)
Theorem to_bytes_small (max : N) (chunks : list (list byte)) :
  (max ≤ usize_max)%N -> (vec_len (concat chunks) ≤ max)%N ->
  to_bytes (push_chunks (htb_new max) chunks) = concat chunks /\
  omitted_bytes (push_chunks (htb_new max) chunks) = 0%N.
Proof.
  intros Hmax Hlen.
  destruct (push_chunks_represents max (htb_new max) [] chunks Hmax (new_represents max))
    as [_ _ _ R4 R5 _ _ R8]. simpl app in *.
  assert (kept_of max (concat chunks) = concat chunks) as Hkept.
  { unfold kept_of, head_of, tail_of. rewrite lastn_all; [apply take_drop|].
    rewrite length_drop. unfold vec_len in Hlen. lia. }
  split; [unfold to_bytes; rewrite R4, R5; exact Hkept|]. rewrite R8, Hkept. lia.
Qed.

(** [drain_chunks] hands over everything retained and leaves a buffer that
    behaves as a fresh one. *)
Theorem drain_chunks_resets (max : N) (chunks : list (list byte)) :
  (max ≤ usize_max)%N ->
  let b := push_chunks (htb_new max) chunks in
  concat (snd (drain_chunks b)) = to_bytes b /\ fst (drain_chunks b) = htb_new max.
Proof.
  intros Hmax b.
  destruct (push_chunks_represents max (htb_new max) [] chunks Hmax (new_represents max))
    as [R1 R2 R3 _ _ _ _ _]. fold b in R1, R2, R3.
  unfold drain_chunks, htb_new, sat_sub, to_bytes; simpl. rewrite concat_app, R1, R2, R3. done.
Qed.

(** ** Witnesses *)

Definition demo_chunks : list (list byte) := [[1; 2]; []; [3; 4; 5]; [6]; [7; 8; 9]]%N.

Lemma push_chunk_refines_witness :
  represents 5 (push_chunk [1; 2; 3]%N (htb_new 5)) [1; 2; 3]%N.
Proof. apply (push_chunk_refines 5 (htb_new 5) [] [1; 2; 3]%N); [vm_compute; discriminate | apply new_represents]. Defined.

Lemma to_bytes_head_tail_witness :
  to_bytes (push_chunks (htb_new 5) demo_chunks) = [1; 2; 7; 8; 9]%N /\
  to_bytes (push_chunks (htb_new 5) demo_chunks) = kept_of 5 (concat demo_chunks).
Proof.
  split; [vm_compute; reflexivity|].
  apply (to_bytes_head_tail 5 demo_chunks); vm_compute; discriminate.
Defined.

Lemma to_bytes_small_witness :
  to_bytes (push_chunks (htb_new 9) demo_chunks) = concat demo_chunks.
Proof. apply (to_bytes_small 9 demo_chunks); vm_compute; discriminate. Defined.

Lemma drain_chunks_resets_witness :
  fst (drain_chunks (push_chunks (htb_new 5) demo_chunks)) = htb_new 5.
Proof. apply (drain_chunks_resets 5 demo_chunks). vm_compute; discriminate. Defined.
