(* ===== verification/Truncate.v ===== *)
(** * Truncation of strings and of tool output

    Models [codex-rs/utils/string/src/truncate.rs] and the string helpers of
    [codex-rs/utils/string/src/lib.rs] (Module-less first part), and the
    policy-driven truncation of tool output of
    [codex-rs/utils/output-truncation/src/lib.rs] with the policy type of
    [codex-rs/protocol/src/protocol.rs].  Byte offsets are [N] with the
    saturation of the source written out; a slice [&s[..n]] is
    [split_at_byte], whose [None] is the panic on a bad offset, so the
    functions that slice return an [option] and the theorems show that it
    is never [None]. *)

From S2P Require Import Prelude.

Open Scope N_scope.

Definition APPROX_BYTES_PER_TOKEN : N := 4.
Definition ELLIPSIS : char := 8230%N.

Definition approx_token_count (text : str) : N :=
  sat_add (str_len text) (sat_sub APPROX_BYTES_PER_TOKEN 1) / APPROX_BYTES_PER_TOKEN.

Definition approx_bytes_for_tokens (tokens : N) : N := sat_mul tokens APPROX_BYTES_PER_TOKEN.

Definition approx_tokens_from_byte_count (bytes : N) : N :=
  sat_add bytes (sat_sub APPROX_BYTES_PER_TOKEN 1) / APPROX_BYTES_PER_TOKEN.

(** The mutable locals of [split_string]. *)
Record split_state := SplitState {
  prefix_end : N;
  suffix_start : N;
  removed_chars : N;
  suffix_started : bool;
}.

(** One turn of the [char_indices] loop. *)
Definition split_step (beginning_bytes tail_start_target : N) (st : split_state)
    (idx : N) (ch : char) : split_state :=
  let char_end := idx + len_utf8 ch in
  if char_end <=? beginning_bytes then
    SplitState char_end (suffix_start st) (removed_chars st) (suffix_started st)
  else if tail_start_target <=? idx then
    if negb (suffix_started st) then
      SplitState (prefix_end st) idx (removed_chars st) true
    else st
  else
    SplitState (prefix_end st) (suffix_start st) (sat_add (removed_chars st) 1) (suffix_started st).

Fixpoint split_loop (beginning_bytes tail_start_target : N) (st : split_state)
    (idx : N) (s : str) : split_state :=
  match s with
  | [] => st
  | ch :: s' =>
      split_loop beginning_bytes tail_start_target
        (split_step beginning_bytes tail_start_target st idx ch) (idx + len_utf8 ch) s'
  end.

Definition split_string (s : str) (beginning_bytes end_bytes : N) : option (N * str * str) :=
  if bool_decide (s = []) then Some (0, [], [])
  else
    let len := str_len s in
    let tail_start_target := sat_sub len end_bytes in
    let st := split_loop beginning_bytes tail_start_target (SplitState 0 len 0 false) 0 s in
    let suffix_start' :=
      if suffix_start st <? prefix_end st then prefix_end st else suffix_start st in
    '(before, _) ← split_at_byte (prefix_end st) s;
    '(_, after) ← split_at_byte suffix_start' s;
    Some (removed_chars st, before, after).

Definition split_budget (budget : N) : N * N :=
  let left := budget / 2 in
  (left, budget - left).

Definition format_truncation_marker (use_tokens : bool) (removed_count : N) : str :=
  if use_tokens then
    [ELLIPSIS] ++ show_N removed_count ++ lit " tokens truncated" ++ [ELLIPSIS]
  else
    [ELLIPSIS] ++ show_N removed_count ++ lit " chars truncated" ++ [ELLIPSIS].

Definition removed_units (use_tokens : bool) (removed_bytes removed_chars : N) : N :=
  if use_tokens then approx_tokens_from_byte_count removed_bytes
  else N.min removed_chars u64_max.

Definition assemble_truncated_output (prefix suffix marker : str) : str :=
  prefix ++ marker ++ suffix.

Definition truncate_with_byte_estimate (s : str) (max_bytes : N) (use_tokens : bool)
    : option str :=
  if bool_decide (s = []) then Some []
  else
    let total_chars := N.of_nat (length s) in
    if max_bytes =? 0 then
      Some (format_truncation_marker use_tokens
              (removed_units use_tokens (str_len s) total_chars))
    else if str_len s <=? max_bytes then Some s
    else
      let total_bytes := str_len s in
      let '(left_budget, right_budget) := split_budget max_bytes in
      '(removed_chars, before, after) ← split_string s left_budget right_budget;
      let marker := format_truncation_marker use_tokens
          (removed_units use_tokens (sat_sub total_bytes max_bytes) removed_chars) in
      Some (assemble_truncated_output before after marker).

Definition truncate_middle_chars (s : str) (max_bytes : N) : option str :=
  truncate_with_byte_estimate s max_bytes false.

Definition truncate_middle_with_token_budget (s : str) (max_tokens : N)
    : option (str * option N) :=
  if bool_decide (s = []) then Some ([], None)
  else if (0 <? max_tokens) && (str_len s <=? approx_bytes_for_tokens max_tokens) then
    Some (s, None)
  else
    truncated ← truncate_with_byte_estimate s (approx_bytes_for_tokens max_tokens) true;
    let total_tokens := N.min (approx_token_count s) u64_max in
    if truncated =s? s then Some (truncated, None) else Some (truncated, Some total_tokens).

(** ** utils/string/src/lib.rs *)

Fixpoint take_bytes_loop (maxb last_ok i : N) (s : str) : N :=
  match s with
  | [] => last_ok
  | ch :: s' =>
      let nb := i + len_utf8 ch in
      if maxb <? nb then last_ok else take_bytes_loop maxb nb nb s'
  end.

Definition take_bytes_at_char_boundary (s : str) (maxb : N) : option str :=
  if str_len s <=? maxb then Some s
  else fst <$> split_at_byte (take_bytes_loop maxb 0 0 s) s.

Definition metric_tag_char (ch : char) : bool :=
  is_ascii_alphanumeric ch || existsb (N.eqb ch) (lit "._-/").
Definition UNDERSCORE : char := 95%N.
Definition METRIC_TAG_MAX_LEN : N := 256.

Definition sanitize_metric_tag_value (value : str) : option str :=
  let sanitized := (fun ch => if metric_tag_char ch then ch else UNDERSCORE) <$> value in
  let trimmed := trim_matches UNDERSCORE sanitized in
  if bool_decide (trimmed = []) || forallb (fun ch => negb (is_ascii_alphanumeric ch)) trimmed then
    Some (lit "unspecified")
  else if str_len trimmed <=? METRIC_TAG_MAX_LEN then Some trimmed
  else fst <$> split_at_byte METRIC_TAG_MAX_LEN trimmed.

Definition parse_markdown_hash_location_point (point : str) : option (str * option str) :=
  point ← strip_prefix (lit "L") point;
  match split_once 67 point with
  | Some (line, column) => Some (line, Some column)
  | None => Some (point, None)
  end.

Definition push_column (normalized : str) (column : option str) : str :=
  match column with
  | Some column => normalized ++ lit ":" ++ column
  | None => normalized
  end.

Definition normalize_markdown_hash_location_suffix (suffix : str) : option str :=
  fragment ← strip_prefix (lit "#") suffix;
  let '(start, end_) :=
    match split_once MINUS fragment with
    | Some (start, end_) => (start, Some end_)
    | None => (fragment, None)
    end in
  '(start_line, start_column) ← parse_markdown_hash_location_point start;
  let normalized := push_column (lit ":" ++ start_line) start_column in
  match end_ with
  | Some end_ =>
      '(end_line, end_column) ← parse_markdown_hash_location_point end_;
      Some (push_column (normalized ++ lit "-" ++ end_line) end_column)
  | None => Some normalized
  end.

(** ** Truncation policies *)

Inductive TruncationPolicy :=
| Bytes (bytes : N)
| Tokens (tokens : N).

Definition token_budget (p : TruncationPolicy) : N :=
  match p with
  | Bytes bytes => N.min (approx_tokens_from_byte_count bytes) usize_max
  | Tokens tokens => tokens
  end.

Definition byte_budget (p : TruncationPolicy) : N :=
  match p with
  | Bytes bytes => bytes
  | Tokens tokens => approx_bytes_for_tokens tokens
  end.

Definition truncate_text (content : str) (policy : TruncationPolicy) : option str :=
  match policy with
  | Bytes bytes => truncate_middle_chars content bytes
  | Tokens tokens => fst <$> truncate_middle_with_token_budget content tokens
  end.

Definition formatted_truncate_text (content : str) (policy : TruncationPolicy) : option str :=
  if str_len content <=? byte_budget policy then Some content
  else
    let total_lines := length (str_lines content) in
    result ← truncate_text content policy;
    Some (lit "Total output lines: " ++ show_nat total_lines ++ [LF; LF] ++ result).

Inductive ImageDetail := Auto | Low | High | Original.

Inductive FunctionCallOutputContentItem :=
| InputText (text : str)
| InputImage (image_url : str) (detail : option ImageDetail)
| EncryptedContent (encrypted_content : str).

Definition item_text (item : FunctionCallOutputContentItem) : option str :=
  match item with
  | InputText text => Some text
  | InputImage _ _ | EncryptedContent _ => None
  end.

Definition item_non_text (item : FunctionCallOutputContentItem)
    : option FunctionCallOutputContentItem :=
  match item with
  | InputImage image_url detail => Some (InputImage image_url detail)
  | EncryptedContent encrypted_content => Some (EncryptedContent encrypted_content)
  | InputText _ => None
  end.

Fixpoint combine_segments (combined : str) (segments : list str) : str :=
  match segments with
  | [] => combined
  | text :: segments' =>
      let combined := if bool_decide (combined = []) then combined else combined ++ [LF] in
      combine_segments (combined ++ text) segments'
  end.

Definition formatted_truncate_text_content_items_with_policy
    (items : list FunctionCallOutputContentItem) (policy : TruncationPolicy)
    : option (list FunctionCallOutputContentItem * option N) :=
  let text_segments := omap item_text items in
  if bool_decide (text_segments = []) then Some (items, None)
  else
    let combined := combine_segments [] text_segments in
    if str_len combined <=? byte_budget policy then Some (items, None)
    else
      text ← formatted_truncate_text combined policy;
      Some (InputText text :: omap item_non_text items, Some (approx_token_count combined)).

Definition text_cost (policy : TruncationPolicy) (text : str) : N :=
  match policy with
  | Bytes _ => str_len text
  | Tokens _ => approx_token_count text
  end.

Definition snippet_policy (policy : TruncationPolicy) (remaining_budget : N) : TruncationPolicy :=
  match policy with
  | Bytes _ => Bytes remaining_budget
  | Tokens _ => Tokens remaining_budget
  end.

(** The item loop: [(out, omitted_text_items)] from the items, the remaining
    budget and the text items omitted so far. *)
Fixpoint truncate_items_loop (policy : TruncationPolicy) (remaining_budget : N)
    (omitted_text_items : nat) (out : list FunctionCallOutputContentItem)
    (items : list FunctionCallOutputContentItem)
    : option (list FunctionCallOutputContentItem * nat) :=
  match items with
  | [] => Some (out, omitted_text_items)
  | item :: items' =>
      match item with
      | InputText text =>
          if remaining_budget =? 0 then
            truncate_items_loop policy remaining_budget (S omitted_text_items) out items'
          else
            let cost := text_cost policy text in
            if cost <=? remaining_budget then
              truncate_items_loop policy (sat_sub remaining_budget cost) omitted_text_items
                (out ++ [InputText text]) items'
            else
              snippet ← truncate_text text (snippet_policy policy remaining_budget);
              if bool_decide (snippet = []) then
                truncate_items_loop policy 0 (S omitted_text_items) out items'
              else
                truncate_items_loop policy 0 omitted_text_items (out ++ [InputText snippet]) items'
      | InputImage image_url detail =>
          truncate_items_loop policy remaining_budget omitted_text_items
            (out ++ [InputImage image_url detail]) items'
      | EncryptedContent encrypted_content =>
          truncate_items_loop policy remaining_budget omitted_text_items
            (out ++ [EncryptedContent encrypted_content]) items'
      end
  end.

Definition omitted_notice (omitted_text_items : nat) : list FunctionCallOutputContentItem :=
  if bool_decide (0 < omitted_text_items)%nat then
    [InputText (lit "[omitted " ++ show_nat omitted_text_items ++ lit " text items ...]")]
  else [].

Definition truncate_function_output_items_with_policy
    (items : list FunctionCallOutputContentItem) (policy : TruncationPolicy)
    : option (list FunctionCallOutputContentItem) :=
  let remaining_budget :=
    match policy with
    | Bytes _ => byte_budget policy
    | Tokens _ => token_budget policy
    end in
  '(out, omitted_text_items) ← truncate_items_loop policy remaining_budget 0 [] items;
  Some (out ++ omitted_notice omitted_text_items).

Definition approx_tokens_from_byte_count_i64 (bytes : Z) : Z :=
  if (bytes <=? 0)%Z then 0%Z
  else
    let bytes := N.min (Z.to_N bytes) usize_max in
    Z.min (Z.of_N (approx_tokens_from_byte_count bytes)) i64_max.

(** ** Lemmas on byte lengths *)

Lemma str_len_length (s : str) : N.of_nat (length s) <= str_len s.
Proof.
  induction s as [|c s IH]; [reflexivity|]. cbn [length str_len].
  pose proof (len_utf8_pos c). lia.
Qed.

Lemma str_len_nil (s : str) : str_len s = 0 <-> s = [].
Proof. destruct s as [|c s]; simpl; [done|]. pose proof (len_utf8_pos c). split; [lia|done]. Qed.

(** ** The split *)

(** [before], [middle], [after] is the split of [s] that keeps the longest
    prefix of at most [b] bytes and, of what is left, the longest suffix of
    at most [e] bytes, both on character boundaries. *)
Record greedy_split (s : str) (b e : N) (before middle after : str) : Prop := {
  gs_app : s = before ++ middle ++ after;
  gs_before : str_len before <= b;
  gs_before_max : forall c t, middle ++ after = c :: t -> b < str_len before + len_utf8 c;
  gs_after : str_len after <= e;
  gs_after_max : forall t c, middle = t ++ [c] -> e < len_utf8 c + str_len after;
}.

(** Once the suffix has started nothing changes any more. *)
Lemma split_loop_started (b tgt idx : N) (st : split_state) (s : str) :
  b <= idx -> tgt <= idx -> suffix_started st = true -> split_loop b tgt st idx s = st.
Proof.
  revert idx. induction s as [|c s IH]; intros idx Hb Ht Hs; [done|].
  cbn [split_loop]. pose proof (len_utf8_pos c).
  assert (split_step b tgt st idx c = st) as ->.
  { unfold split_step. rewrite (proj2 (N.leb_gt _ _)) by lia.
    rewrite (proj2 (N.leb_le _ _)) by lia. by rewrite Hs. }
  apply IH; [lia|lia|done].
Qed.

(** After the prefix and before the suffix. *)
Lemma split_loop_middle (b tgt idx pe rm : N) (s : str) :
  (forall c t, s = c :: t -> b < idx + len_utf8 c) -> rm + N.of_nat (length s) <= usize_max ->
  exists middle after, s = middle ++ after
    /\ split_loop b tgt (SplitState pe (idx + str_len s) rm false) idx s
       = SplitState pe (idx + str_len middle) (rm + N.of_nat (length middle)) (bool_decide (after <> []))
    /\ (after <> [] -> tgt <= idx + str_len middle)
    /\ (forall t c, middle = t ++ [c] -> idx + str_len t < tgt).
Proof.
  revert idx rm. induction s as [|c s IH]; intros idx rm Hb Hrm.
  - exists [], []. cbn. split_and!; [done| |done|by intros [|]].
    f_equal; lia.
  - specialize (Hb c s eq_refl). pose proof (len_utf8_pos c). cbn [split_loop].
    unfold split_step at 1. rewrite (proj2 (N.leb_gt _ _)) by lia.
    destruct (tgt <=? idx) eqn:Ht; bool_to_prop; cbn [negb suffix_started prefix_end removed_chars suffix_start].
    + exists [], (c :: s). rewrite split_loop_started by (simpl; lia || done).
      split_and!; [done| |cbn; lia|by intros [|]]. cbn. f_equal; lia.
    + assert (sat_add rm 1 = rm + 1) as ->.
      { unfold sat_add. cbn [length] in Hrm. lia. }
      destruct (IH (idx + len_utf8 c) (rm + 1)) as (m & a & -> & Hl & Ha & Hm).
      { intros d t ?. pose proof (len_utf8_pos d). lia. }
      { cbn [length] in Hrm. lia. }
      exists (c :: m), a. split_and!; [done| | |].
      * cbn [str_len]. rewrite N.add_assoc, Hl. f_equal; cbn [length]; lia.
      * intros ?. cbn. specialize (Ha H0). lia.
      * intros [|d t] x Heq; simplify_eq/=; [lia|]. specialize (Hm t x eq_refl). lia.
Qed.

Lemma split_loop_spec (b tgt idx pe : N) (s : str) :
  idx <= b -> N.of_nat (length s) <= usize_max ->
  exists before middle after, s = before ++ middle ++ after
    /\ split_loop b tgt (SplitState pe (idx + str_len s) 0 false) idx s
       = SplitState (if decide (before = []) then pe else idx + str_len before)
           (idx + str_len before + str_len middle) (N.of_nat (length middle))
           (bool_decide (after <> []))
    /\ idx + str_len before <= b
    /\ (forall c t, middle ++ after = c :: t -> b < idx + str_len before + len_utf8 c)
    /\ (after <> [] -> tgt <= idx + str_len before + str_len middle)
    /\ (forall t c, middle = t ++ [c] -> idx + str_len before + str_len t < tgt).
Proof.
  revert idx pe. induction s as [|c s IH]; intros idx pe Hb Hl.
  - exists [], [], []. cbn. split_and!; [done| |lia|done|done|by intros [|]]. f_equal; lia.
  - destruct (idx + len_utf8 c <=? b) eqn:Hc; bool_to_prop.
    + cbn [split_loop]. unfold split_step at 1. rewrite (proj2 (N.leb_le _ _)) by lia.
      cbn [suffix_start removed_chars suffix_started str_len]. rewrite N.add_assoc.
      destruct (IH (idx + len_utf8 c) (idx + len_utf8 c)) as (p & m & a & -> & Hs & H1 & H2 & H3 & H4);
        [done|cbn [length] in Hl; lia|].
      exists (c :: p), m, a. cbn [str_len]. rewrite !N.add_assoc. split_and!; [done| |done|done|done|done].
      rewrite Hs, (decide_False (P := c :: p = [])) by done.
      destruct (decide (p = [])) as [->|]; f_equal; cbn; lia.
    + destruct (split_loop_middle b tgt idx pe 0 (c :: s)) as (m & a & Heq & Hs & Ha & Hm).
      { intros ? ? ?; by simplify_eq. } { lia. }
      exists [], m, a. cbn [str_len app]. rewrite !N.add_0_r. split_and!; [done|done|done| |done|done].
      rewrite <- Heq. intros ? ? ?; by simplify_eq.
Qed.

(** The split never slices inside a character and is the greedy one. *)
Lemma split_string_greedy (s : str) (b e : N) :
  str_len s <= usize_max ->
  exists before middle after,
    split_string s b e = Some (N.of_nat (length middle), before, after)
    /\ greedy_split s b e before middle after.
Proof.
  intros Hlen. unfold split_string. case_bool_decide as Hs.
  { subst. exists [], [], []. split; [done|]. split; simpl; try lia; [done|done|by intros [|]]. }
  pose proof (str_len_length s).
  destruct (split_loop_spec b (sat_sub (str_len s) e) 0 0 s)
    as (p & m & a & Heq & Hst & H1 & H2 & H3 & H4); [lia|lia|].
  rewrite !N.add_0_l in Hst. rewrite Hst. cbn [suffix_start prefix_end removed_chars].
  assert ((if decide (p = []) then 0 else str_len p) = str_len p) as ->.
  { destruct (decide (p = [])) as [->|]; done. }
  rewrite (proj2 (N.ltb_ge _ _)) by lia.
  exists p, m, a. split.
  - rewrite Heq at 1. rewrite split_at_byte_app. simpl.
    rewrite app_assoc in Heq. rewrite Heq, <- str_len_app, split_at_byte_app. done.
  - subst s. unfold sat_sub in *. rewrite !str_len_app in *. split; [done|done|intros c t Hc; specialize (H2 c t Hc); lia| |].
    + destruct (decide (a = [])) as [->|Ha]; [simpl; lia|]. specialize (H3 Ha). lia.
    + intros t c ->. specialize (H4 t c eq_refl). rewrite str_len_app in H4. cbn [str_len] in H4. lia.
Qed.

(** Either the text fits, or it becomes the greedy prefix, a marker that
    counts what was removed, and the greedy suffix. *)
Lemma truncate_estimate_cases (s : str) (max_bytes : N) (use_tokens : bool) :
  str_len s <= usize_max ->
  (s = [] \/ 0 < max_bytes /\ str_len s <= max_bytes)
  /\ truncate_with_byte_estimate s max_bytes use_tokens = Some s
  \/ s <> [] /\ (max_bytes = 0 \/ max_bytes < str_len s)
     /\ exists before middle after,
       greedy_split s (max_bytes / 2) (max_bytes - max_bytes / 2) before middle after
       /\ middle <> []
       /\ truncate_with_byte_estimate s max_bytes use_tokens
          = Some (before ++ format_truncation_marker use_tokens
                    (if use_tokens then approx_tokens_from_byte_count (str_len s - max_bytes)
                     else N.of_nat (length middle)) ++ after).
Proof.
  intros Hlen. pose proof (str_len_length s) as Hl. unfold usize_max in *.
  unfold truncate_with_byte_estimate, removed_units.
  case_bool_decide as Hs; [left; subst; by split; [left|]|].
  destruct (max_bytes =? 0) eqn:H0; bool_to_prop.
  { right. subst. split_and!; [done|by left|]. exists [], s, []. split_and!; [|done|].
    - split; [by rewrite app_nil_r|done| |done|].
      + intros c t Hc. pose proof (len_utf8_pos c). change (0 / 2) with 0. simpl. lia.
      + intros t c _. pose proof (len_utf8_pos c). change (0 / 2) with 0. simpl. lia.
    - rewrite app_nil_r, N.sub_0_r. cbn [app]. destruct use_tokens; [done|].
      by rewrite N.min_l by lia. }
  destruct (str_len s <=? max_bytes) eqn:Hm; bool_to_prop.
  { left. split; [right; lia|done]. }
  right. split_and!; [done|by right|]. cbn [split_budget].
  destruct (split_string_greedy s (max_bytes / 2) (max_bytes - max_bytes / 2))
    as (p & m & a & -> & Hg); [done|].
  exists p, m, a. split_and!; [done| |].
  - intros ->. destruct Hg as [-> Hp _ Ha _]. rewrite !str_len_app in *. simpl in Hm.
    pose proof (N.Div0.div_le_upper_bound max_bytes 2 max_bytes). lia.
  - cbn [mbind option_bind]. unfold assemble_truncated_output, sat_sub. destruct use_tokens; [done|].
    destruct Hg as [-> _ _ _ _]. rewrite !length_app in Hl. by rewrite N.min_l by lia.
Qed.

(** The prefix loop finds the longest prefix within the byte budget. *)
Lemma take_bytes_loop_spec (maxb i : N) (s : str) :
  i <= maxb ->
  exists p r, s = p ++ r /\ take_bytes_loop maxb i i s = i + str_len p
    /\ i + str_len p <= maxb
    /\ (forall c t, r = c :: t -> maxb < i + str_len p + len_utf8 c).
Proof.
  revert i. induction s as [|c s IH]; intros i Hi; cbn [take_bytes_loop].
  - exists [], []. cbn. split_and!; [done|lia|lia|done].
  - destruct (maxb <? i + len_utf8 c) eqn:Hc; bool_to_prop.
    + exists [], (c :: s). cbn. split_and!; [done|lia|lia|]. intros ? ? ?; simplify_eq. lia.
    + destruct (IH _ Hc) as (p & r & -> & -> & ? & ?).
      exists (c :: p), r. cbn [str_len]. rewrite !N.add_assoc. done.
Qed.

(** ** Lemmas on metric tags *)

Lemma metric_tag_char_ascii (c : char) : metric_tag_char c = true -> c < 128.
Proof.
  unfold metric_tag_char, is_ascii_alphanumeric, is_ascii_digit, is_ascii_uppercase, is_ascii_lowercase.
  rewrite !orb_true_iff, !andb_true_iff, !N.leb_le.
  intros [H|H]; [lia|]. apply existsb_exists in H as (x & Hx & Heq%N.eqb_eq). subst x.
  cbn in Hx. repeat destruct Hx as [<-|Hx]; lia || done.
Qed.

Lemma str_len_ascii (s : str) :
  Forall (fun c => metric_tag_char c = true) s -> str_len s = N.of_nat (length s).
Proof.
  induction 1 as [|c s Hc _ IH]; [done|]. cbn [str_len length]. rewrite IH.
  apply metric_tag_char_ascii in Hc. unfold len_utf8. rewrite (proj2 (N.ltb_lt _ _)) by done. lia.
Qed.

Lemma trim_matches_Forall (P : char -> Prop) (c : char) (s : str) :
  Forall P s -> Forall P (trim_matches c s).
Proof.
  intros H. unfold trim_matches.
  destruct (drop_while_suffix (N.eqb c) s) as (pre & Heq & _). rewrite Heq in H.
  apply Forall_app in H as [_ H].
  destruct (drop_end_while_prefix (N.eqb c) (drop_while (N.eqb c) s)) as (suf & Heq' & _).
  rewrite Heq' in H. by apply Forall_app in H as [H _].
Qed.

Lemma trim_matches_head (c d : char) (s : str) : head (trim_matches c s) = Some d -> d <> c.
Proof.
  unfold trim_matches. destruct (drop_while (N.eqb c) s) as [|x t] eqn:Hd; [done|].
  pose proof (drop_while_head _ _ _ _ Hd) as Hx. apply N.eqb_neq in Hx.
  destruct (drop_end_while_prefix (N.eqb c) (x :: t)) as (suf & Heq & Hall).
  destruct (drop_end_while _ _) as [|y u]; [done|]. simplify_eq/=. congruence.
Qed.

(** ** Lemmas on output items *)

Lemma combine_segments_acc (acc : str) (segs : list str) :
  acc <> [] -> combine_segments acc segs = join [LF] (acc :: segs).
Proof.
  revert acc. induction segs as [|t segs IH]; intros acc Hne; [done|].
  cbn [combine_segments]. rewrite bool_decide_eq_false_2 by done.
  rewrite IH by (destruct acc; done). destruct segs; simpl; by rewrite <- ?app_assoc.
Qed.

(** The segments are joined with newlines, leading empty ones dropped. *)
Lemma combine_segments_join (segs : list str) :
  combine_segments [] segs = join [LF] (drop_while (fun t => bool_decide (t = [])) segs).
Proof.
  induction segs as [|t segs IH]; [done|]. cbn [combine_segments drop_while].
  rewrite bool_decide_eq_true_2 by done. case_bool_decide as Ht; [by subst|].
  by apply combine_segments_acc.
Qed.

Definition items_cost (policy : TruncationPolicy) (items : list FunctionCallOutputContentItem) : N :=
  foldr (fun t n => text_cost policy t + n) 0 (omap item_text items).

(** With no budget left the loop keeps exactly the items that are not text. *)
Lemma truncate_items_loop_spent (policy : TruncationPolicy) (k : nat)
    (out items : list FunctionCallOutputContentItem) :
  truncate_items_loop policy 0 k out items
  = Some (out ++ omap item_non_text items, (k + length (omap item_text items))%nat).
Proof.
  revert k out. induction items as [|[t|u d|e] items IH]; intros k out; simpl.
  - by rewrite app_nil_r, Nat.add_0_r.
  - rewrite IH. by rewrite Nat.add_succ_r.
  - rewrite IH. by rewrite <- app_assoc.
  - rewrite IH. by rewrite <- app_assoc.
Qed.

Lemma format_marker_app_ne (b : bool) (n : N) (p a : str) :
  p ++ format_truncation_marker b n ++ a <> [].
Proof. intros H. apply app_eq_nil in H as [_ H]. by destruct b. Qed.

(** A text over its budget is truncated to something that is not empty. *)
Lemma truncate_text_over (policy : TruncationPolicy) (budget : N) (text : str) :
  str_len text <= usize_max - 4 -> 0 < budget -> budget < text_cost policy text ->
  exists snippet, truncate_text text (snippet_policy policy budget) = Some snippet /\ snippet <> [].
Proof.
  intros Hl Hb Hc. unfold usize_max, u64_max in Hl.
  assert (text <> []) as Hne by (intros ->; assert (text_cost policy [] = 0) by (by destruct policy); lia).
  destruct policy; cbn [snippet_policy truncate_text text_cost] in *.
  - unfold truncate_middle_chars.
    destruct (truncate_estimate_cases text budget false) as [[_ ->]|(_ & _ & p & m & a & _ & _ & ->)];
      [unfold usize_max, u64_max; lia|by eexists|]. eexists; split; [done|]. apply format_marker_app_ne.
  - unfold truncate_middle_with_token_budget. rewrite bool_decide_eq_false_2 by done.
    destruct (_ && _); [by eexists|].
    destruct (truncate_estimate_cases text (approx_bytes_for_tokens budget) true)
      as [[_ ->]|(_ & _ & p & m & a & _ & _ & ->)]; [unfold usize_max, u64_max; lia| |];
      cbn [mbind option_bind].
    + rewrite bool_decide_eq_true_2 by done. by exists text.
    + eexists; split; [by case_bool_decide|]. apply format_marker_app_ne.
Qed.

(** What the item loop may turn [items] into under [budget]: [body] and the
    number of text items left out.  Everything fits; or the budget is used up
    exactly before some text, and the later texts go; or some text is cut to
    what is left and the later texts go. *)
Inductive items_truncated (policy : TruncationPolicy) (budget : N)
    (items : list FunctionCallOutputContentItem) : list FunctionCallOutputContentItem -> nat -> Prop :=
| it_all :
    items_cost policy items <= budget -> items_truncated policy budget items items 0
| it_spent kept text rest :
    items = kept ++ InputText text :: rest -> items_cost policy kept = budget ->
    items_truncated policy budget items
      (kept ++ omap item_non_text rest) (S (length (omap item_text rest)))
| it_cut kept text rest snippet :
    items = kept ++ InputText text :: rest ->
    items_cost policy kept < budget < items_cost policy kept + text_cost policy text ->
    truncate_text text (snippet_policy policy (budget - items_cost policy kept)) = Some snippet ->
    snippet <> [] ->
    items_truncated policy budget items
      (kept ++ InputText snippet :: omap item_non_text rest) (length (omap item_text rest)).

Lemma items_cost_cons (policy : TruncationPolicy) (item : FunctionCallOutputContentItem)
    (items : list FunctionCallOutputContentItem) :
  items_cost policy (item :: items)
  = from_option (text_cost policy) 0 (item_text item) + items_cost policy items.
Proof. by destruct item. Qed.

Lemma items_truncated_cons (policy : TruncationPolicy) (budget : N)
    (item : FunctionCallOutputContentItem) (items body : list FunctionCallOutputContentItem) (k : nat) :
  let cost := from_option (text_cost policy) 0 (item_text item) in
  cost <= budget -> items_truncated policy (budget - cost) items body k ->
  items_truncated policy budget (item :: items) (item :: body) k.
Proof.
  intros cost Hle. pose proof (items_cost_cons policy item) as Hc. fold cost in Hc.
  intros [Hall|kept text rest -> Hk|kept text rest sn -> Hk Ht Hne].
  - apply it_all. rewrite Hc. lia.
  - apply (it_spent _ _ _ (item :: kept) text rest); [done|]. rewrite Hc. lia.
  - apply (it_cut _ _ _ (item :: kept) text rest sn); [done|rewrite Hc; lia| |done].
    by rewrite Hc, N.sub_add_distr.
Qed.

Lemma truncate_items_loop_spec (policy : TruncationPolicy) (budget : N)
    (out items : list FunctionCallOutputContentItem) :
  Forall (fun t => str_len t <= usize_max - 4) (omap item_text items) ->
  exists body k, truncate_items_loop policy budget 0 out items = Some (out ++ body, k)
    /\ items_truncated policy budget items body k.
Proof.
  revert budget out. induction items as [|item items IH]; intros budget out Hall.
  { exists [], 0%nat. split; [by rewrite app_nil_r|]. apply it_all. cbn. lia. }
  assert (forall cost, cost = from_option (text_cost policy) 0 (item_text item) -> cost <= budget ->
    truncate_items_loop policy budget 0 out (item :: items)
    = truncate_items_loop policy (budget - cost) 0 (out ++ [item]) items ->
    exists body k, truncate_items_loop policy budget 0 out (item :: items) = Some (out ++ body, k)
      /\ items_truncated policy budget (item :: items) body k) as Hkeep.
  { intros cost -> Hle ->.
    destruct (IH (budget - from_option (text_cost policy) 0 (item_text item)) (out ++ [item]))
      as (body & k & -> & Hbody); [destruct item; by inversion Hall|].
    exists (item :: body), k. split; [by rewrite <- app_assoc|]. by apply items_truncated_cons. }
  destruct item as [t|u d|e].
  - destruct (budget =? 0) eqn:H0; bool_to_prop.
    { subst. eexists _, _. split; [apply truncate_items_loop_spent|].
      by apply (it_spent _ _ _ [] t items). }
    destruct (text_cost policy t <=? budget) eqn:Hc.
    + apply (Hkeep (text_cost policy t)); [done|by apply N.leb_le|]. cbn [truncate_items_loop].
      by rewrite (proj2 (N.eqb_neq _ _) H0), Hc.
    + bool_to_prop. destruct (truncate_text_over policy budget t) as (sn & Hsn & Hne);
        [by inversion Hall|lia|lia|].
      eexists ([] ++ InputText sn :: omap item_non_text items), _. split.
      * cbn [truncate_items_loop]. rewrite (proj2 (N.eqb_neq _ _) H0), (proj2 (N.leb_gt _ _)) by lia.
        rewrite Hsn. cbn [mbind option_bind]. rewrite bool_decide_eq_false_2 by done.
        rewrite truncate_items_loop_spent. by rewrite <- app_assoc.
      * apply (it_cut _ _ _ [] t items); [done|cbn; lia| |done]. by rewrite N.sub_0_r.
  - apply (Hkeep 0); [done|lia|]. cbn [truncate_items_loop]. by rewrite N.sub_0_r.
  - apply (Hkeep 0); [done|lia|]. cbn [truncate_items_loop]. by rewrite N.sub_0_r.
Qed.

(** ** Properties *)

(** [truncate_middle_chars] never panics.  A text that fits its byte
    budget is returned as it is; any other text becomes the longest prefix
    within half of the budget, a marker with the exact number of characters
    that were removed, and the longest suffix within the other half, all cut
    on character boundaries. *)
Theorem truncate_middle_chars_spec (s : str) (max_bytes : N) :
  str_len s <= usize_max ->
  (s = [] \/ 0 < max_bytes /\ str_len s <= max_bytes) /\ truncate_middle_chars s max_bytes = Some s
  \/ s <> [] /\ (max_bytes = 0 \/ max_bytes < str_len s)
     /\ exists before middle after,
       greedy_split s (max_bytes / 2) (max_bytes - max_bytes / 2) before middle after
       /\ middle <> []
       /\ truncate_middle_chars s max_bytes
          = Some (before ++ [ELLIPSIS] ++ show_nat (length middle) ++ lit " chars truncated"
                    ++ [ELLIPSIS] ++ after).
Proof.
  intros Hl. destruct (truncate_estimate_cases s max_bytes false Hl)
    as [?|(? & ? & p & m & a & ? & ? & Heq)]; [by left|right].
  split_and!; [done|done|]. exists p, m, a. split_and!; [done|done|].
  unfold truncate_middle_chars. rewrite Heq. unfold format_truncation_marker.
  by rewrite <- !app_assoc.
Qed.

Definition demo_text : str := lit "hello " ++ [233; 128512] ++ lit " world".

Lemma truncate_middle_chars_witness :
  str_len demo_text = 18
  /\ ((demo_text = [] \/ 0 < 9 /\ str_len demo_text <= 9) /\ truncate_middle_chars demo_text 9 = Some demo_text
     \/ demo_text <> [] /\ (9 = 0 \/ 9 < str_len demo_text)
     /\ exists before middle after,
       greedy_split demo_text (9 / 2) (9 - 9 / 2) before middle after
       /\ middle <> []
       /\ truncate_middle_chars demo_text 9
          = Some (before ++ [ELLIPSIS] ++ show_nat (length middle) ++ lit " chars truncated"
                    ++ [ELLIPSIS] ++ after))
  /\ truncate_middle_chars demo_text 9
     = Some (lit "hell" ++ [ELLIPSIS] ++ lit "5 chars truncated" ++ [ELLIPSIS] ++ lit "world").
Proof.
  split; [reflexivity|]. split; [|reflexivity].
  apply (truncate_middle_chars_spec demo_text 9). vm_compute. discriminate.
Defined.

(** The token estimates, where the saturation does not show. *)
Lemma approx_tokens_exact (n : N) :
  n <= usize_max - 4 -> approx_tokens_from_byte_count n = (n + 3) / 4.
Proof.
  unfold approx_tokens_from_byte_count, sat_add, sat_sub, APPROX_BYTES_PER_TOKEN, usize_max, u64_max.
  intros H. by rewrite N.min_l by lia.
Qed.

Lemma approx_token_count_exact (s : str) :
  str_len s <= usize_max - 4 -> N.min (approx_token_count s) u64_max = (str_len s + 3) / 4.
Proof.
  intros H. change (approx_token_count s) with (approx_tokens_from_byte_count (str_len s)).
  rewrite approx_tokens_exact by done. apply N.min_l, N.Div0.div_le_upper_bound.
  unfold usize_max, u64_max in *. lia.
Qed.

Lemma approx_bytes_exact (t : N) : 4 * t <= usize_max -> approx_bytes_for_tokens t = 4 * t.
Proof. unfold approx_bytes_for_tokens, sat_mul, APPROX_BYTES_PER_TOKEN. lia. Qed.

Lemma approx_bytes_le (n t : N) :
  n <= usize_max -> n <= approx_bytes_for_tokens t <-> n <= 4 * t.
Proof. unfold approx_bytes_for_tokens, sat_mul, APPROX_BYTES_PER_TOKEN. lia. Qed.

(** [truncate_middle_with_token_budget] never panics, reports the original
    token estimate (a quarter of the byte length, rounded up) exactly when the
    text it returns differs from its input, and returns the input as it is
    when that fits four bytes per token. *)
Theorem truncate_token_budget_spec (s : str) (max_tokens : N) :
  str_len s <= usize_max - 4 ->
  exists out, truncate_middle_with_token_budget s max_tokens
      = Some (out, if decide (out = s) then None else Some ((str_len s + 3) / 4))
    /\ (0 < max_tokens -> str_len s <= 4 * max_tokens -> out = s)
    /\ (4 * max_tokens < str_len s ->
        exists before middle after,
          greedy_split s (2 * max_tokens) (2 * max_tokens) before middle after
          /\ middle <> []
          /\ out = before ++ [ELLIPSIS] ++ show_N ((str_len s - 4 * max_tokens + 3) / 4)
                   ++ lit " tokens truncated" ++ [ELLIPSIS] ++ after).
Proof.
  intros Hl. unfold truncate_middle_with_token_budget.
  case_bool_decide as Hs; [subst; exists []; split_and!; [done|done|cbn; lia]|].
  destruct ((0 <? max_tokens) && (str_len s <=? approx_bytes_for_tokens max_tokens)) eqn:Hfit.
  - bool_to_prop. exists s. rewrite decide_True by done. split_and!; [done|done|].
    rewrite approx_bytes_le in * by lia. lia.
  - assert (max_tokens = 0 \/ 4 * max_tokens < str_len s) as Hover.
    { apply andb_false_iff in Hfit as [H|H]; bool_to_prop; [left; lia|right].
      pose proof (approx_bytes_le (str_len s) max_tokens). lia. }
    rewrite (approx_bytes_exact max_tokens) by lia. clear Hfit.
    pose proof (proj1 (N.neq_0_lt_0 _) (fun H => Hs (proj1 (str_len_nil s) H))) as Hpos.
    destruct (truncate_estimate_cases s (4 * max_tokens) true)
      as [[[?|?] _]|(_ & _ & p & m & a & Hg & Hm & ->)]; [lia|done|lia|].
    cbn [mbind option_bind]. rewrite approx_token_count_exact by done.
    rewrite approx_tokens_exact by lia.
    remember (p ++ _) as out eqn:Hout. exists out. split_and!; [|lia|].
    + destruct (decide (out = s)) as [He|He];
        [by rewrite (bool_decide_eq_true_2 _ He)|by rewrite (bool_decide_eq_false_2 _ He)].
    + intros _. exists p, m, a.
      assert (4 * max_tokens / 2 = 2 * max_tokens) as Hhalf.
      { replace (4 * max_tokens) with (2 * max_tokens * 2) by lia. by apply N.div_mul. }
      rewrite Hhalf in Hg. replace (4 * max_tokens - 2 * max_tokens) with (2 * max_tokens) in Hg by lia.
      split_and!; [done|done|]. rewrite Hout.
      unfold format_truncation_marker. by rewrite <- !app_assoc.
Qed.

Lemma truncate_token_budget_witness :
  exists out, truncate_middle_with_token_budget demo_text 2
      = Some (out, if decide (out = demo_text) then None else Some ((str_len demo_text + 3) / 4))
    /\ (0 < 2 -> str_len demo_text <= 4 * 2 -> out = demo_text)
    /\ (4 * 2 < str_len demo_text ->
        exists before middle after,
          greedy_split demo_text (2 * 2) (2 * 2) before middle after
          /\ middle <> []
          /\ out = before ++ [ELLIPSIS] ++ show_N ((str_len demo_text - 4 * 2 + 3) / 4)
                   ++ lit " tokens truncated" ++ [ELLIPSIS] ++ after).
Proof. apply (truncate_token_budget_spec demo_text 2). vm_compute. discriminate. Defined.

(** [truncate_function_output_items_with_policy] never panics and returns
    one of three shapes, in the order of its input: everything, when the texts
    fit the budget; a prefix whose texts use the budget up exactly; or a prefix
    followed by one text cut to the rest of the budget.  In the last two the
    later items that are not text are all kept, the later texts dropped, and
    their number is reported in one final text. *)
Theorem truncate_items_spec (items : list FunctionCallOutputContentItem) (policy : TruncationPolicy) :
  Forall (fun t => str_len t <= usize_max - 4) (omap item_text items) ->
  exists body omitted,
    truncate_function_output_items_with_policy items policy = Some (body ++ omitted_notice omitted)
    /\ items_truncated policy (match policy with Bytes b => b | Tokens t => t end) items body omitted.
Proof.
  intros Hall. unfold truncate_function_output_items_with_policy.
  destruct (truncate_items_loop_spec policy (match policy with Bytes b => b | Tokens t => t end) [] items Hall)
    as (body & k & Heq & Hb).
  exists body, k. split; [|done]. destruct policy; cbn [byte_budget token_budget]; by rewrite Heq.
Qed.

Definition demo_items : list FunctionCallOutputContentItem :=
  [InputText (lit "abc"); InputImage (lit "img") None; InputText (lit "defghijkl");
   InputText (lit "xyz"); EncryptedContent (lit "enc")].

Lemma truncate_items_witness :
  (exists body omitted,
    truncate_function_output_items_with_policy demo_items (Bytes 7) = Some (body ++ omitted_notice omitted)
    /\ items_truncated (Bytes 7) 7 demo_items body omitted)
  /\ truncate_function_output_items_with_policy demo_items (Bytes 7)
     = Some [InputText (lit "abc"); InputImage (lit "img") None;
             InputText (lit "de" ++ [ELLIPSIS] ++ lit "5 chars truncated" ++ [ELLIPSIS] ++ lit "kl");
             EncryptedContent (lit "enc"); InputText (lit "[omitted 1 text items ...]")].
Proof.
  split; [|reflexivity]. apply (truncate_items_spec demo_items (Bytes 7)).
  repeat constructor; vm_compute; discriminate.
Defined.

(** [sanitize_metric_tag_value] never panics; its result is between one and
    256 bytes long, made only of ASCII letters, digits and [. _ - /], and does
    not start with an underscore; a value that already has this form, does not
    end in an underscore and has a letter or digit is returned unchanged. *)
Theorem sanitize_metric_tag_value_valid (value : str) :
  exists out, sanitize_metric_tag_value value = Some out
    /\ Forall (fun c => metric_tag_char c = true) out
    /\ 1 <= str_len out <= 256
    /\ head out <> Some UNDERSCORE
    /\ (Forall (fun c => metric_tag_char c = true) value -> str_len value <= 256 ->
        head value <> Some UNDERSCORE -> last value <> Some UNDERSCORE ->
        existsb is_ascii_alphanumeric value = true -> out = value).
Proof.
  unfold sanitize_metric_tag_value.
  set (san := (fun ch => if metric_tag_char ch then ch else UNDERSCORE) <$> value).
  assert (Forall (fun c => metric_tag_char c = true) (trim_matches UNDERSCORE san)) as Hok.
  { apply trim_matches_Forall. subst san. apply Forall_fmap, Forall_true. intros c. simpl.
    by destruct (metric_tag_char c) eqn:?. }
  assert (Forall (fun c => metric_tag_char c = true) value ->
    head value <> Some UNDERSCORE -> last value <> Some UNDERSCORE ->
    trim_matches UNDERSCORE san = value) as Hid.
  { intros Hv Hh Hla. assert (san = value) as ->.
    { subst san. clear -Hv. induction Hv as [|c v Hc _ IH]; simpl; [done|]. rewrite Hc. f_equal. exact IH. }
    unfold trim_matches. assert (drop_while (N.eqb UNDERSCORE) value = value) as ->.
    { destruct value as [|c v]; [done|]. cbn [drop_while]. rewrite (proj2 (N.eqb_neq _ _)); [done|].
      intros <-. by apply Hh. }
    apply drop_end_while_keep. intros c Hc. apply N.eqb_neq. congruence. }
  pose proof (fun d => trim_matches_head UNDERSCORE d san) as Hhead.
  destruct (trim_matches UNDERSCORE san) as [|c t] eqn:Htr.
  { exists (lit "unspecified"). split_and!; try done; [by repeat constructor|].
    intros ? ? ? ? Hex. rewrite <- Hid in Hex by done. done. }
  rewrite bool_decide_eq_false_2 by done. cbn [orb].
  assert (head (c :: t) <> Some UNDERSCORE) as Hh by (intros H; by apply (Hhead _ H)).
  destruct (forallb _ _) eqn:Hna.
  { exists (lit "unspecified"). split_and!; try done; [by repeat constructor|].
    intros ? ? ? ? Hex. rewrite <- Hid in Hex by done.
    apply existsb_exists in Hex as (x & Hin & Hx).
    eapply forallb_forall in Hna; [|exact Hin]. by rewrite Hx in Hna. }
  pose proof (str_len_ascii _ Hok) as Hlen.
  destruct (str_len (c :: t) <=? METRIC_TAG_MAX_LEN) eqn:Hle; unfold METRIC_TAG_MAX_LEN in *; bool_to_prop.
  { exists (c :: t). split_and!; [done|done|rewrite Hlen; cbn [length]; lia|lia|done|]. intros. by apply Hid. }
  assert (split_at_byte 256 (c :: t) = Some (take 256 (c :: t), drop 256 (c :: t))) as ->.
  { replace 256 with (str_len (take 256 (c :: t))) at 1.
    - rewrite <- (take_drop 256 (c :: t)) at 2. apply split_at_byte_app.
    - rewrite str_len_ascii by (by apply Forall_take). rewrite length_take. lia. }
  exists (take 256 (c :: t)). split_and!; [done|by apply Forall_take| | |done|].
  - rewrite str_len_ascii by (by apply Forall_take). rewrite length_take. cbn [length]. lia.
  - rewrite str_len_ascii by (by apply Forall_take). rewrite length_take. lia.
  - intros. rewrite Hid in * by done. simplify_eq. lia.
Qed.

(** [take_bytes_at_char_boundary] never panics and returns the longest prefix
    of whole characters within the byte budget. *)
Theorem take_bytes_longest_prefix (s : str) (maxb : N) :
  exists p r, s = p ++ r /\ take_bytes_at_char_boundary s maxb = Some p
    /\ str_len p <= maxb /\ (forall c t, r = c :: t -> maxb < str_len p + len_utf8 c).
Proof.
  unfold take_bytes_at_char_boundary. destruct (str_len s <=? maxb) eqn:Hs; bool_to_prop.
  { exists s, []. by rewrite app_nil_r. }
  destruct (take_bytes_loop_spec maxb 0 s) as (p & r & -> & Hl & Hp & Hm); [lia|].
  rewrite Hl, N.add_0_l, split_at_byte_app. exists p, r. split_and!; [done|done|lia|].
  intros c t Hc. specialize (Hm c t Hc). lia.
Qed.

(** The combined texts of a result over budget become one truncated text in
    front, the other items follow in order; within budget nothing changes. *)
Theorem formatted_truncate_items_spec (items : list FunctionCallOutputContentItem) (policy : TruncationPolicy) :
  let combined := join [LF] (drop_while (fun t => bool_decide (t = [])) (omap item_text items)) in
  (omap item_text items = [] \/ str_len combined <= byte_budget policy ->
   formatted_truncate_text_content_items_with_policy items policy = Some (items, None))
  /\ (omap item_text items <> [] -> byte_budget policy < str_len combined ->
      formatted_truncate_text_content_items_with_policy items policy
      = text ← truncate_text combined policy;
        Some (InputText (lit "Total output lines: " ++ show_nat (length (str_lines combined))
                         ++ [LF; LF] ++ text) :: omap item_non_text items,
              Some (approx_token_count combined))).
Proof.
  intros combined. unfold formatted_truncate_text_content_items_with_policy.
  rewrite combine_segments_join. fold combined. split.
  - intros H. case_bool_decide; [done|]. destruct H as [|H]; [done|]. by rewrite (proj2 (N.leb_le _ _)).
  - intros Hne Hlt. rewrite bool_decide_eq_false_2 by done. unfold formatted_truncate_text.
    rewrite (proj2 (N.leb_gt _ _)) by done. by destruct (truncate_text combined policy).
Qed.

(** Splitting at the first separator. *)
Lemma split_once_app (x : char) (s t : str) :
  x ∉ s -> split_once x (s ++ x :: t) = Some (s, t).
Proof.
  induction s as [|c s IH]; intros Hx; cbn [split_once app]; [by rewrite N.eqb_refl|].
  rewrite (proj2 (N.eqb_neq _ _)) by set_solver. by rewrite IH by set_solver.
Qed.

Lemma digits_no_char (x : char) (s : str) :
  is_ascii_digit x = false -> Forall (fun c => is_ascii_digit c = true) s -> x ∉ s.
Proof. intros Hx Hs Hin. eapply Forall_forall in Hs; [|exact Hin]. congruence. Qed.

Lemma parse_location_point (l c : str) :
  Forall (fun c => is_ascii_digit c = true) l ->
  parse_markdown_hash_location_point (lit "L" ++ l ++ lit "C" ++ c) = Some (l, Some c).
Proof.
  intros Hl. unfold parse_markdown_hash_location_point. rewrite strip_prefix_app.
  cbn [mbind option_bind]. change (lit "C" ++ c) with (67 :: c).
  rewrite split_once_app; [done|]. by apply digits_no_char.
Qed.

(** A markdown location [#L<line>C<col>-L<line>C<col>] becomes
    [:<line>:<col>-<line>:<col>]. *)
Theorem normalize_markdown_range (l1 c1 l2 c2 : str) :
  Forall (fun c => is_ascii_digit c = true) (l1 ++ c1 ++ l2 ++ c2) ->
  normalize_markdown_hash_location_suffix
    (lit "#" ++ (lit "L" ++ l1 ++ lit "C" ++ c1) ++ lit "-" ++ lit "L" ++ l2 ++ lit "C" ++ c2)
  = Some (lit ":" ++ l1 ++ lit ":" ++ c1 ++ lit "-" ++ l2 ++ lit ":" ++ c2).
Proof.
  rewrite !Forall_app. intros (H1 & H2 & H3 & H4). unfold normalize_markdown_hash_location_suffix.
  rewrite strip_prefix_app. cbn [mbind option_bind].
  change (lit "-" ++ ?x) with (MINUS :: x). rewrite split_once_app.
  - rewrite parse_location_point by done. cbn [mbind option_bind].
    rewrite parse_location_point by done. cbn [mbind option_bind push_column].
    by rewrite <- !app_assoc.
  - rewrite !not_elem_of_app. split_and!; try (by apply digits_no_char); apply (bool_decide_unpack _); done.
Qed.
