(* ===== verification/ContextFragments.v ===== *)
(** * Injected context: [context-fragments/src], [core/src/context], [core/src/event_mapping.rs]

    The session puts context into the conversation as messages of role [user] and
    recognises them again by their text, so that they do not count as turns of the
    user.  A fragment type has markers, a body and a recogniser
    ([ContextualUserFragment]); [CONTEXTUAL_USER_FRAGMENTS] is the table of
    recognisers.  The theorem is the round trip: what is injected is recognised.
    The XML reader of hook prompts is third-party code, the argument [from_xml_str]
    of the definitions that use it. *)

From S2P Require Import Prelude Truncate.

(** ** Message content: [protocol/src/models.rs] *)

Inductive ContentItem : Type :=
| CInputText (text : str)
| CInputImage (image_url : str) (detail : option ImageDetail)
| COutputText (text : str).

(** ** Markers: [context-fragments/src/fragment.rs] *)

(** [s.get(..n)] and [s.get(n..)]; [None] off a character boundary or the end. *)
Definition get_to (n : N) (s : str) : option str := fst <$> split_at_byte n s.
Definition get_from (n : N) (s : str) : option str := snd <$> split_at_byte n s.
Definition is_some_and {A} (p : A -> bool) (o : option A) : bool := from_option p false o.

Definition matches_marked_text (start_marker end_marker text : str) : bool :=
  if (start_marker =s? []) || (end_marker =s? []) then false
  else
    let trimmed := trim_start text in
    let starts_with_marker :=
      is_some_and (fun candidate => eq_ignore_ascii_case candidate start_marker)
        (get_to (str_len start_marker) trimmed) in
    let trimmed := trim_end trimmed in
    let ends_with_marker :=
      is_some_and (fun candidate => eq_ignore_ascii_case candidate end_marker)
        (get_from (sat_sub (str_len trimmed) (str_len end_marker)) trimmed) in
    starts_with_marker && ends_with_marker.

(** The trait; [body] is [None] where rendering panics. *)
Class ContextualUserFragment (F : Type) : Type := {
  role : F -> str;
  type_markers : F -> str * str;
  body : F -> option str;
  matches_text : F -> str -> bool
}.

Definition render {F} `{ContextualUserFragment F} (f : F) : option str :=
  let '(start_marker, end_marker) := type_markers f in
  b ← body f;
  if (start_marker =s? []) && (end_marker =s? []) then Some b else Some (start_marker ++ b ++ end_marker).

(** ** The fragments of [core/src/context] and [core-skills] *)

Record UserInstructions : Type := mkUserInstructions { ui_directory : str; ui_text : str }.
Definition user_instructions_markers : str * str := (lit "# AGENTS.md instructions for ", lit "</INSTRUCTIONS>").
Definition user_instructions_body (f : UserInstructions) : str :=
  ui_directory f ++ [LF; LF] ++ lit "<INSTRUCTIONS>" ++ [LF] ++ ui_text f ++ [LF].

(** The body of the environment context is given as text. *)
Record EnvironmentContext : Type := mkEnvironment { env_body : str }.
Definition environment_context_markers : str * str := (lit "<environment_context>", lit "</environment_context>").

Record SkillInstructions : Type := mkSkill { skill_name : str; skill_path : str; skill_contents : str }.
Definition skill_markers : str * str := (lit "<skill>", lit "</skill>").
Definition skill_body (f : SkillInstructions) : str :=
  [LF] ++ lit "<name>" ++ skill_name f ++ lit "</name>" ++ [LF] ++ lit "<path>" ++ skill_path f ++ lit "</path>" ++ [LF]
  ++ skill_contents f ++ [LF].

(** [usc_exit_code] and [usc_duration] are the formatted numbers. *)
Record UserShellCommand : Type := mkShellCommand {
  usc_command : str; usc_exit_code : str; usc_duration : str; usc_output : str
}.
Definition user_shell_markers : str * str := (lit "<user_shell_command>", lit "</user_shell_command>").
Definition user_shell_body (f : UserShellCommand) : str :=
  [LF] ++ lit "<command>" ++ [LF] ++ usc_command f ++ [LF] ++ lit "</command>" ++ [LF] ++ lit "<result>" ++ [LF]
  ++ lit "Exit code: " ++ usc_exit_code f ++ [LF] ++ lit "Duration: " ++ usc_duration f ++ lit " seconds" ++ [LF]
  ++ lit "Output:" ++ [LF] ++ usc_output f ++ [LF] ++ lit "</result>" ++ [LF].

Record TurnAborted : Type := mkTurnAborted { guidance : str }.
Definition turn_aborted_markers : str * str := (lit "<turn_aborted>", lit "</turn_aborted>").
Definition turn_aborted_body (f : TurnAborted) : str := [LF] ++ guidance f ++ [LF].

(** [sn_json]: the JSON object of the agent and its status. *)
Record SubagentNotification : Type := mkSubagent { sn_json : str }.
Definition subagent_markers : str * str := (lit "<subagent_notification>", lit "</subagent_notification>").
Definition subagent_body (f : SubagentNotification) : str := [LF] ++ sn_json f ++ [LF].

(** *** [context-fragments/src/additional_context.rs] *)

Definition MAX_ADDITIONAL_CONTEXT_VALUE_TOKENS : N := 1000.
Definition ADDITIONAL_CONTEXT_END_MARKER_SUFFIX : char := 62%N.
Definition ADDITIONAL_CONTEXT_START_MARKER_PREFIX : str := lit "<external_".
Record AdditionalContextUserFragment : Type := mkAdditional { ac_key : str; ac_value : str }.
Definition additional_context_body (key value : str) : option str :=
  '(value, _) ← truncate_middle_with_token_budget value MAX_ADDITIONAL_CONTEXT_VALUE_TOKENS;
  Some (key ++ lit ">" ++ value ++ lit "</external_" ++ key).
Definition additional_context_developer_body (key value : str) : option str :=
  '(value, _) ← truncate_middle_with_token_budget value MAX_ADDITIONAL_CONTEXT_VALUE_TOKENS;
  Some (lit "<" ++ key ++ lit ">" ++ value ++ lit "</" ++ key ++ lit ">").
Definition additional_matches_text (text : str) : bool :=
  match strip_prefix ADDITIONAL_CONTEXT_START_MARKER_PREFIX (trim text) with
  | None => false
  | Some rest =>
      match split_once ADDITIONAL_CONTEXT_END_MARKER_SUFFIX rest with
      | None => false
      | Some (key, value_and_close) => ends_with (lit "</external_" ++ key ++ lit ">") value_and_close
      end
  end.

(** *** [internal_model_context.rs] *)

Definition DQUOTE : char := 34%N.
Definition CONTEXT_START_MARKER : str := lit "<codex_internal_context".
Definition CONTEXT_END_MARKER : str := lit "</codex_internal_context>".
Definition LEGACY_GOAL_CONTEXT_START_MARKER : str := lit "<goal_context>".
Definition LEGACY_GOAL_CONTEXT_END_MARKER : str := lit "</goal_context>".
Definition SOURCE_ATTR_START : str := lit " source=" ++ [DQUOTE].
Definition SOURCE_ATTR_END : str := [DQUOTE] ++ lit ">".

Definition is_valid_source (source : str) : bool :=
  match source with
  | [] => false
  | first :: chars =>
      is_ascii_lowercase first
      && forallb (fun ch => is_ascii_lowercase ch || is_ascii_digit ch || (ch =? 95)%N) chars
  end.
Record InternalModelContextFragment : Type := mkInternal { im_source : str; im_body : str }.
(** [InternalContextSource::new]; [None] is the error. *)
Definition internal_context_new (source text : str) : option InternalModelContextFragment :=
  if is_valid_source source then Some (mkInternal source text) else None.
Definition internal_body (f : InternalModelContextFragment) : str :=
  SOURCE_ATTR_START ++ im_source f ++ SOURCE_ATTR_END ++ [LF] ++ im_body f ++ [LF].
Definition matches_legacy_goal_context (text : str) : bool :=
  starts_with LEGACY_GOAL_CONTEXT_START_MARKER text && ends_with LEGACY_GOAL_CONTEXT_END_MARKER text.
Definition internal_matches_text (text : str) : bool :=
  let trimmed := trim text in
  if matches_legacy_goal_context trimmed then true
  else match strip_prefix CONTEXT_START_MARKER trimmed with
       | None => false
       | Some rest =>
           match strip_prefix SOURCE_ATTR_START rest with
           | None => false
           | Some rest =>
               match find_sub SOURCE_ATTR_END rest with
               | None => false
               | Some (source, body_and_close) => is_valid_source source && ends_with CONTEXT_END_MARKER body_and_close
               end
           end
       end.

(** *** Legacy warnings *)

Definition legacy_apply_patch_matches (text : str) : bool :=
  let trimmed := trim text in
  starts_with (lit "Warning: apply_patch was requested via ") trimmed
  && ends_with (lit "Use the apply_patch tool instead of exec_command.") trimmed.
Definition legacy_model_mismatch_matches (text : str) : bool :=
  starts_with (lit "Warning: Your account was flagged for potentially high-risk cyber activity") (trim text).
Definition legacy_process_limit_matches (text : str) : bool :=
  starts_with (lit "Warning: The maximum number of unified exec processes you can keep open is") (trim text).

(** ** The instances *)

(** A fragment type with the default recogniser. *)
Definition marked {F} (markers : str * str) (text : F -> str) : ContextualUserFragment F :=
  {| role _ := lit "user"; type_markers _ := markers; body f := Some (text f);
     matches_text _ := matches_marked_text markers.1 markers.2 |}.

#[export] Instance user_instructions_fragment : ContextualUserFragment UserInstructions :=
  marked user_instructions_markers user_instructions_body.
#[export] Instance environment_context_fragment : ContextualUserFragment EnvironmentContext :=
  marked environment_context_markers env_body.
#[export] Instance skill_fragment : ContextualUserFragment SkillInstructions := marked skill_markers skill_body.
#[export] Instance user_shell_fragment : ContextualUserFragment UserShellCommand :=
  marked user_shell_markers user_shell_body.
#[export] Instance turn_aborted_fragment : ContextualUserFragment TurnAborted :=
  marked turn_aborted_markers turn_aborted_body.
#[export] Instance subagent_fragment : ContextualUserFragment SubagentNotification :=
  marked subagent_markers subagent_body.
#[export] Instance additional_fragment : ContextualUserFragment AdditionalContextUserFragment :=
  {| role _ := lit "user";
     type_markers _ := (ADDITIONAL_CONTEXT_START_MARKER_PREFIX, [ADDITIONAL_CONTEXT_END_MARKER_SUFFIX]);
     body f := additional_context_body (ac_key f) (ac_value f);
     matches_text _ := additional_matches_text |}.
#[export] Instance internal_fragment : ContextualUserFragment InternalModelContextFragment :=
  {| role _ := lit "user"; type_markers _ := (CONTEXT_START_MARKER, CONTEXT_END_MARKER);
     body f := Some (internal_body f); matches_text _ := internal_matches_text |}.

(** [CONTEXTUAL_USER_FRAGMENTS]: the recognisers, in the order of the table. *)
Definition marked_text (m : str * str) : str -> bool := matches_marked_text m.1 m.2.
Definition CONTEXTUAL_USER_FRAGMENTS : list (str -> bool) :=
  [ marked_text user_instructions_markers; marked_text environment_context_markers; additional_matches_text;
    marked_text skill_markers; marked_text user_shell_markers; marked_text turn_aborted_markers;
    marked_text subagent_markers; internal_matches_text; legacy_process_limit_matches;
    legacy_apply_patch_matches; legacy_model_mismatch_matches ].
Definition is_standard_contextual_user_text (text : str) : bool :=
  existsb (fun fragment => fragment text) CONTEXTUAL_USER_FRAGMENTS.

(** ** Messages: [contextual_user_message.rs], [event_mapping.rs], [protocol/src/items.rs] *)

Definition CONTEXTUAL_DEVELOPER_PREFIXES : list str :=
  [ lit "<permissions instructions>"; lit "<model_switch>"; lit "<collaboration_mode>"; lit "<realtime_conversation>";
    lit "<personality_spec>" ].
Definition is_contextual_dev_fragment (content_item : ContentItem) : bool :=
  match content_item with
  | CInputText text =>
      let trimmed := trim_start text in
      existsb (fun prefix => is_some_and (fun candidate => eq_ignore_ascii_case candidate prefix)
                               (get_to (str_len prefix) trimmed)) CONTEXTUAL_DEVELOPER_PREFIXES
  | _ => false
  end.
Definition is_contextual_dev_message_content (message : list ContentItem) : bool :=
  existsb is_contextual_dev_fragment message.
Definition has_non_contextual_dev_message_content (message : list ContentItem) : bool :=
  existsb (fun content_item => negb (is_contextual_dev_fragment content_item)) message.

Record HookPromptFragment : Type := mkHook { hook_text : str; hook_run_id : str }.

Section hooks.
(** [quick_xml]'s reader of a [HookPromptXml]: its text and run id. *)
Context (from_xml_str : str -> option (str * str)).

Definition parse_hook_prompt_fragment (text : str) : option HookPromptFragment :=
  '(text, hook_run_id) ← from_xml_str (trim text);
  if trim hook_run_id =s? [] then None else Some (mkHook text hook_run_id).

Definition is_contextual_user_fragment (content_item : ContentItem) : bool :=
  match content_item with
  | CInputText text => bool_decide (is_Some (parse_hook_prompt_fragment text)) || is_standard_contextual_user_text text
  | _ => false
  end.
Definition is_contextual_user_message_content (message : list ContentItem) : bool :=
  existsb is_contextual_user_fragment message.

(** [parse_visible_hook_prompt_message]: the fragments of a message that is a hook
    prompt, other injected context aside. *)
Fixpoint hook_fragments (content : list ContentItem) : option (list HookPromptFragment) :=
  match content with
  | [] => Some []
  | CInputText text :: content =>
      match parse_hook_prompt_fragment text with
      | Some fragment => cons fragment <$> hook_fragments content
      | None => if is_standard_contextual_user_text text then hook_fragments content else None
      end
  | _ :: _ => None
  end.
Definition parse_visible_hook_prompt_message (content : list ContentItem) : option (list HookPromptFragment) :=
  match hook_fragments content with
  | Some [] | None => None
  | Some fragments => Some fragments
  end.
End hooks.

(** ** What is injected is recognised *)

Lemma trim_start_id (s : str) : (forall c, head s = Some c -> is_whitespace c = false) -> trim_start s = s.
Proof. unfold trim_start. destruct s as [|c s]; [done|]. intros Hc. cbn [drop_while]. by rewrite (Hc c). Qed.
Lemma trim_end_id (s : str) : (forall c, last s = Some c -> is_whitespace c = false) -> trim_end s = s.
Proof. apply drop_end_while_keep. Qed.

(** A text in markers that no blanks surround. *)
Record framed (s e text : str) : Prop := {
  framed_start : exists c s', s = c :: s' /\ is_whitespace c = false;
  framed_end : exists e' c, e = e' ++ [c] /\ is_whitespace c = false;
  framed_text : exists b, text = s ++ b ++ e
}.

Lemma framed_trim s e text : framed s e text -> trim_start text = text /\ trim_end text = text /\ trim text = text.
Proof.
  intros [(c & s' & -> & Hc) (e' & d & -> & Hd) (b & ->)].
  assert (trim_start ((c :: s') ++ b ++ e' ++ [d]) = (c :: s') ++ b ++ e' ++ [d]) as Hs.
  { apply trim_start_id. cbn. by intros ? [= <-]. }
  assert (trim_end ((c :: s') ++ b ++ e' ++ [d]) = (c :: s') ++ b ++ e' ++ [d]) as He.
  { apply trim_end_id. intros x. rewrite !app_assoc, last_snoc. by intros [= <-]. }
  split_and!; [done..|]. unfold trim. by rewrite Hs, He.
Qed.

Lemma matches_marked_framed s e text : framed s e text -> matches_marked_text s e text = true.
Proof.
  intros Hf. destruct (framed_trim _ _ _ Hf) as (Hs & He & _).
  destruct Hf as [(c & s' & Hsc & _) (e' & d & Hed & _) (b & Htext)].
  unfold matches_marked_text. rewrite (bool_decide_eq_false_2 (s = [])) by (by rewrite Hsc).
  rewrite (bool_decide_eq_false_2 (e = [])) by (rewrite Hed; by destruct e'). cbn [orb]. rewrite Hs, He.
  unfold get_to, get_from, sat_sub. rewrite Htext, split_at_byte_app. cbn [fmap option_fmap option_map fst is_some_and from_option].
  rewrite !str_len_app. replace (str_len s + (str_len b + str_len e) - str_len e)%N with (str_len (s ++ b))
    by (rewrite str_len_app; lia).
  rewrite app_assoc, split_at_byte_app. cbn. unfold eq_ignore_ascii_case. by rewrite !bool_decide_eq_true_2.
Qed.

Lemma split_once_first c s r : c ∉ s -> split_once c (s ++ c :: r) = Some (s, r).
Proof.
  induction s as [|x s IH]; intros Hc; cbn [app split_once].
  - by rewrite N.eqb_refl.
  - apply not_elem_of_cons in Hc as [Hx Hs]. rewrite (proj2 (N.eqb_neq x c)) by congruence. by rewrite IH.
Qed.

Lemma find_sub_first n m s r : n ∉ s -> find_sub (n :: m) (s ++ (n :: m) ++ r) = Some (s, r).
Proof.
  induction s as [|x s IH]; intros Hs.
  - cbn [app find_sub]. change (n :: m ++ r) with ((n :: m) ++ r). by rewrite strip_prefix_app.
  - apply not_elem_of_cons in Hs as [Hx Hs]. cbn [app find_sub].
    destruct (strip_prefix (n :: m) (x :: _)) eqn:E; [apply strip_prefix_Some in E; by injection E as -> _|].
    change (n :: m ++ r) with ((n :: m) ++ r). by rewrite IH.
Qed.

Lemma valid_source_no_quote source : is_valid_source source = true -> DQUOTE ∉ source.
Proof.
  assert (forall ch, is_ascii_lowercase ch || is_ascii_digit ch || (ch =? 95)%N = true -> ch <> DQUOTE) as Hch
    by (by intros ch Hc ->).
  destruct source as [|c source]; [done|]. cbn [is_valid_source]. intros [Hc Hs]%andb_true_iff.
  apply not_elem_of_cons. split; [intros <-; done|]. intros Hin. rewrite forallb_forall in Hs.
  apply list_elem_of_In, Hs in Hin. by apply Hch in Hin.
Qed.

Lemma internal_recognised f :
  is_valid_source (im_source f) = true -> internal_matches_text (CONTEXT_START_MARKER ++ internal_body f ++ CONTEXT_END_MARKER) = true.
Proof.
  intros Hsrc. unfold internal_matches_text.
  assert (framed CONTEXT_START_MARKER CONTEXT_END_MARKER (CONTEXT_START_MARKER ++ internal_body f ++ CONTEXT_END_MARKER)) as Hf.
  { split; [by eexists _, _| |by eexists]. by exists (lit "</codex_internal_context"), 62%N. }
  destruct (framed_trim _ _ _ Hf) as (_ & _ & ->). destruct (matches_legacy_goal_context _); [done|].
  rewrite strip_prefix_app. unfold internal_body. rewrite <- !app_assoc, strip_prefix_app.
  change SOURCE_ATTR_END with (DQUOTE :: lit ">"). rewrite find_sub_first by (by apply valid_source_no_quote). rewrite Hsrc. cbn [andb].
  unfold ends_with. apply bool_decide_eq_true_2. eexists. apply strip_suffix_Some.
  rewrite !app_assoc. reflexivity.
Qed.

Lemma additional_recognised key value :
  ADDITIONAL_CONTEXT_END_MARKER_SUFFIX ∉ key ->
  additional_matches_text (ADDITIONAL_CONTEXT_START_MARKER_PREFIX ++ (key ++ lit ">" ++ value ++ lit "</external_" ++ key)
                             ++ [ADDITIONAL_CONTEXT_END_MARKER_SUFFIX]) = true.
Proof.
  intros Hk. unfold additional_matches_text.
  assert (framed ADDITIONAL_CONTEXT_START_MARKER_PREFIX [ADDITIONAL_CONTEXT_END_MARKER_SUFFIX]
    (ADDITIONAL_CONTEXT_START_MARKER_PREFIX ++ (key ++ lit ">" ++ value ++ lit "</external_" ++ key)
       ++ [ADDITIONAL_CONTEXT_END_MARKER_SUFFIX])) as Hf.
  { split; [by eexists _, _| |by eexists]. by exists [], ADDITIONAL_CONTEXT_END_MARKER_SUFFIX. }
  destruct (framed_trim _ _ _ Hf) as (_ & _ & ->). rewrite strip_prefix_app.
  change (lit ">") with [ADDITIONAL_CONTEXT_END_MARKER_SUFFIX]. rewrite <- !app_assoc. cbn [app].
  rewrite split_once_first by done. apply bool_decide_eq_true_2. eexists. apply strip_suffix_Some. reflexivity.
Qed.

(** ** The injected fragments together *)

Inductive InjectedFragment : Type :=
| InjUserInstructions (f : UserInstructions)
| InjEnvironment (f : EnvironmentContext)
| InjAdditional (f : AdditionalContextUserFragment)
| InjSkill (f : SkillInstructions)
| InjShellCommand (f : UserShellCommand)
| InjTurnAborted (f : TurnAborted)
| InjSubagent (f : SubagentNotification)
| InjInternal (f : InternalModelContextFragment).

Definition injected_text (f : InjectedFragment) : option str :=
  match f with
  | InjUserInstructions f => render f
  | InjEnvironment f => render f
  | InjAdditional f => render f
  | InjSkill f => render f
  | InjShellCommand f => render f
  | InjTurnAborted f => render f
  | InjSubagent f => render f
  | InjInternal f => render f
  end.

(** Internal sources are checked by their constructor; keys are not checked. *)
Definition injected_ok (f : InjectedFragment) : bool :=
  match f with
  | InjAdditional f => negb (contains_char ADDITIONAL_CONTEXT_END_MARKER_SUFFIX (ac_key f))
  | InjInternal f => is_valid_source (im_source f)
  | _ => true
  end.

Lemma standard_at n recogniser text :
  CONTEXTUAL_USER_FRAGMENTS !! n = Some recogniser -> recogniser text = true -> is_standard_contextual_user_text text = true.
Proof.
  intros Hn Ht. apply existsb_exists. exists recogniser. split; [|done].
  apply list_elem_of_In. by eapply list_elem_of_lookup_2.
Qed.

Lemma marked_recognised {F} (m : str * str) (t : F -> str) n f text :
  CONTEXTUAL_USER_FRAGMENTS !! n = Some (marked_text m) ->
  (exists c s, m.1 = c :: s /\ is_whitespace c = false) -> (exists e c, m.2 = e ++ [c] /\ is_whitespace c = false) ->
  @render F (marked m t) f = Some text -> is_standard_contextual_user_text text = true.
Proof.
  intros Hn Hs He Hr. apply (standard_at n _ _ Hn). unfold marked_text. apply matches_marked_framed.
  split; [done|done|]. exists (t f). unfold render in Hr. cbn in Hr. destruct m as [s e]. cbn in *.
  destruct Hs as (c & s' & -> & _). rewrite (bool_decide_eq_false_2 (c :: s' = [])) in Hr by done. cbn in Hr.
  by injection Hr as <-.
Qed.

Lemma injected_recognised f text :
  injected_ok f = true -> injected_text f = Some text -> is_standard_contextual_user_text text = true.
Proof.
  destruct f as [f|f|f|f|f|f|f|f]; cbn [injected_ok injected_text]; intros Hok Hr.
  - eapply (marked_recognised _ _ 0); [reflexivity|by eexists _, _|by exists (lit "</INSTRUCTIONS"), 62%N|exact Hr].
  - eapply (marked_recognised _ _ 1); [reflexivity|by eexists _, _|by exists (lit "</environment_context"), 62%N|exact Hr].
  - unfold render in Hr. cbn [type_markers additional_fragment body] in Hr. unfold additional_context_body in Hr.
    destruct (truncate_middle_with_token_budget _ _) as [[v o]|]; [|done].
    cbn [mbind option_bind] in Hr. rewrite andb_false_intro1 in Hr by done. injection Hr as <-.
    apply (standard_at 2 _ _ eq_refl). apply additional_recognised.
    apply negb_true_iff in Hok. intros Hin. rewrite <- not_true_iff_false in Hok. apply Hok.
    apply existsb_exists. exists ADDITIONAL_CONTEXT_END_MARKER_SUFFIX. by rewrite <- list_elem_of_In.
  - eapply (marked_recognised _ _ 3); [reflexivity|by eexists _, _|by exists (lit "</skill"), 62%N|exact Hr].
  - eapply (marked_recognised _ _ 4); [reflexivity|by eexists _, _|by exists (lit "</user_shell_command"), 62%N|exact Hr].
  - eapply (marked_recognised _ _ 5); [reflexivity|by eexists _, _|by exists (lit "</turn_aborted"), 62%N|exact Hr].
  - eapply (marked_recognised _ _ 6); [reflexivity|by eexists _, _|by exists (lit "</subagent_notification"), 62%N|exact Hr].
  - unfold render in Hr. cbn [type_markers internal_fragment body mbind option_bind] in Hr.
    rewrite andb_false_intro1 in Hr by done. injection Hr as <-.
    apply (standard_at 7 _ _ eq_refl). by apply internal_recognised.
Qed.

(** Context the session injects is recognised as such: the rendered text of every
    fragment type, whatever its body, makes a message that counts as contextual.
    For additional context the key must not contain [>]. *)
Theorem injected_context_recognised (from_xml_str : str -> option (str * str)) (f : InjectedFragment) (text : str)
    (Hok : injected_ok f = true) (Htext : injected_text f = Some text) (before after : list ContentItem) :
  is_contextual_user_message_content from_xml_str (before ++ CInputText text :: after) = true.
Proof.
  unfold is_contextual_user_message_content. rewrite existsb_app. cbn [existsb is_contextual_user_fragment].
  rewrite (injected_recognised f text Hok Htext), orb_true_r. cbn [orb]. apply orb_true_r.
Qed.

Lemma injected_context_recognised_witness :
  is_contextual_user_message_content (fun _ => None) ([] ++ CInputText (lit "<external_k>v</external_k>") :: []) = true.
Proof.
  apply (injected_context_recognised (fun _ => None) (InjAdditional (mkAdditional (lit "k") (lit "v")))); reflexivity.
Defined.

(** A key with [>] is accepted and injected, but the text is not recognised: it
    counts as a message of the user. *)
Lemma additional_key_not_recognised :
  injected_text (InjAdditional (mkAdditional (lit "a>b") (lit "v"))) = Some (lit "<external_a>b>v</external_a>b>")
  /\ is_contextual_user_message_content (fun _ => None) [CInputText (lit "<external_a>b>v</external_a>b>")] = false.
Proof. vm_compute. done. Qed.

(** ** The additional-context store: [core/src/state/additional_context.rs] *)

Inductive AdditionalContextKind : Type := Untrusted | Application.
Record AdditionalContextEntry : Type := mkEntry { ace_value : str; ace_kind : AdditionalContextKind }.
#[export] Instance additional_entry_eq_dec : EqDecision AdditionalContextEntry.
Proof. intros [v k] [v' k']. destruct (decide (v = v')), k, k'; (left; congruence) || (right; congruence). Defined.

Record AdditionalContextDeveloperFragment : Type := mkAdditionalDev { acd_key : str; acd_value : str }.
#[export] Instance additional_developer_fragment : ContextualUserFragment AdditionalContextDeveloperFragment :=
  {| role _ := lit "developer"; type_markers _ := ([], []);
     body f := additional_context_developer_body (acd_key f) (acd_value f);
     matches_text _ := matches_marked_text [] [] |}.

(** A [BTreeMap] is its entries in the order of the keys. *)
Abbreviation BTreeMap V := (list (str * V)).
Fixpoint btree_get {V} (key : str) (m : BTreeMap V) : option V :=
  match m with
  | [] => None
  | (k, v) :: m => if k =s? key then Some v else btree_get key m
  end.
Record AdditionalContextStore : Type := mkStore { acs_values : BTreeMap AdditionalContextEntry }.

(** The items of a merge are the roles and texts of the messages. *)
Definition additional_item (e : str * AdditionalContextEntry) : str * option str :=
  match ace_kind e.2 with
  | Untrusted => let f := mkAdditional e.1 (ace_value e.2) in (role f, render f)
  | Application => let f := mkAdditionalDev e.1 (ace_value e.2) in (role f, render f)
  end.
Definition merge (self : AdditionalContextStore) (values : BTreeMap AdditionalContextEntry) :
  list (str * option str) * AdditionalContextStore :=
  (map additional_item
     (List.filter (fun e => negb (bool_decide (btree_get e.1 (acs_values self) = Some e.2))) values),
   mkStore values).

Lemma btree_get_in {V} (m : BTreeMap V) k v : NoDup (map fst m) -> (k, v) ∈ m -> btree_get k m = Some v.
Proof.
  induction m as [|[k' v'] m IH]; intros Hnd Hin; [set_solver|]. cbn [map fst] in Hnd. apply NoDup_cons in Hnd as [Hk Hnd].
  cbn [btree_get]. apply elem_of_cons in Hin as [[= -> ->]|Hin]; [by rewrite bool_decide_eq_true_2|].
  rewrite bool_decide_eq_false_2; [by apply IH|]. intros ->. apply Hk. apply list_elem_of_In, in_map_iff.
  exists (k, v). split; [done|]. by apply list_elem_of_In.
Qed.

(** Unchanged context is not injected again. *)
Lemma merge_again self values : NoDup (map fst values) -> (merge (merge self values).2 values).1 = [].
Proof.
  intros Hnd. unfold merge. cbn [fst snd acs_values].
  assert (forall l, (forall e, e ∈ l -> btree_get e.1 values = Some e.2) ->
    List.filter (fun e => negb (bool_decide (btree_get e.1 values = Some e.2))) l = []) as Hf.
  { induction l as [|e l IH]; intros Hl; [done|]. cbn [List.filter]. rewrite bool_decide_eq_true_2 by (apply Hl; set_solver).
    cbn [negb]. apply IH. set_solver. }
  rewrite Hf; [done|]. intros [k v] Hin. by apply btree_get_in.
Qed.
