(* ===== verification/History.v ===== *)
(** * Conversation history: [core/src/context_manager], [protocol/src/models.rs]

    The items of a conversation ([ResponseItem]) and the session's transcript
    ([ContextManager]).  Before a prompt is sent the history is normalised: every
    tool call gets an output, outputs without a call go, images go where the model
    takes none.  Dropping the oldest item keeps calls and outputs paired; a rollback
    cuts whole turns off the end.  Token usage is estimated in saturating [i64]
    arithmetic.

    Third-party code is the class [External]: the XML and JSON readers, the length of
    an item's JSON, the base64 and image decoders.  [Value] is [serde_json::Value],
    [Ctx] the type of the reference context, which the history only stores.
    [debug_assertions] is the build flag under which [error_or_panic] and an
    overflowing [+] panic; a panic is [None]. *)

From S2P Require Import Prelude Truncate ContextFragments.
From Stdlib Require Import SpecFloat.

Open Scope Z_scope.
Open Scope rust_scope.

(** ** Conversation items: [protocol/src/models.rs] *)

Inductive MessagePhase : Type := Commentary | FinalAnswer.
Inductive AgentMessageInputContent : Type := AgentEncryptedContent (encrypted_content : str).
Inductive ReasoningItemReasoningSummary : Type := SummaryText (text : str).
Inductive ReasoningItemContent : Type := ReasoningText (text : str) | ReasoningPlainText (text : str).
Inductive LocalShellStatus : Type := ShellCompleted | ShellInProgress | ShellIncomplete.
Record LocalShellExecAction : Type := mkShellExec {
  lse_command : list str;
  lse_timeout_ms : option N;
  lse_working_directory : option str;
  lse_env : option (list (str * str));
  lse_user : option str
}.
Inductive LocalShellAction : Type := ShellExec (action : LocalShellExecAction).
Inductive WebSearchAction : Type :=
| WebSearch (query : option str) (queries : option (list str))
| WebOpenPage (url : option str)
| WebFindInPage (url pattern : option str)
| WebOther.

Inductive FunctionCallOutputBody : Type :=
| BodyText (text : str)
| BodyContentItems (items : list FunctionCallOutputContentItem).
Record FunctionCallOutputPayload : Type := mkPayload { body_of : FunctionCallOutputBody; success : option bool }.
Definition payload_from_text (content : str) : FunctionCallOutputPayload := mkPayload (BodyText content) None.

Inductive ResponseItem (Value : Type) : Type :=
| Message (id : option str) (role : str) (content : list ContentItem) (phase : option MessagePhase)
| AgentMessage (author recipient : str) (content : list AgentMessageInputContent)
| Reasoning (id : str) (summary : list ReasoningItemReasoningSummary) (content : option (list ReasoningItemContent))
    (encrypted_content : option str)
| LocalShellCall (id call_id : option str) (status : LocalShellStatus) (action : LocalShellAction)
| FunctionCall (id : option str) (name : str) (namespace : option str) (arguments call_id : str)
| ToolSearchCall (id call_id status : option str) (execution : str) (arguments : Value)
| FunctionCallOutput (call_id : str) (output : FunctionCallOutputPayload)
| CustomToolCall (id status : option str) (call_id name input : str)
| CustomToolCallOutput (call_id : str) (name : option str) (output : FunctionCallOutputPayload)
| ToolSearchOutput (call_id : option str) (status execution : str) (tools : list Value)
| WebSearchCall (id status : option str) (action : option WebSearchAction)
| ImageGenerationCall (id status : str) (revised_prompt : option str) (result : str)
| Compaction (encrypted_content : str)
| CompactionTrigger
| ContextCompaction (encrypted_content : option str)
| Other.
Arguments Message {Value}.
Arguments AgentMessage {Value}.
Arguments Reasoning {Value}.
Arguments LocalShellCall {Value}.
Arguments FunctionCall {Value}.
Arguments ToolSearchCall {Value}.
Arguments FunctionCallOutput {Value}.
Arguments CustomToolCall {Value}.
Arguments CustomToolCallOutput {Value}.
Arguments ToolSearchOutput {Value}.
Arguments WebSearchCall {Value}.
Arguments ImageGenerationCall {Value}.
Arguments Compaction {Value}.
Arguments CompactionTrigger {Value}.
Arguments ContextCompaction {Value}.
Arguments Other {Value}.

Inductive InputModality : Type := ModalityText | ModalityImage.
#[export] Instance input_modality_eq_dec : EqDecision InputModality.
Proof. solve_decision. Defined.

(** [InterAgentCommunication] of [protocol.rs]. *)
Record InterAgentCommunication : Type := mkInterAgent {
  ia_author : str;
  ia_recipient : str;
  ia_other_recipients : list str;
  ia_content : str;
  ia_encrypted_content : option str;
  trigger_turn : bool
}.

Class External (Value : Type) : Type := {
  from_xml_str : str -> option (str * str);
  inter_agent_from_json : str -> option InterAgentCommunication;
  to_json_len : ResponseItem Value -> option N;
  base64_decode : str -> option (list N);
  load_from_memory : list N -> option (N * N)
}.

(** ** Normalisation: [normalize.rs] *)

Definition IMAGE_CONTENT_OMITTED_PLACEHOLDER : str :=
  lit "image content omitted because you do not support image input".

Section normalize.
Context {Value : Type}.
Abbreviation Item := (ResponseItem Value).

Definition is_function_output (call_id : str) (i : Item) : bool :=
  match i with FunctionCallOutput existing _ => existing =s? call_id | _ => false end.
Definition is_custom_output (call_id : str) (i : Item) : bool :=
  match i with CustomToolCallOutput existing _ _ => existing =s? call_id | _ => false end.
Definition is_search_output (call_id : str) (i : Item) : bool :=
  match i with ToolSearchOutput (Some existing) _ _ _ => existing =s? call_id | _ => false end.

(** The output to insert behind a call that has none, and whether its absence is an
    internal error. *)
Definition missing_output (items : list Item) (item : Item) : option (Item * bool) :=
  match item with
  | FunctionCall _ _ _ _ call_id =>
      if existsb (is_function_output call_id) items then None
      else Some (FunctionCallOutput call_id (payload_from_text (lit "aborted")), false)
  | ToolSearchCall _ (Some call_id) _ _ _ =>
      if existsb (is_search_output call_id) items then None
      else Some (ToolSearchOutput (Some call_id) (lit "completed") (lit "client") [], false)
  | CustomToolCall _ _ call_id _ _ =>
      if existsb (is_custom_output call_id) items then None
      else Some (CustomToolCallOutput call_id None (payload_from_text (lit "aborted")), false)
  | LocalShellCall _ (Some call_id) _ _ =>
      if existsb (is_function_output call_id) items then None
      else Some (FunctionCallOutput call_id (payload_from_text (lit "aborted")), true)
  | _ => None
  end.

(** [Vec::insert]. *)
Definition insert_at (idx : nat) (x : Item) (items : list Item) : list Item := take idx items ++ x :: drop idx items.

Definition missing_outputs (items : list Item) : list (nat * (Item * bool)) :=
  omap (fun e : nat * Item => match missing_output items e.2 with Some o => Some (e.1, o) | None => None end)
    (imap pair items).

Definition ensure_call_outputs_present (debug_assertions : bool) (items : list Item) : option (list Item) :=
  let missing_outputs_to_insert := missing_outputs items in
  if debug_assertions && existsb (fun e => e.2.2) missing_outputs_to_insert then None
  else Some (fold_left (fun items (e : nat * (Item * bool)) => insert_at (S e.1) e.2.1 items)
               (rev missing_outputs_to_insert) items).

Definition function_call_ids (items : list Item) : list str :=
  omap (fun i => match i with FunctionCall _ _ _ _ call_id => Some call_id | _ => None end) items.
Definition tool_search_call_ids (items : list Item) : list str :=
  omap (fun i => match i with ToolSearchCall _ (Some call_id) _ _ _ => Some call_id | _ => None end) items.
Definition local_shell_call_ids (items : list Item) : list str :=
  omap (fun i => match i with LocalShellCall _ (Some call_id) _ _ => Some call_id | _ => None end) items.
Definition custom_tool_call_ids (items : list Item) : list str :=
  omap (fun i => match i with CustomToolCall _ _ call_id _ _ => Some call_id | _ => None end) items.
Definition contains (ids : list str) (call_id : str) : bool := bool_decide (call_id ∈ ids).

(** The predicate of [retain]; every item it refuses is reported by [error_or_panic]. *)
Definition output_has_call (items : list Item) (item : Item) : bool :=
  match item with
  | FunctionCallOutput call_id _ =>
      contains (function_call_ids items) call_id || contains (local_shell_call_ids items) call_id
  | CustomToolCallOutput call_id _ _ => contains (custom_tool_call_ids items) call_id
  | ToolSearchOutput call_id _ execution _ =>
      if execution =s? lit "server" then true
      else match call_id with
           | Some call_id => contains (tool_search_call_ids items) call_id
           | None => true
           end
  | _ => true
  end.
Definition remove_orphan_outputs (debug_assertions : bool) (items : list Item) : option (list Item) :=
  if debug_assertions && negb (forallb (output_has_call items) items) then None
  else Some (List.filter (output_has_call items) items).

(** [position] then [remove]. *)
Fixpoint remove_first_matching (predicate : Item -> bool) (items : list Item) : list Item :=
  match items with
  | [] => []
  | i :: items => if predicate i then items else i :: remove_first_matching predicate items
  end.

Definition is_function_call (call_id : str) (i : Item) : bool :=
  match i with FunctionCall _ _ _ _ existing => existing =s? call_id | _ => false end.
Definition is_local_shell_call (call_id : str) (i : Item) : bool :=
  match i with LocalShellCall _ (Some existing) _ _ => existing =s? call_id | _ => false end.
Definition is_search_call (call_id : str) (i : Item) : bool :=
  match i with ToolSearchCall _ (Some existing) _ _ _ => existing =s? call_id | _ => false end.
Definition is_custom_call (call_id : str) (i : Item) : bool :=
  match i with CustomToolCall _ _ existing _ _ => existing =s? call_id | _ => false end.

Definition remove_corresponding_for (items : list Item) (item : Item) : list Item :=
  match item with
  | FunctionCall _ _ _ _ call_id => remove_first_matching (is_function_output call_id) items
  | FunctionCallOutput call_id _ =>
      if existsb (is_function_call call_id) items then remove_first_matching (is_function_call call_id) items
      else remove_first_matching (is_local_shell_call call_id) items
  | ToolSearchCall _ (Some call_id) _ _ _ => remove_first_matching (is_search_output call_id) items
  | ToolSearchOutput (Some call_id) _ _ _ => remove_first_matching (is_search_call call_id) items
  | CustomToolCall _ _ call_id _ _ => remove_first_matching (is_custom_output call_id) items
  | CustomToolCallOutput call_id _ _ => remove_first_matching (is_custom_call call_id) items
  | LocalShellCall _ (Some call_id) _ _ => remove_first_matching (is_function_output call_id) items
  | _ => items
  end.

Definition strip_content_image (c : ContentItem) : ContentItem :=
  match c with CInputImage _ _ => CInputText IMAGE_CONTENT_OMITTED_PLACEHOLDER | _ => c end.
Definition strip_output_image (placeholder : str) (c : FunctionCallOutputContentItem) : FunctionCallOutputContentItem :=
  match c with InputImage _ _ => InputText placeholder | _ => c end.
Definition strip_payload_images (placeholder : str) (output : FunctionCallOutputPayload) : FunctionCallOutputPayload :=
  match body_of output with
  | BodyText _ => output
  | BodyContentItems items => mkPayload (BodyContentItems (map (strip_output_image placeholder) items)) (success output)
  end.
Definition strip_item_images (item : Item) : Item :=
  match item with
  | Message id role content phase => Message id role (map strip_content_image content) phase
  | FunctionCallOutput call_id output =>
      FunctionCallOutput call_id (strip_payload_images IMAGE_CONTENT_OMITTED_PLACEHOLDER output)
  | CustomToolCallOutput call_id name output =>
      CustomToolCallOutput call_id name (strip_payload_images IMAGE_CONTENT_OMITTED_PLACEHOLDER output)
  | ImageGenerationCall id status revised_prompt _ => ImageGenerationCall id status revised_prompt []
  | _ => item
  end.
Definition strip_images_when_unsupported (input_modalities : list InputModality) (items : list Item) : list Item :=
  if bool_decide (ModalityImage ∈ input_modalities) then items else map strip_item_images items.
End normalize.

(** ** Token counts: [protocol/src/protocol.rs] *)

Definition i64_min : Z := - i64_max - 1.
Definition in_i64 (z : Z) : bool := (i64_min <=? z) && (z <=? i64_max).
Definition wrap_i64 (z : Z) : Z := (z - i64_min) mod (2 * (i64_max + 1)) + i64_min.
(** [+] and [-]: an overflow panics in a debug build and wraps in a release build. *)
Definition checked_i64 (debug_assertions : bool) (z : Z) : option Z :=
  if in_i64 z then Some z else if debug_assertions then None else Some (wrap_i64 z).
(** [saturating_add] and [saturating_sub]. *)
Definition sat_i64 (z : Z) : Z := Z.max i64_min (Z.min z i64_max).
(** [i64::try_from(n).unwrap_or(i64::MAX)]. *)
Definition i64_from_usize (n : N) : Z := Z.min (Z.of_N n) i64_max.

Record TokenUsage : Type := mkTokenUsage {
  input_tokens : Z;
  cached_input_tokens : Z;
  output_tokens : Z;
  reasoning_output_tokens : Z;
  total_tokens : Z
}.
Definition token_usage_default : TokenUsage := mkTokenUsage 0 0 0 0 0.
Record TokenUsageInfo : Type := mkTokenInfo {
  total_token_usage : TokenUsage;
  last_token_usage : TokenUsage;
  model_context_window : option Z
}.

Section tokens.
Context (debug_assertions : bool).
Abbreviation chk := (checked_i64 debug_assertions).

Definition add_assign (self other : TokenUsage) : option TokenUsage :=
  i ← chk (input_tokens self + input_tokens other);
  c ← chk (cached_input_tokens self + cached_input_tokens other);
  o ← chk (output_tokens self + output_tokens other);
  r ← chk (reasoning_output_tokens self + reasoning_output_tokens other);
  t ← chk (total_tokens self + total_tokens other);
  Some (mkTokenUsage i c o r t).
Definition append_last_usage (self : TokenUsageInfo) (last : TokenUsage) : option TokenUsageInfo :=
  total ← add_assign (total_token_usage self) last;
  Some (mkTokenInfo total last (model_context_window self)).
Definition new_or_append (info : option TokenUsageInfo) (last : option TokenUsage) (model_context_window' : option Z) :
  option (option TokenUsageInfo) :=
  match info, last with
  | None, None => Some None
  | _, _ =>
      let info := default (mkTokenInfo token_usage_default token_usage_default model_context_window') info in
      info ← match last with Some last => append_last_usage info last | None => Some info end;
      Some (Some (match model_context_window' with
                  | Some w => mkTokenInfo (total_token_usage info) (last_token_usage info) (Some w)
                  | None => info
                  end))
  end.
Definition fill_to_context_window (self : TokenUsageInfo) (context_window : Z) : option TokenUsageInfo :=
  delta ← chk (context_window - total_tokens (total_token_usage self));
  Some (mkTokenInfo (mkTokenUsage 0 0 0 0 context_window) (mkTokenUsage 0 0 0 0 (Z.max delta 0)) (Some context_window)).
Definition full_context_window (context_window : Z) : option TokenUsageInfo :=
  fill_to_context_window (mkTokenInfo token_usage_default token_usage_default (Some context_window)) context_window.
End tokens.

(** ** The history: [history.rs] *)

(** [f64]: [n as f64], the product with [1.2] and [ceil], rounded to nearest even
    as IEEE 754 has it; [as usize] saturates. *)
Definition f64_of_usize (n : N) : spec_float := binary_normalize 53 1024 (Z.of_N n) 0 false.
Definition f64_1_2 : spec_float := S754_finite false 5404319552844595 (-52).
Definition ceil_as_usize (x : spec_float) : N :=
  match x with
  | S754_finite false m e =>
      N.min usize_max
        (Z.to_N (if (0 <=? e)%Z then Z.shiftl (Zpos m) e
                 else - ((- Zpos m) / 2 ^ (- e))))
  | S754_infinity false => usize_max
  | _ => 0%N
  end.
Definition mul_1_2 (n : N) : N := ceil_as_usize (SFmul 53 1024 (f64_of_usize n) f64_1_2).
(** [policy * 1.2]. *)
Definition with_serialization_budget (policy : TruncationPolicy) : TruncationPolicy :=
  match policy with
  | Bytes bytes => Bytes (mul_1_2 bytes)
  | Tokens tokens => Tokens (mul_1_2 tokens)
  end.

Record ContextManager (Value Ctx : Type) : Type := mkManager {
  items : list (ResponseItem Value);
  history_version : N;
  token_info : option TokenUsageInfo;
  reference_context_item : option Ctx
}.
Arguments mkManager {Value Ctx}.
Arguments items {Value Ctx}.
Arguments history_version {Value Ctx}.
Arguments token_info {Value Ctx}.
Arguments reference_context_item {Value Ctx}.

Section history.
Context {Value Ctx : Type} `{External Value} (debug_assertions : bool).
Abbreviation Item := (ResponseItem Value).
Abbreviation Manager := (ContextManager Value Ctx).

(** *** Classification of items *)

Definition is_api_message (message : Item) : bool :=
  match message with
  | Message _ role _ _ => negb (role =s? lit "system")
  | CompactionTrigger | Other => false
  | _ => true
  end.
Definition from_message_content (content : list ContentItem) : option InterAgentCommunication :=
  match content with
  | [CInputText text] | [COutputText text] => inter_agent_from_json text
  | _ => None
  end.
Definition is_inter_agent_instruction_content (content : list ContentItem) : bool :=
  bool_decide (is_Some (from_message_content content)).
Definition is_user_turn_boundary (item : Item) : bool :=
  match item with
  | AgentMessage _ _ _ => true
  | Message _ role content _ =>
      ((role =s? lit "user") && negb (is_contextual_user_message_content from_xml_str content))
      || ((role =s? lit "assistant") && is_inter_agent_instruction_content content)
  | _ => false
  end.
Definition is_model_generated_item (item : Item) : bool :=
  match item with
  | Message _ role _ _ => role =s? lit "assistant"
  | Reasoning _ _ _ _ | FunctionCall _ _ _ _ _ | ToolSearchCall _ _ _ _ _ | WebSearchCall _ _ _
  | ImageGenerationCall _ _ _ _ | CustomToolCall _ _ _ _ _ | LocalShellCall _ _ _ _ | Compaction _
  | ContextCompaction _ => true
  | CompactionTrigger | FunctionCallOutput _ _ | ToolSearchOutput _ _ _ _ | CustomToolCallOutput _ _ _
  | AgentMessage _ _ _ | Other => false
  end.
(** The loop of [user_message_positions], from index [idx] on. *)
Fixpoint user_positions_from (idx : nat) (items : list Item) : list nat :=
  match items with
  | [] => []
  | item :: items =>
      if is_user_turn_boundary item then idx :: user_positions_from (S idx) items else user_positions_from (S idx) items
  end.
Definition user_message_positions (items : list Item) : list nat := user_positions_from 0 items.
(** [Iterator::rposition]. *)
Fixpoint rposition (p : Item -> bool) (items : list Item) : option nat :=
  match items with
  | [] => None
  | i :: items => match rposition p items with Some n => Some (S n) | None => if p i then Some 0%nat else None end
  end.

(** *** Recording *)

Definition truncate_function_output_payload (output : FunctionCallOutputPayload) (policy : TruncationPolicy) :
  option FunctionCallOutputPayload :=
  body ← match body_of output with
         | BodyText content => BodyText <$> truncate_text content policy
         | BodyContentItems items => BodyContentItems <$> truncate_function_output_items_with_policy items policy
         end;
  Some (mkPayload body (success output)).
Definition process_item (item : Item) (policy : TruncationPolicy) : option Item :=
  let policy_with_serialization_budget := with_serialization_budget policy in
  match item with
  | FunctionCallOutput call_id output =>
      FunctionCallOutput call_id <$> truncate_function_output_payload output policy_with_serialization_budget
  | CustomToolCallOutput call_id name output =>
      CustomToolCallOutput call_id name <$> truncate_function_output_payload output policy_with_serialization_budget
  | _ => Some item
  end.
Definition set_items (self : Manager) (items : list Item) : Manager :=
  mkManager items (history_version self) (token_info self) (reference_context_item self).
Fixpoint record_items (self : Manager) (new_items : list Item) (policy : TruncationPolicy) : option Manager :=
  match new_items with
  | [] => Some self
  | item :: new_items =>
      if negb (is_api_message item) then record_items self new_items policy
      else
        processed ← process_item item policy;
        record_items (set_items self (items self ++ [processed])) new_items policy
  end.

Definition manager_new : Manager := mkManager [] 0 None None.
Definition set_token_info (self : Manager) (info : option TokenUsageInfo) : Manager :=
  mkManager (items self) (history_version self) info (reference_context_item self).
Definition set_reference_context_item (self : Manager) (item : option Ctx) : Manager :=
  mkManager (items self) (history_version self) (token_info self) item.
Definition set_token_usage_full (self : Manager) (context_window : Z) : option Manager :=
  info ← match token_info self with
         | Some info => fill_to_context_window debug_assertions info context_window
         | None => full_context_window debug_assertions context_window
         end;
  Some (set_token_info self (Some info)).
Definition update_token_info (self : Manager) (usage : TokenUsage) (model_context_window : option Z) : option Manager :=
  info ← new_or_append debug_assertions (token_info self) (Some usage) model_context_window;
  Some (set_token_info self info).

(** *** Prompts *)

Definition normalize_items (input_modalities : list InputModality) (items : list Item) : option (list Item) :=
  items ← ensure_call_outputs_present debug_assertions items;
  items ← remove_orphan_outputs debug_assertions items;
  Some (strip_images_when_unsupported input_modalities items).
Definition normalize_history (self : Manager) (input_modalities : list InputModality) : option Manager :=
  set_items self <$> normalize_items input_modalities (items self).
Definition for_prompt (self : Manager) (input_modalities : list InputModality) : option (list Item) :=
  items <$> normalize_history self input_modalities.

(** *** Rewriting *)

Definition bump (version : N) : N := N.min (version + 1) u64_max.
Definition replace (self : Manager) (items : list Item) : Manager :=
  mkManager items (bump (history_version self)) (token_info self) (reference_context_item self).
Definition remove_first_item (self : Manager) : Manager :=
  match items self with
  | [] => self
  | removed :: rest => set_items self (remove_corresponding_for rest removed)
  end.

Definition is_output_image (c : FunctionCallOutputContentItem) : bool :=
  match c with InputImage _ _ => true | _ => false end.
Definition is_output_or_boundary (item : Item) : bool :=
  match item with FunctionCallOutput _ _ => true | _ => is_user_turn_boundary item end.
Definition replace_last_turn_images (self : Manager) (placeholder : str) : bool * Manager :=
  match rposition is_output_or_boundary (items self) with
  | None => (false, self)
  | Some index =>
      match items self !! index with
      | Some (FunctionCallOutput call_id output) =>
          match body_of output with
          | BodyText _ => (false, self)
          | BodyContentItems content_items =>
              let replaced := existsb is_output_image content_items in
              let items' := <[index := FunctionCallOutput call_id (strip_payload_images placeholder output)]> (items self) in
              (replaced,
               mkManager items' (if replaced then bump (history_version self) else history_version self)
                 (token_info self) (reference_context_item self))
          end
      | _ => (false, self)
      end
  end.

(** The walk of [trim_pre_turn_context_updates]: the adjusted cut, and whether the
    reference context is cleared. *)
Fixpoint trim_loop (snapshot : list Item) (first_instruction_turn_idx cut_idx : nat) (cleared : bool) : nat * bool :=
  match cut_idx with
  | O => (O, cleared)
  | S cut_idx' =>
      if (first_instruction_turn_idx <? cut_idx)%nat then
        match snapshot !! cut_idx' with
        | Some (Message _ role content _) =>
            if (role =s? lit "developer") && is_contextual_dev_message_content content then
              trim_loop snapshot first_instruction_turn_idx cut_idx'
                (cleared || has_non_contextual_dev_message_content content)
            else if (role =s? lit "user") && is_contextual_user_message_content from_xml_str content then
              trim_loop snapshot first_instruction_turn_idx cut_idx' cleared
            else (cut_idx, cleared)
        | _ => (cut_idx, cleared)
        end
      else (cut_idx, cleared)
  end.
Definition trim_pre_turn_context_updates (self : Manager) (snapshot : list Item)
    (first_instruction_turn_idx cut_idx : nat) : nat * Manager :=
  let '(cut_idx, cleared) := trim_loop snapshot first_instruction_turn_idx cut_idx false in
  (cut_idx, if cleared then set_reference_context_item self None else self).

Definition drop_last_n_user_turns (self : Manager) (num_turns : N) : Manager :=
  if (num_turns =? 0)%N then self
  else
    let snapshot := items self in
    let user_positions := user_message_positions snapshot in
    match user_positions with
    | [] => replace self snapshot
    | first_instruction_turn_idx :: _ =>
        let n_from_end := N.to_nat num_turns in
        let cut_idx :=
          if (length user_positions <=? n_from_end)%nat then first_instruction_turn_idx
          else default 0%nat (user_positions !! (length user_positions - n_from_end)%nat) in
        let '(cut_idx, self) := trim_pre_turn_context_updates self snapshot first_instruction_turn_idx cut_idx in
        replace self (take cut_idx snapshot)
    end.
End history.

(** ** Estimated sizes: [history.rs] *)

Definition estimate_reasoning_length (encoded_len : N) : N := sat_sub (sat_mul encoded_len 3 / 4)%N 650.
Definition div_ceil (a b : N) : N := ((a + b - 1) / b)%N.
Definition estimate_encrypted_function_output_length (encoded_len : N) : N := div_ceil (sat_mul encoded_len 9) 16.
Definition RESIZED_IMAGE_BYTES_ESTIMATE : Z := 7373.
Definition ORIGINAL_IMAGE_PATCH_SIZE : Z := 32.
Definition ORIGINAL_IMAGE_MAX_PATCHES : N := 10000.
Definition COMMA : char := 44%N.
Definition SEMICOLON : char := 59%N.

(** The payload of a [data:image/...;base64,...] URL. *)
Definition parse_base64_image_data_url (url : str) : option str :=
  if negb (is_some_and (fun prefix => eq_ignore_ascii_case prefix (lit "data:")) (get_to 5 url)) then None
  else
    '(metadata, payload) ← split_once COMMA url;
    metadata_without_scheme ← get_from 5 metadata;
    match split_on SEMICOLON metadata_without_scheme with
    | [] => None
    | mime_type :: metadata_parts =>
        let has_base64_marker := existsb (fun part => eq_ignore_ascii_case part (lit "base64")) metadata_parts in
        if negb (is_some_and (fun prefix => eq_ignore_ascii_case prefix (lit "image/")) (get_to 6 mime_type)) then None
        else if negb has_base64_marker then None
        else Some payload
    end.

Section estimates.
Context {Value Ctx : Type} `{External Value}.
Abbreviation Item := (ResponseItem Value).
Abbreviation Manager := (ContextManager Value Ctx).

(** The closure the cache of [estimate_original_image_bytes] is filled with. *)
Definition estimate_original_image_bytes (image_url : str) : option Z :=
  payload ← parse_base64_image_data_url image_url;
  bytes ← base64_decode payload;
  '(width, height) ← load_from_memory bytes;
  let patch_size := ORIGINAL_IMAGE_PATCH_SIZE in
  let patches_wide := sat_i64 (Z.of_N width + (patch_size - 1)) / patch_size in
  let patches_high := sat_i64 (Z.of_N height + (patch_size - 1)) / patch_size in
  let patch_count := sat_i64 (patches_wide * patches_high) in
  let patch_count := if (patch_count <? 0)%Z then usize_max else Z.to_N patch_count in
  let patch_count := N.min patch_count ORIGINAL_IMAGE_MAX_PATCHES in
  Some (i64_from_usize (approx_bytes_for_tokens patch_count)).

Definition accumulate_image (acc : Z * Z) (image_url : str) (detail : option ImageDetail) : Z * Z :=
  match parse_base64_image_data_url image_url with
  | None => acc
  | Some payload =>
      (sat_i64 (acc.1 + i64_from_usize (str_len payload)),
       sat_i64 (acc.2 + match detail with
                        | Some Original => default RESIZED_IMAGE_BYTES_ESTIMATE (estimate_original_image_bytes image_url)
                        | _ => RESIZED_IMAGE_BYTES_ESTIMATE
                        end))
  end.
Definition image_data_url_estimate_adjustment (item : Item) : Z * Z :=
  match item with
  | Message _ _ content _ =>
      fold_left (fun acc c => match c with CInputImage url detail => accumulate_image acc url detail | _ => acc end)
        content (0, 0)
  | FunctionCallOutput _ output | CustomToolCallOutput _ _ output =>
      match body_of output with
      | BodyContentItems items =>
          fold_left (fun acc c => match c with InputImage url detail => accumulate_image acc url detail | _ => acc end)
            items (0, 0)
      | BodyText _ => (0, 0)
      end
  | _ => (0, 0)
  end.
Definition encrypted_function_output_estimate_adjustment (item : Item) : Z * Z :=
  match item with
  | FunctionCallOutput _ output =>
      match body_of output with
      | BodyContentItems items =>
          fold_left (fun acc c =>
            match c with
            | EncryptedContent encrypted_content =>
                (sat_i64 (acc.1 + i64_from_usize (str_len encrypted_content)),
                 sat_i64 (acc.2 + i64_from_usize (estimate_encrypted_function_output_length (str_len encrypted_content))))
            | _ => acc
            end) items (0, 0)
      | BodyText _ => (0, 0)
      end
  | _ => (0, 0)
  end.

Definition estimate_response_item_model_visible_bytes (item : Item) : Z :=
  match item with
  | Reasoning _ _ _ (Some content) | Compaction content | ContextCompaction (Some content) =>
      i64_from_usize (estimate_reasoning_length (str_len content))
  | item =>
      let raw := match to_json_len item with Some n => i64_from_usize n | None => 0 end in
      let '(image_payload_bytes, image_replacement_bytes) := image_data_url_estimate_adjustment item in
      let '(encrypted_payload_bytes, encrypted_replacement_bytes) := encrypted_function_output_estimate_adjustment item in
      let raw := sat_i64 (sat_i64 (raw - image_payload_bytes) + image_replacement_bytes) in
      sat_i64 (sat_i64 (raw - encrypted_payload_bytes) + encrypted_replacement_bytes)
  end.
Definition estimate_item_token_count (item : Item) : Z :=
  approx_tokens_from_byte_count_i64 (estimate_response_item_model_visible_bytes item).

(** [map(estimate_item_token_count).fold(0, i64::saturating_add)]. *)
Definition sum_estimates (items : list Item) : Z :=
  fold_left (fun acc item => sat_i64 (acc + estimate_item_token_count item)) items 0.

Definition estimate_token_count_with_base_instructions (self : Manager) (base_instructions : str) : Z :=
  let base_tokens := i64_from_usize (approx_token_count base_instructions) in
  sat_i64 (base_tokens + sum_estimates (items self)).

Definition has_encrypted_reasoning (item : Item) : bool :=
  match item with Reasoning _ _ _ (Some _) => true | _ => false end.
Definition get_non_last_reasoning_items_tokens (self : Manager) : Z :=
  match rposition is_user_turn_boundary (items self) with
  | None => 0
  | Some last_user_index => sum_estimates (List.filter has_encrypted_reasoning (take last_user_index (items self)))
  end.
Definition items_after_last_model_generated_item (self : Manager) : list Item :=
  let start := match rposition is_model_generated_item (items self) with
               | Some index => S index
               | None => length (items self)
               end in
  drop start (items self).
Definition get_total_token_usage (self : Manager) (server_reasoning_included : bool) : Z :=
  let last_tokens := match token_info self with Some info => total_tokens (last_token_usage info) | None => 0 end in
  let items_after_last_model_generated_tokens := sum_estimates (items_after_last_model_generated_item self) in
  if server_reasoning_included then sat_i64 (last_tokens + items_after_last_model_generated_tokens)
  else sat_i64 (sat_i64 (last_tokens + get_non_last_reasoning_items_tokens self) + items_after_last_model_generated_tokens).
Definition estimated_tokens_after_last_model_generated_item (self : Manager) : Z :=
  sum_estimates (items_after_last_model_generated_item self).
End estimates.

(** ** Calls and outputs *)

Inductive CallKind : Type := KFunction | KSearch | KCustom.
#[export] Instance call_kind_eq_dec : EqDecision CallKind.
Proof. solve_decision. Defined.
Abbreviation CallKey := (CallKind * str)%type.

Section pairing.
Context {Value : Type}.
Abbreviation Item := (ResponseItem Value).

Definition call_key (i : Item) : option CallKey :=
  match i with
  | FunctionCall _ _ _ _ call_id | LocalShellCall _ (Some call_id) _ _ => Some (KFunction, call_id)
  | ToolSearchCall _ (Some call_id) _ _ _ => Some (KSearch, call_id)
  | CustomToolCall _ _ call_id _ _ => Some (KCustom, call_id)
  | _ => None
  end.
Definition output_key (i : Item) : option CallKey :=
  match i with
  | FunctionCallOutput call_id _ => Some (KFunction, call_id)
  | ToolSearchOutput (Some call_id) _ _ _ => Some (KSearch, call_id)
  | CustomToolCallOutput call_id _ _ => Some (KCustom, call_id)
  | _ => None
  end.
(** A search the server ran needs no call of the client. *)
Definition server_output (i : Item) : bool :=
  match i with ToolSearchOutput _ _ execution _ => execution =s? lit "server" | _ => false end.

Definition has_output (items : list Item) (k : CallKey) : Prop := exists o, o ∈ items /\ output_key o = Some k.
Definition has_call (items : list Item) (k : CallKey) : Prop := exists i, i ∈ items /\ call_key i = Some k.
(** Every call has its output and every output its call. *)
Definition paired (items : list Item) : Prop :=
  (forall i k, i ∈ items -> call_key i = Some k -> has_output items k)
  /\ (forall o k, o ∈ items -> output_key o = Some k -> server_output o = false -> has_call items k).

Lemma existsb_output (k : CallKey) (p : Item -> bool) items :
  (forall o, p o = true <-> output_key o = Some k) -> existsb p items = true <-> has_output items k.
Proof.
  intros Hp. rewrite existsb_exists. unfold has_output. setoid_rewrite Hp. setoid_rewrite <- list_elem_of_In. done.
Qed.

Lemma is_function_output_key call_id (o : Item) :
  is_function_output call_id o = true <-> output_key o = Some (KFunction, call_id).
Proof. destruct o as [| | | | | | | | |[]| | | | | |]; cbn; rewrite ?bool_decide_eq_true; naive_solver. Qed.
Lemma is_search_output_key call_id (o : Item) :
  is_search_output call_id o = true <-> output_key o = Some (KSearch, call_id).
Proof. destruct o as [| | | | | | | | |[]| | | | | |]; cbn; rewrite ?bool_decide_eq_true; naive_solver. Qed.
Lemma is_custom_output_key call_id (o : Item) :
  is_custom_output call_id o = true <-> output_key o = Some (KCustom, call_id).
Proof. destruct o as [| | | | | | | | |[]| | | | | |]; cbn; rewrite ?bool_decide_eq_true; naive_solver. Qed.

(** What [missing_output] does, by keys. *)
Lemma missing_output_spec items (i : Item) :
  match missing_output items i with
  | None => forall k, call_key i = Some k -> has_output items k
  | Some (o, _) => exists k, call_key i = Some k /\ output_key o = Some k /\ call_key o = None
                             /\ server_output o = false /\ ~ has_output items k
  end.
Proof.
  destruct i as [| | |id [c|] ? ?|? ? ? ? c|? [c|] ? ? ?| |? ? c ? ?| | | | | | | |]; cbn [missing_output]; try done.
  - pose proof (existsb_output _ _ items (is_function_output_key c)) as Hex.
    destruct (existsb _ items); [by intros k [= <-]; apply Hex|]. exists (KFunction, c). rewrite <- Hex. done.
  - pose proof (existsb_output _ _ items (is_function_output_key c)) as Hex.
    destruct (existsb _ items); [by intros k [= <-]; apply Hex|]. exists (KFunction, c). rewrite <- Hex. done.
  - pose proof (existsb_output _ _ items (is_search_output_key c)) as Hex.
    destruct (existsb _ items); [by intros k [= <-]; apply Hex|]. exists (KSearch, c). rewrite <- Hex. done.
  - pose proof (existsb_output _ _ items (is_custom_output_key c)) as Hex.
    destruct (existsb _ items); [by intros k [= <-]; apply Hex|]. exists (KCustom, c). rewrite <- Hex. done.
Qed.

(** *** Insertion behind the calls *)

Definition expand (all : list Item) (i : Item) : list Item :=
  i :: match missing_output all i with Some (o, _) => [o] | None => [] end.

Definition insert_step (items : list Item) (e : nat * (Item * bool)) : list Item := insert_at (S e.1) e.2.1 items.
Definition shift_entry (e : nat * (Item * bool)) : nat * (Item * bool) := (S e.1, e.2).
Definition missing_entry (all : list Item) (e : nat * Item) : option (nat * (Item * bool)) :=
  match missing_output all e.2 with Some o => Some (e.1, o) | None => None end.
Definition missing_in (all l : list Item) : list (nat * (Item * bool)) := omap (missing_entry all) (imap pair l).

Lemma missing_in_shift all l (f : nat -> nat) :
  omap (missing_entry all) (imap (fun n y => (S (f n), y)) l)
  = map shift_entry (omap (missing_entry all) (imap (fun n y => (f n, y)) l)).
Proof.
  revert f. induction l as [|y l IH]; intros f; [done|]. cbn [imap]. unfold compose. specialize (IH (fun n => f (S n))).
  cbn [omap list_omap].
  assert (missing_entry all (S (f 0%nat), y) = shift_entry <$> missing_entry all (f 0%nat, y)) as ->
    by (unfold missing_entry; cbn [fst snd]; by destruct (missing_output all y)).
  destruct (missing_entry all (f 0%nat, y)); cbn [map fmap option_fmap option_map]; [f_equal|]; apply IH.
Qed.

Lemma missing_in_cons all x l :
  missing_in all (x :: l) =
  match missing_output all x with Some o => [(0%nat, o)] | None => [] end ++ map shift_entry (missing_in all l).
Proof.
  pose proof (missing_in_shift all l (fun n => n)) as Hs. unfold missing_in. cbn [imap omap list_omap].
  unfold missing_entry at 1. cbn [fst snd]. destruct (missing_output all x); cbn [app]; [f_equal|]; exact Hs.
Qed.

Lemma insert_step_shift es x l : fold_left insert_step (map shift_entry es) (x :: l) = x :: fold_left insert_step es l.
Proof. revert l. induction es as [|[n o] es IH]; intros l; [done|]. cbn [map fold_left]. apply IH. Qed.

Lemma insert_all all l : fold_left insert_step (rev (missing_in all l)) l = flat_map (expand all) l.
Proof.
  induction l as [|x l IH]; [done|]. rewrite missing_in_cons, rev_app_distr, fold_left_app, <- map_rev.
  rewrite insert_step_shift, IH. cbn [flat_map]. unfold expand at 2.
  destruct (missing_output all x) as [[o b]|]; [|done]. cbn. unfold insert_step, insert_at. cbn. by rewrite drop_0.
Qed.

Lemma ensure_spec debug items :
  ensure_call_outputs_present debug items = None \/ ensure_call_outputs_present debug items = Some (flat_map (expand items) items).
Proof.
  unfold ensure_call_outputs_present. destruct (debug && _); [by left|right]. f_equal. apply insert_all.
Qed.
Lemma ensure_release items : ensure_call_outputs_present false items = Some (flat_map (expand items) items).
Proof. unfold ensure_call_outputs_present. cbn [andb]. f_equal. apply insert_all. Qed.
End pairing.

(** *** Orphans *)

Section normalized.
Context {Value : Type}.
Abbreviation Item := (ResponseItem Value).

Lemma contains_omap (f : Item -> option str) items id :
  contains (omap f items) id = true <-> exists i, i ∈ items /\ f i = Some id.
Proof. unfold contains. by rewrite bool_decide_eq_true, list_elem_of_omap. Qed.

Lemma has_function_call (items : list Item) id :
  has_call items (KFunction, id)
  <-> contains (function_call_ids items) id || contains (local_shell_call_ids items) id = true.
Proof.
  unfold function_call_ids, local_shell_call_ids. rewrite orb_true_iff, !contains_omap. unfold has_call. split.
  - intros (i & Hin & Hk). destruct i as [| | |? [c|] ? ?|? ? ? ? c|? [c|] ? ? ?| |? ? c ? ?| | | | | | | |]; cbn in Hk; try done.
    + right. injection Hk as ->. by eexists.
    + left. injection Hk as ->. by eexists.
  - intros [(i & Hin & Hk)|(i & Hin & Hk)]; exists i; (split; [done|]);
      destruct i as [| | |? [c|] ? ?| | | | | | | | | | | |]; cbn in *; by simplify_eq.
Qed.
Lemma has_search_call (items : list Item) id : has_call items (KSearch, id) <-> contains (tool_search_call_ids items) id = true.
Proof.
  unfold tool_search_call_ids. rewrite contains_omap. unfold has_call. split; intros (i & Hin & Hk); exists i; (split; [done|]);
    destruct i as [| | |? [c|] ? ?|? ? ? ? c|? [c|] ? ? ?| |? ? c ? ?| | | | | | | |]; cbn in *; by simplify_eq.
Qed.
Lemma has_custom_call (items : list Item) id : has_call items (KCustom, id) <-> contains (custom_tool_call_ids items) id = true.
Proof.
  unfold custom_tool_call_ids. rewrite contains_omap. unfold has_call. split; intros (i & Hin & Hk); exists i; (split; [done|]);
    destruct i as [| | |? [c|] ? ?|? ? ? ? c|? [c|] ? ? ?| |? ? c ? ?| | | | | | | |]; cbn in *; by simplify_eq.
Qed.

Lemma output_has_call_spec items (o : Item) :
  output_has_call items o = true
  <-> forall k, output_key o = Some k -> server_output o = false -> has_call items k.
Proof.
  destruct o as [| | | | | |c ?| |c ? ?|[c|] ? e ?| | | | | |]; cbn [output_has_call output_key server_output];
    try (split; [by intros _ k [=]|done]).
  - rewrite <- has_function_call. split; [by intros Hc k [= <-]|by intros Hc; apply Hc].
  - rewrite <- has_custom_call. split; [by intros Hc k [= <-]|by intros Hc; apply Hc].
  - destruct (e =s? lit "server"); [split; [by intros _ k _ [=]|done]|].
    rewrite <- has_search_call. split; [by intros Hc k [= <-]|by intros Hc; apply Hc].
  - destruct (e =s? lit "server"); split; [by intros _ k [=]|done|by intros _ k [=]|done].
Qed.

Lemma has_call_mono (a b : list Item) k : (forall i, i ∈ a -> call_key i = Some k -> i ∈ b) -> has_call a k -> has_call b k.
Proof. intros Hab (i & Hin & Hk). exists i. auto. Qed.

(** *** The normal form *)

Definition expanded (items : list Item) : list Item := flat_map (expand items) items.
Definition kept_items (items : list Item) : list Item := List.filter (output_has_call (expanded items)) (expanded items).

Lemma elem_of_expanded items (x : Item) :
  x ∈ expanded items <-> exists i, i ∈ items /\ (x = i \/ exists b, missing_output items i = Some (x, b)).
Proof.
  unfold expanded. rewrite list_elem_of_In, in_flat_map. setoid_rewrite <- list_elem_of_In. unfold expand.
  split; intros (i & Hin & Hx); exists i; (split; [done|]).
  - apply elem_of_cons in Hx as [->|Hx]; [by left|right].
    destruct (missing_output items i) as [[o b]|]; [|set_solver]. apply list_elem_of_singleton in Hx as ->. by exists b.
  - apply elem_of_cons. destruct Hx as [->|[b ->]]; [by left|right]. set_solver.
Qed.

Lemma elem_of_kept items (x : Item) : x ∈ kept_items items <-> x ∈ expanded items /\ output_has_call (expanded items) x = true.
Proof. unfold kept_items. by rewrite list_elem_of_In, filter_In, <- list_elem_of_In. Qed.

Lemma call_is_kept items (x : Item) k : x ∈ expanded items -> call_key x = Some k -> x ∈ kept_items items.
Proof.
  intros Hin Hk. apply elem_of_kept. split; [done|]. apply output_has_call_spec. intros k' Ho _.
  destruct x as [| | |? [] ? ?| |? [] ? ? ?| | | |[] ? ? ?| | | | | |]; cbn in *; done.
Qed.

Lemma kept_paired (items : list Item) : paired (kept_items items).
Proof.
  split.
  - intros x k Hx Hk. apply elem_of_kept in Hx as [Hx _]. pose proof Hx as Hx'.
    apply elem_of_expanded in Hx as (i & Hi & [->|[b Hm]]).
    + pose proof (missing_output_spec items i) as Hsp. destruct (missing_output items i) as [[o b]|] eqn:Hm.
      * destruct Hsp as (k' & Hk' & Ho & _ & _ & _). assert (k' = k) as -> by congruence.
        exists o. split; [|done]. apply elem_of_kept. split.
        -- apply elem_of_expanded. exists i. eauto.
        -- apply output_has_call_spec. intros k'' Ho' _. exists i. split; [done|congruence].
      * destruct (Hsp k Hk) as (o & Hin & Ho). exists o. split; [|done]. apply elem_of_kept. split.
        -- apply elem_of_expanded. exists o. eauto.
        -- apply output_has_call_spec. intros k'' Ho' _. exists i. split; [done|congruence].
    + pose proof (missing_output_spec items i) as Hsp. rewrite Hm in Hsp. destruct Hsp as (? & _ & _ & Hc & _). congruence.
  - intros o k Ho Hk Hs. apply elem_of_kept in Ho as [_ Ho]. rewrite output_has_call_spec in Ho.
    destruct (Ho k Hk Hs) as (i & Hi & Hc). exists i. split; [|done]. by eapply call_is_kept.
Qed.

(** A paired history is left alone. *)
Lemma expanded_paired (items : list Item) : paired items -> expanded items = items.
Proof.
  intros [Hc _]. unfold expanded. assert (forall l, (forall i, i ∈ l -> i ∈ items) -> flat_map (expand items) l = l) as Hl.
  { induction l as [|i l IH]; intros Hl; [done|]. cbn [flat_map]. rewrite IH by set_solver. unfold expand.
    pose proof (missing_output_spec items i) as Hsp. destruct (missing_output items i) as [[o b]|]; [|done]. exfalso.
    destruct Hsp as (k & Hk & _ & _ & _ & Hno). apply Hno. eapply Hc; [|done]. set_solver. }
  by apply Hl.
Qed.

Lemma missing_in_paired (items l : list Item) : paired items -> (forall i, i ∈ l -> i ∈ items) -> missing_in items l = [].
Proof.
  intros [Hc _] Hl. induction l as [|x l IH]; [done|]. rewrite missing_in_cons, IH by set_solver.
  pose proof (missing_output_spec items x) as Hsp. destruct (missing_output items x) as [[o b]|]; [|done]. exfalso.
  destruct Hsp as (k & Hk & _ & _ & _ & Hno). apply Hno. eapply Hc; [|done]. set_solver.
Qed.

Lemma filter_all {A} (p : A -> bool) l : forallb p l = true -> List.filter p l = l.
Proof. induction l as [|x l IH]; [done|]. cbn. intros [-> Hl]%andb_true_iff. by rewrite IH. Qed.

Lemma paired_outputs (items : list Item) : paired items -> forallb (output_has_call items) items = true.
Proof.
  intros [_ Ho]. apply forallb_forall. intros o Hin. apply output_has_call_spec. intros k Hk Hs.
  eapply Ho; [|done|done]. by apply list_elem_of_In.
Qed.
End normalized.

(** *** Images *)

Section prompts.
Context {Value : Type}.
Abbreviation Item := (ResponseItem Value).

Definition content_has_image (c : ContentItem) : bool := match c with CInputImage _ _ => true | _ => false end.
Definition payload_has_image (p : FunctionCallOutputPayload) : bool :=
  match body_of p with BodyContentItems items => existsb is_output_image items | BodyText _ => false end.
Definition has_image (i : Item) : bool :=
  match i with
  | Message _ _ content _ => existsb content_has_image content
  | FunctionCallOutput _ output | CustomToolCallOutput _ _ output => payload_has_image output
  | ImageGenerationCall _ _ _ result => negb (result =s? [])
  | _ => false
  end.
Definition is_tool_output (i : Item) : bool :=
  match i with FunctionCallOutput _ _ | CustomToolCallOutput _ _ _ | ToolSearchOutput _ _ _ _ => true | _ => false end.

Lemma existsb_map_false {A B} (p : B -> bool) (f : A -> B) l : (forall x, p (f x) = false) -> existsb p (map f l) = false.
Proof. intros Hp. induction l as [|x l IH]; [done|]. cbn. by rewrite Hp, IH. Qed.
Lemma map_strip_id {A} (p : A -> bool) (f : A -> A) l : (forall x, p x = false -> f x = x) -> existsb p l = false -> map f l = l.
Proof. intros Hf. induction l as [|x l IH]; [done|]. cbn. intros [Hx Hl]%orb_false_iff. by rewrite Hf, IH. Qed.

Lemma strip_payload_no_image s p : payload_has_image (strip_payload_images s p) = false.
Proof.
  unfold payload_has_image, strip_payload_images. destruct p as [[t|l] ?]; cbn; [done|].
  apply existsb_map_false. by intros [].
Qed.
Lemma strip_payload_id s p : payload_has_image p = false -> strip_payload_images s p = p.
Proof.
  unfold payload_has_image, strip_payload_images. destruct p as [[t|l] ?]; cbn; [done|]. intros Hp.
  rewrite (map_strip_id is_output_image); [done|by intros []|done].
Qed.
Lemma strip_no_image (i : Item) : has_image (strip_item_images i) = false.
Proof.
  destruct i; cbn; try done; try apply strip_payload_no_image. apply existsb_map_false. by intros [].
Qed.
Lemma strip_id (i : Item) : has_image i = false -> strip_item_images i = i.
Proof.
  destruct i; cbn; try done; intros Hi; try (by rewrite strip_payload_id).
  - rewrite (map_strip_id content_has_image); [done|by intros []|done].
  - apply negb_false_iff, bool_decide_eq_true in Hi. by subst.
Qed.

(** Stripping does not touch the keys. *)
Lemma strip_keys (i : Item) :
  call_key (strip_item_images i) = call_key i /\ output_key (strip_item_images i) = output_key i
  /\ server_output (strip_item_images i) = server_output i /\ is_tool_output (strip_item_images i) = is_tool_output i.
Proof. by destruct i as [| | |? [] ? ?| |? [] ? ? ?| | | |[] ? ? ?| | | | | |]. Qed.

Lemma strip_paired mods (l : list Item) : paired l -> paired (strip_images_when_unsupported mods l).
Proof.
  unfold strip_images_when_unsupported. destruct (bool_decide _); [done|]. intros [Hc Ho].
  assert (forall k, has_output l k -> has_output (map strip_item_images l) k) as Ho'.
  { intros k (o & Hin & Hk). exists (strip_item_images o). destruct (strip_keys o) as (_ & -> & _ & _).
    split; [|done]. apply list_elem_of_In, in_map. by apply list_elem_of_In. }
  assert (forall k, has_call l k -> has_call (map strip_item_images l) k) as Hc'.
  { intros k (o & Hin & Hk). exists (strip_item_images o). destruct (strip_keys o) as (-> & _ & _ & _).
    split; [|done]. apply list_elem_of_In, in_map. by apply list_elem_of_In. }
  split.
  - intros i k Hin. apply list_elem_of_In, in_map_iff in Hin as (j & <- & Hj). destruct (strip_keys j) as (-> & _).
    intros Hk. eapply Ho', Hc; [by apply list_elem_of_In|done].
  - intros i k Hin. apply list_elem_of_In, in_map_iff in Hin as (j & <- & Hj). destruct (strip_keys j) as (_ & -> & -> & _).
    intros Hk Hs. eapply Hc', Ho; [by apply list_elem_of_In|done|done].
Qed.

Lemma normalize_release mods (l : list Item) :
  normalize_items false mods l = Some (strip_images_when_unsupported mods (kept_items l)).
Proof. unfold normalize_items. rewrite ensure_release. done. Qed.

(** A paired history without the images it may not have is normal, in any build. *)
Lemma normalize_normal debug mods (l : list Item) :
  paired l -> strip_images_when_unsupported mods l = l -> normalize_items debug mods l = Some l.
Proof.
  intros Hp Hs. unfold normalize_items, ensure_call_outputs_present. change (missing_outputs l) with (missing_in l l).
  rewrite (missing_in_paired l l Hp) by done. cbn [existsb rev fold_left]. rewrite andb_false_r. cbn [mbind option_bind].
  unfold remove_orphan_outputs. rewrite (paired_outputs l Hp), filter_all by (by apply paired_outputs).
  cbn [negb]. rewrite andb_false_r. cbn [mbind option_bind]. by rewrite Hs.
Qed.

Lemma strip_strip mods (l : list Item) :
  strip_images_when_unsupported mods (strip_images_when_unsupported mods l) = strip_images_when_unsupported mods l.
Proof.
  unfold strip_images_when_unsupported. destruct (bool_decide _); [done|]. rewrite map_map. apply map_ext.
  intros i. apply strip_id, strip_no_image.
Qed.

Lemma filter_non_output_expanded (l : list Item) :
  List.filter (fun i => negb (is_tool_output i)) (kept_items l) = List.filter (fun i => negb (is_tool_output i)) l.
Proof.
  unfold kept_items. assert (forall all m, List.filter (fun i => negb (is_tool_output i)) (List.filter (output_has_call all) m)
    = List.filter (fun i => negb (is_tool_output i)) m) as Hf.
  { intros all m. induction m as [|x m IH]; [done|]. cbn [List.filter].
    destruct (output_has_call all x) eqn:Hx; cbn [List.filter]; rewrite IH; [done|].
    destruct (is_tool_output x) eqn:Ht; [done|]. by destruct x; cbn in *. }
  rewrite Hf. unfold expanded.
  assert (forall m, List.filter (fun i => negb (is_tool_output i)) (flat_map (expand l) m)
    = List.filter (fun i => negb (is_tool_output i)) m) as Hm; [|apply Hm].
  intros m. induction m as [|x m IH]; [done|].
  cbn [flat_map]. unfold expand at 1. cbn [app List.filter].
  assert (List.filter (fun i => negb (is_tool_output i))
    (match missing_output l x with Some (o, _) => [o] | None => [] end) = []) as Hnil.
  { pose proof (missing_output_spec l x) as Hsp. destruct (missing_output l x) as [[o b]|]; [|done].
    destruct Hsp as (k & _ & Ho & _). by destruct o; cbn in *. }
  rewrite List.filter_app, Hnil, IH. done.
Qed.
End prompts.

(** ** Dropping the oldest item *)

Section removal.
Context {Value : Type}.
Abbreviation Item := (ResponseItem Value).

(** An id is used by one call and one output. *)
Definition unique_keys (l : list Item) : Prop := NoDup (omap call_key l) /\ NoDup (omap output_key l).

(** The first item with a key goes, or there is none. *)
Definition removes (f : Item -> option CallKey) (k : CallKey) (l l' : list Item) : Prop :=
  (exists l1 y l2, l = l1 ++ y :: l2 /\ f y = Some k /\ l' = l1 ++ l2) \/ ((forall y, y ∈ l -> f y <> Some k) /\ l' = l).

Lemma remove_first_matching_spec (p : Item -> bool) l :
  (exists l1 y l2, l = l1 ++ y :: l2 /\ p y = true /\ remove_first_matching p l = l1 ++ l2)
  \/ (existsb p l = false /\ remove_first_matching p l = l).
Proof.
  induction l as [|x l IH]; [by right|]. cbn [remove_first_matching existsb]. destruct (p x) eqn:Hx.
  - left. by exists [], x, l.
  - destruct IH as [(l1 & y & l2 & -> & Hy & ->)|[-> ->]]; [left; by exists (x :: l1), y, l2|by right].
Qed.

Lemma removes_matching (p : Item -> bool) f k l :
  (forall y, p y = true <-> f y = Some k) -> removes f k l (remove_first_matching p l).
Proof.
  intros Hp. destruct (remove_first_matching_spec p l) as [(l1 & y & l2 & -> & Hy & ->)|[Hno ->]].
  - left. exists l1, y, l2. by rewrite <- Hp.
  - right. split; [|done]. intros y Hin Hk. rewrite <- not_true_iff_false in Hno. apply Hno. apply existsb_exists.
    exists y. by rewrite <- list_elem_of_In, Hp.
Qed.

Lemma is_search_call_key id (o : Item) : is_search_call id o = true <-> call_key o = Some (KSearch, id).
Proof. destruct o as [| | |? [] ? ?| |? [] ? ? ?| | | | | | | | | |]; cbn; rewrite ?bool_decide_eq_true; naive_solver. Qed.
Lemma is_custom_call_key id (o : Item) : is_custom_call id o = true <-> call_key o = Some (KCustom, id).
Proof. destruct o as [| | |? [] ? ?| |? [] ? ? ?| | | | | | | | | |]; cbn; rewrite ?bool_decide_eq_true; naive_solver. Qed.
Lemma is_function_call_key id (o : Item) :
  is_function_call id o = true \/ is_local_shell_call id o = true <-> call_key o = Some (KFunction, id).
Proof. destruct o as [| | |? [] ? ?| |? [] ? ? ?| | | | | | | | | |]; cbn; rewrite ?bool_decide_eq_true; naive_solver. Qed.

Lemma removes_function_call id l :
  removes call_key (KFunction, id) l
    (if existsb (is_function_call id) l then remove_first_matching (is_function_call id) l
     else remove_first_matching (is_local_shell_call id) l).
Proof.
  destruct (existsb (is_function_call id) l) eqn:Hex.
  - destruct (remove_first_matching_spec (is_function_call id) l) as [(l1 & y & l2 & -> & Hy & ->)|[Hno _]]; [|congruence].
    left. exists l1, y, l2. by rewrite <- is_function_call_key; auto.
  - destruct (remove_first_matching_spec (is_local_shell_call id) l) as [(l1 & y & l2 & -> & Hy & ->)|[Hno ->]].
    + left. exists l1, y, l2. by rewrite <- is_function_call_key; auto.
    + right. split; [|done]. intros y Hin Hk. apply list_elem_of_In in Hin.
      apply is_function_call_key in Hk as [Hk|Hk]; [apply not_true_iff_false in Hex; apply Hex|
        apply not_true_iff_false in Hno; apply Hno]; apply existsb_exists; eauto.
Qed.

Lemma corresponding_removes l (x : Item) :
  match call_key x, output_key x with
  | Some k, _ => output_key x = None /\ removes output_key k l (remove_corresponding_for l x)
  | None, Some k => removes call_key k l (remove_corresponding_for l x)
  | None, None => remove_corresponding_for l x = l
  end.
Proof.
  destruct x as [| | |? [c|] ? ?|? ? ? ? c|? [c|] ? ? ?|c ?|? ? c ? ?|c ? ?|[c|] ? ? ?| | | | | |];
    cbn [call_key output_key remove_corresponding_for]; try done.
  - split; [done|]. apply removes_matching, is_function_output_key.
  - split; [done|]. apply removes_matching, is_function_output_key.
  - split; [done|]. apply removes_matching, is_search_output_key.
  - apply removes_function_call.
  - split; [done|]. apply removes_matching, is_custom_output_key.
  - apply removes_matching, is_custom_call_key.
  - apply removes_matching, is_search_call_key.
Qed.

Lemma NoDup_omap_remove {K} (g : Item -> option K) l1 y l2 : NoDup (omap g (l1 ++ y :: l2)) -> NoDup (omap g (l1 ++ l2)).
Proof.
  rewrite !omap_app. cbn [omap list_omap]. destruct (g y) as [k|]; [|done].
  rewrite !NoDup_app, NoDup_cons. set_solver.
Qed.

Lemma removes_facts f k l l' :
  removes f k l l' -> NoDup (omap f l) ->
  (forall y, y ∈ l' -> y ∈ l) /\ (forall y, y ∈ l' -> f y <> Some k) /\ (forall y, y ∈ l -> f y <> Some k -> y ∈ l')
  /\ (unique_keys l -> unique_keys l').
Proof.
  intros [(l1 & y & l2 & -> & Hy & ->)|[Hno ->]] Hnd; [|done].
  split_and!; [set_solver| |set_solver|].
  - intros z Hz Hk. rewrite omap_app in Hnd. cbn [omap list_omap] in Hnd. rewrite Hy in Hnd.
    apply NoDup_app in Hnd as (_ & Hd & Hnd). apply NoDup_cons in Hnd as [Hn _].
    apply elem_of_app in Hz as [Hz|Hz].
    + apply (Hd k); [|set_solver]. apply list_elem_of_omap. eauto.
    + apply Hn. apply list_elem_of_omap. eauto.
  - intros [H1 H2]. split; by eapply NoDup_omap_remove.
Qed.

Lemma unique_tail (x : Item) l : unique_keys (x :: l) -> unique_keys l.
Proof. intros [H1 H2]. split; by eapply (NoDup_omap_remove _ []). Qed.

Lemma head_key_fresh (f : Item -> option CallKey) x l k : NoDup (omap f (x :: l)) -> f x = Some k -> forall y, y ∈ l -> f y <> Some k.
Proof.
  cbn [omap list_omap]. intros Hnd Hx. rewrite Hx in Hnd. apply NoDup_cons in Hnd as [Hn _]. intros y Hin Hk. apply Hn.
  apply list_elem_of_omap. eauto.
Qed.

(** Pairing survives when an item and every item with its key go. *)
Lemma paired_without k x l l' :
  paired (x :: l) -> (forall y, y ∈ l' -> y ∈ l) ->
  (forall y, y ∈ l' -> call_key y <> Some k /\ output_key y <> Some k) ->
  (forall y, y ∈ l -> call_key y <> Some k -> output_key y <> Some k -> y ∈ l') ->
  (call_key x = Some k /\ output_key x = None \/ output_key x = Some k /\ call_key x = None) -> paired (Value := Value) l'.
Proof.
  intros [Hc Ho] Hsub Hno Hkeep Hx.
  assert (forall y : Item, call_key y <> None -> output_key y = None) as Hexcl.
  { intros y Hy. destruct y as [| | |? [] ? ?| |? [] ? ? ?| | | | | | | | | |]; cbn in *; done. }
  split.
  - intros i k' Hi Hk. destruct (Hc i k') as (o & Hin & Hok); [set_solver|done|]. exists o. split; [|done].
    assert (k' <> k) by (intros ->; by destruct (Hno i Hi)). apply elem_of_cons in Hin as [->|Hin]; [naive_solver|].
    apply Hkeep; [done| |congruence]. intros Hck. assert (call_key o <> None) as Hne by congruence. apply Hexcl in Hne. congruence.
  - intros o k' Hi Hk Hs. destruct (Ho o k') as (i & Hin & Hik); [set_solver|done|done|]. exists i. split; [|done].
    assert (k' <> k) by (intros ->; by destruct (Hno o Hi)). apply elem_of_cons in Hin as [->|Hin]; [naive_solver|].
    apply Hkeep; [done|congruence|]. assert (call_key i <> None) as Hne by congruence. apply Hexcl in Hne. congruence.
Qed.

Lemma remove_corresponding_paired x l :
  paired (x :: l) -> unique_keys (x :: l) ->
  paired (remove_corresponding_for l x) /\ unique_keys (remove_corresponding_for (Value := Value) l x).
Proof.
  intros Hp Hu. pose proof (unique_tail _ _ Hu) as Hut. pose proof Hu as [Huc Huo]. pose proof (corresponding_removes l x) as Hr.
  destruct (call_key x) as [k|] eqn:Hcx; [|destruct (output_key x) as [k|] eqn:Hox].
  - destruct Hr as [Hox Hr]. destruct (removes_facts _ _ _ _ Hr (proj2 Hut)) as (F1 & F2 & F3 & F4). split; [|by apply F4].
    eapply (paired_without k x l); [done|done| |auto|by left].
    intros y Hy. split; [|by apply F2]. eapply head_key_fresh; [apply Huc|done|by apply F1].
  - destruct (removes_facts _ _ _ _ Hr (proj1 Hut)) as (F1 & F2 & F3 & F4). split; [|by apply F4].
    eapply (paired_without k x l); [done|done| |auto|by right].
    intros y Hy. split; [by apply F2|]. eapply head_key_fresh; [apply Huo|done|by apply F1].
  - rewrite Hr. split; [|done]. destruct Hp as [Hc Ho]. split.
    + intros i k Hi Hk. destruct (Hc i k) as (o & Hin & Hok); [set_solver|done|]. exists o. split; [|done].
      apply elem_of_cons in Hin as [->|]; [congruence|done].
    + intros o k Hi Hk Hs. destruct (Ho o k) as (i & Hin & Hok); [set_solver|done|done|]. exists i. split; [|done].
      apply elem_of_cons in Hin as [->|]; [congruence|done].
Qed.
End removal.

(** ** Rolling back turns *)

Section rollback.
Context {Value Ctx : Type} `{External Value}.
Abbreviation Item := (ResponseItem Value).
Abbreviation Manager := (ContextManager Value Ctx).

Definition turns (l : list Item) : nat := length (List.filter is_user_turn_boundary l).
(** The items a rollback trims in front of a turn. *)
Definition is_context_update (i : Item) : bool :=
  match i with
  | Message _ role content _ =>
      ((role =s? lit "developer") && is_contextual_dev_message_content content)
      || ((role =s? lit "user") && is_contextual_user_message_content from_xml_str content)
  | _ => false
  end.
(** A developer message that mixes context with persistent text. *)
Definition is_mixed_bundle (i : Item) : bool :=
  match i with
  | Message _ role content _ =>
      (role =s? lit "developer") && is_contextual_dev_message_content content
      && has_non_contextual_dev_message_content content
  | _ => false
  end.
(** What precedes the first turn. *)
Definition session_prefix (l : list Item) : list Item :=
  take (match user_message_positions l with [] => length l | first :: _ => first end) l.

Lemma turns_app a b : turns (a ++ b) = (turns a + turns b)%nat.
Proof. unfold turns. by rewrite List.filter_app, length_app. Qed.

Lemma context_update_no_turn i : is_context_update i = true -> is_user_turn_boundary i = false.
Proof.
  destruct i as [id role content phase| | | | | | | | | | | | | | |]; try done. cbn [is_context_update is_user_turn_boundary].
  destruct (bool_decide_reflect (role = lit "developer")) as [->|]; [done|].
  destruct (bool_decide_reflect (role = lit "user")) as [->|]; [|done]. cbn [andb orb]. by intros ->.
Qed.
Lemma context_updates_no_turn l : forallb is_context_update l = true -> turns l = 0%nat.
Proof.
  unfold turns. induction l as [|i l IH]; [done|]. cbn [forallb List.filter]. intros [Hi Hl]%andb_true_iff.
  by rewrite context_update_no_turn, IH.
Qed.

(** The [j]-th turn boundary has [j] turns before it. *)
Lemma user_positions_spec idx (l : list Item) j p :
  user_positions_from idx l !! j = Some p ->
  exists a i b, l = a ++ i :: b /\ p = (idx + length a)%nat /\ turns a = j /\ is_user_turn_boundary i = true.
Proof.
  revert idx j. induction l as [|x l IH]; intros idx j Hp; cbn [user_positions_from] in Hp; [done|].
  destruct (is_user_turn_boundary x) eqn:Hx; [destruct j as [|j]|].
  - injection Hp as <-. exists [], x, l. by rewrite Nat.add_0_r.
  - apply IH in Hp as (a & i & b & -> & -> & <- & Hi). exists (x :: a), i, b. unfold turns. cbn. rewrite Hx. cbn.
    split_and!; [done|lia|done|done].
  - apply IH in Hp as (a & i & b & -> & -> & <- & Hi). exists (x :: a), i, b. unfold turns. cbn. rewrite Hx.
    split_and!; [done|lia|done|done].
Qed.
Lemma user_positions_length idx (l : list Item) : length (user_positions_from idx l) = turns l.
Proof.
  revert idx. induction l as [|x l IH]; intros idx; [done|]. unfold turns in *. cbn.
  destruct (is_user_turn_boundary x); cbn; by rewrite IH.
Qed.
Lemma user_positions_sorted idx (l : list Item) j p q : 
  user_positions_from idx l !! 0%nat = Some p -> user_positions_from idx l !! j = Some q -> (p <= q)%nat.
Proof.
  revert idx j. induction l as [|x l IH]; intros idx j Hp Hq; cbn [user_positions_from] in *; [done|].
  destruct (is_user_turn_boundary x); [|by eapply IH]. injection Hp as <-. destruct j; [by injection Hq as <-|].
  apply user_positions_spec in Hq as (a & i & b & _ & -> & _). lia.
Qed.

Lemma trim_context_loop_spec (l : list Item) first cut cleared c cl :
  trim_loop l first cut cleared = (c, cl) -> (first <= cut <= length l)%nat ->
  exists ctx, take cut l = take c l ++ ctx /\ (first <= c <= cut)%nat /\ forallb is_context_update ctx = true
              /\ cl = cleared || existsb is_mixed_bundle ctx.
Proof.
  revert cleared. induction cut as [|cut IH]; intros cleared Ht Hle; cbn [trim_loop] in Ht.
  { injection Ht as <- <-. exists []. rewrite app_nil_r, orb_false_r. split_and!; [done|lia|lia|done|done]. }
  assert (forall cl', (S cut, cl') = (c, cl) -> cl' = cleared -> exists ctx, take (S cut) l = take c l ++ ctx
    /\ (first <= c <= S cut)%nat /\ forallb is_context_update ctx = true /\ cl = cleared || existsb is_mixed_bundle ctx) as Hstop.
  { intros cl' [= <- <-] ->. exists []. rewrite app_nil_r, orb_false_r. split_and!; [done|lia|lia|done|done]. }
  destruct (Nat.ltb_spec first (S cut)); [|by apply (Hstop cleared)].
  destruct (l !! cut) as [i|] eqn:Hi; [|by apply (Hstop cleared)].
  assert (forall cleared', is_context_update i = true -> cleared' = cleared || is_mixed_bundle i ->
    trim_loop l first cut cleared' = (c, cl) -> exists ctx, take (S cut) l = take c l ++ ctx
    /\ (first <= c <= S cut)%nat /\ forallb is_context_update ctx = true /\ cl = cleared || existsb is_mixed_bundle ctx) as Hgo.
  { intros cleared' Hc -> Hl. apply IH in Hl as (ctx & Htk & Hb & Hf & ->); [|lia]. exists (ctx ++ [i]).
    rewrite (take_S_r _ _ _ Hi), Htk, <- app_assoc. split_and!; [done|lia|lia| |].
    - rewrite forallb_app, Hf. cbn. by rewrite Hc.
    - rewrite existsb_app. cbn. rewrite orb_false_r, <- orb_assoc. f_equal. apply orb_comm. }
  destruct i as [id role content phase| | | | | | | | | | | | | | |]; try by apply (Hstop cleared).
  destruct ((role =s? lit "developer") && is_contextual_dev_message_content content) eqn:Hd.
  { apply (Hgo (cleared || has_non_contextual_dev_message_content content)); [cbn; by rewrite Hd| |done].
    cbn [is_mixed_bundle]. by rewrite Hd. }
  destruct ((role =s? lit "user") && is_contextual_user_message_content from_xml_str content) eqn:Hu.
  { apply (Hgo cleared); [cbn; by rewrite Hd, Hu| |done]. cbn [is_mixed_bundle]. rewrite Hd. by rewrite orb_false_r. }
  by apply (Hstop cleared).
Qed.
End rollback.

(** ** Estimates *)

Section bounds.
Context {Value Ctx : Type} `{External Value}.
Abbreviation Item := (ResponseItem Value).

Lemma estimate_item_range (i : Item) : 0 <= estimate_item_token_count i <= i64_max.
Proof.
  unfold estimate_item_token_count, approx_tokens_from_byte_count_i64.
  generalize (estimate_response_item_model_visible_bytes i). intros b. destruct (b <=? 0)%Z; [by unfold i64_max|].
  cbv zeta. unfold i64_max. lia.
Qed.

Lemma sat_i64_range z : i64_min <= sat_i64 z <= i64_max.
Proof. unfold sat_i64, i64_min, i64_max. lia. Qed.

Lemma sum_from_range acc (l : list Item) :
  0 <= acc <= i64_max ->
  let total := fold_left (fun acc item => sat_i64 (acc + estimate_item_token_count item)) l acc in
  acc <= total <= i64_max.
Proof.
  revert acc. induction l as [|i l IH]; intros acc Ha; cbn [fold_left]; [lia|].
  pose proof (estimate_item_range i). assert (acc <= sat_i64 (acc + estimate_item_token_count i) <= i64_max).
  { unfold sat_i64, i64_min, i64_max in *. lia. }
  specialize (IH (sat_i64 (acc + estimate_item_token_count i))). cbn zeta in *. lia.
Qed.

Lemma sum_estimates_range (l : list Item) : 0 <= sum_estimates l <= i64_max.
Proof. unfold sum_estimates. pose proof (sum_from_range 0 l ltac:(unfold i64_max; lia)). cbn zeta in *. lia. Qed.
Lemma sum_estimates_app (l m : list Item) : sum_estimates l <= sum_estimates (l ++ m).
Proof.
  unfold sum_estimates. rewrite fold_left_app. pose proof (sum_estimates_range l) as Hr. unfold sum_estimates in Hr.
  pose proof (sum_from_range _ m Hr). cbn zeta in *. lia.
Qed.

(** Recording appends. *)
Lemma record_items_app (self self' : ContextManager Value Ctx) new_items policy :
  record_items self new_items policy = Some self' ->
  exists added, items self' = items self ++ added /\ Forall2 (fun i p => process_item i policy = Some p)
    (List.filter is_api_message new_items) added
  /\ history_version self' = history_version self /\ token_info self' = token_info self
  /\ reference_context_item self' = reference_context_item self.
Proof.
  revert self. induction new_items as [|i new_items IH]; intros self; cbn [record_items List.filter].
  - intros [= <-]. exists []. rewrite app_nil_r. split_and!; done || constructor.
  - destruct (is_api_message i); cbn [negb]; [|apply IH].
    destruct (process_item i policy) as [p|] eqn:Hp; [|done]. cbn [mbind option_bind]. intros Hr.
    apply IH in Hr as (added & Hi & Hf & Hv & Ht & Hc). exists (p :: added). cbn in *.
    split_and!; [by rewrite Hi, <- app_assoc|by constructor|done..].
Qed.

Lemma process_item_keys (i p : Item) policy : process_item i policy = Some p -> call_key p = call_key i /\ output_key p = output_key i.
Proof.
  destruct i as [| | |? [] ? ?| |? [] ? ? ?| | | |[] ? ? ?| | | | | |]; cbn [process_item];
    try (by intros [= <-]); try (by intros (? & _ & ->)%fmap_Some_1); intros Hp; apply fmap_Some in Hp as (o & _ & ->); done.
Qed.
End bounds.

(** ** Properties *)

(** C7. A prompt's history is normal: in a release build [for_prompt] returns a
    history in which every tool call has an output and every output a call, which has
    no images where the model takes none, and which normalising again leaves as it
    is, in a debug build too, where an orphan would panic. *)
Theorem prompt_history_normal {Value Ctx : Type} `{External Value} (self : ContextManager Value Ctx)
    (input_modalities : list InputModality) :
  exists out, for_prompt false self input_modalities = Some out
  /\ paired out
  /\ (if bool_decide (ModalityImage ∈ input_modalities) then true else forallb (fun i => negb (has_image i)) out) = true
  /\ for_prompt true (set_items self out) input_modalities = Some out.
Proof.
  unfold for_prompt, normalize_history. rewrite normalize_release.
  eexists. split; [reflexivity|]. pose proof (strip_paired input_modalities _ (kept_paired (items self))) as Hp.
  cbn [items set_items]. split; [exact Hp|]. split.
  - unfold strip_images_when_unsupported. destruct (bool_decide _); [done|]. apply forallb_forall.
    intros i (j & <- & _)%in_map_iff. by rewrite strip_no_image.
  - rewrite normalize_normal; [reflexivity|exact Hp|]. apply strip_strip.
Qed.

(** Normalising loses nothing but orphans: messages, reasoning and calls stay, in
    their order, and so does every output whose call is in the history. *)
Theorem prompt_history_complete {Value Ctx : Type} `{External Value} (self : ContextManager Value Ctx)
    (input_modalities : list InputModality) (out : list (ResponseItem Value))
    (Hout : for_prompt false self input_modalities = Some out) :
  List.filter (fun i => negb (is_tool_output i)) out
  = strip_images_when_unsupported input_modalities (List.filter (fun i => negb (is_tool_output i)) (items self))
  /\ forall o, o ∈ items self -> output_has_call (items self) o = true ->
     exists o', o' ∈ out /\ (o' = o \/ o' = strip_item_images o).
Proof.
  unfold for_prompt, normalize_history in Hout. rewrite normalize_release in Hout. injection Hout as <-.
  cbn [items set_items]. rewrite <- (filter_non_output_expanded (items self)). unfold strip_images_when_unsupported. split.
  - destruct (bool_decide _); [done|]. generalize (kept_items (items self)). intros l. induction l as [|i l IH]; [done|].
    cbn [map List.filter]. destruct (strip_keys i) as (_ & _ & _ & ->). destruct (is_tool_output i); cbn [negb map]; by rewrite IH.
  - intros o Hin Ho. assert (o ∈ kept_items (items self)) as Hk.
    { apply elem_of_kept. split; [apply elem_of_expanded; eauto|]. rewrite output_has_call_spec in *. intros k Hk Hs.
      eapply has_call_mono; [|by apply Ho]. intros i Hi _. apply elem_of_expanded. eauto. }
    destruct (bool_decide _); [by eauto|]. exists (strip_item_images o). split; [|by right].
    apply list_elem_of_In, in_map. by apply list_elem_of_In.
Qed.

(** The external code of the examples: no XML, no JSON, no images. *)
Definition demo_external : External unit :=
  {| from_xml_str _ := None; inter_agent_from_json _ := None; to_json_len _ := Some 100%N;
     base64_decode _ := None; load_from_memory _ := None |}.
Definition demo_user (text : str) : ResponseItem unit := Message None (lit "user") [CInputText text] None.
Definition demo_call (id : str) : ResponseItem unit := FunctionCall None (lit "shell") None (lit "{}") id.
Definition demo_output (id : str) : ResponseItem unit := FunctionCallOutput id (payload_from_text (lit "ok")).
Definition demo_manager (l : list (ResponseItem unit)) : ContextManager unit unit := mkManager l 0 None None.

Lemma prompt_history_complete_witness :
  List.filter (fun i => negb (is_tool_output i)) [demo_user (lit "hi"); demo_call (lit "c"); FunctionCallOutput (lit "c") (payload_from_text (lit "aborted"))]
  = strip_images_when_unsupported [] (List.filter (fun i => negb (is_tool_output i))
      (items (demo_manager [demo_user (lit "hi"); demo_call (lit "c"); demo_output (lit "lost")])))
  /\ forall o, o ∈ items (demo_manager [demo_user (lit "hi"); demo_call (lit "c"); demo_output (lit "lost")]) ->
     output_has_call (items (demo_manager [demo_user (lit "hi"); demo_call (lit "c"); demo_output (lit "lost")])) o = true ->
     exists o', o' ∈ [demo_user (lit "hi"); demo_call (lit "c"); FunctionCallOutput (lit "c") (payload_from_text (lit "aborted"))]
       /\ (o' = o \/ o' = strip_item_images o).
Proof.
  apply (@prompt_history_complete unit unit demo_external
           (demo_manager [demo_user (lit "hi"); demo_call (lit "c"); demo_output (lit "lost")]) []).
  reflexivity.
Defined.

(** Dropping the oldest item keeps calls and outputs paired: with ids used by one
    call and one output, the item goes together with its counterpart and what is left
    is paired again, without another normalisation. *)
Theorem remove_first_keeps_pairing {Value Ctx : Type} `{External Value} (self : ContextManager Value Ctx)
    (Hpaired : paired (items self)) (Hunique : unique_keys (items self)) :
  paired (items (remove_first_item self)) /\ unique_keys (items (remove_first_item self)).
Proof.
  unfold remove_first_item. destruct (items self) as [|x l] eqn:Hi; [by rewrite Hi|].
  cbn [items set_items]. by apply remove_corresponding_paired.
Qed.

Lemma remove_first_keeps_pairing_witness :
  paired (items (remove_first_item (demo_manager [demo_call (lit "c"); demo_user (lit "hi"); demo_output (lit "c")])))
  /\ unique_keys (items (remove_first_item (demo_manager [demo_call (lit "c"); demo_user (lit "hi"); demo_output (lit "c")]))).
Proof.
  apply (@remove_first_keeps_pairing unit unit demo_external
           (demo_manager [demo_call (lit "c"); demo_user (lit "hi"); demo_output (lit "c")])).
  - pose proof (kept_paired [demo_call (lit "c"); demo_user (lit "hi"); demo_output (lit "c")]) as Hk. exact Hk.
  - split; vm_compute; repeat constructor; set_solver.
Defined.

(** The cut of a rollback is the turn that [n] turns follow, or the first one. *)
Lemma rollback_cut_position {Value : Type} `{External Value} (l : list (ResponseItem Value)) first ps n :
  (0 < n)%nat -> user_message_positions l = first :: ps ->
  user_message_positions l !! (turns l - n)%nat
  = Some (if (length (user_message_positions l) <=? n)%nat then first
          else default 0%nat (user_message_positions l !! (length (user_message_positions l) - n)%nat)).
Proof.
  intros Hn Hps. pose proof (user_positions_length 0 l) as Hlen. fold (user_message_positions l) in Hlen. rewrite Hlen.
  destruct (Nat.leb_spec (turns l) n).
  - replace (turns l - n)%nat with 0%nat by lia. by rewrite Hps.
  - destruct (lookup_lt_is_Some_2 (user_message_positions l) (turns l - n)) as [c Hc];
      [rewrite Hlen; rewrite Hps in Hlen; cbn in Hlen; lia|]. by rewrite Hc.
Qed.

(** A rollback of [n] turns removes exactly the last [n] turns (all of them where
    there are fewer) and the injected context directly in front of them, and nothing
    else: what is left is a prefix that keeps everything before the first turn.  The
    reference context is cleared exactly when a mixed developer bundle is trimmed. *)
Theorem rollback_drops_last_turns {Value Ctx : Type} `{External Value} (self : ContextManager Value Ctx) (n : N) :
  exists ctx rest,
    items self = items (drop_last_n_user_turns self n) ++ ctx ++ rest
    /\ forallb is_context_update ctx = true
    /\ match rest with [] => ctx = [] | first :: _ => is_user_turn_boundary first = true end
    /\ turns rest = Nat.min (N.to_nat n) (turns (items self))
    /\ turns (items (drop_last_n_user_turns self n)) = (turns (items self) - N.to_nat n)%nat
    /\ (session_prefix (items self) `prefix_of` items (drop_last_n_user_turns self n))
    /\ reference_context_item (drop_last_n_user_turns self n)
       = (if existsb is_mixed_bundle ctx then None else reference_context_item self)
    /\ history_version (drop_last_n_user_turns self n)
       = (if (n =? 0)%N then history_version self else bump (history_version self)).
Proof.
  assert (forall m : ContextManager Value Ctx, session_prefix (items m) `prefix_of` items m) as Hpre.
  { intros m. unfold session_prefix. exists (drop (match user_message_positions (items m) with [] => length (items m) | first :: _ => first end) (items m)).
    by rewrite take_drop. }
  unfold drop_last_n_user_turns. destruct (N.eqb_spec n 0) as [->|Hn].
  { exists [], []. rewrite app_nil_r. split_and!; try done. cbn. lia. }
  pose proof (user_positions_length 0 (items self)) as Hlen. fold (user_message_positions (items self)) in Hlen.
  destruct (user_message_positions (items self)) as [|first ps] eqn:Hps.
  { exists [], []. rewrite app_nil_r. cbn [length] in Hlen. rewrite <- Hlen. cbn. split_and!; try done; try lia; apply (Hpre self). }
  rewrite <- Hps in *. set (cut := if (length (user_message_positions (items self)) <=? N.to_nat n)%nat then first
    else default 0%nat (user_message_positions (items self) !! (length (user_message_positions (items self)) - N.to_nat n)%nat)).
  pose proof (rollback_cut_position (items self) first ps (N.to_nat n) ltac:(lia) Hps) as Hj. fold cut in Hj.
  assert (user_message_positions (items self) !! 0%nat = Some first) as H0 by (by rewrite Hps).
  pose proof (user_positions_sorted _ _ _ _ _ H0 Hj) as Hfc.
  apply user_positions_spec in Hj as (a & i & b & Hsplit & Hcut & Ha & Hb). cbn [plus] in Hcut.
  unfold trim_pre_turn_context_updates. destruct (trim_loop (items self) first cut false) as [c cl] eqn:Htrim.
  apply trim_context_loop_spec in Htrim as (ctx & Htake & Hc & Hctx & ->); [|rewrite Hsplit, length_app; lia].
  assert (take cut (items self) = a) as Hta by (rewrite Hsplit, Hcut; apply take_app_length).
  rewrite Hta in Htake. exists ctx, (i :: b).
  assert (turns (items self) = turns (take c (items self)) + turns (i :: b))%nat as Htot.
  { rewrite Hsplit at 1. rewrite turns_app, Htake, turns_app, (context_updates_no_turn ctx Hctx). lia. }
  assert (turns (take c (items self)) = turns (items self) - N.to_nat n)%nat as Htc by (rewrite <- Ha, Htake, turns_app, (context_updates_no_turn ctx Hctx); lia).
  cbn [replace items reference_context_item history_version]. 
  assert (items (if false || existsb is_mixed_bundle ctx then set_reference_context_item self None else self) = items self) as Hit
    by (by destruct (false || _)).
  split_and!; [rewrite app_assoc, <- Htake; exact Hsplit|done|done|lia|lia| | |].
  - unfold session_prefix. rewrite Hps. exists (drop first (take c (items self))).
    rewrite <- (take_drop first (take c (items self))) at 1. rewrite take_take. by rewrite Nat.min_l by lia.
  - by destruct (existsb is_mixed_bundle ctx).
  - by destruct (existsb is_mixed_bundle ctx).
Qed.

(** C28. Token estimates stay in range: whatever the items, the estimate is between [0]
    and [i64::MAX] (no overflow, no negative count), and recording more items never
    lowers it. *)
Theorem token_estimate_bounds {Value Ctx : Type} `{External Value} (self self' : ContextManager Value Ctx)
    (base_instructions : str) (new_items : list (ResponseItem Value)) (policy : TruncationPolicy)
    (Hrec : record_items self new_items policy = Some self') :
  0 <= estimate_token_count_with_base_instructions self base_instructions
  /\ estimate_token_count_with_base_instructions self base_instructions
     <= estimate_token_count_with_base_instructions self' base_instructions <= i64_max.
Proof.
  apply record_items_app in Hrec as (added & Hi & _). unfold estimate_token_count_with_base_instructions. rewrite Hi.
  pose proof (sum_estimates_range (items self)). pose proof (sum_estimates_range (items self ++ added)).
  pose proof (sum_estimates_app (items self) added).
  assert (0 <= i64_from_usize (approx_token_count base_instructions)) by (unfold i64_from_usize, i64_max; lia).
  unfold sat_i64, i64_min, i64_max in *. lia.
Qed.

Lemma token_estimate_bounds_witness :
  0 <= @estimate_token_count_with_base_instructions unit unit demo_external (demo_manager []) (lit "be brief")
  /\ @estimate_token_count_with_base_instructions unit unit demo_external (demo_manager []) (lit "be brief")
     <= @estimate_token_count_with_base_instructions unit unit demo_external
          (demo_manager [demo_user (lit "hi"); demo_output (lit "c")]) (lit "be brief") <= i64_max.
Proof.
  apply (@token_estimate_bounds unit unit demo_external (demo_manager []) _ (lit "be brief")
           [demo_user (lit "hi"); Other; demo_output (lit "c")] (Bytes 1000)).
  vm_compute. reflexivity.
Defined.
