(* ===== verification/Rollout.v ===== *)
(** * Rollouts: [core/src/event_mapping.rs], [compact.rs], [thread_rollout_truncation.rs],
    [session/rollout_reconstruction.rs]

    A rollout is the persisted log of a thread.  The history of a resumed thread is
    rebuilt from it: a scan from the newest item finds the last surviving compaction
    and the settings to resume with, then the tail is replayed.  The theorems relate
    that to the plain replay of the whole log, and describe the truncations used to
    fork threads and the histories compaction builds.

    Fresh identifiers (UUIDs) are not modelled: an item's id is an option.
    [summary_prefix] is the text of a prompt file.  A truncation that panics is
    [None]. *)

From S2P Require Import Prelude Truncate ContextFragments History.

(** ** Turn items: [event_mapping.rs], [web_search.rs], [protocol/src/items.rs] *)

Inductive UserInput : Type :=
| UserText (text : str)
| UserImage (image_url : str) (detail : option ImageDetail).

Inductive TurnItem : Type :=
| TurnUserMessage (content : list UserInput)
| TurnHookPrompt (id : option str) (fragments : list HookPromptFragment)
| TurnAgentMessage (id : option str) (content : list str) (phase : option MessagePhase)
| TurnReasoning (id : str) (summary_text raw_content : list str)
| TurnWebSearch (id query : str) (action : WebSearchAction)
| TurnImageGeneration (id status : str) (revised_prompt : option str) (result : str).

Definition LOCAL_IMAGE_OPEN_TAG_PREFIX : str := lit "<image name=".
Definition is_local_image_open_tag_text (text : str) : bool :=
  is_some_and (ends_with (lit ">")) (strip_prefix LOCAL_IMAGE_OPEN_TAG_PREFIX text).
Definition is_image_open_tag_text (text : str) : bool := text =s? lit "<image>".
Definition is_image_close_tag_text (text : str) : bool := text =s? lit "</image>".
Definition is_local_image_close_tag_text (text : str) : bool := is_image_close_tag_text text.

Definition is_input_image (c : option ContentItem) : bool := match c with Some (CInputImage _ _) => true | _ => false end.
(** The loop of [parse_user_message]; [prev] is the item before. *)
Fixpoint user_inputs (prev : option ContentItem) (message : list ContentItem) : list UserInput :=
  match message with
  | [] => []
  | c :: rest =>
      match c with
      | CInputText text =>
          if ((is_local_image_open_tag_text text || is_image_open_tag_text text) && is_input_image (head rest))
             || ((is_local_image_close_tag_text text || is_image_close_tag_text text) && is_input_image prev)
          then user_inputs (Some c) rest
          else UserText text :: user_inputs (Some c) rest
      | CInputImage image_url detail => UserImage image_url detail :: user_inputs (Some c) rest
      | COutputText _ => user_inputs (Some c) rest
      end
  end.
(** [UserMessageItem::message]. *)
Definition user_message_text (content : list UserInput) : str :=
  concat (map (fun c => match c with UserText text => text | _ => [] end) content).

Definition search_action_detail (query : option str) (queries : option (list str)) : str :=
  match query with
  | Some ((_ :: _) as q) => q
  | _ =>
      let first := default [] (queries ≫= head) in
      if is_some_and (fun queries => (1 <? length queries)%nat) queries && negb (first =s? [])
      then first ++ lit " ..." else first
  end.
Definition web_search_action_detail (action : WebSearchAction) : str :=
  match action with
  | WebSearch query queries => search_action_detail query queries
  | WebOpenPage url => default [] url
  | WebFindInPage url pattern =>
      match pattern, url with
      | Some pattern, Some url => lit "'" ++ pattern ++ lit "' in " ++ url
      | Some pattern, None => lit "'" ++ pattern ++ lit "'"
      | None, Some url => url
      | None, None => []
      end
  | WebOther => []
  end.

Section turn_items.
Context {Value : Type} `{External Value}.
Abbreviation Item := (ResponseItem Value).

Definition parse_user_message (message : list ContentItem) : option (list UserInput) :=
  if is_contextual_user_message_content from_xml_str message then None else Some (user_inputs None message).
Definition parse_agent_message (message : list ContentItem) : list str :=
  omap (fun c => match c with CInputText text | COutputText text => Some text | CInputImage _ _ => None end) message.

Definition parse_turn_item (item : Item) : option TurnItem :=
  match item with
  | Message id role content phase =>
      if role =s? lit "user" then
        match parse_visible_hook_prompt_message from_xml_str content with
        | Some fragments => Some (TurnHookPrompt id fragments)
        | None => TurnUserMessage <$> parse_user_message content
        end
      else if role =s? lit "assistant" then Some (TurnAgentMessage id (parse_agent_message content) phase)
      else None
  | Reasoning id summary content _ =>
      Some (TurnReasoning id (map (fun e => match e with SummaryText text => text end) summary)
              (map (fun e => match e with ReasoningText text | ReasoningPlainText text => text end) (default [] content)))
  | WebSearchCall id _ action =>
      let '(action, query) :=
        match action with Some action => (action, web_search_action_detail action) | None => (WebOther, []) end in
      Some (TurnWebSearch (default [] id) query action)
  | ImageGenerationCall id status revised_prompt result => Some (TurnImageGeneration id status revised_prompt result)
  | _ => None
  end.
Definition as_user_message (item : Item) : option (list UserInput) :=
  match parse_turn_item item with Some (TurnUserMessage user) => Some user | _ => None end.

(** ** Compacted histories: [compact.rs] *)

Context (summary_prefix : str).

Definition COMPACT_USER_MESSAGE_MAX_TOKENS : N := 20000.
Definition is_summary_message (message : str) : bool := starts_with (summary_prefix ++ [LF]) message.
Definition collect_user_messages (items : list Item) : list str :=
  omap (fun item => match as_user_message item with
                    | Some user => if is_summary_message (user_message_text user) then None else Some (user_message_text user)
                    | None => None
                    end) items.

(** The loop over the messages from the newest on. *)
Fixpoint select_messages (remaining : N) (newest_first : list str) : option (list str) :=
  match newest_first with
  | [] => Some []
  | message :: rest =>
      if (remaining =? 0)%N then Some []
      else
        let tokens := approx_token_count message in
        if (tokens <=? remaining)%N then cons message <$> select_messages (sat_sub remaining tokens) rest
        else truncated ← truncate_text message (Tokens remaining); Some [truncated]
  end.
Definition user_text_message (text : str) : Item := Message None (lit "user") [CInputText text] None.
Definition build_compacted_history_with_limit (history : list Item) (user_messages : list str) (summary_text : str)
    (max_tokens : N) : option (list Item) :=
  selected ← (if (0 <? max_tokens)%N then @rev str <$> select_messages max_tokens (rev user_messages) else Some []);
  let summary_text := if summary_text =s? [] then lit "(no summary available)" else summary_text in
  Some (history ++ map user_text_message selected ++ [user_text_message summary_text]).
Definition build_compacted_history (initial_context : list Item) (user_messages : list str) (summary_text : str) :
  option (list Item) :=
  build_compacted_history_with_limit initial_context user_messages summary_text COMPACT_USER_MESSAGE_MAX_TOKENS.

(** The scan from the end: the last user message or summary and the last real user
    message at or before index [i - 1]. *)
Fixpoint last_user_indices (items : list Item) (i : nat) (last_user_or_summary : option nat) : option nat * option nat :=
  match i with
  | O => (last_user_or_summary, None)
  | S i' =>
      match items !! i' ≫= as_user_message with
      | None => last_user_indices items i' last_user_or_summary
      | Some user =>
          let last_user_or_summary := match last_user_or_summary with Some n => Some n | None => Some i' end in
          if is_summary_message (user_message_text user) then last_user_indices items i' last_user_or_summary
          else (last_user_or_summary, Some i')
      end
  end.
Definition is_compaction_item (item : Item) : bool :=
  match item with Compaction _ | ContextCompaction _ => true | _ => false end.
Definition or_else {A} (a b : option A) : option A := match a with Some _ => a | None => b end.
Definition insert_initial_context_before_last_real_user_or_summary (compacted_history initial_context : list Item) :
  list Item :=
  let '(last_user_or_summary_index, last_real_user_index) :=
    last_user_indices compacted_history (length compacted_history) None in
  let last_compaction_index := rposition is_compaction_item compacted_history in
  match or_else (or_else last_real_user_index last_user_or_summary_index) last_compaction_index with
  | Some insertion_index => take insertion_index compacted_history ++ initial_context ++ drop insertion_index compacted_history
  | None => compacted_history ++ initial_context
  end.
End turn_items.

(** ** The log: [protocol/src/protocol.rs] *)

(** [tc_rest]: the fields of a turn context the rollout code does not read. *)
Record TurnContextItem (Rest : Type) : Type := mkTurnContext {
  tc_turn_id : option str;
  tc_model : str;
  tc_realtime_active : option bool;
  tc_rest : Rest
}.
Arguments mkTurnContext {Rest}.
Arguments tc_turn_id {Rest}.
Arguments tc_model {Rest}.
Arguments tc_realtime_active {Rest}.
Arguments tc_rest {Rest}.

(** The events the code distinguishes. *)
Inductive RolloutEvent : Type :=
| ThreadRolledBack (num_turns : N)
| TurnComplete (turn_id : str)
| EvTurnAborted (turn_id : option str)
| EvUserMessage
| TurnStarted (turn_id : str)
| EvOther.
Inductive RolloutItem (Value Rest : Type) : Type :=
| RSessionMeta
| RResponseItem (item : ResponseItem Value)
| RCompacted (message : str) (replacement_history : option (list (ResponseItem Value)))
| RTurnContext (ctx : TurnContextItem Rest)
| REventMsg (event : RolloutEvent).
Arguments RSessionMeta {Value Rest}.
Arguments RResponseItem {Value Rest}.
Arguments RCompacted {Value Rest}.
Arguments RTurnContext {Value Rest}.
Arguments REventMsg {Value Rest}.

Inductive InitialHistory (Value Rest : Type) : Type :=
| HistoryNew
| HistoryCleared
| HistoryResumed (history : list (RolloutItem Value Rest))
| HistoryForked (items : list (RolloutItem Value Rest)).
Arguments HistoryNew {Value Rest}.
Arguments HistoryCleared {Value Rest}.
Arguments HistoryResumed {Value Rest}.
Arguments HistoryForked {Value Rest}.

Section rollout.
Context {Value Rest : Type} `{External Value}.
Abbreviation Item := (ResponseItem Value).
Abbreviation RItem := (RolloutItem Value Rest).

(** ** Truncation: [thread_rollout_truncation.rs] *)

Definition scan_rollout_items (self : InitialHistory Value Rest) (predicate : RItem -> bool) : bool :=
  match self with
  | HistoryNew | HistoryCleared => false
  | HistoryResumed history => existsb predicate history
  | HistoryForked items => existsb predicate items
  end.
Definition rollout_item_is_user_turn_boundary (item : RItem) : bool :=
  match item with RResponseItem item => is_user_turn_boundary item | _ => false end.
Definition initial_history_has_prior_user_turns (conversation_history : InitialHistory Value Rest) : bool :=
  scan_rollout_items conversation_history rollout_item_is_user_turn_boundary.

Definition is_real_user_message_boundary (item : Item) : bool := bool_decide (is_Some (as_user_message item)).
Definition is_trigger_turn_boundary (item : Item) : bool :=
  match item with
  | Message _ role content _ => (role =s? lit "assistant") && is_some_and trigger_turn (from_message_content content)
  | _ => false
  end.

Definition is_user_message_item (item : RItem) : bool :=
  match item with
  | RResponseItem ((Message _ _ _ _) as item) => is_real_user_message_boundary item
  | _ => false
  end.
Fixpoint user_positions_loop (idx : nat) (user_positions : list nat) (items : list RItem) : list nat :=
  match items with
  | [] => user_positions
  | item :: items =>
      let user_positions :=
        if is_user_message_item item then user_positions ++ [idx]
        else match item with
             | REventMsg (ThreadRolledBack num_turns) =>
                 take (length user_positions - N.to_nat num_turns) user_positions
             | _ => user_positions
             end in
      user_positions_loop (S idx) user_positions items
  end.
Definition user_message_positions_in_rollout (items : list RItem) : list nat := user_positions_loop 0 [] items.

(** [checked_sub], the entry there, or else the first entry. *)
Definition nth_from_end (positions : list nat) (n : nat) : option nat :=
  if (n <=? length positions)%nat then
    match positions !! (length positions - n)%nat with Some p => Some p | None => head positions end
  else head positions.
Fixpoint fork_positions_loop (idx : nat) (rollback_turn_positions fork_turn_positions : list nat) (items : list RItem) :
  list nat :=
  match items with
  | [] => fork_turn_positions
  | RResponseItem item :: items =>
      fork_positions_loop (S idx)
        (if is_user_turn_boundary item then rollback_turn_positions ++ [idx] else rollback_turn_positions)
        (if is_real_user_message_boundary item || is_trigger_turn_boundary item
         then fork_turn_positions ++ [idx] else fork_turn_positions) items
  | REventMsg (ThreadRolledBack num_turns) :: items =>
      let n := N.to_nat num_turns in
      if (n =? 0)%nat then fork_positions_loop (S idx) rollback_turn_positions fork_turn_positions items
      else match nth_from_end rollback_turn_positions n with
           | None => fork_positions_loop (S idx) rollback_turn_positions fork_turn_positions items
           | Some rollback_start_idx =>
               fork_positions_loop (S idx) (take (length rollback_turn_positions - n) rollback_turn_positions)
                 (List.filter (fun position => position <? rollback_start_idx)%nat fork_turn_positions) items
           end
  | _ :: items => fork_positions_loop (S idx) rollback_turn_positions fork_turn_positions items
  end.
Definition fork_turn_positions_in_rollout (items : list RItem) : list nat := fork_positions_loop 0 [] [] items.

(** [None] for the index stands for [usize::MAX]. *)
Definition truncate_rollout_before_nth_user_message_from_start (items : list RItem) (n_from_start : option nat) : list RItem :=
  match n_from_start with
  | None => items
  | Some n_from_start =>
      let user_positions := user_message_positions_in_rollout items in
      match user_positions !! n_from_start with
      | None => items
      | Some cut_idx => take cut_idx items
      end
  end.
Definition truncate_rollout_to_last_n_fork_turns (items : list RItem) (n_from_end : nat) : list RItem :=
  if (n_from_end =? 0)%nat then []
  else match nth_from_end (fork_turn_positions_in_rollout items) n_from_end with
       | None => []
       | Some keep_idx => drop keep_idx items
       end.
End rollout.

(** ** Reconstruction: [session/rollout_reconstruction.rs] *)

Record PreviousTurnSettings : Type := mkSettings { pts_model : str; pts_realtime_active : option bool }.
Inductive TurnReferenceContextItem (Rest : Type) : Type :=
| NeverSet
| Cleared
| Latest (ctx : TurnContextItem Rest).
Arguments NeverSet {Rest}.
Arguments Cleared {Rest}.
Arguments Latest {Rest}.
Definition is_never_set {Rest} (r : TurnReferenceContextItem Rest) : bool :=
  match r with NeverSet => true | _ => false end.

Record ActiveReplaySegment (Value Rest : Type) : Type := mkSegment {
  seg_turn_id : option str;
  counts_as_user_turn : bool;
  seg_previous_turn_settings : option PreviousTurnSettings;
  seg_reference_context_item : TurnReferenceContextItem Rest;
  seg_base_replacement_history : option (list (ResponseItem Value))
}.
Arguments mkSegment {Value Rest}.
Arguments seg_turn_id {Value Rest}.
Arguments counts_as_user_turn {Value Rest}.
Arguments seg_previous_turn_settings {Value Rest}.
Arguments seg_reference_context_item {Value Rest}.
Arguments seg_base_replacement_history {Value Rest}.

(** The variables of the scan. *)
Record ReplayState (Value Rest : Type) : Type := mkReplay {
  base_replacement_history : option (list (ResponseItem Value));
  previous_turn_settings : option PreviousTurnSettings;
  replay_reference_context_item : TurnReferenceContextItem Rest;
  pending_rollback_turns : N;
  rollout_suffix : list (RolloutItem Value Rest);
  active_segment : option (ActiveReplaySegment Value Rest)
}.
Arguments mkReplay {Value Rest}.
Arguments base_replacement_history {Value Rest}.
Arguments previous_turn_settings {Value Rest}.
Arguments replay_reference_context_item {Value Rest}.
Arguments pending_rollback_turns {Value Rest}.
Arguments rollout_suffix {Value Rest}.
Arguments active_segment {Value Rest}.

Definition turn_ids_are_compatible (active_turn_id item_turn_id : option str) : bool :=
  match active_turn_id, item_turn_id with
  | Some turn_id, Some item_turn_id => item_turn_id =s? turn_id
  | _, _ => true
  end.

Section reconstruction.
Context {Value Rest : Type} `{External Value} (summary_prefix : str).
Abbreviation Item := (ResponseItem Value).
Abbreviation RItem := (RolloutItem Value Rest).
Abbreviation Segment := (ActiveReplaySegment Value Rest).
Abbreviation State := (ReplayState Value Rest).

Definition segment_default : Segment := mkSegment None false None NeverSet None.

Definition finalize_active_segment (active : Segment) (st : State) : State :=
  if (0 <? pending_rollback_turns st)%N then
    mkReplay (base_replacement_history st) (previous_turn_settings st) (replay_reference_context_item st)
      (if counts_as_user_turn active then pending_rollback_turns st - 1 else pending_rollback_turns st)%N
      (rollout_suffix st) None
  else
    mkReplay
      (match base_replacement_history st with Some b => Some b | None => seg_base_replacement_history active end)
      (match previous_turn_settings st with
       | Some s => Some s
       | None => if counts_as_user_turn active then seg_previous_turn_settings active else None
       end)
      (if is_never_set (replay_reference_context_item st)
          && (counts_as_user_turn active
              || match seg_reference_context_item active with Cleared => true | _ => false end)
       then seg_reference_context_item active else replay_reference_context_item st)
      (pending_rollback_turns st) (rollout_suffix st) None.

Definition set_active (st : State) (active : Segment) : State :=
  mkReplay (base_replacement_history st) (previous_turn_settings st) (replay_reference_context_item st)
    (pending_rollback_turns st) (rollout_suffix st) (Some active).
Definition get_active (st : State) : Segment := default segment_default (active_segment st).
Definition set_turn_id (active : Segment) (turn_id : option str) : Segment :=
  mkSegment turn_id (counts_as_user_turn active) (seg_previous_turn_settings active) (seg_reference_context_item active)
    (seg_base_replacement_history active).
Definition or_turn_id (active : Segment) (turn_id : option str) : Segment :=
  match seg_turn_id active with Some _ => active | None => set_turn_id active turn_id end.
Definition mark_user_turn (active : Segment) (b : bool) : Segment :=
  mkSegment (seg_turn_id active) (counts_as_user_turn active || b) (seg_previous_turn_settings active)
    (seg_reference_context_item active) (seg_base_replacement_history active).

(** One item of the scan; [newer] are the items behind it. *)
Definition replay_step (st : State) (item : RItem) (newer : list RItem) : State :=
  match item with
  | RCompacted _ replacement_history =>
      let active := get_active st in
      let reference :=
        if is_never_set (seg_reference_context_item active) then Cleared else seg_reference_context_item active in
      match seg_base_replacement_history active, replacement_history with
      | None, Some replacement =>
          mkReplay (base_replacement_history st) (previous_turn_settings st) (replay_reference_context_item st)
            (pending_rollback_turns st) newer
            (Some (mkSegment (seg_turn_id active) (counts_as_user_turn active) (seg_previous_turn_settings active)
                     reference (Some replacement)))
      | base, _ =>
          set_active st (mkSegment (seg_turn_id active) (counts_as_user_turn active) (seg_previous_turn_settings active)
                           reference base)
      end
  | REventMsg (ThreadRolledBack num_turns) =>
      mkReplay (base_replacement_history st) (previous_turn_settings st) (replay_reference_context_item st)
        (sat_add (pending_rollback_turns st) num_turns) (rollout_suffix st) (active_segment st)
  | REventMsg (TurnComplete turn_id) => set_active st (or_turn_id (get_active st) (Some turn_id))
  | REventMsg (EvTurnAborted turn_id) =>
      match active_segment st, turn_id with
      | Some active, Some turn_id => set_active st (or_turn_id active (Some turn_id))
      | None, Some turn_id => set_active st (set_turn_id segment_default (Some turn_id))
      | _, None => st
      end
  | REventMsg EvUserMessage => set_active st (mark_user_turn (get_active st) true)
  | RTurnContext ctx =>
      let active := or_turn_id (get_active st) (tc_turn_id ctx) in
      set_active st
        (if turn_ids_are_compatible (seg_turn_id active) (tc_turn_id ctx) then
           mkSegment (seg_turn_id active) (counts_as_user_turn active)
             (Some (mkSettings (tc_model ctx) (tc_realtime_active ctx)))
             (if is_never_set (seg_reference_context_item active) then Latest ctx else seg_reference_context_item active)
             (seg_base_replacement_history active)
         else active)
  | REventMsg (TurnStarted turn_id) =>
      match active_segment st with
      | Some active =>
          if turn_ids_are_compatible (seg_turn_id active) (Some turn_id) then finalize_active_segment active st else st
      | None => st
      end
  | RResponseItem response_item => set_active st (mark_user_turn (get_active st) (is_user_turn_boundary response_item))
  | REventMsg EvOther | RSessionMeta => st
  end.

Definition replay_done (st : State) : bool :=
  bool_decide (is_Some (base_replacement_history st)) && bool_decide (is_Some (previous_turn_settings st))
  && negb (is_never_set (replay_reference_context_item st)).

(** The scan from the newest item, with its early exit. *)
Fixpoint scan_newest_first (st : State) (older_rev newer : list RItem) : State :=
  match older_rev with
  | [] => st
  | item :: older_rev =>
      let st := replay_step st item newer in
      if replay_done st then st else scan_newest_first st older_rev (item :: newer)
  end.
Definition scan_rollout (rollout_items : list RItem) : State :=
  let st := scan_newest_first (mkReplay None None NeverSet 0 rollout_items None) (rev rollout_items) [] in
  match active_segment st with Some active => finalize_active_segment active st | None => st end.

Abbreviation Manager := (ContextManager Value (TurnContextItem Rest)).

(** The second loop, over the surviving tail; the flag is
    [saw_legacy_compaction_without_replacement_history]. *)
Definition forward_step (policy : TruncationPolicy) (acc : Manager * bool) (item : RItem) : option (Manager * bool) :=
  let '(history, legacy) := acc in
  match item with
  | RResponseItem response_item => history ← record_items history [response_item] policy; Some (history, legacy)
  | RCompacted message replacement_history =>
      match replacement_history with
      | Some replacement_history => Some (replace history replacement_history, legacy)
      | None =>
          rebuilt ← build_compacted_history [] (collect_user_messages summary_prefix (items history)) message;
          Some (replace history rebuilt, true)
      end
  | REventMsg (ThreadRolledBack num_turns) => Some (drop_last_n_user_turns history num_turns, legacy)
  | REventMsg _ | RTurnContext _ | RSessionMeta => Some acc
  end.
Fixpoint forward_replay (policy : TruncationPolicy) (acc : Manager * bool) (suffix : list RItem) : option (Manager * bool) :=
  match suffix with
  | [] => Some acc
  | item :: suffix => acc ← forward_step policy acc item; forward_replay policy acc suffix
  end.

Record RolloutReconstruction : Type := mkReconstruction {
  rec_history : list Item;
  rec_previous_turn_settings : option PreviousTurnSettings;
  rec_reference_context_item : option (TurnContextItem Rest)
}.
Definition reconstruct_history_from_rollout (policy : TruncationPolicy) (rollout_items : list RItem) :
  option RolloutReconstruction :=
  let st := scan_rollout rollout_items in
  let history := match base_replacement_history st with
                 | Some base => replace manager_new base
                 | None => manager_new
                 end in
  '(history, legacy) ← forward_replay policy (history, false) (rollout_suffix st);
  let reference := match replay_reference_context_item st with Latest ctx => Some ctx | _ => None end in
  Some (mkReconstruction (items history) (previous_turn_settings st) (if legacy : bool then None else reference)).
End reconstruction.

(** ** The scan against the plain replay *)

Section scan.
Context {Value Rest : Type} `{External Value} (summary_prefix : str).
Abbreviation Item := (ResponseItem Value).
Abbreviation RItem := (RolloutItem Value Rest).
Abbreviation State := (ReplayState Value Rest).

Definition is_rollback (i : RItem) : bool := match i with REventMsg (ThreadRolledBack _) => true | _ => false end.
Definition is_checkpoint (i : RItem) : bool := match i with RCompacted _ (Some _) => true | _ => false end.
Definition is_legacy_compaction (i : RItem) : bool := match i with RCompacted _ None => true | _ => false end.

(** The base the scan has found so far, in a finished segment or in the active one. *)
Definition first_base (st : State) : option (list Item) :=
  match base_replacement_history st with
  | Some b => Some b
  | None => active_segment st ≫= seg_base_replacement_history
  end.

Lemma finalize_first_base active (st : State) :
  active_segment st = Some active -> pending_rollback_turns st = 0%N ->
  first_base (finalize_active_segment active st) = first_base st
  /\ pending_rollback_turns (finalize_active_segment active st) = 0%N
  /\ rollout_suffix (finalize_active_segment active st) = rollout_suffix st.
Proof.
  intros Ha Hp. unfold finalize_active_segment, first_base. rewrite Hp, Ha. cbn.
  by destruct (base_replacement_history st), (seg_base_replacement_history active).
Qed.

(** Only a checkpoint changes the base or the tail. *)
Lemma replay_step_other (st : State) item newer :
  is_checkpoint item = false -> is_rollback item = false -> pending_rollback_turns st = 0%N ->
  let st' := replay_step st item newer in
  first_base st' = first_base st /\ pending_rollback_turns st' = 0%N /\ rollout_suffix st' = rollout_suffix st.
Proof.
  intros Hc Hr Hp. cbv zeta.
  assert (forall active, seg_base_replacement_history active = seg_base_replacement_history (get_active st) ->
    first_base (set_active st active) = first_base st) as Hset.
  { intros active Ha. unfold first_base, set_active. cbn. rewrite Ha. unfold get_active.
    destruct (base_replacement_history st); [done|]. by destruct (active_segment st). }
  assert (forall (active : ActiveReplaySegment Value Rest) (t : option str), seg_base_replacement_history (or_turn_id active t) = seg_base_replacement_history active)
    as Hor by (intros active t; unfold or_turn_id; by destruct (seg_turn_id active)).
  destruct item as [|i|m [r|]|ctx|[n|t|t| |t|]]; cbn [replay_step]; try done.
  - by rewrite Hset.
  - destruct (seg_base_replacement_history (get_active st)) eqn:Hb; (split; [|done]); by apply Hset.
  - split; [|done]. apply Hset. destruct (turn_ids_are_compatible _ _); [|apply Hor]. cbn. apply Hor.
  - split; [|done]. apply Hset, Hor.
  - destruct (active_segment st) as [active|] eqn:Ha, t as [t|]; try done; (split; [|done]).
    + apply Hset. rewrite Hor. unfold get_active. by rewrite Ha.
    + apply Hset. unfold get_active. by rewrite Ha.
  - by rewrite Hset.
  - destruct (active_segment st) as [active|] eqn:Ha; [|done]. destruct (turn_ids_are_compatible _ _); [|done].
    by apply finalize_first_base.
Qed.

(** What the scan knows after the items [newer] of [full]. *)
Definition scan_inv (full newer : list RItem) (st : State) : Prop :=
  pending_rollback_turns st = 0%N
  /\ ((forallb (fun i => negb (is_checkpoint i)) newer = true /\ first_base st = None /\ rollout_suffix st = full)
      \/ exists a m r b, newer = a ++ RCompacted m (Some r) :: b /\ first_base st = Some r
           /\ (rollout_suffix st = b \/ exists c, rollout_suffix st = c ++ RCompacted m (Some r) :: b
                /\ exists p, full = p ++ c ++ RCompacted m (Some r) :: b)
           /\ forallb (fun i => negb (is_checkpoint i)) b = true).

Lemma scan_inv_step full older (st : State) item newer :
  full = older ++ item :: newer -> is_rollback item = false -> scan_inv full newer st ->
  scan_inv full (item :: newer) (replay_step st item newer).
Proof.
  intros Hfull Hr [Hp Hinv]. destruct (is_checkpoint item) eqn:Hc.
  - destruct item as [|i|m [r|]|ctx|ev]; try done. cbn [replay_step].
    destruct Hinv as [(Hno & Hb & Hs)|(a & m' & r' & b & Hn & Hb & Hs & Hno)].
    + unfold first_base in Hb. destruct (base_replacement_history st) eqn:Hbs; [done|].
      assert (seg_base_replacement_history (get_active st) = None) as Ha.
      { unfold get_active. by destruct (active_segment st). }
      rewrite Ha. split; [done|]. right. exists [], m, r, newer. split_and!; [done| |by left|done].
      done.
    + destruct (seg_base_replacement_history (get_active st)) as [r0|] eqn:Ha.
      * split; [done|]. right. exists (RCompacted m (Some r) :: a), m', r', b. rewrite Hn. split_and!; [done| |done|done].
        unfold first_base in *. cbn. destruct (base_replacement_history st); [done|]. unfold get_active in Ha.
        destruct (active_segment st); cbn in *; congruence.
      * split; [done|]. right. exists (RCompacted m (Some r) :: a), m', r', b. rewrite Hn. split_and!; [done| | |done].
        -- unfold first_base in *. cbn. destruct (base_replacement_history st); [done|]. unfold get_active in Ha.
           destruct (active_segment st); cbn in *; congruence.
        -- right. exists a. split; [done|]. exists (older ++ [RCompacted m (Some r)]). by rewrite Hfull, Hn, <- app_assoc.
  - destruct (replay_step_other st item newer Hc Hr Hp) as (H1 & H2 & H3). split; [done|]. rewrite H1, H3.
    destruct Hinv as [(Hno & Hb & Hs)|(a & m' & r' & b & -> & Hb & Hs & Hno)].
    + left. split_and!; [|done..]. cbn [forallb]. by rewrite Hc, Hno.
    + right. by exists (item :: a), m', r', b.
Qed.

Lemma scan_newest_inv full older_rev newer (st : State) :
  full = rev older_rev ++ newer -> forallb (fun i => negb (is_rollback i)) older_rev = true -> scan_inv full newer st ->
  exists seen, scan_inv full seen (scan_newest_first st older_rev newer) /\ (exists older, full = older ++ seen)
    /\ (replay_done (scan_newest_first st older_rev newer) = true \/ seen = full).
Proof.
  revert newer st. induction older_rev as [|item older IH]; intros newer st Hf Hr Hi; cbn [scan_newest_first].
  - exists newer. split_and!; [done|by exists []|by right].
  - cbn [forallb] in Hr. apply andb_true_iff in Hr as [Hr Hrs]. apply negb_true_iff in Hr.
    cbn [rev] in Hf. rewrite <- app_assoc in Hf. pose proof (scan_inv_step _ _ _ _ _ Hf Hr Hi) as Hi'.
    destruct (replay_done (replay_step st item newer)) eqn:Hd; [exists (item :: newer); split_and!; eauto|]. by apply IH.
Qed.

(** What the scan leaves for the replay. *)
Lemma scan_rollout_cases (full : list RItem) :
  forallb (fun i => negb (is_rollback i)) full = true ->
  (base_replacement_history (scan_rollout full) = None /\ rollout_suffix (scan_rollout full) = full)
  \/ exists p m r b, full = p ++ RCompacted m (Some r) :: b /\ base_replacement_history (scan_rollout full) = Some r
       /\ (rollout_suffix (scan_rollout full) = b
           \/ exists q c, full = q ++ c ++ RCompacted m (Some r) :: b
                         /\ rollout_suffix (scan_rollout full) = c ++ RCompacted m (Some r) :: b).
Proof.
  intros Hr. unfold scan_rollout. set (st := scan_newest_first _ _ _).
  destruct (scan_newest_inv full (rev full) [] (mkReplay None None NeverSet 0 full None)) as (seen & [Hp Hi] & [older Ho] & Hd).
  { by rewrite rev_involutive, app_nil_r. }
  { apply forallb_forall. intros x Hx%in_rev. rewrite forallb_forall in Hr. by apply Hr. }
  { split; [done|]. by left. }
  fold st in Hp, Hi, Hd.
  set (fin := match active_segment st with Some active => finalize_active_segment active st | None => st end).
  assert (forall st' : State, active_segment st' = None -> base_replacement_history st' = first_base st') as Hnone.
  { intros st' Ha. unfold first_base. rewrite Ha. by destruct (base_replacement_history st'). }
  assert (base_replacement_history fin = first_base st /\ rollout_suffix fin = rollout_suffix st) as [-> ->].
  { subst fin. destruct (active_segment st) as [active|] eqn:Ha.
    - destruct (finalize_first_base active st Ha Hp) as (H1 & _ & H3). split; [|done]. rewrite <- H1.
      apply Hnone. unfold finalize_active_segment. by destruct (0 <? _)%N.
    - split; [|done]. by apply Hnone. }
  destruct Hi as [(Hno & Hb & Hs)|(a & m & r & b & -> & Hb & Hs & Hno)]; [by left|right].
  exists (older ++ a), m, r, b. rewrite Hb, <- app_assoc. split_and!; [done|done|].
  destruct Hs as [->|(c & -> & q & Hq)]; [by left|right]. by exists q, c.
Qed.

(** *** The replay only looks at the items *)

Abbreviation Manager := (ContextManager Value (TurnContextItem Rest)).
Definition replayed (o : option (Manager * bool)) : option (list Item) := items ∘ fst <$> o.

Lemma drop_last_items (m1 m2 : Manager) n :
  items m1 = items m2 -> items (drop_last_n_user_turns m1 n) = items (drop_last_n_user_turns m2 n).
Proof.
  intros He. unfold drop_last_n_user_turns. rewrite He. destruct (n =? 0)%N; [done|].
  destruct (user_message_positions (items m2)); [done|]. unfold trim_pre_turn_context_updates.
  by destruct (trim_loop _ _ _ _).
Qed.

Lemma forward_step_items policy (acc1 acc2 : Manager * bool) item :
  items acc1.1 = items acc2.1 ->
  replayed (forward_step summary_prefix policy acc1 item) = replayed (forward_step summary_prefix policy acc2 item).
Proof.
  destruct acc1 as [m1 b1], acc2 as [m2 b2]. cbn [fst]. intros He. unfold replayed.
  destruct item as [|i|m [r|]|ctx|[n|t|t| |t|]]; cbn [forward_step]; try (cbn; by rewrite ?He).
  - cbn [record_items]. destruct (negb (is_api_message i)); [cbn; by rewrite He|].
    destruct (process_item i policy); cbn; [|done]. by rewrite He.
  - rewrite He. by destruct (build_compacted_history _ _ _).
  - cbn. f_equal. by apply drop_last_items.
Qed.

Lemma forward_replay_items policy l : forall acc1 acc2 : Manager * bool,
  items acc1.1 = items acc2.1 ->
  replayed (forward_replay summary_prefix policy acc1 l) = replayed (forward_replay summary_prefix policy acc2 l).
Proof.
  induction l as [|i l IH]; intros acc1 acc2 He; cbn [forward_replay]; [unfold replayed; cbn; by rewrite He|].
  pose proof (forward_step_items policy acc1 acc2 i He) as Hs.
  destruct (forward_step _ _ acc1 i) as [a1|], (forward_step _ _ acc2 i) as [a2|]; try done. cbn [mbind option_bind].
  apply IH. unfold replayed in Hs. cbn in Hs. congruence.
Qed.

Lemma forward_replay_app policy l l' (acc : Manager * bool) :
  forward_replay summary_prefix policy acc (l ++ l')
  = (forward_replay summary_prefix policy acc l ≫= fun acc => forward_replay summary_prefix policy acc l').
Proof.
  revert acc. induction l as [|i l IH]; intros acc; [done|]. cbn [app forward_replay].
  destruct (forward_step _ _ acc i); [|done]. cbn [mbind option_bind]. apply IH.
Qed.

(** Without legacy compactions a replay that succeeds does so from any history. *)
Lemma forward_replay_total policy l : forall acc1 acc2 : Manager * bool,
  forallb (fun i => negb (is_legacy_compaction i)) l = true ->
  is_Some (forward_replay summary_prefix policy acc1 l) -> is_Some (forward_replay summary_prefix policy acc2 l).
Proof.
  induction l as [|i l IH]; intros acc1 acc2 Hl Hs; [done|]. cbn [forallb forward_replay] in *.
  apply andb_true_iff in Hl as [Hi Hl].
  assert (is_Some (forward_step summary_prefix policy acc1 i) -> is_Some (forward_step summary_prefix policy acc2 i)) as Hstep.
  { destruct acc1 as [m1 b1], acc2 as [m2 b2]. destruct i as [|i|m [r|]|ctx|[n|t|t| |t|]]; cbn [forward_step]; try done.
    cbn [record_items]. destruct (negb (is_api_message i)); [done|]. by destruct (process_item i policy). }
  destruct (forward_step _ _ acc1 i) as [a1|] eqn:H1; [|by destruct Hs].
  destruct Hstep as [a2 ->]; [by eexists|]. cbn [mbind option_bind] in *. by eapply IH.
Qed.
End scan.

(** ** Positions *)

Section positions.
Context {Value Rest : Type} `{External Value}.
Abbreviation RItem := (RolloutItem Value Rest).

Definition count (f : RItem -> bool) (l : list RItem) : nat := length (List.filter f l).
Fixpoint indices (f : RItem -> bool) (idx : nat) (l : list RItem) : list nat :=
  match l with
  | [] => []
  | x :: l => if f x then idx :: indices f (S idx) l else indices f (S idx) l
  end.

Lemma length_indices f idx l : length (indices f idx l) = count f l.
Proof.
  revert idx. induction l as [|x l IH]; intros idx; [done|]. unfold count in *. cbn. destruct (f x); cbn; by rewrite IH.
Qed.

(** The [j]-th index splits the list behind [j] matching items. *)
Lemma lookup_indices f idx l j p :
  indices f idx l !! j = Some p ->
  exists a x b, l = a ++ x :: b /\ p = (idx + length a)%nat /\ count f a = j /\ f x = true.
Proof.
  revert idx j. induction l as [|x l IH]; intros idx j Hp; [done|]. cbn [indices] in Hp. unfold count in *.
  destruct (f x) eqn:Hx; [destruct j as [|j]|].
  - injection Hp as <-. exists [], x, l. split_and!; [done|cbn; lia|done|done].
  - apply IH in Hp as (a & y & b & -> & -> & <- & Hy). exists (x :: a), y, b. cbn. rewrite Hx. cbn.
    split_and!; [done|lia|done|done].
  - apply IH in Hp as (a & y & b & -> & -> & <- & Hy). exists (x :: a), y, b. cbn. rewrite Hx.
    split_and!; [done|lia|done|done].
Qed.

Definition is_fork_turn (i : RItem) : bool :=
  match i with RResponseItem item => is_real_user_message_boundary item || is_trigger_turn_boundary item | _ => false end.

Lemma user_positions_indices idx acc l :
  forallb (fun i => negb (is_rollback i)) l = true ->
  user_positions_loop idx acc l = acc ++ indices is_user_message_item idx l.
Proof.
  revert idx acc. induction l as [|x l IH]; intros idx acc Hl; cbn [user_positions_loop indices]; [by rewrite app_nil_r|].
  cbn [forallb] in Hl. apply andb_true_iff in Hl as [Hx Hl]. rewrite IH by done.
  destruct (is_user_message_item x) eqn:Hu; [by rewrite <- app_assoc|]. by destruct x as [| | | |[]].
Qed.
Lemma fork_positions_indices idx rb acc l :
  forallb (fun i => negb (is_rollback i)) l = true ->
  fork_positions_loop idx rb acc l = acc ++ indices is_fork_turn idx l.
Proof.
  revert idx rb acc. induction l as [|x l IH]; intros idx rb acc Hl; cbn [fork_positions_loop indices]; [by rewrite app_nil_r|].
  cbn [forallb] in Hl. apply andb_true_iff in Hl as [Hx Hl].
  destruct x as [|i| | |[]]; try done; cbn [is_fork_turn]; rewrite IH by done; try done.
  destruct (is_real_user_message_boundary i || is_trigger_turn_boundary i); [by rewrite <- app_assoc|done].
Qed.

(** ** Selected messages *)

Definition tokens_of (l : list str) : N := foldr (fun m acc => approx_token_count m + acc)%N 0%N l.

(** Of the newest messages, as many as fit, and one more cut to what is left. *)
Lemma select_messages_spec remaining newest_first selected :
  select_messages remaining newest_first = Some selected ->
  exists kept rest, newest_first = kept ++ rest /\ (tokens_of kept <= remaining)%N
  /\ match rest with
     | [] => selected = kept
     | message :: _ =>
         if (tokens_of kept =? remaining)%N then selected = kept
         else (remaining < tokens_of kept + approx_token_count message)%N
              /\ exists cut, truncate_text message (Tokens (remaining - tokens_of kept)) = Some cut /\ selected = kept ++ [cut]
     end.
Proof.
  revert remaining selected. induction newest_first as [|m l IH]; intros remaining selected; cbn [select_messages].
  - intros [= <-]. exists [], []. cbn. split_and!; [done|lia|done].
  - destruct (N.eqb_spec remaining 0) as [->|Hr].
    { intros [= <-]. exists [], (m :: l). cbn. split_and!; [done|lia|done]. }
    destruct (N.leb_spec (approx_token_count m) remaining) as [Hle|Hgt].
    + intros Hs. apply fmap_Some in Hs as (sel & Hs & ->). apply IH in Hs as (kept & rest & -> & Hk & Hrest).
      unfold sat_sub in *. exists (m :: kept), rest. cbn [tokens_of foldr]. fold (tokens_of kept).
      split_and!; [done|lia|]. destruct rest as [|x rest]; [by subst|].
      destruct (N.eqb_spec (tokens_of kept) (remaining - approx_token_count m)) as [He|Hne].
      * subst. by rewrite (proj2 (N.eqb_eq _ _)) by lia.
      * rewrite (proj2 (N.eqb_neq _ _)) by lia. destruct Hrest as (Hlt & cut & Hcut & ->). split; [lia|].
        exists cut. split; [|done]. rewrite <- Hcut. do 2 f_equal. lia.
    + destruct (truncate_text m (Tokens remaining)) as [cut|] eqn:Hcut; [|done]. intros [= <-].
      exists [], (m :: l). cbn [tokens_of foldr]. rewrite (proj2 (N.eqb_neq _ _)) by lia. rewrite N.sub_0_r.
      split_and!; [done|lia|lia|]. by exists cut.
Qed.

(** ** Insertion of the initial context *)

Lemma last_user_indices_spec sp (l : list (ResponseItem Value)) i acc u r :
  last_user_indices sp l i acc = (u, r) ->
  match r with
  | Some n => (n < i)%nat /\ (exists it user, l !! n = Some it /\ as_user_message it = Some user
                              /\ is_summary_message sp (user_message_text user) = false)
              /\ (forall j, (n < j < i)%nat -> forall it user, l !! j = Some it -> as_user_message it = Some user ->
                    is_summary_message sp (user_message_text user) = true)
  | None => forall j, (j < i)%nat -> forall it user, l !! j = Some it -> as_user_message it = Some user ->
              is_summary_message sp (user_message_text user) = true
  end.
Proof.
  revert acc. induction i as [|i IH]; intros acc; cbn [last_user_indices]; [intros [= <- <-]; lia|].
  assert (forall acc' (Hskip : forall it user, l !! i = Some it -> as_user_message it = Some user ->
      is_summary_message sp (user_message_text user) = true), last_user_indices sp l i acc' = (u, r) ->
    match r with
    | Some n => (n < S i)%nat /\ (exists it user, l !! n = Some it /\ as_user_message it = Some user
                              /\ is_summary_message sp (user_message_text user) = false)
              /\ (forall j, (n < j < S i)%nat -> forall it user, l !! j = Some it -> as_user_message it = Some user ->
                    is_summary_message sp (user_message_text user) = true)
    | None => forall j, (j < S i)%nat -> forall it user, l !! j = Some it -> as_user_message it = Some user ->
              is_summary_message sp (user_message_text user) = true
    end) as Hgo.
  { intros acc' Hskip Hl. apply IH in Hl. destruct r as [n|].
    - destruct Hl as (Hn & Hex & Hall). split_and!; [lia|done|]. intros j Hj.
      destruct (decide (j = i)) as [->|]; [done|]. apply Hall. lia.
    - intros j Hj. destruct (decide (j = i)) as [->|]; [done|]. apply Hl. lia. }
  destruct (l !! i) as [it|] eqn:Hi; cbn [mbind option_bind]; [|apply Hgo; by intros].
  destruct (as_user_message it) as [user|] eqn:Hu; [|apply Hgo; intros ? ? [= <-]; congruence].
  destruct (is_summary_message sp (user_message_text user)) eqn:Hs; [apply Hgo; intros ? ? [= <-]; congruence|].
  intros [= <- <-]. split_and!; [lia|eauto|lia].
Qed.
End positions.

(** ** Properties *)

(** C18. The history rebuilt from a rollout is the plain replay: for a log without
    rollback markers and legacy compactions, starting at the newest checkpoint, found
    by a scan from the end that may stop early, gives the same history as replaying
    every item from the beginning. *)
Theorem reconstruction_is_replay {Value Rest : Type} `{External Value} (summary_prefix : str) (policy : TruncationPolicy)
    (full : list (RolloutItem Value Rest)) (m : ContextManager Value (TurnContextItem Rest)) (legacy : bool)
    (Hrollback : forallb (fun i => negb (is_rollback i)) full = true)
    (Hlegacy : forallb (fun i => negb (is_legacy_compaction i)) full = true)
    (Hreplay : forward_replay summary_prefix policy (manager_new, false) full = Some (m, legacy)) :
  exists rec, reconstruct_history_from_rollout summary_prefix policy full = Some rec /\ rec_history rec = items m.
Proof.
  unfold reconstruct_history_from_rollout.
  assert (forall start, replayed (forward_replay summary_prefix policy (start, false) (rollout_suffix (scan_rollout full))) = Some (items m) ->
    exists rec, ('(history, legacy) ← forward_replay summary_prefix policy (start, false) (rollout_suffix (scan_rollout full));
      Some (mkReconstruction (items history) (previous_turn_settings (scan_rollout full))
        (if legacy : bool then None else match replay_reference_context_item (scan_rollout full) with Latest ctx => Some ctx | _ => None end)))
      = Some rec /\ rec_history rec = items m) as Hdone.
  { intros start Hs. unfold replayed in Hs. destruct (forward_replay _ _ (start, false) _) as [[h l]|]; [|done].
    cbn in *. eexists. split; [done|]. cbn. congruence. }
  destruct (scan_rollout_cases full Hrollback) as [[-> Hs]|(p & msg & r & b & Hfull & -> & Hs)].
  { apply Hdone. rewrite Hs, Hreplay. done. }
  apply Hdone.
  assert (forall acc, replayed (forward_replay summary_prefix policy acc (RCompacted msg (Some r) :: b)) = Some (items m)) as Hck.
  { intros acc. rewrite Hfull, forward_replay_app in Hreplay.
    destruct (forward_replay _ _ _ p) as [acc'|]; [|done]. cbn [mbind option_bind] in Hreplay.
    transitivity (replayed (forward_replay summary_prefix policy acc' (RCompacted msg (Some r) :: b))); [|by rewrite Hreplay].
    destruct acc, acc'. cbn [forward_replay forward_step mbind option_bind]. by apply forward_replay_items. }
  destruct Hs as [->|(q & c & Hq & ->)].
  - specialize (Hck (manager_new, false)). cbn [forward_replay forward_step mbind option_bind] in Hck.
    rewrite <- Hck. by apply forward_replay_items.
  - rewrite forward_replay_app. rewrite Hq, !forward_replay_app in Hreplay.
    destruct (forward_replay _ _ _ q) as [accq|]; [|done]. cbn [mbind option_bind] in Hreplay. 
    rewrite forward_replay_app in Hreplay.
    destruct (forward_replay_total summary_prefix policy c accq (replace manager_new r, false)) as [acc Hacc].
    { rewrite Hq, !forallb_app in Hlegacy. by apply andb_true_iff in Hlegacy as [_ [Hl _]%andb_true_iff]. }
    { destruct (forward_replay _ _ accq c); [by eexists|done]. }
    rewrite Hacc. cbn [mbind option_bind]. apply Hck.
Qed.

Definition demo_ritem (i : ResponseItem unit) : RolloutItem unit unit := RResponseItem i.
Definition demo_rollout : list (RolloutItem unit unit) :=
  [ REventMsg (TurnStarted (lit "t1")); REventMsg EvUserMessage; demo_ritem (demo_user (lit "a"));
    REventMsg (TurnComplete (lit "t1"));
    REventMsg (TurnStarted (lit "t2")); REventMsg EvUserMessage; demo_ritem (demo_user (lit "b"));
    RCompacted (lit "sum") (Some [demo_user (lit "summary")]); demo_ritem (demo_call (lit "c"));
    REventMsg (TurnComplete (lit "t2")) ].

Lemma reconstruction_is_replay_witness :
  exists rec, @reconstruct_history_from_rollout unit unit demo_external (lit "S") (Bytes 1000) demo_rollout = Some rec
    /\ rec_history rec = [demo_user (lit "summary"); demo_call (lit "c")].
Proof.
  apply (@reconstruction_is_replay unit unit demo_external (lit "S") (Bytes 1000) demo_rollout
           (mkManager [demo_user (lit "summary"); demo_call (lit "c")] 1 None None) false); reflexivity.
Defined.

(** A rollback over a compaction loses the thread: when the rolled-back turn
    contains the only checkpoint, the scan has already cut the log at it, drops it
    with its turn, and replays from an empty history, although the turn before it
    survives, its settings included. *)
Theorem rollback_over_checkpoint_loses_history :
  let ctx := mkTurnContext (Some (lit "t1")) (lit "model") None tt in
  let rollout :=
    [ REventMsg (TurnStarted (lit "t1")); REventMsg EvUserMessage; RTurnContext ctx; demo_ritem (demo_user (lit "a"));
      REventMsg (TurnComplete (lit "t1"));
      REventMsg (TurnStarted (lit "t2")); REventMsg EvUserMessage; demo_ritem (demo_user (lit "b"));
      RCompacted (lit "sum") (Some [demo_user (lit "a"); demo_user (lit "summary")]);
      REventMsg (TurnComplete (lit "t2")); REventMsg (ThreadRolledBack 1) ] in
  @reconstruct_history_from_rollout unit unit demo_external (lit "S") (Bytes 1000) rollout
    = Some (mkReconstruction [] (Some (mkSettings (lit "model") None)) (Some ctx))
  /\ replayed (@forward_replay unit unit demo_external (lit "S") (Bytes 1000) (manager_new, false) rollout)
    = Some [demo_user (lit "a")].
Proof. vm_compute. done. Qed.

(** Cutting a rollout before the [n]-th user message: without rollback markers the
    result is the prefix with exactly [n] user messages that the next one follows, or
    everything where there are not that many. *)
Theorem truncate_before_nth_user_message {Value Rest : Type} `{External Value} (l : list (RolloutItem Value Rest)) (n : nat)
    (Hrollback : forallb (fun i => negb (is_rollback i)) l = true) :
  if (n <? count is_user_message_item l)%nat then
    exists u rest, l = truncate_rollout_before_nth_user_message_from_start l (Some n) ++ u :: rest
      /\ count is_user_message_item (truncate_rollout_before_nth_user_message_from_start l (Some n)) = n
      /\ is_user_message_item u = true
  else truncate_rollout_before_nth_user_message_from_start l (Some n) = l.
Proof.
  unfold truncate_rollout_before_nth_user_message_from_start, user_message_positions_in_rollout.
  rewrite user_positions_indices by done. cbn [app]. rewrite <- (length_indices is_user_message_item 0 l).
  destruct (Nat.ltb_spec n (length (indices is_user_message_item 0 l))) as [Hlt|Hge].
  - destruct (lookup_lt_is_Some_2 _ _ Hlt) as [p Hp]. rewrite Hp. apply lookup_indices in Hp as (a & x & b & -> & -> & Ha & Hx).
    cbn [plus]. rewrite take_app_length. eauto.
  - by rewrite lookup_ge_None_2.
Qed.

Lemma truncate_before_nth_user_message_witness :
  exists u rest, demo_rollout = @truncate_rollout_before_nth_user_message_from_start unit unit demo_external demo_rollout (Some 1%nat) ++ u :: rest
    /\ @count unit unit (@is_user_message_item unit unit demo_external)
         (@truncate_rollout_before_nth_user_message_from_start unit unit demo_external demo_rollout (Some 1%nat)) = 1%nat
    /\ @is_user_message_item unit unit demo_external u = true.
Proof. exact (@truncate_before_nth_user_message unit unit demo_external demo_rollout 1 eq_refl). Defined.

(** Keeping the last [n] fork turns: without rollback markers the result is a
    suffix of the rollout that starts at a fork turn and has exactly [n] of them, or
    all where there are fewer; without any fork turn nothing is kept. *)
Theorem keep_last_fork_turns {Value Rest : Type} `{External Value} (l : list (RolloutItem Value Rest)) (n : nat)
    (Hn : (0 < n)%nat) (Hrollback : forallb (fun i => negb (is_rollback i)) l = true) :
  exists dropped, (if (0 <? count is_fork_turn l)%nat then l = dropped ++ truncate_rollout_to_last_n_fork_turns l n
                   else truncate_rollout_to_last_n_fork_turns l n = [])
  /\ count is_fork_turn (truncate_rollout_to_last_n_fork_turns l n) = Nat.min n (count is_fork_turn l)
  /\ (truncate_rollout_to_last_n_fork_turns l n = []
      \/ exists t rest, truncate_rollout_to_last_n_fork_turns l n = t :: rest /\ is_fork_turn t = true).
Proof.
  unfold truncate_rollout_to_last_n_fork_turns, fork_turn_positions_in_rollout, nth_from_end.
  rewrite (proj2 (Nat.eqb_neq n 0)) by lia. rewrite fork_positions_indices by done. cbn [app].
  pose proof (length_indices is_fork_turn 0 l) as Hlen.
  assert (forall p a x b, l = a ++ x :: b -> p = length a -> is_fork_turn x = true ->
    count is_fork_turn a = (count is_fork_turn l - n)%nat ->
    exists dropped, (if (0 <? count is_fork_turn l)%nat then l = dropped ++ drop p l else drop p l = [])
      /\ count is_fork_turn (drop p l) = Nat.min n (count is_fork_turn l)
      /\ (drop p l = [] \/ exists t rest, drop p l = t :: rest /\ is_fork_turn t = true)) as Hcut.
  { intros p a x b -> -> Hx Ha. rewrite drop_app_length. exists a. unfold count in *.
    rewrite List.filter_app, length_app in *. cbn [List.filter] in *. rewrite Hx in *. cbn [length] in *.
    rewrite (proj2 (Nat.ltb_lt _ _)) by lia. split_and!; [done|lia|eauto]. }
  assert (forall j p, indices is_fork_turn 0 l !! j = Some p -> j = (count is_fork_turn l - n)%nat ->
    exists dropped, (if (0 <? count is_fork_turn l)%nat then l = dropped ++ drop p l else drop p l = [])
      /\ count is_fork_turn (drop p l) = Nat.min n (count is_fork_turn l)
      /\ (drop p l = [] \/ exists t rest, drop p l = t :: rest /\ is_fork_turn t = true)) as Hidx.
  { intros j p Hp Hj. apply lookup_indices in Hp as (a & x & b & Hl & Hpa & Ha & Hx). eapply Hcut; [done|done|done|lia]. }
  rewrite Hlen. destruct (Nat.leb_spec n (count is_fork_turn l)) as [Hle|Hgt].
  - destruct (lookup_lt_is_Some_2 (indices is_fork_turn 0 l) (count is_fork_turn l - n)) as [p Hp]; [lia|].
    rewrite Hp. by eapply Hidx.
  - destruct (indices is_fork_turn 0 l) as [|p ps] eqn:Hi; cbn [head].
    + exists []. cbn in Hlen. rewrite <- Hlen. split_and!; [done|cbn; lia|by left].
    + apply (Hidx 0%nat); [done|lia].
Qed.

Lemma keep_last_fork_turns_witness :
  exists dropped, demo_rollout = dropped ++ @truncate_rollout_to_last_n_fork_turns unit unit demo_external demo_rollout 1
  /\ @count unit unit (@is_fork_turn unit unit demo_external)
       (@truncate_rollout_to_last_n_fork_turns unit unit demo_external demo_rollout 1) = 1%nat
  /\ (@truncate_rollout_to_last_n_fork_turns unit unit demo_external demo_rollout 1 = []
      \/ exists t rest, @truncate_rollout_to_last_n_fork_turns unit unit demo_external demo_rollout 1 = t :: rest
           /\ @is_fork_turn unit unit demo_external t = true).
Proof. exact (@keep_last_fork_turns unit unit demo_external demo_rollout 1 ltac:(lia) eq_refl). Defined.

(** A compacted history is the initial context, the newest user messages that fit
    the token budget in their order (the oldest of them cut to what is left of it) and
    the summary: no message is skipped in favour of an older one, and the uncut ones
    together stay within the budget. *)
Theorem compacted_history_shape {Value : Type} `{External Value} (history out : list (ResponseItem Value))
    (user_messages : list str) (summary_text : str) (max_tokens : N)
    (Hout : build_compacted_history_with_limit history user_messages summary_text max_tokens = Some out) :
  exists older cut kept summary,
    user_messages = older ++ kept
    /\ out = history ++ map user_text_message (cut ++ kept) ++ [user_text_message summary]
    /\ (tokens_of kept <= max_tokens)%N
    /\ summary <> []
    /\ match cut with
       | [] => True
       | _ => exists older' message, older = older' ++ [message] /\ (max_tokens < tokens_of kept + approx_token_count message)%N
                /\ exists text, cut = [text] /\ truncate_text message (Tokens (max_tokens - tokens_of kept)) = Some text
       end.
Proof.
  unfold build_compacted_history_with_limit in Hout.
  set (summary := if summary_text =s? [] then lit "(no summary available)" else summary_text) in Hout.
  assert (summary <> []) as Hsum by (subst summary; by case_bool_decide).
  assert (forall l, tokens_of (rev l) = tokens_of l) as Hrev.
  { assert (forall a b, tokens_of (a ++ b) = (tokens_of a + tokens_of b)%N) as Happ.
    { intros a b. unfold tokens_of. induction a as [|x a IH]; cbn [app foldr]; [done|]. rewrite IH. lia. }
    induction l as [|x l IH]; [done|]. cbn [rev]. rewrite Happ, IH. unfold tokens_of. cbn [foldr]. lia. }
  destruct (0 <? max_tokens)%N.
  - destruct (select_messages max_tokens (rev user_messages)) as [sel|] eqn:Hsel; [|done]. cbn in Hout. injection Hout as <-.
    apply select_messages_spec in Hsel as (kept & rest & Hum & Hle & Hrest).
    apply (f_equal (@rev str)) in Hum. rewrite rev_involutive, rev_app_distr in Hum.
    destruct rest as [|message rest].
    + subst sel. exists [], [], (rev kept), summary. cbn in *. split_and!; [done|done|by rewrite Hrev|done|done].
    + destruct (N.eqb_spec (tokens_of kept) max_tokens) as [He|Hne].
      * subst sel. exists (rev (message :: rest)), [], (rev kept), summary.
        split_and!; [done|done|by rewrite Hrev|done|done].
      * destruct Hrest as (Hlt & cut & Hcut & ->). exists (rev (message :: rest)), [cut], (rev kept), summary.
        rewrite rev_app_distr, Hrev. split_and!; [done|done|done|done|].
        exists (rev rest), message. split_and!; [done|done|]. by exists cut.
  - cbn in Hout. injection Hout as <-. exists user_messages, [], [], summary.
    split_and!; [by rewrite app_nil_r|done|cbn; lia|done|done].
Qed.

Lemma compacted_history_shape_witness :
  exists older cut kept summary,
    [lit "one"; lit "two two"; lit "three"] = older ++ kept
    /\ [user_text_message (Value := unit) (lit "two two"); user_text_message (lit "three"); user_text_message (lit "sum")]
       = [] ++ map user_text_message (cut ++ kept) ++ [user_text_message summary]
    /\ (tokens_of kept <= 4)%N
    /\ summary <> []
    /\ match cut with
       | [] => True
       | _ => exists older' message, older = older' ++ [message] /\ (4 < tokens_of kept + approx_token_count message)%N
                /\ exists text, cut = [text] /\ truncate_text message (Tokens (4 - tokens_of kept)) = Some text
       end.
Proof.
  apply (@compacted_history_shape unit demo_external [] _ [lit "one"; lit "two two"; lit "three"] (lit "sum") 4).
  reflexivity.
Defined.

(** The initial context is put back in one piece, directly before the last real
    user message where there is one: what precedes and follows it is the compacted
    history, and behind it come no real user messages but that one. *)
Theorem initial_context_placed {Value : Type} `{External Value} (summary_prefix : str)
    (compacted_history initial_context : list (ResponseItem Value)) :
  exists a b,
    compacted_history = a ++ b
    /\ insert_initial_context_before_last_real_user_or_summary summary_prefix compacted_history initial_context
       = a ++ initial_context ++ b
    /\ let real := fun i => match as_user_message i with
                            | Some user => negb (is_summary_message summary_prefix (user_message_text user))
                            | None => false
                            end in
       if existsb real compacted_history
       then exists u b', b = u :: b' /\ real u = true /\ existsb real b' = false
       else True.
Proof.
  unfold insert_initial_context_before_last_real_user_or_summary.
  set (real := fun i => match as_user_message i with
                        | Some user => negb (is_summary_message summary_prefix (user_message_text user))
                        | None => false
                        end).
  destruct (last_user_indices summary_prefix compacted_history (length compacted_history) None) as [u r] eqn:Hl.
  apply last_user_indices_spec in Hl. destruct r as [n|].
  - destruct Hl as (Hn & (it & user & Hit & Hu & Hs) & Hall). cbn [or_else].
    exists (take n compacted_history), (drop n compacted_history). split_and!; [by rewrite take_drop|done|].
    destruct (existsb real compacted_history); [|done]. exists it, (drop (S n) compacted_history).
    split_and!; [by apply drop_S|subst real; cbn; by rewrite Hu, Hs|].
    apply not_true_iff_false. intros (x & Hx & Hr)%existsb_exists. apply list_elem_of_In, list_elem_of_lookup_1 in Hx as [j Hj].
    rewrite lookup_drop in Hj. subst real. cbn in Hr. destruct (as_user_message x) as [ux|] eqn:Hux; [|done].
    assert (S n + j < length compacted_history)%nat by (by eapply lookup_lt_Some).
    rewrite (Hall (S n + j)%nat ltac:(lia) x ux Hj Hux) in Hr. done.
  - assert (existsb real compacted_history = false) as ->.
    { apply not_true_iff_false. intros (x & Hx & Hr)%existsb_exists. apply list_elem_of_In, list_elem_of_lookup_1 in Hx as [j Hj].
      subst real. cbn in Hr. destruct (as_user_message x) as [ux|] eqn:Hux; [|done].
      assert (j < length compacted_history)%nat by (by eapply lookup_lt_Some).
      rewrite (Hl j ltac:(lia) x ux Hj Hux) in Hr. done. }
    destruct (or_else (or_else None u) (rposition is_compaction_item compacted_history)) as [k|].
    + exists (take k compacted_history), (drop k compacted_history). by rewrite take_drop.
    + exists compacted_history, []. by rewrite !app_nil_r.
Qed.

(** The reader of the example: one message is an inter-agent instruction. *)
Definition demo_agents : External unit :=
  {| from_xml_str _ := None;
     inter_agent_from_json text :=
       if text =s? lit "{agent}" then Some (mkInterAgent (lit "x") (lit "y") [] [] None false) else None;
     to_json_len _ := None; base64_decode _ := None; load_from_memory _ := None |}.

(** Rollback markers count instruction turns, but the positions of user messages
    are cut by the same number: after a rollback of an inter-agent turn the last user
    message, which survives in the history, is no longer found, and a truncation
    before it keeps the whole rollout. *)
Theorem user_positions_after_agent_rollback :
  let rollout := [ demo_ritem (demo_user (lit "a")); demo_ritem (demo_user (lit "b"));
                   demo_ritem (Message None (lit "assistant") [COutputText (lit "{agent}")] None);
                   REventMsg (ThreadRolledBack 1) ] in
  replayed (@forward_replay unit unit demo_agents (lit "S") (Bytes 1000) (manager_new, false) rollout)
    = Some [demo_user (lit "a"); demo_user (lit "b")]
  /\ @user_message_positions_in_rollout unit unit demo_agents rollout = [0%nat]
  /\ @truncate_rollout_before_nth_user_message_from_start unit unit demo_agents rollout (Some 1%nat) = rollout.
Proof. vm_compute. done. Qed.
