(* ===== verification/AbsolutePath.v ===== *)
(** * Absolute, normalised paths: [utils/absolute-path/src]

    Unix paths.  A [Path] is compared through its components, so a path is the
    list of its components; [components] is [std::path::Path::components] and
    [display] its inverse on normalised paths.  [resolve_path_against_base] is
    how every path of a patch becomes the path of a file: the theorems show
    that the result is absolute and free of [.] and [..] whatever the patch
    says, and that it prints and parses back. *)

From S2P Require Import Prelude.

Inductive Component : Type :=
| RootDir
| CurDir
| ParentDir
| Normal (name : str).

#[export] Instance Component_eq_dec : EqDecision Component.
Proof. solve_decision. Defined.
#[export] Instance Component_countable : Countable Component.
Proof.
  refine (inj_countable'
    (fun c => match c with
              | RootDir => inl 0%nat | CurDir => inl 1%nat | ParentDir => inl 2%nat
              | Normal n => inr n end)
    (fun x => match x with
              | inl 0%nat => RootDir | inl 1%nat => CurDir | inl _ => ParentDir
              | inr n => Normal n end) _).
  by intros [].
Defined.

Definition SLASH : char := 47%N.
Abbreviation path := (list Component) (only parsing).

(** A piece between slashes: an empty one and an inner [.] are skipped. *)
Definition component_of (piece : str) : option Component :=
  if piece =s? [] then None
  else if piece =s? lit "." then None
  else if piece =s? lit ".." then Some ParentDir
  else Some (Normal piece).

(** [Path::components] *)
Definition components (p : str) : path :=
  match split_on SLASH p with
  | [] => []
  | first :: rest =>
      (if first =s? [] then (if p =s? [] then [] else [RootDir])
       else if first =s? lit "." then [CurDir]
       else match component_of first with Some c => [c] | None => [] end)
      ++ omap component_of rest
  end.

Definition component_str (c : Component) : str :=
  match c with
  | RootDir => []
  | CurDir => lit "."
  | ParentDir => lit ".."
  | Normal name => name
  end.

(** [Path::display] *)
Definition display (p : path) : str :=
  match p with
  | [RootDir] => [SLASH]
  | _ => join [SLASH] (map component_str p)
  end.

Definition is_absolute (p : path) : bool :=
  match p with RootDir :: _ => true | _ => false end.

(** [Path::join]: an absolute argument replaces the base; a leading [.] of the
    argument is no longer leading. *)
Definition path_join (base p : path) : path :=
  if is_absolute p then p
  else match base with
       | [] => p
       | _ => base ++ filter (fun c => c <> CurDir) p
       end.

(** [PathBuf::push] of one component and [PathBuf::pop]. *)
Definition pathbuf_push (buf : path) (c : Component) : path :=
  match c with
  | RootDir => [RootDir]
  | _ => buf ++ [c]
  end.
Definition pathbuf_pop (buf : path) : path :=
  match last buf with
  | Some RootDir | None => buf
  | Some _ => removelast buf
  end.

Definition normalize_step (normalized : path) (component : Component) : path :=
  match component with
  | CurDir => normalized
  | ParentDir => pathbuf_pop normalized
  | RootDir | Normal _ => pathbuf_push normalized component
  end.

Definition normalize_path (p : path) : path :=
  let normalized := fold_left normalize_step p [] in
  if bool_decide (normalized = []) then [CurDir] else normalized.

Definition path_with_base (p base_path : path) : path :=
  if is_absolute p then p else path_join base_path p.

Definition absolutize_from (p base_path : path) : path :=
  normalize_path (path_with_base p base_path).

(** [~] and [~/...]; [home] is what [dirs::home_dir] returns. *)
Definition maybe_expand_home_directory (home : option path) (p : str) : path :=
  match home, strip_prefix (lit "~") p with
  | Some home, Some rest =>
      if bool_decide (rest = []) then home
      else match strip_prefix [SLASH] rest with
           | Some rest => path_join home (components (drop_while (N.eqb SLASH) rest))
           | None => components p
           end
  | _, _ => components p
  end.

Definition resolve_path_against_base (home : option path) (p : str) (base_path : path) : path :=
  absolutize_from (maybe_expand_home_directory home p) base_path.

(** [absolutize]: a relative path is taken from the current directory of the
    process; [None] is a current directory that cannot be read. *)
Definition absolutize (current_dir : option path) (p : path) : option path :=
  if is_absolute p then Some (normalize_path p)
  else absolutize_from p <$> current_dir.

(** [AbsolutePathBuf::from_absolute_path], also [AbsolutePathBuf::try_from]. *)
Definition from_absolute_path (home current_dir : option path) (p : str) : option path :=
  absolutize current_dir (maybe_expand_home_directory home p).

(** [Path::file_name] *)
Definition file_name (p : path) : option str :=
  match last p with Some (Normal name) => Some name | _ => None end.

(** [AbsolutePathBuf::parent] *)
Definition parent (p : path) : option path :=
  match last p with
  | Some RootDir | None => None
  | Some _ => Some (removelast p)
  end.

(** ** Normal form *)

(** A file name: what [components] yields as [Normal]. *)
Definition file_name_ok (name : str) : Prop :=
  name <> [] /\ name <> lit "." /\ name <> lit ".." /\ SLASH ∉ name.

#[export] Instance file_name_ok_dec (name : str) : Decision (file_name_ok name).
Proof. unfold file_name_ok. apply _. Defined.

(** The invariant of [AbsolutePathBuf]. *)
Definition absolute_normalized (p : path) : Prop :=
  exists names, p = RootDir :: map Normal names /\ Forall file_name_ok names.

Definition component_ok (c : Component) : Prop :=
  match c with Normal name => file_name_ok name | _ => True end.

Lemma split_on_no_sep (c : char) (s : str) : Forall (fun piece => c ∉ piece) (split_on c s).
Proof.
  induction s as [|x s IH]; simpl; [repeat constructor; set_solver|].
  destruct (x =? c)%N eqn:Hx; bool_to_prop; [constructor; [set_solver|done]|].
  destruct (split_on c s); [constructor; [set_solver|done]|].
  inversion IH; subst. constructor; [set_solver|done].
Qed.

Lemma component_of_ok (piece : str) (c : Component) :
  SLASH ∉ piece -> component_of piece = Some c -> component_ok c.
Proof.
  unfold component_of. intros Hs H. repeat case_bool_decide; simplify_eq/=; done.
Qed.

Lemma components_ok (p : str) : Forall component_ok (components p).
Proof.
  unfold components. pose proof (split_on_no_sep SLASH p) as Hs.
  destruct (split_on SLASH p) as [|first rest]; [done|]. inversion Hs as [|? ? Hf Hr]; subst.
  apply Forall_app. split.
  - repeat case_bool_decide; try (repeat constructor; done).
    destruct (component_of first) as [c|] eqn:Hc; [|done]. repeat constructor. by eapply component_of_ok.
  - clear Hs Hf. induction Hr as [|piece rest Hp _ IH]; [done|]. simpl.
    destruct (component_of piece) eqn:Hc; [|done]. constructor; [by eapply component_of_ok|done].
Qed.

Lemma removelast_map_snoc {A B} (f : A -> B) (l : list A) (x : A) :
  removelast (map f (l ++ [x])) = map f l.
Proof. rewrite map_app. apply removelast_last. Qed.

(** Normalising keeps an absolute path absolute and normalised, component by
    component: [..] at the root stays at the root. *)
Lemma normalize_step_ok (buf : path) (c : Component) :
  absolute_normalized buf -> component_ok c -> absolute_normalized (normalize_step buf c).
Proof.
  intros (names & -> & Hn) Hc. destruct c as [| | |name]; simpl.
  - by exists [].
  - by exists names.
  - destruct names as [|n names _] using rev_ind; [by exists []|].
    exists names. apply Forall_app in Hn as [Hn _]. split; [|done].
    unfold pathbuf_pop. change (RootDir :: ?l) with ([RootDir] ++ l).
    rewrite map_app, app_assoc. change (map Normal [n]) with [Normal n].
    rewrite last_snoc. apply removelast_last.
  - exists (names ++ [name]). rewrite map_app. split; [done|]. apply Forall_app. split; [done|]. by constructor.
Qed.

Lemma normalize_fold_ok (buf p : path) :
  absolute_normalized buf -> Forall component_ok p ->
  absolute_normalized (fold_left normalize_step p buf).
Proof.
  intros Hb Hp. revert buf Hb. induction Hp as [|c p Hc _ IH]; intros buf Hb; [done|].
  apply IH. by apply normalize_step_ok.
Qed.

Lemma normalize_absolute (p : path) :
  is_absolute p = true -> Forall component_ok p -> absolute_normalized (normalize_path p).
Proof.
  destruct p as [|[| | |] p]; try done. intros _ Hp. inversion Hp; subst.
  unfold normalize_path. cbn [fold_left]. cbn [normalize_step pathbuf_push].
  assert (absolute_normalized (fold_left normalize_step p [RootDir])) as Hn.
  { apply normalize_fold_ok; [by exists []|done]. }
  rewrite bool_decide_eq_false_2; [done|]. destruct Hn as (? & -> & _). done.
Qed.

Lemma fold_normalize_names (buf : path) (names : list str) :
  fold_left normalize_step (map Normal names) buf = buf ++ map Normal names.
Proof.
  revert buf. induction names as [|n names IH]; intros buf; simpl; [by rewrite app_nil_r|].
  rewrite IH. by rewrite <- app_assoc.
Qed.

Lemma path_join_ok (base p : path) :
  Forall component_ok base -> Forall component_ok p -> Forall component_ok (path_join base p).
Proof.
  intros Hb Hp. unfold path_join. destruct (is_absolute p); [done|]. destruct base; [done|].
  apply Forall_app. split; [done|]. rewrite Forall_forall in *. intros x [_ Hx]%list_elem_of_filter. by apply Hp.
Qed.

Lemma absolute_normalized_ok (p : path) :
  absolute_normalized p -> is_absolute p = true /\ Forall component_ok p.
Proof.
  intros (names & -> & Hn). split; [done|]. constructor; [done|].
  induction Hn; constructor; done.
Qed.

Lemma expand_ok (home : option path) (p : str) :
  from_option absolute_normalized True home ->
  Forall component_ok (maybe_expand_home_directory home p).
Proof.
  intros Hh. unfold maybe_expand_home_directory.
  destruct home as [home|]; [|apply components_ok].
  apply absolute_normalized_ok in Hh as [_ Hh].
  destruct (strip_prefix _ p); [|apply components_ok]. case_bool_decide; [done|].
  destruct (strip_prefix _ _); [|apply components_ok]. apply path_join_ok; [done|apply components_ok].
Qed.

(** ** Properties *)

(** C40. Whatever the path in a patch, [resolve_path_against_base] on an
    absolute base yields a path that is absolute and normalised: rooted, with
    no [.], no [..] and no empty name. *)
Theorem resolve_path_absolute (home : option path) (p : str) (base : path) :
  from_option absolute_normalized True home -> absolute_normalized base ->
  absolute_normalized (resolve_path_against_base home p base).
Proof.
  intros Hh Hb. pose proof (expand_ok home p Hh) as He.
  apply absolute_normalized_ok in Hb as [Hba Hb].
  unfold resolve_path_against_base, absolutize_from, path_with_base.
  apply normalize_absolute.
  - destruct (is_absolute (maybe_expand_home_directory home p)) eqn:Ha; [done|].
    unfold path_join. rewrite Ha. by destruct base as [|[]].
  - destruct (is_absolute (maybe_expand_home_directory home p)); [exact He|]. by apply path_join_ok.
Qed.

Lemma resolve_path_absolute_witness :
  absolute_normalized (resolve_path_against_base None (lit "../x/./y/../z") (components (lit "/home/user")))
  /\ display (resolve_path_against_base None (lit "../x/./y/../z") (components (lit "/home/user")))
     = lit "/home/x/z".
Proof.
  split; [|reflexivity]. apply resolve_path_absolute; [done|].
  exists [lit "home"; lit "user"]. split; [reflexivity|]. repeat constructor; apply (bool_decide_unpack _); done.
Defined.

Lemma components_names (names : list str) :
  Forall file_name_ok names -> omap component_of names = map Normal names.
Proof.
  induction 1 as [|n names (H1 & H2 & H3 & H4) _ IH]; [done|]. simpl.
  assert (component_of n = Some (Normal n)) as ->.
  { unfold component_of. by rewrite !bool_decide_eq_false_2. }
  f_equal. exact IH.
Qed.

Lemma components_display (p : path) : absolute_normalized p -> components (display p) = p.
Proof.
  intros (names & -> & Hn). destruct names as [|n names]; [done|].
  assert (map component_str (map Normal (n :: names)) = n :: names) as Hmap.
  { rewrite map_map. apply map_id. }
  assert (display (RootDir :: map Normal (n :: names)) = join [SLASH] ([] :: n :: names)) as ->.
  { unfold display. cbn [map] in *. cbn [map component_str]. by injection Hmap as ->. }
  unfold components. rewrite split_on_join; [|done|].
  - rewrite bool_decide_eq_true_2 by done. rewrite bool_decide_eq_false_2 by done.
    by rewrite components_names.
  - constructor; [set_solver|]. eapply Forall_impl; [exact Hn|]. by intros ? (? & ? & ? & ?).
Qed.

Lemma normalize_normalized (p : path) : absolute_normalized p -> normalize_path p = p.
Proof.
  intros (names & -> & _). unfold normalize_path.
  cbn [fold_left normalize_step pathbuf_push]. by rewrite fold_normalize_names.
Qed.

(** An absolute normalised path prints to text that parses back to it, and
    resolving it against any base gives it back: resolution is idempotent. *)
Theorem absolute_path_roundtrip (p base : path) :
  absolute_normalized p ->
  components (display p) = p /\ resolve_path_against_base None (display p) base = p.
Proof.
  intros Hp. rewrite (components_display p Hp). split; [done|].
  unfold resolve_path_against_base, maybe_expand_home_directory, absolutize_from, path_with_base.
  rewrite (components_display p Hp). pose proof (normalize_normalized p Hp).
  by destruct Hp as (names & -> & _).
Qed.

Lemma absolute_path_roundtrip_witness :
  components (display [RootDir; Normal (lit "a"); Normal (lit "b.txt")])
    = [RootDir; Normal (lit "a"); Normal (lit "b.txt")]
  /\ resolve_path_against_base None (display [RootDir; Normal (lit "a"); Normal (lit "b.txt")]) [RootDir]
    = [RootDir; Normal (lit "a"); Normal (lit "b.txt")].
Proof.
  apply absolute_path_roundtrip. exists [lit "a"; lit "b.txt"]. split; [reflexivity|].
  repeat constructor; apply (bool_decide_unpack _); done.
Defined.
