(* ===== verification/Host.v ===== *)
(** * The host a policy is resolved on: [utils/absolute-path/src/lib.rs]

    Sandbox policies name symbolic places ([:root], [:tmpdir], [~]) and are
    resolved against what the process sees: its home and current directories,
    [TMPDIR] and the files it can stat.  A [Host] is a snapshot of these answers
    for the duration of one call.  The file also holds component-wise path
    prefixes, the order of paths, and the canonicalisation that keeps logical
    paths through nested symbolic links. *)

From S2P Require Import Prelude AbsolutePath.

(** ** Component-wise path operations of [std::path::Path] *)

(** [Path::strip_prefix] *)
Fixpoint strip_path_prefix (base p : path) : option path :=
  match base, p with
  | [], _ => Some p
  | b :: base, c :: p => if decide (b = c) then strip_path_prefix base p else None
  | _ :: _, [] => None
  end.
(** [Path::starts_with] *)
Definition path_starts_with (p base : path) : bool := bool_decide (is_Some (strip_path_prefix base p)).

(** [Path::ancestors], the path itself first. *)
Fixpoint ancestors_fuel (fuel : nat) (p : path) : list path :=
  p :: match fuel with
       | O => []
       | S fuel => match parent p with Some q => ancestors_fuel fuel q | None => [] end
       end.
Definition path_ancestors (p : path) : list path := ancestors_fuel (length p) p.

(** The order of [Path]s: components in turn, [RootDir < CurDir < ParentDir <
    Normal], names by their bytes. *)
Definition component_rank (c : Component) : nat :=
  match c with RootDir => 0 | CurDir => 1 | ParentDir => 2 | Normal _ => 3 end.
Definition component_leb (c d : Component) : bool :=
  match c, d with
  | Normal s, Normal t => str_leb s t
  | _, _ => (component_rank c <=? component_rank d)%nat
  end.
Fixpoint path_leb (p q : path) : bool :=
  match p, q with
  | [], _ => true
  | _ :: _, [] => false
  | c :: p, d :: q => if decide (c = d) then path_leb p q else component_leb c d
  end.

(** ** The host *)

Record Host : Type := mkHost {
  home : option path;                       (** [dirs::home_dir] *)
  current_dir : option path;                (** [std::env::current_dir] *)
  tmpdir_var : option str;                  (** [std::env::var_os "TMPDIR"] *)
  host_is_dir : path -> bool;               (** [Path::is_dir] *)
  host_is_file : path -> bool;              (** [Path::is_file] *)
  host_exists : path -> bool;               (** [Path::exists] *)
  host_read_to_string : path -> option str; (** [std::fs::read_to_string] *)
  symlink_metadata : path -> option bool;   (** [Some] when it can be read: is it a link? *)
  host_canonicalize : path -> option path   (** [Path::canonicalize], [dunce::canonicalize] *)
}.

Section host.
Context (H : Host).

(** [AbsolutePathBuf::from_absolute_path], [None] for an error. *)
Definition abs_from (p : str) : option path := from_absolute_path (home H) (current_dir H) p.
(** [AbsolutePathBuf::join] *)
Definition abs_join (base : path) (p : str) : path := resolve_path_against_base (home H) p base.

Definition from_absolute_path_checked (p : str) : option path :=
  let expanded := maybe_expand_home_directory (home H) p in
  if is_absolute expanded then Some (absolutize_from expanded [RootDir]) else None.

Definition relative_to_current_dir (p : str) : option path :=
  match current_dir H with
  | Some cwd => Some (resolve_path_against_base (home H) p cwd)
  | None => None
  end.

Definition should_preserve_logical_path (logical : path) : bool :=
  existsb (fun ancestor =>
    match symlink_metadata H ancestor with
    | None => false
    | Some is_symlink =>
        is_symlink && bool_decide (is_Some (parent ancestor ≫= parent))
    end) (path_ancestors logical).

Definition canonicalize_preserving_symlinks (p : path) : option path :=
  match abs_from (display p) with
  | None => None
  | Some logical =>
      let preserve_logical_path := should_preserve_logical_path logical in
      match host_canonicalize H p with
      | Some canonical =>
          if preserve_logical_path && negb (bool_decide (canonical = logical))
          then Some logical else Some canonical
      | None => Some logical
      end
  end.

Definition canonicalize_existing_preserving_symlinks (p : path) : option path :=
  match abs_from (display p) with
  | None => None
  | Some logical =>
      match host_canonicalize H p with
      | None => None
      | Some canonical =>
          if should_preserve_logical_path logical && negb (bool_decide (canonical = logical))
          then Some logical else Some canonical
      end
  end.

(** What the rest of the development relies on: [home] and [current_dir] are
    absolute and normalised, and so is what [canonicalize] returns. *)
Record host_ok : Prop := {
  host_home_ok : from_option absolute_normalized True (home H);
  host_cwd_ok : from_option absolute_normalized True (current_dir H);
  host_canon_ok : forall p q, host_canonicalize H p = Some q -> absolute_normalized q
}.
End host.

(** ** Lemmas *)

Lemma strip_path_prefix_Some (base p r : path) : strip_path_prefix base p = Some r <-> p = base ++ r.
Proof.
  revert p. induction base as [|b base IH]; intros p; simpl; [naive_solver|].
  destruct p as [|c p]; [naive_solver|].
  case_decide; [subst; rewrite IH; naive_solver|naive_solver].
Qed.

Lemma path_starts_with_app (p base : path) : path_starts_with p base = true <-> exists r, p = base ++ r.
Proof.
  unfold path_starts_with. rewrite bool_decide_eq_true. split.
  - intros [r Hr]. exists r. by apply strip_path_prefix_Some.
  - intros [r Hr]. exists r. by apply strip_path_prefix_Some.
Qed.

Lemma path_starts_with_refl (p : path) : path_starts_with p p = true.
Proof. apply path_starts_with_app. exists []. by rewrite app_nil_r. Qed.

Lemma path_starts_with_trans (p q r : path) :
  path_starts_with p q = true -> path_starts_with q r = true -> path_starts_with p r = true.
Proof.
  rewrite !path_starts_with_app. intros [a ->] [b ->]. exists (b ++ a). by rewrite <- app_assoc.
Qed.
#[export] Hint Resolve path_starts_with_refl : rust.

(** Two prefixes of one path are comparable; of the same length, equal. *)
Lemma prefixes_same_length (p q r : path) :
  path_starts_with p q = true -> path_starts_with p r = true -> length q = length r -> q = r.
Proof.
  rewrite !path_starts_with_app. intros [a Ha] [b Hb] Hl.
  apply (f_equal (take (length q))) in Ha, Hb. rewrite take_app_length in Ha.
  rewrite Hl, take_app_length in Hb. congruence.
Qed.

Lemma prefixes_comparable (p q r : path) :
  path_starts_with p q = true -> path_starts_with p r = true -> (length q <= length r)%nat ->
  path_starts_with r q = true.
Proof.
  rewrite !path_starts_with_app. intros [a Ha] [b Hb] Hl. subst p.
  exists (drop (length q) r). apply (f_equal (take (length r))) in Hb.
  rewrite take_app_length, take_app_ge in Hb by done.
  apply (f_equal (drop (length q))) in Hb as Hd. rewrite drop_app_length in Hd. congruence.
Qed.

Lemma path_starts_with_length (p q : path) : path_starts_with p q = true -> (length q <= length p)%nat.
Proof. rewrite path_starts_with_app. intros [r ->]. rewrite length_app. lia. Qed.

Lemma display_absolute (p : path) : is_absolute p = true -> exists s, display p = SLASH :: s.
Proof.
  destruct p as [|[| | |] [|c p]]; try done; intros _; [by exists []|].
  eexists. reflexivity.
Qed.

Lemma expand_display (h : option path) (p : path) :
  absolute_normalized p -> maybe_expand_home_directory h (display p) = p.
Proof.
  intros Hp. unfold maybe_expand_home_directory. rewrite (components_display p Hp).
  assert (is_absolute p = true) as Ha by by destruct Hp as (? & -> & _).
  destruct (display_absolute p Ha) as [s ->]. by destruct h.
Qed.

Lemma absolute_normalized_root : absolute_normalized [RootDir].
Proof. by exists []. Qed.

Lemma absolute_normalized_snoc (p : path) (name : str) :
  absolute_normalized p -> file_name_ok name -> absolute_normalized (p ++ [Normal name]).
Proof.
  intros (names & -> & Hn) Hok. exists (names ++ [name]). rewrite map_app. split; [done|].
  apply Forall_app. split; [done|]. by constructor.
Qed.

Lemma absolute_normalized_prefix (p q : path) :
  absolute_normalized (p ++ q) -> p <> [] -> absolute_normalized p.
Proof.
  intros (names & Heq & Hn) Hp. destruct p as [|c p]; [done|]. injection Heq as -> Heq.
  exists (take (length p) names). apply (f_equal (take (length p))) in Heq.
  rewrite take_app_length in Heq. rewrite firstn_map in Heq.
  split; [congruence|]. by apply Forall_take.
Qed.
#[export] Hint Resolve absolute_normalized_root absolute_normalized_snoc : rust.

Section host_lemmas.
Context (H : Host) (Hok : host_ok H).

Lemma abs_from_display (p : path) : absolute_normalized p -> abs_from H (display p) = Some p.
Proof.
  intros Hp. unfold abs_from, from_absolute_path. rewrite (expand_display _ p Hp).
  unfold absolutize. rewrite (normalize_normalized p Hp). by destruct Hp as (? & -> & _).
Qed.

Lemma absolutize_from_ok (p base : path) :
  Forall component_ok p -> absolute_normalized base -> absolute_normalized (absolutize_from p base).
Proof.
  intros Hp Hb. apply absolute_normalized_ok in Hb as [Hba Hb]. unfold absolutize_from, path_with_base.
  apply normalize_absolute.
  - destruct (is_absolute p) eqn:Ha; [done|]. unfold path_join. rewrite Ha. by destruct base as [|[]].
  - destruct (is_absolute p); [done|]. by apply path_join_ok.
Qed.

Lemma abs_from_ok (p : str) (q : path) : abs_from H p = Some q -> absolute_normalized q.
Proof.
  unfold abs_from, from_absolute_path, absolutize.
  pose proof (expand_ok (home H) p (host_home_ok H Hok)) as He.
  destruct (is_absolute _) eqn:Ha; intros Hq; simplify_eq.
  - by apply normalize_absolute.
  - pose proof (host_cwd_ok H Hok) as Hc. destruct (current_dir H) as [cwd|]; simplify_eq/=.
    by apply absolutize_from_ok.
Qed.

Lemma abs_join_ok (base : path) (p : str) : absolute_normalized base -> absolute_normalized (abs_join H base p).
Proof.
  intros Hb. unfold abs_join, resolve_path_against_base. apply absolutize_from_ok; [|done].
  apply expand_ok, Hok.
Qed.

(** Joining a plain file name appends it. *)
Lemma abs_join_name (base : path) (name : str) :
  absolute_normalized base -> file_name_ok name -> strip_prefix (lit "~") name = None ->
  abs_join H base name = base ++ [Normal name].
Proof.
  intros Hb Hn Ht. unfold abs_join, resolve_path_against_base, maybe_expand_home_directory.
  assert (components name = [Normal name]) as Hc.
  { destruct Hn as (Hn1 & Hn2 & Hn3 & Hn4). unfold components.
    pose proof (split_on_join SLASH [name]) as Hs. cbn [join] in Hs. rewrite Hs; [|done|by constructor].
    unfold component_of. rewrite !bool_decide_eq_false_2 by done. done. }
  rewrite Ht, Hc.
  assert (absolutize_from [Normal name] base = base ++ [Normal name]) as Ha.
  { unfold absolutize_from, path_with_base, path_join. cbn [is_absolute].
    rewrite <- (normalize_normalized (base ++ [Normal name])) by eauto with rust.
    by destruct Hb as (names & -> & _). }
  destruct (home H); exact Ha.
Qed.

Lemma canonicalize_preserving_ok (p q : path) :
  canonicalize_preserving_symlinks H p = Some q -> absolute_normalized q.
Proof.
  unfold canonicalize_preserving_symlinks. destruct (abs_from H _) as [logical|] eqn:Hl; [|done].
  apply abs_from_ok in Hl. destruct (host_canonicalize H p) as [canonical|] eqn:Hc.
  - pose proof (host_canon_ok H Hok _ _ Hc). case_goal; naive_solver.
  - naive_solver.
Qed.
End host_lemmas.

(** A host that sees no file at all: the instance of the witnesses. *)
Definition empty_host : Host :=
  mkHost None None None (fun _ => false) (fun _ => false) (fun _ => false) (fun _ => None)
    (fun _ => None) (fun _ => None).
Lemma empty_host_ok : host_ok empty_host.
Proof. by split. Qed.

(** A decision procedure for [absolute_normalized]. *)
Definition absolute_normalizedb (p : path) : bool :=
  match p with
  | RootDir :: p => forallb (fun c => match c with Normal n => bool_decide (file_name_ok n) | _ => false end) p
  | _ => false
  end.
Lemma absolute_normalizedb_true (p : path) : absolute_normalizedb p = true -> absolute_normalized p.
Proof.
  destruct p as [|[| | |] p]; try done. simpl. intros Hp.
  assert (exists names, p = map Normal names /\ Forall file_name_ok names) as (names & -> & Hn);
    [|by exists names].
  induction p as [|c p IH]; [by exists []|]. simpl in Hp. apply andb_true_iff in Hp as [Hc Hp].
  destruct (IH Hp) as (names & -> & Hn). destruct c as [| | |n]; try done.
  exists (n :: names). split; [done|]. constructor; [by apply bool_decide_eq_true in Hc|done].
Qed.
