(* ===== verification/Permissions.v ===== *)
(** * File system sandbox policies: [protocol/src/permissions.rs]

    A [FileSystemSandboxPolicy] is a list of entries, each granting, restricting
    or denying access below a place; the most specific entry that contains a
    path decides ([resolve_access_with_cwd]), and the top-level metadata
    directories ([.git], [.agents], [.codex]) of a writable root stay read-only
    unless an entry names them ([can_write_path_with_cwd]).  The theorems give
    the decision rule, its independence of the entry order, the protection of
    metadata, what the "full disk" shortcuts promise, and that materialising
    symbolic roots survives a change of directory. *)

From S2P Require Import Prelude AbsolutePath Host.

Definition PROTECTED_METADATA_GIT_PATH_NAME : str := lit ".git".
Definition PROTECTED_METADATA_AGENTS_PATH_NAME : str := lit ".agents".
Definition PROTECTED_METADATA_CODEX_PATH_NAME : str := lit ".codex".
Definition PROTECTED_METADATA_PATH_NAMES : list str :=
  [PROTECTED_METADATA_GIT_PATH_NAME; PROTECTED_METADATA_AGENTS_PATH_NAME;
   PROTECTED_METADATA_CODEX_PATH_NAME].

Definition is_protected_metadata_name (name : str) : bool :=
  existsb (fun metadata_name => name =s? metadata_name) PROTECTED_METADATA_PATH_NAMES.
Definition is_protected_metadata_directory_name (name : str) : bool :=
  (name =s? PROTECTED_METADATA_AGENTS_PATH_NAME) || (name =s? PROTECTED_METADATA_CODEX_PATH_NAME).

(** ** Data *)

Inductive NetworkSandboxPolicy : Type := NetRestricted | NetEnabled.
#[export] Instance NetworkSandboxPolicy_eq_dec : EqDecision NetworkSandboxPolicy.
Proof. solve_decision. Defined.
Definition net_is_enabled (n : NetworkSandboxPolicy) : bool :=
  match n with NetEnabled => true | NetRestricted => false end.

(** The derived order of [FileSystemAccessMode] is [Read < Write < Deny]. *)
Inductive FileSystemAccessMode : Type := Read | Write | Deny.
#[export] Instance FileSystemAccessMode_eq_dec : EqDecision FileSystemAccessMode.
Proof. solve_decision. Defined.
Definition access_rank (a : FileSystemAccessMode) : nat :=
  match a with Read => 0 | Write => 1 | Deny => 2 end.
Definition can_read (a : FileSystemAccessMode) : bool := match a with Deny => false | _ => true end.
Definition can_write (a : FileSystemAccessMode) : bool := match a with Write => true | _ => false end.

Inductive FileSystemSpecialPath : Type :=
| Root
| Minimal
| ProjectRoots (subpath : option str)
| Tmpdir
| SlashTmp
| UnknownSpecial (special : str) (subpath : option str).

Inductive FileSystemPath : Type :=
| FsPath (p : path)
| FsGlobPattern (pattern : str)
| FsSpecial (value : FileSystemSpecialPath).

Record FileSystemSandboxEntry : Type := mkEntry {
  entry_path : FileSystemPath;
  entry_access : FileSystemAccessMode
}.

Inductive FileSystemSandboxKind : Type := Restricted | Unrestricted | ExternalSandboxKind.
#[export] Instance FileSystemSandboxKind_eq_dec : EqDecision FileSystemSandboxKind.
Proof. solve_decision. Defined.

Record FileSystemSandboxPolicy : Type := mkFsPolicy {
  policy_kind : FileSystemSandboxKind;
  glob_scan_max_depth : option N;
  policy_entries : list FileSystemSandboxEntry
}.
Definition with_entries (p : FileSystemSandboxPolicy) (es : list FileSystemSandboxEntry) :
  FileSystemSandboxPolicy := mkFsPolicy (policy_kind p) (glob_scan_max_depth p) es.

Record ResolvedFileSystemEntry : Type := mkResolved {
  resolved_path : path;
  resolved_access : FileSystemAccessMode
}.
#[export] Instance ResolvedFileSystemEntry_eq_dec : EqDecision ResolvedFileSystemEntry.
Proof. solve_decision. Defined.

(** The derived equality: a [PathBuf] is compared by its components. *)
Definition subpath_eqb (s t : option str) : bool :=
  match s, t with
  | Some s, Some t => bool_decide (components s = components t)
  | None, None => true
  | _, _ => false
  end.
Definition special_eqb (v w : FileSystemSpecialPath) : bool :=
  match v, w with
  | Root, Root | Minimal, Minimal | Tmpdir, Tmpdir | SlashTmp, SlashTmp => true
  | ProjectRoots s, ProjectRoots t => subpath_eqb s t
  | UnknownSpecial p s, UnknownSpecial q t => (p =s? q) && subpath_eqb s t
  | _, _ => false
  end.
Definition fs_path_eqb (p q : FileSystemPath) : bool :=
  match p, q with
  | FsPath p, FsPath q => bool_decide (p = q)
  | FsGlobPattern p, FsGlobPattern q => p =s? q
  | FsSpecial v, FsSpecial w => special_eqb v w
  | _, _ => false
  end.
Definition entry_eqb (e f : FileSystemSandboxEntry) : bool :=
  fs_path_eqb (entry_path e) (entry_path f) && bool_decide (entry_access e = entry_access f).

(** ** Constructors *)

Definition restricted (entries : list FileSystemSandboxEntry) : FileSystemSandboxPolicy :=
  mkFsPolicy Restricted None entries.
Definition unrestricted : FileSystemSandboxPolicy := mkFsPolicy Unrestricted None [].
Definition external_sandbox : FileSystemSandboxPolicy := mkFsPolicy ExternalSandboxKind None [].
Definition read_only_file_system_entries : list FileSystemSandboxEntry := [mkEntry (FsSpecial Root) Read].
Definition read_only : FileSystemSandboxPolicy := restricted read_only_file_system_entries.

Definition PROJECT_ROOTS_GLOB_PATTERN_PREFIX : str := lit "codex-project-roots://".
Definition project_roots_glob_pattern (subpath : str) : str :=
  PROJECT_ROOTS_GLOB_PATTERN_PREFIX ++ subpath.
Definition parse_project_roots_glob_pattern (pattern : str) : option str :=
  strip_prefix PROJECT_ROOTS_GLOB_PATTERN_PREFIX pattern.

(** ** Entries that name the same target *)

Definition special_paths_share_target (lhs rhs : FileSystemSpecialPath) : bool :=
  match lhs, rhs with
  | Root, Root | Minimal, Minimal | Tmpdir, Tmpdir | SlashTmp, SlashTmp => true
  | ProjectRoots lhs, ProjectRoots rhs => subpath_eqb lhs rhs
  | UnknownSpecial lhs lhs_subpath, UnknownSpecial rhs rhs_subpath =>
      (lhs =s? rhs) && subpath_eqb lhs_subpath rhs_subpath
  | _, _ => false
  end.

Definition special_path_matches_absolute_path (value : FileSystemSpecialPath) (p : path) : bool :=
  match value with
  | Root => bool_decide (parent p = None)
  | SlashTmp => bool_decide (p = components (lit "/tmp"))
  | _ => false
  end.

Definition file_system_paths_share_target (lhs rhs : FileSystemPath) : bool :=
  match lhs, rhs with
  | FsPath lhs, FsPath rhs => bool_decide (lhs = rhs)
  | FsSpecial lhs, FsSpecial rhs => special_paths_share_target lhs rhs
  | FsPath p, FsSpecial value | FsSpecial value, FsPath p => special_path_matches_absolute_path value p
  | FsGlobPattern lhs, FsGlobPattern rhs => lhs =s? rhs
  | FsGlobPattern _, _ | _, FsGlobPattern _ => false
  end.

(** ** Predicates on the entries *)

Definition is_restricted (p : FileSystemSandboxPolicy) : bool := bool_decide (policy_kind p = Restricted).

Definition has_root_access (p : FileSystemSandboxPolicy) (predicate : FileSystemAccessMode -> bool) : bool :=
  is_restricted p &&
  existsb (fun entry => match entry_path entry with
                        | FsSpecial Root => predicate (entry_access entry)
                        | _ => false
                        end) (policy_entries p).

Definition is_deny (entry : FileSystemSandboxEntry) : bool := bool_decide (entry_access entry = Deny).

Definition has_denied_read_restrictions (p : FileSystemSandboxPolicy) : bool :=
  is_restricted p && existsb is_deny (policy_entries p).

Definition has_same_target_write_override (p : FileSystemSandboxPolicy) (entry : FileSystemSandboxEntry) : bool :=
  existsb (fun candidate =>
    can_write (entry_access candidate)
    && (access_rank (entry_access entry) <? access_rank (entry_access candidate))%nat
    && file_system_paths_share_target (entry_path candidate) (entry_path entry)) (policy_entries p).

Definition narrows_write (p : FileSystemSandboxPolicy) (entry : FileSystemSandboxEntry) : bool :=
  if can_write (entry_access entry) then false
  else match entry_path entry with
       | FsPath _ => negb (has_same_target_write_override p entry)
       | FsGlobPattern _ => true
       | FsSpecial value =>
           match value with
           | Root => is_deny entry
           | Minimal | UnknownSpecial _ _ => false
           | _ => negb (has_same_target_write_override p entry)
           end
       end.
Definition has_write_narrowing_entries (p : FileSystemSandboxPolicy) : bool :=
  is_restricted p && existsb (narrows_write p) (policy_entries p).

Definition has_full_disk_read_access (p : FileSystemSandboxPolicy) : bool :=
  match policy_kind p with
  | Unrestricted | ExternalSandboxKind => true
  | Restricted => has_root_access p can_read && negb (has_denied_read_restrictions p)
  end.

Definition has_full_disk_write_access (p : FileSystemSandboxPolicy) : bool :=
  match policy_kind p with
  | Unrestricted | ExternalSandboxKind => true
  | Restricted => has_root_access p can_write && negb (has_write_narrowing_entries p)
  end.

Definition include_platform_defaults (p : FileSystemSandboxPolicy) : bool :=
  negb (has_full_disk_read_access p) && is_restricted p
  && existsb (fun entry => match entry_path entry with
                           | FsSpecial Minimal => can_read (entry_access entry)
                           | _ => false
                           end) (policy_entries p).

(** ** Keeping deny entries *)

(** Entries of [new] not yet among the entries are pushed, one after the other. *)
Definition push_missing (entries new : list FileSystemSandboxEntry) : list FileSystemSandboxEntry :=
  fold_left (fun es e => if existsb (fun entry => entry_eqb entry e) es then es else es ++ [e]) new entries.

Definition preserve_deny_read_restrictions_from (self existing : FileSystemSandboxPolicy) :
  FileSystemSandboxPolicy :=
  let has_deny_read_entries := existsb is_deny (policy_entries existing) in
  let self :=
    if bool_decide (policy_kind self = Unrestricted) && has_deny_read_entries
    then restricted [mkEntry (FsSpecial Root) Write] else self in
  if negb (is_restricted self) then self
  else
    let depth := match glob_scan_max_depth self with
                 | None => glob_scan_max_depth existing
                 | Some d => Some d
                 end in
    mkFsPolicy (policy_kind self) depth
      (push_missing (policy_entries self) (List.filter is_deny (policy_entries existing))).

(** ** Defaults below a writable root *)

Definition append_default_read_only_entry_if_no_explicit_rule
    (entries : list FileSystemSandboxEntry) (p : FileSystemPath) : list FileSystemSandboxEntry :=
  if existsb (fun entry => file_system_paths_share_target (entry_path entry) p) entries then entries
  else entries ++ [mkEntry p Read].
Definition append_default_read_only_path_if_no_explicit_rule
    (entries : list FileSystemSandboxEntry) (p : path) : list FileSystemSandboxEntry :=
  append_default_read_only_entry_if_no_explicit_rule entries (FsPath p).
Definition append_default_read_only_project_root_subpath_if_no_explicit_rule
    (entries : list FileSystemSandboxEntry) (subpath : str) : list FileSystemSandboxEntry :=
  append_default_read_only_entry_if_no_explicit_rule entries (FsSpecial (ProjectRoots (Some subpath))).

Section host.
Context (H : Host).

(** ** Resolution of paths *)

(** The last ancestor of an absolute path is its root; [None] would be the
    panic on a path without one. *)
Definition absolute_root_path_for_cwd (cwd : path) : option path :=
  match last (path_ancestors cwd) with
  | Some root => abs_from H (display root)
  | None => None
  end.

Definition resolve_file_system_special_path (value : FileSystemSpecialPath) (cwd : option path) : option path :=
  match value with
  | Root | Minimal | UnknownSpecial _ _ => None
  | ProjectRoots subpath =>
      match cwd with
      | None => None
      | Some cwd =>
          match subpath with
          | Some subpath => Some (resolve_path_against_base (home H) subpath cwd)
          | None => Some cwd
          end
      end
  | Tmpdir =>
      match tmpdir_var H with
      | None => None
      | Some tmpdir => if tmpdir =s? [] then None else abs_from H tmpdir
      end
  | SlashTmp =>
      match abs_from H (lit "/tmp") with
      | Some slash_tmp => if host_is_dir H slash_tmp then Some slash_tmp else None
      | None => None
      end
  end.

Definition resolve_file_system_path (p : FileSystemPath) (cwd : option path) : option path :=
  match p with
  | FsPath p => Some p
  | FsGlobPattern _ => None
  | FsSpecial value => resolve_file_system_special_path value cwd
  end.

Definition resolve_entry_path (p : FileSystemPath) (cwd : option path) : option path :=
  match p with
  | FsSpecial Root => match cwd with Some cwd => absolute_root_path_for_cwd cwd | None => None end
  | _ => resolve_file_system_path p cwd
  end.

Definition resolve_candidate_path (p cwd : str) : option path :=
  if is_absolute (components p) then abs_from H p
  else match abs_from H cwd with Some cwd => Some (abs_join H cwd p) | None => None end.

Definition resolve_entry (cwd : option path) (entry : FileSystemSandboxEntry) : option ResolvedFileSystemEntry :=
  match resolve_entry_path (entry_path entry) cwd with
  | Some p => Some (mkResolved p (entry_access entry))
  | None => None
  end.
Definition resolved_entries_with_cwd (self : FileSystemSandboxPolicy) (cwd : str) : list ResolvedFileSystemEntry :=
  omap (resolve_entry (abs_from H cwd)) (policy_entries self).

(** The order of [resolved_entry_precedence]: specificity, then access. *)
Definition resolved_entry_precedence (e : ResolvedFileSystemEntry) : nat * nat :=
  (length (resolved_path e), access_rank (resolved_access e)).
Definition precedence_le (e f : ResolvedFileSystemEntry) : bool :=
  let '(s, a) := resolved_entry_precedence e in
  let '(t, b) := resolved_entry_precedence f in
  (s <? t)%nat || ((s =? t)%nat && (a <=? b)%nat).

Definition resolve_access_with_cwd (self : FileSystemSandboxPolicy) (p cwd : str) : FileSystemAccessMode :=
  match policy_kind self with
  | Unrestricted | ExternalSandboxKind => Write
  | Restricted =>
      match resolve_candidate_path p cwd with
      | None => Deny
      | Some p =>
          match max_by precedence_le
                  (List.filter (fun entry => path_starts_with p (resolved_path entry))
                     (resolved_entries_with_cwd self cwd)) with
          | Some entry => resolved_access entry
          | None => Deny
          end
      end
  end.

Definition can_read_path_with_cwd (self : FileSystemSandboxPolicy) (p cwd : str) : bool :=
  can_read (resolve_access_with_cwd self p cwd).

(** ** Protected metadata *)

Definition as_os_str (c : Component) : str :=
  match c with RootDir => [SLASH] | _ => component_str c end.

Definition metadata_path_name (name : str) : option str :=
  List.find (fun metadata_name => name =s? metadata_name) PROTECTED_METADATA_PATH_NAMES.

Definition metadata_child_of_entry (target : path) (entry : ResolvedFileSystemEntry) : option (path * str) :=
  if can_write (resolved_access entry) then
    match strip_path_prefix (resolved_path entry) target with
    | Some (first_component :: _) =>
        match metadata_path_name (as_os_str first_component) with
        | Some metadata_name => Some (abs_join H (resolved_path entry) metadata_name, metadata_name)
        | None => None
        end
    | _ => None
    end
  else None.
Definition metadata_child_of_writable_root (policy : FileSystemSandboxPolicy) (target : path) (cwd : str) :
  option (path * str) :=
  head (omap (metadata_child_of_entry target) (resolved_entries_with_cwd policy cwd)).

Definition has_explicit_write_entry_for_metadata_path (policy : FileSystemSandboxPolicy)
    (protected_metadata_path target : path) (cwd : str) : bool :=
  existsb (fun entry =>
    can_write (resolved_access entry)
    && path_starts_with target (resolved_path entry)
    && path_starts_with (resolved_path entry) protected_metadata_path)
    (resolved_entries_with_cwd policy cwd).

Definition is_metadata_write_denied (self : FileSystemSandboxPolicy) (p cwd : str) : bool :=
  if negb (is_restricted self) then false
  else match resolve_candidate_path p cwd with
       | None => true
       | Some target =>
           match metadata_child_of_writable_root self target cwd with
           | None => false
           | Some (protected_metadata_path, _) =>
               negb (has_explicit_write_entry_for_metadata_path self protected_metadata_path target cwd)
           end
       end.

Definition can_write_path_with_cwd (self : FileSystemSandboxPolicy) (p cwd : str) : bool :=
  if negb (can_write (resolve_access_with_cwd self p cwd)) then false
  else if has_full_disk_write_access self then true
  else negb (is_metadata_write_denied self p cwd).

Definition forbidden_agent_metadata_write (p cwd : str) (policy : FileSystemSandboxPolicy) : option str :=
  if negb (is_restricted policy) then None
  else
    match resolve_candidate_path p cwd with
    | None => None
    | Some target =>
        match metadata_child_of_writable_root policy target cwd with
        | None => None
        | Some (protected_metadata_path, metadata_name) =>
            if has_explicit_write_entry_for_metadata_path policy protected_metadata_path target cwd then None
            else if negb (can_write_path_with_cwd policy (display target) cwd) then Some metadata_name
            else None
        end
    end.

(** ** Materialising symbolic roots *)

Definition resolve_project_roots_glob_pattern (subpath : str) (root : path) : str :=
  display (resolve_path_against_base (home H) subpath root).

Definition materialize_entry_with_cwd (cwd : option path) (entry : FileSystemSandboxEntry) :
  FileSystemSandboxEntry :=
  match entry_path entry with
  | FsSpecial (ProjectRoots _) =>
      match resolve_file_system_path (entry_path entry) cwd with
      | Some p => mkEntry (FsPath p) (entry_access entry)
      | None => entry
      end
  | FsGlobPattern pattern =>
      match cwd, parse_project_roots_glob_pattern pattern with
      | Some cwd, Some subpath =>
          mkEntry (FsGlobPattern (resolve_project_roots_glob_pattern subpath cwd)) (entry_access entry)
      | _, _ => entry
      end
  | FsSpecial _ => entry
  | FsPath _ => entry
  end.
Definition materialize_project_roots_with_cwd (self : FileSystemSandboxPolicy) (cwd : str) :
  FileSystemSandboxPolicy :=
  with_entries self (map (materialize_entry_with_cwd (abs_from H cwd)) (policy_entries self)).

Definition materialize_entry (workspace_roots : list path) (entry : FileSystemSandboxEntry) :
  list FileSystemSandboxEntry :=
  match entry_path entry with
  | FsSpecial (ProjectRoots subpath) =>
      map (fun root =>
        mkEntry (FsPath (match subpath with
                         | Some subpath => resolve_path_against_base (home H) subpath root
                         | None => root
                         end)) (entry_access entry)) workspace_roots
  | FsGlobPattern pattern =>
      match parse_project_roots_glob_pattern pattern with
      | Some subpath =>
          map (fun root =>
            mkEntry (FsGlobPattern (resolve_project_roots_glob_pattern subpath root)) (entry_access entry))
            workspace_roots
      | None => [mkEntry (FsGlobPattern pattern) (entry_access entry)]
      end
  | FsPath p => [mkEntry (FsPath p) (entry_access entry)]
  | FsSpecial value => [mkEntry (FsSpecial value) (entry_access entry)]
  end.
Definition materialize_project_roots_with_workspace_roots (self : FileSystemSandboxPolicy)
    (workspace_roots : list path) : FileSystemSandboxPolicy :=
  with_entries self (flat_map (materialize_entry workspace_roots) (policy_entries self)).

Definition with_materialized_project_roots_for_workspace_roots (self : FileSystemSandboxPolicy)
    (workspace_roots : list path) : FileSystemSandboxPolicy :=
  with_entries self
    (push_missing (policy_entries self)
       (policy_entries (materialize_project_roots_with_workspace_roots self workspace_roots))).

(** ** Adding roots *)

Definition push_entry (self : FileSystemSandboxPolicy) (e : FileSystemSandboxEntry) : FileSystemSandboxPolicy :=
  with_entries self (policy_entries self ++ [e]).

Definition with_additional_readable_roots (self : FileSystemSandboxPolicy) (cwd : str) (roots : list path) :
  FileSystemSandboxPolicy :=
  if has_full_disk_read_access self then self
  else fold_left (fun self p =>
         if can_read_path_with_cwd self (display p) cwd then self
         else push_entry self (mkEntry (FsPath p) Read)) roots self.

Definition with_additional_writable_roots (self : FileSystemSandboxPolicy) (cwd : str) (roots : list path) :
  FileSystemSandboxPolicy :=
  fold_left (fun self p =>
    if can_write_path_with_cwd self (display p) cwd then self
    else push_entry self (mkEntry (FsPath p) Write)) roots self.
End host.

(** ** Precedence *)

Lemma precedence_le_spec e f :
  precedence_le e f = true <->
  (length (resolved_path e) < length (resolved_path f))%nat
  \/ (length (resolved_path e) = length (resolved_path f)
      /\ (access_rank (resolved_access e) <= access_rank (resolved_access f))%nat).
Proof.
  unfold precedence_le, resolved_entry_precedence.
  rewrite orb_true_iff, andb_true_iff, Nat.ltb_lt, Nat.eqb_eq, Nat.leb_le. lia.
Qed.
Lemma precedence_le_refl e : precedence_le e e = true.
Proof. apply precedence_le_spec. lia. Qed.
Lemma precedence_le_trans e f g :
  precedence_le e f = true -> precedence_le f g = true -> precedence_le e g = true.
Proof. rewrite !precedence_le_spec. lia. Qed.
Lemma precedence_le_total e f : precedence_le e f = true \/ precedence_le f e = true.
Proof. rewrite !precedence_le_spec. lia. Qed.
Lemma access_rank_inj a b : access_rank a = access_rank b -> a = b.
Proof. by destruct a, b. Qed.

(** The entries that contain the path [t]. *)
Definition matching (t : path) (es : list ResolvedFileSystemEntry) : list ResolvedFileSystemEntry :=
  List.filter (fun entry => path_starts_with t (resolved_path entry)) es.

Lemma elem_of_matching t es e : e ∈ matching t es <-> e ∈ es /\ path_starts_with t (resolved_path e) = true.
Proof. unfold matching. by rewrite elem_of_filter_bool. Qed.

(** [decides t es a]: the entry rule.  Some entry containing [t] grants [a] and
    no other entry containing [t] is more specific, or as specific with a
    stronger access; without any entry the answer is [Deny]. *)
Definition decides (t : path) (es : list ResolvedFileSystemEntry) (a : FileSystemAccessMode) : Prop :=
  ((forall e, e ∈ es -> path_starts_with t (resolved_path e) = true -> False) /\ a = Deny)
  \/ exists e, e ∈ es /\ path_starts_with t (resolved_path e) = true /\ resolved_access e = a /\
     forall f, f ∈ es -> path_starts_with t (resolved_path f) = true ->
       (length (resolved_path f) < length (resolved_path e))%nat
       \/ (resolved_path f = resolved_path e /\ (access_rank (resolved_access f) <= access_rank a)%nat).

Definition decide_access (t : path) (es : list ResolvedFileSystemEntry) : FileSystemAccessMode :=
  match max_by precedence_le (matching t es) with
  | Some entry => resolved_access entry
  | None => Deny
  end.

Lemma decide_access_decides t es : decides t es (decide_access t es).
Proof.
  unfold decide_access. destruct (max_by _ _) as [e|] eqn:Hm.
  - right. exists e. pose proof (max_by_in _ _ _ Hm) as [He Hp]%elem_of_matching.
    split_and!; [done..|]. intros f Hf Hfp.
    assert (precedence_le f e = true) as Hle.
    { eapply max_by_upper; eauto using precedence_le_refl, precedence_le_trans, precedence_le_total.
      by apply elem_of_matching. }
    apply precedence_le_spec in Hle as [?|[Hl ?]]; [by left|]. right. split; [|done].
    by eapply prefixes_same_length.
  - left. split; [|done]. apply max_by_None in Hm. intros e He Hp.
    assert (e ∈ matching t es) as Hin by by apply elem_of_matching. rewrite Hm in Hin. set_solver.
Qed.

Lemma decides_unique t es a b : decides t es a -> decides t es b -> a = b.
Proof.
  intros [[Hn ->]|(e & He & Hpe & <- & Hmax)] [[Hm ->]|(f & Hf & Hpf & <- & Hmax')]; [done|naive_solver..|].
  apply access_rank_inj.
  destruct (Hmax f Hf Hpf) as [?|[Heq ?]], (Hmax' e He Hpe) as [?|[Heq' ?]]; try lia;
    try (rewrite Heq in *; lia); rewrite Heq' in *; lia.
Qed.

Lemma decides_ext t es es' a :
  (forall e, e ∈ es <-> e ∈ es') -> decides t es a -> decides t es' a.
Proof.
  intros Heq [[Hn ->]|(e & He & Hp & Ha & Hmax)].
  - left. split; [|done]. intros e He. apply Hn. by apply Heq.
  - right. exists e. split_and!; [by apply Heq|done..|]. intros f Hf. apply Hmax. by apply Heq.
Qed.

Lemma decide_access_iff t es a : decide_access t es = a <-> decides t es a.
Proof.
  split; [intros <-; apply decide_access_decides|]. intros Hd.
  by eapply decides_unique; [apply decide_access_decides|].
Qed.

Lemma decide_access_ext t es es' :
  (forall e, e ∈ es <-> e ∈ es') -> decide_access t es = decide_access t es'.
Proof.
  intros Heq. apply decide_access_iff.
  apply (decides_ext t es'); [naive_solver|apply decide_access_decides].
Qed.

(** An entry exactly at the path decides when no other entry there is stronger. *)
Lemma decides_at t es e :
  e ∈ es -> resolved_path e = t ->
  (forall f, f ∈ es -> resolved_path f = t -> (access_rank (resolved_access f) <= access_rank (resolved_access e))%nat) ->
  decide_access t es = resolved_access e.
Proof.
  intros He Hp Hmax. apply decide_access_iff. right. exists e.
  split_and!; [done|rewrite Hp; auto with rust|done|]. intros f Hf Hfp.
  pose proof (path_starts_with_length _ _ Hfp) as Hl. rewrite Hp.
  destruct (decide (length (resolved_path f) = length t)) as [Heq|]; [|left; lia]. right.
  assert (resolved_path f = t) as Hft by by eapply prefixes_same_length; [|apply path_starts_with_refl|].
  split; [done|]. by apply Hmax.
Qed.

Lemma resolve_access_decide H pol p cwd t :
  policy_kind pol = Restricted -> resolve_candidate_path H p cwd = Some t ->
  resolve_access_with_cwd H pol p cwd = decide_access t (resolved_entries_with_cwd H pol cwd).
Proof. intros Hk Ht. unfold resolve_access_with_cwd. by rewrite Hk, Ht. Qed.

Lemma resolve_access_unrestricted H pol p cwd :
  policy_kind pol <> Restricted -> resolve_access_with_cwd H pol p cwd = Write.
Proof. unfold resolve_access_with_cwd. by destruct (policy_kind pol). Qed.

(** ** The entry order does not matter *)

(** Two policies with the same entries in another order. *)
Definition policy_perm (p q : FileSystemSandboxPolicy) : Prop :=
  policy_kind p = policy_kind q /\ policy_entries p ≡ₚ policy_entries q.
#[export] Instance policy_perm_equivalence : Equivalence policy_perm.
Proof.
  split; [by split|by intros ? ? [? ?]; split|].
  intros p q r [H1 H2] [H3 H4]. split; [congruence|by rewrite H2].
Qed.

Lemma resolved_entries_perm H p q cwd :
  policy_perm p q -> resolved_entries_with_cwd H p cwd ≡ₚ resolved_entries_with_cwd H q cwd.
Proof. intros [_ Hp]. unfold resolved_entries_with_cwd. by rewrite Hp. Qed.

#[export] Instance resolve_access_proper H :
  Proper (policy_perm ==> eq ==> eq ==> eq) (resolve_access_with_cwd H).
Proof.
  intros p q Hpq ? t -> ? cwd ->. pose proof Hpq as [Hk _].
  destruct (decide (policy_kind p = Restricted)) as [Hr|Hr].
  - destruct (resolve_candidate_path H t cwd) as [c|] eqn:Hc.
    + rewrite !(resolve_access_decide H _ _ _ c) by congruence.
      apply decide_access_ext. intros e. by rewrite (resolved_entries_perm H p q cwd Hpq).
    + unfold resolve_access_with_cwd. by rewrite <- Hk, Hr, Hc.
  - rewrite !resolve_access_unrestricted by congruence. done.
Qed.

(** ** Resolved entries are absolute *)

(** The invariant of the type: [FsPath] holds an [AbsolutePathBuf]. *)
Definition entry_ok (e : FileSystemSandboxEntry) : Prop :=
  match entry_path e with FsPath p => absolute_normalized p | _ => True end.
Definition policy_ok (p : FileSystemSandboxPolicy) : Prop := Forall entry_ok (policy_entries p).

Lemma parent_snoc (p : path) (n : str) : parent (p ++ [Normal n]) = Some p.
Proof. unfold parent. by rewrite last_snoc, removelast_last. Qed.

Lemma last_ancestors (c : path) : absolute_normalized c -> last (path_ancestors c) = Some [RootDir].
Proof.
  intros (names & -> & _). unfold path_ancestors. cbn [length]. rewrite length_map.
  induction names as [|n names IH] using rev_ind; [done|].
  rewrite length_app, map_app, app_comm_cons. cbn [map length].
  replace (S (length names + 1)) with (S (S (length names))) by lia.
  cbn [ancestors_fuel]. rewrite parent_snoc. cbn [ancestors_fuel] in IH. exact IH.
Qed.

Lemma parent_None_root (p : path) : absolute_normalized p -> parent p = None -> p = [RootDir].
Proof.
  intros (names & -> & _). destruct names as [|n names _] using rev_ind; [done|].
  rewrite map_app, app_comm_cons. cbn [map]. by rewrite parent_snoc.
Qed.

Section resolution.
Context (H : Host) (Hok : host_ok H).

Lemma absolute_root_path_ok (c : path) : absolute_normalized c -> absolute_root_path_for_cwd H c = Some [RootDir].
Proof.
  intros Hc. unfold absolute_root_path_for_cwd. rewrite (last_ancestors c Hc).
  by rewrite abs_from_display by auto with rust.
Qed.

Lemma abs_from_tmp : abs_from H (lit "/tmp") = Some (components (lit "/tmp")).
Proof.
  change (lit "/tmp") with (display [RootDir; Normal (lit "tmp")]) at 1. rewrite abs_from_display; [done|].
  by apply absolute_normalizedb_true.
Qed.

Lemma resolve_special_ok v c q :
  from_option absolute_normalized True c -> resolve_file_system_special_path H v c = Some q ->
  absolute_normalized q.
Proof.
  intros Hc. destruct v as [| |sub| | |]; try done; simpl; intros Hq.
  - destruct c as [c|]; [|done]. destruct sub as [sub|]; simplify_eq; [|done]. by apply (abs_join_ok H Hok).
  - repeat case_in Hq; try done; by eapply abs_from_ok.
  - repeat case_in Hq; simplify_eq; by eapply abs_from_ok.
Qed.

Lemma resolve_entry_path_ok e c q :
  entry_ok e -> from_option absolute_normalized True c -> resolve_entry_path H (entry_path e) c = Some q ->
  absolute_normalized q.
Proof.
  unfold entry_ok. intros He Hc. destruct (entry_path e) as [p|g|v]; simpl; [naive_solver|done|].
  destruct v; try (by apply resolve_special_ok); try done.
  destruct c as [c|]; [|done]. rewrite absolute_root_path_ok by done. naive_solver auto with rust.
Qed.

Lemma abs_from_option_ok p : from_option absolute_normalized True (abs_from H p).
Proof. destruct (abs_from H p) eqn:E; [|done]. by eapply abs_from_ok. Qed.

Lemma elem_of_resolved pol cwd e :
  e ∈ resolved_entries_with_cwd H pol cwd <->
  exists en, en ∈ policy_entries pol /\ resolve_entry_path H (entry_path en) (abs_from H cwd) = Some (resolved_path e)
             /\ entry_access en = resolved_access e.
Proof.
  unfold resolved_entries_with_cwd. rewrite list_elem_of_omap. unfold resolve_entry. split.
  - intros (en & Hen & Heq). exists en. case_in Heq; by simplify_eq.
  - intros (en & Hen & Hr & Ha). exists en. rewrite Hr, Ha. by destruct e.
Qed.

Lemma resolved_ok pol cwd e :
  policy_ok pol -> e ∈ resolved_entries_with_cwd H pol cwd -> absolute_normalized (resolved_path e).
Proof.
  intros Hp (en & Hen & Hr & _)%elem_of_resolved. unfold policy_ok in Hp. rewrite Forall_forall in Hp.
  eapply resolve_entry_path_ok; [by apply Hp|apply abs_from_option_ok|done].
Qed.

Lemma resolve_candidate_ok p cwd t : resolve_candidate_path H p cwd = Some t -> absolute_normalized t.
Proof.
  unfold resolve_candidate_path. case_goal; [by apply abs_from_ok|].
  destruct (abs_from H cwd) as [c|] eqn:Hc; intros; simplify_eq. apply abs_join_ok; [done|].
  by eapply abs_from_ok.
Qed.

(** An absolute path is its own candidate. *)
Lemma resolve_candidate_display p cwd : absolute_normalized p -> resolve_candidate_path H (display p) cwd = Some p.
Proof.
  intros Hp. unfold resolve_candidate_path. rewrite components_display, abs_from_display by done.
  by destruct Hp as (? & -> & _).
Qed.
End resolution.
#[export] Hint Resolve abs_from_option_ok : rust.

(** ** Resolution depends on the components of a path only *)

(** [~] expansion, read off the components. *)
Definition expand_components (h : option path) (cs : path) : path :=
  match h, cs with
  | Some h, Normal name :: rest => if name =s? lit "~" then h ++ rest else cs
  | _, _ => cs
  end.

Lemma split_on_cons_sep (c : char) (s : str) : split_on c (c :: s) = [] :: split_on c s.
Proof. simpl. by rewrite N.eqb_refl. Qed.

(** Leading slashes yield no component, and neither does a leading [.] that is
    appended to a path. *)
Lemma components_tail (s : str) :
  filter (fun c => c <> CurDir) (components (drop_while (N.eqb SLASH) s)) = omap component_of (split_on SLASH s)
  /\ is_absolute (components (drop_while (N.eqb SLASH) s)) = false.
Proof.
  induction s as [|x s IH]; [done|]. cbn [drop_while].
  destruct (N.eqb_spec SLASH x) as [<-|Hx].
  { rewrite split_on_cons_sep. exact IH. }
  assert (forall ps : list str, filter (fun c => c <> CurDir) (omap component_of ps) = omap component_of ps) as Hf.
  { induction ps as [|q ps IHps]; [done|]. cbn [omap list_omap].
    destruct (component_of q) as [c|] eqn:Hc; [|exact IHps]. rewrite filter_cons_True; [by f_equal|].
    unfold component_of in Hc. repeat case_bool_decide; by simplify_eq. }
  unfold components. destruct (split_on SLASH (x :: s)) as [|q ps] eqn:Hs.
  { simpl in Hs. repeat case_match; done. }
  assert (q <> []) as Hq.
  { intros ->. simpl in Hs. rewrite (proj2 (N.eqb_neq x SLASH)) in Hs by done. by destruct (split_on SLASH s). }
  rewrite (bool_decide_eq_false_2 (q = [])) by done. rewrite filter_app, Hf. cbn [omap list_omap].
  destruct (component_of q) as [c|] eqn:Hc; unfold component_of in Hc;
    repeat case_bool_decide; by simplify_eq/=.
Qed.

Lemma expand_by_components (h : option path) (s : str) :
  from_option absolute_normalized True h ->
  maybe_expand_home_directory h s = expand_components h (components s).
Proof.
  intros Hh. unfold maybe_expand_home_directory, expand_components. destruct h as [h|]; [|done].
  destruct (split_on SLASH s) as [|q ps] eqn:Hs; [by destruct s; simpl in Hs; repeat case_match|].
  assert (s = join [SLASH] (q :: ps)) as Hj by (rewrite <- Hs; symmetry; apply join_split_on).
  destruct (decide (q = lit "~")) as [->|Hq].
  - assert (components s = Normal (lit "~") :: omap component_of ps) as -> by (unfold components; by rewrite Hs).
    rewrite (bool_decide_eq_true_2 (lit "~" = lit "~")) by done. destruct ps as [|r ps].
    + cbn [join] in Hj. subst s. by rewrite app_nil_r.
    + remember (join [SLASH] (r :: ps)) as tl eqn:Htl.
      assert (s = lit "~" ++ SLASH :: tl) as -> by by rewrite Hj, Htl.
      rewrite strip_prefix_app. rewrite bool_decide_eq_false_2 by done.
      change (strip_prefix [SLASH] (SLASH :: tl)) with (Some tl). cbv iota beta.
      pose proof (components_tail tl) as [Hc Ha].
      pose proof (split_on_no_sep SLASH (lit "~" ++ SLASH :: tl)) as Hn.
      rewrite Hs in Hn. inversion Hn as [|? ? _ Hn'].
      rewrite Htl, split_on_join in Hc by done. rewrite <- Htl in Hc. unfold path_join. rewrite Ha.
      destruct Hh as (names & -> & _). by rewrite Hc.
  - assert (strip_prefix (lit "~") s ≫= strip_prefix [SLASH] = None /\ s <> lit "~") as [Hp Hne].
    { split.
      - destruct (strip_prefix (lit "~") s) as [r|] eqn:Hr; [|done]. cbn.
        destruct (strip_prefix [SLASH] r) as [r'|] eqn:Hr'; [|done]. exfalso.
        apply strip_prefix_Some in Hr, Hr'. subst r. rewrite Hr in Hs. apply Hq.
        change (lit "~" ++ [SLASH] ++ r') with (126%N :: SLASH :: r') in Hs. simpl in Hs. by simplify_eq.
      - intros ->. simpl in Hs. change (lit "~") with [126%N] in Hs. simpl in Hs. by simplify_eq. }
    assert (match components s with Normal name :: rest => if name =s? lit "~" then h ++ rest else components s
            | _ => components s end = components s) as ->.
    { destruct (components s) as [|[| | |name] cs] eqn:Hc; try done. case_bool_decide; [|done]. subst name.
      exfalso. unfold components in Hc. rewrite Hs in Hc.
      destruct (decide (s = [])) as [->|Hs0]; [by simplify_eq/=|].
      rewrite (bool_decide_eq_false_2 (s = [])) in Hc by done. unfold component_of in Hc at 1.
      repeat case_bool_decide; simplify_eq/=. }
    destruct (strip_prefix (lit "~") s) as [r|] eqn:Hr; [|done].
    apply strip_prefix_Some in Hr. rewrite bool_decide_eq_false_2 by (intros ->; by rewrite app_nil_r in Hr).
    cbn in Hp. by rewrite Hp.
Qed.

Lemma resolve_by_components (h : option path) (s t : str) (base : path) :
  from_option absolute_normalized True h -> components s = components t ->
  resolve_path_against_base h s base = resolve_path_against_base h t base.
Proof.
  intros Hh Hst. unfold resolve_path_against_base.
  by rewrite (expand_by_components h s Hh), (expand_by_components h t Hh), Hst.
Qed.

Section shared_targets.
Context (H : Host) (Hok : host_ok H).

Lemma special_share_resolve v w c :
  special_paths_share_target v w = true ->
  resolve_entry_path H (FsSpecial v) c = resolve_entry_path H (FsSpecial w) c.
Proof.
  destruct v as [| |s| | |], w as [| |t| | |]; try done. cbn [special_paths_share_target subpath_eqb].
  intros Hst. cbn [resolve_entry_path resolve_file_system_path resolve_file_system_special_path].
  destruct c as [c|]; [|done]. destruct s as [s|], t as [t|]; try done. f_equal.
  cbn [subpath_eqb] in Hst. bool_to_prop.
  apply resolve_by_components; [apply Hok|done].
Qed.

Lemma entry_eqb_resolve e f c :
  entry_eqb e f = true ->
  entry_access e = entry_access f /\ resolve_entry_path H (entry_path e) c = resolve_entry_path H (entry_path f) c.
Proof.
  unfold entry_eqb. intros [Hp Ha]%andb_true_iff. bool_to_prop. split; [done|].
  destruct (entry_path e) as [p|g|v], (entry_path f) as [q|g'|w]; try done; cbn [fs_path_eqb] in Hp.
  - by apply bool_decide_eq_true in Hp as ->.
  - apply special_share_resolve. destruct v, w; done.
Qed.

(** An entry of the same target resolves to the same path: always for the same
    special path; for [/] and [/tmp] when [/tmp] is a directory. *)
Lemma share_target_resolve (p q : FileSystemPath) c t :
  match p with FsPath p => absolute_normalized p | _ => True end ->
  match q with FsPath q => absolute_normalized q | _ => True end ->
  absolute_normalized c -> host_is_dir H (components (lit "/tmp")) = true ->
  file_system_paths_share_target p q = true ->
  resolve_entry_path H q (Some c) = Some t -> resolve_entry_path H p (Some c) = Some t.
Proof.
  intros Hp Hq Hc Htmp Hs Hr.
  assert (forall v (r : path), absolute_normalized r -> special_path_matches_absolute_path v r = true ->
    resolve_entry_path H (FsSpecial v) (Some c) = Some r) as Habs.
  { intros v r Hr' Hv. destruct v; try done; cbn [special_path_matches_absolute_path] in Hv; bool_to_prop.
    - cbn. rewrite absolute_root_path_ok by done. by rewrite (parent_None_root r Hr' Hv).
    - cbn. rewrite abs_from_tmp, Htmp. by rewrite Hv. }
  destruct p as [p|g|v], q as [q|g'|w]; try done; cbn [file_system_paths_share_target] in Hs.
  - bool_to_prop. by subst.
  - cbn. f_equal. pose proof (Habs w p Hp Hs) as Hw. rewrite Hr in Hw. by simplify_eq.
  - cbn in Hr. simplify_eq. by apply Habs.
  - rewrite (special_share_resolve v w); done.
Qed.
End shared_targets.

(** ** Properties *)

(** C8. Under a restricted policy, the access of a path that resolves is the one of the most specific entry containing
    it, ties at the same path broken by [Deny] over [Write] over [Read], and
    [Deny] when no entry contains it: an answer is given exactly when the rule
    [decides] gives it. *)
Theorem resolve_access_most_specific (H : Host) (pol : FileSystemSandboxPolicy) (p cwd : str) (t : path)
    (a : FileSystemAccessMode) :
  policy_kind pol = Restricted -> resolve_candidate_path H p cwd = Some t ->
  resolve_access_with_cwd H pol p cwd = a <-> decides t (resolved_entries_with_cwd H pol cwd) a.
Proof. intros Hk Ht. rewrite (resolve_access_decide H pol p cwd t Hk Ht). apply decide_access_iff. Qed.

Definition dir_a : path := [RootDir; Normal (lit "a")].
Definition git_a : path := [RootDir; Normal (lit "a"); Normal (lit ".git")].
Definition demo_policy : FileSystemSandboxPolicy :=
  restricted [mkEntry (FsSpecial Root) Read; mkEntry (FsPath dir_a) Write; mkEntry (FsPath git_a) Write].

Lemma resolve_access_most_specific_witness :
  decides [RootDir; Normal (lit "a"); Normal (lit "x")]
    (resolved_entries_with_cwd empty_host demo_policy (lit "/")) Write.
Proof. apply (resolve_access_most_specific empty_host demo_policy (lit "/a/x") (lit "/")); done. Defined.

(** The order of the entries of a policy does not influence the access of
    any path. *)
Theorem resolve_access_order (H : Host) (p q : FileSystemSandboxPolicy) (f cwd : str) :
  policy_perm p q -> resolve_access_with_cwd H p f cwd = resolve_access_with_cwd H q f cwd.
Proof. intros Hpq. by rewrite Hpq. Qed.

Lemma resolve_access_order_witness :
  resolve_access_with_cwd empty_host demo_policy (lit "/a/.git/config") (lit "/")
  = resolve_access_with_cwd empty_host (with_entries demo_policy (rev (policy_entries demo_policy)))
      (lit "/a/.git/config") (lit "/").
Proof. apply resolve_access_order. split; [done|]. apply Permutation_rev. Defined.

(** ** Metadata directories *)

Lemma metadata_path_name_in m : m ∈ PROTECTED_METADATA_PATH_NAMES -> metadata_path_name m = Some m.
Proof.
  unfold PROTECTED_METADATA_PATH_NAMES. rewrite !elem_of_cons, elem_of_nil.
  intros [->|[->|[->|[]]]]; reflexivity.
Qed.
Lemma metadata_path_name_Some n m : metadata_path_name n = Some m -> n = m /\ m ∈ PROTECTED_METADATA_PATH_NAMES.
Proof.
  unfold metadata_path_name. intros [Hm Hn]%find_some. bool_to_prop. split; [done|]. by apply list_elem_of_In.
Qed.
Lemma metadata_name_ok m :
  m ∈ PROTECTED_METADATA_PATH_NAMES -> file_name_ok m /\ strip_prefix (lit "~") m = None.
Proof.
  unfold PROTECTED_METADATA_PATH_NAMES. rewrite !elem_of_cons, elem_of_nil.
  intros [->|[->|[->|[]]]]; (split; [by apply (bool_decide_unpack _)|reflexivity]).
Qed.

Section metadata.
Context (H : Host) (Hok : host_ok H).

Lemma metadata_child_spec pol target cwd :
  policy_ok pol ->
  match metadata_child_of_writable_root H pol target cwd with
  | Some (q, m) =>
      exists root, root ∈ resolved_entries_with_cwd H pol cwd /\ resolved_access root = Write
        /\ m ∈ PROTECTED_METADATA_PATH_NAMES /\ q = resolved_path root ++ [Normal m]
        /\ path_starts_with target q = true
  | None =>
      forall root m, root ∈ resolved_entries_with_cwd H pol cwd -> resolved_access root = Write ->
        m ∈ PROTECTED_METADATA_PATH_NAMES -> path_starts_with target (resolved_path root ++ [Normal m]) = false
  end.
Proof.
  intros Hp. unfold metadata_child_of_writable_root.
  destruct (omap _ _) as [|[q m] l] eqn:Ho; cbn [head].
  - intros root m Hr Hw Hm. apply not_true_iff_false. intros [r Hr']%path_starts_with_app.
    assert (exists c, metadata_child_of_entry H target root = Some c) as [c Hc].
    { unfold metadata_child_of_entry. rewrite Hw. cbn [can_write].
      rewrite (proj2 (strip_path_prefix_Some _ _ (Normal m :: r))) by (by rewrite Hr', <- app_assoc).
      cbn [as_os_str component_str]. rewrite metadata_path_name_in by done. by eexists. }
    assert (c ∈ omap (metadata_child_of_entry H target) (resolved_entries_with_cwd H pol cwd)) as Hin
      by (apply list_elem_of_omap; by exists root).
    rewrite Ho in Hin. set_solver.
  - assert ((q, m) ∈ omap (metadata_child_of_entry H target) (resolved_entries_with_cwd H pol cwd)) as Hin
      by (rewrite Ho; set_solver).
    apply list_elem_of_omap in Hin as (root & Hr & Hc). exists root.
    pose proof (resolved_ok H Hok pol cwd root Hp Hr) as Hroot.
    unfold metadata_child_of_entry in Hc. destruct (can_write _) eqn:Hw; [|done].
    destruct (strip_path_prefix _ _) as [[|c r]|] eqn:Hs; try done. apply strip_path_prefix_Some in Hs.
    destruct (metadata_path_name _) as [m'|] eqn:Hm; simplify_eq.
    apply metadata_path_name_Some in Hm as [Hc Hm].
    pose proof (metadata_name_ok m Hm) as [Hok1 Hok2].
    split_and!; [done|by destruct (resolved_access root)|done|by apply abs_join_name|].
    rewrite abs_join_name by done. apply path_starts_with_app. exists r. rewrite <- app_assoc. simpl.
    replace c with (Normal m); [done|].
    destruct c as [| | |n]; simpl in Hc; subst; try done; exfalso;
      unfold PROTECTED_METADATA_PATH_NAMES in Hm; rewrite !elem_of_cons, elem_of_nil in Hm; naive_solver.
Qed.
End metadata.

(** C33. Protected metadata: when a restricted policy without full disk write
    access (which is a write entry for the root that no entry narrows) lets a
    path below the [.git], [.agents] or [.codex] of a writable root be written,
    some write entry names a place inside a metadata directory of a writable root
    and contains the path. *)
Theorem metadata_write_protected (H : Host) (pol : FileSystemSandboxPolicy) (p cwd : str) (t : path)
    (root : ResolvedFileSystemEntry) (m : str) :
  host_ok H -> policy_ok pol -> policy_kind pol = Restricted -> has_full_disk_write_access pol = false ->
  resolve_candidate_path H p cwd = Some t ->
  root ∈ resolved_entries_with_cwd H pol cwd -> resolved_access root = Write ->
  m ∈ PROTECTED_METADATA_PATH_NAMES -> path_starts_with t (resolved_path root ++ [Normal m]) = true ->
  can_write_path_with_cwd H pol p cwd = true ->
  exists grant root' m',
    grant ∈ resolved_entries_with_cwd H pol cwd /\ resolved_access grant = Write
    /\ root' ∈ resolved_entries_with_cwd H pol cwd /\ resolved_access root' = Write
    /\ m' ∈ PROTECTED_METADATA_PATH_NAMES
    /\ path_starts_with t (resolved_path grant) = true
    /\ path_starts_with (resolved_path grant) (resolved_path root' ++ [Normal m']) = true.
Proof.
  intros Hok Hp Hk Hf Ht Hr Hw Hm Hpre. unfold can_write_path_with_cwd. rewrite Hf.
  destruct (can_write _); [cbn [negb]|done]. unfold is_metadata_write_denied, is_restricted.
  rewrite (bool_decide_eq_true_2 _ Hk), Ht. cbn [negb].
  pose proof (metadata_child_spec H Hok pol t cwd Hp) as Hc.
  destruct (metadata_child_of_writable_root H pol t cwd) as [[q m']|].
  - destruct Hc as (root' & Hr' & Hw' & Hm' & -> & _). rewrite negb_involutive. unfold has_explicit_write_entry_for_metadata_path.
    intros (grant & Hg & Hgs)%existsb_exists. bool_to_prop. apply list_elem_of_In in Hg.
    exists grant, root', m'. split_and!; try done. by destruct (resolved_access grant).
  - rewrite (Hc root m) in Hpre; done.
Qed.

Lemma demo_policy_ok : policy_ok demo_policy.
Proof. repeat constructor; by apply absolute_normalizedb_true. Qed.

Lemma metadata_write_protected_witness :
  exists grant root' m',
    grant ∈ resolved_entries_with_cwd empty_host demo_policy (lit "/") /\ resolved_access grant = Write
    /\ root' ∈ resolved_entries_with_cwd empty_host demo_policy (lit "/") /\ resolved_access root' = Write
    /\ m' ∈ PROTECTED_METADATA_PATH_NAMES
    /\ path_starts_with (git_a ++ [Normal (lit "config")]) (resolved_path grant) = true
    /\ path_starts_with (resolved_path grant) (resolved_path root' ++ [Normal m']) = true.
Proof.
  apply (metadata_write_protected empty_host demo_policy (lit "/a/.git/config") (lit "/")
           (git_a ++ [Normal (lit "config")]) (mkResolved dir_a Write) (lit ".git"));
    try reflexivity; [apply empty_host_ok|apply demo_policy_ok|apply (bool_decide_unpack _); reflexivity..].
Defined.

(** Unlike the access of a path, the metadata rule looks at the first write
    entry that contains the path only: listing a writable [.git] before or after
    its parent decides whether a [.codex] below it can be written. *)
Theorem metadata_rule_order_dependent :
  let p := restricted [mkEntry (FsPath dir_a) Write; mkEntry (FsPath git_a) Write] in
  let q := restricted [mkEntry (FsPath git_a) Write; mkEntry (FsPath dir_a) Write] in
  policy_perm p q
  /\ can_write_path_with_cwd empty_host p (lit "/a/.git/.codex/config.toml") (lit "/") = true
  /\ can_write_path_with_cwd empty_host q (lit "/a/.git/.codex/config.toml") (lit "/") = false.
Proof. split_and!; [split; [done|apply Permutation_swap]|by vm_compute..]. Qed.

(** ** Full disk access *)

Lemma has_root_access_entry pol f :
  has_root_access pol f = true ->
  is_restricted pol = true
  /\ exists r, r ∈ policy_entries pol /\ entry_path r = FsSpecial Root /\ f (entry_access r) = true.
Proof.
  intros [Hres (r & Hr & Hf)%existsb_exists]%andb_true_iff. split; [done|]. exists r.
  apply list_elem_of_In in Hr. destruct (entry_path r) as [| |[]] eqn:Hp; try done.
Qed.

Section full_disk.
Context (H : Host) (Hok : host_ok H).

(** With an entry for [/] of some access, every absolute path is contained. *)
Lemma root_entry_contains pol cwd c en t :
  abs_from H cwd = Some c -> en ∈ policy_entries pol -> entry_path en = FsSpecial Root ->
  absolute_normalized t ->
  mkResolved [RootDir] (entry_access en) ∈ resolved_entries_with_cwd H pol cwd
  /\ path_starts_with t [RootDir] = true.
Proof.
  intros Hc Hen Hp (names & -> & _). split; [|apply path_starts_with_app; by exists (map Normal names)].
  apply elem_of_resolved. exists en. rewrite Hp, Hc. cbn.
  rewrite absolute_root_path_ok by by eapply abs_from_ok. done.
Qed.

(** An entry that does not narrow writes is, if it resolves at all, overridden by
    a write entry at the same path. *)
Lemma not_narrowing_overridden pol cwd c en e :
  policy_ok pol -> abs_from H cwd = Some c -> host_is_dir H (components (lit "/tmp")) = true ->
  has_root_access pol can_write = true -> narrows_write pol en = false ->
  en ∈ policy_entries pol -> resolve_entry_path H (entry_path en) (Some c) = Some e -> entry_access en <> Write ->
  entry_access en = Read /\ mkResolved e Write ∈ resolved_entries_with_cwd H pol cwd.
Proof.
  intros Hp Hc Htmp Hroot Hn Hen He Hw. assert (absolute_normalized c) as Hcn by by eapply abs_from_ok.
  unfold policy_ok in Hp. rewrite Forall_forall in Hp. unfold narrows_write in Hn.
  destruct (can_write (entry_access en)) eqn:Hcw; [by destruct (entry_access en)|].
  assert (has_same_target_write_override pol en = true ->
          entry_access en = Read /\ mkResolved e Write ∈ resolved_entries_with_cwd H pol cwd) as Hover.
  { intros (cand & Hcand & Hcs)%existsb_exists. bool_to_prop. apply list_elem_of_In in Hcand.
    destruct (entry_access cand) eqn:Ha; try done. split; [by destruct (entry_access en)|].
    apply elem_of_resolved. exists cand. rewrite Hc. split_and!; [done| |done]. cbn [resolved_path].
    apply (share_target_resolve H Hok _ (entry_path en)); [exact (Hp _ Hcand)|exact (Hp _ Hen)|done..]. }
  destruct (entry_path en) as [p|g|[| |s| | |]] eqn:Hpath; try done;
    try (apply Hover; by apply negb_false_iff).
  unfold is_deny in Hn. bool_to_prop. split; [by destruct (entry_access en)|].
  apply has_root_access_entry in Hroot as (_ & r & Hr & Hrp & Hrw). cbn in He.
  rewrite absolute_root_path_ok in He by done. simplify_eq.
  replace Write with (entry_access r) by by destruct (entry_access r).
  by eapply root_entry_contains; [| | |apply absolute_normalized_root].
Qed.

Lemma full_disk_write_access pol cwd c t :
  policy_ok pol -> abs_from H cwd = Some c -> host_is_dir H (components (lit "/tmp")) = true ->
  policy_kind pol = Restricted -> has_full_disk_write_access pol = true -> absolute_normalized t ->
  decide_access t (resolved_entries_with_cwd H pol cwd) = Write.
Proof.
  intros Hp Hc Htmp Hk Hf Ht. unfold has_full_disk_write_access in Hf. rewrite Hk in Hf. bool_to_prop.
  pose proof (has_root_access_entry _ _ ltac:(eassumption)) as (Hres & r & Hr & Hrp & Hrw).
  destruct (root_entry_contains pol cwd c r t Hc Hr Hrp Ht) as [Hin Hpre].
  destruct (decide_access_decides t (resolved_entries_with_cwd H pol cwd)) as [[Hn _]|(e & He & Hpe & Ha & Hmax)];
    [by destruct (Hn _ Hin Hpre)|]. rewrite <- Ha.
  destruct (decide (resolved_access e = Write)) as [|Hne]; [done|exfalso].
  pose proof He as (en & Hen & Hre & Hae)%elem_of_resolved. rewrite Hc in Hre.
  assert (narrows_write pol en = false) as Hnn.
  { apply (existsb_false _ (policy_entries pol)); [|done].
    match goal with Hx : has_write_narrowing_entries _ = false |- _ =>
      unfold has_write_narrowing_entries in Hx; by rewrite Hres in Hx end. }
  destruct (not_narrowing_overridden pol cwd c en (resolved_path e)) as [Hread Hov]; try done; [congruence|].
  destruct (Hmax _ Hov Hpe) as [Hl|[_ Hrank]]; cbn in *; [lia|].
  rewrite <- Ha, <- Hae, Hread in Hrank. cbn in Hrank. lia.
Qed.
End full_disk.

(** [has_full_disk_write_access] is no overstatement: when it holds, every
    path that resolves can be written, provided [/tmp] is a directory. *)
Theorem full_disk_write_everywhere (H : Host) (pol : FileSystemSandboxPolicy) (p cwd : str) (c t : path) :
  host_ok H -> policy_ok pol -> abs_from H cwd = Some c -> host_is_dir H (components (lit "/tmp")) = true ->
  has_full_disk_write_access pol = true -> resolve_candidate_path H p cwd = Some t ->
  can_write_path_with_cwd H pol p cwd = true.
Proof.
  intros Hok Hp Hc Htmp Hf Ht. unfold can_write_path_with_cwd. rewrite Hf.
  assert (resolve_access_with_cwd H pol p cwd = Write) as ->; [|done].
  destruct (decide (policy_kind pol = Restricted)) as [Hk|Hk]; [|by apply resolve_access_unrestricted].
  rewrite (resolve_access_decide H pol p cwd t Hk Ht).
  eapply full_disk_write_access; try done. by eapply resolve_candidate_ok.
Qed.

Definition tmp_host : Host :=
  mkHost None None None (fun p => bool_decide (p = components (lit "/tmp"))) (fun _ => false) (fun _ => false)
    (fun _ => None) (fun _ => None) (fun _ => None).
Definition shadowed_policy : FileSystemSandboxPolicy :=
  restricted [mkEntry (FsSpecial Root) Write; mkEntry (FsPath (components (lit "/tmp"))) Read; mkEntry (FsSpecial SlashTmp) Write].

Lemma full_disk_write_everywhere_witness :
  can_write_path_with_cwd tmp_host shadowed_policy (lit "/tmp/x") (lit "/") = true.
Proof.
  apply (full_disk_write_everywhere tmp_host shadowed_policy (lit "/tmp/x") (lit "/") [RootDir]
           [RootDir; Normal (lit "tmp"); Normal (lit "x")]); try reflexivity; [by split|].
  repeat constructor. by apply absolute_normalizedb_true.
Defined.

(** Without a [/tmp] directory the shortcut overstates: the [:slash_tmp] write
    entry that shadows a read-only [/tmp] in the test for full access resolves to
    nothing, so a policy with full disk write access refuses writes below [/tmp]. *)
Theorem full_disk_write_without_tmp :
  has_full_disk_write_access shadowed_policy = true
  /\ can_write_path_with_cwd empty_host shadowed_policy (lit "/tmp/x") (lit "/") = false.
Proof. by vm_compute. Qed.

(** [has_full_disk_read_access] likewise: every path that resolves can be
    read. *)
Theorem full_disk_read_everywhere (H : Host) (pol : FileSystemSandboxPolicy) (p cwd : str) (c t : path) :
  host_ok H -> abs_from H cwd = Some c -> has_full_disk_read_access pol = true ->
  resolve_candidate_path H p cwd = Some t -> can_read_path_with_cwd H pol p cwd = true.
Proof.
  intros Hok Hc Hf Ht. unfold can_read_path_with_cwd.
  destruct (decide (policy_kind pol = Restricted)) as [Hk|Hk]; [|by rewrite resolve_access_unrestricted].
  rewrite (resolve_access_decide H pol p cwd t Hk Ht). apply resolve_candidate_ok in Ht; [|done].
  unfold has_full_disk_read_access in Hf. rewrite Hk in Hf. bool_to_prop.
  pose proof (has_root_access_entry _ _ ltac:(eassumption)) as (Hres & r & Hr & Hrp & Hrw).
  destruct (root_entry_contains H Hok pol cwd c r t Hc Hr Hrp Ht) as [Hin Hpre].
  destruct (decide_access_decides t (resolved_entries_with_cwd H pol cwd)) as [[Hn _]|(e & He & _ & Ha & _)];
    [by destruct (Hn _ Hin Hpre)|]. rewrite <- Ha.
  apply elem_of_resolved in He as (en & Hen & _ & <-).
  assert (is_deny en = false) as Hd.
  { apply (existsb_false _ (policy_entries pol)); [|done].
    match goal with Hx : has_denied_read_restrictions _ = false |- _ =>
      unfold has_denied_read_restrictions in Hx; by rewrite Hres in Hx end. }
  unfold is_deny in Hd. bool_to_prop. by destruct (entry_access en).
Qed.

Lemma full_disk_read_everywhere_witness :
  can_read_path_with_cwd empty_host demo_policy (lit "/etc/passwd") (lit "/") = true.
Proof.
  apply (full_disk_read_everywhere empty_host demo_policy (lit "/etc/passwd") (lit "/") [RootDir]
           [RootDir; Normal (lit "etc"); Normal (lit "passwd")]); try reflexivity. apply empty_host_ok.
Defined.

(** ** Materialised policies *)

Section materialize.
Context (H : Host) (Hok : host_ok H).

Lemma materialize_entry_resolve e c c' :
  absolute_normalized c -> absolute_normalized c' ->
  resolve_entry H (Some c') (materialize_entry_with_cwd H (Some c) e) = resolve_entry H (Some c) e.
Proof.
  intros Hc Hc'. destruct e as [[p|g|v] a]; cbn; [done| |].
  - destruct (parse_project_roots_glob_pattern g); reflexivity.
  - destruct v as [| |s| | |]; try reflexivity.
    + unfold resolve_entry. cbn. by rewrite !absolute_root_path_ok.
    + by destruct s.
Qed.

Lemma materialize_resolved pol cwd cwd' c c' :
  abs_from H cwd = Some c -> abs_from H cwd' = Some c' ->
  resolved_entries_with_cwd H (materialize_project_roots_with_cwd H pol cwd) cwd'
  = resolved_entries_with_cwd H pol cwd.
Proof.
  intros Hc Hc'. unfold resolved_entries_with_cwd, materialize_project_roots_with_cwd. cbn [policy_entries with_entries].
  rewrite Hc, Hc'. induction (policy_entries pol) as [|e es IH]; [done|]. cbn [map omap list_omap].
  rewrite materialize_entry_resolve by by eapply abs_from_ok. cbn [omap list_omap] in IH. by rewrite IH.
Qed.
End materialize.

(** A materialised policy survives a change of directory: the access of an
    absolute path under another current directory is the one the policy gave
    under the directory it was materialised for. *)
Theorem materialize_survives_cwd (H : Host) (pol : FileSystemSandboxPolicy) (p cwd cwd' : str) (c c' : path) :
  host_ok H -> abs_from H cwd = Some c -> abs_from H cwd' = Some c' -> is_absolute (components p) = true ->
  resolve_access_with_cwd H (materialize_project_roots_with_cwd H pol cwd) p cwd'
  = resolve_access_with_cwd H pol p cwd.
Proof.
  intros Hok Hc Hc' Ha. unfold resolve_access_with_cwd, resolve_candidate_path. rewrite Ha.
  cbn [policy_kind materialize_project_roots_with_cwd with_entries].
  by rewrite (materialize_resolved H Hok pol cwd cwd' c c' Hc Hc').
Qed.

Definition symbolic_policy : FileSystemSandboxPolicy :=
  restricted [mkEntry (FsSpecial (ProjectRoots None)) Write; mkEntry (FsSpecial (ProjectRoots (Some (lit "docs")))) Read].

Lemma materialize_survives_cwd_witness :
  resolve_access_with_cwd empty_host (materialize_project_roots_with_cwd empty_host symbolic_policy (lit "/w"))
    (lit "/w/docs/x") (lit "/elsewhere") = Read
  /\ resolve_access_with_cwd empty_host symbolic_policy (lit "/w/docs/x") (lit "/elsewhere") = Deny.
Proof.
  split; [|by vm_compute].
  rewrite (materialize_survives_cwd empty_host symbolic_policy (lit "/w/docs/x") (lit "/w") (lit "/elsewhere")
            (components (lit "/w")) (components (lit "/elsewhere")));
    [by vm_compute|apply empty_host_ok|reflexivity..].
Defined.

(** ** Deny entries survive a replacement of the allow side *)

Lemma push_missing_keeps es new e : e ∈ es -> e ∈ push_missing es new.
Proof.
  unfold push_missing. revert es. induction new as [|n new IH]; intros es He; [done|]. simpl.
  apply IH. case_goal; [done|]. set_solver.
Qed.

Lemma push_missing_has es new e :
  e ∈ new -> exists f, f ∈ push_missing es new /\ (f = e \/ entry_eqb f e = true).
Proof.
  unfold push_missing. revert es. induction new as [|n new IH]; intros es He; [set_solver|].
  cbn [fold_left]. apply elem_of_cons in He as [->|He]; [|by apply IH].
  destruct (existsb (fun entry => entry_eqb entry n) es) eqn:Hex.
  - apply existsb_exists in Hex as (f & Hf & Heq). exists f. split; [|by right].
    apply push_missing_keeps. by apply list_elem_of_In.
  - exists n. split; [|by left]. apply push_missing_keeps. set_solver.
Qed.

Lemma preserve_deny_kept self existing d :
  policy_kind self <> ExternalSandboxKind -> d ∈ policy_entries existing -> entry_access d = Deny ->
  policy_kind (preserve_deny_read_restrictions_from self existing) = Restricted
  /\ exists f, f ∈ policy_entries (preserve_deny_read_restrictions_from self existing)
       /\ (f = d \/ entry_eqb f d = true).
Proof.
  intros Hk Hd Ha.
  assert (existsb is_deny (policy_entries existing) = true) as Hex.
  { apply existsb_exists. exists d. split; [by apply list_elem_of_In|]. unfold is_deny. by rewrite Ha. }
  assert (d ∈ List.filter is_deny (policy_entries existing)) as Hin.
  { apply elem_of_filter_bool. unfold is_deny. by rewrite Ha. }
  unfold preserve_deny_read_restrictions_from. rewrite Hex, andb_true_r.
  destruct self as [k dp es]. cbn [policy_kind] in *. unfold is_restricted.
  destruct k; try done; cbn; (split; [done|by apply push_missing_has]).
Qed.

(** Deny rules survive when the allow side of a policy is replaced: every
    place an earlier policy denies by an exact entry stays denied, also when the
    replacement was unrestricted. *)
Theorem preserve_deny_denies (H : Host) (self existing : FileSystemSandboxPolicy) (cwd : str)
    (d : FileSystemSandboxEntry) (q : path) :
  host_ok H -> policy_ok existing -> policy_kind self <> ExternalSandboxKind ->
  d ∈ policy_entries existing -> entry_access d = Deny ->
  resolve_entry_path H (entry_path d) (abs_from H cwd) = Some q ->
  resolve_access_with_cwd H (preserve_deny_read_restrictions_from self existing) (display q) cwd = Deny.
Proof.
  intros Hok Hp Hk Hd Ha Hq. destruct (preserve_deny_kept self existing d Hk Hd Ha) as (Hr & f & Hf & Hfd).
  assert (absolute_normalized q) as Hn.
  { unfold policy_ok in Hp. rewrite Forall_forall in Hp.
    eapply resolve_entry_path_ok; [done|by apply Hp|by apply abs_from_option_ok|done]. }
  rewrite (resolve_access_decide H _ _ _ q Hr) by by apply resolve_candidate_display.
  assert (mkResolved q Deny ∈ resolved_entries_with_cwd H (preserve_deny_read_restrictions_from self existing) cwd) as Hin.
  { apply elem_of_resolved. exists f. destruct Hfd as [->|Heq]; [done|].
    apply (entry_eqb_resolve H Hok f d (abs_from H cwd)) in Heq as [Hacc ->].
    by rewrite Hacc. }
  apply (decides_at q _ (mkResolved q Deny)); [done..|]. intros e _ _. destruct (resolved_access e); cbn; lia.
Qed.

Definition secret : FileSystemSandboxEntry := mkEntry (FsPath (components (lit "/a/secret"))) Deny.
Lemma preserve_deny_denies_witness :
  resolve_access_with_cwd empty_host
    (preserve_deny_read_restrictions_from unrestricted (restricted [mkEntry (FsPath dir_a) Write; secret]))
    (display (components (lit "/a/secret"))) (lit "/") = Deny.
Proof.
  apply (preserve_deny_denies empty_host unrestricted _ (lit "/") secret);
    [apply empty_host_ok| |done|set_solver|reflexivity..].
  repeat constructor; by apply absolute_normalizedb_true.
Defined.
