(* ===== verification/SandboxRoots.v ===== *)
(** * Roots, legacy policies and permission profiles:
      [protocol/src/permissions.rs], [protocol/src/protocol.rs], [protocol/src/models.rs]

    What a policy hands to the sandboxes: its readable, writable and unreadable
    roots with the carve-outs below them, the matcher of denied reads, the
    conversion to and from the legacy [SandboxPolicy], and the
    [PermissionProfile] that carries a policy through a session.  The theorems
    show that what a writable root admits the policy grants, that the legacy
    conversion is a round trip, that the matcher fails closed, and that a
    profile keeps the policy it was made from. *)

From S2P Require Import Prelude AbsolutePath Host Permissions.

(** ** Data of [protocol.rs] *)

Inductive NetworkAccess : Type := NetworkAccessRestricted | NetworkAccessEnabled.
Definition network_access_is_enabled (n : NetworkAccess) : bool :=
  match n with NetworkAccessEnabled => true | NetworkAccessRestricted => false end.

Inductive SandboxPolicy : Type :=
| DangerFullAccess
| ReadOnly (network_access : bool)
| ExternalSandbox (network_access : NetworkAccess)
| WorkspaceWrite (writable_roots : list path) (network_access exclude_tmpdir_env_var exclude_slash_tmp : bool).

Record WritableRoot : Type := mkWritableRoot {
  wr_root : path;
  read_only_subpaths : list path;
  protected_metadata_names : list str
}.
#[export] Instance WritableRoot_eq_dec : EqDecision WritableRoot.
Proof. solve_decision. Defined.

Definition path_contains_protected_metadata_name (w : WritableRoot) (p : path) : bool :=
  match strip_path_prefix (wr_root w) p with
  | Some (first_component :: _) =>
      existsb (fun name => as_os_str first_component =s? name) (protected_metadata_names w)
  | _ => false
  end.
Definition is_path_writable (w : WritableRoot) (p : path) : bool :=
  if negb (path_starts_with p (wr_root w)) then false
  else if existsb (fun subpath => path_starts_with p subpath) (read_only_subpaths w) then false
  else negb (path_contains_protected_metadata_name w p).

Definition new_read_only_policy : SandboxPolicy := ReadOnly false.
Definition new_workspace_write_policy : SandboxPolicy := WorkspaceWrite [] false false false.

Definition legacy_has_full_disk_write_access (s : SandboxPolicy) : bool :=
  match s with DangerFullAccess | ExternalSandbox _ => true | ReadOnly _ | WorkspaceWrite _ _ _ _ => false end.
Definition has_full_network_access (s : SandboxPolicy) : bool :=
  match s with
  | DangerFullAccess => true
  | ExternalSandbox network_access => network_access_is_enabled network_access
  | ReadOnly network_access => network_access
  | WorkspaceWrite _ network_access _ _ => network_access
  end.
(** [NetworkSandboxPolicy::from(&SandboxPolicy)] *)
Definition network_from_sandbox_policy (s : SandboxPolicy) : NetworkSandboxPolicy :=
  if has_full_network_access s then NetEnabled else NetRestricted.

Section host.
Context (H : Host).

(** ** Effective paths *)

Definition normalize_candidate (raw_path ancestor : path) : option path :=
  match symlink_metadata H ancestor with
  | None => None
  | Some _ =>
      match canonicalize_preserving_symlinks H ancestor with
      | None => None
      | Some normalized_ancestor =>
          match strip_path_prefix ancestor raw_path with
          | None => None
          | Some suffix => abs_from H (display (path_join normalized_ancestor suffix))
          end
      end
  end.
Definition normalize_effective_absolute_path (p : path) : path :=
  from_option id p (head (omap (normalize_candidate p) (path_ancestors p))).

Fixpoint dedup_loop (normalize_effective_paths : bool) (seen : list path) (paths : list path) : list path :=
  match paths with
  | [] => []
  | p :: paths =>
      let dedup_path := if normalize_effective_paths then normalize_effective_absolute_path p else p in
      if bool_decide (dedup_path ∈ seen) then dedup_loop normalize_effective_paths seen paths
      else dedup_path :: dedup_loop normalize_effective_paths (dedup_path :: seen) paths
  end.
Definition dedup_absolute_paths (paths : list path) (normalize_effective_paths : bool) : list path :=
  dedup_loop normalize_effective_paths [] paths.

(** ** Defaults below a writable root *)

Definition is_git_pointer_file (p : path) : bool :=
  host_is_file H p && bool_decide (file_name p = Some PROTECTED_METADATA_GIT_PATH_NAME).

Definition resolve_gitdir_from_file (dot_git : path) : option path :=
  match host_read_to_string H dot_git with
  | None => None
  | Some contents =>
      match split_once 58%N (trim contents) with
      | None => None
      | Some (prefix, gitdir_raw) =>
          if trim prefix =s? lit "gitdir" then
            let gitdir_raw := trim gitdir_raw in
            if gitdir_raw =s? [] then None
            else match parent dot_git with
                 | None => None
                 | Some base =>
                     let gitdir_path := resolve_path_against_base (home H) gitdir_raw base in
                     if host_exists H gitdir_path then Some gitdir_path else None
                 end
          else None
      end
  end.

Definition default_read_only_subpaths_for_writable_root (writable_root : path)
    (protect_missing_dot_codex : bool) : list path :=
  let top_level_git := abs_join H writable_root PROTECTED_METADATA_GIT_PATH_NAME in
  let top_level_git_is_file := host_is_file H top_level_git in
  let top_level_git_is_dir := host_is_dir H top_level_git in
  let git_paths :=
    if top_level_git_is_dir || top_level_git_is_file then
      (if top_level_git_is_file && is_git_pointer_file top_level_git then
         match resolve_gitdir_from_file top_level_git with Some gitdir => [gitdir] | None => [] end
       else []) ++ [top_level_git]
    else [] in
  let top_level_agents := abs_join H writable_root PROTECTED_METADATA_AGENTS_PATH_NAME in
  let agents_paths := if host_is_dir H top_level_agents then [top_level_agents] else [] in
  let top_level_codex := abs_join H writable_root PROTECTED_METADATA_CODEX_PATH_NAME in
  let codex_paths :=
    if protect_missing_dot_codex || host_is_dir H top_level_codex then [top_level_codex] else [] in
  dedup_absolute_paths (git_paths ++ agents_paths ++ codex_paths) false.

(** The loop that appends the defaults of one writable root. *)
Definition append_default_subpaths (protect_missing_dot_codex : bool)
    (entries : list FileSystemSandboxEntry) (writable_root : path) : list FileSystemSandboxEntry :=
  fold_left append_default_read_only_path_if_no_explicit_rule
    (default_read_only_subpaths_for_writable_root writable_root protect_missing_dot_codex) entries.

(** ** Legacy policies *)

(** The entries [WorkspaceWrite] grants before any protection. *)
Definition workspace_write_grants (writable_roots : list path) (exclude_tmpdir_env_var exclude_slash_tmp : bool) :
  list FileSystemSandboxEntry :=
  [mkEntry (FsSpecial Root) Read; mkEntry (FsSpecial (ProjectRoots None)) Write]
  ++ (if negb exclude_slash_tmp then [mkEntry (FsSpecial SlashTmp) Write] else [])
  ++ (if negb exclude_tmpdir_env_var then [mkEntry (FsSpecial Tmpdir) Write] else [])
  ++ map (fun p => mkEntry (FsPath p) Write) writable_roots.

Definition workspace_write (writable_roots : list path) (exclude_tmpdir_env_var exclude_slash_tmp : bool) :
  FileSystemSandboxPolicy :=
  let entries := workspace_write_grants writable_roots exclude_tmpdir_env_var exclude_slash_tmp in
  let entries := append_default_read_only_project_root_subpath_if_no_explicit_rule entries (lit ".git") in
  let entries := append_default_read_only_project_root_subpath_if_no_explicit_rule entries (lit ".agents") in
  let entries := append_default_read_only_project_root_subpath_if_no_explicit_rule entries (lit ".codex") in
  restricted (fold_left (append_default_subpaths false) writable_roots entries).

(** [FileSystemSandboxPolicy::from(&SandboxPolicy)] *)
Definition from_sandbox_policy (value : SandboxPolicy) : FileSystemSandboxPolicy :=
  match value with
  | DangerFullAccess => unrestricted
  | ExternalSandbox _ => external_sandbox
  | ReadOnly _ => restricted [mkEntry (FsSpecial Root) Read]
  | WorkspaceWrite writable_roots _ exclude_tmpdir_env_var exclude_slash_tmp =>
      workspace_write writable_roots exclude_tmpdir_env_var exclude_slash_tmp
  end.

Definition append_cwd_subpaths (cwd : str) (entries : list FileSystemSandboxEntry) : list FileSystemSandboxEntry :=
  match abs_from H cwd with
  | Some cwd_root => append_default_subpaths true entries cwd_root
  | None => entries
  end.

Definition from_legacy_sandbox_policy_for_cwd (s : SandboxPolicy) (cwd : str) : FileSystemSandboxPolicy :=
  let file_system_policy := from_sandbox_policy s in
  match s with
  | WorkspaceWrite writable_roots _ _ _ =>
      with_entries file_system_policy
        (fold_left (append_default_subpaths false) writable_roots
           (append_cwd_subpaths cwd (policy_entries file_system_policy)))
  | _ => file_system_policy
  end.

Definition from_legacy_sandbox_policy_preserving_deny_entries (s : SandboxPolicy) (cwd : str)
    (existing : FileSystemSandboxPolicy) : FileSystemSandboxPolicy :=
  let rebuilt := from_legacy_sandbox_policy_for_cwd s cwd in
  if negb (is_restricted rebuilt) then rebuilt
  else mkFsPolicy (policy_kind rebuilt) (glob_scan_max_depth existing)
         (push_missing (policy_entries rebuilt) (List.filter is_deny (policy_entries existing))).

Definition legacy_runtime_file_system_policy_for_cwd (s : SandboxPolicy) (cwd : str) : FileSystemSandboxPolicy :=
  match s with
  | WorkspaceWrite writable_roots _ exclude_tmpdir_env_var exclude_slash_tmp =>
      let entries := workspace_write_grants writable_roots exclude_tmpdir_env_var exclude_slash_tmp in
      restricted (fold_left (append_default_subpaths false) writable_roots (append_cwd_subpaths cwd entries))
  | _ => from_sandbox_policy s
  end.

Definition is_write_entry_at (p : path) (entry : FileSystemSandboxEntry) : bool :=
  can_write (entry_access entry)
  && match entry_path entry with FsPath existing => bool_decide (existing = p) | _ => false end.

Definition with_additional_legacy_workspace_writable_roots (self : FileSystemSandboxPolicy) (roots : list path) :
  FileSystemSandboxPolicy :=
  if negb (is_restricted self) then self
  else fold_left (fun self p =>
         let self := if negb (existsb (is_write_entry_at p) (policy_entries self))
                     then push_entry self (mkEntry (FsPath p) Write) else self in
         with_entries self (append_default_subpaths false (policy_entries self) p)) roots self.

(** [SandboxPolicy::get_writable_roots_with_cwd] *)
Definition legacy_writable_roots_with_cwd (s : SandboxPolicy) (cwd : str) : list WritableRoot :=
  match s with
  | DangerFullAccess | ExternalSandbox _ | ReadOnly _ => []
  | WorkspaceWrite writable_roots _ exclude_tmpdir_env_var exclude_slash_tmp =>
      let cwd_root := abs_from H cwd in
      let roots :=
        writable_roots
        ++ match cwd_root with Some cwd => [cwd] | None => [] end
        ++ (if negb exclude_slash_tmp then
              match abs_from H (lit "/tmp") with
              | Some slash_tmp => if host_is_dir H slash_tmp then [slash_tmp] else []
              | None => []
              end
            else [])
        ++ (if negb exclude_tmpdir_env_var then
              match tmpdir_var H with
              | Some tmpdir =>
                  if negb (tmpdir =s? []) then
                    match abs_from H tmpdir with Some tmpdir_path => [tmpdir_path] | None => [] end
                  else []
              | None => []
              end
            else []) in
      map (fun writable_root =>
        let protect_missing_dot_codex := bool_decide (cwd_root = Some writable_root) in
        mkWritableRoot writable_root
          (default_read_only_subpaths_for_writable_root writable_root protect_missing_dot_codex) []) roots
  end.

(** ** Roots of a policy *)

Definition protected_metadata_names_for_writable_root (policy : FileSystemSandboxPolicy) (root : path)
    (raw_writable_roots : list path) (cwd : str) : list str :=
  List.filter (fun metadata_name =>
    forallb (fun metadata_path => negb (can_write_path_with_cwd H policy (display metadata_path) cwd))
      (abs_join H root metadata_name :: map (fun raw_root => abs_join H raw_root metadata_name) raw_writable_roots))
    PROTECTED_METADATA_PATH_NAMES.

Definition has_explicit_resolved_path_entry (entries : list ResolvedFileSystemEntry) (p : path) : bool :=
  existsb (fun entry => bool_decide (resolved_path entry = p)) entries.

Definition get_readable_roots_with_cwd (self : FileSystemSandboxPolicy) (cwd : str) : list path :=
  if has_full_disk_read_access self then []
  else
    dedup_absolute_paths
      (map resolved_path
         (List.filter (fun entry => can_read (resolved_access entry)
                                    && can_read_path_with_cwd H self (display (resolved_path entry)) cwd)
            (resolved_entries_with_cwd H self cwd))) true.

(** The carve-out an entry that cannot be written makes below [root]. *)
Definition raw_carveout (root : path) (raw_writable_roots : list path) (p : path) : option path :=
  match parent root with
  | None => None
  | Some _ =>
      if bool_decide (p = root) then None
      else if path_starts_with p root then Some p
      else head (omap (fun raw_root =>
                   match strip_path_prefix raw_root p with
                   | None | Some [] => None
                   | Some suffix => Some (abs_join H root (display suffix))
                   end) raw_writable_roots)
  end.
Definition carveout (root : path) (raw_writable_roots : list path) (p : path) : option path :=
  let effective_path := normalize_effective_absolute_path p in
  match raw_carveout root raw_writable_roots p with
  | Some raw_carveout_path => Some raw_carveout_path
  | None =>
      if bool_decide (effective_path = root) || negb (path_starts_with effective_path root) then None
      else Some effective_path
  end.

Definition writable_entries (self : FileSystemSandboxPolicy) (cwd : str) : list path :=
  map resolved_path
    (List.filter (fun entry => can_write (resolved_access entry)
                               && can_write_path_with_cwd H self (display (resolved_path entry)) cwd)
       (resolved_entries_with_cwd H self cwd)).

Definition writable_root_for (self : FileSystemSandboxPolicy) (cwd : str) (root : path) : WritableRoot :=
  let resolved_entries := resolved_entries_with_cwd H self cwd in
  let raw_writable_roots :=
    List.filter (fun p => bool_decide (normalize_effective_absolute_path p = root)) (writable_entries self cwd) in
  let protect_missing_dot_codex :=
    match abs_from H cwd with
    | Some cwd => bool_decide (normalize_effective_absolute_path cwd = root)
    | None => false
    end in
  let read_only_subpaths :=
    List.filter (fun p => negb (has_explicit_resolved_path_entry resolved_entries p))
      (default_read_only_subpaths_for_writable_root root protect_missing_dot_codex)
    ++ omap (fun entry => carveout root raw_writable_roots (resolved_path entry))
         (List.filter (fun entry => negb (can_write (resolved_access entry))
                          && negb (can_write_path_with_cwd H self (display (resolved_path entry)) cwd))
            resolved_entries) in
  mkWritableRoot root (dedup_absolute_paths read_only_subpaths false)
    (protected_metadata_names_for_writable_root self root raw_writable_roots cwd).

Definition get_writable_roots_with_cwd (self : FileSystemSandboxPolicy) (cwd : str) : list WritableRoot :=
  if has_full_disk_write_access self then []
  else map (writable_root_for self cwd) (dedup_absolute_paths (writable_entries self cwd) true).

Definition get_unreadable_roots_with_cwd (self : FileSystemSandboxPolicy) (cwd : str) : list path :=
  if negb (is_restricted self) then []
  else
    let root := match abs_from H cwd with Some cwd => absolute_root_path_for_cwd H cwd | None => None end in
    dedup_absolute_paths
      (map resolved_path
         (List.filter (fun entry =>
            bool_decide (resolved_access entry = Deny)
            && negb (can_read_path_with_cwd H self (display (resolved_path entry)) cwd)
            && negb (bool_decide (root = Some (resolved_path entry))))
            (resolved_entries_with_cwd H self cwd))) true.

(** [Vec::dedup] *)
Fixpoint vec_dedup (l : list str) : list str :=
  match l with
  | x :: (y :: _) as l' => if bool_decide (x = y) then vec_dedup l' else x :: vec_dedup l'
  | _ => l
  end.

Definition get_unreadable_globs_with_cwd (self : FileSystemSandboxPolicy) (cwd : str) : list str :=
  if negb (is_restricted self) then []
  else
    vec_dedup (sort_by str_leb
      (omap (fun entry =>
         match entry_path entry with
         | FsGlobPattern pattern => Some (display (resolve_path_against_base (home H) pattern (components cwd)))
         | FsPath _ | FsSpecial _ => None
         end) (List.filter is_deny (policy_entries self)))).

(** ** The matcher of denied reads

    Glob patterns are compiled by the [globset] crate. *)

Section matcher.
Context (build_glob_matcher : str -> result str (path -> bool)).

Inductive InvalidDenyReadGlobBehavior : Type := FailClosed | ReturnError.

Record ReadDenyMatcher : Type := mkMatcher {
  denied_candidates : list (list path);
  deny_read_matchers : list (path -> bool);
  invalid_pattern : bool
}.

Definition push_unique (candidates : list path) (candidate : path) : list path :=
  if existsb (fun existing => bool_decide (existing = candidate)) candidates then candidates
  else candidates ++ [candidate].

Definition normalized_and_canonical_candidates (p : str) : list path :=
  let candidates :=
    match abs_from H p with
    | Some normalized => push_unique [] normalized
    | None => push_unique [] (components p)
    end in
  match host_canonicalize H (components p) with
  | Some canonical =>
      match abs_from H (display canonical) with
      | Some canonical_absolute => push_unique candidates canonical_absolute
      | None => candidates
      end
  | None => candidates
  end.

Fixpoint build_loop (behavior : InvalidDenyReadGlobBehavior) (invalid : bool) (matchers : list (path -> bool))
    (patterns : list str) : result str (bool * list (path -> bool)) :=
  match patterns with
  | [] => Ok (invalid, matchers)
  | pattern :: patterns =>
      match build_glob_matcher pattern with
      | Ok matcher => build_loop behavior invalid (matchers ++ [matcher]) patterns
      | Err err =>
          match behavior with
          | FailClosed => build_loop behavior true matchers patterns
          | ReturnError =>
              Err (lit "invalid deny-read glob pattern `" ++ pattern ++ lit "`: " ++ err)
          end
      end
  end.

Definition matcher_build (policy : FileSystemSandboxPolicy) (cwd : str) (behavior : InvalidDenyReadGlobBehavior) :
  result str (option ReadDenyMatcher) :=
  if negb (has_denied_read_restrictions policy) then Ok None
  else
    let denied :=
      map (fun p => normalized_and_canonical_candidates (display p)) (get_unreadable_roots_with_cwd policy cwd) in
    match build_loop behavior false [] (get_unreadable_globs_with_cwd policy cwd) with
    | Ok (invalid, matchers) => Ok (Some (mkMatcher denied matchers invalid))
    | Err e => Err e
    end.

(** [ReadDenyMatcher::new]; [None] of the outer option is the [unreachable!]. *)
Definition matcher_new (policy : FileSystemSandboxPolicy) (cwd : str) : option (option ReadDenyMatcher) :=
  match matcher_build policy cwd FailClosed with Ok matcher => Some matcher | Err _ => None end.
Definition matcher_try_new (policy : FileSystemSandboxPolicy) (cwd : str) : result str (option ReadDenyMatcher) :=
  matcher_build policy cwd ReturnError.

Definition is_read_denied (m : ReadDenyMatcher) (p : str) : bool :=
  if invalid_pattern m then true
  else
    let path_candidates := normalized_and_canonical_candidates p in
    if existsb (fun denied => existsb (fun candidate => existsb (fun denied_candidate =>
         bool_decide (candidate = denied_candidate) || path_starts_with candidate denied_candidate)
         denied) path_candidates) (denied_candidates m)
    then true
    else existsb (fun matcher => existsb matcher path_candidates) (deny_read_matchers m).
End matcher.

(** ** Conversion to a legacy policy *)

Record LegacyScan : Type := mkScan {
  workspace_root_writable : bool;
  scan_writable_roots : list path;
  tmpdir_writable : bool;
  slash_tmp_writable : bool;
  unbridgeable_root_write : bool
}.
Definition scan_entry (cwd_absolute : option path) (s : LegacyScan) (entry : FileSystemSandboxEntry) : LegacyScan :=
  let '(mkScan ws roots tmp stmp ub) := s in
  let w := can_write (entry_access entry) in
  match entry_path entry with
  | FsGlobPattern _ => s
  | FsPath p =>
      if w then
        if bool_decide (cwd_absolute = Some p) then mkScan true roots tmp stmp ub
        else mkScan ws (roots ++ [p]) tmp stmp ub
      else s
  | FsSpecial value =>
      match value with
      | Root => match entry_access entry with Deny | Read => s | Write => mkScan ws roots tmp stmp true end
      | Minimal => s
      | ProjectRoots subpath =>
          if bool_decide (subpath = None) && w then mkScan true roots tmp stmp ub
          else match resolve_file_system_special_path H value cwd_absolute with
               | Some p => if w then mkScan ws (roots ++ [p]) tmp stmp ub else s
               | None => s
               end
      | Tmpdir => if w then mkScan ws roots true stmp ub else s
      | SlashTmp => if w then mkScan ws roots tmp true ub else s
      | UnknownSpecial _ _ => s
      end
  end.

Definition LEGACY_BRIDGE_ERROR : str :=
  lit "permissions profile requests filesystem writes outside the workspace root, which is not supported until the runtime enforces FileSystemSandboxPolicy directly".

Definition to_legacy_sandbox_policy (self : FileSystemSandboxPolicy) (network_policy : NetworkSandboxPolicy)
    (cwd : str) : result str SandboxPolicy :=
  let net := net_is_enabled network_policy in
  match policy_kind self with
  | ExternalSandboxKind => Ok (ExternalSandbox (if net then NetworkAccessEnabled else NetworkAccessRestricted))
  | Unrestricted => Ok (if net then DangerFullAccess else ExternalSandbox NetworkAccessRestricted)
  | Restricted =>
      let cwd_absolute := abs_from H cwd in
      let s := fold_left (scan_entry cwd_absolute) (policy_entries self) (mkScan false [] false false false) in
      if has_full_disk_write_access self
      then Ok (if net then DangerFullAccess else ExternalSandbox NetworkAccessRestricted)
      else if workspace_root_writable s
      then Ok (WorkspaceWrite (dedup_absolute_paths (scan_writable_roots s) false) net
                 (negb (tmpdir_writable s)) (negb (slash_tmp_writable s)))
      else if unbridgeable_root_write s || negb (bool_decide (scan_writable_roots s = []))
              || tmpdir_writable s || slash_tmp_writable s
      then Err LEGACY_BRIDGE_ERROR
      else Ok (ReadOnly net)
  end.

(** ** Semantic comparison *)

Record FileSystemSemanticSignature : Type := mkSignature {
  sig_full_disk_read : bool;
  sig_full_disk_write : bool;
  sig_platform_defaults : bool;
  sig_readable_roots : list path;
  sig_writable_roots : list WritableRoot;
  sig_unreadable_roots : list path;
  sig_unreadable_globs : list str
}.
#[export] Instance FileSystemSemanticSignature_eq_dec : EqDecision FileSystemSemanticSignature.
Proof. solve_decision. Defined.

Definition sorted_absolute_paths (paths : list path) : list path := sort_by path_leb paths.
Definition sorted_writable_roots (roots : list WritableRoot) : list WritableRoot :=
  sort_by (fun l r => path_leb (wr_root l) (wr_root r))
    (map (fun r => mkWritableRoot (wr_root r) (sorted_absolute_paths (read_only_subpaths r))
                     (vec_dedup (sort_by str_leb (protected_metadata_names r)))) roots).

Definition semantic_signature (self : FileSystemSandboxPolicy) (cwd : str) : FileSystemSemanticSignature :=
  mkSignature (has_full_disk_read_access self) (has_full_disk_write_access self) (include_platform_defaults self)
    (sorted_absolute_paths (get_readable_roots_with_cwd self cwd))
    (sorted_writable_roots (get_writable_roots_with_cwd self cwd))
    (sorted_absolute_paths (get_unreadable_roots_with_cwd self cwd))
    (get_unreadable_globs_with_cwd self cwd).
Definition is_semantically_equivalent_to (self other : FileSystemSandboxPolicy) (cwd : str) : bool :=
  bool_decide (semantic_signature self cwd = semantic_signature other cwd).

Definition protected_metadata_names_need_direct_runtime_enforcement (policy : FileSystemSandboxPolicy)
    (legacy_policy : SandboxPolicy) (cwd : str) : bool :=
  let legacy_roots := legacy_writable_roots_with_cwd legacy_policy cwd in
  existsb (fun writable_root =>
    match List.find (fun candidate => bool_decide (wr_root candidate = wr_root writable_root)) legacy_roots with
    | None => negb (bool_decide (protected_metadata_names writable_root = []))
    | Some legacy_root =>
        existsb (fun metadata_name =>
          let metadata_path := abs_join H (wr_root writable_root) metadata_name in
          negb (existsb (fun subpath => bool_decide (subpath = metadata_path)) (read_only_subpaths legacy_root)))
          (protected_metadata_names writable_root)
    end) (get_writable_roots_with_cwd policy cwd).

Definition needs_direct_runtime_enforcement (self : FileSystemSandboxPolicy)
    (network_policy : NetworkSandboxPolicy) (cwd : str) : bool :=
  if negb (is_restricted self) then false
  else match to_legacy_sandbox_policy self network_policy cwd with
       | Err _ => true
       | Ok legacy_policy =>
           if protected_metadata_names_need_direct_runtime_enforcement self legacy_policy cwd then true
           else negb (bool_decide (semantic_signature self cwd
                 = semantic_signature (legacy_runtime_file_system_policy_for_cwd legacy_policy cwd) cwd))
       end.

(** ** Permission profiles: [protocol/src/models.rs] *)

Inductive SandboxEnforcement : Type := EnforceManaged | EnforceDisabled | EnforceExternal.
#[export] Instance SandboxEnforcement_eq_dec : EqDecision SandboxEnforcement.
Proof. solve_decision. Defined.
Definition enforcement_from_legacy_sandbox_policy (s : SandboxPolicy) : SandboxEnforcement :=
  match s with
  | DangerFullAccess => EnforceDisabled
  | ExternalSandbox _ => EnforceExternal
  | ReadOnly _ | WorkspaceWrite _ _ _ _ => EnforceManaged
  end.

Inductive ManagedFileSystemPermissions : Type :=
| ManagedRestricted (entries : list FileSystemSandboxEntry) (scan_depth : option N)
| ManagedUnrestricted.

(** [NonZeroUsize::new] *)
Definition non_zero (n : N) : option N := if (n =? 0)%N then None else Some n.

(** [None] is the [unreachable!] on an external policy. *)
Definition managed_from_sandbox_policy (p : FileSystemSandboxPolicy) : option ManagedFileSystemPermissions :=
  match policy_kind p with
  | Restricted => Some (ManagedRestricted (policy_entries p) (glob_scan_max_depth p ≫= non_zero))
  | Unrestricted => Some ManagedUnrestricted
  | ExternalSandboxKind => None
  end.
Definition to_sandbox_policy (m : ManagedFileSystemPermissions) : FileSystemSandboxPolicy :=
  match m with
  | ManagedRestricted entries scan_depth => mkFsPolicy Restricted scan_depth entries
  | ManagedUnrestricted => unrestricted
  end.

Inductive PermissionProfile : Type :=
| ProfileManaged (file_system : ManagedFileSystemPermissions) (network : NetworkSandboxPolicy)
| ProfileDisabled
| ProfileExternal (network : NetworkSandboxPolicy).

Definition default_profile : PermissionProfile := ProfileManaged (ManagedRestricted [] None) NetRestricted.

Definition managed_profile (p : FileSystemSandboxPolicy) (network : NetworkSandboxPolicy) : option PermissionProfile :=
  match managed_from_sandbox_policy p with
  | Some file_system => Some (ProfileManaged file_system network)
  | None => None
  end.
Definition profile_read_only : option PermissionProfile := managed_profile read_only NetRestricted.
Definition profile_workspace_write_with (writable_roots : list path) (network : NetworkSandboxPolicy)
    (exclude_tmpdir_env_var exclude_slash_tmp : bool) : option PermissionProfile :=
  managed_profile (workspace_write writable_roots exclude_tmpdir_env_var exclude_slash_tmp) network.
Definition profile_workspace_write : option PermissionProfile :=
  profile_workspace_write_with [] NetRestricted false false.

Definition profile_materialize (self : PermissionProfile) (workspace_roots : list path) : option PermissionProfile :=
  match self with
  | ProfileManaged file_system network =>
      managed_profile (materialize_project_roots_with_workspace_roots H (to_sandbox_policy file_system) workspace_roots)
        network
  | ProfileDisabled => Some ProfileDisabled
  | ProfileExternal network => Some (ProfileExternal network)
  end.

Definition from_runtime_permissions_with_enforcement (enforcement : SandboxEnforcement)
    (p : FileSystemSandboxPolicy) (network : NetworkSandboxPolicy) : option PermissionProfile :=
  match policy_kind p with
  | ExternalSandboxKind => Some (ProfileExternal network)
  | Unrestricted =>
      if bool_decide (enforcement = EnforceDisabled) then Some ProfileDisabled else managed_profile p network
  | Restricted => managed_profile p network
  end.
Definition from_runtime_permissions (p : FileSystemSandboxPolicy) (network : NetworkSandboxPolicy) :
  option PermissionProfile :=
  from_runtime_permissions_with_enforcement
    (match policy_kind p with Restricted | Unrestricted => EnforceManaged | ExternalSandboxKind => EnforceExternal end)
    p network.
Definition profile_from_legacy_sandbox_policy (s : SandboxPolicy) : option PermissionProfile :=
  from_runtime_permissions_with_enforcement (enforcement_from_legacy_sandbox_policy s)
    (from_sandbox_policy s) (network_from_sandbox_policy s).
Definition profile_from_legacy_sandbox_policy_for_cwd (s : SandboxPolicy) (cwd : str) : option PermissionProfile :=
  from_runtime_permissions_with_enforcement (enforcement_from_legacy_sandbox_policy s)
    (from_legacy_sandbox_policy_for_cwd s cwd) (network_from_sandbox_policy s).

Definition enforcement (p : PermissionProfile) : SandboxEnforcement :=
  match p with
  | ProfileManaged _ _ => EnforceManaged
  | ProfileDisabled => EnforceDisabled
  | ProfileExternal _ => EnforceExternal
  end.
Definition file_system_sandbox_policy (p : PermissionProfile) : FileSystemSandboxPolicy :=
  match p with
  | ProfileManaged file_system _ => to_sandbox_policy file_system
  | ProfileDisabled => unrestricted
  | ProfileExternal _ => external_sandbox
  end.
Definition network_sandbox_policy (p : PermissionProfile) : NetworkSandboxPolicy :=
  match p with
  | ProfileManaged _ network | ProfileExternal network => network
  | ProfileDisabled => NetEnabled
  end.
Definition profile_to_legacy_sandbox_policy (p : PermissionProfile) (cwd : str) : result str SandboxPolicy :=
  match p with
  | ProfileManaged file_system network => to_legacy_sandbox_policy (to_sandbox_policy file_system) network cwd
  | ProfileDisabled => Ok DangerFullAccess
  | ProfileExternal network =>
      Ok (ExternalSandbox (if net_is_enabled network then NetworkAccessEnabled else NetworkAccessRestricted))
  end.
Definition to_runtime_permissions (p : PermissionProfile) : FileSystemSandboxPolicy * NetworkSandboxPolicy :=
  (file_system_sandbox_policy p, network_sandbox_policy p).
End host.

(** ** Deduplication and effective paths *)

Lemma dedup_loop_elem H eff seen paths p :
  p ∈ dedup_loop H eff seen paths <->
  p ∉ seen /\ p ∈ map (fun q => if eff : bool then normalize_effective_absolute_path H q else q) paths.
Proof.
  revert seen. induction paths as [|q paths IH]; intros seen; cbn [dedup_loop map]; [set_solver|].
  set (d := if eff then normalize_effective_absolute_path H q else q).
  destruct (bool_decide_reflect (d ∈ seen)) as [Hd|Hd].
  - rewrite IH, elem_of_cons. split; [naive_solver|]. intros [Hn [->|Hp]]; [done|naive_solver].
  - rewrite elem_of_cons, IH, !elem_of_cons. destruct (decide (p = d)) as [->|Hne]; [naive_solver|].
    naive_solver.
Qed.

Lemma dedup_elem H eff paths p :
  p ∈ dedup_absolute_paths H paths eff <->
  p ∈ map (fun q => if eff : bool then normalize_effective_absolute_path H q else q) paths.
Proof. unfold dedup_absolute_paths. rewrite dedup_loop_elem. set_solver. Qed.

Lemma dedup_loop_id H seen paths :
  NoDup paths -> (forall p, p ∈ paths -> p ∉ seen) -> dedup_loop H false seen paths = paths.
Proof.
  intros Hn. revert seen. induction Hn as [|p paths Hp Hn IH]; intros seen Hs; [done|]. cbn [dedup_loop].
  rewrite bool_decide_eq_false_2 by (apply Hs; set_solver). f_equal. apply IH. intros q Hq.
  rewrite elem_of_cons. intros [->|Hq']; [done|]. by apply (Hs q); [set_solver|].
Qed.

(** A host whose paths are all canonical: no symbolic link changes a path. *)
Definition no_symlinks (H : Host) : Prop :=
  forall p, host_canonicalize H p = None \/ host_canonicalize H p = Some p.

Lemma parent_absolute p q : absolute_normalized p -> parent p = Some q ->
  absolute_normalized q /\ exists c, p = q ++ [c].
Proof.
  intros (names & -> & Hn) Hq. destruct names as [|n names _] using rev_ind; [done|].
  rewrite map_app, app_comm_cons in *. cbn [map] in *. rewrite parent_snoc in Hq. simplify_eq.
  split; [|by eexists]. exists names. apply Forall_app in Hn as [Hn _]. done.
Qed.

Lemma ancestors_fuel_prefix n p a :
  absolute_normalized p -> a ∈ ancestors_fuel n p -> absolute_normalized a /\ exists s, p = a ++ s.
Proof.
  revert p. induction n as [|n IH]; intros p Hp; cbn [ancestors_fuel]; rewrite elem_of_cons.
  - intros [->|Ha]; [split; [done|by exists []; rewrite app_nil_r]|set_solver].
  - intros [->|Ha]; [split; [done|by exists []; rewrite app_nil_r]|].
    destruct (parent p) as [q|] eqn:Hq; [|set_solver].
    destruct (parent_absolute p q Hp Hq) as [Hqn [c ->]].
    apply IH in Ha as [Han [s ->]]; [|done]. split; [done|]. exists (s ++ [c]). by rewrite app_assoc.
Qed.

Lemma filter_normal (names : list str) : filter (fun c => c <> CurDir) (map Normal names) = map Normal names.
Proof. induction names as [|n names IH]; [done|]. cbn [map]. rewrite filter_cons_True by done. by rewrite IH. Qed.

Lemma path_join_suffix (a s : path) : absolute_normalized (a ++ s) -> a <> [] -> path_join a s = a ++ s.
Proof.
  intros (names & Heq & _) Ha. destruct a as [|c a]; [done|]. injection Heq as -> Heq.
  assert (exists ns, s = map Normal ns) as [ns ->].
  { exists (drop (length a) names). apply (f_equal (drop (length a))) in Heq.
    rewrite drop_app_length in Heq. by rewrite skipn_map in Heq. }
  unfold path_join. rewrite filter_normal. by destruct ns.
Qed.

Section effective.
Context (H : Host) (Hno : no_symlinks H).

Lemma canonicalize_preserving_id a :
  absolute_normalized a -> canonicalize_preserving_symlinks H a = Some a.
Proof.
  intros Ha. unfold canonicalize_preserving_symlinks. rewrite abs_from_display by done.
  destruct (Hno a) as [->| ->]; [done|]. by destruct (should_preserve_logical_path H a && _).
Qed.

Lemma normalize_effective_id p : absolute_normalized p -> normalize_effective_absolute_path H p = p.
Proof.
  intros Hp. unfold normalize_effective_absolute_path.
  assert (Forall (fun q => q = p) (omap (normalize_candidate H p) (path_ancestors p))) as Hall.
  { apply Forall_forall. intros q (a & Ha & Hq)%list_elem_of_omap.
    apply ancestors_fuel_prefix in Ha as [Han [s ->]]; [|done]. unfold normalize_candidate in Hq.
    destruct (symlink_metadata H a); [|done].
    rewrite (canonicalize_preserving_id a Han) in Hq.
    rewrite (proj2 (strip_path_prefix_Some a (a ++ s) s)) in Hq by done.
    rewrite path_join_suffix, abs_from_display in Hq by (done || by destruct Han as (? & -> & _)).
    by simplify_eq. }
  destruct (omap _ _) as [|q l]; [done|]. by inversion Hall; subst.
Qed.
End effective.

(** ** Writable roots *)

Section writable_roots.
Context (H : Host) (Hok : host_ok H) (Hno : no_symlinks H).

Lemma resolve_access_display pol p cwd :
  policy_kind pol = Restricted -> absolute_normalized p ->
  resolve_access_with_cwd H pol (display p) cwd = decide_access p (resolved_entries_with_cwd H pol cwd).
Proof. intros Hk Hp. apply resolve_access_decide; [done|]. by apply resolve_candidate_display. Qed.

Lemma can_write_resolve pol p cwd :
  can_write_path_with_cwd H pol p cwd = true -> resolve_access_with_cwd H pol p cwd = Write.
Proof. unfold can_write_path_with_cwd. destruct (resolve_access_with_cwd H pol p cwd); naive_solver. Qed.

(** The entry that decides a path decides its own place in the same way. *)
Lemma deciding_entry_at t es e :
  e ∈ es -> path_starts_with t (resolved_path e) = true ->
  (forall f, f ∈ es -> path_starts_with t (resolved_path f) = true ->
     (length (resolved_path f) < length (resolved_path e))%nat
     \/ (resolved_path f = resolved_path e /\ (access_rank (resolved_access f) <= access_rank (resolved_access e))%nat)) ->
  decide_access (resolved_path e) es = resolved_access e.
Proof.
  intros He Hp Hmax. apply decides_at; [done..|]. intros f Hf Heq.
  destruct (Hmax f Hf) as [Hl|[_ Hr]]; [by rewrite Heq|rewrite Heq in Hl; lia|done].
Qed.

Lemma writable_entries_elem pol cwd q :
  q ∈ writable_entries H pol cwd <->
  exists e, e ∈ resolved_entries_with_cwd H pol cwd /\ resolved_path e = q /\ resolved_access e = Write
    /\ can_write_path_with_cwd H pol (display q) cwd = true.
Proof.
  unfold writable_entries. rewrite list_elem_of_In, in_map_iff. split.
  - intros (e & <- & [He Hw]%filter_In). bool_to_prop. exists e. rewrite list_elem_of_In.
    split_and!; [done..|by destruct (resolved_access e)|done].
  - intros (e & He & <- & Ha & Hw). exists e. split; [done|]. apply filter_In.
    rewrite <- list_elem_of_In, Ha, Hw. done.
Qed.

(** A carve-out that is itself below the root is kept. *)
Lemma carveout_below root raw p :
  absolute_normalized p -> p <> root -> path_starts_with p root = true -> carveout H root raw p = Some p.
Proof.
  intros Hp Hne Hpre. unfold carveout, raw_carveout. rewrite (normalize_effective_id H Hno p Hp), Hpre.
  rewrite bool_decide_eq_false_2 by done. by destruct (parent root).
Qed.
(** Below a writable root the policy grants writing, except below the subpaths
    kept read-only inside that root. *)
Lemma unmasked_root_grants pol cwd w p :
  policy_ok pol -> policy_kind pol = Restricted -> absolute_normalized p ->
  w ∈ get_writable_roots_with_cwd H pol cwd -> path_starts_with p (wr_root w) = true ->
  (forall s, s ∈ read_only_subpaths w -> path_starts_with s (wr_root w) = true -> path_starts_with p s = true -> False) ->
  resolve_access_with_cwd H pol (display p) cwd = Write.
Proof.
  intros Hpok Hk Hp Hw Hpre Hro. unfold get_writable_roots_with_cwd in Hw.
  destruct (has_full_disk_write_access pol); [set_solver|].
  apply list_elem_of_In, in_map_iff in Hw as (root & <- & Hroot). apply list_elem_of_In, dedup_elem in Hroot.
  apply list_elem_of_In, in_map_iff in Hroot as (q & Hq & Hqin). apply list_elem_of_In in Hqin.
  apply writable_entries_elem in Hqin as (er & Her & Hrp & Hra & Hcw).
  assert (absolute_normalized q) as Hqn by (rewrite <- Hrp; by eapply resolved_ok).
  rewrite (normalize_effective_id H Hno q Hqn) in Hq. subst q root.
  apply can_write_resolve in Hcw. rewrite resolve_access_display in Hcw by done.
  rewrite resolve_access_display by done. cbn [writable_root_for wr_root read_only_subpaths] in Hpre, Hro.
  destruct (decide_access_decides p (resolved_entries_with_cwd H pol cwd)) as [[Hn _]|(e & He & Hpe & Ha & Hmax)];
    [by destruct (Hn er)|]. rewrite <- Ha in *.
  destruct (decide (resolved_access e = Write)) as [|Hne]; [done|exfalso].
  assert (absolute_normalized (resolved_path e)) as Hen by by eapply resolved_ok.
  pose proof (deciding_entry_at p _ e He Hpe Hmax) as Hde.
  assert (resolved_path e <> resolved_path er) as Hdiff by congruence.
  assert (path_starts_with (resolved_path e) (resolved_path er) = true) as Hbelow.
  { destruct (Hmax er Her Hpre) as [Hl|[Heq _]]; [|congruence].
    by apply (prefixes_comparable p); [..|lia]. }
  assert (negb (can_write_path_with_cwd H pol (display (resolved_path e)) cwd) = true) as Hncw.
  { apply negb_true_iff, not_true_iff_false. intros Hcw'%can_write_resolve.
    rewrite resolve_access_display in Hcw' by done. congruence. }
  apply (Hro (resolved_path e)); [|done..]. apply dedup_elem. rewrite map_id, elem_of_app. right.
  apply list_elem_of_omap. exists e. split; [|by apply carveout_below].
  apply elem_of_filter_bool. rewrite Hncw, andb_true_r. split; [done|]. by destruct (resolved_access e).
Qed.
End writable_roots.

(** C19. What the sandbox is told it may write, the policy grants: on a host
    without symbolic links, a path that a writable root of the policy admits has
    write access under the policy. *)
Theorem writable_roots_sound (H : Host) (pol : FileSystemSandboxPolicy) (cwd : str) (w : WritableRoot) (p : path) :
  host_ok H -> no_symlinks H -> policy_ok pol -> policy_kind pol = Restricted -> absolute_normalized p ->
  w ∈ get_writable_roots_with_cwd H pol cwd -> is_path_writable w p = true ->
  resolve_access_with_cwd H pol (display p) cwd = Write.
Proof.
  intros Hok Hno Hpok Hk Hp Hw Hpw. unfold is_path_writable in Hpw.
  destruct (path_starts_with p (wr_root w)) eqn:Hpre; [cbn [negb] in Hpw|done].
  destruct (existsb _ _) eqn:Hex; [done|]. eapply (unmasked_root_grants H Hok Hno); [done..|].
  intros s Hs _ Hps. pose proof (existsb_false _ _ s Hex Hs). congruence.
Qed.

Definition carved_policy : FileSystemSandboxPolicy :=
  restricted [mkEntry (FsSpecial Root) Read; mkEntry (FsPath dir_a) Write;
              mkEntry (FsPath (components (lit "/a/docs"))) Read].
Definition carved_root : WritableRoot :=
  mkWritableRoot dir_a [components (lit "/a/docs")] PROTECTED_METADATA_PATH_NAMES.

Lemma writable_roots_sound_witness :
  resolve_access_with_cwd empty_host carved_policy (display (components (lit "/a/src/x"))) (lit "/") = Write.
Proof.
  apply (writable_roots_sound empty_host carved_policy (lit "/") carved_root);
    [apply empty_host_ok|intros p; by left| |done|by apply absolute_normalizedb_true| |by vm_compute].
  - repeat constructor; by apply absolute_normalizedb_true.
  - apply (bool_decide_unpack _). by vm_compute.
Defined.

(** ** Legacy policies *)

(** Entries that grant nothing to write and are not the entry of [/]. *)
Definition harmless (e : FileSystemSandboxEntry) : Prop :=
  entry_access e = Read /\ entry_path e <> FsSpecial Root.

Section legacy.
Context (H : Host).

Lemma append_read_only_extends es p :
  p <> FsSpecial Root ->
  exists extra, append_default_read_only_entry_if_no_explicit_rule es p = es ++ extra /\ Forall harmless extra.
Proof.
  intros Hp. unfold append_default_read_only_entry_if_no_explicit_rule. case_goal.
  - exists []. by rewrite app_nil_r.
  - exists [mkEntry p Read]. split; [done|]. by repeat constructor.
Qed.

(** Folding a step that extends the entries harmlessly extends them harmlessly. *)
Lemma fold_extends {A} (f : list FileSystemSandboxEntry -> A -> list FileSystemSandboxEntry) (l : list A) es :
  (forall es x, exists extra, f es x = es ++ extra /\ Forall harmless extra) ->
  exists extra, fold_left f l es = es ++ extra /\ Forall harmless extra.
Proof.
  intros Hf. revert es. induction l as [|x l IH]; intros es; cbn [fold_left].
  - exists []. by rewrite app_nil_r.
  - destruct (Hf es x) as (e1 & -> & H1). destruct (IH (es ++ e1)) as (e2 & -> & H2).
    exists (e1 ++ e2). split; [by rewrite app_assoc|by apply Forall_app].
Qed.

Lemma append_default_subpaths_extends b es root :
  exists extra, append_default_subpaths H b es root = es ++ extra /\ Forall harmless extra.
Proof. apply fold_extends. intros es' p. by apply append_read_only_extends. Qed.

Lemma workspace_write_entries roots ext exs :
  exists extra,
    policy_entries (workspace_write H roots ext exs)
    = workspace_write_grants roots ext exs
      ++ [mkEntry (FsSpecial (ProjectRoots (Some (lit ".git")))) Read;
          mkEntry (FsSpecial (ProjectRoots (Some (lit ".agents")))) Read;
          mkEntry (FsSpecial (ProjectRoots (Some (lit ".codex")))) Read] ++ extra
    /\ Forall harmless extra.
Proof.
  assert (forall sub (es : list FileSystemSandboxEntry),
    Forall (fun e => file_system_paths_share_target (entry_path e) (FsSpecial (ProjectRoots (Some sub))) = false) es ->
    append_default_read_only_project_root_subpath_if_no_explicit_rule es sub
    = es ++ [mkEntry (FsSpecial (ProjectRoots (Some sub))) Read]) as Happ.
  { intros sub es Hes. unfold append_default_read_only_project_root_subpath_if_no_explicit_rule,
      append_default_read_only_entry_if_no_explicit_rule.
    assert (existsb (fun e => file_system_paths_share_target (entry_path e) (FsSpecial (ProjectRoots (Some sub)))) es
            = false) as ->; [|done].
    apply not_true_iff_false. intros (e & He & Ht)%existsb_exists. rewrite Forall_forall in Hes.
    rewrite Hes in Ht; [done|]. by apply list_elem_of_In. }
  assert (forall sub, Forall (fun e =>
    file_system_paths_share_target (entry_path e) (FsSpecial (ProjectRoots (Some sub))) = false)
    (workspace_write_grants roots ext exs)) as Hg.
  { intros sub. unfold workspace_write_grants. repeat (apply Forall_app; split).
    - by repeat constructor.
    - destruct exs; by repeat constructor.
    - destruct ext; by repeat constructor.
    - apply Forall_forall. intros e He. apply list_elem_of_In, in_map_iff in He as (p & <- & _). done. }
  unfold workspace_write. rewrite (Happ (lit ".git")) by done.
  rewrite (Happ (lit ".agents")) by (apply Forall_app; split; [done|by repeat constructor]).
  rewrite (Happ (lit ".codex")) by (rewrite <- app_assoc; apply Forall_app; split; [done|by repeat constructor]).
  cbn [policy_entries restricted].
  destruct (fold_extends (append_default_subpaths H false) roots
    (((workspace_write_grants roots ext exs ++ [mkEntry (FsSpecial (ProjectRoots (Some (lit ".git")))) Read])
      ++ [mkEntry (FsSpecial (ProjectRoots (Some (lit ".agents")))) Read])
      ++ [mkEntry (FsSpecial (ProjectRoots (Some (lit ".codex")))) Read])) as (extra & -> & Hx).
  { apply append_default_subpaths_extends. }
  exists extra. split; [|done]. by rewrite <- !app_assoc.
Qed.

Lemma scan_harmless c s es : Forall (fun e => entry_access e = Read) es -> fold_left (scan_entry H c) es s = s.
Proof.
  intros Hes. revert s. induction Hes as [|e es He _ IH]; intros s; [done|]. cbn [fold_left].
  replace (scan_entry H c s e) with s; [apply IH|]. destruct s as [ws roots tmp stmp ub]. unfold scan_entry.
  rewrite He. cbn [can_write].
  destruct (entry_path e) as [| |[| |sub| | |]]; try done. rewrite andb_false_r.
  by destruct (resolve_file_system_special_path H (ProjectRoots sub) c).
Qed.

Lemma scan_roots c ws roots0 tmp stmp ub roots :
  (forall p, p ∈ roots -> c <> Some p) ->
  fold_left (scan_entry H c) (map (fun p => mkEntry (FsPath p) Write) roots) (mkScan ws roots0 tmp stmp ub)
  = mkScan ws (roots0 ++ roots) tmp stmp ub.
Proof.
  revert roots0. induction roots as [|p roots IH]; intros roots0 Hc; cbn; [by rewrite app_nil_r|].
  rewrite bool_decide_eq_false_2 by (apply Hc; set_solver).
  rewrite IH by (intros q Hq; apply Hc; set_solver). by rewrite <- app_assoc.
Qed.

Lemma scan_grants c roots ext exs :
  (forall p, p ∈ roots -> c <> Some p) ->
  fold_left (scan_entry H c) (workspace_write_grants roots ext exs) (mkScan false [] false false false)
  = mkScan true roots (negb ext) (negb exs) false.
Proof.
  intros Hc. unfold workspace_write_grants. rewrite !fold_left_app. cbn.
  destruct ext, exs; cbn; by rewrite scan_roots.
Qed.

Lemma workspace_write_not_full roots ext exs : has_full_disk_write_access (workspace_write H roots ext exs) = false.
Proof.
  unfold has_full_disk_write_access. cbn [policy_kind workspace_write restricted]. apply andb_false_iff. left.
  apply not_true_iff_false. intros (_ & r & Hr & Hp & Hw)%has_root_access_entry.
  destruct (workspace_write_entries roots ext exs) as (extra & He & Hx). rewrite He in Hr.
  rewrite Forall_forall in Hx. rewrite elem_of_app in Hr. destruct Hr as [Hr|Hr].
  - unfold workspace_write_grants in Hr. rewrite !elem_of_app in Hr. destruct Hr as [Hr|[Hr|[Hr|Hr]]].
    + rewrite !elem_of_cons, elem_of_nil in Hr. naive_solver.
    + destruct exs; cbn in Hr; set_solver.
    + destruct ext; cbn in Hr; set_solver.
    + apply list_elem_of_In, in_map_iff in Hr as (p & <- & _). done.
  - rewrite elem_of_app, !elem_of_cons, elem_of_nil in Hr. destruct Hr as [[->|[->|[->|[]]]]|Hr]; try done.
    by apply Hx in Hr as [_ ?].
Qed.
End legacy.

(** Legacy policies round trip: converting a legacy policy to entries and
    back gives the policy again, when its writable roots are distinct and do not
    repeat the current directory. *)
Theorem legacy_policy_roundtrip (H : Host) (s : SandboxPolicy) (cwd : str) :
  match s with
  | WorkspaceWrite roots _ _ _ => NoDup roots /\ forall p, p ∈ roots -> abs_from H cwd <> Some p
  | _ => True
  end ->
  to_legacy_sandbox_policy H (from_sandbox_policy H s) (network_from_sandbox_policy s) cwd = Ok s.
Proof.
  destruct s as [|net|net|roots net ext exs]; cbn [from_sandbox_policy]; intros Hs.
  - done.
  - by destruct net.
  - by destruct net.
  - destruct Hs as [Hd Hc]. unfold to_legacy_sandbox_policy.
    change (policy_kind (workspace_write H roots ext exs)) with Restricted. cbv iota.
    rewrite workspace_write_not_full. destruct (workspace_write_entries H roots ext exs) as (extra & -> & Hx).
    rewrite !fold_left_app, scan_grants by done.
    rewrite (scan_harmless H _ _ [_; _; _]) by by repeat constructor.
    rewrite scan_harmless by (eapply Forall_impl; [exact Hx|by intros ? [? ?]]).
    cbn. unfold dedup_absolute_paths. rewrite dedup_loop_id by set_solver. rewrite !negb_involutive.
    by destruct net.
Qed.

Lemma legacy_policy_roundtrip_witness :
  to_legacy_sandbox_policy empty_host
    (from_sandbox_policy empty_host (WorkspaceWrite [dir_a] true false true)) NetEnabled (lit "/w")
  = Ok (WorkspaceWrite [dir_a] true false true).
Proof.
  apply (legacy_policy_roundtrip empty_host (WorkspaceWrite [dir_a] true false true)).
  split; [apply NoDup_singleton|]. intros p ->%list_elem_of_singleton. by vm_compute.
Defined.

(** The workspace-write policy keeps the metadata of the workspace read-only:
    a path below the [.git], [.agents] or [.codex] of the current directory cannot
    be written unless a writable place of the policy lies inside that directory. *)
Theorem workspace_write_protects_metadata (H : Host) (roots : list path) (ext exs : bool) (cwd : str)
    (c t : path) (m : str) :
  host_ok H -> abs_from H cwd = Some c ->
  m ∈ PROTECTED_METADATA_PATH_NAMES -> absolute_normalized t ->
  path_starts_with t (c ++ [Normal m]) = true ->
  (forall e, e ∈ resolved_entries_with_cwd H (workspace_write H roots ext exs) cwd ->
     resolved_access e = Write -> path_starts_with (resolved_path e) (c ++ [Normal m]) = false) ->
  can_write_path_with_cwd H (workspace_write H roots ext exs) (display t) cwd = false.
Proof.
  intros Hok Hc Hm Ht Hpre Hw. apply not_true_iff_false. intros Hcw%can_write_resolve.
  rewrite resolve_access_display in Hcw by done. apply decide_access_iff in Hcw.
  pose proof (metadata_name_ok m Hm) as [Hm1 Hm2].
  assert (absolute_normalized c) as Hcn by by eapply abs_from_ok.
  assert (mkResolved (c ++ [Normal m]) Read ∈ resolved_entries_with_cwd H (workspace_write H roots ext exs) cwd) as Hin.
  { apply elem_of_resolved. exists (mkEntry (FsSpecial (ProjectRoots (Some m))) Read). split_and!; [| |done].
    - destruct (workspace_write_entries H roots ext exs) as (extra & -> & _).
      rewrite !elem_of_app, !elem_of_cons. unfold PROTECTED_METADATA_PATH_NAMES in Hm.
      rewrite !elem_of_cons, elem_of_nil in Hm. naive_solver.
    - rewrite Hc. cbn. f_equal. by apply (abs_join_name H). }
  destruct Hcw as [[_ ?]|(e & He & Hpe & Ha & Hmax)]; [done|].
  specialize (Hw e He Ha). destruct (Hmax _ Hin Hpre) as [Hl|[Heq _]]; cbn [resolved_path] in *.
  - rewrite (prefixes_comparable t _ _ Hpre Hpe) in Hw by lia. done.
  - by rewrite <- Heq, path_starts_with_refl in Hw.
Qed.

Lemma workspace_write_protects_metadata_witness :
  can_write_path_with_cwd empty_host (workspace_write empty_host [dir_a] true true)
    (display (components (lit "/w/.git/hooks/pre-commit"))) (lit "/w") = false.
Proof.
  apply (workspace_write_protects_metadata empty_host [dir_a] true true (lit "/w") (components (lit "/w"))
           _ (lit ".git")).
  - apply empty_host_ok.
  - reflexivity.
  - apply (bool_decide_unpack _). reflexivity.
  - by apply absolute_normalizedb_true.
  - reflexivity.
  - intros e He Ha.
    assert (Forall (fun e => resolved_access e = Write ->
       path_starts_with (resolved_path e) (components (lit "/w/.git")) = false)
      (resolved_entries_with_cwd empty_host (workspace_write empty_host [dir_a] true true) (lit "/w"))) as HF.
    { apply (bool_decide_unpack _). by vm_compute. }
    rewrite Forall_forall in HF. by apply HF.
Defined.

(** ** The matcher of denied reads *)

Lemma build_loop_fail_closed build invalid ms patterns :
  exists invalid' ms', build_loop build FailClosed invalid ms patterns = Ok (invalid', ms')
    /\ (invalid' = true <-> invalid = true \/ exists g, g ∈ patterns /\ is_ok (build g) = false).
Proof.
  revert invalid ms. induction patterns as [|g patterns IH]; intros invalid ms; cbn [build_loop].
  - exists invalid, ms. split; [done|]. set_solver.
  - destruct (build g) as [f|e] eqn:Hg.
    + destruct (IH invalid (ms ++ [f])) as (i & l & -> & Hi). exists i, l. split; [done|]. rewrite Hi.
      split; [set_solver|]. intros [?|(g' & [->|Hg']%elem_of_cons & He)]; [by left| |].
      * by rewrite Hg in He.
      * right. by exists g'.
    + destruct (IH true ms) as (i & l & -> & Hi). exists i, l. split; [done|]. rewrite Hi. split; [|by left].
      intros _. right. exists g. rewrite Hg. set_solver.
Qed.

Lemma candidates_has_absolute H p q : abs_from H p = Some q -> q ∈ normalized_and_canonical_candidates H p.
Proof.
  intros Hq. unfold normalized_and_canonical_candidates. rewrite Hq.
  assert (q ∈ push_unique [] q) as Hin by by (cbn; set_solver).
  destruct (host_canonicalize H (components p)) as [k|]; [|done].
  destruct (abs_from H (display k)) as [a|]; [|done]. unfold push_unique at 1. case_goal; set_solver.
Qed.

Lemma normalize_effective_ok H p :
  host_ok H -> absolute_normalized p -> absolute_normalized (normalize_effective_absolute_path H p).
Proof.
  intros Hok Hp. unfold normalize_effective_absolute_path.
  destruct (omap _ _) as [|q l] eqn:Ho; [done|]. cbn.
  assert (q ∈ omap (normalize_candidate H p) (path_ancestors p)) as (a & _ & Hq)%list_elem_of_omap
    by (rewrite Ho; set_solver).
  unfold normalize_candidate in Hq. repeat case_in Hq; try done. by eapply abs_from_ok.
Qed.

Lemma unreadable_roots_ok H pol cwd root :
  host_ok H -> policy_ok pol -> root ∈ get_unreadable_roots_with_cwd H pol cwd -> absolute_normalized root.
Proof.
  intros Hok Hp Hr. unfold get_unreadable_roots_with_cwd in Hr. destruct (negb _); [set_solver|].
  apply dedup_elem, list_elem_of_In, in_map_iff in Hr as (q & <- & Hq).
  apply in_map_iff in Hq as (e & <- & [He _]%filter_In). apply normalize_effective_ok; [done|].
  eapply resolved_ok; [done|exact Hp|by apply list_elem_of_In].
Qed.

(** The matcher of denied reads always exists for a policy with deny rules
    (its [unreachable!] is unreachable) and fails closed: it denies every path at
    or below an unreadable root, and every path at all when some deny pattern of
    the policy does not compile. *)
Theorem read_deny_fails_closed (H : Host) (build_glob : str -> result str (path -> bool))
    (pol : FileSystemSandboxPolicy) (cwd p : str) (q : path) :
  host_ok H -> policy_ok pol -> has_denied_read_restrictions pol = true -> abs_from H p = Some q ->
  exists m, matcher_new H build_glob pol cwd = Some (Some m)
    /\ ((exists root, root ∈ get_unreadable_roots_with_cwd H pol cwd /\ path_starts_with q root = true)
        \/ (exists g, g ∈ get_unreadable_globs_with_cwd H pol cwd /\ is_ok (build_glob g) = false)
        -> is_read_denied H m p = true).
Proof.
  intros Hok Hp Hd Hq. unfold matcher_new, matcher_build. rewrite Hd. cbn [negb].
  destruct (build_loop_fail_closed build_glob false [] (get_unreadable_globs_with_cwd H pol cwd))
    as (invalid & ms & -> & Hinv).
  eexists. split; [done|]. unfold is_read_denied. cbn [invalid_pattern denied_candidates deny_read_matchers].
  intros [(root & Hroot & Hpre)|Hbad].
  - destruct invalid; [done|].
    rewrite (proj2 (existsb_exists _ _)); [done|].
    exists (normalized_and_canonical_candidates H (display root)). split.
    { apply in_map_iff. exists root. split; [done|]. by apply list_elem_of_In. }
    apply existsb_exists. exists q. split; [apply list_elem_of_In; by apply candidates_has_absolute|].
    apply existsb_exists. exists root. split; [|by rewrite Hpre, orb_true_r].
    apply list_elem_of_In, candidates_has_absolute. by eapply abs_from_display, unreadable_roots_ok.
  - by rewrite (proj2 Hinv (or_intror Hbad)).
Qed.

Definition deny_policy : FileSystemSandboxPolicy :=
  restricted [mkEntry (FsSpecial Root) Read; secret; mkEntry (FsGlobPattern (lit "**/*.env")) Deny].
Definition no_globs (_ : str) : result str (path -> bool) := Err (lit "unsupported").

Lemma read_deny_fails_closed_witness :
  exists m, matcher_new empty_host no_globs deny_policy (lit "/") = Some (Some m)
    /\ is_read_denied empty_host m (lit "/etc/passwd") = true.
Proof.
  destruct (read_deny_fails_closed empty_host no_globs deny_policy (lit "/") (lit "/etc/passwd")
              (components (lit "/etc/passwd"))) as (m & Hm & Hden);
    [apply empty_host_ok|repeat constructor; by apply absolute_normalizedb_true|reflexivity..|].
  exists m. split; [done|]. apply Hden. right. exists (lit "/**/*.env").
  split; [apply (bool_decide_unpack _); by vm_compute|reflexivity].
Defined.

(** ** Permission profiles *)

(** A profile made from runtime permissions exists (the [unreachable!] on
    external policies is unreachable) and gives the same permissions back: the
    same kind of file system policy with the same entries, and the same network
    policy, except that disabled enforcement frees the network. *)
Theorem profile_keeps_permissions (enf : SandboxEnforcement) (p : FileSystemSandboxPolicy) (n : NetworkSandboxPolicy) :
  exists prof, from_runtime_permissions_with_enforcement enf p n = Some prof
    /\ policy_kind (file_system_sandbox_policy prof) = policy_kind p
    /\ (policy_kind p = Restricted -> policy_entries (file_system_sandbox_policy prof) = policy_entries p)
    /\ (enf <> EnforceDisabled -> network_sandbox_policy prof = n)
    /\ (enforcement prof = EnforceDisabled <-> policy_kind p = Unrestricted /\ enf = EnforceDisabled).
Proof.
  unfold from_runtime_permissions_with_enforcement, managed_profile, managed_from_sandbox_policy.
  destruct p as [[| |] d es]; cbn [policy_kind policy_entries glob_scan_max_depth];
    [|case_bool_decide|]; eexists; (split; [reflexivity|]); cbn; naive_solver.
Qed.
