(* ===== verification/PolicyTransforms.v ===== *)
(** * Additional permissions: [sandboxing/src/policy_transforms.rs] and the
      permission overlays of [protocol/src/models.rs]

    A command may ask for permissions on top of the session's profile.  The
    request is normalised, intersected with what the user granted, merged with
    earlier grants, and laid over the profile the sandbox enforces.  The
    theorems show that the intersection lets nothing be read that the request
    or the grant does not let be read, that laying a merge of two overlays over a
    profile is laying one after the other, that normalising and the legacy
    wire format keep every decision, and that the effective profile always
    exists and only adds network access that was asked for. *)

From S2P Require Import Prelude AbsolutePath Host Permissions SandboxRoots.

(** ** The overlay ([models.rs]) *)

(** The depth is a [NonZeroUsize]. *)
Record FileSystemPermissions : Type := mkFsPerm {
  fsp_entries : list FileSystemSandboxEntry;
  fsp_glob_scan_max_depth : option N
}.
Definition fsp_default : FileSystemPermissions := mkFsPerm [] None.
Definition fsp_is_empty (p : FileSystemPermissions) : bool :=
  match fsp_entries p with [] => true | _ => false end.

Definition LegacyReadWriteRoots : Type := option (list path) * option (list path).

Definition from_read_write_roots (read write : option (list path)) : FileSystemPermissions :=
  mkFsPerm
    (match read with Some read => map (fun p => mkEntry (FsPath p) Read) read | None => [] end
     ++ match write with Some write => map (fun p => mkEntry (FsPath p) Write) write | None => [] end) None.

Definition explicit_path_entries (self : FileSystemPermissions) : list (path * FileSystemAccessMode) :=
  omap (fun entry => match entry_path entry with
                     | FsPath p => Some (p, entry_access entry)
                     | FsGlobPattern _ | FsSpecial _ => None
                     end) (fsp_entries self).

(** The loop of [as_legacy_permissions], with the roots pushed so far. *)
Fixpoint legacy_roots_loop (read write : list path) (entries : list FileSystemSandboxEntry) :
  option (list path * list path) :=
  match entries with
  | [] => Some (read, write)
  | entry :: entries =>
      match entry_path entry with
      | FsPath p =>
          match entry_access entry with
          | Read => legacy_roots_loop (read ++ [p]) write entries
          | Write => legacy_roots_loop read (write ++ [p]) entries
          | Deny => None
          end
      | FsGlobPattern _ | FsSpecial _ => None
      end
  end.
(** [(!roots.is_empty()).then_some(roots)] *)
Definition non_empty (roots : list path) : option (list path) :=
  match roots with [] => None | _ => Some roots end.
Definition as_legacy_permissions (self : FileSystemPermissions) : option LegacyReadWriteRoots :=
  match fsp_glob_scan_max_depth self with
  | Some _ => None
  | None =>
      match legacy_roots_loop [] [] (fsp_entries self) with
      | Some (read, write) => Some (non_empty read, non_empty write)
      | None => None
      end
  end.
Definition legacy_read_write_roots (self : FileSystemPermissions) : option LegacyReadWriteRoots :=
  as_legacy_permissions self.

(** A JSON object with the fields of either shape that are present. *)
Record PermissionsJson : Type := mkJson {
  json_read : option (list path);
  json_write : option (list path);
  json_entries : option (list FileSystemSandboxEntry);
  json_glob_scan_max_depth : option N
}.
Definition fsp_serialize (self : FileSystemPermissions) : PermissionsJson :=
  match as_legacy_permissions self with
  | Some (read, write) => mkJson read write None None
  | None =>
      mkJson None None (match fsp_entries self with [] => None | entries => Some entries end)
        (fsp_glob_scan_max_depth self)
  end.
(** The untagged enum tries the canonical shape first; each shape denies the
    fields of the other, and [None] is the error when both do. *)
Definition fsp_deserialize (j : PermissionsJson) : option FileSystemPermissions :=
  match json_read j, json_write j, json_entries j, json_glob_scan_max_depth j with
  | None, None, entries, depth => Some (mkFsPerm (from_option id [] entries) depth)
  | read, write, None, None => Some (from_read_write_roots read write)
  | _, _, _, _ => None
  end.

Record NetworkPermissions : Type := mkNetPerm { np_enabled : option bool }.
Definition np_is_empty (n : NetworkPermissions) : bool :=
  match np_enabled n with None => true | Some _ => false end.

Record AdditionalPermissionProfile : Type := mkAdditional {
  add_network : option NetworkPermissions;
  add_file_system : option FileSystemPermissions
}.
Definition additional_is_empty (p : AdditionalPermissionProfile) : bool :=
  match add_network p, add_file_system p with None, None => true | _, _ => false end.

(** [FileSystemPermissions::from(&FileSystemSandboxPolicy)] and back. *)
Definition permissions_from_policy (value : FileSystemSandboxPolicy) : FileSystemPermissions :=
  mkFsPerm
    (match policy_kind value with
     | Restricted => policy_entries value
     | Unrestricted | ExternalSandboxKind => [mkEntry (FsSpecial Root) Write]
     end) (glob_scan_max_depth value ≫= non_zero).
Definition policy_from_permissions (value : FileSystemPermissions) : FileSystemSandboxPolicy :=
  mkFsPolicy Restricted (fsp_glob_scan_max_depth value) (fsp_entries value).
(** [NetworkPermissions::from(NetworkSandboxPolicy)] *)
Definition permissions_from_network (value : NetworkSandboxPolicy) : NetworkPermissions :=
  mkNetPerm (Some (net_is_enabled value)).

(** [PermissionProfile::from(LegacyPermissionProfile)]: the shape rollouts held
    before profiles were tagged; its fields are those of an overlay. *)
Definition profile_from_legacy_profile (value : AdditionalPermissionProfile) : option PermissionProfile :=
  let file_system_sandbox_policy :=
    match add_file_system value with
    | None => restricted []
    | Some file_system => policy_from_permissions file_system
    end in
  let network_sandbox_policy :=
    if from_option id false (add_network value ≫= np_enabled) then NetEnabled else NetRestricted in
  from_runtime_permissions file_system_sandbox_policy network_sandbox_policy.

(** ** Depth of glob scans *)

Inductive GlobScanDepth : Type := Bounded (depth : N) | Unbounded.

Definition is_deny_glob (entry : FileSystemSandboxEntry) : bool :=
  is_deny entry && match entry_path entry with FsGlobPattern _ => true | _ => false end.

Definition effective_glob_scan_depth (entries : list FileSystemSandboxEntry) (depth : option N) :
  option GlobScanDepth :=
  if existsb is_deny_glob entries
  then Some (match depth with Some depth => Bounded depth | None => Unbounded end)
  else None.

Definition merge_glob_scan_max_depth (left_entries : list FileSystemSandboxEntry) (left_depth : option N)
    (right_entries : list FileSystemSandboxEntry) (right_depth : option N) : option N :=
  match effective_glob_scan_depth left_entries left_depth, effective_glob_scan_depth right_entries right_depth with
  | Some Unbounded, _ | _, Some Unbounded => None
  | Some (Bounded l), Some (Bounded r) => Some (N.max l r)
  | Some (Bounded depth), None | None, Some (Bounded depth) => Some depth
  | None, None => None
  end.

(** ** Merging *)

Definition merge_permission_entries (base permissions : list FileSystemSandboxEntry) : list FileSystemSandboxEntry :=
  push_missing [] (base ++ permissions).

Definition filter_option {A} (f : A -> bool) (o : option A) : option A :=
  match o with Some a => if f a then Some a else None | None => None end.

Definition is_network_enabled (n : option NetworkPermissions) : bool :=
  match n with Some (mkNetPerm (Some true)) => true | _ => false end.

Definition merge_permission_profiles (base permissions : option AdditionalPermissionProfile) :
  option AdditionalPermissionProfile :=
  match permissions with
  | None => base
  | Some permissions =>
      match base with
      | Some base =>
          let network :=
            if is_network_enabled (add_network base) || is_network_enabled (add_network permissions)
            then Some (mkNetPerm (Some true)) else None in
          let file_system :=
            match add_file_system base, add_file_system permissions with
            | Some base, Some permissions =>
                filter_option (fun file_system => negb (fsp_is_empty file_system))
                  (Some (mkFsPerm (merge_permission_entries (fsp_entries base) (fsp_entries permissions))
                     (merge_glob_scan_max_depth (fsp_entries base) (fsp_glob_scan_max_depth base)
                        (fsp_entries permissions) (fsp_glob_scan_max_depth permissions) ≫= non_zero)))
            | Some base, None => Some base
            | None, Some permissions => Some permissions
            | None, None => None
            end in
          filter_option (fun permissions => negb (additional_is_empty permissions))
            (Some (mkAdditional network file_system))
      | None => filter_option (fun permissions => negb (additional_is_empty permissions)) (Some permissions)
      end
  end.

(** ** The effective policy *)

Definition merge_file_system_policy_with_additional_permissions (file_system_policy : FileSystemSandboxPolicy)
    (additional_permissions : FileSystemPermissions) : FileSystemSandboxPolicy :=
  match policy_kind file_system_policy with
  | Restricted =>
      mkFsPolicy (policy_kind file_system_policy)
        (merge_glob_scan_max_depth (policy_entries file_system_policy) (glob_scan_max_depth file_system_policy)
           (fsp_entries additional_permissions) (fsp_glob_scan_max_depth additional_permissions))
        (push_missing (policy_entries file_system_policy) (fsp_entries additional_permissions))
  | Unrestricted | ExternalSandboxKind => file_system_policy
  end.

Definition effective_file_system_sandbox_policy (file_system_policy : FileSystemSandboxPolicy)
    (additional_permissions : option AdditionalPermissionProfile) : FileSystemSandboxPolicy :=
  match additional_permissions with
  | None => file_system_policy
  | Some additional_permissions =>
      match add_file_system additional_permissions with
      | None => file_system_policy
      | Some file_system_permissions =>
          if fsp_is_empty file_system_permissions then file_system_policy
          else merge_file_system_policy_with_additional_permissions file_system_policy file_system_permissions
      end
  end.

Definition merge_network_access (base_network_access : bool) (additional_permissions : AdditionalPermissionProfile) :
  bool :=
  base_network_access || from_option id false (add_network additional_permissions ≫= np_enabled).

Definition effective_network_sandbox_policy (network_policy : NetworkSandboxPolicy)
    (additional_permissions : option AdditionalPermissionProfile) : NetworkSandboxPolicy :=
  match additional_permissions with
  | Some permissions =>
      if merge_network_access (net_is_enabled network_policy) permissions then NetEnabled else NetRestricted
  | None => network_policy
  end.

(** [None] is an [unreachable!] of [from_runtime_permissions_with_enforcement]. *)
Definition effective_permission_profile (permission_profile : PermissionProfile)
    (additional_permissions : option AdditionalPermissionProfile) : option PermissionProfile :=
  let '(file_system_policy, network_policy) := to_runtime_permissions permission_profile in
  from_runtime_permissions_with_enforcement (enforcement permission_profile)
    (effective_file_system_sandbox_policy file_system_policy additional_permissions)
    (effective_network_sandbox_policy network_policy additional_permissions).

Definition should_require_platform_sandbox (file_system_policy : FileSystemSandboxPolicy)
    (network_policy : NetworkSandboxPolicy) (has_managed_network_requirements : bool) : bool :=
  if has_managed_network_requirements then true
  else if negb (net_is_enabled network_policy) then
    negb (bool_decide (policy_kind file_system_policy = ExternalSandboxKind))
  else match policy_kind file_system_policy with
       | Restricted => negb (has_full_disk_write_access file_system_policy)
       | Unrestricted | ExternalSandboxKind => false
       end.

(** ** Requests and grants *)

Definition paths_overlap (l r : path) : bool := path_starts_with l r || path_starts_with r l.

Definition access_covers (requested granted : FileSystemAccessMode) : bool :=
  match granted with
  | Read => can_read requested
  | Write => can_write requested
  | Deny => false
  end.

(** The characters that end the literal part of a glob: [* ? \[ \]]. *)
Definition is_glob_char (c : char) : bool := existsb (N.eqb c) [42; 63; 91; 93]%N.
(** [&s\[..index\]] for the first character that satisfies the predicate;
    [None] when there is none. *)
Fixpoint find_prefix (f : char -> bool) (s : str) : option str :=
  match s with
  | [] => None
  | c :: s => if f c then Some [] else cons c <$> find_prefix f s
  end.

Section host.
Context (H : Host).

Definition resolve_permission_path (p : FileSystemPath) (cwd : str) : option path :=
  match p with
  | FsPath p => Some p
  | FsGlobPattern _ => None
  | FsSpecial value =>
      match value with
      | Root =>
          match last (path_ancestors (components cwd)) with
          | None => None
          | Some root => abs_from H (display root)
          end
      | ProjectRoots subpath =>
          match abs_from H cwd with
          | None => None
          | Some cwd =>
              Some (match subpath with
                    | Some subpath => resolve_path_against_base (home H) subpath cwd
                    | None => cwd
                    end)
          end
      | Tmpdir =>
          match tmpdir_var H with
          | None => None
          | Some tmpdir => if tmpdir =s? [] then None else abs_from H tmpdir
          end
      | SlashTmp => filter_option (host_is_dir H) (abs_from H (lit "/tmp"))
      | Minimal | UnknownSpecial _ _ => None
      end
  end.

Definition materialize_cwd_dependent_entry (entry : FileSystemSandboxEntry) (cwd : str) : FileSystemSandboxEntry :=
  match entry_path entry with
  | FsSpecial (ProjectRoots _) =>
      match resolve_permission_path (entry_path entry) cwd with
      | Some p => mkEntry (FsPath p) (entry_access entry)
      | None => entry
      end
  | FsGlobPattern pattern =>
      mkEntry (FsGlobPattern (display (resolve_path_against_base (home H) pattern (components cwd))))
        (entry_access entry)
  | FsPath _ | FsSpecial _ => entry
  end.

Definition glob_static_prefix_path (pattern : str) (cwd : str) : option path :=
  let resolved_pattern := display (resolve_path_against_base (home H) pattern (components cwd)) in
  match find_prefix is_glob_char resolved_pattern with
  | Some [] => None
  | Some prefix =>
      if ends_with [SLASH] prefix || ends_with (lit "\") prefix then abs_from H prefix
      else match parent (components prefix) with
           | Some prefix => abs_from H (display prefix)
           | None => None
           end
  | None => abs_from H resolved_pattern
  end.

Definition deny_constrains (deny_entry : FileSystemSandboxEntry) (cwd : str) (entry : FileSystemSandboxEntry) : bool :=
  match resolve_permission_path (entry_path entry) cwd with
  | None => false
  | Some grant_path =>
      match entry_path deny_entry with
      | FsGlobPattern pattern =>
          match glob_static_prefix_path pattern cwd with
          | Some prefix => paths_overlap prefix grant_path
          | None => false
          end
      | FsPath _ | FsSpecial _ =>
          match resolve_permission_path (entry_path deny_entry) cwd with
          | Some deny_path => paths_overlap deny_path grant_path
          | None => false
          end
      end
  end.
Definition deny_entry_constrains_accepted_grant (deny_entry : FileSystemSandboxEntry)
    (accepted_entries : list FileSystemSandboxEntry) (cwd : str) : bool :=
  existsb (deny_constrains deny_entry cwd)
    (List.filter (fun entry => can_read (entry_access entry)) accepted_entries).

(** The entries kept, and the output with those it lacked pushed. *)
Definition retain_constraining_deny_entries (source_entries accepted_entries : list FileSystemSandboxEntry)
    (cwd : str) (output_entries : list FileSystemSandboxEntry) :
  list FileSystemSandboxEntry * list FileSystemSandboxEntry :=
  fold_left (fun '(retained_entries, output_entries) entry =>
    if negb (deny_entry_constrains_accepted_grant entry accepted_entries cwd) then (retained_entries, output_entries)
    else
      let entry := materialize_cwd_dependent_entry entry cwd in
      (retained_entries ++ [entry], push_missing output_entries [entry]))
    (List.filter is_deny source_entries) ([], output_entries).

(** [canonicalize_preserving_symlinks(path).ok().and_then(from_absolute_path).unwrap_or(path)] *)
Definition normalize_permission_path (p : FileSystemPath) : FileSystemPath :=
  match p with
  | FsPath p => FsPath (from_option id p (canonicalize_preserving_symlinks H p ≫= fun q => abs_from H (display q)))
  | FsGlobPattern pattern => FsGlobPattern pattern
  | FsSpecial value => FsSpecial value
  end.
Definition GLOB_GRANT_ERROR : str := lit "glob file system permissions only support deny-read entries".
Fixpoint normalize_entries_loop (acc entries : list FileSystemSandboxEntry) :
  result str (list FileSystemSandboxEntry) :=
  match entries with
  | [] => Ok acc
  | entry :: entries =>
      if match entry_path entry with FsGlobPattern _ => true | _ => false end && negb (is_deny entry)
      then Err GLOB_GRANT_ERROR
      else normalize_entries_loop
             (push_missing acc [mkEntry (normalize_permission_path (entry_path entry)) (entry_access entry)]) entries
  end.
Definition normalize_additional_permissions (additional_permissions : AdditionalPermissionProfile) :
  result str AdditionalPermissionProfile :=
  let network := filter_option (fun network => negb (np_is_empty network)) (add_network additional_permissions) in
  match add_file_system additional_permissions with
  | Some file_system =>
      match normalize_entries_loop [] (fsp_entries file_system) with
      | Ok entries =>
          Ok (mkAdditional network
                (filter_option (fun file_system => negb (fsp_is_empty file_system))
                   (Some (mkFsPerm entries (fsp_glob_scan_max_depth file_system)))))
      | Err e => Err e
      end
  | None => Ok (mkAdditional network None)
  end.

Section globs.
Context (build_glob_matcher : str -> result str (path -> bool)).

Definition granted_file_system_entry_within_request (requested : FileSystemPermissions)
    (requested_policy : FileSystemSandboxPolicy) (requested_read_deny_matcher : option ReadDenyMatcher)
    (granted_entry : FileSystemSandboxEntry) (cwd : str) : bool :=
  if negb (can_read (entry_access granted_entry)) then false
  else match resolve_permission_path (entry_path granted_entry) cwd with
       | Some p =>
           if match requested_read_deny_matcher with
              | Some matcher => is_read_denied H matcher (display p)
              | None => false
              end then false
           else access_covers (resolve_access_with_cwd H requested_policy (display p) cwd) (entry_access granted_entry)
       | None =>
           existsb (fun requested_entry =>
             access_covers (entry_access requested_entry) (entry_access granted_entry)
             && fs_path_eqb (entry_path requested_entry) (entry_path granted_entry)) (fsp_entries requested)
       end.

(** The closure over the requested file system permissions; [None] is the
    [unreachable!] of [ReadDenyMatcher::new]. *)
Definition intersect_file_system (requested_file_system : FileSystemPermissions)
    (granted_file_system : FileSystemPermissions) (cwd : str) : option FileSystemPermissions :=
  let requested_policy := restricted (fsp_entries requested_file_system) in
  match matcher_new H build_glob_matcher requested_policy cwd with
  | None => None
  | Some requested_read_deny_matcher =>
      let accepted_entries :=
        push_missing []
          (map (fun entry => materialize_cwd_dependent_entry entry cwd)
             (List.filter (fun entry =>
                granted_file_system_entry_within_request requested_file_system requested_policy
                  requested_read_deny_matcher entry cwd) (fsp_entries granted_file_system))) in
      let '(requested_retained_deny_entries, entries) :=
        retain_constraining_deny_entries (fsp_entries requested_file_system) accepted_entries cwd accepted_entries in
      let '(granted_retained_deny_entries, entries) :=
        retain_constraining_deny_entries (fsp_entries granted_file_system) accepted_entries cwd entries in
      Some (mkFsPerm entries
              (merge_glob_scan_max_depth requested_retained_deny_entries
                 (fsp_glob_scan_max_depth requested_file_system)
                 granted_retained_deny_entries (fsp_glob_scan_max_depth granted_file_system) ≫= non_zero))
  end.

Definition intersect_permission_profiles (requested granted : AdditionalPermissionProfile) (cwd : str) :
  option AdditionalPermissionProfile :=
  let network :=
    if is_network_enabled (add_network requested) && is_network_enabled (add_network granted)
    then Some (mkNetPerm (Some true)) else None in
  match add_file_system requested with
  | None => Some (mkAdditional network None)
  | Some requested_file_system =>
      match intersect_file_system requested_file_system (from_option id fsp_default (add_file_system granted)) cwd with
      | None => None
      | Some file_system =>
          Some (mkAdditional network (filter_option (fun file_system => negb (fsp_is_empty file_system)) (Some file_system)))
      end
  end.
End globs.
End host.

(** ** Entries and what they resolve to *)

Lemma push_missing_only es new e : e ∈ push_missing es new -> e ∈ es \/ e ∈ new.
Proof.
  unfold push_missing. revert es. induction new as [|n new IH]; intros es; cbn [fold_left]; [by left|].
  intros [Hin|]%IH; [|right; set_solver]. revert Hin. case_goal; set_solver.
Qed.

Lemma push_missing_app es new new' : push_missing es (new ++ new') = push_missing (push_missing es new) new'.
Proof. unfold push_missing. apply fold_left_app. Qed.

Section resolved.
Context (H : Host) (Hok : host_ok H).

Lemma subpath_eqb_true s t : subpath_eqb s t = true <-> components <$> s = components <$> t.
Proof.
  destruct s, t; cbn; try (split; congruence). rewrite bool_decide_eq_true. split; [by intros ->|by intros [= ->]].
Qed.

(** The derived equality is transitive. *)
Lemma entry_eqb_trans e f g : entry_eqb e f = true -> entry_eqb f g = true -> entry_eqb e g = true.
Proof.
  unfold entry_eqb. rewrite !andb_true_iff, !bool_decide_eq_true. intros [Hp ->] [Hq ->]. split; [|done].
  destruct (entry_path e) as [p|p|v], (entry_path f) as [q|q|w], (entry_path g) as [r|r|x]; try done;
    cbn [fs_path_eqb] in *.
  - bool_to_prop. subst. by apply bool_decide_eq_true.
  - bool_to_prop. subst. by apply bool_decide_eq_true.
  - destruct v, w, x; try done; cbn [special_eqb] in *;
      rewrite ?andb_true_iff, !subpath_eqb_true in *; [congruence|].
    destruct Hp as [Hp ->], Hq as [Hq ->]. bool_to_prop. subst. split; [by apply bool_decide_eq_true|done].
Qed.

(** Pushing a list without its repetitions is pushing the list. *)
Lemma push_missing_push es acc new :
  push_missing es (push_missing acc new) = push_missing (push_missing es acc) new.
Proof.
  revert acc. induction new as [|e new IH]; intros acc; [done|]. change (e :: new) with ([e] ++ new).
  rewrite !push_missing_app, IH. f_equal. unfold push_missing at 2. cbn [fold_left].
  destruct (existsb (fun entry => entry_eqb entry e) acc) eqn:He; [|by rewrite push_missing_app].
  apply existsb_exists in He as (f & Hf%list_elem_of_In & Hfe).
  destruct (push_missing_has es acc f Hf) as (g & Hg & Heq). set (l := push_missing es acc) in *.
  unfold push_missing. cbn [fold_left]. rewrite (proj2 (existsb_exists _ l)); [done|]. exists g.
  split; [by apply list_elem_of_In|]. destruct Heq as [->|Heq]; [done|]. by eapply entry_eqb_trans.
Qed.

Lemma elem_of_resolved_list cwd es e :
  e ∈ resolved_entries_with_cwd H (restricted es) cwd <->
  exists en, en ∈ es /\ resolve_entry_path H (entry_path en) (abs_from H cwd) = Some (resolved_path e)
             /\ entry_access en = resolved_access e.
Proof. apply elem_of_resolved. Qed.

Lemma resolved_app cwd es new e :
  e ∈ resolved_entries_with_cwd H (restricted (es ++ new)) cwd <->
  e ∈ resolved_entries_with_cwd H (restricted es) cwd \/ e ∈ resolved_entries_with_cwd H (restricted new) cwd.
Proof.
  rewrite !elem_of_resolved_list. split; [|by intros [(en & ? & ?)|(en & ? & ?)]; exists en; rewrite elem_of_app; auto].
  intros (en & [?|?]%elem_of_app & ?); [left|right]; by exists en.
Qed.

(** Pushing what is missing adds exactly the places of the new entries. *)
Lemma resolved_push_missing cwd es new e :
  e ∈ resolved_entries_with_cwd H (restricted (push_missing es new)) cwd <->
  e ∈ resolved_entries_with_cwd H (restricted es) cwd \/ e ∈ resolved_entries_with_cwd H (restricted new) cwd.
Proof.
  rewrite !elem_of_resolved_list. split.
  - intros (en & [Hin|Hin]%push_missing_only & Hr); [left|right]; by exists en.
  - intros [(en & Hin & Hr & Ha)|(en & Hin & Hr & Ha)].
    + exists en. split; [by apply push_missing_keeps|done].
    + destruct (push_missing_has es new en Hin) as (f & Hf & [->|Heq]); [by exists en|].
      apply (entry_eqb_resolve H Hok f en (abs_from H cwd)) in Heq as [Hacc Hp].
      exists f. by rewrite Hp, Hacc.
Qed.

(** The denials of [src] that are kept beside the grants [acc]. *)
Definition kept_denials (src acc : list FileSystemSandboxEntry) (cwd : str) : list FileSystemSandboxEntry :=
  map (fun entry => materialize_cwd_dependent_entry H entry cwd)
    (List.filter (fun entry => deny_entry_constrains_accepted_grant H entry acc cwd) (List.filter is_deny src)).

Lemma retain_constraining_eq src acc cwd out :
  retain_constraining_deny_entries H src acc cwd out
  = (kept_denials src acc cwd, push_missing out (kept_denials src acc cwd)).
Proof.
  unfold retain_constraining_deny_entries, kept_denials.
  set (f := fun '(_, _) _ => _). set (l := List.filter is_deny src).
  assert (forall ret out, fold_left f l (ret, out) =
    (ret ++ map (fun entry => materialize_cwd_dependent_entry H entry cwd)
       (List.filter (fun entry => deny_entry_constrains_accepted_grant H entry acc cwd) l),
     push_missing out (map (fun entry => materialize_cwd_dependent_entry H entry cwd)
       (List.filter (fun entry => deny_entry_constrains_accepted_grant H entry acc cwd) l)))) as Hg; [|apply Hg].
  clear out. induction l as [|e l IH]; intros ret out; cbn [fold_left List.filter]; [by rewrite app_nil_r|].
  unfold f at 2. destruct (deny_entry_constrains_accepted_grant H e acc cwd); cbn [negb map]; rewrite IH; [|done].
  by rewrite <- app_assoc.
Qed.

Lemma resolve_permission_entry p (c : path) :
  absolute_normalized c ->
  resolve_permission_path H p (display c) = resolve_entry_path H p (abs_from H (display c)).
Proof.
  intros Hc. rewrite abs_from_display by done. destruct p as [p|g|[| |sub| | |]]; try done; cbn.
  - unfold absolute_root_path_for_cwd. by rewrite components_display by done.
  - rewrite abs_from_display by done. by destruct sub.
Qed.

Lemma materialize_resolves en (c : path) :
  absolute_normalized c ->
  resolve_entry_path H (entry_path (materialize_cwd_dependent_entry H en (display c))) (abs_from H (display c))
  = resolve_entry_path H (entry_path en) (abs_from H (display c))
  /\ entry_access (materialize_cwd_dependent_entry H en (display c)) = entry_access en.
Proof.
  intros Hc. destruct en as [[p|g|v] a]; cbn [materialize_cwd_dependent_entry entry_path]; [done..|].
  destruct v as [| |sub| | |]; try done. rewrite resolve_permission_entry by done.
  by destruct (resolve_entry_path H (FsSpecial (ProjectRoots sub)) _) eqn:E; cbn.
Qed.

Lemma resolved_materialize (c : path) es e :
  absolute_normalized c ->
  e ∈ resolved_entries_with_cwd H
        (restricted (map (fun en => materialize_cwd_dependent_entry H en (display c)) es)) (display c)
  <-> e ∈ resolved_entries_with_cwd H (restricted es) (display c).
Proof.
  intros Hc. rewrite !elem_of_resolved_list. split.
  - intros (en & (en' & -> & Hin)%list_elem_of_fmap & Hr & Ha). exists en'.
    destruct (materialize_resolves en' c Hc) as [Hm Hacc]. by rewrite <- Hm, <- Hacc.
  - intros (en & Hin & Hr & Ha). exists (materialize_cwd_dependent_entry H en (display c)).
    destruct (materialize_resolves en c Hc) as [-> ->]. split; [|done]. apply list_elem_of_fmap. by exists en.
Qed.
End resolved.

(** ** Clamping a list of grants

    [acc] are the accepted grants and [den] the denials kept beside them; [src]
    is the side (request or grant) they are to stay within. *)

Lemma overlap_of_common (t p q : path) :
  path_starts_with t p = true -> path_starts_with t q = true -> paths_overlap p q = true.
Proof.
  intros Hp Hq. unfold paths_overlap. destruct (decide (length p <= length q)%nat).
  - by rewrite (prefixes_comparable t p q), orb_true_r.
  - by rewrite (prefixes_comparable t q p) by (done || lia).
Qed.

Section clamp.
Context (acc den src : list ResolvedFileSystemEntry).
Context (Hacc : forall a, a ∈ acc -> can_read (resolved_access a) = true).
Context (Hden : forall d, d ∈ den -> resolved_access d = Deny).
Context (Hkeep : forall d a, d ∈ src -> resolved_access d = Deny -> a ∈ acc ->
                   paths_overlap (resolved_path d) (resolved_path a) = true -> d ∈ den).
Context (Hcov : forall a, a ∈ acc ->
           access_covers (decide_access (resolved_path a) src) (resolved_access a) = true \/ a ∈ src).

(** What decides a readable path of the clamped list is an accepted grant, and
    no kept denial comes between. *)
Lemma clamped_decider (t : path) (all : list ResolvedFileSystemEntry) :
  (forall e, e ∈ all <-> e ∈ acc \/ e ∈ den) -> can_read (decide_access t all) = true ->
  exists a, a ∈ acc /\ path_starts_with t (resolved_path a) = true /\ resolved_access a = decide_access t all
    /\ forall d, d ∈ src -> resolved_access d = Deny -> path_starts_with t (resolved_path d) = true ->
         (length (resolved_path d) < length (resolved_path a))%nat.
Proof.
  intros Hall Hr. destruct (decide_access_decides t all) as [[_ E]|(a & Ha & Hp & Hacc' & Hmax)].
  { by rewrite E in Hr. }
  rewrite <- Hacc' in Hr, Hmax. apply Hall in Ha as [Ha|Ha]; [|by rewrite (Hden a Ha) in Hr].
  exists a. split_and!; [done..|]. intros d Hd Hdd Hdp.
  assert (d ∈ den) as Hin by (eapply Hkeep; [done..|by eapply overlap_of_common]).
  destruct (Hmax d (proj2 (Hall d) (or_intror Hin)) Hdp) as [?|[_ Hrank]]; [done|].
  rewrite Hdd in Hrank. destruct (resolved_access a); [cbn in Hrank; lia..|done].
Qed.

(** A readable path of the clamped list is readable on the other side. *)
Lemma clamped_read (t : path) (all : list ResolvedFileSystemEntry) :
  (forall e, e ∈ all <-> e ∈ acc \/ e ∈ den) -> can_read (decide_access t all) = true ->
  can_read (decide_access t src) = true.
Proof.
  intros Hall Hr. destruct (clamped_decider t all Hall Hr) as (a & Ha & Hp & _ & Hbelow).
  destruct (can_read (decide_access t src)) eqn:Hsrc; [done|]. exfalso.
  assert (decide_access t src = Deny) as HD by by destruct (decide_access t src).
  apply decide_access_iff in HD. destruct HD as [[Hnone _]|(d & Hd & Hdp & Hdd & Hmax)].
  - destruct (Hcov a Ha) as [Hc|Hin]; [|by eapply Hnone].
    assert (decide_access (resolved_path a) src = Deny) as E.
    { apply decide_access_iff. left. split; [|done]. intros e He Hep.
      eapply Hnone; [exact He|]. exact (path_starts_with_trans _ _ _ Hp Hep). }
    rewrite E in Hc. by destruct (resolved_access a).
  - pose proof (Hbelow d Hd Hdd Hdp) as Hlt. destruct (Hcov a Ha) as [Hc|Hin].
    + assert (decide_access (resolved_path a) src = Deny) as E.
      { apply decide_access_iff. right. exists d. split_and!; [done| |done|].
        - apply (prefixes_comparable t); [done..|lia].
        - intros f Hf Hfp. apply Hmax; [done|]. exact (path_starts_with_trans _ _ _ Hp Hfp). }
      rewrite E in Hc. by destruct (resolved_access a).
    + destruct (Hmax a Hin Hp) as [?|[Heq _]]; [lia|]. rewrite Heq in Hlt. lia.
Qed.

(** The place of the grant that makes a path writable is writable on the other side. *)
Lemma clamped_write (t : path) (all : list ResolvedFileSystemEntry) :
  (forall e, e ∈ all <-> e ∈ acc \/ e ∈ den) -> can_write (decide_access t all) = true ->
  exists a, a ∈ acc /\ path_starts_with t (resolved_path a) = true /\ resolved_access a = Write
    /\ can_write (decide_access (resolved_path a) src) = true.
Proof.
  intros Hall Hw. destruct (clamped_decider t all Hall) as (a & Ha & Hp & Heq & Hbelow);
    [by destruct (decide_access t all)|].
  assert (resolved_access a = Write) as Hwa by by rewrite Heq; destruct (decide_access t all).
  exists a. split_and!; [done..|]. destruct (Hcov a Ha) as [Hc|Hin]; [by rewrite Hwa in Hc|].
  rewrite (decides_at (resolved_path a) src a); [by rewrite Hwa|done..|].
  intros f Hf Hfp. rewrite Hwa. destruct (resolved_access f) eqn:E; [cbn; lia..|].
  pose proof (Hbelow f Hf E) as Hlt. rewrite Hfp in Hlt. specialize (Hlt Hp). lia.
Qed.
End clamp.

(** Below a writable place a readable path is writable, unless a read-only
    entry lies in between. *)
Lemma writable_below (t q : path) (es : list ResolvedFileSystemEntry) :
  path_starts_with t q = true -> can_write (decide_access q es) = true -> can_read (decide_access t es) = true ->
  can_write (decide_access t es) = true
  \/ exists e, e ∈ es /\ resolved_access e = Read /\ path_starts_with t (resolved_path e) = true
       /\ path_starts_with (resolved_path e) q = true /\ resolved_path e <> q.
Proof.
  intros Hq Hw Hr. destruct (decide_access t es) eqn:Ht; [|by left|done]. right.
  assert (decide_access q es = Write) as Hqw by by destruct (decide_access q es).
  apply decide_access_iff in Ht as [[_ ?]|(e & He & Hte & Hre & Hmax)]; [done|].
  apply decide_access_iff in Hqw as [[_ ?]|(f & Hf & Hqf & Hwf & Hmaxq)]; [done|].
  assert (path_starts_with q (resolved_path e) = false) as Hqe.
  { apply not_true_is_false. intros Hqe. pose proof (path_starts_with_trans _ _ _ Hq Hqf) as Htf.
    destruct (Hmaxq e He Hqe) as [?|[Heq _]], (Hmax f Hf Htf) as [?|[Heq' Hrank]];
      [lia|rewrite Heq' in *; lia|rewrite Heq in *; lia|]. rewrite Hwf in Hrank. cbn in Hrank. lia. }
  exists e. split_and!; [done..| |].
  - destruct (decide (length q <= length (resolved_path e))%nat) as [Hl|Hl];
      [by apply (prefixes_comparable t)|]. rewrite (prefixes_comparable t (resolved_path e) q) in Hqe by (done || lia). done.
  - intros Heq. by rewrite Heq, path_starts_with_refl in Hqe.
Qed.

(** ** The intersection *)

Section intersection.
Context (H : Host) (Hok : host_ok H) (build : str -> result str (path -> bool)).
Context (c : path) (Hc : absolute_normalized c).

Lemma matcher_new_total pol cwd : exists m, matcher_new H build pol cwd = Some m.
Proof.
  unfold matcher_new, matcher_build. destruct (negb _); [by eexists|].
  destruct (build_loop_fail_closed build false [] (get_unreadable_globs_with_cwd H pol cwd)) as (i & ms & -> & _).
  by eexists.
Qed.

(** Grants that pass the check, in the form the result holds them. *)
Definition accepted (requested granted : FileSystemPermissions) (m : option ReadDenyMatcher) :
  list FileSystemSandboxEntry :=
  push_missing [] (map (fun entry => materialize_cwd_dependent_entry H entry (display c))
    (List.filter (fun entry => granted_file_system_entry_within_request H requested
       (restricted (fsp_entries requested)) m entry (display c)) (fsp_entries granted))).

Lemma intersect_file_system_eq requested granted :
  exists m fs, intersect_file_system H build requested granted (display c) = Some fs
    /\ fsp_entries fs =
       push_missing (accepted requested granted m)
         (kept_denials H (fsp_entries requested) (accepted requested granted m) (display c)
          ++ kept_denials H (fsp_entries granted) (accepted requested granted m) (display c)).
Proof.
  destruct (matcher_new_total (restricted (fsp_entries requested)) (display c)) as [m Hm].
  exists m. unfold intersect_file_system. rewrite Hm, !retain_constraining_eq.
  eexists. split; [reflexivity|]. cbn [fsp_entries]. by rewrite push_missing_app.
Qed.

Lemma resolved_accepted requested granted m a :
  Forall entry_ok (fsp_entries granted) ->
  a ∈ resolved_entries_with_cwd H (restricted (accepted requested granted m)) (display c) ->
  can_read (resolved_access a) = true
  /\ a ∈ resolved_entries_with_cwd H (restricted (fsp_entries granted)) (display c)
  /\ access_covers (decide_access (resolved_path a)
       (resolved_entries_with_cwd H (restricted (fsp_entries requested)) (display c))) (resolved_access a) = true.
Proof.
  intros Hg. unfold accepted. rewrite resolved_push_missing by done. intros [Ha|Ha]; [by apply elem_of_nil in Ha|].
  rewrite resolved_materialize in Ha by done.
  apply elem_of_resolved_list in Ha as (en & [Hin Hw]%elem_of_filter_bool & Hr & Hacc).
  unfold granted_file_system_entry_within_request in Hw. rewrite resolve_permission_entry, Hr, Hacc in Hw by done.
  destruct (can_read (resolved_access a)) eqn:Hread; [|done]. cbn [negb] in Hw.
  assert (absolute_normalized (resolved_path a)) as Hn.
  { rewrite Forall_forall in Hg. eapply resolve_entry_path_ok; [done|by apply Hg|by apply abs_from_option_ok|done]. }
  split_and!; [done|apply elem_of_resolved_list; by exists en|].
  rewrite resolve_access_display in Hw by done. by repeat case_in Hw.
Qed.

(** A denied pattern whose literal part overlaps an accepted grant is kept,
    resolved against the working directory. *)
Lemma kept_glob src acc pattern prefix a :
  mkEntry (FsGlobPattern pattern) Deny ∈ src -> glob_static_prefix_path H pattern (display c) = Some prefix ->
  a ∈ resolved_entries_with_cwd H (restricted acc) (display c) -> can_read (resolved_access a) = true ->
  paths_overlap prefix (resolved_path a) = true ->
  mkEntry (FsGlobPattern (display (resolve_path_against_base (home H) pattern c))) Deny
    ∈ kept_denials H src acc (display c).
Proof.
  intros Hin Hpre (ea & Hea & Hra & Haa)%elem_of_resolved_list Hread Hov. unfold kept_denials.
  apply list_elem_of_fmap. exists (mkEntry (FsGlobPattern pattern) Deny).
  split; [cbn; by rewrite components_display|]. rewrite !elem_of_filter_bool. split; [done|].
  apply existsb_exists. exists ea. split.
  { apply filter_In. rewrite <- list_elem_of_In, Haa. done. }
  unfold deny_constrains. cbn [entry_path]. by rewrite resolve_permission_entry, Hra, Hpre.
Qed.

(** A denial of the source that overlaps an accepted grant is kept. *)
Lemma kept_overlapping src acc d a :
  d ∈ resolved_entries_with_cwd H (restricted src) (display c) -> resolved_access d = Deny ->
  a ∈ resolved_entries_with_cwd H (restricted acc) (display c) -> can_read (resolved_access a) = true ->
  paths_overlap (resolved_path d) (resolved_path a) = true ->
  d ∈ resolved_entries_with_cwd H (restricted (kept_denials H src acc (display c))) (display c).
Proof.
  intros (en & Hin & Hr & Hd)%elem_of_resolved_list Hdeny (ea & Hea & Hra & Haa)%elem_of_resolved_list Hread Hov.
  unfold kept_denials. rewrite resolved_materialize by done. apply elem_of_resolved_list. exists en.
  split; [|done]. rewrite !elem_of_filter_bool. unfold is_deny. rewrite Hd, Hdeny. split; [done|].
  apply existsb_exists. exists ea. split.
  { apply filter_In. rewrite <- list_elem_of_In, Haa. done. }
  unfold deny_constrains. rewrite !resolve_permission_entry, Hr, Hra by done.
  by destruct (entry_path en).
Qed.

Lemma kept_denials_nil src cwd : kept_denials H src [] cwd = [].
Proof. unfold kept_denials. by induction (List.filter is_deny src). Qed.

Lemma kept_denied src acc d :
  d ∈ resolved_entries_with_cwd H (restricted (kept_denials H src acc (display c))) (display c) ->
  resolved_access d = Deny.
Proof.
  unfold kept_denials. rewrite resolved_materialize by done. intros Hd.
  apply elem_of_resolved_list in Hd as (en & [[_ Hin]%elem_of_filter_bool _]%elem_of_filter_bool & _ & <-).
  unfold is_deny in Hin. by bool_to_prop.
Qed.

Lemma intersection_clamped requested granted m fs :
  Forall entry_ok (fsp_entries granted) ->
  fsp_entries fs = push_missing (accepted requested granted m)
    (kept_denials H (fsp_entries requested) (accepted requested granted m) (display c)
     ++ kept_denials H (fsp_entries granted) (accepted requested granted m) (display c)) ->
  let acc := resolved_entries_with_cwd H (restricted (accepted requested granted m)) (display c) in
  exists den : list ResolvedFileSystemEntry,
    (forall e, e ∈ resolved_entries_with_cwd H (restricted (fsp_entries fs)) (display c) <-> e ∈ acc \/ e ∈ den)
    /\ (forall a, a ∈ acc -> can_read (resolved_access a) = true
          /\ a ∈ resolved_entries_with_cwd H (restricted (fsp_entries granted)) (display c)
          /\ access_covers (decide_access (resolved_path a)
               (resolved_entries_with_cwd H (restricted (fsp_entries requested)) (display c))) (resolved_access a) = true)
    /\ (forall d, d ∈ den -> resolved_access d = Deny)
    /\ forall src, src = fsp_entries requested \/ src = fsp_entries granted ->
       forall d a, d ∈ resolved_entries_with_cwd H (restricted src) (display c) -> resolved_access d = Deny ->
         a ∈ acc -> paths_overlap (resolved_path d) (resolved_path a) = true -> d ∈ den.
Proof.
  intros Hg He acc. set (A := accepted requested granted m) in *.
  set (Kr := kept_denials H (fsp_entries requested) A (display c)) in *.
  set (Kg := kept_denials H (fsp_entries granted) A (display c)) in *.
  exists (resolved_entries_with_cwd H (restricted Kr) (display c) ++ resolved_entries_with_cwd H (restricted Kg) (display c)).
  split_and!.
  - intros e. rewrite He, push_missing_app, !resolved_push_missing, elem_of_app by done. tauto.
  - intros a Ha. by eapply resolved_accepted.
  - intros d [Hd|Hd]%elem_of_app; by eapply kept_denied.
  - intros src Hsrc d a Hd Hdd Ha Hov. apply elem_of_app.
    destruct (resolved_accepted requested granted m a Hg Ha) as (Hread & _).
    destruct Hsrc as [->| ->]; [left|right]; by eapply kept_overlapping.
Qed.
End intersection.

(** What a policy made of permissions lets a command do at a path. *)
Definition permits (H : Host) (cwd : path) (may : FileSystemAccessMode -> bool) (fs : FileSystemPermissions) (t : path) :
  bool :=
  may (resolve_access_with_cwd H (policy_from_permissions fs) (display t) (display cwd)).

Lemma permits_decide H cwd may fs t :
  absolute_normalized t ->
  permits H cwd may fs t = may (decide_access t (resolved_entries_with_cwd H (restricted (fsp_entries fs)) (display cwd))).
Proof. intros Ht. unfold permits. by rewrite resolve_access_display. Qed.

(** A path below [q], a place the permissions let be written, is writable as
    well, unless one of their read-only entries strictly below [q] covers it. *)
Definition writes_below (H : Host) (cwd : path) (fs : FileSystemPermissions) (q t : path) : Prop :=
  permits H cwd can_write fs q = true
  /\ (permits H cwd can_write fs t = true
      \/ exists e, e ∈ resolved_entries_with_cwd H (policy_from_permissions fs) (display cwd)
           /\ resolved_access e = Read /\ path_starts_with t (resolved_path e) = true
           /\ path_starts_with (resolved_path e) q = true /\ resolved_path e <> q).

Lemma permits_below H cwd fs q t :
  absolute_normalized q -> absolute_normalized t -> path_starts_with t q = true ->
  permits H cwd can_write fs q = true -> permits H cwd can_read fs t = true -> writes_below H cwd fs q t.
Proof.
  intros Hq Ht Hqt Hw Hr. split; [done|]. rewrite !permits_decide in * by done.
  destruct (writable_below t q _ Hqt Hw Hr) as [?|?]; [by left|by right].
Qed.

(** C10. Intersecting a request with a grant always gives a result (the
    [unreachable!] behind it is unreachable), whose network is enabled exactly
    when both enable it, and which lets a command read only what the request and
    the grant both let it read.  A path it lets a command write lies at or below
    a place both let it write, and either side lets it write the path itself
    unless a read-only entry of that side lies strictly between that place and
    the path: such entries are the one restriction the intersection loses. *)
Theorem intersection_within_request (H : Host) (build : str -> result str (path -> bool))
    (requested granted : AdditionalPermissionProfile) (cwd : path) :
  host_ok H -> absolute_normalized cwd ->
  Forall entry_ok (fsp_entries (from_option id fsp_default (add_file_system granted))) ->
  exists r, intersect_permission_profiles H build requested granted (display cwd) = Some r
    /\ (is_network_enabled (add_network r)
        = is_network_enabled (add_network requested) && is_network_enabled (add_network granted))
    /\ forall fs t, add_file_system r = Some fs -> absolute_normalized t ->
       exists rfs gfs, add_file_system requested = Some rfs /\ add_file_system granted = Some gfs
         /\ (permits H cwd can_read fs t = true ->
               permits H cwd can_read rfs t = true /\ permits H cwd can_read gfs t = true)
         /\ (permits H cwd can_write fs t = true ->
               exists q, path_starts_with t q = true /\ writes_below H cwd rfs q t /\ writes_below H cwd gfs q t).
Proof.
  intros Hok Hc Hg. unfold intersect_permission_profiles.
  set (net := if _ : bool then Some (mkNetPerm (Some true)) else None).
  assert (is_network_enabled net = is_network_enabled (add_network requested) && is_network_enabled (add_network granted))
    as Hnet by by unfold net; case_goal.
  destruct (add_file_system requested) as [rfs|]; [|by exists (mkAdditional net None); split_and!].
  set (gfs := from_option id fsp_default (add_file_system granted)) in *.
  destruct (intersect_file_system_eq H build cwd rfs gfs) as (m & fs & Hi & He). rewrite Hi.
  eexists. split; [done|]. cbn [add_network add_file_system filter_option]. split; [done|].
  intros fs' t Hfs Ht. destruct (negb (fsp_is_empty fs)) eqn:Hemp; simplify_eq.
  destruct (intersection_clamped H Hok cwd Hc rfs gfs m fs' Hg He) as (den & Hall & Hacc & Hden & Hkeep).
  set (acc := resolved_entries_with_cwd H (restricted (accepted H cwd rfs gfs m)) (display cwd)) in *.
  exists rfs, gfs. split; [done|]. split.
  { subst gfs. destruct (add_file_system granted) as [g|]; [done|]. cbn in *.
    unfold fsp_is_empty in Hemp. rewrite He in Hemp.
    unfold accepted in Hemp. cbn in Hemp. by rewrite !kept_denials_nil in Hemp. }
  assert (permits H cwd can_read fs' t = true ->
    permits H cwd can_read rfs t = true /\ permits H cwd can_read gfs t = true) as Hread.
  { rewrite !permits_decide by done. intros Hr. split.
    - eapply (clamped_read acc den); [by apply Hden|by apply Hkeep; left| |exact Hall|done].
      intros a Ha. left. by apply Hacc.
    - eapply (clamped_read acc den); [by apply Hden|by apply Hkeep; right| |exact Hall|done].
      intros a Ha. right. by apply Hacc. }
  split; [done|]. intros Hw.
  destruct Hread as [Hrr Hrg]; [by unfold permits in *; destruct (resolve_access_with_cwd _ _ _ _)|].
  rewrite permits_decide in Hw by done.
  destruct (clamped_write acc den (resolved_entries_with_cwd H (restricted (fsp_entries gfs)) (display cwd)))
    with (t := t) (all := resolved_entries_with_cwd H (restricted (fsp_entries fs')) (display cwd))
    as (a & Ha & Hp & Hwa & Hwg); [by apply Hden|by apply Hkeep; right| |done|done|].
  { intros a Ha. right. by apply Hacc. }
  destruct (Hacc a Ha) as (_ & Hin & Hcov). rewrite Hwa in Hcov. exists (resolved_path a).
  assert (absolute_normalized (resolved_path a)) as Hn
    by by eapply (resolved_ok H Hok (restricted (fsp_entries gfs))).
  split; [done|]. split; apply permits_below; rewrite ?permits_decide in * by done; done.
Qed.

Definition sample_request : AdditionalPermissionProfile :=
  mkAdditional (Some (mkNetPerm (Some true)))
    (Some (mkFsPerm [mkEntry (FsPath dir_a) Write; secret; mkEntry (FsSpecial (ProjectRoots None)) Read] None)).
Definition sample_grant : AdditionalPermissionProfile :=
  mkAdditional None (Some (mkFsPerm [mkEntry (FsSpecial Root) Read; mkEntry (FsPath dir_a) Write] None)).

Lemma intersection_within_request_witness :
  exists r fs, intersect_permission_profiles empty_host no_globs sample_request sample_grant (lit "/w") = Some r
    /\ add_file_system r = Some fs
    /\ fsp_entries fs = [mkEntry (FsPath dir_a) Write; secret]
    /\ permits empty_host (components (lit "/w")) can_read (mkFsPerm [mkEntry (FsSpecial Root) Read; mkEntry (FsPath dir_a) Write] None)
         (components (lit "/a/x")) = true.
Proof.
  destruct (intersection_within_request empty_host no_globs sample_request sample_grant (components (lit "/w")))
    as (r & Hr & _ & Hfs);
    [apply empty_host_ok|by apply absolute_normalizedb_true|repeat constructor; by apply absolute_normalizedb_true|].
  change (display (components (lit "/w"))) with (lit "/w") in Hr.
  destruct r as [net [fs|]]; [|by vm_compute in Hr].
  exists (mkAdditional net (Some fs)), fs. split; [done|]. split; [done|].
  assert (fs = mkFsPerm [mkEntry (FsPath dir_a) Write; secret] None) as -> by (vm_compute in Hr; by injection Hr).
  split; [done|].
  destruct (Hfs _ (components (lit "/a/x")) eq_refl) as (rfs & gfs & Hrq & Hgr & Hread & _);
    [by apply absolute_normalizedb_true|].
  injection Hgr as <-. apply Hread. by vm_compute.
Defined.

(** Only denials of the request constrain a grant: a read-only place of the
    request below a writable one is not kept, and the result lets a command
    write there. *)
Lemma intersection_drops_read_only_place :
  let docs := components (lit "/a/docs") in
  let requested := mkFsPerm [mkEntry (FsPath dir_a) Write; mkEntry (FsPath docs) Read] None in
  let granted := mkFsPerm [mkEntry (FsPath dir_a) Write] None in
  intersect_permission_profiles empty_host no_globs (mkAdditional None (Some requested))
    (mkAdditional None (Some granted)) (lit "/w") = Some (mkAdditional None (Some granted))
  /\ permits empty_host (components (lit "/w")) can_write requested docs = false
  /\ permits empty_host (components (lit "/w")) can_write granted docs = true.
Proof. by vm_compute. Qed.

(** ** Denied patterns *)

Lemma vec_dedup_elem (l : list str) x : x ∈ vec_dedup l <-> x ∈ l.
Proof.
  induction l as [|y l IH]; [done|]. destruct l as [|z l]; [done|].
  assert (vec_dedup (y :: z :: l) = if bool_decide (y = z) then vec_dedup (z :: l) else y :: vec_dedup (z :: l))
    as -> by done.
  case_bool_decide as E; [subst|]; rewrite ?elem_of_cons, ?IH, ?elem_of_cons; tauto.
Qed.

Lemma build_loop_mono build inv ms patterns inv' ms' :
  build_loop build FailClosed inv ms patterns = Ok (inv', ms') ->
  (inv = true -> inv' = true) /\ (forall f, f ∈ ms -> f ∈ ms').
Proof.
  revert inv ms. induction patterns as [|p ps IH]; intros inv ms; cbn [build_loop]; [by intros [= -> ->]|].
  destruct (build p); intros Hb; apply IH in Hb as [Hi Hm]; split; [done| |naive_solver|done].
  intros f Hf. apply Hm. set_solver.
Qed.

(** Every pattern that compiles is matched against; one that does not makes the
    matcher deny everything. *)
Lemma build_loop_matchers build inv ms patterns inv' ms' g :
  build_loop build FailClosed inv ms patterns = Ok (inv', ms') -> g ∈ patterns ->
  match build g with Ok f => f ∈ ms' | Err _ => inv' = true end.
Proof.
  revert inv ms. induction patterns as [|p ps IH]; intros inv ms Hb Hg; [set_solver|].
  cbn [build_loop] in Hb. apply elem_of_cons in Hg as [<-|Hg].
  - destruct (build g); apply build_loop_mono in Hb as [Hi Hm]; [apply Hm; set_solver|by apply Hi].
  - destruct (build p); by eapply IH.
Qed.

(** A pattern as the matcher compiles it, on a path. *)
Definition glob_denies (build : str -> result str (path -> bool)) (g : str) (t : path) : bool :=
  match build g with Ok f => f t | Err _ => true end.

Lemma matcher_denies_globs H build pol cwd g t :
  policy_kind pol = Restricted -> absolute_normalized t -> g ∈ get_unreadable_globs_with_cwd H pol cwd ->
  glob_denies build g t = true ->
  exists m, matcher_new H build pol cwd = Some (Some m) /\ is_read_denied H m (display t) = true.
Proof.
  intros Hk Ht Hg Hden.
  assert (has_denied_read_restrictions pol = true) as Hd.
  { unfold get_unreadable_globs_with_cwd in Hg. unfold has_denied_read_restrictions.
    destruct (is_restricted pol); cbn [negb] in Hg; [|set_solver]. cbn.
    rewrite vec_dedup_elem, sort_by_perm in Hg.
    apply list_elem_of_omap in Hg as (e & [He Hde]%elem_of_filter_bool & _).
    apply existsb_exists. exists e. split; [by apply list_elem_of_In|done]. }
  unfold matcher_new, matcher_build. rewrite Hd. cbn [negb].
  destruct (build_loop_fail_closed build false [] (get_unreadable_globs_with_cwd H pol cwd)) as (i & ms & Hb & _).
  rewrite Hb. eexists. split; [done|]. unfold is_read_denied. cbn [invalid_pattern denied_candidates deny_read_matchers].
  pose proof (build_loop_matchers _ _ _ _ _ _ g Hb Hg) as Hm. unfold glob_denies in Hden.
  destruct (build g) as [f|]; [|by rewrite Hm]. destruct i; [done|]. case_goal; [done|].
  apply existsb_exists. exists f. split; [by apply list_elem_of_In|]. apply existsb_exists. exists t.
  split; [|done]. apply list_elem_of_In, candidates_has_absolute. by apply abs_from_display.
Qed.

(** A resolved pattern among the deny entries is matched as it is. *)
Lemma unreadable_glob_resolved H fs cwd q :
  absolute_normalized cwd -> host_ok H ->
  absolute_normalized q -> mkEntry (FsGlobPattern (display q)) Deny ∈ fsp_entries fs ->
  display q ∈ get_unreadable_globs_with_cwd H (policy_from_permissions fs) (display cwd).
Proof.
  intros Hc Hok Hq Hin. unfold get_unreadable_globs_with_cwd. 
  assert (is_restricted (policy_from_permissions fs) = true) as -> by done. cbn [negb policy_entries policy_from_permissions].
  rewrite vec_dedup_elem, sort_by_perm. apply list_elem_of_omap. exists (mkEntry (FsGlobPattern (display q)) Deny).
  split; [by apply elem_of_filter_bool|]. cbn [entry_path]. do 2 f_equal.
  unfold resolve_path_against_base, absolutize_from, path_with_base. rewrite expand_display by done.
  pose proof (normalize_normalized q Hq). by destruct Hq as (? & -> & _).
Qed.

Lemma push_missing_glob es new g :
  mkEntry (FsGlobPattern g) Deny ∈ new -> mkEntry (FsGlobPattern g) Deny ∈ push_missing es new.
Proof.
  intros Hin. destruct (push_missing_has es new _ Hin) as (f & Hf & [->|Heq]); [done|].
  destruct f as [[p|g'|v] a]; unfold entry_eqb in Heq; cbn in Heq; try done.
  by apply andb_true_iff in Heq as [->%bool_decide_eq_true ->%bool_decide_eq_true].
Qed.

(** A pattern the request or the grant denies still denies after the
    intersection: the result's own matcher refuses every path that the pattern
    matches, that lies below the literal part of the pattern and that the
    entries of the result would let a command read. *)
Theorem intersection_keeps_denied_globs (H : Host) (build : str -> result str (path -> bool))
    (requested granted : AdditionalPermissionProfile) (cwd t prefix : path) (pattern : str)
    (src fs : FileSystemPermissions) (net : option NetworkPermissions) :
  host_ok H -> absolute_normalized cwd -> absolute_normalized t ->
  Forall entry_ok (fsp_entries (from_option id fsp_default (add_file_system granted))) ->
  intersect_permission_profiles H build requested granted (display cwd) = Some (mkAdditional net (Some fs)) ->
  add_file_system requested = Some src \/ add_file_system granted = Some src ->
  mkEntry (FsGlobPattern pattern) Deny ∈ fsp_entries src ->
  glob_static_prefix_path H pattern (display cwd) = Some prefix -> path_starts_with t prefix = true ->
  permits H cwd can_read fs t = true ->
  glob_denies build (display (resolve_path_against_base (home H) pattern cwd)) t = true ->
  exists m, matcher_new H build (policy_from_permissions fs) (display cwd) = Some (Some m)
    /\ is_read_denied H m (display t) = true.
Proof.
  intros Hok Hc Ht Hg Hi Hsrc Hin Hpre Htp Hread Hden.
  eapply matcher_denies_globs; [done..| |exact Hden]. clear Hden.
  unfold intersect_permission_profiles in Hi. destruct (add_file_system requested) as [rfs|]; [|done].
  set (gfs := from_option id fsp_default (add_file_system granted)) in *.
  destruct (intersect_file_system_eq H build cwd rfs gfs) as (m & fs' & Hi' & He). rewrite Hi' in Hi.
  cbn [filter_option] in Hi. destruct (negb (fsp_is_empty fs')); simplify_eq.
  assert (src = rfs \/ src = gfs) as Hs by (destruct Hsrc as [|E]; [left; congruence|right; subst gfs; by rewrite E]).
  destruct (intersection_clamped H Hok cwd Hc rfs gfs m fs Hg He) as (den & Hall & Hacc & Hd & Hkeep).
  rewrite permits_decide in Hread by done.
  set (acc := resolved_entries_with_cwd H (restricted (accepted H cwd rfs gfs m)) (display cwd)) in *.
  destruct (clamped_decider acc den (resolved_entries_with_cwd H (restricted (fsp_entries src)) (display cwd)))
    with (t := t) (all := resolved_entries_with_cwd H (restricted (fsp_entries fs)) (display cwd))
    as (a & Ha & Hp & _); [exact Hd|apply Hkeep; naive_solver|exact Hall|done|].
  pose proof (overlap_of_common t prefix (resolved_path a) Htp Hp) as Hov.
  pose proof (proj1 (Hacc a Ha)) as Hra.
  pose proof (kept_glob H cwd Hc (fsp_entries src) _ pattern prefix a Hin Hpre Ha Hra Hov) as Hkg.
  apply unreadable_glob_resolved; [done..|by apply (abs_join_ok H Hok)|]. rewrite He. apply push_missing_glob.
  apply elem_of_app. destruct Hs as [->| ->]; [by left|by right].
Qed.

Definition env_globs (_ : str) : result str (path -> bool) :=
  Ok (fun p => match file_name p with Some name => ends_with (lit ".env") name | None => false end).
Definition glob_request : AdditionalPermissionProfile :=
  mkAdditional None (Some (mkFsPerm [mkEntry (FsPath dir_a) Write; mkEntry (FsGlobPattern (lit "**/*.env")) Deny] None)).

Lemma intersection_keeps_denied_globs_witness :
  exists fs m, intersect_permission_profiles empty_host env_globs glob_request sample_grant (lit "/")
      = Some (mkAdditional None (Some fs))
    /\ matcher_new empty_host env_globs (policy_from_permissions fs) (lit "/") = Some (Some m)
    /\ is_read_denied empty_host m (lit "/a/x.env") = true /\ is_read_denied empty_host m (lit "/a/x.rs") = false.
Proof.
  set (fs := mkFsPerm [mkEntry (FsPath dir_a) Write; mkEntry (FsGlobPattern (lit "/**/*.env")) Deny] None).
  exists fs.
  destruct (intersection_keeps_denied_globs empty_host env_globs glob_request sample_grant [RootDir]
              (components (lit "/a/x.env")) [RootDir] (lit "**/*.env")
              (mkFsPerm [mkEntry (FsPath dir_a) Write; mkEntry (FsGlobPattern (lit "**/*.env")) Deny] None) fs None)
    as (m & Hm & Hd);
    [apply empty_host_ok|apply absolute_normalized_root|by apply absolute_normalizedb_true
    |repeat constructor; by apply absolute_normalizedb_true|by vm_compute|by left|set_solver|by vm_compute..|].
  exists m. split; [by vm_compute|]. split; [exact Hm|]. split; [exact Hd|].
  vm_compute in Hm. injection Hm as <-. by vm_compute.
Defined.

(** ** Laying permissions over a policy *)

(** The entries an overlay adds. *)
Definition overlay_entries (add : option AdditionalPermissionProfile) : list FileSystemSandboxEntry :=
  from_option fsp_entries [] (add ≫= add_file_system).

Lemma effective_policy_kind pol add :
  policy_kind (effective_file_system_sandbox_policy pol add) = policy_kind pol.
Proof.
  unfold effective_file_system_sandbox_policy, merge_file_system_policy_with_additional_permissions.
  by destruct pol as [[| |] d es], add as [[n [fs|]]|]; cbn; repeat case_goal.
Qed.

Lemma effective_policy_unrestricted pol add :
  policy_kind pol <> Restricted -> effective_file_system_sandbox_policy pol add = pol.
Proof.
  intros Hp. unfold effective_file_system_sandbox_policy, merge_file_system_policy_with_additional_permissions.
  destruct add as [[n [fs|]]|]; [|done..]. cbn. destruct (fsp_is_empty fs); [done|]. by destruct (policy_kind pol).
Qed.

Lemma effective_policy_entries pol add :
  policy_kind pol = Restricted ->
  policy_entries (effective_file_system_sandbox_policy pol add) = push_missing (policy_entries pol) (overlay_entries add).
Proof.
  unfold effective_file_system_sandbox_policy, merge_file_system_policy_with_additional_permissions, overlay_entries.
  intros Hk. destruct add as [[n [fs|]]|]; cbn; [|done..]. rewrite Hk. unfold fsp_is_empty.
  by destruct (fsp_entries fs).
Qed.

Lemma resolved_entries_of H pol cwd :
  resolved_entries_with_cwd H pol cwd = resolved_entries_with_cwd H (restricted (policy_entries pol)) cwd.
Proof. done. Qed.

Lemma effective_network pol add :
  net_is_enabled (effective_network_sandbox_policy pol add)
  = net_is_enabled pol || is_network_enabled (add ≫= add_network).
Proof.
  unfold effective_network_sandbox_policy, merge_network_access.
  by destruct add as [[[[[[|]|]]|] fs]|], pol.
Qed.

Lemma effective_profile_parts prof add :
  exists eff, effective_permission_profile prof add = Some eff
    /\ enforcement eff = enforcement prof
    /\ policy_kind (file_system_sandbox_policy eff) = policy_kind (file_system_sandbox_policy prof)
    /\ (policy_kind (file_system_sandbox_policy prof) = Restricted ->
        policy_entries (file_system_sandbox_policy eff)
        = push_missing (policy_entries (file_system_sandbox_policy prof)) (overlay_entries add))
    /\ network_sandbox_policy eff = effective_network_sandbox_policy (network_sandbox_policy prof) add.
Proof.
  unfold effective_permission_profile, to_runtime_permissions, from_runtime_permissions_with_enforcement, managed_profile,
    managed_from_sandbox_policy. rewrite effective_policy_kind.
  destruct prof as [[es d|] n| |n]; cbn [file_system_sandbox_policy to_sandbox_policy policy_kind unrestricted external_sandbox];
    eexists; (split; [reflexivity|]); cbn; split_and!; try done.
  - intros _. by rewrite (effective_policy_entries (mkFsPolicy Restricted d es)).
  - unfold effective_network_sandbox_policy. by destruct add.
Qed.

(** Laying additional permissions over a profile always gives a profile of
    the same enforcement; its network is enabled exactly when the profile or the
    overlay enables it; a managed file system decides every path by the most
    specific entry of the profile and the overlay together, and an unrestricted
    one stays unrestricted. *)
Theorem effective_profile_spec (H : Host) (prof : PermissionProfile) (add : option AdditionalPermissionProfile)
    (t : path) (cwd : str) :
  host_ok H -> absolute_normalized t ->
  exists eff, effective_permission_profile prof add = Some eff
    /\ enforcement eff = enforcement prof
    /\ (net_is_enabled (network_sandbox_policy eff)
        = net_is_enabled (network_sandbox_policy prof) || is_network_enabled (add ≫= add_network))
    /\ if is_restricted (file_system_sandbox_policy prof)
       then decides t (resolved_entries_with_cwd H (file_system_sandbox_policy prof) cwd
                       ++ resolved_entries_with_cwd H (restricted (overlay_entries add)) cwd)
              (resolve_access_with_cwd H (file_system_sandbox_policy eff) (display t) cwd)
       else resolve_access_with_cwd H (file_system_sandbox_policy eff) (display t) cwd = Write.
Proof.
  intros Hok Ht. destruct (effective_profile_parts prof add) as (eff & He & Henf & Hk & Hes & Hn).
  exists eff. split_and!; [done|done|by rewrite Hn, effective_network|].
  unfold is_restricted. case_bool_decide as Hr; [|by apply resolve_access_unrestricted; congruence].
  rewrite resolve_access_display by (done || congruence). apply decide_access_iff, decide_access_ext. intros e.
  rewrite elem_of_app, (resolved_entries_of H (file_system_sandbox_policy eff)), Hes by done.
  rewrite resolved_push_missing by done. by rewrite <- resolved_entries_of.
Qed.

Lemma effective_profile_spec_witness :
  exists eff, effective_permission_profile (ProfileManaged (ManagedRestricted [mkEntry (FsSpecial Root) Read] None) NetRestricted)
      (Some sample_request) = Some eff
    /\ net_is_enabled (network_sandbox_policy eff) = true
    /\ resolve_access_with_cwd empty_host (file_system_sandbox_policy eff) (lit "/a/x") (lit "/w") = Write
    /\ resolve_access_with_cwd empty_host (file_system_sandbox_policy eff) (lit "/a/secret") (lit "/w") = Deny.
Proof.
  destruct (effective_profile_spec empty_host
    (ProfileManaged (ManagedRestricted [mkEntry (FsSpecial Root) Read] None) NetRestricted) (Some sample_request)
    (components (lit "/a/x")) (lit "/w")) as (eff & He & _ & Hn & _);
    [apply empty_host_ok|by apply absolute_normalizedb_true|].
  exists eff. split; [exact He|]. split; [exact Hn|]. vm_compute in He. injection He as <-. by vm_compute.
Defined.

(** ** Merging overlays *)

(** The deeper of two scans; no scan at all is the least. *)
Definition join_depth (l r : option GlobScanDepth) : option GlobScanDepth :=
  match l, r with
  | Some Unbounded, _ | _, Some Unbounded => Some Unbounded
  | Some (Bounded m), Some (Bounded n) => Some (Bounded (N.max m n))
  | Some d, None | None, Some d => Some d
  | None, None => None
  end.
Definition depth_limit (d : option GlobScanDepth) : option N :=
  match d with Some (Bounded n) => Some n | _ => None end.

Lemma join_depth_assoc a b c : join_depth (join_depth a b) c = join_depth a (join_depth b c).
Proof.
  destruct a as [[|]|], b as [[|]|], c as [[|]|]; cbn; try done. by rewrite N.max_assoc.
Qed.

Lemma join_depth_None_l d : join_depth None d = d.
Proof. by destruct d as [[|]|]. Qed.
Lemma join_depth_None_r d : join_depth d None = d.
Proof. by destruct d as [[|]|]. Qed.

Lemma merge_depth_join es d fs e :
  merge_glob_scan_max_depth es d fs e
  = depth_limit (join_depth (effective_glob_scan_depth es d) (effective_glob_scan_depth fs e)).
Proof.
  unfold merge_glob_scan_max_depth.
  by destruct (effective_glob_scan_depth es d) as [[|]|], (effective_glob_scan_depth fs e) as [[|]|].
Qed.

Lemma existsb_push_missing es new :
  existsb is_deny_glob (push_missing es new) = existsb is_deny_glob es || existsb is_deny_glob new.
Proof.
  apply eq_true_iff_eq. rewrite orb_true_iff, !existsb_exists. split.
  - intros (e & [Hin|Hin]%list_elem_of_In%push_missing_only & He); [left|right]; exists e;
      by rewrite <- list_elem_of_In.
  - intros [(e & Hin & He)|(e & Hin & He)].
    + exists e. rewrite <- list_elem_of_In in *. split; [by apply push_missing_keeps|done].
    + unfold is_deny_glob, is_deny in He. destruct e as [[p|g|v] a]; bool_to_prop; try done. cbn in *. subst a.
      exists (mkEntry (FsGlobPattern g) Deny). rewrite <- list_elem_of_In in *.
      split; [by apply push_missing_glob|done].
Qed.

(** The merged limit is read back as the deeper of the two scans. *)
Lemma effective_depth_merged es d fs e :
  effective_glob_scan_depth (push_missing es fs) (merge_glob_scan_max_depth es d fs e)
  = join_depth (effective_glob_scan_depth es d) (effective_glob_scan_depth fs e).
Proof.
  rewrite merge_depth_join. unfold effective_glob_scan_depth. rewrite existsb_push_missing.
  by destruct (existsb is_deny_glob es), (existsb is_deny_glob fs), d, e.
Qed.

(** The invariant of [NonZeroUsize]. *)
Definition fsp_ok (fs : FileSystemPermissions) : Prop := fsp_glob_scan_max_depth fs <> Some 0%N.
Definition additional_ok (a : AdditionalPermissionProfile) : Prop := from_option fsp_ok True (add_file_system a).

Lemma merge_depth_non_zero a b :
  fsp_ok a -> fsp_ok b ->
  let d := merge_glob_scan_max_depth (fsp_entries a) (fsp_glob_scan_max_depth a) (fsp_entries b) (fsp_glob_scan_max_depth b) in
  d ≫= non_zero = d.
Proof.
  unfold fsp_ok, merge_glob_scan_max_depth, effective_glob_scan_depth. intros Ha Hb.
  assert (forall n : N, n <> 0%N -> non_zero n = Some n) as Hnz.
  { intros n Hn. unfold non_zero. by rewrite (proj2 (N.eqb_neq n 0)). }
  destruct (existsb _ (fsp_entries a)), (existsb _ (fsp_entries b)), (fsp_glob_scan_max_depth a) as [m|],
    (fsp_glob_scan_max_depth b) as [n|]; cbn; try done; apply Hnz; try congruence.
  assert (m <> 0%N) by congruence. lia.
Qed.

Lemma merged_file_system a b :
  merge_permission_profiles (Some a) (Some b) ≫= add_file_system
  = match add_file_system a, add_file_system b with
    | Some fa, Some fb =>
        filter_option (fun fs => negb (fsp_is_empty fs))
          (Some (mkFsPerm (merge_permission_entries (fsp_entries fa) (fsp_entries fb))
             (merge_glob_scan_max_depth (fsp_entries fa) (fsp_glob_scan_max_depth fa)
                (fsp_entries fb) (fsp_glob_scan_max_depth fb) ≫= non_zero)))
    | Some fs, None | None, Some fs => Some fs
    | None, None => None
    end.
Proof.
  unfold merge_permission_profiles. destruct a as [na [fa|]], b as [nb [fb|]]; cbn [add_file_system add_network].
  all: unfold filter_option; destruct (is_network_enabled na || is_network_enabled nb); cbn; try done.
  all: by destruct (negb (fsp_is_empty _)).
Qed.

Lemma merged_network a b :
  is_network_enabled (merge_permission_profiles (Some a) (Some b) ≫= add_network)
  = is_network_enabled (add_network a) || is_network_enabled (add_network b).
Proof.
  unfold merge_permission_profiles, filter_option, additional_is_empty. cbv zeta.
  destruct (is_network_enabled (add_network a) || is_network_enabled (add_network b)); [done|]. cbn [add_network].
  by case_goal.
Qed.

Lemma push_overlay_merged es a b :
  push_missing es (overlay_entries (merge_permission_profiles (Some a) (Some b)))
  = push_missing (push_missing es (overlay_entries (Some a))) (overlay_entries (Some b)).
Proof.
  unfold overlay_entries. rewrite merged_file_system. cbn [mbind option_bind].
  destruct (add_file_system a) as [fa|], (add_file_system b) as [fb|]; cbn [from_option]; [|done..].
  rewrite <- push_missing_app, <- (push_missing_push es [] (fsp_entries fa ++ _)). unfold filter_option, fsp_is_empty, merge_permission_entries.
  cbn [fsp_entries]. by destruct (push_missing [] _).
Qed.

Definition overlay_depth (add : option AdditionalPermissionProfile) : option N :=
  (add ≫= add_file_system) ≫= fsp_glob_scan_max_depth.
Definition is_nil (es : list FileSystemSandboxEntry) : bool := match es with [] => true | _ => false end.

(** The depth of a policy under an overlay. *)
Lemma effective_policy_depth pol add :
  policy_kind pol = Restricted ->
  glob_scan_max_depth (effective_file_system_sandbox_policy pol add)
  = if is_nil (overlay_entries add) then glob_scan_max_depth pol
    else merge_glob_scan_max_depth (policy_entries pol) (glob_scan_max_depth pol) (overlay_entries add)
           (overlay_depth add).
Proof.
  unfold effective_file_system_sandbox_policy, merge_file_system_policy_with_additional_permissions, overlay_entries.
  intros Hk. destruct add as [[n [fs|]]|]; cbn; [|done..]. rewrite Hk. unfold fsp_is_empty. by destruct (fsp_entries fs).
Qed.

Lemma push_missing_nil_iff new : is_nil (push_missing [] new) = is_nil new.
Proof.
  destruct new as [|e new]; [done|]. destruct (push_missing_has [] (e :: new) e) as (f & Hf & _); [set_solver|].
  destruct (push_missing [] (e :: new)); [set_solver|done].
Qed.

(** The merged overlay is empty when both are, and scans as deep as the deeper. *)
Lemma merged_overlay a b :
  additional_ok a -> additional_ok b ->
  let m := merge_permission_profiles (Some a) (Some b) in
  is_nil (overlay_entries m) = is_nil (overlay_entries (Some a)) && is_nil (overlay_entries (Some b))
  /\ effective_glob_scan_depth (overlay_entries m) (overlay_depth m)
    = join_depth (effective_glob_scan_depth (overlay_entries (Some a)) (overlay_depth (Some a)))
        (effective_glob_scan_depth (overlay_entries (Some b)) (overlay_depth (Some b))).
Proof.
  unfold additional_ok, overlay_entries, overlay_depth. intros Ha Hb. cbv zeta. rewrite merged_file_system.
  cbn [mbind option_bind]. destruct (add_file_system a) as [fa|], (add_file_system b) as [fb|]; cbn [from_option] in *.
  2-4: cbn [mbind option_bind from_option is_nil andb]; change (effective_glob_scan_depth [] None) with (@None GlobScanDepth);
    by rewrite ?andb_true_r, ?join_depth_None_r, ?join_depth_None_l.
  rewrite (merge_depth_non_zero fa fb Ha Hb). unfold filter_option, merge_permission_entries.
  pose proof (push_missing_nil_iff (fsp_entries fa ++ fsp_entries fb)) as Hnil.
  set (es := push_missing [] _) in *. set (d := merge_glob_scan_max_depth _ _ _ _) in *.
  assert (effective_glob_scan_depth es d = join_depth (effective_glob_scan_depth (fsp_entries fa) (fsp_glob_scan_max_depth fa))
    (effective_glob_scan_depth (fsp_entries fb) (fsp_glob_scan_max_depth fb))) as Hd.
  { subst es d. rewrite merge_depth_join. unfold effective_glob_scan_depth.
    rewrite existsb_push_missing, existsb_app. cbn [existsb orb].
    by destruct (existsb _ (fsp_entries fa)), (existsb _ (fsp_entries fb)), (fsp_glob_scan_max_depth fa),
      (fsp_glob_scan_max_depth fb). }
  assert (is_nil es = is_nil (fsp_entries fa) && is_nil (fsp_entries fb)) as He.
  { rewrite Hnil. by destruct (fsp_entries fa). }
  unfold fsp_is_empty. cbn [fsp_entries]. destruct es as [|e0 es0]; [|done]. cbn [negb].
  split; [exact He|exact Hd].
Qed.

Lemma merged_depth pol a b :
  additional_ok a -> additional_ok b ->
  glob_scan_max_depth (effective_file_system_sandbox_policy pol (merge_permission_profiles (Some a) (Some b)))
  = glob_scan_max_depth
      (effective_file_system_sandbox_policy (effective_file_system_sandbox_policy pol (Some a)) (Some b)).
Proof.
  intros Ha Hb. destruct (decide (policy_kind pol = Restricted)) as [Hr|Hr].
  - destruct (merged_overlay a b Ha Hb) as [Hnil Hd].
    rewrite !effective_policy_depth by by rewrite ?effective_policy_kind.
    rewrite effective_policy_entries, Hnil, !merge_depth_join, Hd by done.
    destruct (is_nil (overlay_entries (Some a))) eqn:Hna, (is_nil (overlay_entries (Some b))) eqn:Hnb; cbn [andb].
    + done.
    + destruct (overlay_entries (Some a)); [|done]. cbn [effective_glob_scan_depth existsb]. by rewrite join_depth_None_l.
    + destruct (overlay_entries (Some b)); [|done]. cbn [effective_glob_scan_depth existsb]. by rewrite join_depth_None_r.
    + rewrite <- (merge_depth_join (policy_entries pol) _ (overlay_entries (Some a))), effective_depth_merged. by rewrite join_depth_assoc.
  - by rewrite (effective_policy_unrestricted pol (Some a)), !(effective_policy_unrestricted pol).
Qed.

Lemma merged_policy pol a b :
  additional_ok a -> additional_ok b ->
  effective_file_system_sandbox_policy pol (merge_permission_profiles (Some a) (Some b))
  = effective_file_system_sandbox_policy (effective_file_system_sandbox_policy pol (Some a)) (Some b).
Proof.
  intros Ha Hb. pose proof (merged_depth pol a b Ha Hb) as Hd.
  assert (forall p q : FileSystemSandboxPolicy, policy_kind p = policy_kind q -> glob_scan_max_depth p = glob_scan_max_depth q ->
    policy_entries p = policy_entries q -> p = q) as Heq by by intros [] []; cbn; intros -> -> ->.
  apply Heq; [by rewrite !effective_policy_kind|done|].
  destruct (decide (policy_kind pol = Restricted)) as [Hr|Hr].
  2: by rewrite (effective_policy_unrestricted pol (Some a)), !(effective_policy_unrestricted pol).
  by rewrite !effective_policy_entries, push_overlay_merged by by rewrite ?effective_policy_kind.
Qed.

Lemma merged_network_policy net a b :
  effective_network_sandbox_policy net (merge_permission_profiles (Some a) (Some b))
  = effective_network_sandbox_policy (effective_network_sandbox_policy net (Some a)) (Some b).
Proof.
  assert (forall m n : NetworkSandboxPolicy, net_is_enabled m = net_is_enabled n -> m = n) as Hinj by by intros [] [].
  apply Hinj. rewrite !effective_network, merged_network. cbn [mbind option_bind]. by rewrite orb_assoc.
Qed.

(** The invariant of [NonZeroUsize] in a profile. *)
Definition profile_ok (prof : PermissionProfile) : Prop :=
  glob_scan_max_depth (file_system_sandbox_policy prof) <> Some 0%N.

Lemma effective_depth_ok pol a :
  glob_scan_max_depth pol <> Some 0%N -> additional_ok a ->
  glob_scan_max_depth (effective_file_system_sandbox_policy pol (Some a)) <> Some 0%N.
Proof.
  intros Hp Ha. destruct (decide (policy_kind pol = Restricted)) as [Hr|Hr]; [|by rewrite effective_policy_unrestricted].
  rewrite effective_policy_depth by done. destruct (is_nil _); [done|].
  assert (overlay_depth (Some a) <> Some 0%N) as Ho.
  { unfold additional_ok, fsp_ok, overlay_depth in *. cbn [mbind option_bind]. by destruct (add_file_system a). }
  unfold merge_glob_scan_max_depth, effective_glob_scan_depth.
  destruct (existsb _ (policy_entries pol)), (existsb _ (overlay_entries _)), (glob_scan_max_depth pol) as [m|],
    (overlay_depth (Some a)) as [n|]; try done.
  intros [= Hm]. assert (m <> 0%N) by congruence. lia.
Qed.

(** A profile laid over is the profile of the policies laid over. *)
Lemma effective_permission_profile_eq prof add :
  effective_permission_profile prof add
  = Some (match prof with
          | ProfileManaged (ManagedRestricted es d) n =>
              let pol := effective_file_system_sandbox_policy (mkFsPolicy Restricted d es) add in
              ProfileManaged (ManagedRestricted (policy_entries pol) (glob_scan_max_depth pol ≫= non_zero))
                (effective_network_sandbox_policy n add)
          | ProfileManaged ManagedUnrestricted n =>
              ProfileManaged ManagedUnrestricted (effective_network_sandbox_policy n add)
          | ProfileDisabled => ProfileDisabled
          | ProfileExternal n => ProfileExternal (effective_network_sandbox_policy n add)
          end).
Proof.
  unfold effective_permission_profile, to_runtime_permissions, from_runtime_permissions_with_enforcement, managed_profile,
    managed_from_sandbox_policy. rewrite effective_policy_kind.
  by destruct prof as [[es d|] n| |n].
Qed.

(** C29. Merging two overlays and laying the result over a profile gives the very
    profile that laying one after the other gives: the same enforcement, the same
    entries in the same order (denied patterns and minimal reads among them), the
    same depth of glob scans and the same network. *)
Theorem merge_is_sequential_overlay (prof : PermissionProfile) (a b : AdditionalPermissionProfile) :
  profile_ok prof -> additional_ok a -> additional_ok b ->
  exists first, effective_permission_profile prof (Some a) = Some first
    /\ effective_permission_profile prof (merge_permission_profiles (Some a) (Some b))
       = effective_permission_profile first (Some b).
Proof.
  intros Hp Ha Hb. rewrite effective_permission_profile_eq. eexists. split; [reflexivity|].
  rewrite !effective_permission_profile_eq. f_equal.
  destruct prof as [[es d|] n| |n]; cbv zeta; rewrite ?merged_network_policy; try done.
  set (pol := mkFsPolicy Restricted d es). rewrite merged_policy by done.
  pose proof (effective_policy_kind pol (Some a)) as Hk. pose proof (effective_depth_ok pol a Hp Ha) as Hd.
  destruct (effective_file_system_sandbox_policy pol (Some a)) as [k d1 es1]. cbn in Hk, Hd |- *. subst k.
  replace (d1 ≫= non_zero) with d1; [done|]. destruct d1 as [m|]; [|done]. cbn. unfold non_zero.
  by rewrite (proj2 (N.eqb_neq m 0)) by congruence.
Qed.

Lemma merge_is_sequential_overlay_witness :
  let merged := merge_permission_profiles (Some sample_request) (Some glob_request) in
  let prof := ProfileManaged (ManagedRestricted [mkEntry (FsSpecial Root) Read; mkEntry (FsSpecial Minimal) Read] None)
                NetRestricted in
  exists first eff, effective_permission_profile prof (Some sample_request) = Some first
    /\ effective_permission_profile first (Some glob_request) = Some eff
    /\ effective_permission_profile prof merged = Some eff
    /\ length (policy_entries (file_system_sandbox_policy eff)) = 6%nat.
Proof.
  cbv zeta. set (prof := ProfileManaged _ _).
  destruct (merge_is_sequential_overlay prof sample_request glob_request) as (first & Hf & E); [done..|].
  exists first. rewrite E. destruct (effective_permission_profile first (Some glob_request)) as [eff|] eqn:He;
    vm_compute in Hf; injection Hf as <-; vm_compute in He; [|done]. injection He as <-.
  eexists. split_and!; reflexivity.
Defined.

(** ** The legacy wire format *)

Lemma legacy_roots_loop_entries read write es r w :
  legacy_roots_loop read write es = Some (r, w) ->
  exists r' w', r = read ++ r' /\ w = write ++ w'
    /\ es ≡ₚ map (fun p => mkEntry (FsPath p) Read) r' ++ map (fun p => mkEntry (FsPath p) Write) w'.
Proof.
  revert read write. induction es as [|[[p|g|v] a] es IH]; intros read write; cbn [legacy_roots_loop entry_path entry_access];
    [|destruct a|done..].
  - intros [= -> ->]. exists [], []. by rewrite !app_nil_r.
  - intros (r' & w' & -> & -> & Hp)%IH. exists (p :: r'), w'. rewrite <- app_assoc. split_and!; [done..|]. cbn. by rewrite Hp.
  - intros (r' & w' & -> & -> & Hp)%IH. exists r', (p :: w'). rewrite <- app_assoc. split_and!; [done..|]. cbn.
    by rewrite Hp, Permutation_middle.
  - done.
Qed.

Lemma from_non_empty_roots r w :
  fsp_entries (from_read_write_roots (non_empty r) (non_empty w))
  = map (fun p => mkEntry (FsPath p) Read) r ++ map (fun p => mkEntry (FsPath p) Write) w.
Proof. by destruct r, w. Qed.

(** Permissions written to the wire and read back decide every path alike:
    the legacy shape, used when every entry grants a plain path, may move reads
    before writes, and any other overlay comes back as it was. *)
Theorem permissions_wire_roundtrip (fs : FileSystemPermissions) :
  exists fs', fsp_deserialize (fsp_serialize fs) = Some fs'
    /\ fsp_glob_scan_max_depth fs' = fsp_glob_scan_max_depth fs
    /\ fsp_entries fs' ≡ₚ fsp_entries fs
    /\ (as_legacy_permissions fs = None -> fs' = fs)
    /\ forall H p cwd, resolve_access_with_cwd H (policy_from_permissions fs') p cwd
                       = resolve_access_with_cwd H (policy_from_permissions fs) p cwd.
Proof.
  assert (exists fs', fsp_deserialize (fsp_serialize fs) = Some fs'
    /\ fsp_glob_scan_max_depth fs' = fsp_glob_scan_max_depth fs /\ fsp_entries fs' ≡ₚ fsp_entries fs
    /\ (as_legacy_permissions fs = None -> fs' = fs)) as (fs' & Hd & Hg & Hp & Hid).
  { unfold fsp_serialize. destruct (as_legacy_permissions fs) as [[read write]|] eqn:Hl.
    - exists (from_read_write_roots read write). split_and!; [by destruct read, write| | |done];
        unfold as_legacy_permissions in Hl; destruct (fsp_glob_scan_max_depth fs); try done.
      destruct (legacy_roots_loop [] [] (fsp_entries fs)) as [[r w]|] eqn:Hloop; [|done]. simplify_eq.
      apply legacy_roots_loop_entries in Hloop as (r' & w' & -> & -> & Hp). by rewrite from_non_empty_roots.
    - exists fs. split_and!; try done. destruct fs as [[|e es] d]; done. }
  exists fs'. split_and!; [done..|]. intros H p cwd. apply resolve_access_proper; [by split|done..].
Qed.

(** ** Normalising a request *)

Definition is_glob_grant (entry : FileSystemSandboxEntry) : bool :=
  match entry_path entry with FsGlobPattern _ => true | _ => false end && negb (is_deny entry).
Definition normalize_entry (H : Host) (entry : FileSystemSandboxEntry) : FileSystemSandboxEntry :=
  mkEntry (normalize_permission_path H (entry_path entry)) (entry_access entry).

Lemma normalize_entries_loop_eq H acc es :
  normalize_entries_loop H acc es
  = if existsb is_glob_grant es then Err GLOB_GRANT_ERROR else Ok (push_missing acc (map (normalize_entry H) es)).
Proof.
  revert acc. induction es as [|e es IH]; intros acc; [done|]. cbn [normalize_entries_loop existsb map].
  fold (is_glob_grant e). destruct (is_glob_grant e); [done|]. cbn [orb]. rewrite IH. done.
Qed.

(** No entry equals a later one. *)
Definition distinct_entries (es : list FileSystemSandboxEntry) : Prop :=
  StronglySorted (fun e f => entry_eqb e f = false) es.

Lemma distinct_snoc es e :
  distinct_entries es -> existsb (fun entry => entry_eqb entry e) es = false -> distinct_entries (es ++ [e]).
Proof.
  unfold distinct_entries. induction 1 as [|f es Hs IH Hall]; cbn; [repeat constructor|].
  intros [Hf Hes]%orb_false_iff. constructor; [by apply IH|]. apply Forall_app. by repeat constructor.
Qed.

Lemma push_missing_distinct es new : distinct_entries es -> distinct_entries (push_missing es new).
Proof.
  unfold push_missing. revert es. induction new as [|e new IH]; intros es Hes; [done|]. cbn [fold_left]. apply IH.
  destruct (existsb _ es) eqn:He; [done|]. by apply distinct_snoc.
Qed.

Lemma push_missing_id es new : distinct_entries (es ++ new) -> push_missing es new = es ++ new.
Proof.
  unfold push_missing. revert es. induction new as [|e new IH]; intros es Hd; cbn [fold_left]; [by rewrite app_nil_r|].
  assert (existsb (fun entry => entry_eqb entry e) es = false) as ->.
  { clear IH. induction es as [|f es IHes]; [done|]. cbn. inversion Hd as [|? ? Hd' Hall]; subst.
    rewrite Forall_forall in Hall. rewrite (Hall e) by set_solver. by apply IHes. }
  rewrite IH; by rewrite <- app_assoc.
Qed.

Section no_links.
Context (H : Host) (Hno : no_symlinks H).

Lemma normalize_entry_id e : entry_ok e -> normalize_entry H e = e.
Proof.
  destruct e as [[p|g|v] a]; unfold normalize_entry, entry_ok; cbn; [|done..]. intros Hp.
  rewrite (canonicalize_preserving_id H Hno p Hp). cbn. by rewrite (abs_from_display H p Hp).
Qed.
Lemma normalize_entries_id es : Forall entry_ok es -> map (normalize_entry H) es = es.
Proof. induction 1 as [|e es He _ IH]; [done|]. cbn. by rewrite normalize_entry_id, IH. Qed.
End no_links.

(** Normalising a request fails exactly when it grants a pattern, with the
    message of the code; otherwise nothing in the result is empty or repeated,
    and on a host without symbolic links it decides every path like the request
    and normalising it again changes nothing. *)
Theorem normalize_request_spec (H : Host) (request : AdditionalPermissionProfile) :
  match normalize_additional_permissions H request with
  | Err e => e = GLOB_GRANT_ERROR /\ exists entry, entry ∈ overlay_entries (Some request) /\ is_glob_grant entry = true
  | Ok r =>
      (forall entry, entry ∈ overlay_entries (Some request) -> is_glob_grant entry = false)
      /\ from_option np_enabled (Some true) (add_network r) <> None
      /\ from_option fsp_entries [mkEntry (FsSpecial Root) Read] (add_file_system r) <> []
      /\ distinct_entries (overlay_entries (Some r))
      /\ (host_ok H -> no_symlinks H -> Forall entry_ok (overlay_entries (Some request)) ->
          normalize_additional_permissions H r = Ok r
          /\ forall t cwd, absolute_normalized t ->
             resolve_access_with_cwd H (restricted (overlay_entries (Some r))) (display t) cwd
             = resolve_access_with_cwd H (restricted (overlay_entries (Some request))) (display t) cwd)
  end.
Proof.
  unfold normalize_additional_permissions, overlay_entries. cbn [mbind option_bind].
  set (net := filter_option _ (add_network request)).
  assert (from_option np_enabled (Some true) net <> None) as Hnet.
  { subst net. by destruct (add_network request) as [[[b|]]|]. }
  destruct (add_file_system request) as [fs|] eqn:Hfs; cbn [from_option].
  2: { split_and!; try done; [set_solver|constructor|]. intros Hok Hno _. split; [|done]. cbn [add_file_system add_network].
       subst net. by destruct (add_network request) as [[[b|]]|]. }
  rewrite normalize_entries_loop_eq. destruct (existsb is_glob_grant (fsp_entries fs)) eqn:Hg.
  { split; [done|]. apply existsb_exists in Hg as (e & He & Hgg). exists e. by rewrite list_elem_of_In. }
  set (es := push_missing [] (map (normalize_entry H) (fsp_entries fs))).
  set (o := filter_option _ (Some (mkFsPerm es (fsp_glob_scan_max_depth fs)))).
  assert (distinct_entries es) as Hd by (apply push_missing_distinct; constructor).
  assert (from_option fsp_entries [] o = es) as Hes by by subst o; destruct es.
  assert (from_option fsp_entries [mkEntry (FsSpecial Root) Read] o <> []) as Hne by by subst o; destruct es.
  cbn [add_network add_file_system mbind option_bind]. rewrite Hes. split_and!; [|done..|].
  { intros e He. apply not_true_is_false. intros Ht. apply not_true_iff_false in Hg. apply Hg, existsb_exists.
    exists e. by rewrite <- list_elem_of_In. }
  intros Hok Hno Hall. assert (es = push_missing [] (fsp_entries fs)) as Hes'.
  { subst es. by rewrite normalize_entries_id. }
  split.
  - assert (Forall entry_ok es /\ existsb is_glob_grant es = false) as [Hall' Hg'].
    { rewrite Hes'. split.
      - rewrite Forall_forall in *. intros e [He|He]%push_missing_only; [set_solver|by apply Hall].
      - apply not_true_is_false. intros (e & [He|He]%list_elem_of_In%push_missing_only & Hge)%existsb_exists; [set_solver|].
        apply not_true_iff_false in Hg. apply Hg, existsb_exists. exists e. by rewrite <- list_elem_of_In. }
    assert (filter_option (fun network => negb (np_is_empty network)) net = net) as Hnn.
    { subst net. by destruct (add_network request) as [[[b|]]|]. }
    cbn [add_file_system add_network]. rewrite Hnn. subst o. clearbody es. destruct es as [|e es]; [done|].
    cbn [filter_option fsp_is_empty negb fsp_entries fsp_glob_scan_max_depth].
    rewrite normalize_entries_loop_eq, Hg', normalize_entries_id, push_missing_id by done. done.
  - intros t cwd Ht. rewrite !resolve_access_display by done. apply decide_access_ext. intros e.
    rewrite Hes', resolved_push_missing by done. split; [intros [Hn|]; [by apply elem_of_nil in Hn|done]|by right].
Qed.

Example normalize_request_example :
  normalize_additional_permissions empty_host
    (mkAdditional (Some (mkNetPerm None)) (Some (mkFsPerm [secret; mkEntry (FsPath dir_a) Write; secret] None)))
  = Ok (mkAdditional None (Some (mkFsPerm [secret; mkEntry (FsPath dir_a) Write] None)))
  /\ normalize_additional_permissions empty_host
       (mkAdditional None (Some (mkFsPerm [mkEntry (FsGlobPattern (lit "*.rs")) Read] None))) = Err GLOB_GRANT_ERROR.
Proof. by vm_compute. Qed.
