(* ===== verification/Bwrap.v ===== *)
(** * The bubblewrap view of a policy: [linux-sandbox/src/bwrap.rs]

    On Linux a policy is enforced by the mounts bubblewrap sets up before the
    command runs.  [create_filesystem_args] turns a policy into these mounts:
    a read-only or empty base, the writable roots from the shallowest to the
    deepest, their read-only subpaths, and masks over what may not be read.
    Patterns that may not be read are expanded by ripgrep, or by a walk of the
    tree when it is not installed.  [BwrapView] states what the mounts show. *)

From S2P Require Import Prelude AbsolutePath Host Permissions SandboxRoots.

(** ** The host, as [std::fs] shows it *)

Inductive FileType : Type := FtFile | FtDir | FtSymlink | FtOther.
#[export] Instance FileType_eq_dec : EqDecision FileType.
Proof. solve_decision. Defined.

(** What [symlink_metadata] tells: type, length, device and inode. *)
Record Metadata : Type := mkMetadata {
  md_type : FileType;
  md_len : N;
  md_dev : N;
  md_ino : N
}.
#[export] Instance Metadata_eq_dec : EqDecision Metadata.
Proof. solve_decision. Defined.

(** How a run of ripgrep ended. *)
Inductive RgOutput : Type :=
| RgNotFound
| RgError
| RgExit (code : option N) (stdout stderr : str).

Record LinuxHost : Type := mkLinuxHost {
  lx_host : Host;
  lx_metadata : path -> option Metadata;                     (** [fs::symlink_metadata] *)
  lx_not_found : path -> bool;                               (** it fails with [NotFound] *)
  lx_read_dir : path -> option (list (option (path * FileType))); (** [fs::read_dir], entry by entry *)
  lx_open_dev_null : option N;                               (** the descriptor of [File::open "/dev/null"] *)
  lx_rg : path -> list str -> option N -> RgOutput;          (** [rg --files], its globs and its depth *)
  lx_glob_set : list str -> result str (path -> bool)        (** the [globset] crate *)
}.

Inductive CodexErr : Type := Fatal (message : str) | Io | OutOfFuel.

(** ** Options and arguments *)

Inductive BwrapNetworkMode : Type := FullAccess | Isolated | ProxyOnly.
#[export] Instance BwrapNetworkMode_eq_dec : EqDecision BwrapNetworkMode.
Proof. solve_decision. Defined.
Definition should_unshare_network (m : BwrapNetworkMode) : bool :=
  match m with FullAccess => false | Isolated | ProxyOnly => true end.

Record BwrapOptions : Type := mkOptions {
  mount_proc : bool;
  network_mode : BwrapNetworkMode;
  options_glob_scan_max_depth : option N
}.
Definition default_options : BwrapOptions := mkOptions true FullAccess None.

Record FileIdentity : Type := mkIdentity { id_dev : N; id_ino : N }.
#[export] Instance FileIdentity_eq_dec : EqDecision FileIdentity.
Proof. solve_decision. Defined.
Definition identity_from_metadata (m : Metadata) : FileIdentity := mkIdentity (md_dev m) (md_ino m).

Inductive SyntheticMountTargetKind : Type := EmptyFile | EmptyDirectory.
Record SyntheticMountTarget : Type := mkSynthetic {
  synthetic_path : path;
  synthetic_kind : SyntheticMountTargetKind;
  pre_existing_path : option FileIdentity
}.
Definition synthetic_missing (p : path) : SyntheticMountTarget := mkSynthetic p EmptyFile None.
Definition missing_empty_directory (p : path) : SyntheticMountTarget := mkSynthetic p EmptyDirectory None.
Definition existing_empty_file (p : path) (m : Metadata) : SyntheticMountTarget :=
  mkSynthetic p EmptyFile (Some (identity_from_metadata m)).
Definition existing_empty_directory (p : path) (m : Metadata) : SyntheticMountTarget :=
  mkSynthetic p EmptyDirectory (Some (identity_from_metadata m)).
Definition preserves_pre_existing_path (t : SyntheticMountTarget) : bool := bool_decide (is_Some (pre_existing_path t)).

Definition should_remove_after_bwrap (t : SyntheticMountTarget) (m : Metadata) : bool :=
  let is_candidate :=
    match synthetic_kind t with
    | EmptyFile => bool_decide (md_type m = FtFile) && (md_len m =? 0)%N
    | EmptyDirectory => bool_decide (md_type m = FtDir)
    end in
  if negb is_candidate then false
  else match pre_existing_path t with
       | Some pre_existing => negb (bool_decide (pre_existing = identity_from_metadata m))
       | None => true
       end.

(** [preserved_files] holds the open descriptors; a [ProtectedCreateTarget] is
    its path. *)
Record BwrapArgs : Type := mkBwrapArgs {
  args : list str;
  preserved_files : list N;
  synthetic_mount_targets : list SyntheticMountTarget;
  protected_create_targets : list path
}.
Definition push_args (b : BwrapArgs) (new : list str) : BwrapArgs :=
  mkBwrapArgs (args b ++ new) (preserved_files b) (synthetic_mount_targets b) (protected_create_targets b).
Definition push_synthetic (b : BwrapArgs) (t : SyntheticMountTarget) : BwrapArgs :=
  mkBwrapArgs (args b) (preserved_files b) (synthetic_mount_targets b ++ [t]) (protected_create_targets b).
Definition push_create_target (b : BwrapArgs) (p : path) : BwrapArgs :=
  mkBwrapArgs (args b) (preserved_files b) (synthetic_mount_targets b) (protected_create_targets b ++ [p]).

Definition LINUX_PLATFORM_DEFAULT_READ_ROOTS : list str :=
  [lit "/bin"; lit "/sbin"; lit "/usr"; lit "/etc"; lit "/lib"; lit "/lib64"; lit "/nix/store";
   lit "/run/current-system/sw"].
Definition MAX_UNREADABLE_GLOB_MATCHES : nat := 8192.

(** ** Paths *)

Definition path_to_string (p : path) : str := display p.
Definition path_depth (p : path) : nat := length p.
(** [path.join(name)] *)
Definition join_str (p : path) (name : str) : path := path_join p (components name).

(** [Vec::dedup] *)
Fixpoint dedup_paths (l : list path) : list path :=
  match l with
  | x :: (y :: _) as l' => if bool_decide (x = y) then dedup_paths l' else x :: dedup_paths l'
  | _ => l
  end.
(** A [BTreeSet] collected from paths, in the order it is iterated. *)
Definition btree_paths (l : list path) : list path := dedup_paths (sort_by path_leb l).

Fixpoint take_while {A} (f : A -> bool) (l : list A) : list A :=
  match l with
  | [] => []
  | x :: l => if f x then x :: take_while f l else []
  end.

Definition is_within_allowed_write_paths (p : path) (allowed_write_paths : list path) : bool :=
  existsb (fun root => path_starts_with p root) allowed_write_paths.

Definition remap_paths_for_symlink_target (paths : list path) (root target : path) : list path :=
  map (fun p => match strip_path_prefix root p with
                | Some relative => path_join target relative
                | None => p
                end) paths.

(** One component of a walk down a path: [Some] is the prefix to look at next,
    [None] a component that is only moved over. *)
Definition walk_step (current : path) (component : Component) : path * bool :=
  match component with
  | RootDir => ([RootDir], false)
  | CurDir => (current, false)
  | ParentDir => (pathbuf_pop current, false)
  | Normal part => (pathbuf_push current (Normal part), true)
  end.

Section linux.
Context (L : LinuxHost).
Notation H := (lx_host L).

Definition is_symlink_at (p : path) : option bool :=
  match lx_metadata L p with
  | Some metadata => Some (bool_decide (md_type metadata = FtSymlink))
  | None => None
  end.

Fixpoint canonical_target_loop (p current : path) (cs : path) : option path :=
  match cs with
  | [] => None
  | component :: cs =>
      let '(current, look) := walk_step current component in
      if look : bool then
        match is_symlink_at current with
        | None => None
        | Some true =>
            match host_canonicalize H p with
            | None => None
            | Some target => if bool_decide (target = p) then None else Some target
            end
        | Some false => canonical_target_loop p current cs
        end
      else canonical_target_loop p current cs
  end.
Definition canonical_target_if_symlinked_path (p : path) : option path := canonical_target_loop p [] p.

Fixpoint first_writable_symlink_loop (allowed_write_paths : list path) (current : path) (cs : path) : option path :=
  match cs with
  | [] => None
  | component :: cs =>
      let '(current, look) := walk_step current component in
      if look : bool then
        match is_symlink_at current with
        | None => None
        | Some is_symlink =>
            if is_symlink && is_within_allowed_write_paths current allowed_write_paths then Some current
            else first_writable_symlink_loop allowed_write_paths current cs
        end
      else first_writable_symlink_loop allowed_write_paths current cs
  end.
Definition first_writable_symlink_component_in_path (target_path : path) (allowed_write_paths : list path) :
  option path :=
  first_writable_symlink_loop allowed_write_paths [] target_path.

Fixpoint first_missing_loop (current : path) (cs : path) : option path :=
  match cs with
  | [] => None
  | component :: cs =>
      let '(current, look) := walk_step current component in
      if look && negb (host_exists H current) then Some current else first_missing_loop current cs
  end.
Definition find_first_non_existent_component (target_path : path) : option path := first_missing_loop [] target_path.

Definition directory_is_empty (p : path) : bool :=
  match lx_read_dir L p with Some [] => true | _ => false end.

Inductive EmptyProtectedMetadataPath : Type := EmptyMetadataFile (m : Metadata) | EmptyMetadataDirectory (m : Metadata).

Definition has_protected_metadata_name (p : path) : bool :=
  match file_name p with Some name => is_protected_metadata_name name | None => false end.

Definition transient_empty_metadata_path (p : path) : option EmptyProtectedMetadataPath :=
  if negb (has_protected_metadata_name p) then None
  else match lx_metadata L p with
       | None => None
       | Some metadata =>
           if bool_decide (md_type metadata = FtFile) && (md_len metadata =? 0)%N
           then Some (EmptyMetadataFile metadata)
           else if bool_decide (md_type metadata = FtDir) && directory_is_empty p
           then Some (EmptyMetadataDirectory metadata)
           else None
       end.

(** ** Masks *)

Definition append_mount_target_parent_dir_args (mount_target anchor : path) : list str :=
  let dirs_of := fun mount_target_dir =>
    flat_map (fun dir => [lit "--dir"; path_to_string dir])
      (rev (take_while (fun p => negb (bool_decide (p = anchor))) (path_ancestors mount_target_dir))) in
  if host_is_dir H mount_target then dirs_of mount_target
  else match parent mount_target with
       | Some parent => dirs_of parent
       | None => []
       end.

Definition append_empty_file_bind_data_args (b : BwrapArgs) (p : path) : result CodexErr BwrapArgs :=
  let push := fun preserved (fd : N) =>
    mkBwrapArgs (args b ++ [lit "--ro-bind-data"; show_N fd; path_to_string p]) preserved
      (synthetic_mount_targets b) (protected_create_targets b) in
  match preserved_files b with
  | fd :: _ => Ok (push (preserved_files b) fd)
  | [] => match lx_open_dev_null L with
          | Some fd => Ok (push [fd] fd)
          | None => Err Io
          end
  end.

Definition append_empty_directory_args (b : BwrapArgs) (p : path) : BwrapArgs :=
  push_args b [lit "--perms"; lit "555"; lit "--tmpfs"; path_to_string p; lit "--remount-ro"; path_to_string p].

Definition append_missing_empty_file_bind_data_args (b : BwrapArgs) (p : path) : result CodexErr BwrapArgs :=
  b ← append_empty_file_bind_data_args b p;
  Ok (push_synthetic b (synthetic_missing p)).

Definition append_missing_read_only_subpath_args (b : BwrapArgs) (p : path) : result CodexErr BwrapArgs :=
  if has_protected_metadata_name p
  then Ok (push_synthetic (append_empty_directory_args b p) (missing_empty_directory p))
  else append_missing_empty_file_bind_data_args b p.

Definition append_existing_empty_file_bind_data_args (b : BwrapArgs) (p : path) (m : Metadata) :
  result CodexErr BwrapArgs :=
  b ← append_empty_file_bind_data_args b p;
  Ok (push_synthetic b (existing_empty_file p m)).

Definition append_existing_empty_directory_args (b : BwrapArgs) (p : path) (m : Metadata) : BwrapArgs :=
  push_synthetic (append_empty_directory_args b p) (existing_empty_directory p m).

Definition crosses_writable_symlink (what : string) (p symlink : path) : CodexErr :=
  Fatal (lit "cannot enforce sandbox " ++ lit what ++ lit " path " ++ display p
         ++ lit " because it crosses writable symlink " ++ display symlink).

Definition append_read_only_subpath_args (b : BwrapArgs) (subpath : path) (allowed_write_paths : list path) :
  result CodexErr BwrapArgs :=
  match first_writable_symlink_component_in_path subpath allowed_write_paths with
  | Some symlink => Err (crosses_writable_symlink "read-only" subpath symlink)
  | None =>
      match transient_empty_metadata_path subpath, is_within_allowed_write_paths subpath allowed_write_paths with
      | Some (EmptyMetadataFile metadata), true => append_existing_empty_file_bind_data_args b subpath metadata
      | Some (EmptyMetadataDirectory metadata), true => Ok (append_existing_empty_directory_args b subpath metadata)
      | _, within =>
          if negb (host_exists H subpath) then
            match find_first_non_existent_component subpath with
            | Some first_missing_component =>
                if is_within_allowed_write_paths first_missing_component allowed_write_paths
                then append_missing_read_only_subpath_args b first_missing_component
                else Ok b
            | None => Ok b
            end
          else if within : bool
          then Ok (push_args b [lit "--ro-bind"; path_to_string subpath; path_to_string subpath])
          else Ok b
      end
  end.

Definition append_existing_unreadable_path_args (b : BwrapArgs) (unreadable_root : path)
    (allowed_write_paths : list path) : result CodexErr BwrapArgs :=
  if host_is_dir H unreadable_root then
    let writable_descendants :=
      List.filter (fun p => negb (bool_decide (p = unreadable_root)) && path_starts_with p unreadable_root)
        allowed_write_paths in
    Ok (push_args b
          ([lit "--perms"; match writable_descendants with [] => lit "000" | _ => lit "111" end;
            lit "--tmpfs"; path_to_string unreadable_root]
           ++ flat_map (fun writable_descendant =>
                append_mount_target_parent_dir_args writable_descendant unreadable_root)
                (sort_by_key path_depth writable_descendants)
           ++ [lit "--remount-ro"; path_to_string unreadable_root]))
  else append_empty_file_bind_data_args (push_args b [lit "--perms"; lit "000"]) unreadable_root.

Definition append_unreadable_root_args (b : BwrapArgs) (unreadable_root : path) (allowed_write_paths : list path) :
  result CodexErr BwrapArgs :=
  match first_writable_symlink_component_in_path unreadable_root allowed_write_paths with
  | Some symlink => Err (crosses_writable_symlink "deny-read" unreadable_root symlink)
  | None =>
      if negb (host_exists H unreadable_root) then
        match find_first_non_existent_component unreadable_root with
        | Some first_missing_component =>
            if is_within_allowed_write_paths first_missing_component allowed_write_paths
            then append_missing_empty_file_bind_data_args b first_missing_component
            else Ok b
        | None => Ok b
        end
      else append_existing_unreadable_path_args b unreadable_root allowed_write_paths
  end.

(** A loop over paths whose body may fail. *)
Fixpoint for_each {A} (body : BwrapArgs -> A -> result CodexErr BwrapArgs) (b : BwrapArgs) (l : list A) :
  result CodexErr BwrapArgs :=
  match l with
  | [] => Ok b
  | x :: l => b ← body b x; for_each body b l
  end.

(** ** Metadata below a writable root *)

Definition ancestor_has_git_metadata (ancestor : path) : bool :=
  let git_path := join_str ancestor (lit ".git") in
  match lx_metadata L git_path with
  | None => false
  | Some metadata =>
      match md_type metadata with
      | FtDir => bool_decide (is_Some (lx_metadata L (join_str git_path (lit "HEAD"))))
      | FtFile =>
          match host_read_to_string H git_path with
          | Some contents => starts_with (lit "gitdir:") (trim_start contents)
          | None => false
          end
      | FtSymlink | FtOther => false
      end
  end.

Definition should_leave_missing_git_for_parent_repo_discovery (mount_root : path) (name : str) : bool :=
  (name =s? lit ".git") && lx_not_found L (join_str mount_root name)
  && existsb ancestor_has_git_metadata (drop 1 (path_ancestors mount_root)).

Definition append_metadata_path_masks_for_writable_root (read_only_subpaths : list path) (root mount_root : path)
    (protected_metadata_names : list str) : list path :=
  fold_left (fun read_only_subpaths name =>
    let p := join_str root name in
    if should_leave_missing_git_for_parent_repo_discovery mount_root name then read_only_subpaths
    else if negb (existsb (fun subpath => bool_decide (subpath = p)) read_only_subpaths)
    then read_only_subpaths ++ [p] else read_only_subpaths) protected_metadata_names read_only_subpaths.

Definition append_protected_create_targets_for_writable_root (b : BwrapArgs) (protected_metadata_names : list str)
    (root : path) (symlink_target : option path) (read_only_subpaths : list path) : BwrapArgs :=
  fold_left (fun b name =>
    let p := join_str root name in
    let p := match symlink_target with
             | Some target =>
                 match strip_path_prefix root p with
                 | Some relative_path => path_join target relative_path
                 | None => p
                 end
             | None => p
             end in
    if existsb (fun subpath => bool_decide (subpath = p)) read_only_subpaths || host_exists H p then b
    else push_create_target b p) protected_metadata_names b.

(** ** Expanding unreadable patterns *)

Definition is_glob_meta (c : char) : bool := existsb (N.eqb c) [42; 63; 91; 93]%N.
(** The text before and from the first character that satisfies the predicate. *)
Fixpoint split_at_first (f : char -> bool) (s : str) : option (str * str) :=
  match s with
  | [] => None
  | c :: s' =>
      if f c then Some ([], s)
      else match split_at_first f s' with
           | Some (before, rest) => Some (c :: before, rest)
           | None => None
           end
  end.

(** The body of a character class up to its [\]], with what follows; [None] for
    a class that is never closed. *)
Fixpoint read_class (s : str) : option (str * str) :=
  match s with
  | [] => None
  | c :: s => if (c =? 93)%N then Some ([], s)
              else match read_class s with
                   | Some (class, rest) => Some (c :: class, rest)
                   | None => None
                   end
  end.
Fixpoint escape_loop (fuel : nat) (glob : str) : str :=
  match fuel, glob with
  | S fuel, ch :: rest =>
      if negb (ch =? 91)%N then ch :: escape_loop fuel rest
      else match read_class rest with
           | Some (class, rest) => [91%N] ++ class ++ [93%N] ++ escape_loop fuel rest
           | None => [92%N; 91%N] ++ rest
           end
  | _, _ => []
  end.
Definition escape_unclosed_glob_classes (glob : str) : str := escape_loop (length glob) glob.

Definition split_pattern_for_ripgrep (pattern : str) (cwd : str) : option (path * str) :=
  let pattern := display (resolve_path_against_base (home H) pattern (components cwd)) in
  match split_at_first is_glob_meta pattern with
  | None => None
  | Some (static_prefix, _) =>
      if (static_prefix =s? []) || (static_prefix =s? [SLASH]) then None
      else
        let search_root_end :=
          if ends_with [SLASH] static_prefix then (length static_prefix - 1)%nat
          else match rsplit_once SLASH static_prefix with
               | Some (before, _) => length before
               | None => O
               end in
        let search_root := if (search_root_end =? 0)%nat then [SLASH] else take search_root_end pattern in
        match from_absolute_path_checked H search_root with
        | None => None
        | Some search_root =>
            let glob := escape_unclosed_glob_classes (drop (search_root_end + 1) pattern) in
            if glob =s? [] then None else Some (search_root, glob)
        end
  end.

(** The walk of the fallback; [fuel] bounds the depth of the directory tree. *)
Fixpoint collect_glob_files (fuel : nat) (search_root dir : path) (glob_set : path -> bool)
    (remaining_depth : option N) (paths : list path) : result CodexErr (list path) :=
  match fuel with
  | O => Err OutOfFuel
  | S fuel =>
      match lx_read_dir L dir with
      | None => Err Io
      | Some entries =>
          fold_left (fun paths entry =>
            paths ← paths;
            match entry with
            | None => Err Io
            | Some (p, file_type) =>
                let relative := from_option id p (strip_path_prefix search_root p) in
                paths ← (if (bool_decide (file_type = FtFile) || bool_decide (file_type = FtSymlink)) && glob_set relative
                         then match from_absolute_path_checked H (display p) with
                              | Some absolute => Ok (paths ++ [absolute])
                              | None => Err Io
                              end
                         else Ok paths);
                if negb (bool_decide (file_type = FtDir)) then Ok paths
                else match remaining_depth with
                     | Some depth =>
                         if (depth <=? 1)%N then Ok paths
                         else collect_glob_files fuel search_root p glob_set (Some (depth - 1)%N) paths
                     | None => collect_glob_files fuel search_root p glob_set None paths
                     end
            end) entries (Ok paths)
      end
  end.

Definition glob_files (fuel : nat) (search_root : path) (globs : list str) (max_depth : option N) :
  result CodexErr (list path) :=
  match lx_glob_set L globs with
  | Err err => Err (Fatal (lit "unreadable glob pattern is invalid for " ++ display search_root ++ lit ": " ++ err))
  | Ok glob_set => collect_glob_files fuel search_root search_root glob_set max_depth []
  end.

Fixpoint checked_paths (paths : list path) : result CodexErr (list path) :=
  match paths with
  | [] => Ok []
  | p :: paths =>
      match from_absolute_path_checked H (display p) with
      | None => Err Io
      | Some q => qs ← checked_paths paths; Ok (q :: qs)
      end
  end.

Definition ripgrep_files (fuel : nat) (search_root : path) (globs : list str) (max_depth : option N) :
  result CodexErr (list path) :=
  match lx_rg L search_root globs max_depth with
  | RgNotFound => glob_files fuel search_root globs max_depth
  | RgError => Err Io
  | RgExit code stdout stderr =>
      if bool_decide (code = Some 0%N) then
        checked_paths
          (map (fun raw => let p := components raw in if is_absolute p then p else path_join search_root p)
             (List.filter (fun raw => negb (raw =s? [])) (split_on 0%N stdout)))
      else if bool_decide (code = Some 1%N) && (stderr =s? []) then Ok []
      else Err (Fatal (lit "ripgrep unreadable glob scan failed for " ++ display search_root ++ lit ": " ++ stderr))
  end.

(** [patterns_by_search_root.entry(search_root).or_default().push(glob)] on the
    sorted map. *)
Fixpoint push_glob (search_root : path) (glob : str) (m : list (path * list str)) : list (path * list str) :=
  match m with
  | [] => [(search_root, [glob])]
  | (root, globs) :: m' =>
      if bool_decide (root = search_root) then (root, globs ++ [glob]) :: m'
      else if path_leb search_root root then (search_root, [glob]) :: m
      else (root, globs) :: push_glob search_root glob m'
  end.
Definition group_patterns (patterns : list str) (cwd : str) : list (path * list str) :=
  fold_left (fun m pattern =>
    match split_pattern_for_ripgrep pattern cwd with
    | Some (search_root, glob) => if host_is_dir H search_root then push_glob search_root glob m else m
    | None => m
    end) patterns [].

(** [BTreeSet::insert] *)
Definition insert_path (p : path) (set : list path) : list path :=
  if bool_decide (p ∈ set) then set else insert_by path_leb p set.

Definition insert_match (search_root : path) (expanded : list path) (p : path) : result CodexErr (list path) :=
  expanded ← match canonical_target_if_symlinked_path p with
             | Some target =>
                 match from_absolute_path_checked H (display target) with
                 | Some target => Ok (insert_path target expanded)
                 | None => Err Io
                 end
             | None => Ok expanded
             end;
  let expanded := insert_path p expanded in
  if (MAX_UNREADABLE_GLOB_MATCHES <? length expanded)%nat
  then Err (Fatal (lit "unreadable glob expansion for " ++ display search_root ++ lit " matched more than "
                   ++ show_nat MAX_UNREADABLE_GLOB_MATCHES ++ lit " paths"))
  else Ok expanded.

Fixpoint insert_matches (search_root : path) (expanded : list path) (paths : list path) : result CodexErr (list path) :=
  match paths with
  | [] => Ok expanded
  | p :: paths => expanded ← insert_match search_root expanded p; insert_matches search_root expanded paths
  end.

Fixpoint expand_groups (fuel : nat) (max_depth : option N) (expanded : list path) (groups : list (path * list str)) :
  result CodexErr (list path) :=
  match groups with
  | [] => Ok expanded
  | (search_root, globs) :: groups =>
      paths ← ripgrep_files fuel search_root globs max_depth;
      expanded ← insert_matches search_root expanded paths;
      expand_groups fuel max_depth expanded groups
  end.

Definition expand_unreadable_globs_with_ripgrep (fuel : nat) (patterns : list str) (cwd : str) (max_depth : option N) :
  result CodexErr (list path) :=
  if match patterns with [] => true | _ => false end || bool_decide (max_depth = Some 0%N) then Ok []
  else expand_groups fuel max_depth [] (group_patterns patterns cwd).

(** ** The mounts of a policy *)

Definition missing_auto_metadata (pol : FileSystemSandboxPolicy) (cwd : str) : list path :=
  omap (fun entry =>
    match entry_path entry with
    | FsSpecial (ProjectRoots (Some subpath)) =>
        if negb (existsb (fun name => bool_decide (components subpath = components name))
                   [lit ".git"; lit ".agents"; lit ".codex"]) then None
        else
          let resolved := resolve_path_against_base (home H) subpath (components cwd) in
          if negb (host_exists H resolved) then Some resolved else None
    | _ => None
    end) (List.filter (fun entry => bool_decide (entry_access entry = Read)) (policy_entries pol)).

Definition existing_writable_roots (pol : FileSystemSandboxPolicy) (cwd : str) (unreadable_globs : list str) :
  result CodexErr (list WritableRoot) :=
  let writable_roots :=
    List.filter (fun writable_root => host_exists H (wr_root writable_root)) (get_writable_roots_with_cwd H pol cwd) in
  match writable_roots with
  | [] =>
      if has_full_disk_write_access pol && negb (match unreadable_globs with [] => true | _ => false end) then
        match abs_from H [SLASH] with
        | Some root => Ok [mkWritableRoot root [] []]
        | None => Err Io
        end
      else Ok []
  | _ => Ok writable_roots
  end.

Definition READ_ONLY_ROOT_ARGS : list str := [lit "--ro-bind"; [SLASH]; [SLASH]; lit "--dev"; lit "/dev"].
Definition EMPTY_ROOT_ARGS : list str := [lit "--tmpfs"; [SLASH]; lit "--dev"; lit "/dev"].

Definition readable_roots_of (pol : FileSystemSandboxPolicy) (cwd : str) : list path :=
  btree_paths
    (get_readable_roots_with_cwd H pol cwd
     ++ if include_platform_defaults pol
        then List.filter (host_exists H) (map components LINUX_PLATFORM_DEFAULT_READ_ROOTS) else []).

Definition readable_mount_root (writable_roots : list WritableRoot) (root : path) : path :=
  if existsb (fun writable_root => path_starts_with root (wr_root writable_root)) writable_roots
  then from_option id root (canonical_target_if_symlinked_path root) else root.

Definition base_args (pol : FileSystemSandboxPolicy) (cwd : str) (writable_roots : list WritableRoot) : list str :=
  if has_full_disk_read_access pol then READ_ONLY_ROOT_ARGS
  else
    let readable_roots := readable_roots_of pol cwd in
    if existsb (fun root => bool_decide (root = [RootDir])) readable_roots then READ_ONLY_ROOT_ARGS
    else EMPTY_ROOT_ARGS
         ++ flat_map (fun root =>
              if negb (host_exists H root) then []
              else let mount_root := readable_mount_root writable_roots root in
                   [lit "--ro-bind"; path_to_string mount_root; path_to_string mount_root]) readable_roots.

Definition allowed_paths (writable_roots : list WritableRoot) : list path :=
  flat_map (fun writable_root =>
    wr_root writable_root
    :: match canonical_target_if_symlinked_path (wr_root writable_root) with Some target => [target] | None => [] end)
    writable_roots.

(** The body of the loop over the writable roots. *)
Definition append_writable_root (unreadable_roots missing_auto allowed_write_paths : list path) (b : BwrapArgs)
    (writable_root : WritableRoot) : result CodexErr BwrapArgs :=
  let root := wr_root writable_root in
  let symlink_target := canonical_target_if_symlinked_path root in
  let b :=
    match max_by (fun p q => (path_depth p <=? path_depth q)%nat)
            (List.filter (fun unreadable_root => path_starts_with root unreadable_root) unreadable_roots) with
    | Some masking_root => push_args b (append_mount_target_parent_dir_args root masking_root)
    | None => b
    end in
  let mount_root := from_option id root symlink_target in
  let b := push_args b [lit "--bind"; path_to_string mount_root; path_to_string mount_root] in
  let read_only_subpaths :=
    List.filter (fun p => negb (bool_decide (p ∈ missing_auto)))
      (List.filter (fun p => negb (bool_decide (p ∈ unreadable_roots))) (read_only_subpaths writable_root)) in
  let names := protected_metadata_names writable_root in
  let read_only_subpaths := append_metadata_path_masks_for_writable_root read_only_subpaths root mount_root names in
  let read_only_subpaths :=
    match symlink_target with
    | Some target => remap_paths_for_symlink_target read_only_subpaths root target
    | None => read_only_subpaths
    end in
  let b := append_protected_create_targets_for_writable_root b names root symlink_target read_only_subpaths in
  b ← for_each (fun b subpath => append_read_only_subpath_args b subpath allowed_write_paths) b
        (sort_by_key path_depth read_only_subpaths);
  let nested_unreadable_roots := List.filter (fun p => path_starts_with p root) unreadable_roots in
  let nested_unreadable_roots :=
    match symlink_target with
    | Some target => remap_paths_for_symlink_target nested_unreadable_roots root target
    | None => nested_unreadable_roots
    end in
  for_each (fun b unreadable_root => append_unreadable_root_args b unreadable_root allowed_write_paths) b
    (sort_by_key path_depth nested_unreadable_roots).

Definition create_filesystem_args (fuel : nat) (pol : FileSystemSandboxPolicy) (cwd : str)
    (scan_max_depth : option N) : result CodexErr BwrapArgs :=
  let unreadable_globs := get_unreadable_globs_with_cwd H pol cwd in
  writable_roots ← existing_writable_roots pol cwd unreadable_globs;
  let missing_auto := missing_auto_metadata pol cwd in
  expanded ← expand_unreadable_globs_with_ripgrep fuel unreadable_globs cwd scan_max_depth;
  let unreadable_roots :=
    dedup_paths (sort_by path_leb (get_unreadable_roots_with_cwd H pol cwd ++ expanded)) in
  let b := mkBwrapArgs (base_args pol cwd writable_roots) [] [] [] in
  let allowed_write_paths := allowed_paths writable_roots in
  let sorted_writable_roots := sort_by_key (fun w => path_depth (wr_root w)) writable_roots in
  let unreadable_ancestors_of_writable_roots :=
    sort_by_key path_depth
      (List.filter (fun unreadable_root =>
         negb (existsb (fun root => path_starts_with unreadable_root root) allowed_write_paths)
         && existsb (fun root => path_starts_with root unreadable_root) allowed_write_paths) unreadable_roots) in
  b ← for_each (fun b unreadable_root => append_unreadable_root_args b unreadable_root allowed_write_paths) b
        unreadable_ancestors_of_writable_roots;
  b ← for_each (append_writable_root unreadable_roots missing_auto allowed_write_paths) b sorted_writable_roots;
  let rootless_unreadable_roots :=
    sort_by_key path_depth
      (List.filter (fun unreadable_root =>
         negb (existsb (fun root => path_starts_with unreadable_root root || path_starts_with root unreadable_root)
                 allowed_write_paths)) unreadable_roots) in
  for_each (fun b unreadable_root => append_unreadable_root_args b unreadable_root allowed_write_paths) b
    rootless_unreadable_roots.

(** ** The command line *)

Definition create_bwrap_flags_full_filesystem (command : list str) (options : BwrapOptions) : BwrapArgs :=
  mkBwrapArgs
    ([lit "--new-session"; lit "--die-with-parent"; lit "--bind"; [SLASH]; [SLASH]; lit "--unshare-user"; lit "--unshare-pid"]
     ++ (if should_unshare_network (network_mode options) then [lit "--unshare-net"] else [])
     ++ (if mount_proc options then [lit "--proc"; lit "/proc"] else [])
     ++ [lit "--"] ++ command) [] [] [].

Definition normalize_command_cwd_for_bwrap (command_cwd : path) : path :=
  from_option id command_cwd (host_canonicalize H command_cwd).

Definition create_bwrap_flags (fuel : nat) (command : list str) (pol : FileSystemSandboxPolicy) (sandbox_policy_cwd : str)
    (command_cwd : path) (options : BwrapOptions) : result CodexErr BwrapArgs :=
  b ← create_filesystem_args fuel pol sandbox_policy_cwd
        (match options_glob_scan_max_depth options with
         | Some depth => Some depth
         | None => glob_scan_max_depth pol
         end);
  let normalized_command_cwd := normalize_command_cwd_for_bwrap command_cwd in
  Ok (mkBwrapArgs
        ([lit "--new-session"; lit "--die-with-parent"] ++ args b ++ [lit "--unshare-user"; lit "--unshare-pid"]
         ++ (if should_unshare_network (network_mode options) then [lit "--unshare-net"] else [])
         ++ (if mount_proc options then [lit "--proc"; lit "/proc"] else [])
         ++ (if negb (bool_decide (normalized_command_cwd = command_cwd))
             then [lit "--chdir"; path_to_string normalized_command_cwd] else [])
         ++ [lit "--"] ++ command)
        (preserved_files b) (synthetic_mount_targets b) (protected_create_targets b)).

Definition create_bwrap_command_args (fuel : nat) (command : list str) (pol : FileSystemSandboxPolicy)
    (sandbox_policy_cwd : str) (command_cwd : path) (options : BwrapOptions) : result CodexErr BwrapArgs :=
  let unreadable_globs := get_unreadable_globs_with_cwd H pol sandbox_policy_cwd in
  if has_full_disk_write_access pol && match unreadable_globs with [] => true | _ => false end then
    if bool_decide (network_mode options = FullAccess) then Ok (mkBwrapArgs command [] [] [])
    else Ok (create_bwrap_flags_full_filesystem command options)
  else create_bwrap_flags fuel command pol sandbox_policy_cwd command_cwd options.
End linux.
