(* ===== verification/BwrapView.v ===== *)
(** * What the bubblewrap mounts show: the enforcement of a policy

    The command line of [Bwrap] is read back by the rules of bwrap(1): each
    operation is carried out in turn and a mount covers what earlier ones
    showed below its destination.  On a host without symbolic links the
    theorems show that a path the sandbox can write on the host is one the
    policy lets it write, that a path it can read there is one the policy lets
    it read, with the exceptions they name, and that the command after [--] is
    the one that was asked for. *)

From S2P Require Import Prelude AbsolutePath Host Permissions SandboxRoots Bwrap.

(** ** What the mounts mean

    The operations of bwrap(1) the code uses, in the order they are given. *)

Inductive Op : Type :=
| OpBind (src dst : str)
| OpRoBind (src dst : str)
| OpRoBindData (fd dst : str)
| OpTmpfs (dst : str)
| OpDev (dst : str)
| OpProc (dst : str)
| OpDir (dst : str)
| OpRemountRo (dst : str)
| OpPerms (mode : str)
| OpChdir (dir : str)
| OpArgv0 (name : str)
| OpFlag (flag : str).

Definition FLAGS : list str :=
  [lit "--new-session"; lit "--die-with-parent"; lit "--unshare-user"; lit "--unshare-pid"; lit "--unshare-net"].
Definition unary_op (flag arg : str) : option Op :=
  if flag =s? lit "--tmpfs" then Some (OpTmpfs arg)
  else if flag =s? lit "--dev" then Some (OpDev arg)
  else if flag =s? lit "--proc" then Some (OpProc arg)
  else if flag =s? lit "--dir" then Some (OpDir arg)
  else if flag =s? lit "--remount-ro" then Some (OpRemountRo arg)
  else if flag =s? lit "--perms" then Some (OpPerms arg)
  else if flag =s? lit "--chdir" then Some (OpChdir arg)
  else if flag =s? lit "--argv0" then Some (OpArgv0 arg)
  else None.
Definition binary_op (flag a b : str) : option Op :=
  if flag =s? lit "--bind" then Some (OpBind a b)
  else if flag =s? lit "--ro-bind" then Some (OpRoBind a b)
  else if flag =s? lit "--ro-bind-data" then Some (OpRoBindData a b)
  else None.

(** The options of a bwrap command line up to [--], and the command after it. *)
Fixpoint parse_ops (l : list str) : option (list Op * list str) :=
  match l with
  | [] => None
  | flag :: l =>
      if flag =s? lit "--" then Some ([], l)
      else if bool_decide (flag ∈ FLAGS) then prod_map (cons (OpFlag flag)) id <$> parse_ops l
      else match l with
           | [] => None
           | a :: l =>
               match unary_op flag a with
               | Some op => prod_map (cons op) id <$> parse_ops l
               | None =>
                   match l with
                   | [] => None
                   | b :: l =>
                       match binary_op flag a b with
                       | Some op => prod_map (cons op) id <$> parse_ops l
                       | None => None
                       end
                   end
               end
           end
  end.

(** What of the host shows at a path of the sandbox. *)
Inductive Exposure : Type :=
| Hidden
| ReadOnlyAt (p : path)
| WritableAt (p : path).
#[export] Instance Exposure_eq_dec : EqDecision Exposure.
Proof. solve_decision. Defined.

(** Each mount covers what earlier ones showed below its destination. *)
Definition expose_step (p : path) (e : Exposure) (op : Op) : Exposure :=
  match op with
  | OpBind src dst =>
      match strip_path_prefix (components dst) p with Some rest => WritableAt (components src ++ rest) | None => e end
  | OpRoBind src dst =>
      match strip_path_prefix (components dst) p with Some rest => ReadOnlyAt (components src ++ rest) | None => e end
  | OpRoBindData _ dst | OpTmpfs dst | OpDev dst | OpProc dst =>
      if path_starts_with p (components dst) then Hidden else e
  | OpDir _ | OpRemountRo _ | OpPerms _ | OpChdir _ | OpArgv0 _ | OpFlag _ => e
  end.
Definition exposure (ops : list Op) (p : path) : Exposure := fold_left (expose_step p) ops Hidden.

(** ** Rendering and parsing operations *)

Definition render (op : Op) : list str :=
  match op with
  | OpBind src dst => [lit "--bind"; src; dst]
  | OpRoBind src dst => [lit "--ro-bind"; src; dst]
  | OpRoBindData fd dst => [lit "--ro-bind-data"; fd; dst]
  | OpTmpfs dst => [lit "--tmpfs"; dst]
  | OpDev dst => [lit "--dev"; dst]
  | OpProc dst => [lit "--proc"; dst]
  | OpDir dst => [lit "--dir"; dst]
  | OpRemountRo dst => [lit "--remount-ro"; dst]
  | OpPerms mode => [lit "--perms"; mode]
  | OpChdir dir => [lit "--chdir"; dir]
  | OpArgv0 name => [lit "--argv0"; name]
  | OpFlag flag => [flag]
  end.
Definition op_ok (op : Op) : Prop := match op with OpFlag flag => flag ∈ FLAGS | _ => True end.

Lemma parse_render_op op l : op_ok op -> parse_ops (render op ++ l) = prod_map (cons op) id <$> parse_ops l.
Proof.
  intros Hop. destruct op; cbn [render app]; try done.
  cbn [op_ok] in Hop. cbn [parse_ops]. rewrite (bool_decide_eq_true_2 (flag ∈ FLAGS)) by done.
  rewrite bool_decide_eq_false_2; [done|]. intros ->. revert Hop. apply (bool_decide_unpack _). by vm_compute.
Qed.

Lemma parse_render ops command :
  Forall op_ok ops -> parse_ops (flat_map render ops ++ lit "--" :: command) = Some (ops, command).
Proof.
  induction 1 as [|op ops Hop _ IH]; [done|]. cbn [flat_map]. rewrite <- app_assoc, parse_render_op, IH by done. done.
Qed.

(** ** What a run of operations does to a path *)

Definition run (p : path) (e : Exposure) (ops : list Op) : Exposure := fold_left (expose_step p) ops e.

(** Where an operation mounts something, and whether it shows the host. *)
Definition mount_dest (op : Op) : option path :=
  match op with
  | OpBind _ dst | OpRoBind _ dst | OpRoBindData _ dst | OpTmpfs dst | OpDev dst | OpProc dst => Some (components dst)
  | _ => None
  end.
Definition is_quiet (op : Op) : bool := match op with OpBind _ _ | OpRoBind _ _ => false | _ => true end.
Definition is_read_only (op : Op) : bool := match op with OpBind _ _ => false | _ => true end.
Definition covers (op : Op) (p : path) : Prop := exists d, mount_dest op = Some d /\ path_starts_with p d = true.

Lemma run_app p e ops ops' : run p e (ops ++ ops') = run p (run p e ops) ops'.
Proof. apply fold_left_app. Qed.

Lemma expose_uncovered p e op : ~ covers op p -> expose_step p e op = e.
Proof.
  intros Hn. assert (forall d, mount_dest op = Some d -> path_starts_with p d = false) as Hd.
  { intros d Hd. apply not_true_is_false. intros Hp. apply Hn. by exists d. }
  assert (forall d, path_starts_with p d = false -> strip_path_prefix d p = None) as Hs.
  { intros d Hp. unfold path_starts_with in Hp. bool_to_prop. by apply eq_None_not_Some. }
  destruct op; cbn in *; try done; rewrite ?(Hs _ (Hd _ eq_refl)), ?(Hd _ eq_refl); done.
Qed.

Lemma run_uncovered p e ops : (forall op, op ∈ ops -> ~ covers op p) -> run p e ops = e.
Proof.
  revert e. induction ops as [|op ops IH]; intros e Hn; [done|]. cbn [run fold_left].
  rewrite expose_uncovered by (apply Hn; set_solver). apply IH. set_solver.
Qed.

Lemma run_quiet p e ops : Forall (fun op => is_quiet op = true) ops -> run p e ops = e \/ run p e ops = Hidden.
Proof.
  intros Hq. revert e. induction Hq as [|op ops Hop _ IH]; intros e; [by left|]. cbn [run fold_left].
  destruct (IH (expose_step p e op)) as [E|E]; [|by right]. unfold run in E. rewrite E.
  destruct op; cbn in *; try done; try (by left); case_goal; by auto.
Qed.

(** A run that shows nothing of the host hides every path one of its mounts covers. *)
Lemma run_quiet_covered p e ops op :
  Forall (fun op => is_quiet op = true) ops -> op ∈ ops -> covers op p -> run p e ops = Hidden.
Proof.
  intros Hq Hin (d & Hd & Hp). revert e. induction Hq as [|op' ops Hop Hq IH]; intros e; [set_solver|].
  apply elem_of_cons in Hin as [<-|Hin]; [|by apply IH]. cbn [run fold_left].
  assert (expose_step p e op = Hidden) as -> by (destruct op; cbn in *; simplify_eq; by rewrite Hp).
  destruct (run_quiet p Hidden ops Hq); done.
Qed.

Lemma run_read_only p e ops q :
  Forall (fun op => is_read_only op = true) ops -> run p e ops = WritableAt q ->
  e = WritableAt q /\ forall op, op ∈ ops -> ~ covers op p.
Proof.
  intros Hr. revert e. induction Hr as [|op ops Hop _ IH]; intros e Hrun; [split; [done|set_solver]|].
  cbn [run fold_left] in Hrun. apply IH in Hrun as [He Hn].
  destruct (decide (path_starts_with p (from_option id [CurDir; CurDir] (mount_dest op)) = true /\ is_Some (mount_dest op)))
    as [[Hp Hm]|Hc].
  - exfalso. destruct op; cbn in *; try done; try (by destruct Hm); try (by rewrite Hp in He).
    unfold path_starts_with in Hp. bool_to_prop. destruct Hp as [r Hr]. by rewrite Hr in He.
  - assert (~ covers op p) as Hnc.
    { intros (d & Hd & Hpd). apply Hc. rewrite Hd. cbn. split; [done|by eexists]. }
    rewrite expose_uncovered in He by done. split; [done|]. intros o [->|Ho]%elem_of_cons; [done|by apply Hn].
Qed.

(** ** A host without symbolic links *)

Record linux_ok (L : LinuxHost) : Prop := {
  lx_ok : host_ok (lx_host L);
  lx_canonical : no_symlinks (lx_host L);
  lx_no_links : forall p m, lx_metadata L p = Some m -> md_type m <> FtSymlink;
  lx_parents : forall p q, host_exists (lx_host L) (p ++ q) = true -> p <> [] -> host_exists (lx_host L) p = true;
  lx_not_found_missing : forall p, lx_not_found L p = true -> host_exists (lx_host L) p = false
}.

Section no_links.
Context (L : LinuxHost) (Hlx : linux_ok L).
Notation H := (lx_host L).

Lemma is_symlink_never p : is_symlink_at L p <> Some true.
Proof.
  unfold is_symlink_at. destruct (lx_metadata L p) as [m|] eqn:Hm; [|done].
  rewrite bool_decide_eq_false_2 by by eapply lx_no_links. done.
Qed.

Lemma canonical_target_none p : canonical_target_if_symlinked_path L p = None.
Proof.
  unfold canonical_target_if_symlinked_path. generalize (@nil Component) at 1. generalize p at 2.
  intros cs. induction cs as [|c cs IH]; intros cur; [done|]. cbn [canonical_target_loop].
  destruct (walk_step cur c) as [cur' [|]]; [|apply IH]. pose proof (is_symlink_never cur').
  destruct (is_symlink_at L cur') as [[|]|]; [done|apply IH|done].
Qed.

Lemma writable_symlink_none p allowed : first_writable_symlink_component_in_path L p allowed = None.
Proof.
  unfold first_writable_symlink_component_in_path. generalize (@nil Component).
  induction p as [|c cs IH]; intros cur; [done|]. cbn [first_writable_symlink_loop].
  destruct (walk_step cur c) as [cur' [|]]; [|apply IH]. pose proof (is_symlink_never cur').
  destruct (is_symlink_at L cur') as [[|]|]; [done|apply IH|done].
Qed.

(** The first missing component of a path that does not exist, below one that does. *)
Lemma first_missing_spec r p :
  absolute_normalized p -> absolute_normalized r -> path_starts_with p r = true ->
  host_exists H r = true -> host_exists H p = false ->
  exists f, find_first_non_existent_component L p = Some f
    /\ path_starts_with p f = true /\ path_starts_with f r = true /\ absolute_normalized f.
Proof.
  intros Hp Hr Hpr Her Hep.
  assert (forall cs names, Forall file_name_ok names -> absolute_normalized cs ->
    host_exists H (cs ++ map Normal names) = false -> host_exists H cs = true ->
    exists f, first_missing_loop L cs (map Normal names) = Some f /\ host_exists H f = false
      /\ path_starts_with (cs ++ map Normal names) f = true /\ absolute_normalized f) as Hloop.
  { intros cs names Hn. revert cs. induction Hn as [|n names Hn Hns IH]; intros cs Hcs Hmiss Hex; cbn [map] in *.
    { rewrite app_nil_r in Hmiss. congruence. }
    cbn [first_missing_loop walk_step pathbuf_push].
    destruct (host_exists H (cs ++ [Normal n])) eqn:Hex'; cbn [andb negb].
    - destruct (IH (cs ++ [Normal n])) as (f & Hf); [by apply absolute_normalized_snoc|by rewrite <- app_assoc|done|].
      exists f. by rewrite <- app_assoc in Hf.
    - exists (cs ++ [Normal n]). split_and!; [done..| |by apply absolute_normalized_snoc].
      apply path_starts_with_app. exists (map Normal names). by rewrite <- app_assoc. }
  pose proof Hp as (names & -> & Hnames). unfold find_first_non_existent_component.
  assert (host_exists H [RootDir] = true) as Hroot.
  { destruct Hr as (rn & -> & _). by apply (lx_parents L Hlx [RootDir] (map Normal rn)). }
  destruct (Hloop [RootDir] names Hnames) as (f & Hf & Hmiss & Hpf & Hnf); [by exists []|done|done|].
  exists f. split_and!; [done|done| |done].
  destruct (decide (length r <= length f)%nat) as [Hl|Hl]; [by apply (prefixes_comparable (RootDir :: map Normal names))|].
  exfalso. assert (path_starts_with r f = true) as Hrf
    by (apply (prefixes_comparable (RootDir :: map Normal names)); [done..|lia]).
  apply path_starts_with_app in Hrf as [s ->].
  rewrite (lx_parents L Hlx f s Her) in Hmiss; [done|]. by destruct Hnf as (? & -> & _).
Qed.

(** What a step of the construction may do: append operations, and nothing to
    the create targets. *)
Definition appends (b b' : BwrapArgs) (ops : list Op) : Prop :=
  args b' = args b ++ flat_map render ops /\ protected_create_targets b' = protected_create_targets b.

Lemma appends_app b b' b'' ops ops' : appends b b' ops -> appends b' b'' ops' -> appends b b'' (ops ++ ops').
Proof. intros [Ha Hc] [Ha' Hc']. split; [|congruence]. by rewrite Ha', Ha, flat_map_app, app_assoc. Qed.
Lemma appends_nil b : appends b b [].
Proof. split; [by rewrite app_nil_r|done]. Qed.

Lemma components_display_prefix p : absolute_normalized p -> path_starts_with p (components (display p)) = true.
Proof. intros Hp. rewrite components_display by done. apply path_starts_with_refl. Qed.

Lemma dir_args_ops target anchor :
  exists ops, append_mount_target_parent_dir_args L target anchor = flat_map render ops
    /\ Forall (fun op => exists d, op = OpDir d) ops.
Proof.
  assert (forall l : list path, exists ops, flat_map (fun dir => [lit "--dir"; path_to_string dir]) l = flat_map render ops
    /\ Forall (fun op => exists d, op = OpDir d) ops) as Hl.
  { induction l as [|d l (ops & E & Ho)]; [by exists []|]. exists (OpDir (path_to_string d) :: ops).
    cbn [flat_map]. rewrite E. split; [done|]. constructor; [by eexists|done]. }
  unfold append_mount_target_parent_dir_args. destruct (host_is_dir H target); [apply Hl|].
  destruct (parent target); [apply Hl|by exists []].
Qed.

Lemma dir_args_all targets anchor :
  exists ops, flat_map (fun t => append_mount_target_parent_dir_args L t anchor) targets = flat_map render ops
    /\ Forall (fun op => exists d, op = OpDir d) ops.
Proof.
  induction targets as [|t targets (ops & E & Ho)]; [by exists []|].
  destruct (dir_args_ops t anchor) as (ops' & E' & Ho'). exists (ops' ++ ops).
  cbn [flat_map]. rewrite E, E', flat_map_app. split; [done|]. by apply Forall_app.
Qed.

Lemma empty_file_ops b p b' :
  append_empty_file_bind_data_args L b p = Ok b' -> exists fd, appends b b' [OpRoBindData fd (display p)].
Proof.
  unfold append_empty_file_bind_data_args. intros Hb.
  destruct (preserved_files b) as [|fd fds].
  - destruct (lx_open_dev_null L) as [fd|]; simplify_eq. by exists (show_N fd).
  - simplify_eq. by exists (show_N fd).
Qed.

Lemma Forall_dir_quiet ops : Forall (fun op => exists d, op = OpDir d) ops -> Forall (fun op => is_quiet op = true /\ op_ok op) ops.
Proof. intros Ho. eapply Forall_impl; [exact Ho|]. by intros op [d ->]. Qed.

(** A path below a writable root that exists. *)
Definition below_writable (allowed : list path) (s : path) : Prop :=
  exists r, r ∈ allowed /\ absolute_normalized r /\ host_exists H r = true /\ path_starts_with s r = true.

Lemma below_writable_within allowed s : below_writable allowed s -> is_within_allowed_write_paths s allowed = true.
Proof. intros (r & Hr & _ & _ & Hs). apply existsb_exists. exists r. by rewrite <- list_elem_of_In. Qed.

Lemma below_writable_missing allowed s :
  absolute_normalized s -> below_writable allowed s -> host_exists H s = false ->
  exists f, find_first_non_existent_component L s = Some f /\ path_starts_with s f = true
    /\ absolute_normalized f /\ is_within_allowed_write_paths f allowed = true.
Proof.
  intros Hs (r & Hr & Hrn & Hre & Hsr) Hex.
  destruct (first_missing_spec r s Hs Hrn Hsr Hre Hex) as (f & Hf & Hsf & Hfr & Hfn).
  exists f. split_and!; [done..|]. apply existsb_exists. exists r. by rewrite <- list_elem_of_In.
Qed.

(** [masks b b' u when]: operations that show nothing of the host were
    appended, and they cover [u] in the case [when]. *)
Definition masks (b b' : BwrapArgs) (u : path) (cond : Prop) : Prop :=
  exists ops, appends b b' ops /\ Forall (fun op => is_quiet op = true /\ op_ok op) ops
    /\ (cond -> exists op, op ∈ ops /\ covers op u).

Lemma masks_intro b b' u p op ops (cond : Prop) :
  appends b b' ops -> Forall (fun op => is_quiet op = true /\ op_ok op) ops -> op ∈ ops ->
  mount_dest op = Some (components (display p)) ->
  (cond -> absolute_normalized p /\ path_starts_with u p = true) -> masks b b' u cond.
Proof.
  intros Ha Hq Hop Hd Hc. exists ops. split_and!; [done..|]. intros Hcond. exists op. split; [done|].
  exists (components (display p)). destruct (Hc Hcond).
  split; [done|]. by rewrite components_display.
Qed.

Lemma masks_none b u (cond : Prop) : (cond -> False) -> masks b b u cond.
Proof. intros Hc. exists []. split_and!; [apply appends_nil|done|]. by intros ?%Hc. Qed.

Lemma empty_file_masks b p b' u (cond : Prop) :
  append_empty_file_bind_data_args L b p = Ok b' -> (cond -> absolute_normalized p /\ path_starts_with u p = true) ->
  masks b b' u cond.
Proof.
  intros (fd & Ha)%empty_file_ops.
  apply masks_intro with (op := OpRoBindData fd (display p)) (ops := [OpRoBindData fd (display p)]);
    [done|by repeat constructor|set_solver|done].
Qed.

Lemma empty_directory_masks b p u (cond : Prop) :
  (cond -> absolute_normalized p /\ path_starts_with u p = true) -> masks b (append_empty_directory_args b p) u cond.
Proof.
  apply masks_intro with (op := OpTmpfs (display p))
    (ops := [OpPerms (lit "555"); OpTmpfs (display p); OpRemountRo (display p)]);
    [done|by repeat constructor|set_solver|done].
Qed.

Lemma masks_synthetic b b' u t cond : masks b b' u cond -> masks b (push_synthetic b' t) u cond.
Proof. done. Qed.

Lemma unreadable_ops b u allowed b' :
  append_unreadable_root_args L b u allowed = Ok b' ->
  masks b b' u (absolute_normalized u /\ (host_exists H u = true \/ below_writable allowed u)).
Proof.
  unfold append_unreadable_root_args. rewrite writable_symlink_none.
  destruct (host_exists H u) eqn:Hex; cbn [negb].
  - unfold append_existing_unreadable_path_args. destruct (host_is_dir H u) eqn:Hd.
    + set (wd := List.filter _ allowed). intros [= <-].
      destruct (dir_args_all (sort_by_key path_depth wd) u) as (ops & E & Ho). rewrite E.
      apply masks_intro with (p := u) (op := OpTmpfs (display u))
        (ops := [OpPerms (match wd with [] => lit "000" | _ => lit "111" end); OpTmpfs (display u)] ++ ops
              ++ [OpRemountRo (display u)]); [| |set_solver|done|naive_solver auto with rust].
      * split; [|done]. cbn [push_args args]. by rewrite !flat_map_app.
      * repeat (apply Forall_app; split); try (by repeat constructor). by apply Forall_dir_quiet.
    + intros (fd & Ha & Hc)%empty_file_ops.
      apply masks_intro with (p := u) (op := OpRoBindData fd (display u))
        (ops := [OpPerms (lit "000"); OpRoBindData fd (display u)]);
        [|by repeat constructor|set_solver|done|naive_solver auto with rust].
      split; [|done]. rewrite Ha. cbn [push_args args]. by rewrite <- app_assoc.
  - destruct (find_first_non_existent_component L u) as [f|] eqn:Hf.
    + destruct (is_within_allowed_write_paths f allowed) eqn:Hw.
      * unfold append_missing_empty_file_bind_data_args.
        destruct (append_empty_file_bind_data_args L b f) as [b1|] eqn:Hb; [|done]. intros [= <-].
        apply masks_synthetic. eapply empty_file_masks; [done|]. intros [Hu [|Hr]]; [done|].
        destruct (below_writable_missing allowed u Hu Hr Hex) as (f' & Hf' & ? & ? & _). by simplify_eq.
      * intros [= <-]. apply masks_none. intros [Hu [|Hr]]; [done|].
        destruct (below_writable_missing allowed u Hu Hr Hex) as (f' & Hf' & _ & _ & ?). simplify_eq. congruence.
    + intros [= <-]. apply masks_none. intros [Hu [|Hr]]; [done|].
      destruct (below_writable_missing allowed u Hu Hr Hex) as (f' & Hf' & _). congruence.
Qed.

(** A read-only subpath below a writable root is covered by a mask or by a
    read-only bind of itself. *)
Definition restricts (b b' : BwrapArgs) (s : path) (cond : Prop) : Prop :=
  masks b b' s cond \/ appends b b' [OpRoBind (display s) (display s)].

Lemma read_only_ops b s allowed b' :
  append_read_only_subpath_args L b s allowed = Ok b' ->
  restricts b b' s (absolute_normalized s /\ below_writable allowed s).
Proof.
  unfold append_read_only_subpath_args. rewrite writable_symlink_none. unfold restricts.
  assert (forall b', (if negb (host_exists H s) then
      match find_first_non_existent_component L s with
      | Some f => if is_within_allowed_write_paths f allowed then append_missing_read_only_subpath_args L b f else Ok b
      | None => Ok b end
    else if is_within_allowed_write_paths s allowed
      then Ok (push_args b [lit "--ro-bind"; path_to_string s; path_to_string s]) else Ok b) = Ok b' ->
    restricts b b' s (absolute_normalized s /\ below_writable allowed s)) as Hrest.
  { clear b'. intros b'. destruct (host_exists H s) eqn:Hex; cbn [negb].
    - destruct (is_within_allowed_write_paths s allowed) eqn:Hw; intros [= <-]; [by right|].
      left. apply masks_none. intros [_ Hr%below_writable_within]. congruence.
    - destruct (find_first_non_existent_component L s) as [f|] eqn:Hf.
      + destruct (is_within_allowed_write_paths f allowed) eqn:Hw.
        * unfold append_missing_read_only_subpath_args, append_missing_empty_file_bind_data_args.
          assert (absolute_normalized s /\ below_writable allowed s -> absolute_normalized f /\ path_starts_with s f = true) as Hc.
          { intros [Hs Hr]. destruct (below_writable_missing allowed s Hs Hr Hex) as (f' & Hf' & ? & ? & _). by simplify_eq. }
          destruct (has_protected_metadata_name f).
          -- intros [= <-]. left. by apply masks_synthetic, empty_directory_masks.
          -- destruct (append_empty_file_bind_data_args L b f) as [b1|] eqn:Hb1; [|done]. intros [= <-].
             left. apply masks_synthetic. by eapply empty_file_masks.
        * intros [= <-]. left. apply masks_none. intros [Hs Hr].
          destruct (below_writable_missing allowed s Hs Hr Hex) as (f' & Hf' & _ & _ & ?). simplify_eq. congruence.
      + intros [= <-]. left. apply masks_none. intros [Hs Hr].
        destruct (below_writable_missing allowed s Hs Hr Hex) as (f' & Hf' & _). congruence. }
  destruct (transient_empty_metadata_path L s) as [[m|m]|]; [| |apply Hrest];
    (destruct (is_within_allowed_write_paths s allowed) eqn:Hw; [|apply Hrest]).
  - unfold append_existing_empty_file_bind_data_args.
    destruct (append_empty_file_bind_data_args L b s) as [b1|] eqn:Hb1; [|done]. intros [= <-].
    left. apply masks_synthetic. eapply empty_file_masks; [done|]. naive_solver auto with rust.
  - intros [= <-]. left. apply masks_synthetic, empty_directory_masks. naive_solver auto with rust.
Qed.

Lemma unreadable_all us : forall b allowed b',
  for_each (fun b u => append_unreadable_root_args L b u allowed) b us = Ok b' ->
  exists ops, appends b b' ops /\ Forall (fun op => is_quiet op = true /\ op_ok op) ops
    /\ forall u, u ∈ us -> absolute_normalized u -> host_exists H u = true \/ below_writable allowed u ->
       exists op, op ∈ ops /\ covers op u.
Proof.
  induction us as [|u us IH]; intros b allowed b'; cbn [for_each].
  - intros [= <-]. exists []. split_and!; [apply appends_nil|done|set_solver].
  - destruct (append_unreadable_root_args L b u allowed) as [b1|] eqn:Hb; [|done]. intros Hr.
    apply unreadable_ops in Hb as (ops1 & Ha1 & Hq1 & Hc1).
    apply IH in Hr as (ops2 & Ha2 & Hq2 & Hc2). exists (ops1 ++ ops2). split_and!.
    + by eapply appends_app.
    + by apply Forall_app.
    + intros v [->|Hv]%elem_of_cons Hn Hcond.
      * destruct Hc1 as (op & Hop & Hcov); [done|]. exists op. set_solver.
      * destruct (Hc2 v Hv Hn Hcond) as (op & Hop & Hcov). exists op. set_solver.
Qed.

Lemma read_only_all ss : forall b allowed b',
  for_each (fun b s => append_read_only_subpath_args L b s allowed) b ss = Ok b' ->
  exists ops, appends b b' ops /\ Forall op_ok ops
    /\ Forall (fun op => is_quiet op = true \/ exists s, s ∈ ss /\ op = OpRoBind (display s) (display s)) ops
    /\ forall s, s ∈ ss -> absolute_normalized s -> below_writable allowed s -> exists op, op ∈ ops /\ covers op s.
Proof.
  induction ss as [|s ss IH]; intros b allowed b'; cbn [for_each].
  - intros [= <-]. exists []. split_and!; [apply appends_nil|done|done|set_solver].
  - destruct (append_read_only_subpath_args L b s allowed) as [b1|] eqn:Hb; [|done]. intros Hr.
    apply IH in Hr as (ops2 & Ha2 & Hk2 & Hq2 & Hc2).
    assert (exists ops1, appends b b1 ops1 /\ Forall op_ok ops1
      /\ Forall (fun op => is_quiet op = true \/ op = OpRoBind (display s) (display s)) ops1
      /\ (absolute_normalized s -> below_writable allowed s -> exists op, op ∈ ops1 /\ covers op s))
      as (ops1 & Ha1 & Hk1 & Hq1 & Hc1).
    { apply read_only_ops in Hb as [(ops & Ha & Hq & Hc)|Ha].
      - exists ops. split_and!; [done| | |naive_solver]; (eapply Forall_impl; [exact Hq|]); naive_solver.
      - eexists. split; [exact Ha|]. split_and!; [by repeat constructor|repeat constructor; by right|].
        intros Hs _. exists (OpRoBind (display s) (display s)). split; [set_solver|]. exists (components (display s)). split; [done|].
        by apply components_display_prefix. }
    exists (ops1 ++ ops2). split_and!.
    + by eapply appends_app.
    + by apply Forall_app.
    + apply Forall_app. split; (eapply Forall_impl; [eassumption|]); set_solver.
    + intros t [->|Ht]%elem_of_cons Hn Hbel.
      * destruct Hc1 as (op & Hop & Hcov); [done..|]. exists op. set_solver.
      * destruct (Hc2 t Ht Hn Hbel) as (op & Hop & Hcov). exists op. set_solver.
Qed.

Lemma run_binds_read_only p e ops (ss : list path) :
  Forall (fun op => is_quiet op = true \/ exists s, s ∈ ss /\ op = OpRoBind (display s) (display s)) ops ->
  run p e ops = Hidden \/ (run p e ops = e /\ forall op, op ∈ ops -> ~ covers op p)
  \/ (run p e ops = ReadOnlyAt p /\ exists s, s ∈ ss /\ path_starts_with p (components (display s)) = true).
Proof.
  intros Ho. induction ops as [|op ops IH] using rev_ind; [right; left; split; [done|set_solver]|].
  apply Forall_app in Ho as [Ho Hop]. inversion Hop as [|? ? Hop' _]; subst. rewrite run_app. cbn [run fold_left].
  set (e' := run p e ops) in *. fold (run p e ops) in *.
  destruct (decide (path_starts_with p (from_option id [] (mount_dest op)) = true /\ is_Some (mount_dest op))) as [[Hp [d Hd]]|Hn].
  - rewrite Hd in Hp. cbn in Hp. destruct Hop' as [Hq|(s & Hs & ->)].
    + left. destruct op; cbn in *; simplify_eq; by rewrite Hp.
    + right. right. cbn in Hd. simplify_eq. split; [|by exists s]. cbn.
      destruct (strip_path_prefix (components (display s)) p) as [r|] eqn:Hr.
      * apply strip_path_prefix_Some in Hr. congruence.
      * unfold path_starts_with in Hp. rewrite Hr in Hp. bool_to_prop. by destruct Hp.
  - assert (~ covers op p) as Hnc by (intros (d & Hd & Hpd); apply Hn; rewrite Hd; split; [done|by eexists]).
    rewrite expose_uncovered by done. destruct (IH Ho) as [?|[[? Hu]|?]]; [by left| |by right; right].
    right. left. split; [done|]. intros o [Ho'|Ho']%elem_of_app; [by apply Hu|].
    by apply list_elem_of_singleton in Ho' as ->.
Qed.

(** ** One writable root *)

(** The subpaths of a writable root that are made read-only. *)
Definition read_only_list (unreadable missing_auto : list path) (w : WritableRoot) : list path :=
  append_metadata_path_masks_for_writable_root L
    (List.filter (fun p => negb (bool_decide (p ∈ missing_auto)))
       (List.filter (fun p => negb (bool_decide (p ∈ unreadable))) (read_only_subpaths w)))
    (wr_root w) (wr_root w) (protected_metadata_names w).

Lemma create_targets_spec names root ros : forall b,
  let b' := append_protected_create_targets_for_writable_root L b names root None ros in
  args b' = args b
  /\ exists ts, protected_create_targets b' = protected_create_targets b ++ ts
     /\ forall name, name ∈ names -> join_str root name ∉ ros -> host_exists H (join_str root name) = false ->
        join_str root name ∈ ts.
Proof.
  unfold append_protected_create_targets_for_writable_root.
  induction names as [|n names IH]; intros b; cbn [fold_left]; [split; [done|exists []; rewrite app_nil_r; set_solver]|].
  destruct (existsb _ ros || host_exists H (join_str root n)) eqn:Hc.
  - destruct (IH b) as (Ha & ts & Ht & Hin). split; [done|]. exists ts. split; [done|].
    intros name [->|Hname]%elem_of_cons Hros Hex; [|by apply Hin]. rewrite Hex, orb_false_r in Hc.
    apply existsb_exists in Hc as (s & Hs & E). bool_to_prop. subst s. by apply list_elem_of_In in Hs.
  - destruct (IH (push_create_target b (join_str root n))) as (Ha & ts & Ht & Hin). split; [done|].
    exists (join_str root n :: ts). split; [rewrite Ht; cbn; by rewrite <- app_assoc|].
    intros name [->|Hname]%elem_of_cons Hros Hex; [set_solver|]. apply elem_of_cons. right. by apply Hin.
Qed.

(** What the operations of one writable root show of a path. *)
Lemma segment_exposure p e root dops ro nested unreadable allowed ros :
  absolute_normalized root -> host_exists H root = true -> root ∈ allowed ->
  Forall (fun op => exists d, op = OpDir d) dops ->
  Forall (fun op => is_quiet op = true \/ exists s, s ∈ sort_by_key path_depth ros /\ op = OpRoBind (display s) (display s)) ro ->
  Forall (fun op => is_quiet op = true /\ op_ok op) nested ->
  (forall s, s ∈ sort_by_key path_depth ros -> absolute_normalized s -> below_writable allowed s -> exists op, op ∈ ro /\ covers op s) ->
  (forall u, u ∈ sort_by_key path_depth (List.filter (fun p => path_starts_with p root) unreadable) -> absolute_normalized u ->
     host_exists H u = true \/ below_writable allowed u -> exists op, op ∈ nested /\ covers op u) ->
  let e' := run p e (dops ++ [OpBind (display root) (display root)] ++ ro ++ nested) in
  e' = Hidden \/ (e' = e /\ path_starts_with p root = false)
  \/ ((forall u, u ∈ unreadable -> absolute_normalized u -> path_starts_with u root = true -> path_starts_with p u = true -> False)
      /\ ((e' = ReadOnlyAt p /\ exists s, s ∈ ros /\ path_starts_with p (components (display s)) = true)
          \/ (e' = WritableAt p /\ path_starts_with p root = true
              /\ forall s, s ∈ ros -> absolute_normalized s -> path_starts_with s root = true ->
                 path_starts_with p s = true -> False))).
Proof.
  intros Hn Hex Hin Hdir Hro Hne Hcr Hcn e'. subst e'. rewrite !run_app.
  rewrite (run_uncovered p e dops).
  2: { intros op Hop (d & Hd & _). rewrite Forall_forall in Hdir. by destruct (Hdir op Hop) as [? ->]. }
  assert (run p e [OpBind (display root) (display root)] = if path_starts_with p root then WritableAt p else e) as ->.
  { cbn. rewrite components_display by done. unfold path_starts_with. destruct (strip_path_prefix root p) as [r|] eqn:Hr.
    - rewrite bool_decide_eq_true_2 by by eexists. f_equal. by apply strip_path_prefix_Some in Hr.
    - rewrite bool_decide_eq_false_2; [done|]. by intros [? ?]. }
  set (e1 := if _ : bool then WritableAt p else e).
  assert (Forall (fun op => is_quiet op = true) nested) as Hq by (eapply Forall_impl; [exact Hne|]; naive_solver).
  set (e2 := run p e1 ro).
  destruct (run_quiet p e2 nested Hq) as [E|E]; [|by left]. rewrite E.
  destruct (decide (e2 = Hidden)) as [|Hvis]; [by left|]. right.
  assert (forall u, u ∈ unreadable -> absolute_normalized u -> path_starts_with u root = true -> path_starts_with p u = true -> False)
    as Hunr.
  { intros u Hu Hun Hur Hpu. destruct (Hcn u) as (op & Hop & d & Hd & Hud).
    - rewrite sort_by_key_perm. by apply elem_of_filter_bool.
    - done.
    - right. by exists root.
    - apply Hvis. rewrite <- E. eapply run_quiet_covered; [exact Hq|exact Hop|]. exists d. split; [done|].
      by eapply path_starts_with_trans. }
  destruct (run_binds_read_only p e1 ro _ Hro) as [?|[[E2 Hunc]|(E2 & s & Hs & Hps)]]; [done| |].
  - fold e2 in E2. rewrite E2. subst e1. destruct (path_starts_with p root) eqn:Hpr; [|by left].
    right. split; [done|]. right. split_and!; [done..|]. intros s Hs Hsn Hsr Hps.
    destruct (Hcr s) as (op & Hop & d & Hd & Hsd); [by rewrite sort_by_key_perm|done|by exists root|].
    eapply Hunc; [exact Hop|]. exists d. split; [done|]. by eapply path_starts_with_trans.
  - right. split; [done|]. left. split; [exact E2|]. exists s. split; [|done]. by rewrite sort_by_key_perm in Hs.
Qed.

(** The segment of a writable root: whatever it shows of the host is the path
    itself, below the root or a read-only subpath and below no denied path of
    the root; what it shows writable is below no read-only subpath. *)
Lemma writable_root_segment unreadable missing_auto allowed b w b' :
  append_writable_root L unreadable missing_auto allowed b w = Ok b' ->
  wr_root w ∈ allowed -> absolute_normalized (wr_root w) -> host_exists H (wr_root w) = true ->
  exists ops, args b' = args b ++ flat_map render ops /\ Forall op_ok ops
    /\ (exists ts, protected_create_targets b' = protected_create_targets b ++ ts
        /\ forall name, name ∈ protected_metadata_names w ->
           join_str (wr_root w) name ∉ read_only_list unreadable missing_auto w ->
           host_exists H (join_str (wr_root w) name) = false -> join_str (wr_root w) name ∈ ts)
    /\ forall p e, run p e ops = Hidden
         \/ (run p e ops = e /\ path_starts_with p (wr_root w) = false)
         \/ ((forall u, u ∈ unreadable -> absolute_normalized u -> path_starts_with u (wr_root w) = true ->
                path_starts_with p u = true -> False)
             /\ ((run p e ops = ReadOnlyAt p
                  /\ exists s, s ∈ read_only_list unreadable missing_auto w /\ path_starts_with p (components (display s)) = true)
                 \/ (run p e ops = WritableAt p /\ path_starts_with p (wr_root w) = true
                     /\ forall s, s ∈ read_only_list unreadable missing_auto w -> absolute_normalized s ->
                        path_starts_with s (wr_root w) = true -> path_starts_with p s = true -> False))).
Proof.
  unfold append_writable_root. rewrite canonical_target_none. cbn [from_option].
  fold (read_only_list unreadable missing_auto w). set (root := wr_root w). set (ros := read_only_list _ _ w).
  set (b1 := match max_by _ _ with Some _ => _ | None => _ end).
  set (b2 := push_args b1 _).
  destruct (create_targets_spec (protected_metadata_names w) root ros b2) as (Ha3 & ts & Ht3 & Hts).
  set (b3 := append_protected_create_targets_for_writable_root _ _ _ _ _ _) in *.
  destruct (for_each _ b3 _) as [b4|] eqn:Hb4; [|done]. cbn [mbind result_bind]. intros Hb' Hin Hn Hex.
  assert (exists dops, appends b b1 dops /\ Forall (fun op => exists d, op = OpDir d) dops) as (dops & Had & Hdir).
  { subst b1. destruct (max_by _ _) as [m|]; [|exists []; split; [apply appends_nil|done]].
    destruct (dir_args_ops root m) as (ops & E & Ho). exists ops. split; [|done]. split; [|done].
    cbn [push_args args]. by rewrite E. }
  apply read_only_all in Hb4 as (ro & Har & Hkr & Hqr & Hcr).
  apply unreadable_all in Hb' as (nested & Han & Hqn & Hcn).
  exists (dops ++ [OpBind (display root) (display root)] ++ ro ++ nested).
  destruct Had as [Had Hcd], Har as [Har Hcr'], Han as [Han Hcn']. split_and!.
  - rewrite Han, Har, Ha3. subst b2. cbn [push_args args]. rewrite Had, !flat_map_app.
    cbn [flat_map render]. by rewrite !app_nil_r, <- !app_assoc.
  - repeat (apply Forall_app; split); [|by repeat constructor|done|].
    + eapply Forall_impl; [exact Hdir|]. by intros op [d ->].
    + eapply Forall_impl; [exact Hqn|]. naive_solver.
  - exists ts. rewrite Hcn', Hcr', Ht3. subst b2. cbn [push_args protected_create_targets]. by rewrite Hcd.
  - intros p e. by apply (segment_exposure p e root dops ro nested unreadable allowed ros).
Qed.

(** ** All writable roots *)

(** What a root shows of a path that no later root covers. *)
Definition shown_by (unreadable missing_auto : list path) (p : path) (w : WritableRoot) (e : Exposure) : Prop :=
  (forall u, u ∈ unreadable -> absolute_normalized u -> path_starts_with u (wr_root w) = true ->
     path_starts_with p u = true -> False)
  /\ ((e = ReadOnlyAt p
       /\ exists s, s ∈ read_only_list unreadable missing_auto w /\ path_starts_with p (components (display s)) = true)
      \/ (e = WritableAt p /\ path_starts_with p (wr_root w) = true
          /\ forall s, s ∈ read_only_list unreadable missing_auto w -> absolute_normalized s ->
             path_starts_with s (wr_root w) = true -> path_starts_with p s = true -> False)).

Definition root_ok (allowed : list path) (w : WritableRoot) : Prop :=
  wr_root w ∈ allowed /\ absolute_normalized (wr_root w) /\ host_exists H (wr_root w) = true.

Lemma writable_roots_loop unreadable missing_auto allowed ws : forall b b',
  for_each (append_writable_root L unreadable missing_auto allowed) b ws = Ok b' -> Forall (root_ok allowed) ws ->
  exists ops ts, args b' = args b ++ flat_map render ops /\ Forall op_ok ops
    /\ protected_create_targets b' = protected_create_targets b ++ ts
    /\ (forall w name, w ∈ ws -> name ∈ protected_metadata_names w ->
          join_str (wr_root w) name ∉ read_only_list unreadable missing_auto w ->
          host_exists H (join_str (wr_root w) name) = false -> join_str (wr_root w) name ∈ ts)
    /\ forall p e, run p e ops = Hidden
         \/ (run p e ops = e /\ forall w, w ∈ ws -> path_starts_with p (wr_root w) = false)
         \/ exists l w l', ws = l ++ w :: l' /\ shown_by unreadable missing_auto p w (run p e ops)
              /\ forall w', w' ∈ l' -> path_starts_with p (wr_root w') = false.
Proof.
  induction ws as [|w ws IH]; intros b b'; cbn [for_each].
  - intros [= <-] _. exists [], []. rewrite !app_nil_r. split_and!; [done..|set_solver|]. intros p e. right. left. set_solver.
  - destruct (append_writable_root L unreadable missing_auto allowed b w) as [b1|] eqn:Hb; [|done]. intros Hr Hok.
    inversion Hok as [|? ? (Hin & Hn & Hex) Hok']; subst.
    destruct (writable_root_segment _ _ _ _ _ _ Hb Hin Hn Hex) as (ops1 & Ha1 & Hk1 & (ts1 & Ht1 & Hc1) & He1).
    destruct (IH _ _ Hr Hok') as (ops2 & ts2 & Ha2 & Hk2 & Ht2 & Hc2 & He2).
    exists (ops1 ++ ops2), (ts1 ++ ts2). split_and!.
    + by rewrite Ha2, Ha1, flat_map_app, app_assoc.
    + by apply Forall_app.
    + by rewrite Ht2, Ht1, app_assoc.
    + intros w' name [->|Hw']%elem_of_cons Hname Hros Hmiss; apply elem_of_app; [left; by apply Hc1|right; by eapply Hc2].
    + intros p e. rewrite run_app.
      destruct (He2 p (run p e ops1)) as [?|[[E Hu]|(l & w' & l' & -> & Hs & Hl)]]; [by left| |].
      * rewrite E. destruct (He1 p e) as [?|[[E1 Hp]|Hs]]; [by left| |].
        -- right. left. split; [done|]. intros w' [->|Hw']%elem_of_cons; [done|by apply Hu].
        -- right. right. exists [], w, ws. split_and!; [done|exact Hs|done].
      * right. right. exists (w :: l), w', l'. done.
Qed.

(** ** The base and the whole construction *)

(** The places the base shows. *)
Definition base_shows (pol : FileSystemSandboxPolicy) (cwd : str) (p : path) : Prop :=
  has_full_disk_read_access pol = true
  \/ exists r, r ∈ readable_roots_of L pol cwd /\ path_starts_with p (components (display r)) = true.

Lemma base_ops pol cwd ws :
  exists ops, base_args L pol cwd ws = flat_map render ops /\ Forall op_ok ops
    /\ forall p, absolute_normalized p -> run p Hidden ops = Hidden \/ (run p Hidden ops = ReadOnlyAt p /\ base_shows pol cwd p).
Proof.
  set (ro_root := [OpRoBind [SLASH] [SLASH]; OpDev (lit "/dev")]).
  assert (forall p, absolute_normalized p -> run p Hidden ro_root = Hidden \/ run p Hidden ro_root = ReadOnlyAt p) as Hro.
  { intros p (names & -> & _). unfold ro_root. cbn. change (components [SLASH]) with [RootDir]. cbn.
    case_goal; by auto. }
  unfold base_args. destruct (has_full_disk_read_access pol) eqn:Hfull.
  { exists ro_root. split_and!; [done|by repeat constructor|]. intros p Hp. destruct (Hro p Hp); [by left|].
    right. split; [done|]. by left. }
  destruct (existsb _ _) eqn:Hroot.
  { exists ro_root. split_and!; [done|by repeat constructor|]. intros p Hp. destruct (Hro p Hp); [by left|].
    right. split; [done|]. right. apply existsb_exists in Hroot as (r & Hr & E). bool_to_prop. subst r.
    exists [RootDir]. split; [by apply list_elem_of_In|]. apply path_starts_with_app. by destruct Hp as (names & -> & _); eexists. }
  set (roots := readable_roots_of L pol cwd).
  set (f := fun root : path => if negb _ then _ else _).
  assert (forall r, f r = if host_exists H r then render (OpRoBind (display r) (display r)) else []) as Hfr.
  { intros r. subst f. cbv beta. assert (readable_mount_root L ws r = r) as ->; [|by destruct (host_exists H r)].
    unfold readable_mount_root. rewrite canonical_target_none. by case_goal. }
  assert (exists ops, flat_map f roots = flat_map render ops
    /\ Forall op_ok ops
    /\ Forall (fun op => is_quiet op = true \/ exists s, s ∈ roots /\ op = OpRoBind (display s) (display s)) ops)
    as (ops & E & Hk & Hops).
  { clear Hroot. clearbody f. induction roots as [|r roots (ops & E & Hk & Hops)]; [by exists []|]. cbn [flat_map]. rewrite E, Hfr.
    destruct (host_exists H r).
    - exists (OpRoBind (display r) (display r) :: ops). split_and!; [done|by constructor|].
      constructor; [right; exists r; set_solver|]. eapply Forall_impl; [exact Hops|]. set_solver.
    - exists ops. split_and!; [done..|]. eapply Forall_impl; [exact Hops|]. set_solver. }
  exists ([OpTmpfs [SLASH]; OpDev (lit "/dev")] ++ ops). rewrite E. split_and!; [done|by repeat constructor|].
  intros p Hp. rewrite run_app.
  assert (run p Hidden [OpTmpfs [SLASH]; OpDev (lit "/dev")] = Hidden) as -> by by cbn; repeat case_goal.
  destruct (run_binds_read_only p Hidden ops roots Hops) as [?|[[? _]|[? Hs]]]; [by left..|]. right. split; [done|by right].
Qed.

Lemma dedup_paths_elem (l : list path) x : x ∈ dedup_paths l <-> x ∈ l.
Proof.
  induction l as [|y l IH]; [done|]. destruct l as [|z l]; [done|].
  assert (dedup_paths (y :: z :: l) = if bool_decide (y = z) then dedup_paths (z :: l) else y :: dedup_paths (z :: l))
    as -> by done.
  case_bool_decide as E; [subst|]; rewrite ?elem_of_cons, ?IH, ?elem_of_cons; tauto.
Qed.

Lemma allowed_paths_roots ws : allowed_paths L ws = map wr_root ws.
Proof. unfold allowed_paths. induction ws as [|w ws IH]; [done|]. cbn [flat_map map]. by rewrite canonical_target_none, IH. Qed.

Lemma existing_roots_eq pol cwd globs :
  has_full_disk_write_access pol = false ->
  existing_writable_roots L pol cwd globs
  = Ok (List.filter (fun w => host_exists H (wr_root w)) (get_writable_roots_with_cwd H pol cwd)).
Proof.
  intros Hf. unfold existing_writable_roots. rewrite Hf. by destruct (List.filter _ _).
Qed.

Lemma run_masks p e ops :
  Forall (fun op => is_quiet op = true /\ op_ok op) ops -> run p e ops = e \/ run p e ops = Hidden.
Proof. intros Hq. apply run_quiet. eapply Forall_impl; [exact Hq|]. naive_solver. Qed.

Lemma mask_hides p u ops (us allowed : list path) e :
  Forall (fun op => is_quiet op = true /\ op_ok op) ops -> u ∈ us ->
  (forall u, u ∈ us -> absolute_normalized u -> host_exists H u = true \/ below_writable allowed u ->
     exists op, op ∈ ops /\ covers op u) ->
  absolute_normalized u -> host_exists H u = true -> path_starts_with p u = true -> run p e ops = Hidden.
Proof.
  intros Hq Hus Hcov Hun Hue Hpu. destruct (Hcov u Hus Hun (or_introl Hue)) as (op & Hop & d & Hd & Hud).
  eapply run_quiet_covered; [|exact Hop|exists d; split; [done|by eapply path_starts_with_trans]].
  eapply Forall_impl; [exact Hq|]. naive_solver.
Qed.

Lemma sorted_split {A} (key : A -> nat) (l : list A) (x : A) (l' : list A) y :
  sorted_by key (l ++ x :: l') -> y ∈ l -> (key y <= key x)%nat.
Proof.
  unfold sorted_by. induction l as [|z l IH]; intros Hs Hy; [set_solver|]. inversion Hs as [|? ? Hs' Hall]; subst.
  apply elem_of_cons in Hy as [->|Hy]; [|by apply IH]. rewrite Forall_forall in Hall. apply Hall. set_solver.
Qed.

(** An existing denied path is an ancestor of a writable root, below one, or
    apart from them all; each kind is masked at its place. *)
Lemma denied_kinds (u : path) (unreadable allowed : list path) :
  u ∈ unreadable ->
  (exists r, r ∈ allowed /\ path_starts_with u r = true)
  \/ u ∈ List.filter (fun u => negb (existsb (fun root => path_starts_with u root) allowed)
                              && existsb (fun root => path_starts_with root u) allowed) unreadable
  \/ u ∈ List.filter (fun u => negb (existsb (fun root => path_starts_with u root || path_starts_with root u) allowed)) unreadable.
Proof.
  intros Hu. destruct (existsb (fun root => path_starts_with u root) allowed) eqn:Hnest.
  { left. apply existsb_exists in Hnest as (r & Hr & Hur). exists r. by rewrite list_elem_of_In. }
  right. destruct (existsb (fun root => path_starts_with root u) allowed) eqn:Hanc; [left|right]; apply elem_of_filter_bool.
  - by rewrite Hnest, Hanc.
  - split; [done|]. apply negb_true_iff, not_true_is_false. intros (r & Hr & [Hx|Hx]%orb_true_iff)%existsb_exists.
    + apply not_true_iff_false in Hnest. apply Hnest, existsb_exists. by exists r.
    + apply not_true_iff_false in Hanc. apply Hanc, existsb_exists. by exists r.
Qed.

(** Everything the mounts of a policy show of the host. *)
Lemma filesystem_exposure fuel pol cwd depth b :
  has_full_disk_write_access pol = false -> create_filesystem_args L fuel pol cwd depth = Ok b ->
  (forall w, w ∈ get_writable_roots_with_cwd H pol cwd -> absolute_normalized (wr_root w)) ->
  let ws := List.filter (fun w => host_exists H (wr_root w)) (get_writable_roots_with_cwd H pol cwd) in
  let missing_auto := missing_auto_metadata L pol cwd in
  exists unreadable ops, args b = flat_map render ops /\ Forall op_ok ops
    /\ (forall u, u ∈ get_unreadable_roots_with_cwd H pol cwd -> u ∈ unreadable)
    /\ (forall w name, w ∈ ws -> name ∈ protected_metadata_names w ->
          join_str (wr_root w) name ∉ read_only_list unreadable missing_auto w ->
          host_exists H (join_str (wr_root w) name) = false -> join_str (wr_root w) name ∈ protected_create_targets b)
    /\ forall p, absolute_normalized p -> exposure ops p = Hidden
         \/ (exposure ops p = ReadOnlyAt p /\ base_shows pol cwd p
             /\ forall u, u ∈ unreadable -> absolute_normalized u -> host_exists H u = true -> path_starts_with p u = true -> False)
         \/ exists w, w ∈ ws /\ shown_by unreadable missing_auto p w (exposure ops p)
              /\ (forall w', w' ∈ ws -> path_starts_with p (wr_root w') = true ->
                   (length (wr_root w') <= length (wr_root w))%nat).
Proof.
  intros Hf Hb Hnorm ws missing_auto. unfold create_filesystem_args in Hb.
  rewrite existing_roots_eq in Hb by done. cbn [mbind result_bind] in Hb. fold ws missing_auto in Hb.
  destruct (expand_unreadable_globs_with_ripgrep L fuel _ cwd depth) as [expanded|]; [|done]. cbn [mbind result_bind] in Hb.
  set (unreadable := dedup_paths _) in Hb. rewrite allowed_paths_roots in Hb. set (allowed := map wr_root ws) in Hb.
  destruct (for_each _ _ (sort_by_key path_depth _)) as [b1|] eqn:Hb1 in Hb; [|done]. cbn [mbind result_bind] in Hb.
  destruct (for_each (append_writable_root _ _ _ _) b1 _) as [b2|] eqn:Hb2; [|done]. cbn [mbind result_bind] in Hb.
  apply unreadable_all in Hb1 as (anc & [Ha1 Hc1] & Hq1 & Hm1).
  apply unreadable_all in Hb as (rootless & [Ha3 Hc3] & Hq3 & Hm3).
  destruct (base_ops pol cwd ws) as (base & Hbase & Hkb & Heb).
  set (sorted := sort_by_key _ ws) in Hb2.
  assert (forall w, w ∈ sorted <-> w ∈ ws) as Hsorted by (intros w; unfold sorted; by rewrite sort_by_key_perm).
  assert (Forall (root_ok allowed) sorted) as Hok.
  { apply Forall_forall. intros w Hw%Hsorted. subst allowed ws. pose proof Hw as [Hw' Hex]%elem_of_filter_bool.
    split_and!; [|by apply Hnorm|done]. apply list_elem_of_fmap. by exists w. }
  destruct (writable_roots_loop _ _ _ _ _ _ Hb2 Hok) as (mid & ts & Ha2 & Hk2 & Ht2 & Hc2 & He2).
  exists unreadable, (base ++ anc ++ mid ++ rootless). split_and!.
  - rewrite Ha3, Ha2, Ha1. cbn [args]. rewrite Hbase, !flat_map_app. by rewrite <- !app_assoc.
  - repeat (apply Forall_app; split); try done; (eapply Forall_impl; [eassumption|]); naive_solver.
  - intros u Hu. subst unreadable. rewrite dedup_paths_elem, sort_by_perm. set_solver.
  - intros w name Hw Hname Hros Hmiss. rewrite Hc3, Ht2. apply elem_of_app. right. eapply Hc2; [by apply Hsorted|done..].
  - intros p Hp. change (exposure ?o p) with (run p Hidden o). rewrite !run_app.
    set (e1 := run p (run p Hidden base) anc). set (e2 := run p e1 mid).
    destruct (run_masks p e2 rootless Hq3) as [E3|E3]; [|by left]. rewrite E3.
    destruct (decide (e2 = Hidden)) as [|Hvis]; [by left|]. right.
    destruct (He2 p e1) as [?|[[E2 Hnone]|(l & w & l' & Hl & Hshown & Hlater)]]; [done| |].
    + left. fold e2 in E2. destruct (run_masks p (run p Hidden base) anc Hq1) as [E1|E1];
        fold e1 in E1; [|by rewrite E2 in Hvis].
      destruct (Heb p Hp) as [E0|[E0 Hshows]]; [by rewrite E2, E1 in Hvis|].
      split; [congruence|]. split; [done|]. intros u Hu Hun Hue Hpu. apply Hvis.
      destruct (denied_kinds u unreadable allowed Hu) as [(r & Hr & Hur)|[Hk|Hk]].
      * apply list_elem_of_fmap in Hr as (w & -> & Hw). apply Hsorted, Hnone in Hw.
        by rewrite (path_starts_with_trans p u (wr_root w)) in Hw.
      * rewrite E2. eapply (mask_hides p u anc); [done| |exact Hm1|done..]. by rewrite sort_by_key_perm.
      * rewrite <- E3. eapply (mask_hides p u rootless); [done| |exact Hm3|done..]. by rewrite sort_by_key_perm.
    + right. exists w. split; [apply Hsorted; rewrite Hl; set_solver|]. split; [exact Hshown|].
      intros w' Hw' Hpw'. apply Hsorted in Hw'. rewrite Hl in Hw'.
      apply elem_of_app in Hw' as [Hw'|[->|Hw']%elem_of_cons]; [|done|by rewrite Hlater in Hpw'].
      apply (sorted_split (fun w => path_depth (wr_root w)) l w l'); [|done]. rewrite <- Hl. apply sort_by_key_sorted.
Qed.
End no_links.

(** ** Read-only subpaths *)

Section subpaths.
Context (H : Host) (Hok : host_ok H) (Hno : no_symlinks H).

Lemma writable_root_inv pol cwd w :
  policy_ok pol -> w ∈ get_writable_roots_with_cwd H pol cwd ->
  exists root, absolute_normalized root /\ w = writable_root_for H pol cwd root.
Proof.
  intros Hpok Hw. unfold get_writable_roots_with_cwd in Hw. destruct (has_full_disk_write_access pol); [set_solver|].
  apply list_elem_of_fmap in Hw as (root & -> & Hroot). exists root. split; [|done].
  apply dedup_elem in Hroot. apply list_elem_of_fmap in Hroot as (q & -> & Hq).
  apply writable_entries_elem in Hq as (e & He & <- & _).
  assert (absolute_normalized (resolved_path e)) as Hn by by eapply resolved_ok.
  by apply normalize_effective_ok.
Qed.

Lemma default_subpaths_ok root b s :
  absolute_normalized root -> s ∈ default_read_only_subpaths_for_writable_root H root b -> absolute_normalized s.
Proof.
  intros Hr Hs. unfold default_read_only_subpaths_for_writable_root in Hs.
  apply dedup_elem in Hs. apply list_elem_of_fmap in Hs as (q & -> & Hq).
  rewrite !elem_of_app in Hq. destruct Hq as [Hq|[Hq|Hq]].
  - destruct (host_is_dir _ _ || host_is_file _ _); [|set_solver].
    apply elem_of_app in Hq as [Hq|Hq]; [|apply list_elem_of_singleton in Hq as ->; by apply abs_join_ok].
    destruct (host_is_file _ _ && _); [|set_solver].
    destruct (resolve_gitdir_from_file H _) as [g|] eqn:Hg; [|set_solver]. apply list_elem_of_singleton in Hq as ->.
    unfold resolve_gitdir_from_file in Hg. repeat case_in Hg; simplify_eq.
    eapply (abs_join_ok H Hok). eapply parent_absolute; [|eassumption]. by apply abs_join_ok.
  - case_in Hq; [|set_solver]. apply list_elem_of_singleton in Hq as ->. by apply abs_join_ok.
  - case_in Hq; [|set_solver]. apply list_elem_of_singleton in Hq as ->. by apply abs_join_ok.
Qed.

(** With no symbolic link, a carve-out is the entry's own path. *)
Lemma carveout_own root raw p s :
  absolute_normalized root -> absolute_normalized p -> Forall (eq root) raw -> carveout H root raw p = Some s -> s = p.
Proof.
  intros Hr Hp Hraw. unfold carveout. rewrite (normalize_effective_id H Hno p Hp). unfold raw_carveout.
  destruct (parent root); [|case_goal; naive_solver]. case_bool_decide as Hpr; [done|].
  destruct (path_starts_with p root) eqn:Hpre; [naive_solver|].
  assert (omap (fun raw_root => match strip_path_prefix raw_root p with
    | None | Some [] => None | Some suffix => Some (abs_join H root (display suffix)) end) raw = []) as ->.
  { induction Hraw as [|r raw <- _ IH]; [done|]. cbn [omap list_omap].
    assert (strip_path_prefix root p = None) as ->; [|done]. unfold path_starts_with in Hpre. bool_to_prop.
    by apply eq_None_not_Some. }
  done.
Qed.

Lemma read_only_subpath_cases pol cwd root s :
  policy_ok pol -> absolute_normalized root -> s ∈ read_only_subpaths (writable_root_for H pol cwd root) ->
  absolute_normalized s
  /\ (has_explicit_resolved_path_entry (resolved_entries_with_cwd H pol cwd) s = true ->
      can_write_path_with_cwd H pol (display s) cwd = false).
Proof.
  intros Hpok Hr Hs. cbn [writable_root_for read_only_subpaths] in Hs. apply dedup_elem in Hs. rewrite map_id in Hs.
  apply elem_of_app in Hs as [[Hs Hexp]%elem_of_filter_bool|Hs].
  - split; [by eapply default_subpaths_ok|]. intros Hx. by rewrite Hx in Hexp.
  - apply list_elem_of_omap in Hs as (e & [He Hw]%elem_of_filter_bool & Hc).
    assert (absolute_normalized (resolved_path e)) as Hen by by eapply resolved_ok.
    apply carveout_own in Hc as ->; [|done..|].
    + split; [done|]. intros _. bool_to_prop. done.
    + apply Forall_forall. intros q [Hq Heq]%elem_of_filter_bool. bool_to_prop.
      apply writable_entries_elem in Hq as (e' & He' & <- & _).
      rewrite (normalize_effective_id H Hno) in Heq by by eapply resolved_ok. done.
Qed.
End subpaths.

(** ** Metadata below a root *)

Lemma metadata_components name : name ∈ PROTECTED_METADATA_PATH_NAMES -> components name = [Normal name].
Proof.
  unfold PROTECTED_METADATA_PATH_NAMES. rewrite !elem_of_cons, elem_of_nil. intros [->|[->|[->|[]]]]; by vm_compute.
Qed.

Lemma join_metadata root name :
  absolute_normalized root -> name ∈ PROTECTED_METADATA_PATH_NAMES -> join_str root name = root ++ [Normal name].
Proof.
  intros (names & -> & _) Hn. unfold join_str. by rewrite (metadata_components name Hn).
Qed.

Section enforcement.
Context (L : LinuxHost) (Hlx : linux_ok L).
Notation H := (lx_host L).
Let Hok : host_ok H := lx_ok L Hlx.
Let Hno : no_symlinks H := lx_canonical L Hlx.

Lemma metadata_masks_spec names ros root mount_root :
  (forall s, s ∈ ros -> s ∈ append_metadata_path_masks_for_writable_root L ros root mount_root names)
  /\ (forall name, name ∈ names ->
        should_leave_missing_git_for_parent_repo_discovery L mount_root name = true
        \/ join_str root name ∈ append_metadata_path_masks_for_writable_root L ros root mount_root names)
  /\ forall s, s ∈ append_metadata_path_masks_for_writable_root L ros root mount_root names ->
       s ∈ ros \/ exists name, name ∈ names /\ s = join_str root name.
Proof.
  unfold append_metadata_path_masks_for_writable_root. revert ros.
  induction names as [|n names IH]; intros ros; cbn [fold_left]; [set_solver|].
  set (ros' := if should_leave_missing_git_for_parent_repo_discovery L mount_root n then _ else _).
  assert ((forall s, s ∈ ros -> s ∈ ros')
    /\ (should_leave_missing_git_for_parent_repo_discovery L mount_root n = true \/ join_str root n ∈ ros')
    /\ forall s, s ∈ ros' -> s ∈ ros \/ s = join_str root n) as (Hkeep & Hhas & Honly).
  { subst ros'. destruct (should_leave_missing_git_for_parent_repo_discovery L mount_root n); [set_solver|].
    destruct (existsb _ ros) eqn:Hex; cbn [negb]; [|set_solver].
    apply existsb_exists in Hex as (x & Hx & E). bool_to_prop. subst x. apply list_elem_of_In in Hx. naive_solver. }
  destruct (IH ros') as (H1 & H2 & H3). split_and!.
  - intros s Hs. by apply H1, Hkeep.
  - intros name [->|Hname]%elem_of_cons; [|by apply H2]. destruct Hhas; [by left|right; by apply H1].
  - intros s Hs. destruct (H3 s Hs) as [Hs'|(name & Hname & ->)]; [|set_solver].
    destruct (Honly s Hs') as [?|E]; [by left|]. subst s. right. exists n. set_solver.
Qed.

Lemma protected_names_elem pol cwd root name :
  policy_ok pol -> absolute_normalized root ->
  name ∈ protected_metadata_names (writable_root_for H pol cwd root) <->
  name ∈ PROTECTED_METADATA_PATH_NAMES
  /\ can_write_path_with_cwd H pol (display (root ++ [Normal name])) cwd = false.
Proof.
  intros Hpok Hr. cbn [writable_root_for protected_metadata_names]. unfold protected_metadata_names_for_writable_root.
  rewrite elem_of_filter_bool. split; intros [Hn Hall]; (split; [done|]).
  all: destruct (metadata_name_ok name Hn) as [Hf Ht]; pose proof (abs_join_name H root name Hr Hf Ht) as Hj.
  - cbn [forallb] in Hall. bool_to_prop. by rewrite Hj in *.
  - apply forallb_forall. intros q [Hq|Hq]; [subst q; by rewrite Hj, Hall|].
    apply in_map_iff in Hq as (r & <- & [Hr' Heq]%filter_In). bool_to_prop. apply list_elem_of_In in Hr'.
    apply writable_entries_elem in Hr' as (e & He & <- & _).
    rewrite (normalize_effective_id H Hno) in Heq by by eapply resolved_ok. subst root. by rewrite Hj, Hall.
Qed.

Lemma missing_auto_spec pol c s :
  absolute_normalized c -> s ∈ missing_auto_metadata L pol (display c) ->
  host_exists H s = false
  /\ has_explicit_resolved_path_entry (resolved_entries_with_cwd H pol (display c)) s = true
  /\ exists name, name ∈ PROTECTED_METADATA_PATH_NAMES /\ s = c ++ [Normal name].
Proof.
  intros Hc. unfold missing_auto_metadata. intros (en & [Hen Hacc]%elem_of_filter_bool & Hs)%list_elem_of_omap.
  destruct en as [[p|g|v] a]; cbn [entry_path entry_access] in *; try done. destruct v as [| |[sub|]| | |]; try done.
  rewrite components_display in Hs by done. destruct (existsb _ _) eqn:Hex; [cbn [negb] in Hs|done].
  set (q := resolve_path_against_base (home H) sub c) in *.
  destruct (host_exists H q) eqn:Hq; cbn [negb] in Hs; [done|]. injection Hs as <-.
  apply existsb_exists in Hex as (name & Hname & E). bool_to_prop.
  assert (name ∈ PROTECTED_METADATA_PATH_NAMES) as Hp by (apply list_elem_of_In in Hname; exact Hname).
  destruct (metadata_name_ok name Hp) as [Hf Ht].
  assert (q = c ++ [Normal name]) as Hqe.
  { subst q. rewrite (resolve_by_components (home H) sub name c (host_home_ok H Hok) E).
    exact (abs_join_name H c name Hc Hf Ht). }
  split_and!; [done| |by exists name]. apply existsb_exists. exists (mkResolved q Read).
  split; [|by rewrite bool_decide_eq_true_2]. apply list_elem_of_In, elem_of_resolved. exists (mkEntry (FsSpecial (ProjectRoots (Some sub))) a).
  bool_to_prop. subst a. split_and!; [done| |done]. cbn. by rewrite abs_from_display.
Qed.

(** ** Writing *)

Lemma read_only_list_normalized pol cwd root unreadable missing_auto s :
  policy_ok pol -> absolute_normalized root ->
  s ∈ read_only_list L unreadable missing_auto (writable_root_for H pol cwd root) -> absolute_normalized s.
Proof.
  intros Hpok Hr Hs. unfold read_only_list in Hs.
  apply (proj2 (proj2 (metadata_masks_spec _ _ _ _))) in Hs as [[[Hs _]%elem_of_filter_bool _]%elem_of_filter_bool|(name & Hn & ->)].
  - by eapply (read_only_subpath_cases H Hok Hno).
  - apply protected_names_elem in Hn as [Hn _]; [|done..]. cbn [writable_root_for wr_root].
    rewrite join_metadata by done. apply absolute_normalized_snoc; [done|]. by apply metadata_name_ok.
Qed.

(** A path shown writable by its root is below no protected name of the root,
    unless that name is watched instead of being mounted over. *)
Lemma shown_writable_metadata pol cwd root unreadable missing_auto p (ts : list path) name :
  policy_ok pol -> absolute_normalized root ->
  let w := writable_root_for H pol cwd root in
  shown_by L unreadable missing_auto p w (WritableAt p) ->
  (forall name, name ∈ protected_metadata_names w ->
     join_str root name ∉ read_only_list L unreadable missing_auto w ->
     host_exists H (join_str root name) = false -> join_str root name ∈ ts) ->
  name ∈ protected_metadata_names w -> path_starts_with p (root ++ [Normal name]) = true ->
  exists t, t ∈ ts /\ path_starts_with p t = true.
Proof.
  intros Hpok Hr w (_ & Hsh) Hts Hname Hp. pose proof (protected_names_elem pol cwd root name Hpok Hr) as [Hin _].
  destruct (Hin Hname) as [Hn _]. pose proof (join_metadata root name Hr Hn) as Hj.
  exists (join_str root name). rewrite Hj. split; [|done]. rewrite <- Hj.
  destruct Hsh as [[Hf _]|(_ & Hroot & Hro)]; [done|].
  assert (join_str root name ∉ read_only_list L unreadable missing_auto w) as Hnot.
  { intros Hx. apply (Hro _ Hx); [by eapply read_only_list_normalized| |by rewrite Hj].
    apply path_starts_with_app. rewrite Hj. by eexists. }
  apply Hts; [done..|].
  assert (should_leave_missing_git_for_parent_repo_discovery L root name = true) as Hleave.
  { pose proof (fun ros => proj1 (proj2 (metadata_masks_spec (protected_metadata_names w) ros root root)) name Hname) as Hm.
    edestruct Hm as [Hleave|Hx]; [exact Hleave|]. exfalso. apply Hnot. exact Hx. }
  unfold should_leave_missing_git_for_parent_repo_discovery in Hleave. bool_to_prop. by apply (lx_not_found_missing L Hlx).
Qed.

Lemma shown_writable_unmasked pol c root unreadable p (ts : list path) s :
  policy_ok pol -> absolute_normalized root -> absolute_normalized c ->
  let w := writable_root_for H pol (display c) root in
  let missing_auto := missing_auto_metadata L pol (display c) in
  shown_by L unreadable missing_auto p w (WritableAt p) -> host_exists H root = true ->
  (forall name, name ∈ protected_metadata_names w ->
     join_str root name ∉ read_only_list L unreadable missing_auto w ->
     host_exists H (join_str root name) = false -> join_str root name ∈ ts) ->
  ((forall t, t ∈ missing_auto -> path_starts_with p t = true -> False)
   \/ (path_starts_with p c = true -> (length c <= length root)%nat)) ->
  s ∈ read_only_subpaths w -> path_starts_with s root = true -> path_starts_with p s = true ->
  exists t, t ∈ ts /\ path_starts_with p t = true.
Proof.
  intros Hpok Hr Hc w missing_auto Hshown Hex Hts Hcwd Hs Hsr Hps.
  destruct (read_only_subpath_cases H Hok Hno pol (display c) root s Hpok Hr Hs) as [Hsn Hexp].
  pose proof Hshown as (Hun & [[Hf _]|(_ & _ & Hro)]); [done|].
  destruct (decide (s ∈ unreadable)) as [Hu|Hu]; [by destruct (Hun s)|].
  destruct (decide (s ∈ missing_auto)) as [Hm|Hm].
  - destruct (missing_auto_spec pol c s Hc Hm) as (Hmiss & Hx & name & Hn & ->).
    destruct Hcwd as [Hnone|Hdepth]; [by destruct (Hnone _ Hm)|].
    assert (path_starts_with p c = true) as Hpc.
    { eapply path_starts_with_trans; [exact Hps|]. apply path_starts_with_app. by eexists. }
    assert (root = c) as Hrc.
    { destruct (decide (length root = length c)) as [Hl|Hl].
      - eapply prefixes_same_length; [exact Hsr| |done]. apply path_starts_with_app. by eexists.
      - exfalso. specialize (Hdepth Hpc). pose proof (path_starts_with_length _ _ Hsr) as Hl'. rewrite length_app in Hl'. cbn in Hl'.
        assert (root = c ++ [Normal name]) as ->; [|congruence].
        eapply prefixes_same_length; [exact Hsr|apply path_starts_with_refl|]. rewrite length_app. cbn. lia. }
    subst root. apply (shown_writable_metadata pol (display c) c unreadable missing_auto p ts name); [done..| |done].
    apply protected_names_elem; [done..|]. split; [done|]. by apply Hexp.
  - exfalso. apply (Hro s); [|done..]. unfold read_only_list.
    apply (proj1 (metadata_masks_spec _ _ _ _)). rewrite !elem_of_filter_bool. split; [split; [done|]|].
    + by rewrite bool_decide_eq_false_2.
    + by rewrite bool_decide_eq_false_2.
Qed.

(** ** The command line *)

Lemma flags_ops fuel command pol cwd command_cwd options b :
  create_bwrap_flags L fuel command pol cwd command_cwd options = Ok b ->
  exists b0 depth, create_filesystem_args L fuel pol cwd depth = Ok b0
    /\ protected_create_targets b = protected_create_targets b0
    /\ forall fsops, args b0 = flat_map render fsops -> Forall op_ok fsops ->
       exists ops, parse_ops (args b) = Some (ops, command)
         /\ forall p, exposure ops p = Hidden \/ exposure ops p = exposure fsops p.
Proof.
  unfold create_bwrap_flags. destruct (create_filesystem_args _ _ _ _ _) as [b0|] eqn:Hb; [|done]. cbn [mbind result_bind].
  intros [= <-]. exists b0, (match options_glob_scan_max_depth options with Some d => Some d | None => glob_scan_max_depth pol end).
  split_and!; [done..|]. intros fsops Ha Hk.
  set (post := [OpFlag (lit "--unshare-user"); OpFlag (lit "--unshare-pid")]
    ++ (if should_unshare_network (network_mode options) then [OpFlag (lit "--unshare-net")] else [])
    ++ (if mount_proc options then [OpProc (lit "/proc")] else [])
    ++ (if negb (bool_decide (normalize_command_cwd_for_bwrap L command_cwd = command_cwd))
        then [OpChdir (path_to_string (normalize_command_cwd_for_bwrap L command_cwd))] else [])).
  exists ([OpFlag (lit "--new-session"); OpFlag (lit "--die-with-parent")] ++ fsops ++ post). split.
  - cbn [args]. rewrite Ha. rewrite <- (parse_render _ command).
    + f_equal. rewrite !flat_map_app. unfold post. rewrite !flat_map_app.
      destruct (should_unshare_network _), (mount_proc options), (negb _); cbn [flat_map render app];
        rewrite ?app_nil_r, <- ?app_assoc; done.
    + repeat (apply Forall_app; split); try done; repeat (case_goal || constructor); try (by apply (bool_decide_unpack _); vm_compute).
  - intros p. change (exposure ?o p) with (run p Hidden o). rewrite !run_app.
    change (run p Hidden [OpFlag (lit "--new-session"); OpFlag (lit "--die-with-parent")]) with Hidden.
    destruct (run_quiet p (run p Hidden fsops) post) as [->| ->]; [|by right|by left].
    repeat (apply Forall_app; split); repeat (case_goal || constructor); done.
Qed.

Lemma not_full_write_restricted pol : has_full_disk_write_access pol = false -> policy_kind pol = Restricted.
Proof. unfold has_full_disk_write_access. by destruct (policy_kind pol). Qed.

Lemma writable_roots_normalized pol cwd w :
  policy_ok pol -> w ∈ get_writable_roots_with_cwd H pol cwd -> absolute_normalized (wr_root w).
Proof. intros Hpok Hw. by destruct (writable_root_inv H Hok Hno pol cwd w Hpok Hw) as (root & Hr & ->). Qed.
End enforcement.

(** The working directory is itself an existing writable root. *)
Definition cwd_is_root (L : LinuxHost) (pol : FileSystemSandboxPolicy) (c : path) : bool :=
  existsb (fun w => bool_decide (wr_root w = c)) (get_writable_roots_with_cwd (lx_host L) pol (display c))
  && host_exists (lx_host L) c.

(** C2. Of a policy without full disk write access, on a host without symbolic
    links: the command bubblewrap runs is the command that was asked for, and
    what of the host its mounts let the sandbox write, the policy lets it write.
    A path shown writable is the host's own path; it has write access under the
    policy and lies below no protected metadata of its writable root, or it lies
    below a metadata path that does not exist yet and is watched for creation
    instead, or, only where the working directory is not itself an existing
    writable root, below a metadata path of the working directory that a read
    entry of the policy names and that does not exist yet. *)
Theorem bwrap_writes_allowed (L : LinuxHost) (fuel : nat) (command : list str) (pol : FileSystemSandboxPolicy)
    (c command_cwd p q : path) (options : BwrapOptions) (b : BwrapArgs) :
  linux_ok L -> policy_ok pol -> absolute_normalized c -> absolute_normalized p ->
  has_full_disk_write_access pol = false ->
  create_bwrap_command_args L fuel command pol (display c) command_cwd options = Ok b ->
  exists ops, parse_ops (args b) = Some (ops, command)
    /\ (exposure ops p = WritableAt q ->
        q = p
        /\ ((exists t, t ∈ protected_create_targets b /\ path_starts_with p t = true)
            \/ (cwd_is_root L pol c = false
                /\ exists t, t ∈ missing_auto_metadata L pol (display c) /\ path_starts_with p t = true)
            \/ (resolve_access_with_cwd (lx_host L) pol (display p) (display c) = Write
                /\ exists w, w ∈ get_writable_roots_with_cwd (lx_host L) pol (display c)
                     /\ path_starts_with p (wr_root w) = true /\ path_contains_protected_metadata_name w p = false))).
Proof.
  intros Hlx Hpok Hc Hp Hf Hb. pose proof (lx_ok L Hlx) as Hok. pose proof (lx_canonical L Hlx) as Hno.
  unfold create_bwrap_command_args in Hb. rewrite Hf in Hb. cbn [andb] in Hb.
  apply flags_ops in Hb as (b0 & depth & Hb0 & -> & Hparse).
  destruct (filesystem_exposure L Hlx fuel pol (display c) depth b0 Hf Hb0) as (unreadable & fsops & Ha & Hk & _ & Hts & Hexp);
    [intros w; by apply writable_roots_normalized|].
  destruct (Hparse fsops Ha Hk) as (ops & Hops & Hview). exists ops. split; [done|]. intros Hw.
  destruct (Hview p) as [E|E]; [congruence|]. rewrite E in Hw.
  destruct (Hexp p Hp) as [E'|[[E' _]|(w & [Hws Hex]%elem_of_filter_bool & Hshown & Hdeep)]]; [congruence..|].
  rewrite Hw in Hshown. assert (q = p) as -> by (destruct Hshown as [_ [[? _]|[? _]]]; congruence). split; [done|].
  destruct (existsb (fun t => path_starts_with p t) (protected_create_targets b0)) eqn:Ht.
  { left. apply existsb_exists in Ht as (t & Hin & Hpt). exists t. by rewrite list_elem_of_In. }
  assert (forall t, t ∈ protected_create_targets b0 -> path_starts_with p t = true -> False) as Hnt.
  { intros t Hin Hpt. pose proof (existsb_false _ _ t Ht Hin). congruence. }
  right. destruct (negb (cwd_is_root L pol c)
    && existsb (fun t => path_starts_with p t) (missing_auto_metadata L pol (display c))) eqn:Hauto.
  { left. apply andb_true_iff in Hauto as [Hcr%negb_true_iff (t & Hin & Hpt)%existsb_exists]. split; [done|].
    exists t. by rewrite list_elem_of_In. }
  right. pose proof Hshown as (_ & [[? _]|(_ & Hpw & _)]); [done|].
  destruct (writable_root_inv (lx_host L) Hok Hno pol (display c) w Hpok Hws) as (root & Hr & ->).
  set (w := writable_root_for (lx_host L) pol (display c) root) in *.
  assert (forall name, name ∈ protected_metadata_names w ->
    join_str root name ∉ read_only_list L unreadable (missing_auto_metadata L pol (display c)) w ->
    host_exists (lx_host L) (join_str root name) = false -> join_str root name ∈ protected_create_targets b0) as Hts'.
  { intros name. apply (Hts w). by apply elem_of_filter_bool. }
  split.
  - apply (unmasked_root_grants (lx_host L) Hok Hno pol (display c) w); [done|by apply not_full_write_restricted|done..|].
    intros s Hs Hsr Hps.
    destruct (shown_writable_unmasked L Hlx pol c root unreadable p (protected_create_targets b0) s) as (t & Hin & Hpt);
      [done..| |done|done|done|by eapply Hnt].
    apply andb_false_iff in Hauto as [Hcr%negb_false_iff|Hauto].
    + right. intros Hpc. apply andb_true_iff in Hcr as [(w' & Hw' & Hwc)%existsb_exists Hex']. bool_to_prop. subst c.
      apply (Hdeep w'); [|done]. apply elem_of_filter_bool. by rewrite list_elem_of_In.
    + left. intros t Hin Hpt. pose proof (existsb_false _ _ t Hauto Hin). congruence.
  - exists w. split_and!; [done..|]. apply not_true_is_false. unfold path_contains_protected_metadata_name.
    destruct (strip_path_prefix (wr_root w) p) as [[|comp rest]|] eqn:Hstrip; [done| |done].
    intros (name & Hname & Heq)%existsb_exists. bool_to_prop. apply list_elem_of_In in Hname.
    apply strip_path_prefix_Some in Hstrip.
    assert (comp = Normal name) as ->.
    { destruct Hp as (names & -> & Hnames). destruct Hr as (rn & Hrn & _). change (wr_root w) with root in Hstrip. rewrite Hrn in Hstrip.
      injection Hstrip as Hstrip. assert (comp ∈ map Normal names) as Hin by (rewrite Hstrip; set_solver).
      apply list_elem_of_fmap in Hin as (n & -> & _). cbn in Heq. by subst n. }
    destruct (shown_writable_metadata L Hlx pol (display c) root unreadable (missing_auto_metadata L pol (display c)) p
      (protected_create_targets b0) name) as (t & Hin & Hpt); [done..| |by eapply Hnt].
    apply path_starts_with_app. exists rest. rewrite Hstrip. by rewrite <- app_assoc.
Qed.

(** ** Reading *)

Section reading.
Context (L : LinuxHost) (Hlx : linux_ok L).
Notation H := (lx_host L).
Context (pol : FileSystemSandboxPolicy) (Hpok : policy_ok pol) (Hk : policy_kind pol = Restricted).
Context (c : path) (Hc : absolute_normalized c).
Let Hok : host_ok H := lx_ok L Hlx.
Let Hno : no_symlinks H := lx_canonical L Hlx.
Notation entries := (resolved_entries_with_cwd H pol (display c)).

(** A denied path below a place the policy opens is denied by a deeper entry,
    and that entry is an unreadable root. *)
Lemma denied_below p r :
  absolute_normalized p -> absolute_normalized r -> path_starts_with p r = true ->
  (exists e, e ∈ entries /\ resolved_path e = r) -> can_read (decide_access r entries) = true ->
  can_read (decide_access p entries) = false ->
  exists u, u ∈ get_unreadable_roots_with_cwd H pol (display c) /\ absolute_normalized u
    /\ path_starts_with p u = true /\ path_starts_with u r = true.
Proof.
  intros Hp Hr Hpr (er & Her & Hre) Hrr Hpd.
  destruct (decide_access_decides p entries) as [[Hn _]|(e & He & Hpe & Ha & Hmax)]; [destruct (Hn er Her); by rewrite Hre|].
  assert (resolved_access e = Deny) as Hden by (rewrite Ha; by destruct (decide_access p entries)).
  rewrite <- Ha in Hmax. pose proof (deciding_entry_at p entries e He Hpe Hmax) as Hde.
  assert (absolute_normalized (resolved_path e)) as Hen by by eapply resolved_ok.
  assert (resolved_path e <> r) as Hne by (intros E; rewrite E, Hden in Hde; by rewrite Hde in Hrr).
  assert (length r < length (resolved_path e))%nat as Hlt.
  { destruct (Hmax er Her) as [?|[? _]]; rewrite ?Hre in *; [done|done|congruence]. }
  exists (resolved_path e). split_and!; [|done|done|by apply (prefixes_comparable p); [..|lia]].
  unfold get_unreadable_roots_with_cwd. unfold is_restricted. rewrite Hk. cbn [negb].
  rewrite bool_decide_eq_true_2 by done. cbn [negb].
  apply dedup_elem, list_elem_of_fmap. exists (resolved_path e). split; [by rewrite (normalize_effective_id H Hno)|].
  apply list_elem_of_fmap. exists e. split; [done|]. apply elem_of_filter_bool. split; [done|].
  rewrite Hden. rewrite (bool_decide_eq_true_2 (Deny = Deny)) by done. unfold can_read_path_with_cwd.
  rewrite resolve_access_display, Hde, Hden by done. cbn.
  rewrite abs_from_display by done. rewrite absolute_root_path_ok by done.
  rewrite bool_decide_eq_false_2; [done|]. intros [= E]. rewrite <- E in Hlt. destruct Hr as (? & -> & _). cbn in Hlt. lia.
Qed.

Lemma base_shows_readable p (unreadable : list path) :
  absolute_normalized p -> host_exists H p = true -> base_shows L pol (display c) p ->
  (forall u, u ∈ get_unreadable_roots_with_cwd H pol (display c) -> u ∈ unreadable) ->
  (forall u, u ∈ unreadable -> absolute_normalized u -> host_exists H u = true -> path_starts_with p u = true -> False) ->
  can_read (decide_access p entries) = true
  \/ (include_platform_defaults pol = true
      /\ exists r, r ∈ map components LINUX_PLATFORM_DEFAULT_READ_ROOTS /\ path_starts_with p r = true).
Proof.
  intros Hp Hex Hshows Hsub Hclear.
  destruct Hshows as [Hfull|(r & Hr & Hpr)].
  { left. rewrite <- resolve_access_display by done.
    apply (full_disk_read_everywhere H pol (display p) (display c) c p); [done|by apply abs_from_display|done|].
    by apply resolve_candidate_display. }
  unfold readable_roots_of, btree_paths in Hr. rewrite dedup_paths_elem, sort_by_perm, elem_of_app in Hr.
  destruct Hr as [Hr|Hr].
  - left. unfold get_readable_roots_with_cwd in Hr. destruct (has_full_disk_read_access pol); [set_solver|].
    apply dedup_elem, list_elem_of_fmap in Hr as (q & -> & Hq). apply list_elem_of_fmap in Hq as (e & -> & Hq).
    apply elem_of_filter_bool in Hq as [He [_ Hread]%andb_true_iff].
    assert (absolute_normalized (resolved_path e)) as Hen by by eapply resolved_ok.
    rewrite (normalize_effective_id H Hno), components_display in Hpr by done.
    unfold can_read_path_with_cwd in Hread. rewrite resolve_access_display in Hread by done.
    destruct (can_read (decide_access p entries)) eqn:Hpd; [done|].
    destruct (denied_below p (resolved_path e)) as (u & Hu & Hun & Hpu & _); [done..|by exists e|done|done|].
    exfalso. apply (Hclear u); [by apply Hsub|done| |done]. apply path_starts_with_app in Hpu as [s ->].
    apply (lx_parents L Hlx u s Hex). by destruct Hun as (? & -> & _).
  - right. destruct (include_platform_defaults pol); [|set_solver]. split; [done|].
    apply elem_of_filter_bool in Hr as [Hr _]. exists r. split; [done|].
    assert (Forall absolute_normalized (map components LINUX_PLATFORM_DEFAULT_READ_ROOTS)) as Hn
      by (repeat constructor; by apply absolute_normalizedb_true).
    rewrite Forall_forall in Hn. by rewrite components_display in Hpr by by apply Hn.
Qed.

Lemma root_shows_readable p w (unreadable missing_auto : list path) e :
  absolute_normalized p -> w ∈ get_writable_roots_with_cwd H pol (display c) ->
  (forall u, u ∈ get_unreadable_roots_with_cwd H pol (display c) -> u ∈ unreadable) ->
  shown_by L unreadable missing_auto p w e ->
  can_read (decide_access p entries) = true
  \/ exists s, s ∈ read_only_subpaths w /\ path_starts_with s (wr_root w) = false /\ path_starts_with p s = true.
Proof.
  intros Hp Hw Hsub [Hun Hsh].
  pose proof Hw as Hw0. destruct (writable_root_inv H Hok Hno pol (display c) w Hpok Hw) as (root & Hr & ->).
  set (w := writable_root_for H pol (display c) root) in *. change (wr_root w) with root in *.
  assert (path_starts_with p root = true
    \/ exists s, s ∈ read_only_subpaths w /\ path_starts_with s root = false /\ path_starts_with p s = true) as [Hpr|?]; [|left|by right].
  { destruct Hsh as [(_ & s & Hs & Hps)|(_ & Hps & _)]; [|by left].
    rewrite components_display in Hps by by eapply (read_only_list_normalized L Hlx).
    destruct (path_starts_with s root) eqn:Hsr; [left; by eapply path_starts_with_trans|].
    right. exists s. split_and!; [|done..]. unfold read_only_list in Hs.
    apply (proj2 (proj2 (metadata_masks_spec L Hlx _ _ _ _))) in Hs as [[[Hs _]%elem_of_filter_bool _]%elem_of_filter_bool|(name & Hn & ->)].
    - done.
    - apply (protected_names_elem L Hlx) in Hn as [Hn _]; [|done..].
      apply not_true_iff_false in Hsr. destruct Hsr. rewrite join_metadata by done. apply path_starts_with_app. by eexists. }
  destruct (can_read (decide_access p entries)) eqn:Hpd; [done|]. exfalso.
  unfold get_writable_roots_with_cwd in Hw0. destruct (has_full_disk_write_access pol); [set_solver|].
  apply list_elem_of_fmap in Hw0 as (root' & Heq & Hroot). assert (root' = root) as -> by (by apply (f_equal wr_root) in Heq).
  apply dedup_elem, list_elem_of_fmap in Hroot as (q & Hq & Hqin).
  apply writable_entries_elem in Hqin as (er & Her & Hrp & _ & Hcw).
  assert (absolute_normalized q) as Hqn by (rewrite <- Hrp; by eapply resolved_ok).
  rewrite (normalize_effective_id H Hno q Hqn) in Hq. subst q root.
  apply can_write_resolve in Hcw. rewrite resolve_access_display in Hcw by done.
  destruct (denied_below p (resolved_path er)) as (u & Hu & Hun' & Hpu & Hur); [done..|by exists er|by rewrite Hcw|done|].
  by apply (Hun u); [apply Hsub|..].
Qed.
End reading.

(** C9. Of a policy without full disk write access, on a host without symbolic
    links: what of the host the mounts let the sandbox read, the policy lets it
    read.  A path that exists and is shown at all is the host's own path; it is
    readable under the policy, or one of the platform defaults the policy asked
    for, or lies below a read-only subpath of a writable root that is not below
    that root: the directory a [.git] pointer file names elsewhere. *)
Theorem bwrap_reads_allowed (L : LinuxHost) (fuel : nat) (command : list str) (pol : FileSystemSandboxPolicy)
    (c command_cwd p q : path) (options : BwrapOptions) (b : BwrapArgs) :
  linux_ok L -> policy_ok pol -> absolute_normalized c -> absolute_normalized p ->
  has_full_disk_write_access pol = false -> host_exists (lx_host L) p = true ->
  create_bwrap_command_args L fuel command pol (display c) command_cwd options = Ok b ->
  exists ops, parse_ops (args b) = Some (ops, command)
    /\ (exposure ops p = ReadOnlyAt q \/ exposure ops p = WritableAt q ->
        q = p
        /\ (can_read_path_with_cwd (lx_host L) pol (display p) (display c) = true
            \/ (include_platform_defaults pol = true
                /\ exists r, r ∈ map components LINUX_PLATFORM_DEFAULT_READ_ROOTS /\ path_starts_with p r = true)
            \/ exists w s, w ∈ get_writable_roots_with_cwd (lx_host L) pol (display c) /\ s ∈ read_only_subpaths w
                 /\ path_starts_with s (wr_root w) = false /\ path_starts_with p s = true)).
Proof.
  intros Hlx Hpok Hc Hp Hf Hex Hb. pose proof (not_full_write_restricted pol Hf) as Hk.
  unfold create_bwrap_command_args in Hb. rewrite Hf in Hb. cbn [andb] in Hb.
  apply flags_ops in Hb as (b0 & depth & Hb0 & _ & Hparse).
  destruct (filesystem_exposure L Hlx fuel pol (display c) depth b0 Hf Hb0) as (unreadable & fsops & Ha & Hkk & Hsub & _ & Hexp);
    [intros w; by apply writable_roots_normalized|].
  destruct (Hparse fsops Ha Hkk) as (ops & Hops & Hview). exists ops. split; [done|]. intros Hw.
  unfold can_read_path_with_cwd. rewrite resolve_access_display by done.
  destruct (Hview p) as [E|E]; [rewrite E in Hw; naive_solver|]. rewrite E in Hw.
  destruct (Hexp p Hp) as [E'|[(E' & Hshows & Hclear)|(w & [Hws _]%elem_of_filter_bool & Hshown & _)]].
  - rewrite E' in Hw. naive_solver.
  - split; [rewrite E' in Hw; naive_solver|].
    destruct (base_shows_readable L Hlx pol Hpok Hk c Hc p unreadable) as [?|?]; [done..|by left|right; by left].
  - split; [destruct Hshown as [_ [[E' _]|[E' _]]]; rewrite E' in Hw; naive_solver|].
    destruct (root_shows_readable L Hlx pol Hpok Hk c Hc p w unreadable _ _ Hp Hws Hsub Hshown) as [?|(s & Hs)]; [by left|].
    right. right. by exists w, s.
Qed.

(** ** A sample host and policy *)

Definition sample_tree : list path :=
  map components [lit "/a/docs"; lit "/a/secret"; lit "/a/src/x"; lit "/etc/passwd"; lit "/dev/null"].
Definition sample_exists (p : path) : bool := existsb (fun q => path_starts_with q p) sample_tree.
Definition sample_linux : LinuxHost :=
  mkLinuxHost
    (mkHost None None None sample_exists (fun _ => false) sample_exists (fun _ => None) (fun _ => None) (fun _ => None))
    (fun _ => None) (fun p => negb (sample_exists p)) (fun _ => None) (Some 9%N) (fun _ _ _ => RgNotFound)
    (fun _ => Err (lit "unsupported")).

Lemma sample_linux_ok : linux_ok sample_linux.
Proof.
  split; [by split|intros p; by left|done| |].
  - intros p q Hpq _. change (sample_exists (p ++ q) = true) in Hpq. change (sample_exists p = true).
    unfold sample_exists in *. apply existsb_exists in Hpq as (t & Ht & Hp).
    apply existsb_exists. exists t. split; [done|]. apply path_starts_with_app in Hp as [r ->].
    apply path_starts_with_app. exists (q ++ r). by rewrite app_assoc.
  - intros p. change (negb (sample_exists p) = true -> sample_exists p = false). by destruct (sample_exists p).
Qed.

Definition sample_policy : FileSystemSandboxPolicy :=
  restricted [mkEntry (FsSpecial Root) Read; mkEntry (FsSpecial (ProjectRoots None)) Write;
              mkEntry (FsSpecial (ProjectRoots (Some (lit ".git")))) Read;
              mkEntry (FsPath (components (lit "/a/docs"))) Read; secret].
Lemma sample_policy_ok : policy_ok sample_policy.
Proof. repeat constructor; by apply absolute_normalizedb_true. Qed.

Definition sample_args : BwrapArgs :=
  match create_bwrap_command_args sample_linux 9 [lit "ls"] sample_policy (lit "/a") dir_a default_options with
  | Ok b => b
  | Err _ => mkBwrapArgs [] [] [] []
  end.

Lemma bwrap_writes_allowed_witness :
  exists ops, parse_ops (args sample_args) = Some (ops, [lit "ls"])
    /\ exposure ops (components (lit "/a/src/x")) = WritableAt (components (lit "/a/src/x"))
    /\ resolve_access_with_cwd (lx_host sample_linux) sample_policy (lit "/a/src/x") (lit "/a") = Write
    /\ exposure ops (components (lit "/a/docs/y")) = ReadOnlyAt (components (lit "/a/docs/y"))
    /\ exposure ops (components (lit "/a/.git/config")) = Hidden
    /\ exposure ops (components (lit "/a/secret")) = Hidden.
Proof.
  destruct (bwrap_writes_allowed sample_linux 9 [lit "ls"] sample_policy dir_a dir_a (components (lit "/a/src/x"))
    (components (lit "/a/src/x")) default_options sample_args) as (ops & Hops & Hw);
    [apply sample_linux_ok|apply sample_policy_ok|by apply absolute_normalizedb_true..|by vm_compute|by vm_compute|].
  exists ops. split; [exact Hops|]. vm_compute in Hops. injection Hops as <-.
  split; [by vm_compute|]. split; [|by vm_compute].
  destruct Hw as [_ [(t & Ht & Hpt)|[[Hc _]|[Hr _]]]]; [by vm_compute| |by vm_compute in Hc|exact Hr].
  exfalso. revert Ht. vm_compute. intros Ht. apply elem_of_nil in Ht. done.
Defined.

Lemma bwrap_reads_allowed_witness :
  exists ops, parse_ops (args sample_args) = Some (ops, [lit "ls"])
    /\ exposure ops (components (lit "/etc/passwd")) = ReadOnlyAt (components (lit "/etc/passwd"))
    /\ can_read_path_with_cwd (lx_host sample_linux) sample_policy (lit "/etc/passwd") (lit "/a") = true.
Proof.
  destruct (bwrap_reads_allowed sample_linux 9 [lit "ls"] sample_policy dir_a dir_a (components (lit "/etc/passwd"))
    (components (lit "/etc/passwd")) default_options sample_args) as (ops & Hops & Hr);
    [apply sample_linux_ok|apply sample_policy_ok|by apply absolute_normalizedb_true..|by vm_compute|by vm_compute|by vm_compute|].
  exists ops. split; [exact Hops|]. vm_compute in Hops. injection Hops as <-. split; [by vm_compute|].
  destruct Hr as [_ [Hr|[[Hr _]|(w & s & Hw & Hs & Ho & _)]]]; [left; by vm_compute|exact Hr|by vm_compute in Hr|].
  exfalso. assert (Forall (fun w => Forall (fun s => path_starts_with s (wr_root w) = true) (read_only_subpaths w))
    (get_writable_roots_with_cwd (lx_host sample_linux) sample_policy (display dir_a))) as Hall
    by (vm_compute; repeat constructor).
  rewrite Forall_forall in Hall. specialize (Hall w Hw). rewrite Forall_forall in Hall. specialize (Hall s Hs).
  rewrite Hall in Ho. discriminate.
Defined.

(** ** The construction succeeds *)

Section total.
Context (L : LinuxHost) (Hlx : linux_ok L) (fd : N) (Hfd : lx_open_dev_null L = Some fd).
Notation H := (lx_host L).

Lemma empty_file_total b p : exists b', append_empty_file_bind_data_args L b p = Ok b'.
Proof. unfold append_empty_file_bind_data_args. rewrite Hfd. destruct (preserved_files b); by eexists. Qed.

Lemma read_only_total b s allowed : exists b', append_read_only_subpath_args L b s allowed = Ok b'.
Proof.
  unfold append_read_only_subpath_args. rewrite (writable_symlink_none L Hlx).
  unfold append_existing_empty_file_bind_data_args, append_missing_read_only_subpath_args,
    append_missing_empty_file_bind_data_args.
  destruct (empty_file_total b s) as [b1 ->].
  destruct (find_first_non_existent_component L s) as [f|]; [destruct (empty_file_total b f) as [b2 ->]|];
    cbn [mbind result_bind]; repeat case_goal; by eexists.
Qed.

Lemma unreadable_total b u allowed : exists b', append_unreadable_root_args L b u allowed = Ok b'.
Proof.
  unfold append_unreadable_root_args. rewrite (writable_symlink_none L Hlx).
  unfold append_existing_unreadable_path_args, append_missing_empty_file_bind_data_args.
  destruct (empty_file_total (push_args b [lit "--perms"; lit "000"]) u) as [b1 ->].
  destruct (find_first_non_existent_component L u) as [f|]; [destruct (empty_file_total b f) as [b2 ->]|];
    cbn [mbind result_bind]; repeat case_goal; by eexists.
Qed.

Lemma for_each_total {A} (body : BwrapArgs -> A -> result CodexErr BwrapArgs) (l : list A) :
  (forall b x, exists b', body b x = Ok b') -> forall b, exists b', for_each body b l = Ok b'.
Proof.
  intros Hbody. induction l as [|x l IH]; intros b; cbn [for_each]; [by eexists|].
  destruct (Hbody b x) as [b1 ->]. apply IH.
Qed.

Lemma writable_root_total unreadable missing_auto allowed b w :
  exists b', append_writable_root L unreadable missing_auto allowed b w = Ok b'.
Proof.
  unfold append_writable_root.
  match goal with |- context [for_each ?body ?s0 ?l] =>
    destruct (for_each_total body l (fun y x => read_only_total y x allowed) s0) as [b1 ->] end.
  cbn [mbind result_bind]. apply for_each_total. intros b2 u. apply unreadable_total.
Qed.
End total.

(** A policy that lets everything be written denies no pattern: the branches
    for such a policy with patterns are never taken. *)
Lemma full_write_no_globs (H : Host) (pol : FileSystemSandboxPolicy) (cwd : str) :
  has_full_disk_write_access pol = true -> get_unreadable_globs_with_cwd H pol cwd = [].
Proof.
  intros Hf. unfold get_unreadable_globs_with_cwd, has_full_disk_write_access, is_restricted in *.
  destruct (policy_kind pol) eqn:Hk; cbn; [|done..].
  assert (omap (fun entry => match entry_path entry with
    | FsGlobPattern pattern => Some (display (resolve_path_against_base (home H) pattern (components cwd)))
    | FsPath _ | FsSpecial _ => None end) (List.filter is_deny (policy_entries pol)) = []) as ->; [|done].
  apply elem_of_nil_inv. intros g (e & [He Hd]%elem_of_filter_bool & Hg)%list_elem_of_omap.
  destruct (entry_path e) as [?|pat|?] eqn:Hp; [done| |done].
  apply andb_true_iff in Hf as [_ Hn%negb_true_iff]. unfold has_write_narrowing_entries, is_restricted in Hn.
  rewrite Hk in Hn. cbn [andb] in Hn. rewrite bool_decide_eq_true_2 in Hn by done. cbn [andb] in Hn.
  pose proof (existsb_false _ _ e Hn He) as Hx. unfold narrows_write, is_deny in *. bool_to_prop.
  rewrite Hd, Hp in Hx. done.
Qed.

(** Setting up the sandbox does not fail by itself: on a host without
    symbolic links where [/dev/null] opens, a policy that denies no pattern gets
    its command line, and a policy that lets everything be written and needs no
    network isolation runs the command as it is. *)
Theorem bwrap_command_total (L : LinuxHost) (fuel : nat) (command : list str) (pol : FileSystemSandboxPolicy)
    (cwd : str) (command_cwd : path) (options : BwrapOptions) (fd : N) :
  linux_ok L -> lx_open_dev_null L = Some fd -> get_unreadable_globs_with_cwd (lx_host L) pol cwd = [] ->
  exists b, create_bwrap_command_args L fuel command pol cwd command_cwd options = Ok b
    /\ (has_full_disk_write_access pol = true -> network_mode options = FullAccess -> args b = command).
Proof.
  intros Hlx Hfd Hg. unfold create_bwrap_command_args. rewrite Hg, andb_true_r.
  destruct (has_full_disk_write_access pol) eqn:Hf.
  { case_bool_decide; eexists; (split; [done|]); [done|]. intros _ ?. done. }
  unfold create_bwrap_flags, create_filesystem_args. rewrite Hg. rewrite existing_roots_eq by done.
  cbn [mbind result_bind expand_unreadable_globs_with_ripgrep orb].
  match goal with |- context [for_each ?body ?s0 ?l] =>
    destruct (for_each_total body l (fun y x => unreadable_total L Hlx fd Hfd y x _) s0) as [b1 ->] end.
  cbn [mbind result_bind].
  match goal with |- context [for_each ?body b1 ?l] =>
    destruct (for_each_total body l (fun y w => writable_root_total L Hlx fd Hfd _ _ _ y w) b1) as [b2 ->] end.
  cbn [mbind result_bind].
  match goal with |- context [for_each ?body b2 ?l] =>
    destruct (for_each_total body l (fun y x => unreadable_total L Hlx fd Hfd y x _) b2) as [b3 ->] end.
  cbn [mbind result_bind]. eexists. split; [done|]. congruence.
Qed.

Lemma bwrap_command_total_witness :
  exists b, create_bwrap_command_args sample_linux 9 [lit "ls"] sample_policy (lit "/a") dir_a default_options = Ok b.
Proof.
  destruct (bwrap_command_total sample_linux 9 [lit "ls"] sample_policy (lit "/a") dir_a default_options 9%N)
    as (b & Hb & _); [apply sample_linux_ok|done|by vm_compute|]. by exists b.
Defined.

(** A [.git] pointer may lead out of its writable root.  Its target is bound
    read-only after the masks of the other roots, so it can show again what a
    denial of the policy hid. *)
Definition pointer_tree : list path := map components [lit "/a/secret/git"; lit "/b/.git"; lit "/dev/null"].
Definition pointer_exists (p : path) : bool := existsb (fun q => path_starts_with q p) pointer_tree.
Definition pointer_linux : LinuxHost :=
  mkLinuxHost
    (mkHost None None None (fun p => pointer_exists p && negb (bool_decide (p = components (lit "/b/.git"))))
       (fun p => bool_decide (p = components (lit "/b/.git"))) pointer_exists
       (fun p => if bool_decide (p = components (lit "/b/.git")) then Some (lit "gitdir: /a/secret/git") else None)
       (fun _ => None) (fun _ => None))
    (fun _ => None) (fun p => negb (pointer_exists p)) (fun _ => None) (Some 9%N) (fun _ _ _ => RgNotFound)
    (fun _ => Err (lit "unsupported")).
Definition pointer_policy : FileSystemSandboxPolicy :=
  restricted [mkEntry (FsSpecial Root) Read; mkEntry (FsPath dir_a) Write; secret;
              mkEntry (FsPath (components (lit "/b"))) Write].

Example gitdir_pointer_reopens_denied_path :
  exists b ops, create_bwrap_command_args pointer_linux 9 [lit "ls"] pointer_policy (lit "/b") (components (lit "/b"))
      default_options = Ok b
    /\ parse_ops (args b) = Some (ops, [lit "ls"])
    /\ exposure ops (components (lit "/a/secret/git")) = ReadOnlyAt (components (lit "/a/secret/git"))
    /\ can_read_path_with_cwd (lx_host pointer_linux) pointer_policy (lit "/a/secret/git") (lit "/b") = false.
Proof. eexists _, _. split; [by vm_compute|]. split; [by vm_compute|]. by vm_compute. Qed.

(** A metadata path that a read entry names below a working directory which is
    not itself a writable root is neither masked nor watched while it does not
    exist, although the policy lets nothing be written there. *)
Definition nested_tree : list path := map components [lit "/a/sub/x"; lit "/dev/null"].
Definition nested_exists (p : path) : bool := existsb (fun q => path_starts_with q p) nested_tree.
Definition nested_linux : LinuxHost :=
  mkLinuxHost
    (mkHost None None None nested_exists (fun _ => false) nested_exists (fun _ => None) (fun _ => None) (fun _ => None))
    (fun _ => None) (fun p => negb (nested_exists p)) (fun _ => None) (Some 9%N) (fun _ _ _ => RgNotFound)
    (fun _ => Err (lit "unsupported")).
Definition nested_policy : FileSystemSandboxPolicy :=
  restricted [mkEntry (FsSpecial Root) Read; mkEntry (FsPath dir_a) Write;
              mkEntry (FsSpecial (ProjectRoots (Some (lit ".git")))) Read].

Example nested_metadata_writable :
  let config := components (lit "/a/sub/.git/config") in
  exists b ops, create_bwrap_command_args nested_linux 9 [lit "ls"] nested_policy (lit "/a/sub")
      (components (lit "/a/sub")) default_options = Ok b
    /\ parse_ops (args b) = Some (ops, [lit "ls"])
    /\ exposure ops config = WritableAt config
    /\ existsb (fun t => path_starts_with config t) (protected_create_targets b) = false
    /\ resolve_access_with_cwd (lx_host nested_linux) nested_policy (display config) (lit "/a/sub") = Read.
Proof. eexists _, _. split; [by vm_compute|]. split; [by vm_compute|]. by vm_compute. Qed.
