(* ===== verification/LinuxSandbox.v ===== *)
(** * Running a command in the Linux sandbox: [sandboxing/src/manager.rs],
      [sandboxing/src/landlock.rs], [linux-sandbox/src/linux_run_main.rs],
      [linux-sandbox/src/landlock.rs]

    A command is turned into an invocation of the helper executable
    ([SandboxManager::transform]); the helper builds the bubblewrap view and
    re-enters itself inside it ([run_main], twice); the inner stage installs the
    seccomp filter and executes the command.  The theorems follow the command
    through these stages: the one that finally runs is the one that was asked
    for, under the effective profile of the request, and without network
    access unless that profile grants it. *)

From S2P Require Import Prelude AbsolutePath Host Permissions SandboxRoots PolicyTransforms Bwrap BwrapView.

(** ** Choosing a sandbox ([manager.rs]) *)

Inductive SandboxType : Type := SandboxNone | MacosSeatbelt | LinuxSeccomp | WindowsRestrictedToken.
#[export] Instance SandboxType_eq_dec : EqDecision SandboxType.
Proof. solve_decision. Defined.
Definition as_metric_tag (s : SandboxType) : str :=
  match s with
  | SandboxNone => lit "none"
  | MacosSeatbelt => lit "seatbelt"
  | LinuxSeccomp => lit "seccomp"
  | WindowsRestrictedToken => lit "windows_sandbox"
  end.

Inductive SandboxablePreference : Type := PrefAuto | PrefRequire | PrefForbid.
Inductive WindowsSandboxLevel : Type := WindowsDisabled | WindowsToken | WindowsElevated.
#[export] Instance WindowsSandboxLevel_eq_dec : EqDecision WindowsSandboxLevel.
Proof. solve_decision. Defined.

(** [cfg!(target_os = ...)] *)
Inductive TargetOs : Type := Macos | Linux | Windows | OtherOs.
Definition get_platform_sandbox (os : TargetOs) (windows_sandbox_enabled : bool) : option SandboxType :=
  match os with
  | Macos => Some MacosSeatbelt
  | Linux => Some LinuxSeccomp
  | Windows => if windows_sandbox_enabled then Some WindowsRestrictedToken else None
  | OtherOs => None
  end.

Definition select_initial (os : TargetOs) (file_system_policy : FileSystemSandboxPolicy)
    (network_policy : NetworkSandboxPolicy) (pref : SandboxablePreference)
    (windows_sandbox_level : WindowsSandboxLevel) (has_managed_network_requirements : bool) : SandboxType :=
  let platform := from_option id SandboxNone
    (get_platform_sandbox os (negb (bool_decide (windows_sandbox_level = WindowsDisabled)))) in
  match pref with
  | PrefForbid => SandboxNone
  | PrefRequire => platform
  | PrefAuto =>
      if should_require_platform_sandbox file_system_policy network_policy has_managed_network_requirements
      then platform else SandboxNone
  end.

Record SandboxCommand : Type := mkCommand {
  sc_program : str;
  sc_args : list str;
  sc_cwd : path;
  sc_env : list (str * str);
  sc_additional_permissions : option AdditionalPermissionProfile
}.

(** A [NetworkProxy] is seen through the path of its trust bundle. *)
Record NetworkProxy : Type := mkProxy { managed_mitm_ca_trust_bundle_path : option path }.

Record SandboxExecRequest : Type := mkExecRequest {
  ex_command : list str;
  ex_cwd : path;
  ex_env : list (str * str);
  ex_network : option NetworkProxy;
  ex_sandbox : SandboxType;
  ex_windows_sandbox_level : WindowsSandboxLevel;
  ex_windows_sandbox_private_desktop : bool;
  ex_permission_profile : PermissionProfile;
  ex_file_system_sandbox_policy : FileSystemSandboxPolicy;
  ex_network_sandbox_policy : NetworkSandboxPolicy;
  ex_arg0 : option str
}.

Record SandboxTransformRequest : Type := mkTransformRequest {
  tr_command : SandboxCommand;
  tr_permissions : PermissionProfile;
  tr_sandbox : SandboxType;
  tr_enforce_managed_network : bool;
  tr_network : option NetworkProxy;
  tr_sandbox_policy_cwd : str;
  tr_codex_linux_sandbox_exe : option str;
  tr_use_legacy_landlock : bool;
  tr_windows_sandbox_level : WindowsSandboxLevel;
  tr_windows_sandbox_private_desktop : bool
}.

Inductive SandboxTransformError : Type :=
| MissingLinuxSandboxExecutable
| Wsl1UnsupportedForBubblewrap
| SeatbeltUnavailable.

Definition CODEX_LINUX_SANDBOX_ARG0 : str := lit "codex-linux-sandbox".
Definition allow_network_for_proxy (enforce_managed_network : bool) : bool := enforce_managed_network.

Definition ensure_linux_bubblewrap_is_supported (file_system_sandbox_policy : FileSystemSandboxPolicy)
    (use_legacy_landlock allow_network_for_proxy is_wsl1 : bool) : result SandboxTransformError unit :=
  let requires_bubblewrap :=
    allow_network_for_proxy
    || (negb use_legacy_landlock && negb (has_full_disk_write_access file_system_sandbox_policy)) in
  if is_wsl1 && requires_bubblewrap then Err Wsl1UnsupportedForBubblewrap else Ok tt.

Definition linux_sandbox_arg0_override (exe : str) : str :=
  if bool_decide (file_name (components exe) = Some CODEX_LINUX_SANDBOX_ARG0) then exe else CODEX_LINUX_SANDBOX_ARG0.

Section sandbox.
(** [serde_json::to_string] of a profile. *)
Context (profile_json : PermissionProfile -> str).

Definition create_linux_sandbox_command_args_for_permission_profile (command : list str) (command_cwd : path)
    (permission_profile : PermissionProfile) (sandbox_policy_cwd : str)
    (use_legacy_landlock allow_network_for_proxy : bool) : list str :=
  [lit "--sandbox-policy-cwd"; sandbox_policy_cwd; lit "--command-cwd"; display command_cwd;
   lit "--permission-profile"; profile_json permission_profile]
  ++ (if use_legacy_landlock && negb allow_network_for_proxy then [lit "--use-legacy-landlock"] else [])
  ++ (if allow_network_for_proxy then [lit "--allow-network-for-proxy"] else [])
  ++ [lit "--"] ++ command.

Section host.
Context (L : LinuxHost).
Notation H := (lx_host L).

(** [None] stands for an [unreachable!] of the profile constructors. *)
Definition with_managed_mitm_ca_readable_root (permission_profile : PermissionProfile)
    (managed_mitm_ca_trust_bundle_path : option path) (sandbox_policy_cwd : str) : option PermissionProfile :=
  match managed_mitm_ca_trust_bundle_path with
  | None => Some permission_profile
  | Some bundle =>
      let '(file_system_sandbox_policy, network_sandbox_policy) := to_runtime_permissions permission_profile in
      from_runtime_permissions_with_enforcement (enforcement permission_profile)
        (with_additional_readable_roots H file_system_sandbox_policy sandbox_policy_cwd [bundle]) network_sandbox_policy
  end.

(** [SandboxManager::transform] on Linux; the outer [None] is a panic. *)
Definition transform (is_wsl1 : bool) (request : SandboxTransformRequest) :
  option (result SandboxTransformError SandboxExecRequest) :=
  let command := tr_command request in
  match effective_permission_profile (tr_permissions request) (sc_additional_permissions command) with
  | None => None
  | Some profile =>
      match with_managed_mitm_ca_readable_root profile
              (tr_network request ≫= managed_mitm_ca_trust_bundle_path) (tr_sandbox_policy_cwd request) with
      | None => None
      | Some profile =>
          let '(effective_file_system_policy, effective_network_policy) := to_runtime_permissions profile in
          let argv := sc_program command :: sc_args command in
          let finish := fun argv arg0 =>
            mkExecRequest argv (sc_cwd command) (sc_env command) (tr_network request) (tr_sandbox request)
              (tr_windows_sandbox_level request) (tr_windows_sandbox_private_desktop request) profile
              effective_file_system_policy effective_network_policy arg0 in
          Some
            match tr_sandbox request with
            | SandboxNone | WindowsRestrictedToken => Ok (finish argv None)
            | MacosSeatbelt => Err SeatbeltUnavailable
            | LinuxSeccomp =>
                match tr_codex_linux_sandbox_exe request with
                | None => Err MissingLinuxSandboxExecutable
                | Some exe =>
                    let allow_proxy_network := allow_network_for_proxy (tr_enforce_managed_network request) in
                    match ensure_linux_bubblewrap_is_supported effective_file_system_policy
                            (tr_use_legacy_landlock request) allow_proxy_network is_wsl1 with
                    | Err e => Err e
                    | Ok _ =>
                        Ok (finish
                              (exe :: create_linux_sandbox_command_args_for_permission_profile argv (sc_cwd command)
                                        profile (tr_sandbox_policy_cwd request) (tr_use_legacy_landlock request)
                                        allow_proxy_network)
                              (Some (linux_sandbox_arg0_override exe)))
                    end
                end
            end
      end
  end.

(** The legacy policy older clients are shown for a profile. *)
Definition compatibility_workspace_write_policy (file_system_policy : FileSystemSandboxPolicy)
    (network_policy : NetworkSandboxPolicy) (cwd : str) : SandboxPolicy :=
  let cwd_abs := from_absolute_path_checked H cwd in
  let writable_roots :=
    List.filter (fun root => negb (bool_decide (cwd_abs = Some root)))
      (map wr_root (get_writable_roots_with_cwd H file_system_policy cwd)) in
  let tmpdir_writable :=
    match tmpdir_var H with
    | Some tmpdir =>
        if tmpdir =s? [] then false
        else match from_absolute_path_checked H tmpdir with
             | Some tmpdir => can_write_path_with_cwd H file_system_policy (display tmpdir) cwd
             | None => false
             end
    | None => false
    end in
  let slash_tmp := lit "/tmp" in
  let slash_tmp_writable :=
    host_is_dir H (components slash_tmp) && can_write_path_with_cwd H file_system_policy slash_tmp cwd in
  WorkspaceWrite writable_roots (net_is_enabled network_policy) (negb tmpdir_writable) (negb slash_tmp_writable).

Definition compatibility_sandbox_policy_for_permission_profile (permissions : PermissionProfile) (cwd : str) :
  SandboxPolicy :=
  match profile_to_legacy_sandbox_policy H permissions cwd with
  | Ok legacy => legacy
  | Err _ =>
      let '(file_system_policy, network_policy) := to_runtime_permissions permissions in
      compatibility_workspace_write_policy file_system_policy network_policy cwd
  end.
End host.
End sandbox.

(** ** Seccomp ([linux-sandbox/src/landlock.rs])

    The system calls the code names; any other is given by its number. *)

Inductive Syscall : Type :=
| SYS_ptrace | SYS_process_vm_readv | SYS_process_vm_writev
| SYS_io_uring_setup | SYS_io_uring_enter | SYS_io_uring_register
| SYS_connect | SYS_accept | SYS_accept4 | SYS_bind | SYS_listen | SYS_getpeername | SYS_getsockname | SYS_shutdown
| SYS_sendto | SYS_sendmmsg | SYS_recvmmsg | SYS_getsockopt | SYS_setsockopt | SYS_socket | SYS_socketpair
| SYS_other (nr : Z).
#[export] Instance Syscall_eq_dec : EqDecision Syscall.
Proof. solve_decision. Defined.

Definition AF_UNIX : Z := 1.
Definition AF_INET : Z := 2.
Definition AF_INET6 : Z := 10.

(** [SeccompCondition] with [SeccompCmpArgLen::Dword] and [SeccompCmpOp::Ne]:
    the low 32 bits of an argument differ from a value. *)
Record SeccompCondition : Type := DwordNe { cond_arg : nat; cond_value : Z }.
Definition SeccompRule : Type := list SeccompCondition.
Definition SeccompRules : Type := list (Syscall * list SeccompRule).

(** [BTreeMap::insert] *)
Definition rules_insert (rules : SeccompRules) (nr : Syscall) (rule : list SeccompRule) : SeccompRules :=
  (nr, rule) :: List.filter (fun r => negb (bool_decide (r.1 = nr))) rules.
Definition deny_syscall (rules : SeccompRules) (nr : Syscall) : SeccompRules := rules_insert rules nr [].

Inductive NetworkSeccompMode : Type := SeccompRestricted | SeccompProxyRouted.
#[export] Instance NetworkSeccompMode_eq_dec : EqDecision NetworkSeccompMode.
Proof. solve_decision. Defined.

(** The rules [install_network_seccomp_filter_on_current_thread] builds. *)
Definition network_seccomp_rules (mode : NetworkSeccompMode) : SeccompRules :=
  let rules := fold_left deny_syscall
    [SYS_ptrace; SYS_process_vm_readv; SYS_process_vm_writev;
     SYS_io_uring_setup; SYS_io_uring_enter; SYS_io_uring_register] [] in
  match mode with
  | SeccompRestricted =>
      let rules := fold_left deny_syscall
        [SYS_connect; SYS_accept; SYS_accept4; SYS_bind; SYS_listen; SYS_getpeername; SYS_getsockname; SYS_shutdown;
         SYS_sendto; SYS_sendmmsg; SYS_recvmmsg; SYS_getsockopt; SYS_setsockopt] rules in
      let unix_only_rule := [DwordNe 0 AF_UNIX] in
      let rules := rules_insert rules SYS_socket [unix_only_rule] in
      rules_insert rules SYS_socketpair [unix_only_rule]
  | SeccompProxyRouted =>
      let deny_non_ip_socket := [DwordNe 0 AF_INET; DwordNe 0 AF_INET6] in
      let deny_non_unix_socketpair := [DwordNe 0 AF_UNIX] in
      let rules := rules_insert rules SYS_socket [deny_non_ip_socket] in
      rules_insert rules SYS_socketpair [deny_non_unix_socketpair]
  end.

(** What the kernel answers under a filter whose default is to allow: a call
    matches when it has an empty list of rules, or when every condition of one
    of its rules holds. *)
Inductive SeccompAction : Type := SeccompAllow | SeccompErrnoEPERM.
Definition condition_holds (args : list Z) (c : SeccompCondition) : bool :=
  negb (Z.land (from_option id 0%Z (args !! cond_arg c)) (2 ^ 32 - 1) =? cond_value c)%Z.
Definition seccomp_action (rules : SeccompRules) (nr : Syscall) (args : list Z) : SeccompAction :=
  match List.find (fun r => bool_decide (r.1 = nr)) rules with
  | None => SeccompAllow
  | Some (_, []) => SeccompErrnoEPERM
  | Some (_, rules) => if existsb (forallb (condition_holds args)) rules then SeccompErrnoEPERM else SeccompAllow
  end.

Definition should_install_network_seccomp (network_sandbox_policy : NetworkSandboxPolicy)
    (allow_network_for_proxy : bool) : bool :=
  negb (net_is_enabled network_sandbox_policy) || allow_network_for_proxy.
Definition network_seccomp_mode (network_sandbox_policy : NetworkSandboxPolicy)
    (allow_network_for_proxy proxy_routed_network : bool) : option NetworkSeccompMode :=
  if negb (should_install_network_seccomp network_sandbox_policy allow_network_for_proxy) then None
  else if proxy_routed_network then Some SeccompProxyRouted
  else Some SeccompRestricted.

(** ** The helper ([linux-sandbox/src/linux_run_main.rs]) *)

Record LandlockCommand : Type := mkLandlockCommand {
  lc_sandbox_policy_cwd : str;
  lc_command_cwd : option str;
  lc_permission_profile : option PermissionProfile;
  lc_use_legacy_landlock : bool;
  lc_apply_seccomp_then_exec : bool;
  lc_allow_network_for_proxy : bool;
  lc_proxy_route_spec : option str;
  lc_no_proc : bool;
  lc_command : list str
}.

(** What the thread is held to when it executes a command. *)
Record Restrictions : Type := mkRestrictions {
  rs_no_new_privs : bool;
  rs_seccomp : option SeccompRules;
  rs_landlock_writable : option (list path)
}.

(** How a run of the helper ends: a panic, an error while the bubblewrap
    command is built, the status of a probe that a signal ended, or the program
    it executes, the command itself or bubblewrap. *)
Inductive Stage : Type :=
| Panicked (message : str)
| BuildError (err : CodexErr)
| ProbeSignaled
| Executes (restrictions : Restrictions) (command : list str)
| RunsBwrap (b : BwrapArgs).

(** The process the helper runs in and the kernel it calls. *)
Inductive LandlockOutcome : Type := LandlockError | LandlockNotEnforced | LandlockEnforced.
Record Process : Type := mkProcess {
  current_exe : option str;                        (** [std::env::current_exe] *)
  process_argv0 : option str;                      (** the first of [std::env::args_os] *)
  preferred_bwrap_supports_argv0 : bool;
  prepare_host_proxy_route_spec : result str str;
  activate_proxy_routes_in_netns : str -> result str unit;
  probe_stderr : BwrapArgs -> option str;          (** [None]: a signal ended the probe *)
  set_no_new_privs : bool;                         (** [prctl] succeeds *)
  install_seccomp : SeccompRules -> bool;          (** the filter is applied *)
  install_landlock : list path -> LandlockOutcome
}.

Definition lift {A} (r : option A) (message : str) : result Stage A :=
  match r with Some x => Ok x | None => Err (Panicked message) end.
Definition run_stage (r : result Stage Stage) : Stage := match r with Ok s => s | Err s => s end.

Definition ensure_inner_stage_mode_is_valid (apply_seccomp_then_exec use_legacy_landlock : bool) : result Stage unit :=
  if apply_seccomp_then_exec && use_legacy_landlock
  then Err (Panicked (lit "--apply-seccomp-then-exec is incompatible with --use-legacy-landlock")) else Ok tt.

Definition bwrap_network_mode (network_sandbox_policy : NetworkSandboxPolicy) (allow_network_for_proxy : bool) :
  BwrapNetworkMode :=
  if allow_network_for_proxy then ProxyOnly
  else if net_is_enabled network_sandbox_policy then FullAccess else Isolated.

Definition is_proc_mount_failure (stderr : str) : bool :=
  contains_str (lit "Can't mount proc") stderr && contains_str (lit "/newroot/proc") stderr
  && (contains_str (lit "Invalid argument") stderr || contains_str (lit "Operation not permitted") stderr
      || contains_str (lit "Permission denied") stderr).

Record EffectivePermissions : Type := mkEffective {
  ep_permission_profile : PermissionProfile;
  ep_file_system_sandbox_policy : FileSystemSandboxPolicy;
  ep_network_sandbox_policy : NetworkSandboxPolicy
}.
Definition resolve_permission_profile (permission_profile : option PermissionProfile) :
  result Stage EffectivePermissions :=
  profile ← lift permission_profile (lit "missing permission profile configuration");
  let '(file_system_sandbox_policy, network_sandbox_policy) := to_runtime_permissions profile in
  Ok (mkEffective profile file_system_sandbox_policy network_sandbox_policy).

(** The position of the first [--]. *)
Fixpoint separator_index (argv : list str) : option nat :=
  match argv with
  | [] => None
  | arg :: argv => if arg =s? lit "--" then Some O else option_map S (separator_index argv)
  end.
Definition apply_inner_command_argv0_for_launcher (argv : list str) (supports_argv0 : bool)
    (argv0_fallback_command : str) : result Stage (list str) :=
  i ← lift (separator_index argv) (lit "bubblewrap argv is missing command separator '--'");
  if supports_argv0
  then Ok (take i argv ++ [lit "--argv0"; CODEX_LINUX_SANDBOX_ARG0] ++ drop i argv)
  else match argv !! S i with
       | None => Err (Panicked (lit "bubblewrap argv is missing inner command after '--'"))
       | Some _ => Ok (<[S i := argv0_fallback_command]> argv)
       end.

(** [exec_or_panic] up to [execvp]: an argument with a zero byte is refused. *)
Definition exec_or_panic (restrictions : Restrictions) (command : list str) : Stage :=
  if existsb (existsb (N.eqb 0)) command then Panicked (lit "Failed to convert command to CString")
  else Executes restrictions command.

Section helper.
Context (profile_json : PermissionProfile -> str) (L : LinuxHost) (P : Process).
Notation H := (lx_host L).

Definition apply_permission_profile_to_current_thread (permission_profile : PermissionProfile) (cwd : str)
    (apply_landlock_fs allow_network_for_proxy proxy_routed_network : bool) : result CodexErr Restrictions :=
  let '(file_system_sandbox_policy, network_sandbox_policy) := to_runtime_permissions permission_profile in
  let mode := network_seccomp_mode network_sandbox_policy allow_network_for_proxy proxy_routed_network in
  let landlock := apply_landlock_fs && negb (has_full_disk_write_access file_system_sandbox_policy) in
  let needs_no_new_privs := bool_decide (is_Some mode) || landlock in
  if needs_no_new_privs && negb (set_no_new_privs P) then Err Io
  else if match mode with Some mode => negb (install_seccomp P (network_seccomp_rules mode)) | None => false end
  then Err (Fatal (lit "seccomp"))
  else
    let seccomp := network_seccomp_rules <$> mode in
    if negb landlock then Ok (mkRestrictions needs_no_new_privs seccomp None)
    else if negb (has_full_disk_read_access file_system_sandbox_policy)
    then Err (Fatal (lit "Restricted read-only access is not supported by the legacy Linux Landlock filesystem backend."))
    else
      let writable_roots := map wr_root (get_writable_roots_with_cwd H file_system_sandbox_policy cwd) in
      match install_landlock P writable_roots with
      | LandlockEnforced => Ok (mkRestrictions needs_no_new_privs seccomp (Some writable_roots))
      | LandlockNotEnforced => Err (Fatal (lit "landlock"))
      | LandlockError => Err Io
      end.

Definition ensure_legacy_landlock_mode_supports_policy (use_legacy_landlock : bool)
    (file_system_sandbox_policy : FileSystemSandboxPolicy) (network_sandbox_policy : NetworkSandboxPolicy)
    (sandbox_policy_cwd : str) : result Stage unit :=
  if use_legacy_landlock
     && needs_direct_runtime_enforcement H file_system_sandbox_policy network_sandbox_policy sandbox_policy_cwd
  then Err (Panicked (lit "permission profiles requiring direct runtime enforcement are incompatible with --use-legacy-landlock"))
  else Ok tt.

Definition build_inner_seccomp_command (sandbox_policy_cwd : str) (command_cwd : option str)
    (permission_profile : PermissionProfile) (allow_network_for_proxy : bool) (proxy_route_spec : option str)
    (command : list str) : result Stage (list str) :=
  exe ← lift (current_exe P) (lit "failed to resolve current executable path");
  proxy ← (if allow_network_for_proxy then
             spec ← lift proxy_route_spec (lit "managed proxy mode requires a proxy route spec");
             Ok [lit "--allow-network-for-proxy"; lit "--proxy-route-spec"; spec]
           else Ok []);
  Ok ([exe; lit "--sandbox-policy-cwd"; sandbox_policy_cwd]
      ++ match command_cwd with Some command_cwd => [lit "--command-cwd"; command_cwd] | None => [] end
      ++ [lit "--permission-profile"; profile_json permission_profile; lit "--apply-seccomp-then-exec"]
      ++ proxy ++ [lit "--"] ++ command).

Definition build_bwrap_argv (fuel : nat) (inner : list str) (file_system_sandbox_policy : FileSystemSandboxPolicy)
    (sandbox_policy_cwd : str) (command_cwd : path) (options : BwrapOptions) : result CodexErr BwrapArgs :=
  b ← create_bwrap_command_args L fuel inner file_system_sandbox_policy sandbox_policy_cwd command_cwd options;
  Ok (mkBwrapArgs (lit "bwrap" :: args b) (preserved_files b) (synthetic_mount_targets b) (protected_create_targets b)).

Definition apply_inner_command_argv0 (argv : list str) : result Stage (list str) :=
  argv0 ← lift (process_argv0 P) (lit "failed to resolve current process argv[0]");
  apply_inner_command_argv0_for_launcher argv (preferred_bwrap_supports_argv0 P) argv0.

Definition resolve_true_command : str :=
  from_option id (lit "true")
    (List.find (fun candidate => host_exists H (components candidate)) [lit "/usr/bin/true"; lit "/bin/true"]).

Definition build_preflight_bwrap_argv (fuel : nat) (sandbox_policy_cwd : str) (command_cwd : path)
    (file_system_sandbox_policy : FileSystemSandboxPolicy) (mode : BwrapNetworkMode) : result CodexErr BwrapArgs :=
  build_bwrap_argv fuel [resolve_true_command] file_system_sandbox_policy sandbox_policy_cwd command_cwd
    (mkOptions true mode None).

Definition preflight_proc_mount_support (fuel : nat) (sandbox_policy_cwd : str) (command_cwd : path)
    (file_system_sandbox_policy : FileSystemSandboxPolicy) (mode : BwrapNetworkMode) : result Stage bool :=
  match build_preflight_bwrap_argv fuel sandbox_policy_cwd command_cwd file_system_sandbox_policy mode with
  | Err err => Err (BuildError err)
  | Ok preflight_argv =>
      match probe_stderr P preflight_argv with
      | None => Err ProbeSignaled
      | Some stderr => Ok (negb (is_proc_mount_failure stderr))
      end
  end.

Definition run_bwrap_with_proc_fallback (fuel : nat) (sandbox_policy_cwd : str) (command_cwd : option str)
    (file_system_sandbox_policy : FileSystemSandboxPolicy) (network_sandbox_policy : NetworkSandboxPolicy)
    (inner : list str) (mount_proc allow_network_for_proxy : bool) : result Stage Stage :=
  let mode := bwrap_network_mode network_sandbox_policy allow_network_for_proxy in
  let command_cwd := components (from_option id sandbox_policy_cwd command_cwd) in
  mount_proc ← (if mount_proc
                then preflight_proc_mount_support fuel sandbox_policy_cwd command_cwd file_system_sandbox_policy mode
                else Ok false);
  match build_bwrap_argv fuel inner file_system_sandbox_policy sandbox_policy_cwd command_cwd
          (mkOptions mount_proc mode None) with
  | Err err => Err (BuildError err)
  | Ok b =>
      argv ← apply_inner_command_argv0 (args b);
      Ok (RunsBwrap (mkBwrapArgs argv (preserved_files b) (synthetic_mount_targets b) (protected_create_targets b)))
  end.

(** [apply_permission_profile_to_current_thread] and then [exec_or_panic]. *)
Definition restrict_and_exec (message : string) (permission_profile : PermissionProfile) (cwd : str)
    (apply_landlock_fs allow_network_for_proxy proxy_routed_network : bool) (command : list str) : Stage :=
  match apply_permission_profile_to_current_thread permission_profile cwd apply_landlock_fs allow_network_for_proxy
          proxy_routed_network with
  | Err _ => Panicked (lit message)
  | Ok restrictions => exec_or_panic restrictions command
  end.

(** [run_main] on a parsed command line. *)
Definition run_main (fuel : nat) (c : LandlockCommand) : Stage :=
  run_stage
    (_ ← (match lc_command c with [] => Err (Panicked (lit "No command specified to execute.")) | _ => Ok tt end);
     _ ← ensure_inner_stage_mode_is_valid (lc_apply_seccomp_then_exec c) (lc_use_legacy_landlock c);
     effective ← resolve_permission_profile (lc_permission_profile c);
     let profile := ep_permission_profile effective in
     let policy := ep_file_system_sandbox_policy effective in
     let network := ep_network_sandbox_policy effective in
     let cwd := lc_sandbox_policy_cwd c in
     let proxy := lc_allow_network_for_proxy c in
     _ ← ensure_legacy_landlock_mode_supports_policy (lc_use_legacy_landlock c) policy network cwd;
     if lc_apply_seccomp_then_exec c then
       _ ← (if proxy then
              spec ← lift (lc_proxy_route_spec c) (lit "managed proxy mode requires --proxy-route-spec");
              match activate_proxy_routes_in_netns P spec with
              | Ok _ => Ok tt
              | Err err => Err (Panicked (lit "error activating Linux proxy routing bridge: " ++ err))
              end
            else Ok tt);
       Ok (restrict_and_exec "error applying Linux sandbox restrictions" profile cwd false proxy proxy (lc_command c))
     else if has_full_disk_write_access policy && negb proxy then
       Ok (restrict_and_exec "error applying Linux sandbox restrictions" profile cwd false proxy false (lc_command c))
     else if negb (lc_use_legacy_landlock c) then
       spec ← (if proxy then
                 match prepare_host_proxy_route_spec P with
                 | Ok spec => Ok (Some spec)
                 | Err err => Err (Panicked (lit "failed to prepare host proxy routing bridge: " ++ err))
                 end
               else Ok None);
       inner ← build_inner_seccomp_command cwd (lc_command_cwd c) profile proxy spec (lc_command c);
       run_bwrap_with_proc_fallback fuel cwd (lc_command_cwd c) policy network inner (negb (lc_no_proc c)) proxy
     else
       Ok (restrict_and_exec "error applying legacy Linux sandbox restrictions" profile cwd true proxy false
             (lc_command c))).
End helper.

(** ** The separator of the command line

    Every operand of the mounts is an absolute path, so the first [--] of a
    bubblewrap command line is the one before the command. *)

Definition unseparated (l : list str) : Prop := lit "--" ∉ l.

Lemma unseparated_app l l' : unseparated l -> unseparated l' -> unseparated (l ++ l').
Proof. unfold unseparated. rewrite elem_of_app. naive_solver. Qed.
Lemma unseparated_lits l : bool_decide (lit "--" ∈ l) = false -> unseparated l.
Proof. unfold unseparated. by case_bool_decide. Qed.
Lemma unseparated_flat_map {A} (f : A -> list str) (l : list A) :
  (forall x, x ∈ l -> unseparated (f x)) -> unseparated (flat_map f l).
Proof.
  intros Hf (x & Hx & Hin)%list_elem_of_In%in_flat_map. apply list_elem_of_In in Hx, Hin. by apply (Hf x).
Qed.

Lemma path_not_separator p : absolute_normalized p -> lit "--" <> path_to_string p.
Proof. intros [Ha _]%absolute_normalized_ok E. destruct (display_absolute p Ha) as [s Hs]. unfold path_to_string in E. rewrite Hs in E. done. Qed.

Lemma unseparated_path flag p : absolute_normalized p -> lit "--" <> flag -> unseparated [flag; path_to_string p].
Proof. intros Hp Hf. pose proof (path_not_separator p Hp). unfold unseparated. set_solver. Qed.

Lemma N_digits_not_separator k n acc : acc <> [45%N; 45%N] -> acc <> [45%N] -> N_digits k n acc <> lit "--".
Proof.
  revert n acc. induction k as [|k IH]; intros n acc H1 H2; [done|]. cbn [N_digits].
  assert (48 + n mod 10 <> 45)%N as Hd by (generalize (n mod 10)%N; lia).
  case_goal; [|apply IH]; intros [=]; done.
Qed.

Section separator.
Context (L : LinuxHost) (Hlx : linux_ok L).
Notation H := (lx_host L).
Let Hok : host_ok H := lx_ok L Hlx.
Let Hno : no_symlinks H := lx_canonical L Hlx.

Lemma dir_args_unseparated target anchor :
  absolute_normalized target -> unseparated (append_mount_target_parent_dir_args L target anchor).
Proof.
  intros Ht. unfold append_mount_target_parent_dir_args.
  assert (forall q, absolute_normalized q -> unseparated (flat_map (fun dir => [lit "--dir"; path_to_string dir])
    (rev (take_while (fun p => negb (bool_decide (p = anchor))) (path_ancestors q))))) as Hq.
  { intros q Hq. apply unseparated_flat_map. intros d Hd. apply unseparated_path; [|done].
    apply list_elem_of_In, in_rev, list_elem_of_In in Hd.
    assert (d ∈ path_ancestors q) as Hd'.
    { revert Hd. generalize (path_ancestors q). induction l as [|x l IH]; [done|]. cbn. case_goal; set_solver. }
    by eapply ancestors_fuel_prefix. }
  destruct (host_is_dir H target); [by apply Hq|]. destruct (parent target) as [q|] eqn:Hp; [|by apply not_elem_of_nil].
  apply Hq. by eapply parent_absolute.
Qed.

Lemma empty_file_unseparated b p b' :
  absolute_normalized p -> append_empty_file_bind_data_args L b p = Ok b' -> unseparated (args b) -> unseparated (args b').
Proof.
  intros Hp Hb Hu.
  assert (exists fd, args b' = args b ++ [lit "--ro-bind-data"; show_N fd; path_to_string p]) as [fd ->].
  { unfold append_empty_file_bind_data_args in Hb. repeat case_in Hb; simplify_eq; by eexists. }
  apply unseparated_app; [done|]. unfold unseparated.
  rewrite !elem_of_cons. intros [E|[E|[E|E]]]; [done| | |by apply elem_of_nil in E].
  - symmetry in E. exact (N_digits_not_separator _ _ [] ltac:(done) ltac:(done) E).
  - by eapply path_not_separator.
Qed.

Lemma empty_directory_unseparated b p :
  absolute_normalized p -> unseparated (args b) -> unseparated (args (append_empty_directory_args b p)).
Proof.
  intros Hp Hu. apply unseparated_app; [done|]. pose proof (path_not_separator p Hp).
  unfold unseparated. rewrite !elem_of_cons, elem_of_nil. naive_solver.
Qed.

Lemma first_missing_normalized p f :
  absolute_normalized p -> find_first_non_existent_component L p = Some f -> absolute_normalized f.
Proof.
  intros (names & -> & Hn). unfold find_first_non_existent_component. cbn [first_missing_loop walk_step fst snd andb].
  assert (forall cur, absolute_normalized cur -> first_missing_loop L cur (map Normal names) = Some f -> absolute_normalized f) as Hgo;
    [|apply Hgo; by exists []].
  induction Hn as [|n names Hne _ IH]; intros cur Hc; [done|]. cbn [map first_missing_loop walk_step fst snd].
  assert (absolute_normalized (pathbuf_push cur (Normal n))) by by apply absolute_normalized_snoc.
  case_goal; [intros; by simplify_eq|by apply IH].
Qed.

Lemma read_only_unseparated b p allowed b' :
  absolute_normalized p -> append_read_only_subpath_args L b p allowed = Ok b' -> unseparated (args b) -> unseparated (args b').
Proof.
  intros Hp Hb Hu. unfold append_read_only_subpath_args in Hb.
  destruct (first_writable_symlink_component_in_path _ _ _); [done|].
  assert (forall b'', (if negb (host_exists H p) then
            match find_first_non_existent_component L p with
            | Some f => if is_within_allowed_write_paths f allowed then append_missing_read_only_subpath_args L b f else Ok b
            | None => Ok b
            end
          else if is_within_allowed_write_paths p allowed
          then Ok (push_args b [lit "--ro-bind"; path_to_string p; path_to_string p]) else Ok b) = Ok b'' ->
     unseparated (args b'')) as Hplain.
  { intros b'' Hb''. destruct (host_exists H p); cbn [negb] in Hb''.
    - case_in Hb''; simplify_eq; [|done]. apply unseparated_app; [done|]. pose proof (path_not_separator p Hp).
      unfold unseparated. set_solver.
    - destruct (find_first_non_existent_component L p) as [f|] eqn:Hf; [|by simplify_eq].
      apply first_missing_normalized in Hf; [|done]. case_in Hb''; [|by simplify_eq].
      unfold append_missing_read_only_subpath_args in Hb''. case_in Hb''.
      + simplify_eq. by apply empty_directory_unseparated.
      + unfold append_missing_empty_file_bind_data_args in Hb''.
        destruct (append_empty_file_bind_data_args L b f) as [b1|] eqn:Hb1; [|done]. injection Hb'' as <-.
        by eapply empty_file_unseparated in Hb1. }
  destruct (transient_empty_metadata_path L p) as [[m|m]|]; [| |by apply Hplain].
  - destruct (is_within_allowed_write_paths p allowed) eqn:Hw; [|by apply Hplain].
    unfold append_existing_empty_file_bind_data_args in Hb.
    destruct (append_empty_file_bind_data_args L b p) as [b1|] eqn:Hb1; [|done]. injection Hb as <-.
    by eapply empty_file_unseparated in Hb1.
  - destruct (is_within_allowed_write_paths p allowed) eqn:Hw; [|by apply Hplain].
    injection Hb as <-. by apply empty_directory_unseparated.
Qed.

Lemma unreadable_unseparated b u allowed b' :
  Forall absolute_normalized allowed -> absolute_normalized u -> append_unreadable_root_args L b u allowed = Ok b' ->
  unseparated (args b) -> unseparated (args b').
Proof.
  intros Hall Hp Hb Hu. unfold append_unreadable_root_args in Hb.
  destruct (first_writable_symlink_component_in_path _ _ _); [done|].
  destruct (host_exists H u); cbn [negb] in Hb.
  - unfold append_existing_unreadable_path_args in Hb. destruct (host_is_dir H u).
    + injection Hb as <-. apply unseparated_app; [done|]. pose proof (path_not_separator u Hp).
      apply (unseparated_app [_; _; _; _]).
      * destruct (List.filter _ _); unfold unseparated; rewrite !elem_of_cons, elem_of_nil; intros [E|[E|[E|[E|[]]]]]; done.
      * apply unseparated_app; [|by apply unseparated_path]. apply unseparated_flat_map. intros d Hd.
        apply dir_args_unseparated. rewrite sort_by_key_perm in Hd. apply elem_of_filter_bool in Hd as [Hd _].
        rewrite Forall_forall in Hall. by apply Hall.
    + eapply empty_file_unseparated; [done|done|]. apply unseparated_app; [done|by apply unseparated_lits].
  - destruct (find_first_non_existent_component L u) as [f|] eqn:Hf; [|by simplify_eq].
    apply first_missing_normalized in Hf; [|done]. case_in Hb; [|by simplify_eq].
    unfold append_missing_empty_file_bind_data_args in Hb.
    destruct (append_empty_file_bind_data_args L b f) as [b1|] eqn:Hb1; [|done]. injection Hb as <-.
    by eapply empty_file_unseparated in Hb1.
Qed.

Lemma for_each_unseparated {A} (body : BwrapArgs -> A -> result CodexErr BwrapArgs) (l : list A) b b' :
  (forall b x b', x ∈ l -> body b x = Ok b' -> unseparated (args b) -> unseparated (args b')) ->
  for_each body b l = Ok b' -> unseparated (args b) -> unseparated (args b').
Proof.
  revert b. induction l as [|x l IH]; intros b Hbody Hb Hu; cbn [for_each] in Hb; [by injection Hb as <-|].
  destruct (body b x) as [b1|] eqn:Hb1; [|done]. cbn [mbind result_bind] in Hb.
  eapply IH; [|done|eapply (Hbody b x b1); [set_solver|done..]]. intros b2 y b3 Hy. apply Hbody. set_solver.
Qed.

Lemma create_targets_args names root target ros b :
  args (append_protected_create_targets_for_writable_root L b names root target ros) = args b.
Proof.
  unfold append_protected_create_targets_for_writable_root. revert b.
  induction names as [|n names IH]; intros b; [done|]. cbn [fold_left]. rewrite IH. by case_goal.
Qed.

Lemma writable_root_unseparated pol cwd unreadable missing_auto allowed b w b' :
  policy_ok pol -> w ∈ get_writable_roots_with_cwd H pol cwd ->
  Forall absolute_normalized unreadable -> Forall absolute_normalized allowed ->
  append_writable_root L unreadable missing_auto allowed b w = Ok b' -> unseparated (args b) -> unseparated (args b').
Proof.
  intros Hpok Hw Hun Hall Hb Hu. destruct (writable_root_inv H Hok Hno pol cwd w Hpok Hw) as (root & Hr & ->).
  unfold append_writable_root in Hb. rewrite (canonical_target_none L Hlx) in Hb. cbn [from_option id] in Hb.
  set (ros := append_metadata_path_masks_for_writable_root _ _ _ _ _) in Hb.
  destruct (for_each _ _ (sort_by_key path_depth ros)) as [b1|] eqn:Hb1; [|done]. cbn [mbind result_bind] in Hb.
  rewrite Forall_forall in Hun.
  eapply for_each_unseparated; [|exact Hb|].
  { intros b2 u b3 Hin. rewrite sort_by_key_perm in Hin. apply elem_of_filter_bool in Hin as [Hin _].
    apply unreadable_unseparated; [done|by apply Hun]. }
  eapply for_each_unseparated; [|exact Hb1|].
  { intros b2 s b3 Hin. rewrite sort_by_key_perm in Hin. apply read_only_unseparated.
    by eapply (read_only_list_normalized L Hlx pol cwd root unreadable missing_auto). }
  rewrite create_targets_args. cbn [push_args args wr_root writable_root_for].
  apply unseparated_app; [|pose proof (path_not_separator root Hr); unfold unseparated; set_solver].
  destruct (max_by _ _); [|done]. apply unseparated_app; [done|]. by apply dir_args_unseparated.
Qed.

Lemma checked_normalized p q : from_absolute_path_checked H p = Some q -> absolute_normalized q.
Proof.
  unfold from_absolute_path_checked. intros Hq. case_in Hq.
  apply absolutize_from_ok. { apply expand_ok, Hok. } by exists [].
Qed.

Lemma collect_normalized fuel root dir gs depth paths l :
  Forall absolute_normalized paths -> collect_glob_files L fuel root dir gs depth paths = Ok l -> Forall absolute_normalized l.
Proof.
  revert dir depth paths l. induction fuel as [|fuel IH]; intros dir depth paths l Hp; [done|]. cbn [collect_glob_files].
  destruct (lx_read_dir L dir) as [entries|]; [|done].
  set (step := fun (paths : result CodexErr (list path)) entry => _).
  assert (forall es acc, (forall l, acc = Ok l -> Forall absolute_normalized l) ->
    forall l, fold_left step es acc = Ok l -> Forall absolute_normalized l) as Hgo.
  { induction es as [|e es IHe]; intros acc Hacc; [done|]. cbn [fold_left]. apply IHe. clear IHe.
    intros l' Hl'. unfold step in Hl'. destruct acc as [acc|]; [|done]. cbn [mbind result_bind] in Hl'.
    specialize (Hacc acc eq_refl). destruct e as [[p ft]|]; [|done].
    match type of Hl' with context [mbind _ ?m] => destruct m as [acc'|] eqn:Ha; [|done] end. cbn [mbind result_bind] in Hl'.
    assert (Forall absolute_normalized acc') as Hacc'.
    { case_in Ha; [|done]. destruct (from_absolute_path_checked H (display p)) as [a|] eqn:Hc; [|done].
      injection Ha as <-. apply Forall_app. split; [done|]. constructor; [by eapply checked_normalized|done]. }
    case_in Hl'; [done|]. destruct depth as [depth|]; [case_in Hl'; [done|]|]; by eapply IH. }
  intros Hl. eapply (Hgo entries (Ok paths)); [|done]. intros l' [= <-]. done.
Qed.

Lemma ripgrep_normalized fuel root globs depth l :
  ripgrep_files L fuel root globs depth = Ok l -> Forall absolute_normalized l.
Proof.
  unfold ripgrep_files. destruct (lx_rg L root globs depth) as [| |code out err]; [|done|].
  - unfold glob_files. destruct (lx_glob_set L globs); [|done]. by apply collect_normalized.
  - case_bool_decide as Hcode; [|case_goal; [intros [= <-]; done|done]].
    match goal with |- checked_paths L ?paths = _ -> _ => generalize paths end. intros ps. revert l.
    induction ps as [|p ps IH]; intros l; cbn [checked_paths]; [by inversion 1|].
    destruct (from_absolute_path_checked H (display p)) as [q|] eqn:Hq; [|done].
    destruct (checked_paths L ps) as [qs|]; [|done]. intros [= <-].
    constructor; [by eapply checked_normalized|by apply IH].
Qed.

Lemma insert_path_normalized p l :
  absolute_normalized p -> Forall absolute_normalized l -> Forall absolute_normalized (insert_path p l).
Proof.
  intros Hp Hl. unfold insert_path. case_bool_decide; [done|]. rewrite insert_by_perm. by constructor.
Qed.

Lemma expanded_normalized fuel patterns cwd depth l :
  expand_unreadable_globs_with_ripgrep L fuel patterns cwd depth = Ok l -> Forall absolute_normalized l.
Proof.
  unfold expand_unreadable_globs_with_ripgrep. intros Hl. case_in Hl; [done|]. revert Hl.
  assert (Forall absolute_normalized []) as Hnil by done. revert Hnil.
  generalize (@nil path) as acc. generalize (group_patterns L patterns cwd) as groups.
  induction groups as [|[root globs] groups IH]; intros acc Hacc Hl; cbn [expand_groups] in Hl; [by simplify_eq|].
  destruct (ripgrep_files L fuel root globs depth) as [ps|] eqn:Hps; [|done]. cbn [mbind result_bind] in Hl.
  destruct (insert_matches L root acc ps) as [acc'|] eqn:Hm; [|done]. cbn [mbind result_bind] in Hl.
  eapply IH; [|done]. apply ripgrep_normalized in Hps. clear IH Hl. revert acc Hacc Hm.
  induction Hps as [|p ps Hp Hps IHp]; intros acc Hacc Hm; cbn [insert_matches] in Hm; [by simplify_eq|].
  unfold insert_match in Hm. rewrite (canonical_target_none L Hlx) in Hm. cbn [mbind result_bind] in Hm.
  case_in Hm. cbn [mbind result_bind] in Hm. eapply IHp; [|done]. by apply insert_path_normalized.
Qed.

Lemma readable_roots_normalized pol cwd r :
  policy_ok pol -> r ∈ readable_roots_of L pol cwd -> absolute_normalized r.
Proof.
  intros Hpok Hr. unfold readable_roots_of, btree_paths in Hr. rewrite dedup_paths_elem, sort_by_perm in Hr.
  apply elem_of_app in Hr as [Hr|Hr].
  - unfold get_readable_roots_with_cwd in Hr. case_in Hr; [set_solver|].
    apply dedup_elem in Hr. apply list_elem_of_fmap in Hr as (q & -> & Hq).
    apply list_elem_of_fmap in Hq as (e & -> & [He _]%elem_of_filter_bool).
    apply normalize_effective_ok; [done|]. by eapply resolved_ok.
  - destruct (include_platform_defaults pol); [|set_solver]. apply elem_of_filter_bool in Hr as [Hr _]. revert r Hr. apply Forall_forall.
    repeat (constructor; [by apply absolute_normalizedb_true|]). constructor.
Qed.

Lemma base_unseparated pol cwd ws :
  policy_ok pol -> unseparated (base_args L pol cwd ws).
Proof.
  intros Hpok. unfold base_args. case_goal; [by apply unseparated_lits|]. case_goal; [by apply unseparated_lits|].
  apply (unseparated_app EMPTY_ROOT_ARGS); [by apply unseparated_lits|]. apply unseparated_flat_map. intros r Hr.
  assert (absolute_normalized (readable_mount_root L ws r)) as Hm.
  { unfold readable_mount_root. rewrite (canonical_target_none L Hlx). apply readable_roots_normalized in Hr; [|done].
    by case_goal. }
  apply path_not_separator in Hm. case_goal; [by apply not_elem_of_nil|]. unfold unseparated. set_solver.
Qed.

Lemma filesystem_args_unseparated fuel pol cwd depth b :
  policy_ok pol -> has_full_disk_write_access pol = false -> create_filesystem_args L fuel pol cwd depth = Ok b ->
  unseparated (args b).
Proof.
  intros Hpok Hf Hb. unfold create_filesystem_args in Hb.
  rewrite existing_roots_eq in Hb by done. cbn [mbind result_bind] in Hb.
  destruct (expand_unreadable_globs_with_ripgrep L fuel _ cwd depth) as [expanded|] eqn:Hx; [|done].
  cbn [mbind result_bind] in Hb. apply expanded_normalized in Hx. rewrite (allowed_paths_roots L Hlx) in Hb.
  set (ws := List.filter _ (get_writable_roots_with_cwd H pol cwd)) in Hb. set (unreadable := dedup_paths _) in Hb.
  assert (Forall absolute_normalized unreadable) as Hun.
  { apply Forall_forall. intros u Hu. unfold unreadable in Hu. rewrite dedup_paths_elem, sort_by_perm in Hu.
    apply elem_of_app in Hu as [Hu|Hu]; [by eapply unreadable_roots_ok|]. rewrite Forall_forall in Hx. by apply Hx. }
  assert (Forall absolute_normalized (map wr_root ws)) as Hall.
  { apply Forall_forall. intros r (w & -> & [Hw _]%elem_of_filter_bool)%list_elem_of_fmap.
    by apply (writable_roots_normalized L Hlx pol cwd). }
  destruct (for_each _ _ (sort_by_key path_depth _)) as [b1|] eqn:Hb1 in Hb; [|done]. cbn [mbind result_bind] in Hb.
  destruct (for_each (append_writable_root _ _ _ _) b1 _) as [b2|] eqn:Hb2; [|done]. cbn [mbind result_bind] in Hb.
  rewrite Forall_forall in Hun.
  eapply for_each_unseparated; [|exact Hb|eapply for_each_unseparated; [|exact Hb2|eapply for_each_unseparated; [|exact Hb1|]]].
  - intros b3 u b4 Hu. rewrite sort_by_key_perm in Hu. apply elem_of_filter_bool in Hu as [Hu _].
    apply unreadable_unseparated; [done|by apply Hun].
  - intros b3 w b4 Hw. rewrite sort_by_key_perm in Hw. apply elem_of_filter_bool in Hw as [Hw _].
    eapply writable_root_unseparated; [done|exact Hw|by apply Forall_forall|done].
  - intros b3 u b4 Hu. rewrite sort_by_key_perm in Hu. apply elem_of_filter_bool in Hu as [Hu _].
    apply unreadable_unseparated; [done|by apply Hun].
  - by apply base_unseparated.
Qed.
End separator.

(** ** The command line of the helper

    [clap] is third-party code: what is relied on is that it fills the fields of
    [LandlockCommand] from long options given before [--] and passes what follows
    to the trailing argument. *)

Inductive HelperArg : Type := ArgValue (name value : str) | ArgFlag (name : str).
Definition arg_name (a : HelperArg) : str := match a with ArgValue name _ | ArgFlag name => name end.
Definition render_arg (a : HelperArg) : list str :=
  match a with ArgValue name value => [name; value] | ArgFlag name => [name] end.

Definition VALUE_OPTIONS : list str :=
  [lit "--sandbox-policy-cwd"; lit "--command-cwd"; lit "--permission-profile"; lit "--proxy-route-spec"].
Definition FLAG_OPTIONS : list str :=
  [lit "--use-legacy-landlock"; lit "--apply-seccomp-then-exec"; lit "--allow-network-for-proxy"; lit "--no-proc"].

(** An option that is declared, with a value that does not look like an option. *)
Definition arg_ok (a : HelperArg) : Prop :=
  match a with
  | ArgValue name value => name ∈ VALUE_OPTIONS /\ starts_with (lit "-") value = false
  | ArgFlag name => name ∈ FLAG_OPTIONS
  end.

Definition arg_value (name : str) (args : list HelperArg) : option str :=
  head (omap (fun a => match a with ArgValue n v => if n =s? name then Some v else None | ArgFlag _ => None end) args).
Definition arg_flag (name : str) (args : list HelperArg) : bool :=
  existsb (fun a => match a with ArgFlag n => n =s? name | ArgValue _ _ => false end) args.

Section clap.
(** [serde_json::from_str] at a profile. *)
Context (parse_permission_profile : str -> option PermissionProfile).

(** The fields [#[arg]] attributes fill from the options. *)
Definition landlock_command_of (args : list HelperArg) (command : list str) : option LandlockCommand :=
  cwd ← arg_value (lit "--sandbox-policy-cwd") args;
  profile ← match arg_value (lit "--permission-profile") args with
            | None => Some None
            | Some json => Some <$> parse_permission_profile json
            end;
  Some (mkLandlockCommand cwd (arg_value (lit "--command-cwd") args) profile
          (arg_flag (lit "--use-legacy-landlock") args) (arg_flag (lit "--apply-seccomp-then-exec") args)
          (arg_flag (lit "--allow-network-for-proxy") args) (arg_value (lit "--proxy-route-spec") args)
          (arg_flag (lit "--no-proc") args) command).

Class ClapParser (clap_parse : list str -> option LandlockCommand) : Prop :=
  clap_parse_options : forall args command,
    Forall arg_ok args -> NoDup (map arg_name args) ->
    clap_parse (flat_map render_arg args ++ lit "--" :: command) = landlock_command_of args command.

(** A parser of this kind. *)
Fixpoint read_args (l : list str) : option (list HelperArg * list str) :=
  match l with
  | [] => Some ([], [])
  | name :: l =>
      if name =s? lit "--" then Some ([], l)
      else if bool_decide (name ∈ FLAG_OPTIONS) then prod_map (cons (ArgFlag name)) id <$> read_args l
      else if bool_decide (name ∈ VALUE_OPTIONS) then
        match l with
        | [] => None
        | value :: l =>
            if starts_with (lit "-") value then None else prod_map (cons (ArgValue name value)) id <$> read_args l
        end
      else None
  end.
Definition simple_parse (l : list str) : option LandlockCommand :=
  '(args, command) ← read_args l; landlock_command_of args command.

Lemma read_render args command :
  Forall arg_ok args -> read_args (flat_map render_arg args ++ lit "--" :: command) = Some (args, command).
Proof.
  induction 1 as [|a args Ha _ IH]; [done|]. cbn [flat_map]. rewrite <- app_assoc.
  destruct a as [name value|name]; cbn [render_arg app read_args arg_ok] in *.
  - destruct Ha as [Hn Hv].
    rewrite (bool_decide_eq_false_2 (name = lit "--")), (bool_decide_eq_false_2 (name ∈ FLAG_OPTIONS)), bool_decide_eq_true_2;
      [by rewrite Hv, IH|done|..]; intros Hx; subst; revert Hn; try revert Hx; unfold VALUE_OPTIONS, FLAG_OPTIONS;
      rewrite ?elem_of_cons, ?elem_of_nil; naive_solver.
  - rewrite (bool_decide_eq_false_2 (name = lit "--")), bool_decide_eq_true_2; [by rewrite IH|done|].
    intros ->. revert Ha. unfold FLAG_OPTIONS. rewrite ?elem_of_cons, ?elem_of_nil. naive_solver.
Qed.

#[export] Instance simple_clap : ClapParser simple_parse.
Proof. intros args command Hok _. unfold simple_parse. by rewrite read_render. Qed.
End clap.

(** ** The bubblewrap command line *)

Lemma separator_index_unseparated l l' :
  unseparated l -> separator_index (l ++ lit "--" :: l') = Some (length l).
Proof.
  induction l as [|x l IH]; intros Hu; [done|]. unfold unseparated in *. rewrite elem_of_cons in Hu. cbn [app separator_index length].
  rewrite bool_decide_eq_false_2 by naive_solver. by rewrite IH by naive_solver.
Qed.

(** The command line [apply_inner_command_argv0_for_launcher] leaves. *)
Lemma inner_argv0_spec l exe rest supports fallback :
  unseparated l ->
  apply_inner_command_argv0_for_launcher (l ++ lit "--" :: exe :: rest) supports fallback
  = Ok (if supports : bool then l ++ [lit "--argv0"; CODEX_LINUX_SANDBOX_ARG0] ++ lit "--" :: exe :: rest
        else l ++ lit "--" :: fallback :: rest).
Proof.
  intros Hu. unfold apply_inner_command_argv0_for_launcher. rewrite separator_index_unseparated by done.
  cbn [lift mbind result_bind]. destruct supports.
  - by rewrite take_app_length, drop_app_length.
  - rewrite lookup_app_r by lia. replace (S (length l) - length l)%nat with 1%nat by lia. cbn [lookup list_lookup].
    rewrite insert_app_r_alt by lia. by replace (S (length l) - length l)%nat with 1%nat by lia.
Qed.

(** [op_ok] of the operations of a concrete list. *)
Ltac ops_ok :=
  repeat first [apply Forall_nil_2 | apply Forall_cons_2; [try exact I|]];
  apply (bool_decide_unpack _); vm_compute; exact I.

Definition unshare_net (mode : BwrapNetworkMode) (ops : list Op) : Prop :=
  should_unshare_network mode = true -> OpFlag (lit "--unshare-net") ∈ ops.

Section bwrap_line.
Context (L : LinuxHost) (Hlx : linux_ok L).
Notation H := (lx_host L).

Lemma command_cwd_unchanged p : normalize_command_cwd_for_bwrap L p = p.
Proof. unfold normalize_command_cwd_for_bwrap. by destruct (lx_canonical L Hlx p) as [->| ->]. Qed.

(** What the command line of a restricted command is made of. *)
Lemma bwrap_line fuel command pol cwd command_cwd options b :
  policy_ok pol -> (has_full_disk_write_access pol = true -> network_mode options <> FullAccess) ->
  create_bwrap_command_args L fuel command pol cwd command_cwd options = Ok b ->
  exists ops, args b = flat_map render ops ++ lit "--" :: command /\ Forall op_ok ops
    /\ unseparated (flat_map render ops) /\ unshare_net (network_mode options) ops.
Proof.
  intros Hpok Hmode Hb. unfold create_bwrap_command_args in Hb.
  set (post := (if should_unshare_network (network_mode options) then [OpFlag (lit "--unshare-net")] else [])
    ++ (if mount_proc options then [OpProc (lit "/proc")] else [])).
  assert (Forall op_ok post /\ unseparated (flat_map render post)) as [Hpk Hpu].
  { unfold post. destruct (should_unshare_network _), (mount_proc options); (split; [ops_ok|by apply unseparated_lits]). }
  assert (unshare_net (network_mode options) post) as Hun.
  { intros Hs. unfold post. rewrite Hs. set_solver. }
  assert (forall pre command', flat_map render (pre ++ post) ++ command'
    = flat_map render pre ++ (if should_unshare_network (network_mode options) then [lit "--unshare-net"] else [])
      ++ (if mount_proc options then [lit "--proc"; lit "/proc"] else []) ++ command') as Hpost.
  { intros pre command'. rewrite flat_map_app, <- app_assoc. f_equal. unfold post.
    by destruct (should_unshare_network _), (mount_proc options). }
  assert (forall pre, args b = flat_map render (pre ++ post) ++ lit "--" :: command -> Forall op_ok pre ->
    unseparated (flat_map render pre) ->
    exists ops, args b = flat_map render ops ++ lit "--" :: command /\ Forall op_ok ops
      /\ unseparated (flat_map render ops) /\ unshare_net (network_mode options) ops) as Hfinish.
  { intros pre Hargs Hk Hu. exists (pre ++ post). split_and!; [done|by apply Forall_app| |].
    - rewrite flat_map_app. by apply unseparated_app.
    - intros Hs. apply elem_of_app. right. by apply Hun. }
  destruct (has_full_disk_write_access pol) eqn:Hf; cbn [andb] in Hb.
  - rewrite full_write_no_globs in Hb by done.
    rewrite bool_decide_eq_false_2 in Hb by by apply Hmode. injection Hb as <-.
    apply (Hfinish [OpFlag (lit "--new-session"); OpFlag (lit "--die-with-parent"); OpBind [SLASH] [SLASH];
                    OpFlag (lit "--unshare-user"); OpFlag (lit "--unshare-pid")]).
    + by rewrite Hpost.
    + ops_ok.
    + by apply unseparated_lits.
  - unfold create_bwrap_flags in Hb. destruct (create_filesystem_args L fuel pol cwd _) as [b0|] eqn:Hb0; [|done].
    cbn [mbind result_bind] in Hb. injection Hb as <-.
    destruct (filesystem_exposure L Hlx fuel pol cwd _ b0 Hf Hb0) as (unreadable & fsops & Ha & Hk & _).
    { intros w Hw. by apply (writable_roots_normalized L Hlx pol cwd). }
    apply (Hfinish ([OpFlag (lit "--new-session"); OpFlag (lit "--die-with-parent")] ++ fsops
                    ++ [OpFlag (lit "--unshare-user"); OpFlag (lit "--unshare-pid")])).
    + rewrite Hpost, !flat_map_app, <- Ha, <- !app_assoc. cbn [args].
      rewrite command_cwd_unchanged, bool_decide_eq_true_2 by done. cbn [negb app]. done.
    + repeat (apply Forall_app; split); [ops_ok|done|ops_ok].
    + rewrite !flat_map_app, <- Ha.
      apply unseparated_app; [by apply unseparated_lits|]. apply unseparated_app; [|by apply unseparated_lits].
      by eapply (filesystem_args_unseparated L Hlx).
Qed.
End bwrap_line.

(** ** From the request to the command *)

(** The system calls a filtered command may make: with its network isolated,
    sockets of the Unix family only; with its network routed through the proxy,
    sockets of the IP families and the calls on them. *)
Definition syscall_allowed (proxied : bool) (nr : Syscall) (args : list Z) : Prop :=
  let domain := (from_option id 0 (args !! 0%nat) mod 2 ^ 32)%Z in
  match nr with
  | SYS_ptrace | SYS_process_vm_readv | SYS_process_vm_writev
  | SYS_io_uring_setup | SYS_io_uring_enter | SYS_io_uring_register => False
  | SYS_socketpair => domain = AF_UNIX
  | SYS_socket => if proxied then domain = AF_INET \/ domain = AF_INET6 else domain = AF_UNIX
  | SYS_other _ => True
  | _ => proxied = true
  end.

Lemma seccomp_rules_allow (mode : NetworkSeccompMode) (nr : Syscall) (args : list Z) :
  seccomp_action (network_seccomp_rules mode) nr args = SeccompAllow
  <-> syscall_allowed (match mode with SeccompRestricted => false | SeccompProxyRouted => true end) nr args.
Proof.
  unfold syscall_allowed. set (domain := (from_option id 0 (args !! 0%nat) mod 2 ^ 32)%Z).
  assert (forall v, condition_holds args (DwordNe 0 v) = negb (domain =? v)%Z) as Hcond.
  { intros v. unfold condition_holds, domain. cbn [cond_arg cond_value]. by rewrite <- Z.land_ones by done. }
  unfold seccomp_action. destruct mode, nr;
    match goal with |- context [List.find ?f ?l] =>
      let r := eval vm_compute in (List.find f l) in change (List.find f l) with r end; cbn beta match; try (by split).
  all: cbn [existsb forallb].
  all: rewrite !Hcond; unfold AF_UNIX, AF_INET, AF_INET6.
  all: repeat match goal with |- context [(?d =? ?v)%Z] => destruct (Z.eqb_spec d v) end; cbn; naive_solver.
Qed.

(** What a command runs under: no filter where the profile enables the network
    and no proxy is enforced, and otherwise, with [no_new_privs] set, a filter
    that allows exactly the system calls above. *)
Definition network_guarded (network : NetworkSandboxPolicy) (managed : bool) (r : Restrictions) : Prop :=
  match rs_seccomp r with
  | None => network = NetEnabled /\ managed = false
  | Some rules =>
      (network = NetRestricted \/ managed = true) /\ rs_no_new_privs r = true
      /\ forall nr args, seccomp_action rules nr args = SeccompAllow <-> syscall_allowed managed nr args
  end.

Lemma network_guarded_mode network managed r :
  rs_seccomp r = network_seccomp_rules <$> network_seccomp_mode network managed managed ->
  (is_Some (rs_seccomp r) -> rs_no_new_privs r = true) -> network_guarded network managed r.
Proof.
  unfold network_guarded. intros -> Hn. revert Hn.
  unfold network_seccomp_mode, should_install_network_seccomp.
  destruct network, managed; cbn [net_is_enabled negb orb fmap option_fmap option_map]; intros Hn; try done;
    (split_and!; [by auto|by apply Hn; eexists|]); intros nr args; apply seccomp_rules_allow.
Qed.

Lemma restrict_and_exec_spec L P message prof cwd landlock proxy routed command :
  match restrict_and_exec L P message prof cwd landlock proxy routed command with
  | Executes r command' =>
      command' = command
      /\ rs_seccomp r = network_seccomp_rules <$> network_seccomp_mode (network_sandbox_policy prof) proxy routed
      /\ (is_Some (rs_seccomp r) -> rs_no_new_privs r = true)
      /\ (landlock = true -> has_full_disk_write_access (file_system_sandbox_policy prof) = false ->
          rs_landlock_writable r
          = Some (map wr_root (get_writable_roots_with_cwd (lx_host L) (file_system_sandbox_policy prof) cwd)))
  | RunsBwrap _ => False
  | _ => True
  end.
Proof.
  unfold restrict_and_exec. destruct (apply_permission_profile_to_current_thread _ _ _ _ _ _ _) as [r|] eqn:Hr; [|done].
  unfold exec_or_panic. destruct (existsb _ command); [done|]. split; [done|].
  unfold apply_permission_profile_to_current_thread, to_runtime_permissions in Hr.
  set (mode := network_seccomp_mode _ _ _) in *. case_in Hr. case_in Hr.
  assert (is_Some (network_seccomp_rules <$> mode) -> forall b, bool_decide (is_Some mode) || b = true) as Hnnp.
  { intros [x Hx] b. destruct mode; [by rewrite bool_decide_eq_true_2|done]. }
  destruct (negb (landlock && _)) eqn:Hl in Hr.
  { injection Hr as <-. split_and!; [done|intros; by apply Hnnp|]. intros -> Hf. by rewrite Hf in Hl. }
  destruct (negb (has_full_disk_read_access _)) in Hr; [done|]. destruct (install_landlock P _); simplify_eq/=.
  split_and!; [done|intros; by apply Hnnp|done].
Qed.

Section pipeline.
Context (profile_json : PermissionProfile -> str) (parse_permission_profile : str -> option PermissionProfile)
        (clap_parse : list str -> option LandlockCommand) {Hclap : ClapParser parse_permission_profile clap_parse}.

(** The helper run with a list of arguments; [None] is a usage error. *)
Definition helper (L : LinuxHost) (P : Process) (fuel : nat) (argv : list str) : option Stage :=
  run_main profile_json L P fuel <$> clap_parse argv.

(** Values that are not taken for options. *)
Definition plain_value (s : str) : Prop := starts_with (lit "-") s = false.

Lemma plain_path p : absolute_normalized p -> plain_value (display p).
Proof.
  intros [Ha _]%absolute_normalized_ok. destruct (display_absolute p Ha) as [s Hs]. unfold plain_value. by rewrite Hs.
Qed.

Ltac args_ok :=
  repeat first [apply Forall_nil_2 | apply Forall_cons_2];
  cbn [arg_ok]; try (split; [apply (bool_decide_unpack _); vm_compute; exact I|done]);
  apply (bool_decide_unpack _); vm_compute; exact I.

Lemma outer_parse command c cwd prof legacy proxy :
  parse_permission_profile (profile_json prof) = Some prof -> plain_value (profile_json prof) ->
  plain_value cwd -> absolute_normalized c ->
  clap_parse (create_linux_sandbox_command_args_for_permission_profile profile_json command c prof cwd legacy proxy)
  = Some (mkLandlockCommand cwd (Some (display c)) (Some prof) (legacy && negb proxy) false proxy None false command).
Proof.
  intros Hjson Hplain Hcwd Hc%plain_path.
  set (opts := [ArgValue (lit "--sandbox-policy-cwd") cwd; ArgValue (lit "--command-cwd") (display c);
                ArgValue (lit "--permission-profile") (profile_json prof)]).
  assert (forall flags, Forall arg_ok (map ArgFlag flags) -> NoDup (map arg_name (opts ++ map ArgFlag flags)) ->
    clap_parse (flat_map render_arg (opts ++ map ArgFlag flags) ++ lit "--" :: command)
    = landlock_command_of parse_permission_profile (opts ++ map ArgFlag flags) command) as Hparse.
  { intros flags Hf Hn. apply Hclap; [|done]. apply Forall_app. split; [|done]. unfold opts. args_ok. }
  unfold create_linux_sandbox_command_args_for_permission_profile.
  destruct proxy, legacy; cbn [andb negb app].
  all: match goal with
       | |- clap_parse ?l = Some (mkLandlockCommand _ _ _ ?use _ ?proxy _ _ _) =>
           change l with (flat_map render_arg (opts ++ map ArgFlag ((if use then [lit "--use-legacy-landlock"] else [])
             ++ (if proxy then [lit "--allow-network-for-proxy"] else []))) ++ lit "--" :: command)
       end.
  all: rewrite Hparse by (try (apply (bool_decide_unpack _); vm_compute; exact I); cbn [map app]; args_ok).
  all: unfold landlock_command_of.
  all: change (arg_value (lit "--sandbox-policy-cwd") _) with (Some cwd).
  all: change (arg_value (lit "--permission-profile") _) with (Some (profile_json prof)).
  all: cbn [mbind option_bind]; rewrite Hjson; reflexivity.
Qed.

Lemma inner_parse P cwd c prof proxy spec command inner :
  parse_permission_profile (profile_json prof) = Some prof -> plain_value (profile_json prof) ->
  plain_value cwd -> absolute_normalized c -> (forall s, spec = Some s -> plain_value s) ->
  build_inner_seccomp_command profile_json P cwd (Some (display c)) prof proxy spec command = Ok inner ->
  exists exe options, inner = exe :: options ++ lit "--" :: command
    /\ clap_parse (options ++ lit "--" :: command)
       = Some (mkLandlockCommand cwd (Some (display c)) (Some prof) false true proxy (if proxy then spec else None) false command).
Proof.
  intros Hjson Hplain Hcwd Hc%plain_path Hspec Hinner. unfold build_inner_seccomp_command in Hinner.
  destruct (current_exe P) as [exe|]; [|done]. cbn [lift mbind result_bind] in Hinner.
  set (opts := [ArgValue (lit "--sandbox-policy-cwd") cwd; ArgValue (lit "--command-cwd") (display c);
                ArgValue (lit "--permission-profile") (profile_json prof); ArgFlag (lit "--apply-seccomp-then-exec")]).
  exists exe.
  destruct proxy; [destruct spec as [spec|]; [|done]; specialize (Hspec spec eq_refl)|]; cbn in Hinner; injection Hinner as <-.
  - exists (flat_map render_arg (opts ++ [ArgFlag (lit "--allow-network-for-proxy"); ArgValue (lit "--proxy-route-spec") spec])).
    split; [done|]. rewrite Hclap.
    + unfold landlock_command_of. change (arg_value (lit "--sandbox-policy-cwd") _) with (Some cwd).
      change (arg_value (lit "--permission-profile") _) with (Some (profile_json prof)).
      cbn [mbind option_bind]. rewrite Hjson. reflexivity.
    + cbn [app opts]. args_ok.
    + apply (bool_decide_unpack _). vm_compute. exact I.
  - exists (flat_map render_arg opts). split; [done|]. rewrite Hclap.
    + unfold landlock_command_of. change (arg_value (lit "--sandbox-policy-cwd") _) with (Some cwd).
      change (arg_value (lit "--permission-profile") _) with (Some (profile_json prof)).
      cbn [mbind option_bind]. rewrite Hjson. reflexivity.
    + unfold opts. args_ok.
    + apply (bool_decide_unpack _). vm_compute. exact I.
Qed.

(** The inner stage executes the command under the seccomp rules. *)
Lemma inner_stage_spec L P fuel cwd ccwd prof proxy spec command :
  match run_main profile_json L P fuel (mkLandlockCommand cwd ccwd (Some prof) false true proxy spec false command) with
  | Executes r command' => command' = command /\ network_guarded (network_sandbox_policy prof) proxy r
  | RunsBwrap _ => False
  | _ => True
  end.
Proof.
  unfold run_main. cbn [lc_command lc_apply_seccomp_then_exec lc_use_legacy_landlock lc_permission_profile
    lc_allow_network_for_proxy lc_proxy_route_spec lc_sandbox_policy_cwd andb ensure_inner_stage_mode_is_valid].
  destruct command as [|x command]; [done|]. cbn [mbind result_bind lift resolve_permission_profile to_runtime_permissions
    ensure_legacy_landlock_mode_supports_policy andb ep_permission_profile ep_network_sandbox_policy].
  assert (forall s, (if proxy then spec0 ← lift spec (lit "managed proxy mode requires --proxy-route-spec");
      match activate_proxy_routes_in_netns P spec0 with
      | Ok _ => Ok tt
      | Err err => Err (Panicked (lit "error activating Linux proxy routing bridge: " ++ err))
      end else Ok tt) = Err s -> exists m, s = Panicked m) as Herr.
  { intros s. destruct proxy; [|done]. destruct spec as [spec|]; cbn; [|intros [= <-]; by eexists].
    destruct (activate_proxy_routes_in_netns P spec); [done|]. intros [= <-]. by eexists. }
  match goal with |- context [mbind _ ?m] => destruct m as [u|s] eqn:Hr end; cbn [mbind result_bind run_stage].
  2: { by destruct (Herr s eq_refl) as [m ->]. }
  pose proof (restrict_and_exec_spec L P "error applying Linux sandbox restrictions" prof cwd false proxy proxy (x :: command)) as Hs.
  cbn [ep_permission_profile]. destruct (restrict_and_exec _ _ _ _ _ _ _ _ _); try done. destruct Hs as (-> & Hsec & Hnnp & Hll).
  split; [done|]. by apply network_guarded_mode.
Qed.

(** The bubblewrap command line carries the view of the policy, in a network
    namespace of its own when the command is isolated, and runs the inner command,
    with the name of the helper put in. *)
Definition isolates (network : NetworkSandboxPolicy) (managed : bool) : bool := negb (net_is_enabled network) || managed.
Definition wraps (L : LinuxHost) (fuel : nat) (policy : FileSystemSandboxPolicy) (isolated : bool) (cwd : str)
    (c : path) (inner : list str) (b : BwrapArgs) : Prop :=
  exists b0 mount_proc mode ops0 ops exe,
    create_bwrap_command_args L fuel inner policy cwd c (mkOptions mount_proc mode None) = Ok b0
    /\ protected_create_targets b = protected_create_targets b0
    /\ parse_ops (args b0) = Some (ops0, inner) /\ parse_ops (tail (args b)) = Some (ops, exe :: tail inner)
    /\ (isolated = true -> OpFlag (lit "--unshare-net") ∈ ops) /\ forall p, exposure ops p = exposure ops0 p.

Lemma run_bwrap_wraps L P fuel cwd c policy network inner mount_proc proxy :
  linux_ok L -> policy_ok policy -> absolute_normalized c -> inner <> [] ->
  (has_full_disk_write_access policy = true -> proxy = true) ->
  match run_stage (run_bwrap_with_proc_fallback L P fuel cwd (Some (display c)) policy network inner mount_proc proxy) with
  | RunsBwrap b => wraps L fuel policy (isolates network proxy) cwd c inner b
  | Executes _ _ => False
  | _ => True
  end.
Proof.
  intros Hlx Hpok Hc Hinner Hfull. unfold run_bwrap_with_proc_fallback. cbn [from_option id]. rewrite components_display by done.
  set (mode := bwrap_network_mode network proxy).
  assert (isolates network proxy = should_unshare_network mode) as -> by (subst mode; by destruct network, proxy).
  match goal with |- context [mbind _ ?m] => destruct m as [proc|s] eqn:Hproc end; cbn [mbind result_bind run_stage].
  2: { destruct mount_proc; [|done]. unfold preflight_proc_mount_support in Hproc.
       destruct (build_preflight_bwrap_argv _ _ _ _ _ _); [|by injection Hproc as <-].
       destruct (probe_stderr P _); [done|]. by injection Hproc as <-. }
  unfold build_bwrap_argv. destruct (create_bwrap_command_args _ _ _ _ _ _ _) as [b0|err] eqn:Hb0; [|done].
  cbn [mbind result_bind args]. unfold apply_inner_command_argv0.
  destruct (process_argv0 P) as [argv0|]; [|done]. cbn [lift mbind result_bind].
  assert (has_full_disk_write_access policy = true -> mode <> FullAccess) as Hmode.
  { intros Hf%Hfull E. by subst proxy. }
  destruct (bwrap_line L Hlx fuel inner policy cwd c (mkOptions proc mode None) b0 Hpok Hmode Hb0) as (ops0 & Ha & Hk & Hu & Hnet).
  cbn [network_mode] in Hnet. destruct inner as [|exe rest]; [done|]. rewrite Ha, app_comm_cons.
  assert (unseparated (lit "bwrap" :: flat_map render ops0)) as Hu' by (apply (unseparated_app [_]); [by apply unseparated_lits|done]).
  rewrite inner_argv0_spec by done. cbn [mbind result_bind run_stage].
  exists b0, proc, mode, ops0. pose proof (parse_render ops0 (exe :: rest) Hk) as Hp0. rewrite <- Ha in Hp0.
  cbn [args protected_create_targets]. destruct (preferred_bwrap_supports_argv0 P).
  - exists (ops0 ++ [OpArgv0 CODEX_LINUX_SANDBOX_ARG0]), exe. cbn [app tail]. split_and!; [done..| | |].
    + rewrite <- (parse_render (ops0 ++ [OpArgv0 CODEX_LINUX_SANDBOX_ARG0]) (exe :: rest)) by (apply Forall_app; by repeat constructor).
      by rewrite flat_map_app, <- app_assoc.
    + intros Hs. apply elem_of_app. left. by apply Hnet.
    + intros p. unfold exposure. by rewrite fold_left_app.
  - exists ops0, argv0. cbn [app tail]. split_and!; [done..| |done|done]. by rewrite parse_render.
Qed.

Lemma outer_stage_spec L P fuel cwd c prof legacy proxy command :
  linux_ok L -> policy_ok (file_system_sandbox_policy prof) -> absolute_normalized c -> legacy && proxy = false ->
  match run_main profile_json L P fuel
          (mkLandlockCommand cwd (Some (display c)) (Some prof) legacy false proxy None false command) with
  | Executes r command' =>
      command' = command /\ network_guarded (network_sandbox_policy prof) proxy r
      /\ (has_full_disk_write_access (file_system_sandbox_policy prof) = true
          \/ rs_landlock_writable r
             = Some (map wr_root (get_writable_roots_with_cwd (lx_host L) (file_system_sandbox_policy prof) cwd)))
  | RunsBwrap b =>
      exists spec inner, (forall s, spec = Some s -> prepare_host_proxy_route_spec P = Ok s)
        /\ build_inner_seccomp_command profile_json P cwd (Some (display c)) prof proxy spec command = Ok inner
        /\ wraps L fuel (file_system_sandbox_policy prof) (isolates (network_sandbox_policy prof) proxy) cwd c inner b
  | _ => True
  end.
Proof.
  intros Hlx Hpok Hc Hlegacy. unfold run_main.
  cbn [lc_command lc_apply_seccomp_then_exec lc_use_legacy_landlock lc_permission_profile lc_no_proc lc_command_cwd
    lc_allow_network_for_proxy lc_proxy_route_spec lc_sandbox_policy_cwd andb negb ensure_inner_stage_mode_is_valid].
  destruct command as [|x command]; [done|]. cbn [mbind result_bind lift resolve_permission_profile to_runtime_permissions
    ep_permission_profile ep_network_sandbox_policy ep_file_system_sandbox_policy].
  unfold ensure_legacy_landlock_mode_supports_policy. destruct (legacy && needs_direct_runtime_enforcement _ _ _ _); [done|]. cbn [mbind result_bind].
  destruct (has_full_disk_write_access _ && negb proxy) eqn:Hf.
  { apply andb_true_iff in Hf as [Hf ->%negb_true_iff]. cbn [run_stage].
    pose proof (restrict_and_exec_spec L P "error applying Linux sandbox restrictions" prof cwd false false false (x :: command)) as Hs.
    destruct (restrict_and_exec _ _ _ _ _ _ _ _ _); try done. destruct Hs as (-> & Hsec & Hnnp & Hll).
    split_and!; [done|by apply network_guarded_mode|by left]. }
  destruct legacy; cbn [negb].
  { cbn [andb] in Hlegacy. subst proxy. cbn [run_stage]. rewrite andb_true_r in Hf.
    pose proof (restrict_and_exec_spec L P "error applying legacy Linux sandbox restrictions" prof cwd true false false (x :: command)) as Hs.
    destruct (restrict_and_exec _ _ _ _ _ _ _ _ _); try done. destruct Hs as (-> & Hsec & Hnnp & Hll).
    split_and!; [done|by apply network_guarded_mode|]. right. by apply Hll. }
  match goal with |- context [mbind _ ?m] => destruct m as [spec|s] eqn:Hspec end; cbn [mbind result_bind run_stage].
  2: { destruct proxy; [|done]. destruct (prepare_host_proxy_route_spec P); [done|]. by injection Hspec as <-. }
  destruct (build_inner_seccomp_command _ _ _ _ _ _ _ _) as [inner|s] eqn:Hinner; cbn [mbind result_bind run_stage].
  2: { unfold build_inner_seccomp_command in Hinner. destruct (current_exe P); [|by injection Hinner as <-]. cbn in Hinner.
       destruct proxy; [|done]. destruct spec; [done|]. by injection Hinner as <-. }
  assert (inner <> []) as Hne.
  { unfold build_inner_seccomp_command in Hinner. destruct (current_exe P); [|done]. cbn [lift mbind result_bind] in Hinner.
    match type of Hinner with context [mbind _ ?m] => destruct m; [|done] end. by injection Hinner as <-. }
  assert (has_full_disk_write_access (file_system_sandbox_policy prof) = true -> proxy = true) as Hfull.
  { intros Hfw. rewrite Hfw in Hf. by destruct proxy. }
  pose proof (run_bwrap_wraps L P fuel cwd c (file_system_sandbox_policy prof) (network_sandbox_policy prof) inner true proxy
    Hlx Hpok Hc Hne Hfull) as Hw.
  destruct (run_stage _); try done. exists spec, inner. split_and!; [|done..].
  intros s ->. destruct proxy; [|done]. destruct (prepare_host_proxy_route_spec P); [|done]. congruence.
Qed.
End pipeline.

(** ** The theorems *)

(** C38. Under the seccomp rules a system call succeeds as follows: process
    inspection and io_uring never do; [socketpair] only for [AF_UNIX]; [socket]
    only for [AF_UNIX] in restricted mode and only for the IP families in
    proxy-routed mode; the other socket calls the code names only in
    proxy-routed mode; every other call is left alone.  The domain is the low
    32 bits of the first argument. *)
Theorem seccomp_filter_spec (mode : NetworkSeccompMode) (nr : Syscall) (args : list Z) :
  let domain := (from_option id 0 (args !! 0%nat) mod 2 ^ 32)%Z in
  seccomp_action (network_seccomp_rules mode) nr args = SeccompAllow <->
  match nr with
  | SYS_ptrace | SYS_process_vm_readv | SYS_process_vm_writev
  | SYS_io_uring_setup | SYS_io_uring_enter | SYS_io_uring_register => False
  | SYS_socketpair => domain = AF_UNIX
  | SYS_socket =>
      match mode with
      | SeccompRestricted => domain = AF_UNIX
      | SeccompProxyRouted => domain = AF_INET \/ domain = AF_INET6
      end
  | SYS_other _ => True
  | _ => mode = SeccompProxyRouted
  end.
Proof. cbv zeta. rewrite seccomp_rules_allow. by destruct mode, nr. Qed.

Lemma transform_command profile_json L is_wsl1 request ex :
  transform profile_json L is_wsl1 request = Some (Ok ex) -> tr_sandbox request = LinuxSeccomp ->
  exists exe, ex_command ex = exe :: create_linux_sandbox_command_args_for_permission_profile profile_json
    (sc_program (tr_command request) :: sc_args (tr_command request)) (sc_cwd (tr_command request))
    (ex_permission_profile ex) (tr_sandbox_policy_cwd request) (tr_use_legacy_landlock request)
    (tr_enforce_managed_network request).
Proof.
  intros Htr Hsb. revert Htr. unfold transform. destruct (effective_permission_profile _ _) as [eff|]; [|done].
  destruct (with_managed_mitm_ca_readable_root _ _ _ _) as [p|]; [|done]. cbn [to_runtime_permissions]. rewrite Hsb.
  destruct (tr_codex_linux_sandbox_exe request) as [exe|]; [|done].
  destruct (ensure_linux_bubblewrap_is_supported _ _ _ _); [|done]. intros [= <-]. by exists exe.
Qed.

(** [prof] is the profile a request asks for: the enforcement is that of the
    profile of the request; the network is enabled exactly when that profile or
    the additional permissions of the command enable it; every path is decided by
    the most specific entry of the profile, of the additional permissions and of
    one more read entry at most, for the trust bundle of the network proxy; and
    an unrestricted file system stays unrestricted. *)
Definition asked_for (H : Host) (request : SandboxTransformRequest) (prof : PermissionProfile) : Prop :=
  let permissions := tr_permissions request in
  let additional := sc_additional_permissions (tr_command request) in
  let cwd := tr_sandbox_policy_cwd request in
  enforcement prof = enforcement permissions
  /\ (net_is_enabled (network_sandbox_policy prof)
      = net_is_enabled (network_sandbox_policy permissions) || is_network_enabled (additional ≫= add_network))
  /\ if is_restricted (file_system_sandbox_policy permissions)
     then exists bundle, (bundle = [] \/ exists p, tr_network request ≫= managed_mitm_ca_trust_bundle_path = Some p
                                                 /\ bundle = [mkResolved p Read])
          /\ forall t, absolute_normalized t ->
             decides t (resolved_entries_with_cwd H (file_system_sandbox_policy permissions) cwd
                        ++ resolved_entries_with_cwd H (restricted (overlay_entries additional)) cwd ++ bundle)
               (resolve_access_with_cwd H (file_system_sandbox_policy prof) (display t) cwd)
     else forall t, resolve_access_with_cwd H (file_system_sandbox_policy prof) t cwd = Write.

(** The read entry of the trust bundle. *)
Lemma with_bundle_parts L eff bundle cwd prof :
  with_managed_mitm_ca_readable_root L eff bundle cwd = Some prof ->
  enforcement prof = enforcement eff /\ network_sandbox_policy prof = network_sandbox_policy eff
  /\ policy_kind (file_system_sandbox_policy prof) = policy_kind (file_system_sandbox_policy eff)
  /\ exists es, policy_entries (file_system_sandbox_policy prof) = policy_entries (file_system_sandbox_policy eff) ++ es
     /\ (es = [] \/ exists p, bundle = Some p /\ es = [mkEntry (FsPath p) Read]).
Proof.
  unfold with_managed_mitm_ca_readable_root. destruct bundle as [bundle|].
  2: { intros [= <-]. split_and!; [done..|]. exists []. rewrite app_nil_r. auto. }
  unfold to_runtime_permissions. set (pol := with_additional_readable_roots _ _ _ _).
  assert (policy_kind pol = policy_kind (file_system_sandbox_policy eff)
    /\ exists es, policy_entries pol = policy_entries (file_system_sandbox_policy eff) ++ es
       /\ (es = [] \/ exists p, Some bundle = Some p /\ es = [mkEntry (FsPath p) Read])) as [Hk Hes].
  { unfold pol, with_additional_readable_roots. cbn [fold_left].
    destruct (has_full_disk_read_access _); [split; [done|]; exists []; rewrite app_nil_r; auto|].
    destruct (can_read_path_with_cwd _ _ _ _); (split; [done|]); [exists []; rewrite app_nil_r; auto|].
    eexists. split; [reflexivity|]. right. by exists bundle. }
  unfold from_runtime_permissions_with_enforcement, managed_profile, managed_from_sandbox_policy. rewrite Hk.
  destruct eff as [[es d|] n| |n]; cbn in Hes |- *; intros [= <-]; split_and!; try done; exists []; auto.
Qed.

Lemma transform_asked_for profile_json L is_wsl1 request ex :
  linux_ok L -> transform profile_json L is_wsl1 request = Some (Ok ex) ->
  asked_for (lx_host L) request (ex_permission_profile ex).
Proof.
  intros Hlx Htr.
  destruct (effective_profile_parts (tr_permissions request) (sc_additional_permissions (tr_command request)))
    as (eff & He & Henf & Hk & Hes & Hn).
  unfold transform in Htr. rewrite He in Htr.
  destruct (with_managed_mitm_ca_readable_root _ _ _ _) as [prof|] eqn:Hb; [|done].
  assert (ex_permission_profile ex = prof) as ->.
  { cbn [to_runtime_permissions] in Htr. destruct (tr_sandbox request); simplify_eq; try done.
    destruct (tr_codex_linux_sandbox_exe request); [|done].
    destruct (ensure_linux_bubblewrap_is_supported _ _ _ _); [|done]. by simplify_eq. }
  apply with_bundle_parts in Hb as (Henf' & Hn' & Hk' & es & Hes' & Hbundle).
  split; [congruence|]. split; [by rewrite Hn', Hn, effective_network|]. unfold is_restricted.
  case_bool_decide as Hr; [|intros t; by apply resolve_access_unrestricted; congruence].
  exists (resolved_entries_with_cwd (lx_host L) (restricted es) (tr_sandbox_policy_cwd request)).
  split; [destruct Hbundle as [->|(p & Hp & ->)]; [by left|right; by exists p]|].
  intros t Ht. rewrite resolve_access_display by (done || congruence). apply decide_access_iff, decide_access_ext. intros e.
  rewrite (resolved_entries_of (lx_host L) (file_system_sandbox_policy prof)), Hes', Hes by done.
  rewrite !elem_of_app, resolved_app, resolved_push_missing by apply (lx_ok L Hlx). rewrite <- resolved_entries_of. tauto.
Qed.

(** C3. A command sent to the Linux sandbox is the command that runs, held to the
    profile the request asks for, on a host without symbolic links.  Either the
    helper executes it itself, with the network filter of the profile: then the
    profile lets it write everywhere, and neither Landlock nor bubblewrap is
    used, or Landlock confines its writes to the writable roots.  Or the helper
    starts bubblewrap with the view of the profile's policy, in a network
    namespace of its own unless the profile enables the network and no proxy is
    enforced, and what bubblewrap starts is the helper again, which, wherever it
    runs, executes the command with the network filter of the profile.  The
    filter allows exactly the system calls [syscall_allowed] names. *)
Theorem sandboxed_command_confined (profile_json : PermissionProfile -> str)
    (parse_permission_profile : str -> option PermissionProfile) (clap_parse : list str -> option LandlockCommand)
    (L : LinuxHost) (P : Process) (fuel : nat) (is_wsl1 : bool) (request : SandboxTransformRequest)
    (ex : SandboxExecRequest) :
  ClapParser parse_permission_profile clap_parse -> linux_ok L ->
  transform profile_json L is_wsl1 request = Some (Ok ex) -> tr_sandbox request = LinuxSeccomp ->
  let prof := ex_permission_profile ex in
  parse_permission_profile (profile_json prof) = Some prof -> plain_value (profile_json prof) ->
  plain_value (tr_sandbox_policy_cwd request) -> absolute_normalized (sc_cwd (tr_command request)) ->
  (forall spec, prepare_host_proxy_route_spec P = Ok spec -> plain_value spec) ->
  policy_ok (file_system_sandbox_policy prof) ->
  let command := sc_program (tr_command request) :: sc_args (tr_command request) in
  let cwd := tr_sandbox_policy_cwd request in
  let managed := tr_enforce_managed_network request in
  let network := network_sandbox_policy prof in
  asked_for (lx_host L) request prof /\
  match helper profile_json clap_parse L P fuel (tail (ex_command ex)) with
  | Some (Executes r command') =>
      command' = command /\ network_guarded network managed r
      /\ (has_full_disk_write_access (file_system_sandbox_policy prof) = true
          \/ rs_landlock_writable r
             = Some (map wr_root (get_writable_roots_with_cwd (lx_host L) (file_system_sandbox_policy prof) cwd)))
  | Some (RunsBwrap b) =>
      exists inner,
        wraps L fuel (file_system_sandbox_policy prof) (isolates network managed) cwd
          (sc_cwd (tr_command request)) inner b
        /\ forall L' P' fuel',
             match helper profile_json clap_parse L' P' fuel' (tail inner) with
             | Some (Executes r command') => command' = command /\ network_guarded network managed r
             | Some (RunsBwrap _) | None => False
             | Some _ => True
             end
  | Some _ => True
  | None => False
  end.
Proof.
  intros Hclap Hlx Htr Hsb prof Hjson Hplain Hcwd Hc Hspec Hpok command cwd managed network.
  split; [by eapply transform_asked_for|].
  destruct (transform_command profile_json L is_wsl1 request ex Htr Hsb) as [exe ->]. fold prof cwd managed command.
  cbn [tail]. unfold helper. rewrite (outer_parse profile_json parse_permission_profile clap_parse) by done. cbn [fmap option_fmap option_map].
  pose proof (outer_stage_spec profile_json L P fuel cwd (sc_cwd (tr_command request)) prof
    (tr_use_legacy_landlock request && negb managed) managed command Hlx Hpok Hc) as Hs.
  destruct (run_main _ _ _ _ _) as [| | |r command'|b]; try done.
  - destruct Hs as (-> & Hg & Hw); [by destruct (tr_use_legacy_landlock request), managed|]. done.
  - destruct Hs as (spec & inner & Hsp & Hinner & Hw); [by destruct (tr_use_legacy_landlock request), managed|].
    exists inner. split; [done|]. intros L' P' fuel'.
    destruct (inner_parse profile_json parse_permission_profile clap_parse P cwd (sc_cwd (tr_command request)) prof managed
      spec command inner) as (exe' & options & -> & Hparse); [done..| |done|].
    { intros s Hs. by apply Hspec, Hsp. }
    cbn [tail]. rewrite Hparse. cbn [option_map fmap option_fmap].
    pose proof (inner_stage_spec profile_json L' P' fuel' cwd (Some (display (sc_cwd (tr_command request)))) prof managed
      (if managed then spec else None) command) as Hi.
    destruct (run_main _ _ _ _ _); done.
Qed.

(** A process whose calls to the host and the kernel succeed. *)
Record process_ok (P : Process) : Prop := {
  pr_exe : is_Some (current_exe P);
  pr_argv0 : is_Some (process_argv0 P);
  pr_prepare : exists spec, prepare_host_proxy_route_spec P = Ok spec;
  pr_activate : forall spec, activate_proxy_routes_in_netns P spec = Ok tt;
  pr_probe : forall b, is_Some (probe_stderr P b);
  pr_no_new_privs : set_no_new_privs P = true;
  pr_seccomp : forall rules, install_seccomp P rules = true
}.

(** A command without zero bytes. *)
Definition command_ok (command : list str) : bool := negb (existsb (existsb (N.eqb 0)) command).

Lemma restrict_and_exec_runs L P message prof cwd proxy routed command :
  process_ok P -> command_ok command = true ->
  exists r, restrict_and_exec L P message prof cwd false proxy routed command = Executes r command.
Proof.
  intros HP Hc%negb_true_iff. unfold restrict_and_exec, apply_permission_profile_to_current_thread, to_runtime_permissions.
  rewrite (pr_no_new_privs P HP). cbn [negb andb]. rewrite andb_false_r.
  assert (forall o : option NetworkSeccompMode,
    match o with Some mode => negb (install_seccomp P (network_seccomp_rules mode)) | None => false end = false) as ->.
  { intros [mode|]; [by rewrite (pr_seccomp P HP)|done]. }
  unfold exec_or_panic. rewrite Hc. by eexists.
Qed.

Lemma inner_stage_runs profile_json L P fuel cwd ccwd prof proxy spec command :
  process_ok P -> command_ok command = true -> command <> [] -> (proxy = true -> is_Some spec) ->
  exists r, run_main profile_json L P fuel (mkLandlockCommand cwd ccwd (Some prof) false true proxy spec false command)
            = Executes r command.
Proof.
  intros HP Hc Hne Hspec. destruct command as [|x command]; [done|].
  destruct (restrict_and_exec_runs L P "error applying Linux sandbox restrictions" prof cwd proxy proxy (x :: command) HP Hc) as [r Hr].
  exists r. unfold run_main. cbn [lc_command lc_apply_seccomp_then_exec lc_use_legacy_landlock lc_permission_profile
    lc_allow_network_for_proxy lc_proxy_route_spec lc_sandbox_policy_cwd andb ensure_inner_stage_mode_is_valid
    mbind result_bind lift resolve_permission_profile to_runtime_permissions
    ensure_legacy_landlock_mode_supports_policy ep_permission_profile ep_network_sandbox_policy].
  rewrite Hr. destruct proxy; [|done]. destruct Hspec as [s ->]; [done|]. cbn [lift mbind result_bind].
  by rewrite (pr_activate P HP).
Qed.

Lemma outer_stage_runs profile_json L P fuel cwd c prof proxy command fd :
  process_ok P -> linux_ok L -> policy_ok (file_system_sandbox_policy prof) -> absolute_normalized c ->
  lx_open_dev_null L = Some fd -> get_unreadable_globs_with_cwd (lx_host L) (file_system_sandbox_policy prof) cwd = [] ->
  command_ok command = true -> command <> [] ->
  let stage := run_main profile_json L P fuel
    (mkLandlockCommand cwd (Some (display c)) (Some prof) false false proxy None false command) in
  (exists r, stage = Executes r command) \/ exists b, stage = RunsBwrap b.
Proof.
  intros HP Hlx Hpok Hc Hfd Hglobs Hcmd Hne stage. destruct command as [|x command]; [done|].
  destruct (restrict_and_exec_runs L P "error applying Linux sandbox restrictions" prof cwd proxy false (x :: command) HP Hcmd) as [r Hr].
  unfold stage, run_main. cbn [lc_command lc_apply_seccomp_then_exec lc_use_legacy_landlock lc_permission_profile
    lc_allow_network_for_proxy lc_proxy_route_spec lc_sandbox_policy_cwd lc_no_proc lc_command_cwd andb negb
    ensure_inner_stage_mode_is_valid mbind result_bind lift resolve_permission_profile to_runtime_permissions
    ensure_legacy_landlock_mode_supports_policy ep_permission_profile ep_network_sandbox_policy ep_file_system_sandbox_policy].
  destruct (has_full_disk_write_access _ && negb proxy) eqn:Hfw; [left; exists r; exact Hr|].
  destruct (pr_prepare P HP) as [spec Hsp]. destruct (pr_exe P HP) as [exe Hexe]. destruct (pr_argv0 P HP) as [argv0 Hargv0].
  set (route := if proxy then Some spec else None).
  assert ((if proxy then match prepare_host_proxy_route_spec P with
      | Ok spec => Ok (Some spec)
      | Err err => Err (Panicked (lit "failed to prepare host proxy routing bridge: " ++ err)) end else Ok None) = Ok route) as ->
    by (rewrite Hsp; unfold route; by destruct proxy).
  cbn [mbind result_bind].
  assert (exists inner, build_inner_seccomp_command profile_json P cwd (Some (display c)) prof proxy route (x :: command)
    = Ok (exe :: inner)) as [inner ->].
  { unfold build_inner_seccomp_command, route. rewrite Hexe. destruct proxy; cbn; by eexists. }
  cbn [mbind result_bind]. unfold run_bwrap_with_proc_fallback, preflight_proc_mount_support, build_preflight_bwrap_argv, build_bwrap_argv.
  match goal with |- context [create_bwrap_command_args L fuel [?t] ?pol ?w ?d ?o] =>
    destruct (bwrap_command_total L fuel [t] pol w d o fd Hlx Hfd Hglobs) as (b1 & -> & _) end.
  cbn [mbind result_bind]. match goal with |- context [probe_stderr P ?b] => destruct (pr_probe P HP b) as [stderr ->] end.
  cbn [mbind result_bind].
  match goal with |- context [create_bwrap_command_args L fuel (exe :: inner) ?pol ?w ?d ?o] =>
    destruct (bwrap_command_total L fuel (exe :: inner) pol w d o fd Hlx Hfd Hglobs) as (b2 & Hb2 & _) end.
  rewrite Hb2. cbn [mbind result_bind args]. unfold apply_inner_command_argv0. rewrite Hargv0. cbn [lift mbind result_bind].
  match type of Hb2 with create_bwrap_command_args _ _ _ ?pol ?w ?d ?o = _ =>
    destruct (bwrap_line L Hlx fuel (exe :: inner) pol w d o b2) as (ops & Ha & Hk & Hu & _); [done| |done|] end.
  { intros Hf E. cbn [network_mode] in E. rewrite Hf in Hfw. by destruct proxy. }
  rewrite Ha, app_comm_cons, inner_argv0_spec.
  - cbn [mbind result_bind run_stage]. right. by eexists.
  - apply (unseparated_app [_]); [by apply unseparated_lits|done].
Qed.

(** C30. On a host without symbolic links where the calls to the kernel and to
    the host succeed and [/dev/null] opens, without the legacy Landlock mode,
    without denied patterns in the policy and without a zero byte in the command,
    a command the sandbox accepts does run: the helper executes it, or starts
    bubblewrap with the helper again inside, which executes it. *)
Theorem sandboxed_command_runs (profile_json : PermissionProfile -> str)
    (parse_permission_profile : str -> option PermissionProfile) (clap_parse : list str -> option LandlockCommand)
    (L : LinuxHost) (P : Process) (fuel : nat) (fd : N) (is_wsl1 : bool) (request : SandboxTransformRequest)
    (ex : SandboxExecRequest) :
  ClapParser parse_permission_profile clap_parse -> linux_ok L -> process_ok P -> lx_open_dev_null L = Some fd ->
  transform profile_json L is_wsl1 request = Some (Ok ex) -> tr_sandbox request = LinuxSeccomp ->
  tr_use_legacy_landlock request = false ->
  let prof := ex_permission_profile ex in
  let cwd := tr_sandbox_policy_cwd request in
  parse_permission_profile (profile_json prof) = Some prof -> plain_value (profile_json prof) ->
  plain_value cwd -> absolute_normalized (sc_cwd (tr_command request)) ->
  (forall spec, prepare_host_proxy_route_spec P = Ok spec -> plain_value spec) ->
  policy_ok (file_system_sandbox_policy prof) ->
  get_unreadable_globs_with_cwd (lx_host L) (file_system_sandbox_policy prof) cwd = [] ->
  let command := sc_program (tr_command request) :: sc_args (tr_command request) in
  command_ok command = true ->
  (exists r, helper profile_json clap_parse L P fuel (tail (ex_command ex)) = Some (Executes r command))
  \/ exists b ops exe inner, helper profile_json clap_parse L P fuel (tail (ex_command ex)) = Some (RunsBwrap b)
      /\ parse_ops (tail (args b)) = Some (ops, exe :: inner)
      /\ forall L' P' fuel', process_ok P' ->
         exists r, helper profile_json clap_parse L' P' fuel' inner = Some (Executes r command).
Proof.
  intros Hclap Hlx HP Hfd Htr Hsb Hleg prof cwd Hjson Hplain Hcwd Hc Hspec Hpok Hglobs command Hcmd.
  destruct (transform_command profile_json L is_wsl1 request ex Htr Hsb) as [exe ->]. fold prof cwd command.
  cbn [tail]. unfold helper. rewrite (outer_parse profile_json parse_permission_profile clap_parse) by done. rewrite Hleg.
  set (managed := tr_enforce_managed_network request). cbn [fmap option_fmap option_map andb].
  set (c := sc_cwd (tr_command request)) in *.
  pose proof (outer_stage_spec profile_json L P fuel cwd c prof false managed command Hlx Hpok Hc eq_refl) as Hs.
  destruct (outer_stage_runs profile_json L P fuel cwd c prof managed command fd HP Hlx Hpok Hc Hfd Hglobs Hcmd) as [[r E]|[b E]];
    [done|left; exists r; by rewrite E|right].
  rewrite E in Hs. rewrite E. destruct Hs as (spec & inner & Hsp & Hinner & Hw).
  destruct (inner_parse profile_json parse_permission_profile clap_parse P cwd c prof managed spec command inner)
    as (exe' & options & -> & Hparse); [done..| |done|].
  { intros s ?. by apply Hspec, Hsp. }
  destruct Hw as (b0 & proc & mode & ops0 & ops & exe2 & _ & _ & _ & Hops & _).
  exists b, ops, exe2, (options ++ lit "--" :: command). split_and!; [done..|]. intros L' P' fuel' HP'. rewrite Hparse.
  cbn [fmap option_fmap option_map].
  destruct (inner_stage_runs profile_json L' P' fuel' cwd (Some (display c)) prof managed (if managed then spec else None) command)
    as [r Hr]; [done..| |exists r; by rewrite Hr].
  intros Hm. rewrite Hm in *. destruct spec; [by eexists|].
  unfold build_inner_seccomp_command in Hinner. by destruct (current_exe P).
Qed.

(** An instance: a command in the sample workspace, whose process succeeds. *)
Definition sample_profile : PermissionProfile := ProfileManaged (ManagedRestricted (policy_entries sample_policy) None) NetRestricted.
Definition sample_json (_ : PermissionProfile) : str := lit "{}".
Definition sample_parse_profile (_ : str) : option PermissionProfile := Some sample_profile.
Definition sample_process : Process :=
  mkProcess (Some (lit "/bin/codex")) (Some (lit "codex-linux-sandbox")) true (Ok (lit "{}")) (fun _ => Ok tt)
    (fun _ => Some []) true (fun _ => true) (fun _ => LandlockEnforced).
Lemma sample_process_ok : process_ok sample_process.
Proof. split; try done; by eexists. Qed.
Definition sample_request : SandboxTransformRequest :=
  mkTransformRequest (mkCommand (lit "ls") [lit "-l"] dir_a [] None) sample_profile LinuxSeccomp false None (lit "/a")
    (Some (lit "/bin/codex-linux-sandbox")) false WindowsDisabled false.
Definition sample_exec : SandboxExecRequest :=
  match transform sample_json sample_linux false sample_request with
  | Some (Ok ex) => ex
  | _ => mkExecRequest [] [] [] None SandboxNone WindowsDisabled false sample_profile sample_policy NetRestricted None
  end.
Definition sample_parse : list str -> option LandlockCommand := simple_parse sample_parse_profile.

Lemma sandboxed_command_confined_witness :
  exists b inner, helper sample_json sample_parse sample_linux sample_process 9 (tail (ex_command sample_exec)) = Some (RunsBwrap b)
    /\ wraps sample_linux 9 sample_policy true (lit "/a") dir_a inner b
    /\ exists r, helper sample_json sample_parse sample_linux sample_process 9 (tail inner) = Some (Executes r [lit "ls"; lit "-l"])
       /\ seccomp_action (from_option id [] (rs_seccomp r)) SYS_connect [] = SeccompErrnoEPERM.
Proof.
  pose proof (sandboxed_command_confined sample_json sample_parse_profile sample_parse sample_linux sample_process 9 false
    sample_request sample_exec (simple_clap _) sample_linux_ok) as Hx.
  destruct (helper sample_json sample_parse sample_linux sample_process 9 (tail (ex_command sample_exec))) as [s|] eqn:Hs.
  2: { exfalso. revert Hs. by vm_compute. }
  assert (exists b, s = RunsBwrap b) as [b ->].
  { revert Hs. vm_compute. intros [= <-]. by eexists. }
  destruct Hx as (_ & inner & Hw & Hin); [by vm_compute|done|done|done|done|by apply absolute_normalizedb_true|by intros spec [= <-]|apply sample_policy_ok|].
  exists b, inner. split; [reflexivity|]. split; [exact Hw|].
  destruct Hw as (b0 & proc & mode & ops0 & ops & exe & _ & _ & _ & Hops & _). vm_compute in Hs. injection Hs as <-.
  destruct inner as [|x inner]; vm_compute in Hops; [done|]. injection Hops as _ _ <-. specialize (Hin sample_linux sample_process 9%nat).
  destruct (helper _ _ _ _ _ _) as [[| | |r command|]|] eqn:Hr; vm_compute in Hr; try discriminate Hr.
  destruct Hin as [Hcmd _]. change (command = [lit "ls"; lit "-l"]) in Hcmd. rewrite Hcmd.
  exists r. split; [reflexivity|]. injection Hr as <- _. by vm_compute.
Defined.

Lemma sandboxed_command_runs_witness :
  exists b ops exe inner, helper sample_json sample_parse sample_linux sample_process 9 (tail (ex_command sample_exec)) = Some (RunsBwrap b)
    /\ parse_ops (tail (args b)) = Some (ops, exe :: inner)
    /\ exists r, helper sample_json sample_parse sample_linux sample_process 9 inner = Some (Executes r [lit "ls"; lit "-l"]).
Proof.
  destruct (sandboxed_command_runs sample_json sample_parse_profile sample_parse sample_linux sample_process 9 9%N false
    sample_request sample_exec (simple_clap _) sample_linux_ok sample_process_ok) as [[r Hr]|(b & ops & exe & inner & Hb & Hops & Hr)];
    [done|by vm_compute|done|done|done|done|done|by apply absolute_normalizedb_true|by intros spec [= <-]|apply sample_policy_ok
    |by vm_compute|by vm_compute| |].
  - exfalso. revert Hr. by vm_compute.
  - exists b, ops, exe, inner. split; [done|]. split; [done|]. exact (Hr sample_linux sample_process 9%nat sample_process_ok).
Defined.

(** [transform] never panics.  It fails exactly when Seatbelt is asked for,
    when the Linux sandbox is asked for without a helper executable, or when it
    would need bubblewrap under WSL 1; otherwise the request it makes keeps the
    command's directory, environment and sandbox, carries the effective profile
    together with that profile's own policies, and the command it holds ends in
    the one that was asked for. *)
Theorem transform_outcome (profile_json : PermissionProfile -> str) (L : LinuxHost) (is_wsl1 : bool)
    (request : SandboxTransformRequest) :
  exists eff prof res,
    effective_permission_profile (tr_permissions request) (sc_additional_permissions (tr_command request)) = Some eff
    /\ with_managed_mitm_ca_readable_root L eff (tr_network request ≫= managed_mitm_ca_trust_bundle_path)
         (tr_sandbox_policy_cwd request) = Some prof
    /\ enforcement prof = enforcement (tr_permissions request)
    /\ network_sandbox_policy prof = network_sandbox_policy eff
    /\ transform profile_json L is_wsl1 request = Some res
    /\ match res with
       | Err SeatbeltUnavailable => tr_sandbox request = MacosSeatbelt
       | Err MissingLinuxSandboxExecutable =>
           tr_sandbox request = LinuxSeccomp /\ tr_codex_linux_sandbox_exe request = None
       | Err Wsl1UnsupportedForBubblewrap =>
           tr_sandbox request = LinuxSeccomp /\ is_wsl1 = true
           /\ (tr_enforce_managed_network request = true
               \/ tr_use_legacy_landlock request = false
                  /\ has_full_disk_write_access (file_system_sandbox_policy prof) = false)
       | Ok ex =>
           ex_permission_profile ex = prof
           /\ ex_file_system_sandbox_policy ex = file_system_sandbox_policy prof
           /\ ex_network_sandbox_policy ex = network_sandbox_policy prof
           /\ ex_cwd ex = sc_cwd (tr_command request) /\ ex_env ex = sc_env (tr_command request)
           /\ ex_sandbox ex = tr_sandbox request
           /\ (exists front, ex_command ex
                 = front ++ sc_program (tr_command request) :: sc_args (tr_command request)
               /\ (front = [] <-> tr_sandbox request <> LinuxSeccomp))
           /\ tr_sandbox request <> MacosSeatbelt
       end.
Proof.
  destruct (effective_profile_parts (tr_permissions request) (sc_additional_permissions (tr_command request)))
    as (eff & He & Henf & _).
  assert (exists prof, with_managed_mitm_ca_readable_root L eff (tr_network request ≫= managed_mitm_ca_trust_bundle_path)
         (tr_sandbox_policy_cwd request) = Some prof /\ enforcement prof = enforcement eff
         /\ network_sandbox_policy prof = network_sandbox_policy eff) as (prof & Hp & Henf' & Hnet).
  { unfold with_managed_mitm_ca_readable_root. destruct (tr_network request ≫= _) as [bundle|]; [|by exists eff].
    unfold to_runtime_permissions. set (pol := with_additional_readable_roots _ _ _ _).
    assert (policy_kind pol = policy_kind (file_system_sandbox_policy eff)) as Hk.
    { unfold pol, with_additional_readable_roots. case_goal; [done|]. cbn [fold_left]. by case_goal. }
    unfold from_runtime_permissions_with_enforcement, managed_profile, managed_from_sandbox_policy. rewrite Hk.
    destruct eff as [[es d|] n| |n]; cbn; eexists; done. }
  exists eff, prof. eexists. split_and!; [done..|congruence|done| |].
  { unfold transform. rewrite He, Hp. cbn [to_runtime_permissions]. reflexivity. }
  destruct (tr_sandbox request) eqn:Hsb; [split_and!; try done; by exists []|done| |split_and!; try done; by exists []].
  destruct (tr_codex_linux_sandbox_exe request) as [exe|]; [|done].
  unfold ensure_linux_bubblewrap_is_supported, allow_network_for_proxy.
  destruct (is_wsl1 && _) eqn:Hwsl.
  - apply andb_true_iff in Hwsl as [-> Hb]. split_and!; [done..|].
    apply orb_true_iff in Hb as [Hb|Hb]; [by left|right]. by apply andb_true_iff in Hb as [?%negb_true_iff ?%negb_true_iff].
  - split_and!; try done. unfold create_linux_sandbox_command_args_for_permission_profile.
    set (legacy := if tr_use_legacy_landlock request && _ then [lit "--use-legacy-landlock"] else []).
    set (proxy := if tr_enforce_managed_network request then [lit "--allow-network-for-proxy"] else []).
    exists (exe :: [lit "--sandbox-policy-cwd"; tr_sandbox_policy_cwd request; lit "--command-cwd";
      display (sc_cwd (tr_command request)); lit "--permission-profile"; profile_json prof] ++ legacy ++ proxy ++ [lit "--"]).
    split; [|done]. cbn [app ex_command]. by rewrite <- !app_assoc.
Qed.
