(* ===== verification/MountRegistry.v ===== *)
(** * The registry of synthetic mount targets: [linux-sandbox/src/linux_run_main.rs]

    To hide a path that does not exist, bubblewrap needs something to mount
    over: it creates an empty file or directory on the host.  Helpers of several
    commands run at the same time, so each registers the paths it mounts over
    in a directory shared by all of them, under a lock, and the last to finish
    removes what was created.  A path the workspace must not gain is watched
    instead ([ProtectedCreateTarget]) and removed when it appears.

    [World] holds the files and the markers; a step is one locked operation of
    one process, a mount, a look of its monitor at a watched path, a file that
    someone creates, or the death of a process, in any order.  The theorems show
    which steps can take away what another process is mounted over, and that
    processes that finish leave the files as they found them.  Removing a
    directory with all below it is one step. *)

From S2P Require Import Prelude Utf8Stream AbsolutePath Host Bwrap.

(** ** Markers *)

(** [SYNTHETIC_MOUNT_MARKER_SYNTHETIC], [SYNTHETIC_MOUNT_MARKER_EXISTING] and
    [PROTECTED_CREATE_MARKER]: what a marker file contains. *)
Inductive Marker : Type := MarkerSynthetic | MarkerExisting | MarkerProtectedCreate.
#[export] Instance Marker_eq_dec : EqDecision Marker.
Proof. solve_decision. Defined.

(** [hash_path]: FNV-1a on 64 bits. *)
Definition FNV_OFFSET : N := 0xcbf29ce484222325.
Definition FNV_PRIME : N := 0x100000001b3.
Definition hash_path (p : path) : N :=
  fold_left (fun hash byte => (N.lxor hash byte * FNV_PRIME) mod 2 ^ 64)%N (encode_utf8 (display p)) FNV_OFFSET.

(** A marker directory, in the order [read_dir] lists it: the files are named
    after the processes that wrote them. *)
Notation MarkerDir := (list (N * Marker)).

(** The files of the host and the marker directories of the registry, which are
    named after the hash of a path. *)
Record World : Type := mkWorld {
  w_files : gmap path Metadata;
  w_markers : gmap N MarkerDir
}.

(** [fs::write] of a marker file and [fs::remove_file]. *)
Fixpoint write_marker (pid : N) (m : Marker) (dir : MarkerDir) : MarkerDir :=
  match dir with
  | [] => [(pid, m)]
  | (pid', m') :: dir => if (pid' =? pid)%N then (pid, m) :: dir else (pid', m') :: write_marker pid m dir
  end.
Definition remove_marker (pid : N) (dir : MarkerDir) : MarkerDir := List.filter (fun e => negb (e.1 =? pid)%N) dir.

(** [create_dir_all] of the directory of a path, then a change to it. *)
Definition marker_dir (w : World) (p : path) : MarkerDir := from_option id [] (w_markers w !! hash_path p).
Definition set_marker_dir (w : World) (p : path) (dir : MarkerDir) : World :=
  mkWorld (w_files w) (<[hash_path p := dir]> (w_markers w)).

Definition synthetic_mount_marker_contents (target : SyntheticMountTarget) : Marker :=
  if preserves_pre_existing_path target then MarkerExisting else MarkerSynthetic.

Section registry.
(** [process_is_active] *)
Context (process_is_active : N -> bool).

(** The scan of a marker directory: markers of dead processes are removed on the
    way, up to the first one that matches. *)
Fixpoint has_active_process_matching (matches_marker : Marker -> bool) (dir : MarkerDir) : MarkerDir * bool :=
  match dir with
  | [] => ([], false)
  | (pid, m) :: dir =>
      if negb (process_is_active pid) then has_active_process_matching matches_marker dir
      else if matches_marker m then ((pid, m) :: dir, true)
      else let '(dir, found) := has_active_process_matching matches_marker dir in ((pid, m) :: dir, found)
  end.
(** On a directory that may be missing: nothing is created by the scan. *)
Definition scan_marker_dir (w : World) (p : path) (matches_marker : Marker -> bool) : World * bool :=
  match w_markers w !! hash_path p with
  | None => (w, false)
  | Some dir =>
      let '(dir, found) := has_active_process_matching matches_marker dir in (set_marker_dir w p dir, found)
  end.
Definition marker_dir_has_active_synthetic_owner (w : World) (p : path) : World * bool :=
  scan_marker_dir w p (fun m => bool_decide (m = MarkerSynthetic)).
Definition marker_dir_has_active_process (w : World) (p : path) : World * bool := scan_marker_dir w p (fun _ => true).

(** ** Registration *)

Definition without_pre_existing (target : SyntheticMountTarget) : SyntheticMountTarget :=
  match synthetic_kind target with
  | EmptyFile => synthetic_missing (synthetic_path target)
  | EmptyDirectory => missing_empty_directory (synthetic_path target)
  end.

Definition register_synthetic (pid : N) (w : World) (target : SyntheticMountTarget) : World * SyntheticMountTarget :=
  let p := synthetic_path target in
  let w := set_marker_dir w p (marker_dir w p) in
  let '(w, target) :=
    if preserves_pre_existing_path target then
      let '(w, owned) := marker_dir_has_active_synthetic_owner w p in
      (w, if owned : bool then without_pre_existing target else target)
    else (w, target) in
  (set_marker_dir w p (write_marker pid (synthetic_mount_marker_contents target) (marker_dir w p)), target).

Fixpoint register_synthetic_mount_targets (pid : N) (w : World) (targets : list SyntheticMountTarget) :
  World * list SyntheticMountTarget :=
  match targets with
  | [] => (w, [])
  | target :: targets =>
      let '(w, target) := register_synthetic pid w target in
      let '(w, targets) := register_synthetic_mount_targets pid w targets in
      (w, target :: targets)
  end.

Definition register_protected_create_targets (pid : N) (w : World) (targets : list path) : World :=
  fold_left (fun w p => set_marker_dir w p (write_marker pid MarkerProtectedCreate (marker_dir w p))) targets w.

(** ** Cleanup *)

(** [fs::remove_file] of the marker of a process, which may be missing. *)
Definition unregister (pid : N) (w : World) (p : path) : World :=
  match w_markers w !! hash_path p with
  | None => w
  | Some dir => set_marker_dir w p (remove_marker pid dir)
  end.

(** [fs::remove_dir] of a marker directory, which may be missing or not empty. *)
Definition remove_marker_dir (w : World) (p : path) : World :=
  match w_markers w !! hash_path p with
  | Some [] => mkWorld (w_files w) (delete (hash_path p) (w_markers w))
  | _ => w
  end.

Definition has_children (files : gmap path Metadata) (p : path) : bool :=
  existsb (fun q => negb (bool_decide (q = p)) && path_starts_with q p) (elements (dom files)).

Definition remove_synthetic_mount_target (w : World) (target : SyntheticMountTarget) : World :=
  let p := synthetic_path target in
  match w_files w !! p with
  | None => w
  | Some metadata =>
      if negb (should_remove_after_bwrap target metadata) then w
      else match synthetic_kind target with
           | EmptyFile => mkWorld (delete p (w_files w)) (w_markers w)
           | EmptyDirectory =>
               if has_children (w_files w) p then w else mkWorld (delete p (w_files w)) (w_markers w)
           end
  end.

Definition cleanup_synthetic (w : World) (target : SyntheticMountTarget) : World :=
  let '(w, active) := marker_dir_has_active_process w (synthetic_path target) in
  if active : bool then w else remove_marker_dir (remove_synthetic_mount_target w target) (synthetic_path target).

Definition cleanup_synthetic_mount_targets (pid : N) (w : World) (targets : list SyntheticMountTarget) : World :=
  let w := fold_left (fun w target => unregister pid w (synthetic_path target)) (rev targets) w in
  fold_left cleanup_synthetic (rev targets) w.

(** [remove_protected_create_target]: [remove_dir_all] or [remove_file], and
    whether there was something to remove. *)
Definition remove_protected_create_target (w : World) (p : path) : World * bool :=
  match w_files w !! p with
  | None => (w, false)
  | Some metadata =>
      (mkWorld (if bool_decide (md_type metadata = FtDir)
                then filter (fun '(q, _) => path_starts_with q p = false) (w_files w)
                else delete p (w_files w)) (w_markers w), true)
  end.

Definition cleanup_protected (acc : World * bool) (p : path) : World * bool :=
  let '(w, violation) := acc in
  let '(w, active) := marker_dir_has_active_process w p in
  if active : bool then (w, violation || bool_decide (is_Some (w_files w !! p)))
  else
    let '(w, removed) := remove_protected_create_target w p in
    (remove_marker_dir w p, violation || removed).

Definition cleanup_protected_create_targets (pid : N) (w : World) (targets : list path) : World * bool :=
  let w := fold_left (unregister pid) (rev targets) w in
  fold_left cleanup_protected (rev targets) (w, false).
End registry.

(** [exit_with_wait_status_or_policy_violation] and [exit_with_wait_status]: the
    status the helper ends with. *)
Inductive WaitStatus : Type := Exited (code : N) | Signaled (signal : N) | OtherStatus.
#[export] Instance WaitStatus_eq_dec : EqDecision WaitStatus.
Proof. solve_decision. Defined.
Definition exit_with_wait_status (status : WaitStatus) : WaitStatus :=
  match status with
  | Exited code => Exited code
  | Signaled signal => Signaled signal
  | OtherStatus => Exited 1
  end.
Definition exit_with_wait_status_or_policy_violation (status : WaitStatus) (protected_create_violation : bool) : WaitStatus :=
  if protected_create_violation && bool_decide (status = Exited 0) then Exited 1 else exit_with_wait_status status.

(** ** Processes

    [run_bwrap_in_child_with_synthetic_mount_cleanup] of every helper.  The locked
    operations are single steps; between them bubblewrap runs as a child and,
    when the helper watches paths, [ProtectedCreateMonitor] as a thread, which
    removes a watched path without taking the lock or looking at markers. *)

Inductive Phase : Type := Registered | Protected | Running | Stopped | Cleaned.
#[export] Instance Phase_eq_dec : EqDecision Phase.
Proof. solve_decision. Defined.

(** [pr_violation] is the flag of the monitor. *)
Record Proc : Type := mkProc {
  pr_synthetic : list SyntheticMountTarget;
  pr_protected : list path;
  pr_phase : Phase;
  pr_violation : bool
}.
Record State : Type := mkState {
  st_world : World;
  st_procs : gmap N Proc;
  st_active : gset N
}.
Definition initial (files : gmap path Metadata) : State := mkState (mkWorld files ∅) ∅ ∅.
Definition is_active (s : State) (pid : N) : bool := bool_decide (pid ∈ st_active s).
Definition set_proc (s : State) (w : World) (pid : N) (pr : Proc) : State :=
  mkState w (<[pid := pr]> (st_procs s)) (st_active s).

Inductive Label : Type :=
| Spawn (pid : N)
| Register (pid : N) (targets : list SyntheticMountTarget)
| Protect (pid : N) (targets : list path)
| Start (pid : N)                                        (** the monitor starts and bubblewrap is let run *)
| Mount (pid : N) (p : path) (m : Metadata)              (** bubblewrap creates a mount point *)
| Monitor (pid : N) (p : path) (fails : bool)            (** the monitor looks at a watched path *)
| Create (p : path) (m : Metadata)                       (** a command, or anyone, creates a missing path *)
| Stop (pid : N)                                         (** bubblewrap has ended and the monitor is joined *)
| Cleanup (pid : N)
| Finish (pid : N)
| Exit (pid : N).

(** What bubblewrap creates to mount a target over a missing path. *)
Definition is_mount_point (kind : SyntheticMountTargetKind) (m : Metadata) : bool :=
  match kind with
  | EmptyFile => bool_decide (md_type m = FtFile) && (md_len m =? 0)%N
  | EmptyDirectory => bool_decide (md_type m = FtDir)
  end.

(** [remove_protected_create_target_best_effort]: whether the monitor reports a
    violation.  A removal that fails is one as well. *)
Definition remove_protected_create_target_best_effort (w : World) (p : path) (fails : bool) : World * bool :=
  if fails then (w, true) else remove_protected_create_target w p.

Definition step (s : State) (l : Label) : option State :=
  let w := st_world s in
  match l with
  | Spawn pid => if is_active s pid then None else Some (mkState w (st_procs s) ({[pid]} ∪ st_active s))
  | Register pid targets =>
      if negb (is_active s pid) || bool_decide (is_Some (st_procs s !! pid)) then None
      else let '(w, registered) := register_synthetic_mount_targets (is_active s) pid w targets in
           Some (set_proc s w pid (mkProc registered [] Registered false))
  | Protect pid targets =>
      match st_procs s !! pid with
      | Some (mkProc registered protected Registered violation) =>
          Some (set_proc s (register_protected_create_targets pid w targets) pid
                  (mkProc registered targets Protected violation))
      | _ => None
      end
  | Start pid =>
      match st_procs s !! pid with
      | Some (mkProc registered protected Protected violation) =>
          Some (set_proc s w pid (mkProc registered protected Running violation))
      | _ => None
      end
  | Mount pid p m =>
      match st_procs s !! pid with
      | Some (mkProc registered _ Running _) =>
          if existsb (fun t => bool_decide (synthetic_path t = p) && is_mount_point (synthetic_kind t) m) registered
             && negb (bool_decide (is_Some (w_files w !! p)))
          then Some (mkState (mkWorld (<[p := m]> (w_files w)) (w_markers w)) (st_procs s) (st_active s)) else None
      | _ => None
      end
  | Monitor pid p fails =>
      match st_procs s !! pid with
      | Some (mkProc registered protected Running violation) =>
          if bool_decide (p ∈ protected) then
            let '(w, removed) := remove_protected_create_target_best_effort w p fails in
            Some (set_proc s w pid (mkProc registered protected Running (violation || removed)))
          else None
      | _ => None
      end
  | Create p m =>
      if bool_decide (is_Some (w_files w !! p)) then None
      else Some (mkState (mkWorld (<[p := m]> (w_files w)) (w_markers w)) (st_procs s) (st_active s))
  | Stop pid =>
      match st_procs s !! pid with
      | Some (mkProc registered protected Running violation) =>
          Some (set_proc s w pid (mkProc registered protected Stopped violation))
      | _ => None
      end
  | Cleanup pid =>
      match st_procs s !! pid with
      | Some (mkProc registered protected Stopped violation) =>
          Some (set_proc s (cleanup_synthetic_mount_targets (is_active s) pid w registered) pid
                  (mkProc [] protected Cleaned violation))
      | _ => None
      end
  | Finish pid =>
      (** [||] does not evaluate the cleanup when the monitor saw a violation *)
      match st_procs s !! pid with
      | Some (mkProc _ protected Cleaned violation) =>
          Some (mkState (if violation then w else (cleanup_protected_create_targets (is_active s) pid w protected).1)
                  (delete pid (st_procs s)) (st_active s))
      | _ => None
      end
  | Exit pid => Some (mkState w (delete pid (st_procs s)) (st_active s ∖ {[pid]}))
  end.

(** The states reached by steps that satisfy a condition. *)
Inductive reachable (allowed : State -> Label -> Prop) (files : gmap path Metadata) : State -> Prop :=
| reach_initial : reachable allowed files (initial files)
| reach_step s l s' :
    reachable allowed files s -> allowed s l -> step s l = Some s' -> reachable allowed files s'.

(** ** Markers of active processes stay *)

Definition marked (w : World) (pid : N) (p : path) : Prop := exists m, (pid, m) ∈ marker_dir w p.

Lemma marker_dir_set w p dir q :
  marker_dir (set_marker_dir w p dir) q = if bool_decide (hash_path q = hash_path p) then dir else marker_dir w q.
Proof.
  unfold marker_dir, set_marker_dir. cbn [w_markers]. case_bool_decide as Hh.
  - rewrite Hh. by rewrite lookup_insert_eq.
  - by rewrite lookup_insert_ne by congruence.
Qed.

Lemma write_marker_elem pid m dir e : e ∈ write_marker pid m dir -> e = (pid, m) \/ e ∈ dir.
Proof. induction dir as [|[q n] dir IH]; cbn [write_marker]; [set_solver|]. case_goal; set_solver. Qed.
Lemma write_marker_own pid m dir : (pid, m) ∈ write_marker pid m dir.
Proof. induction dir as [|[q n] dir IH]; cbn [write_marker]; [set_solver|]. case_goal; set_solver. Qed.
Lemma write_marker_other pid m dir pid' m' : pid' <> pid -> (pid', m') ∈ dir -> (pid', m') ∈ write_marker pid m dir.
Proof.
  intros Hne. induction dir as [|[q n] dir IH]; cbn [write_marker]; [set_solver|].
  destruct (N.eqb_spec q pid); rewrite !elem_of_cons; naive_solver.
Qed.
Lemma remove_marker_elem pid dir e : e ∈ remove_marker pid dir <-> e ∈ dir /\ e.1 <> pid.
Proof. unfold remove_marker. rewrite elem_of_filter_bool. destruct (N.eqb_spec e.1 pid); naive_solver. Qed.

Section scan.
Context (active : N -> bool).

Lemma scan_keeps f dir pid m :
  active pid = true -> (pid, m) ∈ dir -> (pid, m) ∈ (has_active_process_matching active f dir).1.
Proof.
  intros Ha. induction dir as [|[q n] dir IH]; cbn [has_active_process_matching]; [set_solver|].
  rewrite elem_of_cons. intros [E|Hin].
  - injection E as <- <-. rewrite Ha. cbn [negb]. case_goal; [set_solver|].
    destruct (has_active_process_matching active f dir). set_solver.
  - specialize (IH Hin). repeat case_goal; cbn [fst] in *; set_solver.
Qed.
Lemma scan_found f dir pid m :
  active pid = true -> (pid, m) ∈ dir -> f m = true -> (has_active_process_matching active f dir).2 = true.
Proof.
  intros Ha Hin Hf. induction dir as [|[q n] dir IH]; cbn [has_active_process_matching]; [set_solver|].
  apply elem_of_cons in Hin as [E|Hin]; [injection E as <- <-; by rewrite Ha, Hf|].
  specialize (IH Hin). repeat case_goal; done.
Qed.
Lemma scan_elem f dir e : e ∈ (has_active_process_matching active f dir).1 -> e ∈ dir.
Proof.
  induction dir as [|[q n] dir IH]; cbn [has_active_process_matching]; [done|].
  repeat case_goal; cbn [fst] in *; set_solver.
Qed.
Lemma scan_not_found f dir :
  (forall e, e ∈ dir -> active e.1 = true) -> (forall e, e ∈ dir -> f e.2 = false) ->
  has_active_process_matching active f dir = (dir, false).
Proof.
  induction dir as [|[q n] dir IH]; intros Ha Hf; [done|]. cbn [has_active_process_matching].
  pose proof (Ha (q, n)) as Haq. pose proof (Hf (q, n)) as Hfq. cbn [fst snd] in *.
  rewrite Haq, Hfq by set_solver. cbn [negb]. rewrite IH; [done|intros e He; apply Ha; set_solver|intros e He; apply Hf; set_solver].
Qed.

Lemma scan_dir_files w p f : w_files (scan_marker_dir active w p f).1 = w_files w.
Proof. unfold scan_marker_dir. destruct (w_markers w !! hash_path p); [|done]. by destruct (has_active_process_matching _ _ _). Qed.

Lemma scan_dir_marked w p f pid q : active pid = true -> marked w pid q -> marked (scan_marker_dir active w p f).1 pid q.
Proof.
  intros Ha [m Hm]. exists m. unfold scan_marker_dir. destruct (w_markers w !! hash_path p) as [dir|] eqn:Hd; [|done].
  pose proof (scan_keeps f dir pid m Ha) as Hk. destruct (has_active_process_matching active f dir) as [dir' found]. cbn [fst] in *.
  rewrite marker_dir_set. case_bool_decide as Hh; [|done]. apply Hk. unfold marker_dir in Hm. by rewrite Hh, Hd in Hm.
Qed.

Lemma scan_dir_found w p pid q :
  active pid = true -> marked w pid q -> hash_path q = hash_path p -> (scan_marker_dir active w p (fun _ => true)).2 = true.
Proof.
  intros Ha [m Hm] Hh. unfold scan_marker_dir, marker_dir in *. rewrite Hh in Hm.
  destruct (w_markers w !! hash_path p) as [dir|]; [|set_solver].
  pose proof (scan_found (fun _ => true) dir pid m Ha Hm eq_refl) as Hf.
  by destruct (has_active_process_matching _ _ dir).
Qed.

Lemma write_marked w pid p m pid' q :
  marked w pid' q -> marked (set_marker_dir w p (write_marker pid m (marker_dir w p))) pid' q.
Proof.
  intros [n Hn]. unfold marked. rewrite marker_dir_set. case_bool_decide as Hh; [|by exists n].
  destruct (decide (pid' = pid)) as [->|Hne]; [exists m; apply write_marker_own|].
  exists n. apply write_marker_other; [done|]. unfold marker_dir in *. by rewrite <- Hh.
Qed.
Lemma touch_marked w p pid' q : marked w pid' q -> marked (set_marker_dir w p (marker_dir w p)) pid' q.
Proof.
  intros [n Hn]. exists n. rewrite marker_dir_set. case_bool_decide as Hh; [|done]. unfold marker_dir in *. by rewrite <- Hh.
Qed.

Lemma register_marked pid w t pid' q :
  active pid' = true -> marked w pid' q -> marked (register_synthetic active pid w t).1 pid' q.
Proof.
  intros Ha Hm. unfold register_synthetic. apply (touch_marked _ (synthetic_path t)) in Hm.
  set (w1 := set_marker_dir w _ _) in *. destruct (preserves_pre_existing_path t); [|by apply write_marked].
  unfold marker_dir_has_active_synthetic_owner. pose proof (scan_dir_marked w1 (synthetic_path t)
    (fun m => bool_decide (m = MarkerSynthetic)) pid' q Ha Hm) as Hs.
  destruct (scan_marker_dir active w1 _ _) as [w2 owned]. by apply write_marked.
Qed.
Lemma register_own_marked pid w t :
  marked (register_synthetic active pid w t).1 pid (synthetic_path t)
  /\ synthetic_path (register_synthetic active pid w t).2 = synthetic_path t
  /\ w_files (register_synthetic active pid w t).1 = w_files w.
Proof.
  unfold register_synthetic. set (w1 := set_marker_dir w _ _).
  assert (forall w2 t', w_files w2 = w_files w -> synthetic_path t' = synthetic_path t ->
    let r := (set_marker_dir w2 (synthetic_path t) (write_marker pid (synthetic_mount_marker_contents t') (marker_dir w2 (synthetic_path t))), t') in
    marked r.1 pid (synthetic_path t) /\ synthetic_path r.2 = synthetic_path t /\ w_files r.1 = w_files w) as Hgo.
  { intros w2 t' Hf Hp. split_and!; [|done|done]. cbn [fst]. eexists. rewrite marker_dir_set, bool_decide_eq_true_2 by done.
    apply write_marker_own. }
  destruct (preserves_pre_existing_path t); [|by apply Hgo].
  unfold marker_dir_has_active_synthetic_owner.
  pose proof (scan_dir_files w1 (synthetic_path t) (fun m => bool_decide (m = MarkerSynthetic))) as Hf.
  destruct (scan_marker_dir active w1 _ _) as [w2 owned]. apply Hgo; [done|].
  destruct owned; [|done]. unfold without_pre_existing. by destruct (synthetic_kind t).
Qed.

Lemma register_all_marked pid ts w :
  let r := register_synthetic_mount_targets active pid w ts in
  w_files r.1 = w_files w
  /\ (forall pid' q, active pid' = true -> marked w pid' q -> marked r.1 pid' q)
  /\ (active pid = true -> forall t, t ∈ r.2 -> marked r.1 pid (synthetic_path t)).
Proof.
  revert w. induction ts as [|t ts IH]; intros w; [cbn; split_and!; [done|done|set_solver]|].
  cbn [register_synthetic_mount_targets]. pose proof (register_own_marked pid w t) as (Hown & Hp & Hf).
  pose proof (register_marked pid w t) as Hkeep. destruct (register_synthetic active pid w t) as [w1 t'].
  specialize (IH w1). destruct (register_synthetic_mount_targets active pid w1 ts) as [w2 ts']. cbn [fst snd] in *.
  destruct IH as (IHf & IHk & IHo). split_and!; [congruence|intros; by apply IHk, Hkeep|].
  intros Ha t0 [->|Hin]%elem_of_cons; [|by apply IHo]. rewrite Hp. by apply IHk.
Qed.

Lemma protect_marked pid ps w :
  w_files (register_protected_create_targets pid w ps) = w_files w
  /\ forall pid' q, marked w pid' q -> marked (register_protected_create_targets pid w ps) pid' q.
Proof.
  unfold register_protected_create_targets. revert w. induction ps as [|p ps IH]; intros w; [done|]. cbn [fold_left].
  destruct (IH (set_marker_dir w p (write_marker pid MarkerProtectedCreate (marker_dir w p)))) as [Hf Hk].
  split; [exact Hf|]. intros pid' q Hm. by apply Hk, write_marked.
Qed.

Lemma unregister_marked pid w p pid' q : pid' <> pid -> marked w pid' q -> marked (unregister pid w p) pid' q.
Proof.
  intros Hne [m Hm]. exists m. unfold unregister. destruct (w_markers w !! hash_path p) as [dir|] eqn:Hd; [|done].
  rewrite marker_dir_set. case_bool_decide as Hh; [|done]. apply remove_marker_elem. split; [|done].
  unfold marker_dir in Hm. by rewrite Hh, Hd in Hm.
Qed.
Lemma unregister_files pid w p : w_files (unregister pid w p) = w_files w.
Proof. unfold unregister. by case_goal. Qed.

Lemma remove_dir_marked w p pid q : marked w pid q -> marked (remove_marker_dir w p) pid q.
Proof.
  intros [m Hm]. exists m. unfold remove_marker_dir. destruct (w_markers w !! hash_path p) as [[|e dir]|] eqn:Hd; [|done..].
  unfold marker_dir in *. cbn [w_markers]. destruct (decide (hash_path q = hash_path p)) as [Hh|Hh].
  - rewrite Hh, Hd in Hm. set_solver.
  - by rewrite lookup_delete_ne by congruence.
Qed.
Lemma remove_dir_files w p : w_files (remove_marker_dir w p) = w_files w.
Proof. unfold remove_marker_dir. by repeat case_goal. Qed.
End scan.

(** ** What another process is mounted over stays *)

Section stays.
Context (active : N -> bool) (p : N) (x : path) (Ha : active p = true).

Lemma unregister_all_keeps {A} (f : A -> path) pid ts w :
  pid <> p ->
  let w' := fold_left (fun w t => unregister pid w (f t)) ts w in
  w_files w' = w_files w /\ forall q, marked w p q -> marked w' p q.
Proof.
  intros Hne. revert w. induction ts as [|t ts IH]; intros w; [done|]. cbn [fold_left].
  destruct (IH (unregister pid w (f t))) as [Hf Hk]. rewrite unregister_files in Hf. split; [exact Hf|].
  intros q Hq. by apply Hk, unregister_marked.
Qed.

Lemma cleanup_synthetic_keeps w t :
  (forall q, marked w p q -> marked (cleanup_synthetic active w t) p q)
  /\ (marked w p x -> w_files (cleanup_synthetic active w t) !! x = w_files w !! x).
Proof.
  unfold cleanup_synthetic, marker_dir_has_active_process.
  pose proof (scan_dir_marked active w (synthetic_path t) (fun _ => true) p) as Hm.
  pose proof (scan_dir_files active w (synthetic_path t) (fun _ => true)) as Hf.
  pose proof (scan_dir_found active w (synthetic_path t) p x Ha) as Hfound.
  destruct (scan_marker_dir active w (synthetic_path t) _) as [w1 found]. cbn [fst snd] in *.
  destruct found; [split; [intros; by apply Hm|intros _; by rewrite Hf]|].
  assert (forall q, marked w1 p q -> marked (remove_synthetic_mount_target w1 t) p q) as Hr.
  { intros q Hq. unfold remove_synthetic_mount_target. by repeat case_goal. }
  split; [intros q Hq; by apply remove_dir_marked, Hr, Hm|]. intros Hx.
  rewrite remove_dir_files. rewrite <- Hf. unfold remove_synthetic_mount_target.
  assert (synthetic_path t <> x) as Hne by (intros E; rewrite E in Hfound; by specialize (Hfound Hx eq_refl)).
  repeat case_goal; try done; cbn [w_files]; by rewrite lookup_delete_ne.
Qed.

Lemma cleanup_all_keeps pid ts w :
  pid <> p ->
  let w' := cleanup_synthetic_mount_targets active pid w ts in
  (forall q, marked w p q -> marked w' p q) /\ (marked w p x -> w_files w' !! x = w_files w !! x).
Proof.
  intros Hne. unfold cleanup_synthetic_mount_targets.
  destruct (unregister_all_keeps synthetic_path pid (rev ts) w Hne) as [Hf Hk].
  set (w1 := fold_left _ (rev ts) w) in *. rewrite <- Hf.
  assert (forall l w2, (forall q, marked w2 p q -> marked (fold_left (cleanup_synthetic active) l w2) p q)
    /\ (marked w2 p x -> w_files (fold_left (cleanup_synthetic active) l w2) !! x = w_files w2 !! x)) as Hgo.
  { induction l as [|t l IH]; intros w2; [done|]. cbn [fold_left]. destruct (cleanup_synthetic_keeps w2 t) as [H1 H2].
    destruct (IH (cleanup_synthetic active w2 t)) as [H3 H4].
    split; [intros q Hq; by apply H3, H1|]. intros Hx. by rewrite H4, H2 by auto. }
  destruct (Hgo (rev ts) w1) as [H1 H2]. split; [intros q Hq; by apply H1, Hk|]. intros Hx. apply H2. by apply Hk.
Qed.

(** A watched path at or beside [x], not above it. *)
Definition not_above (y : path) : Prop := path_starts_with x y = true -> y = x.

Lemma remove_protected_keeps w y :
  y <> x -> not_above y -> w_files (remove_protected_create_target w y).1 !! x = w_files w !! x.
Proof.
  intros Hne Hab. unfold remove_protected_create_target. destruct (w_files w !! y); [|done]. cbn [fst w_files]. case_goal.
  - destruct (w_files w !! x) as [meta|] eqn:Hm1; [|by apply map_lookup_filter_None_2; left].
    apply map_lookup_filter_Some. split; [done|]. cbn. apply not_true_is_false. intros Hp. by apply Hne, Hab.
  - by rewrite lookup_delete_ne.
Qed.
Lemma remove_protected_markers w y : w_markers (remove_protected_create_target w y).1 = w_markers w.
Proof. unfold remove_protected_create_target. by destruct (w_files w !! y). Qed.

Lemma cleanup_protected_keeps w v y :
  (forall q, marked w p q -> marked (cleanup_protected active (w, v) y).1 p q)
  /\ (marked w p x -> not_above y -> w_files (cleanup_protected active (w, v) y).1 !! x = w_files w !! x).
Proof.
  unfold cleanup_protected, marker_dir_has_active_process.
  pose proof (scan_dir_marked active w y (fun _ => true) p) as Hm.
  pose proof (scan_dir_files active w y (fun _ => true)) as Hf.
  pose proof (scan_dir_found active w y p x Ha) as Hfound.
  destruct (scan_marker_dir active w y _) as [w1 found]. cbn [fst snd] in *.
  destruct found; [split; [intros; by apply Hm|intros _ _; cbn; by rewrite Hf]|].
  assert (forall q, marked w1 p q -> marked (remove_protected_create_target w1 y).1 p q) as Hr.
  { intros q Hq. unfold remove_protected_create_target. by repeat case_goal. }
  assert (marked w p x -> not_above y -> w_files (remove_protected_create_target w1 y).1 !! x = w_files w1 !! x) as Hfile.
  { intros Hx Hab. apply remove_protected_keeps; [|done]. intros ->. by specialize (Hfound Hx eq_refl). }
  destruct (remove_protected_create_target w1 y) as [w2 removed]. cbn [fst] in *.
  split; [intros q Hq; by apply remove_dir_marked, Hr, Hm|]. intros Hx Hab. rewrite remove_dir_files, Hfile by done. by rewrite Hf.
Qed.

Lemma cleanup_protected_all_keeps pid ys w :
  pid <> p ->
  let w' := (cleanup_protected_create_targets active pid w ys).1 in
  (forall q, marked w p q -> marked w' p q)
  /\ (marked w p x -> Forall not_above ys -> w_files w' !! x = w_files w !! x).
Proof.
  intros Hne. unfold cleanup_protected_create_targets.
  destruct (unregister_all_keeps (fun y => y) pid (rev ys) w Hne) as [Hf Hk].
  change (fold_left (fun w t => unregister pid w t) (rev ys) w) with (fold_left (unregister pid) (rev ys) w) in *.
  set (w1 := fold_left _ (rev ys) w) in *. rewrite <- Hf.
  assert (forall l acc, (forall q, marked acc.1 p q -> marked (fold_left (cleanup_protected active) l acc).1 p q)
    /\ (marked acc.1 p x -> Forall not_above l -> w_files (fold_left (cleanup_protected active) l acc).1 !! x = w_files acc.1 !! x)) as Hgo.
  { induction l as [|y l IH]; intros [w2 v]; [done|]. cbn [fold_left]. destruct (cleanup_protected_keeps w2 v y) as [H1 H2].
    destruct (IH (cleanup_protected active (w2, v) y)) as [H3 H4].
    split; [intros q Hq; by apply H3, H1|]. intros Hx [Hy Hl]%Forall_cons. rewrite H4 by auto. by apply H2. }
  destruct (Hgo (rev ys) (w1, false)) as [H1 H2]. split; [intros q Hq; by apply H1, Hk|].
  intros Hx Hys. apply H2; [by apply Hk|]. by apply Forall_rev.
Qed.
End stays.

(** Every registered process is active and its synthetic targets are marked. *)
Definition targets_marked (s : State) : Prop :=
  forall pid pr, st_procs s !! pid = Some pr ->
    pid ∈ st_active s /\ forall t, t ∈ pr_synthetic pr -> marked (st_world s) pid (synthetic_path t).

(** A step by [q] that keeps the marks of the other processes keeps the invariant,
    when it holds of what [q] registers. *)
Lemma targets_marked_update s q pr w :
  targets_marked s -> q ∈ st_active s ->
  (forall pid x, pid <> q -> pid ∈ st_active s -> marked (st_world s) pid x -> marked w pid x) ->
  (forall t, t ∈ pr_synthetic pr -> marked w q (synthetic_path t)) ->
  targets_marked (set_proc s w q pr).
Proof.
  intros Hinv Hq Hkeep Hown pid pr' Hpr. unfold set_proc in *. cbn [st_procs st_active st_world] in *.
  apply lookup_insert_Some in Hpr as [[<- <-]|[Hne Hpr]]; [done|].
  destruct (Hinv pid pr' Hpr) as [Hact Hm]. split; [done|]. intros t Ht. apply Hkeep; [congruence|done|by apply Hm].
Qed.

(** A step of [q] that changes neither its targets nor the markers. *)
Lemma targets_marked_same s q pr pr' w :
  targets_marked s -> st_procs s !! q = Some pr -> pr_synthetic pr' = pr_synthetic pr -> w_markers w = w_markers (st_world s) ->
  targets_marked (set_proc s w q pr').
Proof.
  intros Hinv Hpr Hsyn Hw. destruct (Hinv q pr Hpr) as [Hin Hm].
  assert (forall pid x, marked (st_world s) pid x -> marked w pid x) as Hk
    by (intros pid x [m Hx]; exists m; unfold marker_dir in *; by rewrite Hw).
  apply targets_marked_update; [done|done|intros; by apply Hk|]. rewrite Hsyn. intros t Ht. by apply Hk, Hm.
Qed.

Lemma step_targets_marked s l s' : targets_marked s -> step s l = Some s' -> targets_marked s'.
Proof.
  intros Hinv Hstep.
  assert (forall q, q ∈ st_active s -> is_active s q = true) as Hact by (intros q; unfold is_active; by rewrite bool_decide_eq_true).
  destruct l as [q|q ts|q ys|q|q y m|q y fails|y m|q|q|q|q]; unfold step in Hstep.
  - case_in Hstep. intros pid pr Hpr. destruct (Hinv pid pr Hpr) as [Hin Hm]. split; [set_solver|done].
  - destruct (negb (is_active s q) || _) eqn:Hq in Hstep; [done|].
    apply orb_false_iff in Hq as [Hq%negb_false_iff _].
    pose proof (register_all_marked (is_active s) q ts (st_world s)) as (Hf & Hk & Ho).
    destruct (register_synthetic_mount_targets _ _ _ _) as [w regs]. injection Hstep as <-. cbn [fst snd] in *.
    apply targets_marked_update; [done| |intros; by apply Hk; [apply Hact|]|by apply Ho].
    unfold is_active in Hq. by bool_to_prop.
  - destruct (st_procs s !! q) as [[regs prots [| | | |] v]|] eqn:Hpr; [|done..]. injection Hstep as <-.
    destruct (Hinv q _ Hpr) as [Hin Hm]. destruct (protect_marked q ys (st_world s)) as [_ Hk].
    apply targets_marked_update; [done|done|intros; by apply Hk|intros; by apply Hk, Hm].
  - destruct (st_procs s !! q) as [[regs prots [| | | |] v]|] eqn:Hpr; try done. injection Hstep as <-.
    by eapply targets_marked_same.
  - destruct (st_procs s !! q) as [[regs prots [| | | |] v]|]; try done. case_in Hstep.
    intros pid pr Hpr. exact (Hinv pid pr Hpr).
  - destruct (st_procs s !! q) as [[regs prots [| | | |] v]|] eqn:Hpr; try done.
    destruct (bool_decide (y ∈ prots)); [|done].
    assert (w_markers (remove_protected_create_target_best_effort (st_world s) y fails).1 = w_markers (st_world s)) as Hw
      by (destruct fails; [done|apply remove_protected_markers]).
    destruct (remove_protected_create_target_best_effort _ _ _) as [w removed]. injection Hstep as <-.
    by eapply targets_marked_same.
  - destruct (bool_decide _) in Hstep; [done|]. injection Hstep as <-. intros pid pr Hpr. exact (Hinv pid pr Hpr).
  - destruct (st_procs s !! q) as [[regs prots [| | | |] v]|] eqn:Hpr; try done. injection Hstep as <-.
    by eapply targets_marked_same.
  - destruct (st_procs s !! q) as [[regs prots [| | | |] v]|] eqn:Hpr; try done. injection Hstep as <-.
    destruct (Hinv q _ Hpr) as [Hin Hm]. apply targets_marked_update; [done|done| |set_solver].
    intros pid x Hne Hp Hx. eapply (cleanup_all_keeps (is_active s) pid x); [by apply Hact|congruence|done].
  - destruct (st_procs s !! q) as [[regs prots [| | | |] v]|] eqn:Hpr; try done. injection Hstep as <-.
    intros pid pr Hpr'. cbn [st_procs st_active st_world] in *. apply lookup_delete_Some in Hpr' as [Hne Hpr'].
    destruct (Hinv pid pr Hpr') as [Hin Hm]. split; [done|]. intros t Ht. destruct v; [by apply Hm|].
    eapply (cleanup_protected_all_keeps (is_active s) pid (synthetic_path t)); [by apply Hact|congruence|by apply Hm].
  - injection Hstep as <-. intros pid pr Hpr'. cbn [st_procs st_active st_world] in *. apply lookup_delete_Some in Hpr' as [Hne Hpr']. destruct (Hinv pid pr Hpr') as [Hin Hm].
    split; [|done]. cbn. set_solver.
Qed.

Lemma reachable_marked allowed files s : reachable allowed files s -> targets_marked s.
Proof.
  induction 1 as [|s l s' _ IH _ Hstep]; [|by eapply step_targets_marked].
  intros pid pr Hpr. cbn in Hpr. by rewrite lookup_empty in Hpr.
Qed.

(** A process that has cleaned up has no synthetic targets left. *)
Definition cleaned_empty (s : State) : Prop :=
  forall pid pr, st_procs s !! pid = Some pr -> pr_phase pr = Cleaned -> pr_synthetic pr = [].
Lemma step_cleaned_empty s l s' : cleaned_empty s -> step s l = Some s' -> cleaned_empty s'.
Proof.
  intros Hinv Hstep.
  assert (forall w q pr, (pr_phase pr = Cleaned -> pr_synthetic pr = []) -> cleaned_empty (set_proc s w q pr)) as Hset.
  { intros w q pr Hp pid pr' Hpr. cbn in Hpr. apply lookup_insert_Some in Hpr as [[_ <-]|[_ Hpr]]; [done|by apply (Hinv pid)]. }
  assert (forall w q a, cleaned_empty (mkState w (delete q (st_procs s)) a)) as Hdel.
  { intros w q a pid pr Hpr. cbn in Hpr. apply lookup_delete_Some in Hpr as [_ Hpr]. by apply (Hinv pid). }
  destruct l as [q|q ts|q ys|q|q y m|q y fails|y m|q|q|q|q]; unfold step in Hstep; repeat case_in Hstep; simplify_eq;
    try (by apply Hset); try (by apply Hdel); done.
Qed.
Lemma reachable_cleaned allowed files s : reachable allowed files s -> cleaned_empty s.
Proof.
  induction 1 as [|s l s' _ IH _ Hstep]; [|by eapply step_cleaned_empty].
  intros pid pr Hpr. cbn in Hpr. by rewrite lookup_empty in Hpr.
Qed.


(** ** Helpers that finish leave the files as they were *)

Lemma set_marker_dir_twice w p d d' : set_marker_dir (set_marker_dir w p d) p d' = set_marker_dir w p d'.
Proof. unfold set_marker_dir. cbn. by rewrite insert_insert_eq. Qed.

Lemma scan_all_active active f dir :
  (forall e, e ∈ dir -> active e.1 = true) -> (has_active_process_matching active f dir).1 = dir.
Proof.
  induction dir as [|[q n] dir IH]; intros Ha; [done|]. cbn [has_active_process_matching].
  pose proof (Ha (q, n)) as Hq. cbn [fst] in Hq. rewrite Hq by set_solver. cbn [negb]. case_goal; [done|].
  specialize (IH ltac:(intros e He; apply Ha; set_solver)). destruct (has_active_process_matching active f dir). cbn in *. by rewrite IH.
Qed.

Section restore.
Context (files0 : gmap path Metadata) (used : list path) (kind_of : path -> SyntheticMountTargetKind).

(** The paths mounted over: hashes do not collide, none lies below another, and
    nothing exists below a missing one. *)
Record paths_ok : Prop := {
  po_hash : forall x y, x ∈ used -> y ∈ used -> hash_path x = hash_path y -> x = y;
  po_apart : forall x y, x ∈ used -> y ∈ used -> path_starts_with x y = true -> x = y;
  po_tree : forall x q, x ∈ used -> files0 !! x = None -> path_starts_with q x = true -> files0 !! q = None
}.
Context (Hpaths : paths_ok).

(** The target of a path, seen from the files there were at the start. *)
Definition own_target (t : SyntheticMountTarget) : Prop :=
  synthetic_path t ∈ used /\ synthetic_kind t = kind_of (synthetic_path t)
  /\ pre_existing_path t = identity_from_metadata <$> files0 !! synthetic_path t.
Definition contents (x : path) : Marker :=
  match files0 !! x with Some _ => MarkerExisting | None => MarkerSynthetic end.

(** [registered] tells which processes are mounted over which paths, [pending]
    the paths a cleanup has still to look at. *)
Record world_inv (registered : N -> path -> Prop) (pending : list path) (w : World) : Prop := {
  wi_used : forall pid x, registered pid x -> x ∈ used;
  wi_markers : forall x pid m, x ∈ used -> (pid, m) ∈ marker_dir w x <-> registered pid x /\ m = contents x;
  wi_keys : forall h d, w_markers w !! h = Some d -> exists x, x ∈ used /\ h = hash_path x /\ (d = [] -> x ∈ pending);
  wi_files : forall y, w_files w !! y = files0 !! y
    \/ (files0 !! y = None /\ y ∈ used /\ ((exists pid, registered pid y) \/ y ∈ pending)
        /\ exists m, w_files w !! y = Some m /\ is_mount_point (kind_of y) m = true)
}.

Lemma own_target_contents t : own_target t -> synthetic_mount_marker_contents t = contents (synthetic_path t).
Proof.
  intros (_ & _ & Hpre). unfold synthetic_mount_marker_contents, preserves_pre_existing_path, contents. rewrite Hpre.
  by destruct (files0 !! synthetic_path t).
Qed.

(** A target as the files show it now. *)
Definition current_target (files : gmap path Metadata) (t : SyntheticMountTarget) : Prop :=
  synthetic_path t ∈ used /\ synthetic_kind t = kind_of (synthetic_path t)
  /\ pre_existing_path t = identity_from_metadata <$> files !! synthetic_path t.

Section active.
Context (active : N -> bool).

Lemma register_current registered w pid t :
  world_inv registered [] w -> (forall pid x, registered pid x -> active pid = true) -> current_target (w_files w) t ->
  exists t', own_target t' /\ synthetic_path t' = synthetic_path t
    /\ register_synthetic active pid w t
       = (set_marker_dir w (synthetic_path t)
            (write_marker pid (contents (synthetic_path t)) (marker_dir w (synthetic_path t))), t').
Proof.
  intros Hinv Hact (Hu & Hk & Hpre). set (x := synthetic_path t) in *.
  assert (forall e, e ∈ marker_dir w x -> active e.1 = true /\ e.2 = contents x) as Hdir.
  { intros [q m] He. apply (wi_markers _ _ _ Hinv) in He as [Hr ->]; [|done]. split; [by eapply Hact|done]. }
  unfold register_synthetic. fold x.
  destruct (preserves_pre_existing_path t) eqn:Hp; unfold preserves_pre_existing_path in Hp.
  - unfold marker_dir_has_active_synthetic_owner, scan_marker_dir, set_marker_dir at 1. cbn [w_markers].
    rewrite lookup_insert_eq. pose proof (scan_all_active active (fun m => bool_decide (m = MarkerSynthetic)) (marker_dir w x)) as Hid.
    destruct (files0 !! x) as [m0|] eqn:H0.
    + assert (pre_existing_path t = Some (identity_from_metadata m0)) as Hpre0.
      { rewrite Hpre. destruct (wi_files _ _ _ Hinv x) as [->|[? _]]; [by rewrite H0|congruence]. }
      assert (own_target t) as Hown by (unfold own_target; fold x; rewrite H0; done).
      exists t. split; [done|]. split; [done|].
      rewrite scan_not_found; [|intros e He; by apply Hdir|].
      * rewrite !set_marker_dir_twice. rewrite (own_target_contents t) by done.
        rewrite marker_dir_set, bool_decide_eq_true_2 by done. done.
      * intros e He. apply Hdir in He as [_ ->]. unfold contents. by rewrite H0.
    + exists (without_pre_existing t).
      assert (own_target (without_pre_existing t) /\ synthetic_path (without_pre_existing t) = x) as [Hown Hpath].
      { unfold own_target, without_pre_existing. rewrite Hk. destruct (kind_of x) eqn:Hkx; cbn; fold x; by rewrite H0, Hkx. }
      split; [done|]. split; [done|].
      assert ((has_active_process_matching active (fun m => bool_decide (m = MarkerSynthetic)) (marker_dir w x)).2 = true) as Hfound.
      { destruct (wi_files _ _ _ Hinv x) as [E|(_ & _ & [[q Hq]|Hq] & m & E & _)].
        - rewrite Hpre, E, H0 in Hp. bool_to_prop. by destruct Hp.
        - apply (scan_found active _ _ q (contents x)); [by eapply Hact|by apply (wi_markers _ _ _ Hinv)|].
          unfold contents. by rewrite H0.
        - by apply elem_of_nil in Hq. }
      destruct (has_active_process_matching _ _ _) as [d found]. cbn [fst snd] in *. rewrite Hfound, Hid by (intros e He; by apply Hdir).
      rewrite !set_marker_dir_twice, own_target_contents by done. rewrite Hpath, marker_dir_set, bool_decide_eq_true_2 by done. done.
  - exists t. bool_to_prop.
    assert (files0 !! x = None) as H0.
    { destruct (wi_files _ _ _ Hinv x) as [E|[? _]]; [|done]. rewrite <- E. rewrite Hpre in Hp.
      destruct (w_files w !! x); [|done]. exfalso. apply Hp. by eexists. }
    assert (own_target t) as Hown.
    { split_and!; [done..|]. fold x. rewrite H0. destruct (pre_existing_path t); [exfalso; apply Hp; by eexists|done]. }
    split; [done|]. split; [done|]. rewrite set_marker_dir_twice, own_target_contents by done.
    rewrite marker_dir_set, bool_decide_eq_true_2 by done. done.
Qed.

Lemma set_dir_inv registered registered' pending pending' w x dir :
  world_inv registered pending w -> x ∈ used ->
  (forall pid y, registered' pid y <-> if bool_decide (y = x) then (pid, contents x) ∈ dir else registered pid y) ->
  (forall pid m, (pid, m) ∈ dir -> m = contents x) -> (dir = [] -> x ∈ pending') -> pending ⊆ pending' ->
  (forall pid, registered pid x -> (exists pid', registered' pid' x) \/ x ∈ pending') ->
  world_inv registered' pending' (set_marker_dir w x dir).
Proof.
  intros Hinv Hu Hreg Hdir Hnil Hpend Hkeep. split.
  - intros pid y Hr. apply Hreg in Hr. case_bool_decide; [by subst|by eapply (wi_used _ _ _ Hinv)].
  - intros y pid m Hy. rewrite marker_dir_set, Hreg. destruct (decide (y = x)) as [->|Hne].
    + rewrite !bool_decide_eq_true_2 by done. split; [intros Hin; by rewrite <- (Hdir pid m)|by intros [? ->]].
    + rewrite (bool_decide_eq_false_2 (y = x)) by done. rewrite bool_decide_eq_false_2; [by apply (wi_markers _ _ _ Hinv)|].
      intros E. by apply Hne, (po_hash Hpaths).
  - intros h d. cbn [set_marker_dir w_markers]. rewrite lookup_insert_Some. intros [[<- <-]|[_ Hd]]; [by exists x|].
    destruct (wi_keys _ _ _ Hinv h d Hd) as (y & Hy & -> & Hp). exists y. split_and!; [done..|]. auto.
  - intros y. destruct (wi_files _ _ _ Hinv y) as [E|(H0 & Hy & Hown & Hm)]; [by left|]. right. split_and!; [done..| |done].
    destruct Hown as [[pid Hr]|Hp]; [|right; by apply Hpend].
    destruct (decide (y = x)) as [->|Hne]; [by eapply Hkeep|]. left. exists pid. apply Hreg. by rewrite bool_decide_eq_false_2.
Qed.

Lemma register_inv registered w pid x :
  world_inv registered [] w -> x ∈ used ->
  world_inv (fun q y => registered q y \/ (q = pid /\ y = x)) []
    (set_marker_dir w x (write_marker pid (contents x) (marker_dir w x))).
Proof.
  intros Hinv Hu.
  assert (forall q m, (q, m) ∈ write_marker pid (contents x) (marker_dir w x) -> m = contents x) as Hm.
  { intros q m [E|Hin]%write_marker_elem; [by injection E|]. by apply (wi_markers _ _ _ Hinv) in Hin as [_ ->]. }
  eapply set_dir_inv; [done|done| |done| |done|].
  - intros q y. case_bool_decide as Hy; [subst y|naive_solver]. destruct (decide (q = pid)) as [->|Hne].
    + split; [intros _; apply write_marker_own|by right].
    + split.
      * intros [Hr|[? _]]; [|done]. apply write_marker_other; [done|]. by apply (wi_markers _ _ _ Hinv).
      * intros [E|Hin]%write_marker_elem; [by injection E|]. left. by apply (wi_markers _ _ _ Hinv) in Hin as [? _].
  - intros E. pose proof (write_marker_own pid (contents x) (marker_dir w x)) as Ho. rewrite E in Ho. by apply elem_of_nil in Ho.
  - intros q Hq. left. exists q. by left.
Qed.

Lemma world_inv_ext registered registered' pending w :
  (forall pid x, registered pid x <-> registered' pid x) -> world_inv registered pending w -> world_inv registered' pending w.
Proof.
  intros E Hinv. split.
  - intros pid x Hr. eapply (wi_used _ _ _ Hinv). by apply E.
  - intros x pid m Hu. rewrite <- E. by apply (wi_markers _ _ _ Hinv).
  - apply (wi_keys _ _ _ Hinv).
  - intros y. destruct (wi_files _ _ _ Hinv y) as [?|(? & ? & [[pid ?]|?] & ?)]; [by left|right..]; split_and!; try done;
      [left; exists pid; by apply E|by right].
Qed.

Lemma register_all_inv pid ts : forall registered w,
  world_inv registered [] w -> (forall pid x, registered pid x -> active pid = true) -> active pid = true ->
  Forall (current_target (w_files w)) ts ->
  let r := register_synthetic_mount_targets active pid w ts in
  Forall own_target r.2 /\ w_files r.1 = w_files w
  /\ world_inv (fun q y => registered q y \/ (q = pid /\ exists t, t ∈ r.2 /\ synthetic_path t = y)) [] r.1.
Proof.
  induction ts as [|t ts IH]; intros registered w Hinv Hact Hpid Hts; cbn [register_synthetic_mount_targets].
  { cbn. split_and!; [done..|]. eapply world_inv_ext; [|done]. set_solver. }
  apply Forall_cons in Hts as [Ht Hts]. destruct (register_current registered w pid t Hinv Hact Ht) as (t' & Hown & Hp & ->).
  set (x := synthetic_path t) in *. set (w1 := set_marker_dir w x _).
  destruct (IH (fun q y => registered q y \/ (q = pid /\ y = x)) w1) as (Hall & Hf & Hw).
  - apply register_inv; [done|]. apply Ht.
  - intros q y [Hq|[-> _]]; [by eapply Hact|done].
  - done.
  - exact Hts.
  - destruct (register_synthetic_mount_targets active pid w1 ts) as [w2 ts']. cbn [fst snd] in *.
    split_and!; [by constructor|exact Hf|]. eapply world_inv_ext; [|exact Hw]. intros q y. cbn. rewrite <- Hp. set_solver.
Qed.

Lemma unregister_inv registered pending w pid x :
  world_inv registered pending w -> x ∈ used ->
  world_inv (fun q y => registered q y /\ ~ (q = pid /\ y = x)) (x :: pending) (unregister pid w x).
Proof.
  intros Hinv Hu. unfold unregister.
  assert (forall q m, (q, m) ∈ marker_dir w x -> m = contents x) as Hm.
  { intros q m Hin. by apply (wi_markers _ _ _ Hinv) in Hin as [_ ->]. }
  destruct (w_markers w !! hash_path x) as [dir|] eqn:Hd.
  - assert (marker_dir w x = dir) as Hmd by (unfold marker_dir; by rewrite Hd).
    eapply set_dir_inv; [done|done| | |set_solver|set_solver|set_solver].
    + intros q y. case_bool_decide as Hy; [subst y|naive_solver]. rewrite remove_marker_elem. cbn [fst].
      rewrite <- Hmd, (wi_markers _ _ _ Hinv) by done. naive_solver.
    + intros q m [Hin _]%remove_marker_elem. rewrite <- Hmd in Hin. by eapply Hm.
  - assert (forall q, ~ registered q x) as Hnone.
    { intros q Hq. assert ((q, contents x) ∈ marker_dir w x) as Hin by by apply (wi_markers _ _ _ Hinv).
      unfold marker_dir in Hin. rewrite Hd in Hin. by apply elem_of_nil in Hin. }
    split.
    + intros q y [Hr _]. by eapply (wi_used _ _ _ Hinv).
    + intros y q m Hy. rewrite (wi_markers _ _ _ Hinv) by done. naive_solver.
    + intros h d Hh. destruct (wi_keys _ _ _ Hinv h d Hh) as (y & Hy & -> & Hp). exists y. set_solver.
    + intros y. destruct (wi_files _ _ _ Hinv y) as [?|(? & ? & [[q Hq]|?] & ?)]; [by left|right..]; split_and!; try done.
      * left. exists q. split; [done|]. intros [_ ->]. by eapply Hnone.
      * right. set_solver.
Qed.

Lemma world_inv_pending registered pending pending' w :
  pending ⊆ pending' -> world_inv registered pending w -> world_inv registered pending' w.
Proof.
  intros Hp Hinv. split; [apply (wi_used _ _ _ Hinv)|apply (wi_markers _ _ _ Hinv)|..].
  - intros h d Hd. destruct (wi_keys _ _ _ Hinv h d Hd) as (y & ? & ? & Hy). exists y. auto.
  - intros y. destruct (wi_files _ _ _ Hinv y) as [?|(? & ? & [?|?] & ?)]; [by left|right..]; split_and!; auto.
Qed.

(** A mount point that appeared is removed, and with it nothing else. *)
Lemma remove_target_files registered pending w t :
  world_inv registered pending w -> own_target t ->
  w_markers (remove_synthetic_mount_target w t) = w_markers w
  /\ forall y, w_files (remove_synthetic_mount_target w t) !! y
              = if bool_decide (y = synthetic_path t) then files0 !! y else w_files w !! y.
Proof.
  intros Hinv (Hu & Hk & Hpre). unfold remove_synthetic_mount_target. set (x := synthetic_path t) in *.
  destruct (wi_files _ _ _ Hinv x) as [E|(H0 & _ & _ & m & Hm & Hmp)].
  - assert (forall y, w_files w !! y = if bool_decide (y = x) then files0 !! y else w_files w !! y) as Hsame.
    { intros y. case_bool_decide; by subst. }
    destruct (w_files w !! x) as [m|] eqn:Hm; [|done].
    assert (should_remove_after_bwrap t m = false) as ->; [|done].
    unfold should_remove_after_bwrap. rewrite Hpre, <- E. cbn [fmap option_fmap option_map].
    rewrite (bool_decide_eq_true_2 (identity_from_metadata m = identity_from_metadata m)) by done. by destruct (negb _).
  - assert (forall y, delete x (w_files w) !! y = if bool_decide (y = x) then files0 !! y else w_files w !! y) as Hdel.
    { intros y. case_bool_decide as Hy; [subst y; by rewrite lookup_delete_eq|by rewrite lookup_delete_ne]. }
    rewrite Hm. assert (should_remove_after_bwrap t m = true) as ->.
    { unfold should_remove_after_bwrap. rewrite Hpre, H0, Hk. unfold is_mount_point in Hmp. cbn [fmap option_fmap option_map].
      destruct (kind_of x); by rewrite Hmp. }
    cbn [negb]. destruct (synthetic_kind t); [done|].
    assert (has_children (w_files w) x = false) as ->; [|done].
    apply not_true_is_false. intros (q & Hq & [Hne Hpre']%andb_true_iff)%existsb_exists. bool_to_prop.
    apply list_elem_of_In, elem_of_elements, elem_of_dom in Hq as [mq Hq].
    destruct (wi_files _ _ _ Hinv q) as [Eq|(_ & Huq & _)]; [|by apply Hne, (po_apart Hpaths)].
    rewrite Eq, (po_tree Hpaths x q) in Hq; done.
Qed.

Lemma cleanup_one_inv registered pending w t :
  world_inv registered (synthetic_path t :: pending) w -> (forall pid x, registered pid x -> active pid = true) ->
  own_target t -> world_inv registered pending (cleanup_synthetic active w t).
Proof.
  intros Hinv Hact Hown. unfold cleanup_synthetic, marker_dir_has_active_process, scan_marker_dir.
  set (x := synthetic_path t) in *. pose proof Hown as (Hu & _). fold x in Hu.
  assert (forall q, registered q x <-> exists m, (q, m) ∈ marker_dir w x) as Hreg.
  { intros q. split; [intros Hq; exists (contents x); by apply (wi_markers _ _ _ Hinv)|].
    intros [m Hm]. by apply (wi_markers _ _ _ Hinv) in Hm as [? _]. }
  assert (w_markers w !! hash_path x = None \/ w_markers w !! hash_path x = Some [] ->
    world_inv registered pending (remove_marker_dir (remove_synthetic_mount_target w t) x)) as Hgone.
  { intros Hd. destruct (remove_target_files _ _ _ _ Hinv Hown) as [Hm Hf]. set (w1 := remove_synthetic_mount_target w t) in *.
    assert (forall h, w_markers (remove_marker_dir w1 x) !! h = if bool_decide (h = hash_path x) then None else w_markers w !! h) as Hmd.
    { intros h. unfold remove_marker_dir. rewrite Hm.
      destruct Hd as [Hd|Hd]; rewrite Hd; cbn [w_markers]; rewrite ?Hm; case_bool_decide as Hh; subst; try done;
        [by rewrite lookup_delete_eq|by rewrite lookup_delete_ne]. }
    assert (forall y, y ∈ used -> marker_dir (remove_marker_dir w1 x) y = marker_dir w y) as Hdirs.
    { intros y Hy. unfold marker_dir. rewrite Hmd. case_bool_decide as Hh; [|done]. rewrite Hh. by destruct Hd as [->| ->]. }
    split.
    - apply (wi_used _ _ _ Hinv).
    - intros y q m Hy. rewrite Hdirs by done. by apply (wi_markers _ _ _ Hinv).
    - intros h d. rewrite Hmd. case_bool_decide as Hh; [done|]. intros Hd'.
      destruct (wi_keys _ _ _ Hinv h d Hd') as (y & Hy & -> & Hp). exists y. split_and!; [done..|]. set_solver.
    - intros y. rewrite remove_dir_files, Hf. case_bool_decide as Hy; [by left|].
      destruct (wi_files _ _ _ Hinv y) as [?|(? & ? & [?|Hin] & ?)]; [by left|right..]; split_and!; try done; [by left|right].
      apply elem_of_cons in Hin as [->|?]; done. }
  destruct (w_markers w !! hash_path x) as [dir|] eqn:Hd; [|apply Hgone; by left].
  assert (marker_dir w x = dir) as Hmd by (unfold marker_dir; by rewrite Hd).
  assert (set_marker_dir w x dir = w) as Hset by (unfold set_marker_dir; rewrite insert_id by done; by destruct w).
  destruct dir as [|[q m] dir].
  - cbn [has_active_process_matching]. rewrite Hset. apply Hgone. by right.
  - assert (registered q x) as Hq by (apply Hreg; exists m; rewrite Hmd; set_solver).
    cbn [has_active_process_matching]. rewrite (Hact q x Hq). cbn [negb]. rewrite Hset.
    split; [apply (wi_used _ _ _ Hinv)|apply (wi_markers _ _ _ Hinv)|..].
    + intros h d Hd'. destruct (wi_keys _ _ _ Hinv h d Hd') as (y & Hy & -> & Hp). exists y. split_and!; [done..|].
      intros ->. specialize (Hp eq_refl). apply elem_of_cons in Hp as [->|?]; [congruence|done].
    + intros y. destruct (wi_files _ _ _ Hinv y) as [?|(? & ? & [?|Hin] & ?)]; [by left|right..]; split_and!; try done; [by left|].
      apply elem_of_cons in Hin as [->|?]; [left; by exists q|by right].
Qed.

Lemma cleanup_all_inv registered w pid ts :
  world_inv registered [] w -> (forall pid x, registered pid x -> active pid = true) -> Forall own_target ts ->
  world_inv (fun q y => registered q y /\ ~ (q = pid /\ exists t, t ∈ ts /\ synthetic_path t = y)) []
    (cleanup_synthetic_mount_targets active pid w ts).
Proof.
  intros Hinv Hact Hown. unfold cleanup_synthetic_mount_targets.
  assert (forall l registered pending w, Forall own_target l -> world_inv registered pending w ->
    world_inv (fun q y => registered q y /\ ~ (q = pid /\ exists t, t ∈ l /\ synthetic_path t = y))
      (map synthetic_path l ++ pending) (fold_left (fun w t => unregister pid w (synthetic_path t)) l w)) as Hunreg.
  { clear -Hpaths active. induction l as [|t l IH]; intros registered pending w Hown Hinv; cbn [fold_left map app].
    - eapply world_inv_ext; [|done]. set_solver.
    - apply Forall_cons in Hown as [Ht Hown]. eapply (unregister_inv _ _ _ pid (synthetic_path t)) in Hinv; [|apply Ht].
      eapply IH in Hinv; [|done]. eapply world_inv_pending; [|eapply world_inv_ext; [|exact Hinv]]; [set_solver|].
      intros q y. cbn. set_solver. }
  assert (Forall own_target (rev ts)) as Hrev by by apply Forall_rev.
  pose proof (Hunreg (rev ts) registered [] w Hrev Hinv) as H1. rewrite app_nil_r in H1.
  set (w1 := fold_left _ (rev ts) w) in *.
  eapply (world_inv_ext (fun q y => registered q y /\ ~ (q = pid /\ exists t, t ∈ rev ts /\ synthetic_path t = y))).
  { intros q y. setoid_rewrite list_elem_of_In. setoid_rewrite <- in_rev. done. }
  revert H1. generalize w1. set (R := fun q y => _ /\ _).
  assert (forall q y, R q y -> active q = true) as HR by (intros q y [Hq _]; by eapply Hact).
  clearbody R. clear -HR Hrev Hpaths active. induction Hrev as [|t l Ht _ IH]; intros w H1; [done|]. cbn [fold_left map] in *.
  apply IH. by apply cleanup_one_inv.
Qed.
End active.
End restore.

Definition registered_in (s : State) (pid : N) (x : path) : Prop :=
  exists pr t, st_procs s !! pid = Some pr /\ t ∈ pr_synthetic pr /\ synthetic_path t = x.

Section orderly.
Context (files0 : gmap path Metadata) (used : list path) (kind_of : path -> SyntheticMountTargetKind).

(** Steps of helpers whose targets show the files at the moment they are
    registered, which watch no path and end by finishing, while nobody else
    creates files. *)
Definition orderly (s : State) (l : Label) : Prop :=
  match l with
  | Register _ ts => Forall (current_target used kind_of (w_files (st_world s))) ts
  | Protect _ ys => ys = []
  | Exit pid => st_procs s !! pid = None
  | Create _ _ => False
  | Spawn _ | Start _ | Mount _ _ _ | Monitor _ _ _ | Stop _ | Cleanup _ | Finish _ => True
  end.

Record state_inv (s : State) : Prop := {
  si_marked : targets_marked s;
  si_targets : forall pid pr, st_procs s !! pid = Some pr ->
    Forall (own_target files0 used kind_of) (pr_synthetic pr) /\ pr_protected pr = [];
  si_world : world_inv files0 used kind_of (registered_in s) [] (st_world s)
}.

Lemma registered_active s pid x : targets_marked s -> registered_in s pid x -> is_active s pid = true.
Proof. intros Hm (pr & t & Hpr & _). unfold is_active. apply bool_decide_eq_true. by eapply Hm. Qed.

Lemma state_inv_update s q pr w :
  paths_ok files0 used -> state_inv s -> targets_marked (set_proc s w q pr) ->
  Forall (own_target files0 used kind_of) (pr_synthetic pr) -> pr_protected pr = [] ->
  world_inv files0 used kind_of
    (fun p x => p <> q /\ registered_in s p x \/ (p = q /\ exists t, t ∈ pr_synthetic pr /\ synthetic_path t = x)) [] w ->
  state_inv (set_proc s w q pr).
Proof.
  intros Hp Hinv Hm Hown Hprot Hw. split; [done| |].
  - cbn. intros pid pr' [[<- <-]|[_ Hpr]]%lookup_insert_Some; [done|by apply (si_targets s Hinv pid)].
  - eapply world_inv_ext; [|exact Hw]. intros p x. unfold registered_in, set_proc. cbn [st_procs].
    destruct (decide (p = q)) as [->|Hne].
    + rewrite lookup_insert_eq. naive_solver.
    + rewrite lookup_insert_ne by done. naive_solver.
Qed.

(** A step of [q] that changes its phase only. *)
Lemma state_inv_phase s q pr pr' :
  paths_ok files0 used -> state_inv s -> st_procs s !! q = Some pr -> pr_synthetic pr' = pr_synthetic pr ->
  pr_protected pr' = pr_protected pr -> state_inv (set_proc s (st_world s) q pr').
Proof.
  intros Hp Hinv Hpr Hsyn Hprot. destruct (si_targets s Hinv q pr Hpr) as [Hown Hno].
  apply state_inv_update; [done|done|by eapply targets_marked_same; [apply (si_marked s Hinv)|..]|by rewrite Hsyn|congruence|].
  eapply world_inv_ext; [|exact (si_world s Hinv)]. intros p x. cbn. unfold registered_in. rewrite Hsyn.
  destruct (decide (p = q)) as [->|Hne]; [rewrite Hpr|]; naive_solver.
Qed.

Lemma step_orderly s l s' :
  paths_ok files0 used -> cleaned_empty s -> state_inv s -> orderly s l -> step s l = Some s' -> state_inv s'.
Proof.
  intros Hpaths Hcl Hinv Hl Hstep.
  pose proof (step_targets_marked s l s' (si_marked s Hinv) Hstep) as Hm.
  assert (forall pid x, registered_in s pid x -> is_active s pid = true) as Hact
    by (intros pid x; apply registered_active, (si_marked s Hinv)).
  destruct l as [q|q ts|q ys|q|q y m|q y fails|y m|q|q|q|q]; unfold step in Hstep; cbn [orderly] in Hl.
  - case_in Hstep. split; [done|apply (si_targets s Hinv)|apply (si_world s Hinv)].
  - destruct (negb (is_active s q) || _) eqn:Hq in Hstep; [done|]. apply orb_false_iff in Hq as [Hq%negb_false_iff Hfree].
    bool_to_prop. apply eq_None_not_Some in Hfree.
    pose proof (register_all_inv files0 used kind_of Hpaths (is_active s) q ts (registered_in s) (st_world s)
      (si_world s Hinv) Hact Hq Hl) as (Hown & Hf & Hw).
    destruct (register_synthetic_mount_targets _ _ _ _) as [w regs]. injection Hstep as <-. cbn [fst snd] in *.
    apply state_inv_update; [done..|]. eapply world_inv_ext; [|exact Hw]. intros p x. cbn.
    assert (forall x, ~ registered_in s q x) as Hno by (intros x' (pr & t & Hpr & _); congruence).
    split; [intros [Hr|Hr]; [left; split; [intros ->; by eapply Hno|done]|by right]|naive_solver].
  - subst ys. destruct (st_procs s !! q) as [[regs prots [| | | |] v]|] eqn:Hpr; try done. injection Hstep as <-.
    destruct (si_targets s Hinv q _ Hpr) as [_ Hprot]. cbn [pr_protected] in Hprot. subst prots.
    by eapply state_inv_phase.
  - destruct (st_procs s !! q) as [[regs prots [| | | |] v]|] eqn:Hpr; try done. injection Hstep as <-.
    by eapply state_inv_phase.
  - destruct (st_procs s !! q) as [[regs prots [| | | |] v]|] eqn:Hpr; try done. destruct (_ && negb _) eqn:Hc in Hstep; [|done].
    injection Hstep as <-. apply andb_true_iff in Hc as [Hc1 Hc2]. bool_to_prop. apply eq_None_not_Some in Hc2.
    apply existsb_exists in Hc1 as (t & Ht & [Hty Hmp]%andb_true_iff). bool_to_prop. subst y. apply list_elem_of_In in Ht.
    split; [done|apply (si_targets s Hinv)|]. pose proof (si_world s Hinv) as Hw.
    destruct (si_targets s Hinv q _ Hpr) as [Hown _]. rewrite Forall_forall in Hown. destruct (Hown t Ht) as (Hu & Hk & _).
    split; [apply (wi_used _ _ _ _ _ _ Hw)|apply (wi_markers _ _ _ _ _ _ Hw)|apply (wi_keys _ _ _ _ _ _ Hw)|].
    intros y. cbn [st_world w_files]. destruct (decide (y = synthetic_path t)) as [->|Hne].
    + right. rewrite lookup_insert_eq. split_and!; [|done| |].
      * destruct (wi_files _ _ _ _ _ _ Hw (synthetic_path t)) as [E|[? _]]; [congruence|done].
      * left. exists q. by exists (mkProc regs prots Running v), t.
      * exists m. split; [done|]. by rewrite <- Hk.
    + rewrite lookup_insert_ne by done. apply (wi_files _ _ _ _ _ _ Hw).
  - destruct (st_procs s !! q) as [[regs prots [| | | |] v]|] eqn:Hpr; try done.
    destruct (si_targets s Hinv q _ Hpr) as [_ Hprot]. cbn [pr_protected] in Hprot. subst prots.
    rewrite bool_decide_eq_false_2 in Hstep by apply not_elem_of_nil. done.
  - done.
  - destruct (st_procs s !! q) as [[regs prots [| | | |] v]|] eqn:Hpr; try done. injection Hstep as <-.
    by eapply state_inv_phase.
  - destruct (st_procs s !! q) as [[regs prots [| | | |] v]|] eqn:Hpr; try done. injection Hstep as <-.
    destruct (si_targets s Hinv q _ Hpr) as [Hown Hprot].
    apply state_inv_update; [done..|].
    eapply world_inv_ext; [|exact (cleanup_all_inv files0 used kind_of Hpaths (is_active s) _ _ q regs (si_world s Hinv) Hact Hown)].
    intros p x. cbn [pr_synthetic]. split.
    + intros [Hr Hn]. left. split; [|done]. intros ->. apply Hn. split; [done|]. destruct Hr as (pr & t & Hpr' & Ht & <-).
      rewrite Hpr in Hpr'. injection Hpr' as <-. by exists t.
    + intros [[Hne Hr]|(_ & t & Ht & _)]; [split; [done|]; by intros [? _]|by apply elem_of_nil in Ht].
  - destruct (st_procs s !! q) as [[regs prots [| | | |] v]|] eqn:Hpr; try done. injection Hstep as <-.
    destruct (si_targets s Hinv q _ Hpr) as [_ Hprot]. cbn [pr_protected] in Hprot. subst prots.
    pose proof (Hcl q _ Hpr eq_refl) as Hregs. cbn [pr_synthetic] in Hregs. subst regs.
    assert ((if v then st_world s else (cleanup_protected_create_targets (is_active s) q (st_world s) []).1) = st_world s)
      as Hsame by by destruct v. rewrite Hsame in *. split; [done|..].
    + cbn. intros pid pr [_ Hpr']%lookup_delete_Some. by apply (si_targets s Hinv pid).
    + eapply world_inv_ext; [|exact (si_world s Hinv)]. intros p x. unfold registered_in. cbn [st_procs].
      split; intros (pr & t & Hp & Ht & Hx); exists pr, t; split_and!; try done.
      * rewrite lookup_delete_ne; [done|]. intros ->. rewrite Hpr in Hp. injection Hp as <-. by apply elem_of_nil in Ht.
      * by apply lookup_delete_Some in Hp as [_ ?].
  - injection Hstep as <-. rewrite delete_id in * by done. split; [done|apply (si_targets s Hinv)|apply (si_world s Hinv)].
Qed.
End orderly.

(** C17. Helpers that register the files as they are at that moment, in any number
    and any interleaving, and that finish, take nothing away and leave nothing
    behind: at every moment a path that no running helper is mounted over is as
    it was at the start, and once all have finished the registry is empty again.
    The helpers watch nothing, nobody else creates files, every path is mounted
    over with one kind of target only, and of the paths mounted over no two have
    the same hash and none lies below another. *)
Theorem helpers_restore_files (files0 : gmap path Metadata) (used : list path)
    (kind_of : path -> SyntheticMountTargetKind) (s : State) :
  paths_ok files0 used -> reachable (orderly used kind_of) files0 s ->
  (forall y, (forall pid, ~ registered_in s pid y) -> w_files (st_world s) !! y = files0 !! y)
  /\ (st_procs s = ∅ -> w_files (st_world s) = files0 /\ w_markers (st_world s) = ∅).
Proof.
  intros Hpaths Hr.
  assert (state_inv files0 used kind_of s) as Hinv.
  { induction Hr as [|s l s' Hr IH Hl Hstep]; [|by eapply step_orderly; [..|exact Hl|exact Hstep]; [|eapply reachable_cleaned|]]. split.
    - intros pid pr Hpr. cbn in Hpr. by rewrite lookup_empty in Hpr.
    - intros pid pr Hpr. cbn in Hpr. by rewrite lookup_empty in Hpr.
    - assert (forall pid x, ~ registered_in (initial files0) pid x) as Hno
        by (intros pid x (pr & t & Hpr & _); cbn in Hpr; by rewrite lookup_empty in Hpr).
      split; [naive_solver| | |by left].
      + intros x pid m _. unfold marker_dir. cbn. rewrite lookup_empty. split; [intros Hin; by apply elem_of_nil in Hin|naive_solver].
      + intros h d Hd. cbn in Hd. by rewrite lookup_empty in Hd. }
  assert (forall y, (forall pid, ~ registered_in s pid y) -> w_files (st_world s) !! y = files0 !! y) as Hfiles.
  { intros y Hno. destruct (wi_files _ _ _ _ _ _ (si_world _ _ _ _ Hinv) y) as [?|(_ & _ & [[pid Hp]|Hin] & _)];
      [done|by destruct (Hno pid)|by apply elem_of_nil in Hin]. }
  split; [done|]. intros Hempty.
  assert (forall pid y, ~ registered_in s pid y) as Hno
    by (intros pid y (pr & t & Hpr & _); by rewrite Hempty, lookup_empty in Hpr).
  split; [apply map_eq; intros y; by apply Hfiles|]. apply map_eq. intros h. rewrite lookup_empty.
  destruct (w_markers (st_world s) !! h) as [d|] eqn:Hd; [|done]. exfalso.
  destruct (wi_keys _ _ _ _ _ _ (si_world _ _ _ _ Hinv) h d Hd) as (x & Hx & -> & Hp).
  destruct d as [|[pid m] d]; [specialize (Hp eq_refl); by apply elem_of_nil in Hp|].
  apply (Hno pid x). apply (wi_markers _ _ _ _ _ _ (si_world _ _ _ _ Hinv) x pid m Hx).
  unfold marker_dir. rewrite Hd. cbn. set_solver.
Qed.

(** ** Concrete runs *)

(** The state after a list of steps. *)
Fixpoint run_steps (s : State) (ls : list Label) : option State :=
  match ls with
  | [] => Some s
  | l :: ls => s ← step s l; run_steps s ls
  end.
#[export] Instance SyntheticMountTargetKind_eq_dec : EqDecision SyntheticMountTargetKind.
Proof. solve_decision. Defined.
#[export] Instance orderly_dec used kind_of s l : base.Decision (orderly used kind_of s l).
Proof. destruct l; cbn [orderly]; unfold current_target; apply _. Defined.

(** Every step of a run is one the condition allows. *)
Fixpoint all_steps (allowed : State -> Label -> bool) (s : State) (ls : list Label) : bool :=
  match ls with
  | [] => true
  | l :: ls => allowed s l && match step s l with Some s => all_steps allowed s ls | None => true end
  end.
Lemma reachable_run allowed files ls : forall s s',
  reachable (fun s l => allowed s l = true) files s -> run_steps s ls = Some s' -> all_steps allowed s ls = true ->
  reachable (fun s l => allowed s l = true) files s'.
Proof.
  induction ls as [|l ls IH]; intros s s' Hr Hrun Hall; cbn [run_steps all_steps] in *; [by injection Hrun as <-|].
  apply andb_true_iff in Hall as [Hl Hall].
  destruct (step s l) as [s1|] eqn:Hs; [|done]. eapply IH; [|done..]. by econstructor.
Qed.
Lemma reachable_impl (allowed allowed' : State -> Label -> Prop) files s :
  (forall s l, allowed s l -> allowed' s l) -> reachable allowed files s -> reachable allowed' files s.
Proof. intros Himp. induction 1; [constructor|]. econstructor; eauto. Qed.

Definition dot_git : path := components (lit "/a/.git").
Definition dot_env : path := components (lit "/a/.env").
Definition git_dir (ino : N) : Metadata := mkMetadata FtDir 0 1 ino.
Definition sample_files : gmap path Metadata :=
  {[components (lit "/a") := git_dir 1; dot_env := mkMetadata FtFile 0 1 2]}.
Definition sample_kind (p : path) : SyntheticMountTargetKind := if bool_decide (p = dot_git) then EmptyDirectory else EmptyFile.
Definition env_target : SyntheticMountTarget := mkSynthetic dot_env EmptyFile (Some (mkIdentity 1 2)).

(** Two helpers that overlap: the second sees the directory the first created. *)
Definition overlapping : list Label :=
  [Spawn 7; Register 7 [missing_empty_directory dot_git; env_target]; Protect 7 []; Start 7; Mount 7 dot_git (git_dir 3);
   Spawn 8; Register 8 [existing_empty_directory dot_git (git_dir 3)]; Stop 7; Cleanup 7; Finish 7].
Definition second_ends : list Label := [Protect 8 []; Start 8; Stop 8; Cleanup 8; Finish 8].
Definition overlapping_state : State := from_option id (initial sample_files) (run_steps (initial sample_files) overlapping).
Definition finished_state : State := from_option id (initial sample_files) (run_steps overlapping_state second_ends).

Lemma sample_paths_ok : paths_ok sample_files [dot_git; dot_env].
Proof.
  split.
  - intros x y Hx Hy. rewrite !elem_of_cons, elem_of_nil in Hx, Hy.
    destruct Hx as [->|[->|[]]], Hy as [->|[->|[]]]; intros Hh; try exact eq_refl; exfalso; revert Hh; vm_compute; discriminate.
  - intros x y Hx Hy. rewrite !elem_of_cons, elem_of_nil in Hx, Hy.
    destruct Hx as [->|[->|[]]], Hy as [->|[->|[]]]; intros Hh; try exact eq_refl; exfalso; revert Hh; vm_compute; discriminate.
  - intros x q Hx H0 Hq. destruct (sample_files !! q) as [m|] eqn:Hm; [|done]. exfalso. unfold sample_files in Hm.
    rewrite !elem_of_cons, elem_of_nil in Hx.
    apply lookup_insert_Some in Hm as [[<- _]|[_ Hm]]; [|apply lookup_singleton_Some in Hm as [<- _]].
    all: destruct Hx as [->|[->|[]]]; vm_compute in H0, Hq; done.
Qed.

Definition before_cleanup : State := from_option id (initial sample_files) (run_steps (initial sample_files) (take 8 overlapping)).


Lemma helpers_restore_files_witness :
  w_files (st_world overlapping_state) !! dot_git = Some (git_dir 3)
  /\ w_files (st_world finished_state) = sample_files /\ w_markers (st_world finished_state) = ∅.
Proof.
  split; [vm_compute; reflexivity|].
  apply (helpers_restore_files sample_files [dot_git; dot_env] sample_kind finished_state);
    [apply sample_paths_ok| |vm_compute; reflexivity].
  apply (reachable_impl (fun s l => bool_decide (orderly [dot_git; dot_env] sample_kind s l) = true));
    [intros s l Hl; by apply bool_decide_eq_true in Hl|].
  apply (reachable_run _ _ (overlapping ++ second_ends) (initial sample_files)); [constructor|vm_compute; reflexivity..].
Defined.

(** A helper looks at the files before it takes the lock.  When the directory it
    saw is gone by the time it registers, it becomes the one that creates it,
    and its marker does not say so: a later helper takes the directory for one
    of the workspace, and the last to finish leaves it behind. *)
Definition late_registration : list Label :=
  [Spawn 7; Register 7 [missing_empty_directory dot_git]; Protect 7 []; Start 7; Mount 7 dot_git (git_dir 3);
   Spawn 8; Stop 7; Cleanup 7; Finish 7;
   Register 8 [existing_empty_directory dot_git (git_dir 3)]; Protect 8 []; Start 8; Mount 8 dot_git (git_dir 4);
   Spawn 9; Register 9 [existing_empty_directory dot_git (git_dir 4)]; Stop 8; Cleanup 8; Finish 8;
   Protect 9 []; Start 9; Stop 9; Cleanup 9; Finish 9].
Example late_registration_leaves_mount_point :
  exists s, run_steps (initial sample_files) late_registration = Some s
    /\ st_procs s = ∅ /\ sample_files !! dot_git = None /\ w_files (st_world s) !! dot_git = Some (git_dir 4).
Proof. eexists. split; [vm_compute; reflexivity|]. vm_compute. by split_and!. Qed.

(** Two helpers that mount a file and a directory over the same missing path:
    the last to finish does not recognise what the first created. *)
Example two_kinds_leave_mount_point :
  exists s, run_steps (initial sample_files)
      [Spawn 7; Register 7 [synthetic_missing dot_git]; Protect 7 []; Start 7;
       Spawn 8; Register 8 [missing_empty_directory dot_git]; Protect 8 []; Start 8;
       Mount 7 dot_git (mkMetadata FtFile 0 1 3); Stop 7; Cleanup 7; Finish 7; Stop 8; Cleanup 8; Finish 8] = Some s
    /\ st_procs s = ∅ /\ sample_files !! dot_git = None /\ is_Some (w_files (st_world s) !! dot_git).
Proof. eexists. split; [vm_compute; reflexivity|]. vm_compute. split_and!; [done..|]. by eexists. Qed.

(** The monitor of a helper that watches [.git] removes the mount point another
    helper has created there, and reports it as a violation of its own command;
    having seen one, the helper leaves its markers in the registry. *)
Definition watched_mount : list Label :=
  [Spawn 7; Register 7 []; Protect 7 [dot_git]; Start 7;
   Spawn 8; Register 8 [missing_empty_directory dot_git]; Protect 8 []; Start 8; Mount 8 dot_git (git_dir 3);
   Monitor 7 dot_git false].
Example monitor_removes_registered_mount_point :
  exists s s', run_steps (initial sample_files) watched_mount = Some s
    /\ w_files (st_world s) !! dot_git = None
    /\ (pr_violation <$> st_procs s !! 7%N) = Some true
    /\ (exists pr, st_procs s !! 8%N = Some pr /\ pr_synthetic pr = [missing_empty_directory dot_git])
    /\ run_steps s [Stop 8; Cleanup 8; Finish 8; Stop 7; Cleanup 7; Finish 7] = Some s'
    /\ st_procs s' = ∅ /\ marker_dir (st_world s') dot_git = [(7%N, MarkerProtectedCreate)].
Proof.
  eexists _, _. split; [vm_compute; reflexivity|]. split; [vm_compute; reflexivity|]. split; [vm_compute; reflexivity|].
  split; [eexists; split; vm_compute; reflexivity|]. split; [vm_compute; reflexivity|]. split; vm_compute; reflexivity.
Qed.
