(* ===== verification/IpAddr.v ===== *)
(** * IP addresses: [std::net] and the classification of network-proxy

    The network policy decides on host names and on IP literals.  This file has the
    part of [std::net] it uses, the parser of [IpAddr] (a dotted quad, or IPv6 with
    [::] and an embedded quad) and the predicates of [Ipv4Addr] and [Ipv6Addr], and on
    top of it [is_non_public_ip] of network-proxy/src/policy.rs, which keeps requests
    away from loopback, private and reserved networks.  [ipv4_in_cidr] works with bit
    masks; [non_public_ipv4_ranges] says which intervals of addresses the whole
    predicate covers, and [parse_ipv4_iff] that an IPv4 literal has one spelling. *)

From stdpp Require Import base numbers list strings.
From Stdlib Require Import Lia NArith.
From S2P Require Import Prelude.

(** ** Addresses *)

(** [Ipv4Addr]: its four octets. *)
Record Ipv4Addr : Type := mkV4 { octet1 : N; octet2 : N; octet3 : N; octet4 : N }.

(** [Ipv6Addr]: its eight 16-bit segments. *)
Record Ipv6Addr : Type := mkV6 { segments : list N }.

Inductive IpAddr : Type :=
| V4 (ip : Ipv4Addr)
| V6 (ip : Ipv6Addr).

#[export] Instance Ipv4Addr_eq_dec : EqDecision Ipv4Addr.
Proof. solve_decision. Defined.
#[export] Instance Ipv6Addr_eq_dec : EqDecision Ipv6Addr.
Proof. solve_decision. Defined.
#[export] Instance IpAddr_eq_dec : EqDecision IpAddr.
Proof. solve_decision. Defined.

Definition octets_ok (ip : Ipv4Addr) : Prop :=
  (octet1 ip < 256 /\ octet2 ip < 256 /\ octet3 ip < 256 /\ octet4 ip < 256)%N.

(** ** The parser of [std::net]

    A reader takes the input and returns a value with what is left of it; a reader
    that fails leaves the input as it was ([read_atomically]), which [None] stands for. *)

Definition COLON : char := 58%N.
Definition DOT : char := 46%N.

(** [char::to_digit]. *)
Definition to_digit (radix : N) (c : char) : option N :=
  let d := if is_ascii_digit c then Some (c - 48)%N
           else if is_ascii_lowercase c then Some (c - 87)%N
           else if is_ascii_uppercase c then Some (c - 55)%N
           else None in
  match d with
  | Some d => if (d <? radix)%N then Some d else None
  | None => None
  end.

(** The digits of a number, at most [max_digits] of them. *)
Fixpoint read_digits (radix : N) (max_digits : nat) (result : N) (digit_count : nat) (p : str) :
    option (N * nat * str) :=
  match p with
  | [] => Some (result, digit_count, [])
  | c :: p' =>
      match to_digit radix c with
      | None => Some (result, digit_count, p)
      | Some d =>
          if (max_digits <? S digit_count)%nat then None
          else read_digits radix max_digits (result * radix + d)%N (S digit_count) p'
      end
  end.

(** [Parser::read_number] into an integer of at most [max]. *)
Definition read_number (radix max : N) (max_digits : nat) (allow_zero_prefix : bool) (p : str) :
    option (N * str) :=
  let has_leading_zero := bool_decide (head p = Some 48%N) in
  match read_digits radix max_digits 0%N 0 p with
  | None => None
  | Some (result, digit_count, p') =>
      if (digit_count =? 0)%nat then None
      else if negb allow_zero_prefix && has_leading_zero && (1 <? digit_count)%nat then None
      else if (result <=? max)%N then Some (result, p')
      else None
  end.

Definition read_given_char (c : char) (p : str) : option str :=
  match p with
  | c' :: p' => if (c' =? c)%N then Some p' else None
  | [] => None
  end.

(** [Parser::read_separator]: the separator is read before all but the first element. *)
Definition read_separator {A} (sep : char) (index : nat) (inner : str -> option (A * str)) (p : str) :
    option (A * str) :=
  if (0 <? index)%nat then p' ← read_given_char sep p; inner p' else inner p.

Definition read_octet (index : nat) : str -> option (N * str) :=
  read_separator DOT index (read_number 10 255 3 false).

Definition read_ipv4_addr (p : str) : option (Ipv4Addr * str) :=
  '(a, p) ← read_octet 0 p;
  '(b, p) ← read_octet 1 p;
  '(c, p) ← read_octet 2 p;
  '(d, p) ← read_octet 3 p;
  Some (mkV4 a b c d, p).

(** The loop of [read_groups] from group [i] on, [left] groups before the limit: the
    groups read, whether the last two came from an embedded quad, and the rest. *)
Fixpoint read_groups (left : nat) (i : nat) (p : str) : list N * bool * str :=
  match left with
  | O => ([], false, p)
  | S left' =>
      let group :=
        match read_separator COLON i (read_number 16 65535 4 true) p with
        | Some (g, p') => let '(gs, v4, p'') := read_groups left' (S i) p' in (g :: gs, v4, p'')
        | None => ([], false, p)
        end in
      if (0 <? left')%nat then
        match read_separator COLON i read_ipv4_addr p with
        | Some (ip, p') =>
            ([(octet1 ip * 256 + octet2 ip)%N; (octet3 ip * 256 + octet4 ip)%N], true, p')
        | None => group
        end
      else group
  end.

Definition read_ipv6_addr (p : str) : option (Ipv6Addr * str) :=
  let '(front, head_ipv4, p) := read_groups 8 0 p in
  if (length front =? 8)%nat then Some (mkV6 front, p)
  else if head_ipv4 then None
  else
    p ← read_given_char COLON p;
    p ← read_given_char COLON p;
    let '(back, _, p) := read_groups (8 - (length front + 1)) 0 p in
    Some (mkV6 (front ++ replicate (8 - length front - length back) 0%N ++ back), p).

(** [<IpAddr as FromStr>::from_str]. *)
Definition parse_ip (s : str) : option IpAddr :=
  let parsed :=
    match read_ipv4_addr s with
    | Some (ip, p) => Some (V4 ip, p)
    | None => match read_ipv6_addr s with
              | Some (ip, p) => Some (V6 ip, p)
              | None => None
              end
    end in
  match parsed with
  | Some (ip, []) => Some ip
  | _ => None
  end.

(** ** Predicates of [std::net] *)

Definition v4_is_loopback (ip : Ipv4Addr) : bool := (octet1 ip =? 127)%N.
Definition v4_is_private (ip : Ipv4Addr) : bool :=
  ((octet1 ip =? 10) || ((octet1 ip =? 172) && (16 <=? octet2 ip) && (octet2 ip <=? 31))
   || ((octet1 ip =? 192) && (octet2 ip =? 168)))%N.
Definition v4_is_link_local (ip : Ipv4Addr) : bool := ((octet1 ip =? 169) && (octet2 ip =? 254))%N.
Definition v4_is_unspecified (ip : Ipv4Addr) : bool := ip =s? mkV4 0 0 0 0.
Definition v4_is_multicast (ip : Ipv4Addr) : bool := ((224 <=? octet1 ip) && (octet1 ip <=? 239))%N.
Definition v4_is_broadcast (ip : Ipv4Addr) : bool := ip =s? mkV4 255 255 255 255.

Definition segment0 (ip : Ipv6Addr) : N := from_option id 0%N (head (segments ip)).
Definition v6_is_loopback (ip : Ipv6Addr) : bool := segments ip =s? [0; 0; 0; 0; 0; 0; 0; 1]%N.
Definition v6_is_unspecified (ip : Ipv6Addr) : bool := segments ip =s? replicate 8 0%N.
Definition v6_is_multicast (ip : Ipv6Addr) : bool := (N.land (segment0 ip) 0xff00 =? 0xff00)%N.
Definition v6_is_unique_local (ip : Ipv6Addr) : bool := (N.land (segment0 ip) 0xfe00 =? 0xfc00)%N.
Definition v6_is_unicast_link_local (ip : Ipv6Addr) : bool :=
  (N.land (segment0 ip) 0xffc0 =? 0xfe80)%N.

(** [Ipv6Addr::to_ipv4]: compatible and mapped addresses. *)
Definition to_ipv4 (ip : Ipv6Addr) : option Ipv4Addr :=
  match segments ip with
  | [s0; s1; s2; s3; s4; s5; ab; cd] =>
      if ((s0 =? 0) && (s1 =? 0) && (s2 =? 0) && (s3 =? 0) && (s4 =? 0)
          && ((s5 =? 0) || (s5 =? 0xffff)))%N
      then Some (mkV4 (ab / 256) (ab mod 256) (cd / 256) (cd mod 256))
      else None
  | _ => None
  end.

Definition is_loopback (ip : IpAddr) : bool :=
  match ip with V4 ip => v4_is_loopback ip | V6 ip => v6_is_loopback ip end.

(** ** Non-public addresses *)

Definition u32_max : N := 4294967295%N.

(** [u32::from(Ipv4Addr)]. *)
Definition u32_of (ip : Ipv4Addr) : N :=
  (((octet1 ip * 256 + octet2 ip) * 256 + octet3 ip) * 256 + octet4 ip)%N.

(** [u32::MAX << n], which drops what leaves the 32 bits. *)
Definition u32_shl_max (n : N) : N := (N.shiftl u32_max n mod 2 ^ 32)%N.

Definition ipv4_in_cidr (ip base : Ipv4Addr) (prefix : N) : bool :=
  let mask := if (prefix =? 0)%N then 0%N else u32_shl_max (32 - prefix) in
  (N.land (u32_of ip) mask =? N.land (u32_of base) mask)%N.

Definition is_non_public_ipv4 (ip : Ipv4Addr) : bool :=
  v4_is_loopback ip || v4_is_private ip || v4_is_link_local ip || v4_is_unspecified ip
  || v4_is_multicast ip || v4_is_broadcast ip
  || ipv4_in_cidr ip (mkV4 0 0 0 0) 8
  || ipv4_in_cidr ip (mkV4 100 64 0 0) 10
  || ipv4_in_cidr ip (mkV4 192 0 0 0) 24
  || ipv4_in_cidr ip (mkV4 192 0 2 0) 24
  || ipv4_in_cidr ip (mkV4 198 18 0 0) 15
  || ipv4_in_cidr ip (mkV4 198 51 100 0) 24
  || ipv4_in_cidr ip (mkV4 203 0 113 0) 24
  || ipv4_in_cidr ip (mkV4 240 0 0 0) 4.

Definition is_non_public_ipv6 (ip : Ipv6Addr) : bool :=
  match to_ipv4 ip with
  | Some v4 => is_non_public_ipv4 v4 || v6_is_loopback ip
  | None =>
      v6_is_loopback ip || v6_is_unspecified ip || v6_is_multicast ip || v6_is_unique_local ip
      || v6_is_unicast_link_local ip
  end.

Definition is_non_public_ip (ip : IpAddr) : bool :=
  match ip with V4 ip => is_non_public_ipv4 ip | V6 ip => is_non_public_ipv6 ip end.

(** ** Examples *)

Example parse_ip_examples :
  map parse_ip (map lit ["127.0.0.1"; "::1"; "::ffff:10.0.0.1"; "2001:db8::1"; "1:2:3:4:5:6:7:8"; "::"])
  = [Some (V4 (mkV4 127 0 0 1)); Some (V6 (mkV6 [0; 0; 0; 0; 0; 0; 0; 1]));
     Some (V6 (mkV6 [0; 0; 0; 0; 0; 0xffff; 0x0a00; 1])); Some (V6 (mkV6 [0x2001; 0xdb8; 0; 0; 0; 0; 0; 1]));
     Some (V6 (mkV6 [1; 2; 3; 4; 5; 6; 7; 8])); Some (V6 (mkV6 (replicate 8 0%N)))]%N.
Proof. vm_compute. reflexivity. Qed.

Example parse_ip_rejects :
  Forall (fun s => parse_ip (lit s) = None)
    ["127.1"; "0127.0.0.1"; "256.0.0.1"; "1.2.3.4.5"; "localhost"; "1:2:3:4:5:6:7"; "1::2::3"; "::1%lo"; "";
     "1:2:3:4:5:6:7:8:9"; "12345::"; "1.2.3.4::"; ":1"; "0x7f.0.0.1"]%string.
Proof. repeat constructor. Qed.

(** ** Masks *)

Lemma u32_shl_max_ones (p : N) : (0 < p <= 32)%N -> u32_shl_max (32 - p) = N.shiftl (N.ones p) (32 - p).
Proof.
  intros Hp. unfold u32_shl_max. change u32_max with (N.ones 32).
  rewrite <- (N.land_ones _ 32). apply N.bits_inj. intros i.
  rewrite N.land_spec. destruct (N.lt_ge_cases i (32 - p)) as [Hi|Hi].
  - rewrite !N.shiftl_spec_low by lia. done.
  - rewrite !N.shiftl_spec_high' by lia.
    destruct (N.lt_ge_cases i 32) as [Hj|Hj].
    + rewrite !N.ones_spec_low by lia. done.
    + rewrite (N.ones_spec_high 32 i), (N.ones_spec_high p) by lia. by rewrite andb_false_r.
Qed.

(** Masking an address keeps its first [p] bits. *)
Lemma land_prefix_mask (n p : N) :
  (n < 2 ^ 32)%N -> (0 < p <= 32)%N ->
  N.land n (N.shiftl (N.ones p) (32 - p)) = (n / 2 ^ (32 - p) * 2 ^ (32 - p))%N.
Proof.
  intros Hn Hp. rewrite <- N.shiftl_mul_pow2, <- N.shiftr_div_pow2.
  apply N.bits_inj. intros i. rewrite N.land_spec.
  destruct (N.lt_ge_cases i (32 - p)) as [Hi|Hi].
  - rewrite !N.shiftl_spec_low by lia. by rewrite andb_false_r.
  - rewrite !N.shiftl_spec_high', N.shiftr_spec' by lia. rewrite N.sub_add by lia.
    destruct (N.lt_ge_cases i 32) as [Hj|Hj].
    + rewrite N.ones_spec_low by lia. by rewrite andb_true_r.
    + rewrite N.ones_spec_high by lia. rewrite andb_false_r. symmetry. destruct (N.eq_dec n 0%N) as [->|Hz].
      { by rewrite N.bits_0. }
      apply N.bits_above_log2. apply N.log2_lt_pow2; [lia|].
      eapply N.lt_le_trans; [exact Hn|]. apply N.pow_le_mono_r; lia.
Qed.

Lemma u32_of_bound (ip : Ipv4Addr) : octets_ok ip -> (u32_of ip < 2 ^ 32)%N.
Proof. intros (? & ? & ? & ?). unfold u32_of. change (2 ^ 32)%N with 4294967296%N. lia. Qed.

(** A CIDR test compares the network parts. *)
Lemma ipv4_in_cidr_spec (ip base : Ipv4Addr) (p : N) :
  octets_ok ip -> octets_ok base -> (p <= 32)%N ->
  ipv4_in_cidr ip base p = (u32_of ip / 2 ^ (32 - p) =? u32_of base / 2 ^ (32 - p))%N.
Proof.
  intros Hip Hb Hp. apply u32_of_bound in Hip, Hb. unfold ipv4_in_cidr. case_goal; bool_to_prop.
  - subst p. rewrite !N.land_0_r. change (32 - 0)%N with 32%N.
    by rewrite !N.div_small by lia.
  - rewrite u32_shl_max_ones, !land_prefix_mask by lia.
    apply eq_true_iff_eq. rewrite !N.eqb_eq. split; [|by intros ->].
    apply N.mul_reg_r, N.pow_nonzero. lia.
Qed.

(** The special-purpose ranges of IPv4, first and last address of each. *)
Definition non_public_ranges : list (Ipv4Addr * Ipv4Addr) :=
  [(mkV4 0 0 0 0, mkV4 0 255 255 255); (mkV4 10 0 0 0, mkV4 10 255 255 255);
   (mkV4 100 64 0 0, mkV4 100 127 255 255); (mkV4 127 0 0 0, mkV4 127 255 255 255);
   (mkV4 169 254 0 0, mkV4 169 254 255 255); (mkV4 172 16 0 0, mkV4 172 31 255 255);
   (mkV4 192 0 0 0, mkV4 192 0 0 255); (mkV4 192 0 2 0, mkV4 192 0 2 255);
   (mkV4 192 168 0 0, mkV4 192 168 255 255); (mkV4 198 18 0 0, mkV4 198 19 255 255);
   (mkV4 198 51 100 0, mkV4 198 51 100 255); (mkV4 203 0 113 0, mkV4 203 0 113 255);
   (mkV4 224 0 0 0, mkV4 255 255 255 255)]%N.

Definition in_range (ip : Ipv4Addr) (r : Ipv4Addr * Ipv4Addr) : bool :=
  ((u32_of r.1 <=? u32_of ip) && (u32_of ip <=? u32_of r.2))%N.

Lemma in_range_cidr (ip base last : Ipv4Addr) (p : N) :
  octets_ok ip -> octets_ok base -> (p <= 32)%N ->
  u32_of base = (u32_of base / 2 ^ (32 - p) * 2 ^ (32 - p))%N ->
  u32_of last = (u32_of base + 2 ^ (32 - p) - 1)%N ->
  ipv4_in_cidr ip base p = in_range ip (base, last).
Proof.
  intros Hip Hb Hp Hbase Hlast. rewrite ipv4_in_cidr_spec by done. unfold in_range. cbn [fst snd].
  rewrite Hlast. set (w := (2 ^ (32 - p))%N) in *.
  assert (0 < w)%N by (apply N.neq_0_lt_0, N.pow_nonzero; lia).
  apply eq_true_iff_eq. rewrite andb_true_iff, N.eqb_eq, !N.leb_le.
  pose proof (N.div_mod' (u32_of ip) w) as Hdm. pose proof (N.mod_lt (u32_of ip) w ltac:(lia)).
  set (q := (u32_of ip / w)%N) in *. set (b := (u32_of base / w)%N) in *.
  set (r := (u32_of ip mod w)%N) in *. clearbody q b r w. clear Hip Hb Hlast.
  split; [intros ->; lia|intros [H1 H2]].
  apply N.le_antisymm; apply N.nlt_ge; intros Hlt.
  - assert ((b + 1) * w <= q * w)%N by (apply N.mul_le_mono_r; lia). lia.
  - assert ((q + 1) * w <= b * w)%N by (apply N.mul_le_mono_r; lia). lia.
Qed.

Ltac octet_range :=
  unfold in_range, u32_of; intros (? & ? & ? & ?); cbn [fst snd octet1 octet2 octet3 octet4];
  apply eq_true_iff_eq; rewrite ?orb_true_iff, ?andb_true_iff, ?N.eqb_eq, ?N.leb_le; lia.

(** The predicates of the standard library as ranges. *)
Lemma loopback_range ip : octets_ok ip -> v4_is_loopback ip = in_range ip (mkV4 127 0 0 0, mkV4 127 255 255 255).
Proof. unfold v4_is_loopback. octet_range. Qed.
Lemma private_range ip :
  octets_ok ip ->
  v4_is_private ip = in_range ip (mkV4 10 0 0 0, mkV4 10 255 255 255)
                     || in_range ip (mkV4 172 16 0 0, mkV4 172 31 255 255)
                     || in_range ip (mkV4 192 168 0 0, mkV4 192 168 255 255).
Proof. unfold v4_is_private. octet_range. Qed.
Lemma link_local_range ip :
  octets_ok ip -> v4_is_link_local ip = in_range ip (mkV4 169 254 0 0, mkV4 169 254 255 255).
Proof. unfold v4_is_link_local. octet_range. Qed.
Lemma multicast_range ip :
  octets_ok ip -> v4_is_multicast ip = in_range ip (mkV4 224 0 0 0, mkV4 239 255 255 255).
Proof. unfold v4_is_multicast. octet_range. Qed.
Lemma high_range ip :
  octets_ok ip ->
  in_range ip (mkV4 224 0 0 0, mkV4 255 255 255 255)
  = in_range ip (mkV4 224 0 0 0, mkV4 239 255 255 255) || in_range ip (mkV4 240 0 0 0, mkV4 255 255 255 255).
Proof. octet_range. Qed.
Lemma unspecified_range ip :
  v4_is_unspecified ip = true -> in_range ip (mkV4 0 0 0 0, mkV4 0 255 255 255) = true.
Proof. unfold v4_is_unspecified. intros H. bool_to_prop. by subst. Qed.
Lemma broadcast_range ip :
  v4_is_broadcast ip = true -> in_range ip (mkV4 240 0 0 0, mkV4 255 255 255 255) = true.
Proof. unfold v4_is_broadcast. intros H. bool_to_prop. by subst. Qed.

(** The bit masks of [ipv4_in_cidr] and the predicates of [Ipv4Addr] classify an address
    as non-public exactly when it lies in one of the intervals of [non_public_ranges]. *)
Theorem non_public_ipv4_ranges (ip : Ipv4Addr) :
  octets_ok ip -> is_non_public_ipv4 ip = existsb (in_range ip) non_public_ranges.
Proof.
  intros Hip. unfold is_non_public_ipv4.
  rewrite (in_range_cidr ip (mkV4 0 0 0 0) (mkV4 0 255 255 255) 8),
    (in_range_cidr ip (mkV4 100 64 0 0) (mkV4 100 127 255 255) 10),
    (in_range_cidr ip (mkV4 192 0 0 0) (mkV4 192 0 0 255) 24),
    (in_range_cidr ip (mkV4 192 0 2 0) (mkV4 192 0 2 255) 24),
    (in_range_cidr ip (mkV4 198 18 0 0) (mkV4 198 19 255 255) 15),
    (in_range_cidr ip (mkV4 198 51 100 0) (mkV4 198 51 100 255) 24),
    (in_range_cidr ip (mkV4 203 0 113 0) (mkV4 203 0 113 255) 24),
    (in_range_cidr ip (mkV4 240 0 0 0) (mkV4 255 255 255 255) 4)
    by first [exact Hip | split_and!; vm_compute; reflexivity | vm_compute; (reflexivity || discriminate)].
  rewrite (loopback_range ip), (private_range ip), (link_local_range ip), (multicast_range ip) by done.
  pose proof (unspecified_range ip). pose proof (broadcast_range ip).
  apply eq_true_iff_eq. unfold non_public_ranges. cbn [existsb].
  rewrite (high_range ip), orb_false_r by done. rewrite !orb_true_iff. tauto.
Qed.

(** ** The spelling of an IPv4 address *)

(** [<Ipv4Addr as Display>::fmt]. *)
Definition show_ipv4 (ip : Ipv4Addr) : str :=
  show_N (octet1 ip) ++ DOT :: show_N (octet2 ip) ++ DOT :: show_N (octet3 ip) ++ DOT :: show_N (octet4 ip).

Definition numbers_from (lo len : nat) : list N := N.of_nat <$> seq lo len.
Definition decimal_digits : str := numbers_from 48 10.
Definition bytes : list N := numbers_from 0 256.

Lemma elem_of_numbers_from (lo len : nat) (n : N) :
  n ∈ numbers_from lo len <-> (N.of_nat lo <= n < N.of_nat (lo + len))%N.
Proof.
  unfold numbers_from. rewrite list_elem_of_fmap. setoid_rewrite elem_of_seq. split.
  - intros (k & -> & ?). lia.
  - intros ?. exists (N.to_nat n). lia.
Qed.

Definition stops (p : str) : Prop := forall c, head p = Some c -> to_digit 10 c = None.

Lemma to_digit_decimal (c d : N) : to_digit 10 c = Some d -> c ∈ decimal_digits.
Proof.
  unfold to_digit, decimal_digits. intros H. apply elem_of_numbers_from.
  unfold is_ascii_digit, is_ascii_lowercase, is_ascii_uppercase in H.
  destruct (_ && (c <=? 57)%N) eqn:?; [bool_to_prop; lia|].
  destruct (_ && (c <=? 122)%N) eqn:?; [|destruct (_ && (c <=? 90)%N) eqn:?; [|done]];
    case_in H; bool_to_prop; lia.
Qed.

Lemma decimal_digit_ok (c : N) : c ∈ decimal_digits -> to_digit 10 c = Some (c - 48)%N.
Proof.
  intros H. apply elem_of_numbers_from in H. unfold to_digit, is_ascii_digit.
  assert (((48 <=? c) && (c <=? 57))%N = true) as -> by (rewrite andb_true_iff, !N.leb_le; lia).
  assert ((c - 48 <? 10)%N = true) as -> by (apply N.ltb_lt; lia). done.
Qed.

(** Reading stops where the digits do. *)
Lemma read_digits_app (ds p : str) (r : N) (k : nat) :
  Forall (fun c => c ∈ decimal_digits) ds -> stops p -> (k + length ds <= 3)%nat ->
  read_digits 10 3 r k (ds ++ p)
  = Some (fold_left (fun r c => r * 10 + (c - 48))%N ds r, (k + length ds)%nat, p).
Proof.
  intros Hds Hp. revert r k. induction Hds as [|c ds Hc _ IH]; intros r k Hk; cbn [app length fold_left] in *.
  - rewrite Nat.add_0_r. destruct p as [|c p]; [done|]. cbn [read_digits]. by rewrite (Hp c).
  - cbn [read_digits]. rewrite (decimal_digit_ok c) by done.
    replace (3 <? S k)%nat with false by (symmetry; apply Nat.ltb_ge; lia).
    rewrite IH by lia. by rewrite Nat.add_succ_comm.
Qed.

Lemma read_digits_inv (p p' : str) (r r' : N) (k k' : nat) :
  read_digits 10 3 r k p = Some (r', k', p') ->
  exists ds, p = ds ++ p' /\ Forall (fun c => c ∈ decimal_digits) ds /\ stops p' /\
             k' = (k + length ds)%nat /\ (k' <= max k 3)%nat.
Proof.
  revert r k. induction p as [|c p IH]; intros r k; cbn [read_digits]; intros H.
  { simplify_eq. exists []. split_and!; [done|constructor|intros c; done|cbn; lia|lia]. }
  case_in H.
  - case_in H. bool_to_prop. apply IH in H as (ds & -> & Hds & Hst & -> & Hk).
    apply Nat.ltb_ge in Heqb.
    exists (c :: ds). split_and!; [done| |done|cbn; lia|lia].
    constructor; [by eapply to_digit_decimal|done].
  - exists []. split_and!; [done|constructor| |cbn; lia|lia]. intros c' [= <-]. done.
Qed.

(** The numbers of up to three digits, checked one by one: an octet is read from its
    decimal rendering, and from nothing else. *)
Definition octet_of (ds : str) : option N :=
  match read_number 10 255 3 false ds with Some (n, []) => Some n | _ => None end.

Definition digit_strings : list str :=
  ((fun c => [c]) <$> decimal_digits)
  ++ (c ← decimal_digits; d ← decimal_digits; [[c; d]])
  ++ (c ← decimal_digits; d ← decimal_digits; e ← decimal_digits; [[c; d; e]]).

Lemma digit_strings_canonical :
  forallb (fun ds => match octet_of ds with Some n => show_N n =s? ds | None => true end) digit_strings = true.
Proof. vm_compute. reflexivity. Qed.

Lemma octets_read :
  forallb (fun n => bool_decide (octet_of (show_N n) = Some n)
                    && forallb (fun c => bool_decide (c ∈ decimal_digits)) (show_N n)
                    && (length (show_N n) <=? 3)%nat) bytes = true.
Proof. vm_compute. reflexivity. Qed.

Lemma digit_strings_elem (ds : str) :
  Forall (fun c => c ∈ decimal_digits) ds -> (0 < length ds <= 3)%nat -> ds ∈ digit_strings.
Proof.
  intros Hds Hlen. unfold digit_strings. rewrite !elem_of_app, list_elem_of_fmap.
  destruct ds as [|a [|b [|c [|? ?]]]]; cbn in Hlen; try lia;
    repeat match goal with H : Forall _ (_ :: _) |- _ => apply Forall_cons in H as [? ?] end.
  - left. by exists a.
  - right; left. apply list_elem_of_bind. exists a. split; [|done].
    apply list_elem_of_bind. exists b. split; [|done]. by apply list_elem_of_singleton.
  - right; right. apply list_elem_of_bind. exists a. split; [|done].
    apply list_elem_of_bind. exists b. split; [|done].
    apply list_elem_of_bind. exists c. split; [|done]. by apply list_elem_of_singleton.
Qed.

Lemma read_number_stops (ds p : str) :
  Forall (fun c => c ∈ decimal_digits) ds -> (0 < length ds <= 3)%nat -> stops p ->
  read_number 10 255 3 false (ds ++ p) = (fun n => (n, p)) <$> octet_of ds.
Proof.
  intros Hds Hlen Hp. unfold octet_of, read_number.
  rewrite (read_digits_app ds p) by (done || lia).
  pose proof (read_digits_app ds [] 0%N 0 Hds ltac:(done) ltac:(lia)) as He.
  rewrite app_nil_r in He. rewrite He.
  destruct ds as [|c ds]; [cbn in Hlen; lia|]. cbn [head app]. repeat case_goal; done.
Qed.

(** An octet is read exactly from its decimal rendering. *)
Lemma read_number_iff (p p' : str) (n : N) :
  read_number 10 255 3 false p = Some (n, p') <-> (n < 256)%N /\ p = show_N n ++ p' /\ stops p'.
Proof.
  split.
  - intros H. pose proof H as H'. unfold read_number in H'. case_in H'.
    destruct p0 as [[r k] q]. apply read_digits_inv in Heqo as (ds & -> & Hds & Hst & Hk & Hle).
    repeat case_in H'; try done. apply Nat.eqb_neq in Heqb. bool_to_prop.
    assert (0 < length ds <= 3)%nat by lia.
    rewrite read_number_stops in H by done. destruct (octet_of ds) as [m|] eqn:Ho; [|done]. cbn in H. simplify_eq.
    split; [lia|]. split; [|done]. f_equal.
    pose proof digit_strings_canonical as Hc. rewrite forallb_forall in Hc.
    specialize (Hc ds). rewrite <- list_elem_of_In in Hc. specialize (Hc (digit_strings_elem ds Hds ltac:(lia))).
    rewrite Ho in Hc. by bool_to_prop.
  - intros (Hn & -> & Hp). pose proof octets_read as Hc. rewrite forallb_forall in Hc.
    specialize (Hc n). rewrite <- list_elem_of_In in Hc.
    specialize (Hc ltac:(apply elem_of_numbers_from; lia)).
    apply andb_true_iff in Hc as [[Ho Hd]%andb_true_iff Hl%Nat.leb_le]. rewrite forallb_forall in Hd. bool_to_prop.
    rewrite read_number_stops; [by rewrite Ho| | |done].
    + apply Forall_forall. intros c Hin%list_elem_of_In. apply Hd in Hin. by bool_to_prop.
    + split; [|done]. destruct (show_N n); [done|cbn; lia].
Qed.

Lemma stops_dot (p : str) : stops (DOT :: p).
Proof. intros c [= <-]. reflexivity. Qed.
Lemma stops_nil : stops [].
Proof. intros c. done. Qed.

Lemma read_octet_iff (i : nat) (p p' : str) (n : N) :
  read_octet (S i) p = Some (n, p') <-> (n < 256)%N /\ p = DOT :: show_N n ++ p' /\ stops p'.
Proof.
  unfold read_octet, read_separator, read_given_char. cbn. destruct p as [|c p].
  { split; [done|]. intros (_ & ? & _). done. }
  destruct (N.eqb_spec c DOT) as [->|Hc]; cbn.
  - rewrite read_number_iff. naive_solver.
  - split; [done|]. intros (_ & ? & _). naive_solver.
Qed.

Lemma read_ipv4_addr_iff (p p' : str) (ip : Ipv4Addr) :
  read_ipv4_addr p = Some (ip, p') <-> octets_ok ip /\ p = show_ipv4 ip ++ p' /\ stops p'.
Proof.
  unfold octets_ok, show_ipv4. split.
  - unfold read_ipv4_addr. intros H.
    apply bind_Some in H as ([a p1] & Ha & H). apply bind_Some in H as ([b p2] & Hb & H).
    apply bind_Some in H as ([c p3] & Hc & H). apply bind_Some in H as ([d p4] & Hd & H). simplify_eq.
    apply read_number_iff in Ha as (? & -> & _). apply read_octet_iff in Hb as (? & -> & _), Hc as (? & -> & _), Hd as (? & -> & ?).
    cbn [octet1 octet2 octet3 octet4]. split; [done|]. split; [|done].
    by repeat (rewrite <- ?app_assoc; cbn [app]).
  - destruct ip as [a b c d]. cbn [octet1 octet2 octet3 octet4]. intros ((? & ? & ? & ?) & -> & Hp).
    unfold read_ipv4_addr. repeat (rewrite <- ?app_assoc; cbn [app]).
    change (read_octet 0) with (read_number 10 255 3 false).
    rewrite (proj2 (read_number_iff _ (DOT :: show_N b ++ DOT :: show_N c ++ DOT :: show_N d ++ p') a))
      by (split_and!; [done|done|apply stops_dot]). cbn -[read_octet show_N DOT].
    rewrite (proj2 (read_octet_iff 0 _ (DOT :: show_N c ++ DOT :: show_N d ++ p') b))
      by (split_and!; [done|done|apply stops_dot]). cbn -[read_octet show_N DOT].
    rewrite (proj2 (read_octet_iff 1 _ (DOT :: show_N d ++ p') c))
      by (split_and!; [done|done|apply stops_dot]). cbn -[read_octet show_N DOT].
    by rewrite (proj2 (read_octet_iff 2 _ p' d)).
Qed.

(** An IPv4 literal has exactly one spelling: there are no leading zeros, no missing
    octets, no other radix. *)
Lemma parse_ipv4_iff (s : str) (ip : Ipv4Addr) :
  parse_ip s = Some (V4 ip) <-> octets_ok ip /\ s = show_ipv4 ip.
Proof.
  unfold parse_ip. split.
  - intros H. destruct (read_ipv4_addr s) as [[ip' [|c p]]|] eqn:Hr; [|done|].
    + simplify_eq. apply read_ipv4_addr_iff in Hr as (? & -> & _). by rewrite app_nil_r.
    + destruct (read_ipv6_addr s) as [[? [|? ?]]|]; done.
  - intros [Hok ->]. rewrite (proj2 (read_ipv4_addr_iff _ [] ip)); [done|].
    rewrite app_nil_r. split_and!; [done|done|apply stops_nil].
Qed.

Lemma parse_ipv4_octets_ok (s : str) (ip : Ipv4Addr) : parse_ip s = Some (V4 ip) -> octets_ok ip.
Proof. by intros [? _]%parse_ipv4_iff. Qed.
