(* ===== verification/NetworkPolicy.v ===== *)
(** * Hosts and domain patterns of the network proxy

    network-proxy/src/policy.rs: how the host of a request is normalised, which hosts
    are loopback, how the patterns of a configuration become globs, and how a pattern
    of a user is compared with the patterns of a managed configuration
    ([DomainPattern::allows]).  The globs (crate [globset]) and the host parser of the
    crate [url] are parameters; what is used of globs is the class [GlobLaws], with the
    matcher [wild_match] as an instance.

    [constrained_patterns_sound]: what the comparison admits is no more than what the
    managed patterns match, for patterns made of domain names.  For other patterns the
    comparison and the globs read the same text differently:
    [constraint_port_bypass] and [constraint_ipv6_bypass]. *)

From stdpp Require Import base numbers list gmap strings.
From Stdlib Require Import Lia NArith.
From S2P Require Import Prelude IpAddr.

(** ** Hosts *)

(** [unscoped_ip_literal]: the address of a scoped literal such as [fe80::1%lo0]. *)
Definition PERCENT : char := 37%N.
Definition LBRACKET : char := 91%N.
Definition RBRACKET : char := 93%N.

Definition unscoped_ip_literal (host : str) : option str :=
  '(ip, _) ← split_once PERCENT host;
  _ ← parse_ip ip;
  Some ip.

Fixpoint scoped_literal (delimiters : list str) (host : str) : option str :=
  match delimiters with
  | [] => None
  | d :: ds =>
      match find_sub d host with
      | Some (ip, scope) =>
          match parse_ip ip with
          | Some _ => Some (ip ++ [PERCENT] ++ scope)
          | None => scoped_literal ds host
          end
      | None => scoped_literal ds host
      end
  end.

Definition normalize_ip_literal (host : str) : option str :=
  match parse_ip host with
  | Some _ => Some host
  | None => scoped_literal [lit "%25"; lit "%"] host
  end.

Definition normalize_dns_host_or_ip_literal (host : str) : str :=
  let host := to_ascii_lowercase host in
  let host := trim_end_matches DOT host in
  match normalize_ip_literal host with
  | Some ip => ip
  | None => host
  end.

Definition count_char (c : char) (s : str) : nat := length (List.filter (N.eqb c) s).

Definition normalize_host (host : str) : str :=
  let host := trim host in
  let unbracketed :=
    if (count_char COLON host =? 1)%nat
    then normalize_dns_host_or_ip_literal (from_option fst host (split_once COLON host))
    else normalize_dns_host_or_ip_literal host in
  if starts_with [LBRACKET] host then
    match split_once RBRACKET host with
    | Some (upto, _) => normalize_dns_host_or_ip_literal (drop 1 upto)
    | None => unbracketed
    end
  else unbracketed.

(** Errors of the policy. *)
Inductive PolicyError : Type :=
| HostIsEmpty
| UnsupportedGlobalWildcard
| InvalidGlobPattern (candidate : str)
| GlobSetTooBig.

#[export] Instance PolicyError_eq_dec : EqDecision PolicyError.
Proof. solve_decision. Defined.

(** [Host::parse]; a [Host] is its normalised string. *)
Definition Host_parse (input : str) : result PolicyError str :=
  let normalized := normalize_host input in
  if normalized =s? [] then Err HostIsEmpty else Ok normalized.

Definition is_loopback_host (host : str) : bool :=
  let host := from_option id host (unscoped_ip_literal host) in
  if host =s? lit "localhost" then true
  else match parse_ip host with
       | Some ip => is_loopback ip
       | None => false
       end.

(** ** Patterns *)

(** The prefix of a pattern ([**.], [*.] or none) and what follows it. *)
Definition split_wildcard (pattern : str) : str * str :=
  match strip_prefix (lit "**.") pattern with
  | Some domain => (lit "**.", domain)
  | None => match strip_prefix (lit "*.") pattern with
            | Some domain => (lit "*.", domain)
            | None => ([], pattern)
            end
  end.

Definition normalize_pattern (pattern : str) : str :=
  let pattern := trim pattern in
  if pattern =s? lit "*" then lit "*"
  else
    let '(prefix, remainder) := split_wildcard pattern in
    let remainder := normalize_host remainder in
    if prefix =s? [] then remainder else prefix ++ remainder.

Inductive DomainPattern : Type :=
| ApexAndSubdomains (domain : str)
| SubdomainsOnly (domain : str)
| Exact (domain : str).

#[export] Instance DomainPattern_eq_dec : EqDecision DomainPattern.
Proof. solve_decision. Defined.

Definition parse_domain (domain : str) (build : str -> DomainPattern) : DomainPattern :=
  let domain := trim domain in
  if domain =s? [] then Exact [] else build domain.

(** [DomainPattern::parse]. *)
Definition DomainPattern_parse (input : str) : DomainPattern :=
  let input := trim input in
  if input =s? [] then Exact []
  else match strip_prefix (lit "**.") input with
       | Some domain => parse_domain domain ApexAndSubdomains
       | None => match strip_prefix (lit "*.") input with
                 | Some domain => parse_domain domain SubdomainsOnly
                 | None => Exact input
                 end
       end.

Definition expand_domain_pattern (pattern : str) : list str :=
  match DomainPattern_parse pattern with
  | Exact domain => [domain]
  | SubdomainsOnly domain => [lit "?*." ++ domain]
  | ApexAndSubdomains domain => [domain; lit "?*." ++ domain]
  end.

Definition is_global_wildcard_domain_pattern (pattern : str) : bool :=
  existsb (fun candidate => candidate =s? lit "*") (expand_domain_pattern (normalize_pattern pattern)).

(** *** Comparison of patterns *)

Definition normalize_domain (domain : str) : str := to_ascii_lowercase (trim_end_matches DOT domain).
Definition domain_eq (left right : str) : bool := normalize_domain left =s? normalize_domain right.
Definition is_subdomain_or_equal (child parent : str) : bool :=
  let child := normalize_domain child in
  let parent := normalize_domain parent in
  if child =s? parent then true else ends_with (DOT :: parent) child.
Definition is_strict_subdomain (child parent : str) : bool :=
  let child := normalize_domain child in
  let parent := normalize_domain parent in
  negb (child =s? parent) && ends_with (DOT :: parent) child.

(** [DomainPattern::allows]. *)
Definition allows (self candidate : DomainPattern) : bool :=
  match self with
  | Exact domain =>
      match candidate with
      | Exact candidate => domain_eq candidate domain
      | _ => false
      end
  | SubdomainsOnly domain =>
      match candidate with
      | Exact candidate => is_strict_subdomain candidate domain
      | SubdomainsOnly candidate => is_subdomain_or_equal candidate domain
      | ApexAndSubdomains candidate => is_strict_subdomain candidate domain
      end
  | ApexAndSubdomains domain =>
      match candidate with
      | Exact candidate => is_subdomain_or_equal candidate domain
      | SubdomainsOnly candidate => is_subdomain_or_equal candidate domain
      | ApexAndSubdomains candidate => is_subdomain_or_equal candidate domain
      end
  end.

(** The host parser of the crate [url], with the rendering of its result:
    [Host::parse(host).map(to_string)]. *)
Class UrlHostParser : Type := { url_host_parse : str -> option str }.

Section Constraints.
Context `{UrlHostParser}.

Definition parse_domain_for_constraints (domain : str) : str :=
  let domain := trim_end_matches DOT (trim domain) in
  if domain =s? [] then []
  else
    let host := if starts_with [LBRACKET] domain && ends_with [RBRACKET] domain
                then take (length domain - 1 - 1) (drop 1 domain) else domain in
    if contains_char STAR host || contains_char 63%N host || contains_char PERCENT host then domain
    else from_option id [] (url_host_parse host).

(** [DomainPattern::parse_for_constraints]. *)
Definition parse_for_constraints (input : str) : DomainPattern :=
  let input := trim input in
  if input =s? [] then Exact []
  else match strip_prefix (lit "**.") input with
       | Some domain => ApexAndSubdomains (parse_domain_for_constraints domain)
       | None => match strip_prefix (lit "*.") input with
                 | Some domain => SubdomainsOnly (parse_domain_for_constraints domain)
                 | None => Exact (parse_domain_for_constraints input)
                 end
       end.
End Constraints.

(** *** Sets of globs *)

(** The crate [globset]: which case-insensitive globs compile, which lists of them
    make a set, and what a glob matches. *)
Class GlobEngine : Type := {
  glob_build : str -> bool;
  globset_build : list str -> bool;
  glob_is_match : str -> str -> bool
}.

Inductive GlobalWildcard : Type := WildcardAllow | WildcardReject.

Section GlobSets.
Context `{GlobEngine}.

(** A [GlobSet] is the list of its globs. *)
Definition is_match (set : list str) (host : str) : bool :=
  existsb (fun glob => glob_is_match glob host) set.

Fixpoint add_candidates (seen : gset str) (builder candidates : list str) :
    result PolicyError (gset str * list str) :=
  match candidates with
  | [] => Ok (seen, builder)
  | candidate :: rest =>
      if bool_decide (candidate ∈ seen) then add_candidates seen builder rest
      else if glob_build candidate
      then add_candidates ({[candidate]} ∪ seen) (builder ++ [candidate]) rest
      else Err (InvalidGlobPattern candidate)
  end.

Fixpoint add_patterns (global_wildcard : GlobalWildcard) (seen : gset str) (builder patterns : list str) :
    result PolicyError (list str) :=
  match patterns with
  | [] => Ok builder
  | pattern :: rest =>
      if match global_wildcard with WildcardReject => is_global_wildcard_domain_pattern pattern
                                  | WildcardAllow => false end
      then Err UnsupportedGlobalWildcard
      else '(seen, builder) ← add_candidates seen builder (expand_domain_pattern (normalize_pattern pattern));
           add_patterns global_wildcard seen builder rest
  end.

Definition compile_globset_with_policy (patterns : list str) (global_wildcard : GlobalWildcard) :
    result PolicyError (list str) :=
  builder ← add_patterns global_wildcard ∅ [] patterns;
  if globset_build builder then Ok builder else Err GlobSetTooBig.

Definition compile_allowlist_globset (patterns : list str) : result PolicyError (list str) :=
  compile_globset_with_policy patterns WildcardAllow.
Definition compile_denylist_globset (patterns : list str) : result PolicyError (list str) :=
  compile_globset_with_policy patterns WildcardReject.

(** [globset_matches_host_or_unscoped] of network-proxy/src/runtime.rs. *)
Definition globset_matches_host_or_unscoped (set : list str) (host : str) : bool :=
  is_match set host
  || match unscoped_ip_literal host with Some ip => is_match set ip | None => false end.
End GlobSets.

(** [is_explicit_local_allowlisted] of network-proxy/src/runtime.rs. *)
Definition is_explicit_local_allowlisted (allowed_domains : list str) (host : str) : bool :=
  let unscoped_host := unscoped_ip_literal host in
  existsb (fun pattern =>
    let pattern := trim pattern in
    if (pattern =s? lit "*") || starts_with (lit "*.") pattern || starts_with (lit "**.") pattern then false
    else if contains_char STAR pattern || contains_char 63%N pattern then false
    else
      let normalized_pattern := normalize_host pattern in
      (normalized_pattern =s? host)
      || match unscoped_host with Some ip => normalized_pattern =s? ip | None => false end)
    allowed_domains.

(** ** Examples: the tests of policy.rs *)

Example normalize_host_examples :
  map normalize_host (map lit ["  ExAmPlE.CoM  "; "example.com:1234"; "2001:db8::1"; "ExAmPlE.CoM.";
    "example.com.:443"; "[::1]"; "[::1]:443"; "fe80::1%lo0"; "[fe80::1%lo0]"; "[fe80::1%25lo0]"])
  = map lit ["example.com"; "example.com"; "2001:db8::1"; "example.com"; "example.com"; "::1"; "::1";
      "fe80::1%lo0"; "fe80::1%lo0"; "fe80::1%lo0"].
Proof. vm_compute. reflexivity. Qed.

Example is_loopback_host_examples :
  map (fun h => is_loopback_host (normalize_host (lit h)))
    ["localhost"; "localhost."; "LOCALHOST"; "notlocalhost"; "127.0.0.1"; "::1"; "1.2.3.4"]
  = [true; true; true; false; true; true; false].
Proof. vm_compute. reflexivity. Qed.

Example is_non_public_ip_examples :
  Forall (fun s => is_non_public_ip <$> parse_ip (lit s) = Some true)
    ["127.0.0.1"; "10.0.0.1"; "192.168.0.1"; "100.64.0.1"; "192.0.0.1"; "192.0.2.1"; "198.18.0.1";
     "198.51.100.1"; "203.0.113.1"; "240.0.0.1"; "0.1.2.3"; "::ffff:127.0.0.1"; "::ffff:10.0.0.1"; "::1";
     "fe80::1"; "fc00::1"]%string /\
  Forall (fun s => is_non_public_ip <$> parse_ip (lit s) = Some false) ["8.8.8.8"; "::ffff:8.8.8.8"]%string.
Proof. split; repeat constructor. Qed.

(** ** Sets of globs match what their patterns expand to *)

Section Compiled.
Context `{GlobEngine}.

Lemma is_match_iff (set : list str) (host : str) :
  is_match set host = true <-> exists glob, glob ∈ set /\ glob_is_match glob host = true.
Proof.
  unfold is_match. rewrite existsb_exists. setoid_rewrite <- list_elem_of_In. done.
Qed.

Lemma add_candidates_spec (seen seen' : gset str) (builder builder' candidates : list str) :
  seen = list_to_set builder ->
  add_candidates seen builder candidates = Ok (seen', builder') ->
  seen' = list_to_set builder' /\ (forall g, g ∈ builder' <-> g ∈ builder \/ g ∈ candidates).
Proof.
  revert seen builder. induction candidates as [|c cs IH]; cbn; intros seen builder -> Hok.
  { simplify_eq. split; [done|set_solver]. }
  case_bool_decide as Hin.
  - apply IH in Hok as [-> Hb]; [|done]. split; [done|]. intros g. rewrite Hb, elem_of_cons.
    split; [tauto|]. intros [?|[->|?]]; [tauto| |tauto]. left. by apply elem_of_list_to_set in Hin.
  - case_in Hok. apply IH in Hok as [-> Hb]; [|rewrite list_to_set_app_L; set_solver].
    split; [done|]. intros g. rewrite Hb, elem_of_app, list_elem_of_singleton, elem_of_cons. tauto.
Qed.

Lemma add_patterns_spec (w : GlobalWildcard) (seen : gset str) (builder builder' patterns : list str) :
  seen = list_to_set builder ->
  add_patterns w seen builder patterns = Ok builder' ->
  forall g, g ∈ builder' <->
    g ∈ builder \/ exists p, p ∈ patterns /\ g ∈ expand_domain_pattern (normalize_pattern p).
Proof.
  revert seen builder. induction patterns as [|p ps IH]; cbn -[expand_domain_pattern]; intros seen builder Hs Hok g.
  { simplify_eq. set_solver. }
  case_in Hok. apply result_bind_ok in Hok as ([seen1 builder1] & Hc & Hok).
  apply add_candidates_spec in Hc as [-> Hb]; [|done].
  rewrite (IH _ _ eq_refl Hok), Hb. set_solver.
Qed.

(** A compiled list matches a host iff one of the globs of one of its patterns does. *)
Lemma compile_matches (w : GlobalWildcard) (patterns set : list str) (host : str) :
  compile_globset_with_policy patterns w = Ok set ->
  is_match set host = true <->
  exists p g, p ∈ patterns /\ g ∈ expand_domain_pattern (normalize_pattern p) /\ glob_is_match g host = true.
Proof.
  unfold compile_globset_with_policy. intros Hok. apply result_bind_ok in Hok as (b & Hb & Hok).
  case_in Hok. rewrite is_match_iff.
  setoid_rewrite (add_patterns_spec _ _ _ _ _ (eq_refl : ∅ = list_to_set []) Hb). set_solver.
Qed.

(** A denial cannot cover every host: a list with a global wildcard does not compile. *)
Lemma denylist_no_global_wildcard (patterns set : list str) (p : str) :
  compile_denylist_globset patterns = Ok set -> p ∈ patterns -> is_global_wildcard_domain_pattern p = false.
Proof.
  unfold compile_denylist_globset, compile_globset_with_policy. intros Hok.
  apply result_bind_ok in Hok as (b & Hb & _). revert Hb. generalize (∅ : gset str), (@nil str).
  induction patterns as [|q qs IH]; cbn; [set_solver|]. intros seen builder Hb.
  case_in Hb. apply result_bind_ok in Hb as ([? ?] & _ & Hb).
  intros [->|Hin]%elem_of_cons; [done|by eapply IH].
Qed.
End Compiled.

(** ** Normalisation does not depend on case *)

Definition caseless (c : char) : bool := negb (is_ascii_uppercase c) && negb (is_ascii_lowercase c).
Definition lower (c : char) : char := if is_ascii_uppercase c then (c + 32)%N else c.

Lemma lower_upper (c : char) : is_ascii_uppercase (lower c) = false.
Proof. unfold lower. destruct (is_ascii_uppercase c) eqn:Hc; [|done].
  unfold is_ascii_uppercase in *. apply andb_false_iff. rewrite !N.leb_gt. bool_to_prop. lia. Qed.

Lemma lower_idemp (c : char) : lower (lower c) = lower c.
Proof. unfold lower at 1. by rewrite lower_upper. Qed.

Lemma lower_eqb (c d : char) : caseless d = true -> (d =? lower c)%N = (d =? c)%N.
Proof.
  unfold caseless, lower. intros [Hd1%negb_true_iff Hd2%negb_true_iff]%andb_true_iff.
  destruct (is_ascii_uppercase c) eqn:Hc; [|done].
  unfold is_ascii_uppercase, is_ascii_lowercase in *. bool_to_prop.
  apply andb_false_iff in Hd1, Hd2. rewrite !N.leb_gt in Hd1, Hd2.
  transitivity false; [|symmetry]; apply N.eqb_neq; lia.
Qed.

Lemma lower_whitespace (c : char) : is_whitespace (lower c) = is_whitespace c.
Proof.
  unfold lower. destruct (is_ascii_uppercase c) eqn:Hc; [|done]. unfold is_ascii_uppercase in Hc. bool_to_prop.
  unfold is_whitespace. transitivity false; [|symmetry]; repeat (apply orb_false_iff; split);
    try (apply andb_false_iff; rewrite !N.leb_gt); rewrite ?N.eqb_neq; lia.
Qed.

#[local] Arguments to_ascii_lowercase : simpl never.

Lemma lower_cons (c : char) (s : str) : to_ascii_lowercase (c :: s) = lower c :: to_ascii_lowercase s.
Proof. done. Qed.

Lemma to_ascii_lowercase_idemp (s : str) : to_ascii_lowercase (to_ascii_lowercase s) = to_ascii_lowercase s.
Proof. induction s as [|c s IH]; [done|]. by rewrite !lower_cons, lower_idemp, IH. Qed.

Lemma lower_reverse (s : str) : to_ascii_lowercase (reverse s) = reverse (to_ascii_lowercase s).
Proof. apply fmap_reverse. Qed.

Lemma drop_while_lower (p : char -> bool) (s : str) :
  (forall c, p (lower c) = p c) -> drop_while p (to_ascii_lowercase s) = to_ascii_lowercase (drop_while p s).
Proof. intros Hp. induction s as [|c s IH]; [done|]. rewrite lower_cons. cbn. rewrite Hp. by destruct (p c). Qed.

Lemma drop_end_while_lower (p : char -> bool) (s : str) :
  (forall c, p (lower c) = p c) -> drop_end_while p (to_ascii_lowercase s) = to_ascii_lowercase (drop_end_while p s).
Proof. intros Hp. unfold drop_end_while. by rewrite <- lower_reverse, drop_while_lower, lower_reverse. Qed.

Lemma trim_lower (s : str) : trim (to_ascii_lowercase s) = to_ascii_lowercase (trim s).
Proof.
  unfold trim, trim_start, trim_end.
  by rewrite drop_while_lower, drop_end_while_lower by apply lower_whitespace.
Qed.

Lemma strip_prefix_lower (p s : str) :
  forallb caseless p = true -> strip_prefix p (to_ascii_lowercase s) = to_ascii_lowercase <$> strip_prefix p s.
Proof.
  revert s. induction p as [|d p IH]; intros [|c s]; try done. intros [Hd Hp]%andb_true_iff.
  rewrite lower_cons. change ((if (d =? lower c)%N then strip_prefix p (to_ascii_lowercase s) else None)
    = to_ascii_lowercase <$> (if (d =? c)%N then strip_prefix p s else None)).
  rewrite (lower_eqb c d) by done. destruct (d =? c)%N; [by apply IH|done].
Qed.

Lemma split_once_lower (d : char) (s : str) :
  caseless d = true ->
  split_once d (to_ascii_lowercase s) = prod_map to_ascii_lowercase to_ascii_lowercase <$> split_once d s.
Proof.
  intros Hd. induction s as [|c s IH]; [done|]. rewrite lower_cons. cbn.
  rewrite N.eqb_sym, lower_eqb, N.eqb_sym by done. destruct (c =? d)%N; [done|].
  rewrite IH. by destruct (split_once d s) as [[? ?]|].
Qed.

Lemma count_char_lower (d : char) (s : str) :
  caseless d = true -> count_char d (to_ascii_lowercase s) = count_char d s.
Proof.
  intros Hd. unfold count_char. induction s as [|c s IH]; [done|]. rewrite lower_cons. cbn. rewrite lower_eqb by done.
  destruct (d =? c)%N; cbn; by rewrite IH.
Qed.

Lemma normalize_dns_lower (h : str) :
  normalize_dns_host_or_ip_literal (to_ascii_lowercase h) = normalize_dns_host_or_ip_literal h.
Proof. unfold normalize_dns_host_or_ip_literal. by rewrite to_ascii_lowercase_idemp. Qed.

Lemma normalize_host_lower (h : str) : normalize_host (to_ascii_lowercase h) = normalize_host h.
Proof.
  unfold normalize_host, starts_with. rewrite trim_lower, strip_prefix_lower by done.
  rewrite count_char_lower, !split_once_lower, normalize_dns_lower by done.
  assert (bool_decide (is_Some (to_ascii_lowercase <$> strip_prefix [LBRACKET] (trim h)))
          = bool_decide (is_Some (strip_prefix [LBRACKET] (trim h)))) as ->
    by (apply bool_decide_ext, fmap_is_Some).
  assert (normalize_dns_host_or_ip_literal (from_option fst (to_ascii_lowercase (trim h))
            (prod_map to_ascii_lowercase to_ascii_lowercase <$> split_once COLON (trim h)))
          = normalize_dns_host_or_ip_literal (from_option fst (trim h) (split_once COLON (trim h)))) as ->
    by (destruct (split_once COLON (trim h)) as [[? ?]|]; apply normalize_dns_lower).
  destruct (bool_decide _); [|done]. destruct (split_once RBRACKET (trim h)) as [[a b]|]; [|done].
  cbn. replace (drop 1 (to_ascii_lowercase a)) with (to_ascii_lowercase (drop 1 a)) by (by destruct a).
  apply normalize_dns_lower.
Qed.

Lemma lower_eq_caseless (s t : str) : forallb caseless t = true -> (to_ascii_lowercase s =s? t) = (s =s? t).
Proof.
  intros Ht. apply bool_decide_ext. revert t Ht. induction s as [|c s IH]; intros [|d t]; try done.
  intros [Hd Ht]%andb_true_iff. rewrite lower_cons. pose proof (lower_eqb c d Hd) as He.
  split; intros [= H1 H2]; (f_equal; [|by apply (IH t Ht)]).
  - symmetry. apply N.eqb_eq. rewrite <- He. by apply N.eqb_eq.
  - symmetry. apply N.eqb_eq. rewrite He. by apply N.eqb_eq.
Qed.

(** Patterns that differ only in case are one pattern. *)
Lemma normalize_pattern_lower (p : str) : normalize_pattern (to_ascii_lowercase p) = normalize_pattern p.
Proof.
  unfold normalize_pattern, split_wildcard. rewrite trim_lower, lower_eq_caseless by done.
  rewrite !strip_prefix_lower by done. destruct (_ =s? lit "*"); [done|].
  destruct (strip_prefix (lit "**.") (trim p)); cbn [fmap option_fmap option_map].
  { by rewrite normalize_host_lower. }
  destruct (strip_prefix (lit "*.") (trim p)); cbn [fmap option_fmap option_map];
    by rewrite normalize_host_lower.
Qed.

Lemma normalize_pattern_case (p q : str) :
  to_ascii_lowercase p = to_ascii_lowercase q -> normalize_pattern p = normalize_pattern q.
Proof. intros Heq. by rewrite <- (normalize_pattern_lower p), <- (normalize_pattern_lower q), Heq. Qed.

(** ** The comparison of patterns is inclusion of what they cover *)

(** The hosts a pattern is meant to cover: the domain itself, or all names below it. *)
Definition below (name domain : str) : Prop := exists x, x <> [] /\ name = x ++ DOT :: domain.
Definition covers (p : DomainPattern) (host : str) : Prop :=
  match p with
  | Exact d => to_ascii_lowercase host = normalize_domain d
  | SubdomainsOnly d => below (to_ascii_lowercase host) (normalize_domain d)
  | ApexAndSubdomains d =>
      to_ascii_lowercase host = normalize_domain d \/ below (to_ascii_lowercase host) (normalize_domain d)
  end.

Definition domain_of (p : DomainPattern) : str :=
  match p with Exact d | SubdomainsOnly d | ApexAndSubdomains d => d end.

Lemma is_subdomain_or_equal_iff (c d : str) :
  is_subdomain_or_equal c d = true <->
  normalize_domain c = normalize_domain d \/ exists r, normalize_domain c = r ++ DOT :: normalize_domain d.
Proof.
  unfold is_subdomain_or_equal. case_bool_decide as Hc; rewrite ?ends_with_true; [by split; [left|]|].
  split; [by right|]. by intros [?|?].
Qed.

Lemma is_strict_subdomain_iff (c d : str) :
  is_strict_subdomain c d = true <-> exists r, normalize_domain c = r ++ DOT :: normalize_domain d.
Proof.
  unfold is_strict_subdomain. rewrite andb_true_iff, ends_with_true, negb_true_iff, bool_decide_eq_false.
  split; [by intros [_ ?]|]. intros [r Hr]. split; [|by exists r].
  rewrite Hr. intros Heq%(f_equal length). rewrite length_app in Heq. cbn in Heq. lia.
Qed.

Lemma lower_app (s t : str) : to_ascii_lowercase (s ++ t) = to_ascii_lowercase s ++ to_ascii_lowercase t.
Proof. apply fmap_app. Qed.

Lemma normalize_domain_lower (d : str) : to_ascii_lowercase (normalize_domain d) = normalize_domain d.
Proof. apply to_ascii_lowercase_idemp. Qed.

Lemma below_strict (c r d : str) : head c <> Some DOT -> c = r ++ DOT :: d -> below c d.
Proof. intros Hc ->. exists r. split; [|done]. by intros ->. Qed.

Lemma below_trans (n c d : str) : below n c -> (c = d \/ exists r, c = r ++ DOT :: d) -> below n d.
Proof.
  intros (x & Hx & ->) [->|[r ->]]; [by exists x|].
  exists (x ++ DOT :: r). split; [|by rewrite <- app_assoc]. by destruct x.
Qed.

Lemma below_label (a : char) (c : str) : below (a :: DOT :: c) c.
Proof. by exists [a]. Qed.

(** Dropping the label [a] of [a.c]. *)
Lemma below_label_inv (a : char) (c d : str) : below (a :: DOT :: c) d -> c = d \/ exists r, c = r ++ DOT :: d.
Proof.
  intros (x & Hx & Heq). destruct x as [|b [|e x]]; cbn in Heq; [done|left; congruence|].
  right. exists x. congruence.
Qed.

Lemma below_head (c d : str) : head c <> Some DOT -> (exists r, c = r ++ DOT :: d) -> below c d.
Proof. intros ? [r ?]. by eapply below_strict. Qed.

Lemma below_self (c d : str) : below c d -> exists r, c = r ++ DOT :: d.
Proof. intros (r & _ & ?). by exists r. Qed.

(** [DomainPattern::allows] admits a pattern exactly when all it covers is covered. *)
Lemma allows_iff (managed candidate : DomainPattern) :
  head (normalize_domain (domain_of candidate)) <> Some DOT ->
  allows managed candidate = true <-> (forall host, covers candidate host -> covers managed host).
Proof.
  intros Hhead. split.
  - intros Hal host Hc. destruct managed as [d|d|d], candidate as [c|c|c]; cbn in *;
      rewrite ?is_subdomain_or_equal_iff, ?is_strict_subdomain_iff in Hal; unfold domain_eq in Hal; bool_to_prop;
      try done;
      repeat match goal with H : _ = normalize_domain _ \/ below _ _ |- _ => destruct H as [H|H] end;
      try (rewrite Hc; first [done | destruct Hal as [->|?]; [by left|right; by apply below_head] | by apply below_head]);
      try (first [right|idtac]; eapply below_trans; eauto; done).
  - intros Hsub.
    pose proof (Hsub (normalize_domain (domain_of candidate))) as Hself.
    pose proof (Hsub (97%N :: DOT :: normalize_domain (domain_of candidate))) as Ha.
    pose proof (Hsub (98%N :: DOT :: normalize_domain (domain_of candidate))) as Hb.
    destruct managed as [d|d|d], candidate as [c|c|c]; cbn [domain_of covers allows] in *;
    rewrite ?lower_cons, ?normalize_domain_lower in *.
    all: try change (lower 97%N) with 97%N in *; try change (lower 98%N) with 98%N in *; try change (lower DOT) with DOT in *.
    all: rewrite ?is_subdomain_or_equal_iff, ?is_strict_subdomain_iff; unfold domain_eq; rewrite ?bool_decide_eq_true.
    all: pose proof (below_label 97%N (normalize_domain c)); pose proof (below_label 98%N (normalize_domain c)).
    all: pose proof (below_label_inv 97%N (normalize_domain c) (normalize_domain d)).
    all: pose proof (below_label_inv 98%N (normalize_domain c) (normalize_domain d)).
    all: pose proof (below_self (normalize_domain c) (normalize_domain d)).
    all: clear Hsub Hhead; intuition congruence.
Qed.

(** ** What is used of globs *)

(** Characters that stand for themselves in a glob. *)
Definition literal_char (c : char) : bool :=
  is_ascii_alphanumeric c || existsb (N.eqb c) (lit "-_.:%").

(** Case-insensitive globs without a literal separator: literal text matches itself,
    [?*.d] the names with something before [.d], and [*] everything. *)
Class GlobLaws `{GlobEngine} : Prop := {
  glob_literal : forall d host, forallb literal_char d = true ->
    glob_is_match d host = true <-> to_ascii_lowercase host = to_ascii_lowercase d;
  glob_subdomains : forall d host, forallb literal_char d = true ->
    glob_is_match (lit "?*." ++ d) host = true <-> below (to_ascii_lowercase host) (to_ascii_lowercase d);
  glob_star : forall host, glob_is_match (lit "*") host = true
}.

(** A matcher for literal characters, [?] and [*]. *)
Fixpoint wild_match (p h : str) : bool :=
  match p with
  | [] => h =s? []
  | c :: p' =>
      if (c =? STAR)%N then
        (fix any h := wild_match p' h || match h with [] => false | _ :: h' => any h' end) h
      else
        match h with
        | [] => false
        | d :: h' => ((c =? 63) || (lower c =? lower d))%N && wild_match p' h'
        end
  end.

Definition wild_globs : GlobEngine :=
  {| glob_build := fun _ => true; globset_build := fun _ => true; glob_is_match := wild_match |}.

Lemma literal_char_plain (c : char) : literal_char c = true -> (c =? STAR)%N = false /\ (c =? 63)%N = false.
Proof.
  intros Hc. split; apply N.eqb_neq; intros ->; vm_compute in Hc; discriminate.
Qed.

Lemma wild_match_literal (d h : str) :
  forallb literal_char d = true -> wild_match d h = true <-> to_ascii_lowercase h = to_ascii_lowercase d.
Proof.
  revert h. induction d as [|c d IH]; intros h Hd; cbn [wild_match].
  - rewrite bool_decide_eq_true. destruct h; split; done.
  - apply andb_true_iff in Hd as [Hc Hd]. destruct (literal_char_plain c Hc) as [-> ->].
    destruct h as [|e h]; [split; done|]. rewrite !lower_cons. cbn [orb].
    rewrite andb_true_iff, N.eqb_eq, IH by done. split; [intros [-> ->]; done|]. intros [= -> ->]. done.
Qed.

Lemma wild_match_star (p h : str) :
  wild_match (STAR :: p) h = true <-> exists x y, h = x ++ y /\ wild_match p y = true.
Proof.
  cbn [wild_match]. change (STAR =? STAR)%N with true. cbn iota. split.
  - induction h as [|c h IH]; rewrite orb_true_iff.
    + intros [?|?]; [|done]. by exists [], [].
    + intros [?|(x & y & -> & ?)%IH]; [by exists [], (c :: h)|by exists (c :: x), y].
  - intros (x & y & -> & Hy). induction x as [|c x IH]; cbn [app].
    + destruct y; by rewrite Hy.
    + by rewrite IH, orb_true_r.
Qed.

Lemma below_lower (h d : str) :
  below (to_ascii_lowercase h) (to_ascii_lowercase d) <->
  exists c x y, h = c :: x ++ y /\ to_ascii_lowercase y = to_ascii_lowercase (DOT :: d).
Proof.
  split.
  - intros (x & Hx & Heq). apply fmap_app_inv in Heq as (x1 & y1 & -> & Hy & ->).
    destruct x1 as [|c x1]; [done|]. by exists c, x1, y1.
  - intros (c & x & y & -> & Hy). exists (to_ascii_lowercase (c :: x)). split; [done|].
    change (c :: x ++ y) with ((c :: x) ++ y). rewrite lower_app. by rewrite Hy.
Qed.

#[export] Instance wild_globs_laws : @GlobLaws wild_globs.
Proof.
  split; cbn [glob_is_match wild_globs].
  - apply wild_match_literal.
  - intros d h Hd. rewrite below_lower.
    change (lit "?*." ++ d) with (63%N :: STAR :: DOT :: d).
    destruct h as [|c h]; [split; [done|by intros (? & ? & ? & ? & _)]|].
    change (wild_match (63%N :: STAR :: DOT :: d) (c :: h)) with (wild_match (STAR :: DOT :: d) h).
    rewrite wild_match_star. setoid_rewrite (wild_match_literal (DOT :: d)); [|done].
    naive_solver.
  - intros h. change (lit "*") with [STAR]. apply wild_match_star. exists h, []. by rewrite app_nil_r.
Qed.

(** ** The managed patterns bound the user's *)

Definition domain_char (c : char) : bool := is_ascii_alphanumeric c || existsb (N.eqb c) (lit "-_.").

(** A domain name: letters, digits, [-], [_] and inner dots. *)
Definition domain_name (d : str) : bool :=
  negb (d =s? []) && forallb domain_char d && negb (bool_decide (head d = Some DOT))
  && negb (bool_decide (last d = Some DOT)).

Definition wildcards : list str := [[]; lit "*."; lit "**."].

Section Plain.
Context `{UrlHostParser}.

(** A pattern made of a wildcard prefix and a domain name that [url] takes as it is. *)
Definition plain_pattern (p : str) : Prop :=
  exists w d, w ∈ wildcards /\ p = w ++ d /\ domain_name d = true /\
              url_host_parse d = Some (to_ascii_lowercase d).

Definition pattern_of (w d : str) : DomainPattern :=
  if w =s? lit "**." then ApexAndSubdomains d else if w =s? lit "*." then SubdomainsOnly d else Exact d.

(** *** Domain names go through the normalisations unchanged, but for their case *)

Lemma domain_name_inv (d : str) :
  domain_name d = true ->
  d <> [] /\ (forall c, c ∈ d -> domain_char c = true) /\ head d <> Some DOT /\ last d <> Some DOT.
Proof.
  unfold domain_name. rewrite !andb_true_iff, !negb_true_iff, !bool_decide_eq_false, forallb_forall.
  setoid_rewrite <- list_elem_of_In. tauto.
Qed.

Lemma domain_char_not (c x : char) : domain_char x = false -> domain_char c = true -> c <> x.
Proof. intros Hx Hc ->. congruence. Qed.

Lemma domain_name_not_in (d : str) (x : char) : domain_name d = true -> domain_char x = false -> x ∉ d.
Proof. intros (_ & Hall & _)%domain_name_inv Hx Hin. apply Hall in Hin. congruence. Qed.

Lemma domain_char_not_space (c : char) : domain_char c = true -> is_whitespace c = false.
Proof.
  unfold domain_char, is_ascii_alphanumeric, is_ascii_digit, is_ascii_uppercase, is_ascii_lowercase.
  intros Hc. assert (45 <= c <= 122)%N as Hr.
  { change (lit "-_.") with [45; 95; 46]%N in Hc. cbn [existsb] in Hc. rewrite !orb_true_iff, !andb_true_iff, !N.leb_le, !N.eqb_eq in Hc. lia. }
  unfold is_whitespace. repeat (apply orb_false_iff; split);
    try (apply andb_false_iff; rewrite !N.leb_gt); rewrite ?N.eqb_neq; lia.
Qed.

Lemma head_in {A} (l : list A) (c : A) : head l = Some c -> c ∈ l.
Proof. destruct l; [done|]. intros [= ->]. left. Qed.

Lemma domain_name_trim (w d : str) : domain_name d = true -> w ∈ wildcards -> trim (w ++ d) = w ++ d.
Proof.
  intros (Hne & Hall & _)%domain_name_inv Hw. apply trim_id.
  - intros c Hc. destruct w as [|x w].
    + by apply domain_char_not_space, Hall, head_in.
    + cbn in Hc. simplify_eq. unfold wildcards in Hw. rewrite !elem_of_cons in Hw.
      destruct Hw as [Hw|[Hw|[Hw|?%elem_of_nil]]]; [done| | |done]; by injection Hw as ->.
  - intros c. rewrite last_app. destruct (last d) as [x|] eqn:Hl; [|by apply last_None in Hl].
    intros [= ->]. apply domain_char_not_space, Hall. by apply last_Some_elem_of.
Qed.

Lemma domain_trim (d : str) : domain_name d = true -> trim d = d.
Proof. intros Hd. apply (domain_name_trim [] d Hd). by left. Qed.

Lemma count_char_zero (x : char) (s : str) : x ∉ s -> count_char x s = 0.
Proof.
  unfold count_char. induction s as [|c s IH]; [done|]. rewrite not_elem_of_cons. intros [? ?].
  cbn. destruct (N.eqb_spec x c); [done|by apply IH].
Qed.

Lemma starts_with_false (x : char) (s : str) : x ∉ s -> starts_with [x] s = false.
Proof.
  intros Hx. apply not_true_is_false. rewrite starts_with_true. intros [r ->]. apply Hx. left.
Qed.

Lemma lower_dot (c : char) : lower c = DOT <-> c = DOT.
Proof. pose proof (lower_eqb c DOT eq_refl) as He. rewrite !(eq_comm _ DOT), <- !N.eqb_eq. by rewrite He. Qed.

Lemma domain_char_lower (c : char) : domain_char c = true -> domain_char (lower c) = true.
Proof.
  unfold lower. destruct (is_ascii_uppercase c) eqn:Hc; [|done]. intros _.
  unfold domain_char, is_ascii_alphanumeric. unfold is_ascii_uppercase in Hc. bool_to_prop.
  assert (is_ascii_lowercase (c + 32) = true) as ->; [|by rewrite !orb_true_r].
  unfold is_ascii_lowercase. rewrite andb_true_iff, !N.leb_le. lia.
Qed.

Lemma domain_name_lower (d : str) : domain_name d = true -> domain_name (to_ascii_lowercase d) = true.
Proof.
  intros (Hne & Hall & Hh & Hl)%domain_name_inv. unfold domain_name.
  rewrite !andb_true_iff, !negb_true_iff, !bool_decide_eq_false, forallb_forall. split_and!.
  - by destruct d.
  - intros c Hin%list_elem_of_In. apply list_elem_of_fmap in Hin as (x & -> & Hin).
    by apply domain_char_lower, Hall.
  - destruct d as [|c d]; [done|]. intros [= Hc]. apply lower_dot in Hc as ->. done.
  - intros Hc. unfold to_ascii_lowercase in Hc. rewrite fmap_last in Hc.
    apply fmap_Some in Hc as (x & Hx & Hc). symmetry in Hc. apply lower_dot in Hc as ->. done.
Qed.

Lemma trim_dots_domain (d : str) : domain_name d = true -> trim_end_matches DOT d = d.
Proof.
  intros (_ & _ & _ & Hl)%domain_name_inv. apply drop_end_while_keep. intros c Hc.
  apply N.eqb_neq. intros <-. done.
Qed.

Lemma normalize_domain_id (d : str) :
  domain_name d = true -> normalize_domain (to_ascii_lowercase d) = to_ascii_lowercase d.
Proof.
  intros Hd. unfold normalize_domain. rewrite trim_dots_domain by by apply domain_name_lower.
  apply to_ascii_lowercase_idemp.
Qed.

Lemma find_sub_absent (n s : str) (x : char) : x ∈ n -> x ∉ s -> find_sub n s = None.
Proof.
  intros Hn Hs. destruct (find_sub n s) as [[b r]|] eqn:Hf; [|done]. exfalso. apply Hs.
  apply find_sub_Some in Hf as ->. set_solver.
Qed.

Lemma normalize_host_domain (d : str) : domain_name d = true -> normalize_host d = to_ascii_lowercase d.
Proof.
  intros Hd. unfold normalize_host. rewrite (domain_trim d Hd).
  rewrite starts_with_false by by apply domain_name_not_in.
  rewrite count_char_zero by by apply domain_name_not_in. cbn [Nat.eqb].
  unfold normalize_dns_host_or_ip_literal.
  rewrite trim_dots_domain by by apply domain_name_lower.
  unfold normalize_ip_literal. destruct (parse_ip _); [done|]. cbn [scoped_literal].
  pose proof (domain_name_not_in _ PERCENT (domain_name_lower d Hd) eq_refl) as Hp.
  rewrite (find_sub_absent (lit "%25") _ PERCENT), (find_sub_absent (lit "%") _ PERCENT); try done; left.
Qed.

(** The prefix of a pattern is recognised. *)
Lemma strip_wildcards (w d : str) :
  domain_name d = true -> w ∈ wildcards ->
  (w = lit "**." /\ strip_prefix (lit "**.") (w ++ d) = Some d) \/
  (w = lit "*." /\ strip_prefix (lit "**.") (w ++ d) = None /\ strip_prefix (lit "*.") (w ++ d) = Some d) \/
  (w = [] /\ strip_prefix (lit "**.") (w ++ d) = None /\ strip_prefix (lit "*.") (w ++ d) = None).
Proof.
  intros Hd Hw. unfold wildcards in Hw. rewrite !elem_of_cons in Hw.
  pose proof (domain_name_not_in d STAR Hd eq_refl) as Hs.
  assert (forall r, strip_prefix (STAR :: r) d = None) as Hnone.
  { intros r. destruct (strip_prefix (STAR :: r) d) eqn:He; [|done].
    apply strip_prefix_Some in He as ->. exfalso. apply Hs. left. }
  destruct Hw as [->|[->|[->|?%elem_of_nil]]]; [| | |done].
  - right; right. split_and!; [done|apply (Hnone (lit "*."))|apply (Hnone (lit "."))].
  - right; left. split_and!; [done|done|apply strip_prefix_app].
  - left. split; [done|apply strip_prefix_app].
Qed.

Lemma pattern_nonempty (w d : str) : domain_name d = true -> (w ++ d =s? []) = false.
Proof.
  intros (Hne & _)%domain_name_inv. apply bool_decide_eq_false. intros [_ ?]%app_eq_nil. done.
Qed.

Lemma parse_pattern_of (w d : str) :
  domain_name d = true -> w ∈ wildcards -> DomainPattern_parse (w ++ d) = pattern_of w d.
Proof.
  intros Hd Hw. unfold DomainPattern_parse. rewrite domain_name_trim, pattern_nonempty by done.
  pose proof (domain_trim d Hd) as Ht.
  pose proof (domain_name_inv d Hd) as [Hne _]. unfold parse_domain.
  destruct (strip_wildcards w d Hd Hw) as [[-> ->]|[(-> & -> & ->)|(-> & -> & ->)]]; rewrite ?Ht; cbn zeta;
    [case_bool_decide; [done|]| case_bool_decide; [done|]|]; reflexivity.
Qed.

Lemma normalize_pattern_plain (w d : str) :
  domain_name d = true -> w ∈ wildcards -> normalize_pattern (w ++ d) = w ++ to_ascii_lowercase d.
Proof.
  intros Hd Hw. unfold normalize_pattern. rewrite domain_name_trim by done.
  assert ((w ++ d =s? lit "*") = false) as ->.
  { apply bool_decide_eq_false. intros Heq. change (lit "*") with [STAR] in Heq.
    pose proof (domain_name_not_in d STAR Hd eq_refl) as Hs. pose proof (domain_name_inv d Hd) as [Hne _].
    destruct d as [|c d]; [done|]. apply app_eq_unit in Heq as [[-> [= -> ->]]|[_ ?]]; [|done].
    apply Hs. left. }
  unfold split_wildcard.
  destruct (strip_wildcards w d Hd Hw) as [[-> ->]|[(-> & -> & ->)|(-> & -> & ->)]]; cbn [app];
    by rewrite normalize_host_domain.
Qed.

Lemma parse_for_constraints_plain (w d : str) :
  domain_name d = true -> url_host_parse d = Some (to_ascii_lowercase d) -> w ∈ wildcards ->
  parse_for_constraints (w ++ d) = pattern_of w (to_ascii_lowercase d).
Proof.
  intros Hd Hu Hw. unfold parse_for_constraints. rewrite domain_name_trim, pattern_nonempty by done.
  assert (parse_domain_for_constraints d = to_ascii_lowercase d) as Hp.
  { unfold parse_domain_for_constraints. rewrite (domain_trim d Hd).
    rewrite trim_dots_domain by done. cbn zeta. case_bool_decide; [by destruct (proj1 (domain_name_inv d Hd))|].
    rewrite starts_with_false by by apply domain_name_not_in. cbn [andb].
    rewrite !(proj2 (contains_char_false _ _)) by by apply domain_name_not_in. by rewrite Hu. }
  destruct (strip_wildcards w d Hd Hw) as [[-> ->]|[(-> & -> & ->)|(-> & -> & ->)]]; cbn [app]; by rewrite Hp.
Qed.

End Plain.

Section Sound.
Context `{UrlHostParser} `{GlobLaws}.

Lemma domain_literal (d : str) : domain_name d = true -> forallb literal_char d = true.
Proof.
  intros (_ & Hall & _)%domain_name_inv. apply forallb_forall. intros c Hin%list_elem_of_In.
  specialize (Hall c Hin). unfold domain_char in Hall. unfold literal_char.
  apply orb_true_iff in Hall as [->|Hall]; [done|]. apply orb_true_iff. right.
  apply existsb_exists in Hall as (x & Hx & Hc). apply existsb_exists. exists x. split; [|done].
  change (lit "-_.") with [45; 95; 46]%N in Hx. change (lit "-_.:%") with [45; 95; 46; 58; 37]%N. cbn in *. tauto.
Qed.

(** The globs of a plain pattern match what the pattern covers. *)
Lemma plain_globs_cover (w d host : str) :
  domain_name d = true -> w ∈ wildcards ->
  (exists g, g ∈ expand_domain_pattern (normalize_pattern (w ++ d)) /\ glob_is_match g host = true) <->
  covers (pattern_of w (to_ascii_lowercase d)) host.
Proof.
  intros Hd Hw. pose proof (domain_name_lower d Hd) as Hl. pose proof (domain_literal _ Hl) as Hlit.
  rewrite normalize_pattern_plain by done. unfold expand_domain_pattern. rewrite parse_pattern_of by done.
  pose proof (glob_literal (to_ascii_lowercase d) host Hlit) as G1.
  pose proof (glob_subdomains (to_ascii_lowercase d) host Hlit) as G2.
  rewrite to_ascii_lowercase_idemp in G1, G2. pose proof (normalize_domain_id d Hd) as Hn.
  destruct (strip_wildcards w d Hd Hw) as [[-> _]|[[-> _]|[-> _]]];
    [change (pattern_of (lit "**.")) with ApexAndSubdomains | change (pattern_of (lit "*.")) with SubdomainsOnly
    |change (pattern_of []) with Exact]; cbn [covers]; rewrite Hn, <- ?G1, <- ?G2; clear; set_solver.
Qed.

(** C25. When every pattern of a user is admitted by a managed pattern, in the comparison of the
    constraints, then each host the patterns of the user match as globs is matched by the
    managed ones, for patterns that are domain names with the documented wildcards in front. *)
Theorem constrained_patterns_sound (managed candidates ms cs : list str) (host : str) :
  Forall plain_pattern managed -> Forall plain_pattern candidates ->
  Forall (fun c => existsb (fun m => allows (parse_for_constraints m) (parse_for_constraints c)) managed = true)
    candidates ->
  compile_allowlist_globset managed = Ok ms -> compile_allowlist_globset candidates = Ok cs ->
  is_match cs host = true -> is_match ms host = true.
Proof.
  intros Hm Hc Hal Hms Hcs Hmatch. rewrite (compile_matches _ _ _ _ Hcs) in Hmatch.
  destruct Hmatch as (c & g & Hin & Hg). rewrite (compile_matches _ _ _ _ Hms).
  rewrite Forall_forall in Hm, Hc, Hal. specialize (Hal c Hin).
  apply existsb_exists in Hal as (m & Hmin%list_elem_of_In & Hal).
  destruct (Hc c Hin) as (w & d & Hw & -> & Hd & Hu). destruct (Hm m Hmin) as (w' & d' & Hw' & -> & Hd' & Hu').
  rewrite !parse_for_constraints_plain in Hal by done.
  assert (covers (pattern_of w' (to_ascii_lowercase d')) host) as Hcov.
  { eapply allows_iff; [|exact Hal|].
    - replace (domain_of (pattern_of w (to_ascii_lowercase d))) with (to_ascii_lowercase d)
        by (unfold pattern_of; by repeat case_goal).
      rewrite normalize_domain_id by done. by apply domain_name_inv, domain_name_lower.
    - apply plain_globs_cover; [done|done|]. by exists g. }
  apply plain_globs_cover in Hcov as (g' & ? & ?); [|done|done]. by exists (w' ++ d'), g'.
Qed.
End Sound.

(** A parser of hosts that takes domain names only, in lower case. *)
Definition names_only : UrlHostParser :=
  {| url_host_parse := fun h => if forallb domain_char h then Some (to_ascii_lowercase h) else None |}.

Lemma constrained_patterns_sound_witness :
  is_match (H := wild_globs) [lit "?*.example.com"] (lit "API.example.com") = true.
Proof.
  apply (@constrained_patterns_sound names_only wild_globs wild_globs_laws
           [lit "*.Example.com"] [lit "api.example.com"] [lit "?*.example.com"] [lit "api.example.com"]
           (lit "API.example.com")).
  - constructor; [|constructor]. exists (lit "*."), (lit "Example.com").
    split_and!; [right; left|reflexivity|vm_compute; reflexivity|vm_compute; reflexivity].
  - constructor; [|constructor]. exists [], (lit "api.example.com").
    split_and!; [left|reflexivity|vm_compute; reflexivity|vm_compute; reflexivity].
  - constructor; [|constructor]. vm_compute. reflexivity.
  - vm_compute. reflexivity.
  - vm_compute. reflexivity.
  - vm_compute. reflexivity.
Defined.

(** ** Where the comparison and the globs disagree *)

Section Bypass.
Context `{UrlHostParser} `{GlobLaws}.

(** The comparison takes the text after a port separator for the domain, the globs the
    text before it: under a managed [*.example.com] the entry [*:x.example.com] is
    accepted, and it allows every host. *)
Lemma constraint_port_bypass (host : str) :
  url_host_parse (lit "example.com") = Some (lit "example.com") ->
  allows (parse_for_constraints (lit "*.example.com")) (parse_for_constraints (lit "*:x.example.com")) = true /\
  is_match (expand_domain_pattern (normalize_pattern (lit "*:x.example.com"))) host = true.
Proof.
  intros Hu. split.
  - assert (parse_for_constraints (lit "*.example.com") = SubdomainsOnly (lit "example.com")) as ->.
    { change (SubdomainsOnly (from_option id [] (url_host_parse (lit "example.com"))) = SubdomainsOnly (lit "example.com")).
      by rewrite Hu. }
    vm_compute. reflexivity.
  - assert (expand_domain_pattern (normalize_pattern (lit "*:x.example.com")) = [lit "*"]) as ->
      by (vm_compute; reflexivity).
    apply is_match_iff. exists (lit "*"). split; [left|apply glob_star].
Qed.

(** A host the [url] parser rejects becomes the empty domain, and two empty domains are
    equal: a managed [::1] admits [evil.com:443], which allows [evil.com]. *)
Lemma constraint_ipv6_bypass :
  url_host_parse (lit "::1") = None -> url_host_parse (lit "evil.com:443") = None ->
  allows (parse_for_constraints (lit "::1")) (parse_for_constraints (lit "evil.com:443")) = true /\
  is_match (expand_domain_pattern (normalize_pattern (lit "evil.com:443"))) (lit "evil.com") = true.
Proof.
  intros Hu Hv. split.
  - change (allows (Exact (from_option id [] (url_host_parse (lit "::1"))))
              (Exact (from_option id [] (url_host_parse (lit "evil.com:443")))) = true).
    rewrite Hu, Hv. vm_compute. reflexivity.
  - assert (expand_domain_pattern (normalize_pattern (lit "evil.com:443")) = [lit "evil.com"]) as ->
      by (vm_compute; reflexivity).
    apply is_match_iff. exists (lit "evil.com"). split; [left|]. by apply glob_literal.
Qed.
End Bypass.

(** IPv6 literals are compared as text: another spelling of a denied address is another host. *)
Example ipv6_spelling_not_denied :
  compile_denylist_globset (H := wild_globs) [lit "2606:4700::1"] = Ok [lit "2606:4700::1"] /\
  parse_ip (lit "2606:4700:0::1") = parse_ip (lit "2606:4700::1") /\
  normalize_host (lit "2606:4700:0::1") = lit "2606:4700:0::1" /\
  is_match (H := wild_globs) [lit "2606:4700::1"] (lit "2606:4700:0::1") = false.
Proof. vm_compute. done. Qed.

(** Documentation addresses and addresses of NAT64 that embed a private address count as
    public, though they are not globally routable. *)
Example not_routable_ipv6_public :
  is_non_public_ip <$> parse_ip (lit "2001:db8::1") = Some false /\
  is_non_public_ip <$> parse_ip (lit "64:ff9b:1::10.0.0.1") = Some false.
Proof. vm_compute. done. Qed.
