(* ===== verification/NetworkConfig.v ===== *)
(** * The settings of the network proxy

    network-proxy/src/config.rs: permissions of domains and Unix sockets, the settings
    record, the lists read from it ([allowed_domains], [denied_domains]), the edits of
    those lists, and the addresses the proxy binds to, with the configuration types of
    the hooks of network-proxy/src/mitm_hook.rs.  The parser of the crate [url] is a
    parameter ([UrlParser]); the machine is the one of [Host].

    [denied_domains_iff] and [allowed_domains_iff]: for each pattern the strictest entry
    counts; [upsert_domain_lists]: an update decides for all spellings of a host;
    [bind_addresses_loopback]: the proxy is reachable from other machines only if the
    dangerous setting says so and no Unix socket is proxied. *)

From stdpp Require Import base numbers list gmap strings.
From Stdlib Require Import Lia NArith.
From S2P Require Import Prelude AbsolutePath Host IpAddr NetworkPolicy.

(** ** Hook configuration *)

(** A [BTreeMap<String, V>] is its entries in the order of the keys. *)
Abbreviation BTree V := (list (str * V)) (only parsing).

(** [MitmHookBodyConfig]: a JSON value, kept as its text and not looked into. *)
Record MitmHookBodyConfig : Type := mkHookBodyConfig { body_value : str }.

Record MitmHookMatchConfig : Type := mkHookMatchConfig {
  hmc_methods : list str;
  hmc_path_prefixes : list str;
  hmc_query : BTree (list str);
  hmc_headers : BTree (list str);
  hmc_body : option MitmHookBodyConfig
}.

Record InjectedHeaderConfig : Type := mkInjectedHeaderConfig {
  ihc_name : str;
  ihc_secret_env_var : option str;
  ihc_secret_file : option str;
  ihc_prefix : option str
}.

Record MitmHookActionsConfig : Type := mkHookActionsConfig {
  hac_strip_request_headers : list str;
  hac_inject_request_headers : list InjectedHeaderConfig
}.

Record MitmHookConfig : Type := mkHookConfig {
  hc_host : str;
  hc_matcher : MitmHookMatchConfig;
  hc_actions : MitmHookActionsConfig
}.

#[export] Instance MitmHookBodyConfig_eq_dec : EqDecision MitmHookBodyConfig.
Proof. solve_decision. Defined.
#[export] Instance MitmHookMatchConfig_eq_dec : EqDecision MitmHookMatchConfig.
Proof. solve_decision. Defined.
#[export] Instance InjectedHeaderConfig_eq_dec : EqDecision InjectedHeaderConfig.
Proof. solve_decision. Defined.
#[export] Instance MitmHookActionsConfig_eq_dec : EqDecision MitmHookActionsConfig.
Proof. solve_decision. Defined.
#[export] Instance MitmHookConfig_eq_dec : EqDecision MitmHookConfig.
Proof. solve_decision. Defined.

(** ** Permissions *)

(** Declared in the order of their precedence. *)
Inductive NetworkDomainPermission : Type := DomainNone | DomainAllow | DomainDeny.

Definition permission_rank (p : NetworkDomainPermission) : nat :=
  match p with DomainNone => 0 | DomainAllow => 1 | DomainDeny => 2 end.
(** [<NetworkDomainPermission as Ord>::gt]. *)
Definition permission_gt (p q : NetworkDomainPermission) : bool := (permission_rank q <? permission_rank p)%nat.

Record NetworkDomainPermissionEntry : Type := mkDomainEntry {
  de_pattern : str;
  de_permission : NetworkDomainPermission
}.

(** [NetworkDomainPermissions]: its entries. *)
Record NetworkDomainPermissions : Type := mkDomainPermissions {
  dp_entries : list NetworkDomainPermissionEntry
}.

#[export] Instance NetworkDomainPermission_eq_dec : EqDecision NetworkDomainPermission.
Proof. solve_decision. Defined.
#[export] Instance NetworkDomainPermissionEntry_eq_dec : EqDecision NetworkDomainPermissionEntry.
Proof. solve_decision. Defined.
#[export] Instance NetworkDomainPermissions_eq_dec : EqDecision NetworkDomainPermissions.
Proof. solve_decision. Defined.

(** The first loop of [effective_entries]: the patterns in the order they first occur,
    and the strictest permission of each. *)
Definition effective_step (acc : list str * gmap str NetworkDomainPermission)
    (entry : NetworkDomainPermissionEntry) : list str * gmap str NetworkDomainPermission :=
  let '(order, effective) := acc in
  match effective !! de_pattern entry with
  | None => (order ++ [de_pattern entry], <[de_pattern entry := de_permission entry]> effective)
  | Some permission =>
      (order, if permission_gt (de_permission entry) permission
              then <[de_pattern entry := de_permission entry]> effective else effective)
  end.

(** The second: each pattern is taken out of the map once. *)
Fixpoint take_effective (order : list str) (effective : gmap str NetworkDomainPermission) :
    list NetworkDomainPermissionEntry :=
  match order with
  | [] => []
  | pattern :: rest =>
      match effective !! pattern with
      | Some permission => mkDomainEntry pattern permission :: take_effective rest (delete pattern effective)
      | None => take_effective rest effective
      end
  end.

Definition effective_entries (self : NetworkDomainPermissions) : list NetworkDomainPermissionEntry :=
  let '(order, effective) := fold_left effective_step (dp_entries self) ([], ∅) in
  take_effective order effective.

Inductive NetworkUnixSocketPermission : Type := SocketAllow | SocketDeny.
#[export] Instance NetworkUnixSocketPermission_eq_dec : EqDecision NetworkUnixSocketPermission.
Proof. solve_decision. Defined.

Record NetworkUnixSocketPermissions : Type := mkSocketPermissions {
  sp_entries : BTree NetworkUnixSocketPermission
}.
#[export] Instance NetworkUnixSocketPermissions_eq_dec : EqDecision NetworkUnixSocketPermissions.
Proof. solve_decision. Defined.

(** [BTreeMap::insert]. *)
Fixpoint btree_insert {V} (key : str) (value : V) (m : BTree V) : BTree V :=
  match m with
  | [] => [(key, value)]
  | (k, v) :: rest =>
      if k =s? key then (key, value) :: rest
      else if str_leb key k then (key, value) :: m
      else (k, v) :: btree_insert key value rest
  end.

(** ** Settings *)

Inductive NetworkMode : Type := Limited | Full.
#[export] Instance NetworkMode_eq_dec : EqDecision NetworkMode.
Proof. solve_decision. Defined.

Definition allows_method (self : NetworkMode) (method : str) : bool :=
  match self with
  | Full => true
  | Limited => (method =s? lit "GET") || (method =s? lit "HEAD") || (method =s? lit "OPTIONS")
  end.

Record NetworkProxySettings : Type := mkSettings {
  ns_enabled : bool;
  ns_proxy_url : str;
  ns_enable_socks5 : bool;
  ns_socks_url : str;
  ns_enable_socks5_udp : bool;
  ns_allow_upstream_proxy : bool;
  ns_dangerously_allow_non_loopback_proxy : bool;
  ns_dangerously_allow_all_unix_sockets : bool;
  ns_mode : NetworkMode;
  ns_domains : option NetworkDomainPermissions;
  ns_unix_sockets : option NetworkUnixSocketPermissions;
  ns_allow_local_binding : bool;
  ns_mitm : bool;
  ns_mitm_hooks : list MitmHookConfig
}.

(** [NetworkProxyConfig]: a record around the settings. *)
Record NetworkProxyConfig : Type := mkConfig { network : NetworkProxySettings }.

#[export] Instance NetworkProxySettings_eq_dec : EqDecision NetworkProxySettings.
Proof. solve_decision. Defined.
#[export] Instance NetworkProxyConfig_eq_dec : EqDecision NetworkProxyConfig.
Proof. solve_decision. Defined.

Definition default_proxy_url : str := lit "http://127.0.0.1:3128".
Definition default_socks_url : str := lit "http://127.0.0.1:8081".

Definition NetworkProxySettings_default : NetworkProxySettings :=
  mkSettings false default_proxy_url true default_socks_url true true false false Full None None false false [].

(** Assignments to single fields. *)
Definition with_domains (s : NetworkProxySettings) (d : option NetworkDomainPermissions) : NetworkProxySettings :=
  mkSettings (ns_enabled s) (ns_proxy_url s) (ns_enable_socks5 s) (ns_socks_url s) (ns_enable_socks5_udp s)
    (ns_allow_upstream_proxy s) (ns_dangerously_allow_non_loopback_proxy s)
    (ns_dangerously_allow_all_unix_sockets s) (ns_mode s) d (ns_unix_sockets s) (ns_allow_local_binding s)
    (ns_mitm s) (ns_mitm_hooks s).
Definition with_unix_sockets (s : NetworkProxySettings) (u : option NetworkUnixSocketPermissions) :
    NetworkProxySettings :=
  mkSettings (ns_enabled s) (ns_proxy_url s) (ns_enable_socks5 s) (ns_socks_url s) (ns_enable_socks5_udp s)
    (ns_allow_upstream_proxy s) (ns_dangerously_allow_non_loopback_proxy s)
    (ns_dangerously_allow_all_unix_sockets s) (ns_mode s) (ns_domains s) u (ns_allow_local_binding s)
    (ns_mitm s) (ns_mitm_hooks s).
Definition with_mode (s : NetworkProxySettings) (m : NetworkMode) : NetworkProxySettings :=
  mkSettings (ns_enabled s) (ns_proxy_url s) (ns_enable_socks5 s) (ns_socks_url s) (ns_enable_socks5_udp s)
    (ns_allow_upstream_proxy s) (ns_dangerously_allow_non_loopback_proxy s)
    (ns_dangerously_allow_all_unix_sockets s) m (ns_domains s) (ns_unix_sockets s) (ns_allow_local_binding s)
    (ns_mitm s) (ns_mitm_hooks s).

Definition domain_entries (self : NetworkProxySettings) (permission : NetworkDomainPermission) :
    option (list str) :=
  domains ← ns_domains self;
  let entries := de_pattern <$> List.filter (fun e => bool_decide (de_permission e = permission))
                                  (effective_entries domains) in
  if entries =s? [] then None else Some entries.

Definition allowed_domains (self : NetworkProxySettings) : option (list str) := domain_entries self DomainAllow.
Definition denied_domains (self : NetworkProxySettings) : option (list str) := domain_entries self DomainDeny.

Definition allow_unix_sockets (self : NetworkProxySettings) : list str :=
  match ns_unix_sockets self with
  | Some sockets => fst <$> List.filter (fun e => bool_decide (e.2 = SocketAllow)) (sp_entries sockets)
  | None => []
  end.

(** [(!entries.is_empty()).then_some(domains)]. *)
Definition some_domains (entries : list NetworkDomainPermissionEntry) : option NetworkDomainPermissions :=
  if entries =s? [] then None else Some (mkDomainPermissions entries).

Definition entries_of (domains : option NetworkDomainPermissions) : list NetworkDomainPermissionEntry :=
  match domains with Some d => dp_entries d | None => [] end.

Definition upsert_domain_permission (self : NetworkProxySettings) (host : str)
    (permission : NetworkDomainPermission) (normalize : str -> str) : NetworkProxySettings :=
  let normalized_host := normalize host in
  let kept := List.filter (fun e => negb (normalize (de_pattern e) =s? normalized_host))
                (entries_of (ns_domains self)) in
  with_domains self (some_domains (kept ++ [mkDomainEntry host permission])).

Definition set_domain_entries (self : NetworkProxySettings) (entries : list str)
    (permission : NetworkDomainPermission) : NetworkProxySettings :=
  let kept := List.filter (fun e => negb (bool_decide (de_permission e = permission)))
                (entries_of (ns_domains self)) in
  let pushed := fold_left (fun acc entry =>
    if existsb (fun e => (de_pattern e =s? entry) && bool_decide (de_permission e = permission)) acc then acc
    else acc ++ [mkDomainEntry entry permission]) entries kept in
  with_domains self (some_domains pushed).

Definition set_allowed_domains (self : NetworkProxySettings) (l : list str) : NetworkProxySettings :=
  set_domain_entries self l DomainAllow.
Definition set_denied_domains (self : NetworkProxySettings) (l : list str) : NetworkProxySettings :=
  set_domain_entries self l DomainDeny.

Definition set_unix_socket_entries (self : NetworkProxySettings) (entries : list str)
    (permission : NetworkUnixSocketPermission) : NetworkProxySettings :=
  let kept := List.filter (fun e => negb (bool_decide (e.2 = permission)))
                (match ns_unix_sockets self with Some u => sp_entries u | None => [] end) in
  let inserted := fold_left (fun m entry => btree_insert entry permission m) entries kept in
  with_unix_sockets self (if inserted =s? [] then None else Some (mkSocketPermissions inserted)).

Definition set_allow_unix_sockets (self : NetworkProxySettings) (l : list str) : NetworkProxySettings :=
  set_unix_socket_entries self l SocketAllow.

(** ** Addresses *)

(** [SocketAddr]. *)
Record SocketAddr : Type := mkAddr { addr_ip : IpAddr; addr_port : N }.

Definition loopback_v4 : IpAddr := V4 (mkV4 127 0 0 1).

Definition clamp_non_loopback (addr : SocketAddr) (allow_non_loopback : bool) : SocketAddr :=
  if is_loopback (addr_ip addr) then addr
  else if allow_non_loopback then addr
  else mkAddr loopback_v4 (addr_port addr).

Definition clamp_bind_addrs (http_addr socks_addr : SocketAddr) (cfg : NetworkProxySettings) :
    SocketAddr * SocketAddr :=
  let http_addr := clamp_non_loopback http_addr (ns_dangerously_allow_non_loopback_proxy cfg) in
  let socks_addr := clamp_non_loopback socks_addr (ns_dangerously_allow_non_loopback_proxy cfg) in
  if (allow_unix_sockets cfg =s? []) && negb (ns_dangerously_allow_all_unix_sockets cfg)
  then (http_addr, socks_addr)
  else (mkAddr loopback_v4 (addr_port http_addr), mkAddr loopback_v4 (addr_port socks_addr)).

(** Errors of this file. *)
Inductive ConfigError : Type :=
| MissingHost (url : str)
| ExpectedAbsolutePath (socket_path : str)
| FailedToNormalize (socket_path : str)
| InvalidUnixSocket (index : nat) (err : ConfigError)
| InvalidProxyUrl (url : str) (err : ConfigError)
| InvalidSocksUrl (url : str) (err : ConfigError).

(** [Url::parse]: the host and the explicit port of a URL. *)
Class UrlParser : Type := { url_parse : str -> option (option str * option N) }.

Record SocketAddressParts : Type := mkParts { sap_host : str; sap_port : N }.

Definition AT : char := 64%N.

(** [<u16 as FromStr>::from_str]: digits, after an optional plus sign. *)
Definition parse_u16 (s : str) : option N :=
  let digits := from_option id s (strip_prefix [PLUS] s) in
  if digits =s? [] then None
  else if forallb is_ascii_digit digits
  then let n := fold_left (fun n c => n * 10 + (c - 48))%N digits 0%N in
       if (n <=? 65535)%N then Some n else None
  else None.

Definition parse_host_port_fallback (input : str) (default_port : N) : result ConfigError SocketAddressParts :=
  let without_scheme := from_option snd input (find_sub (lit "://") input) in
  let host_port := from_option id without_scheme (head (split_on SLASH without_scheme)) in
  let host_port := from_option snd host_port (rsplit_once AT host_port) in
  let unbracketed :=
    match (if (count_char COLON host_port =? 1)%nat then rsplit_once COLON host_port else None) with
    | Some (host, port) =>
        if host =s? [] then Err (MissingHost input)
        else Ok (mkParts host (from_option id default_port (parse_u16 port)))
    | None => if host_port =s? [] then Err (MissingHost input) else Ok (mkParts host_port default_port)
    end in
  if starts_with [LBRACKET] host_port then
    match split_once RBRACKET host_port with
    | Some (upto, after) =>
        let host := drop 1 upto in
        let port := from_option id default_port (strip_prefix [COLON] after ≫= parse_u16) in
        if host =s? [] then Err (MissingHost input) else Ok (mkParts host port)
    | None => unbracketed
    end
  else unbracketed.

(** [ValidatedUnixSocketPath]; on Unix a path that starts with [/] is absolute. *)
Inductive ValidatedUnixSocketPath : Type :=
| Native (p : path)
| UnixStyleAbsolute (p : str).

(** [RuntimeConfig]: the two addresses. *)
Record RuntimeConfig : Type := mkRuntimeConfig { http_addr : SocketAddr; socks_addr : SocketAddr }.

Section Addresses.
Context `{UrlParser}.

Definition parse_host_port (url : str) (default_port : N) : result ConfigError SocketAddressParts :=
  let trimmed := trim url in
  if trimmed =s? [] then Err (MissingHost url)
  else if match parse_ip trimmed with Some (V6 _) => true | _ => false end && negb (starts_with [LBRACKET] trimmed)
  then Ok (mkParts trimmed default_port)
  else
    let candidate := if contains_str (lit "://") trimmed then trimmed else lit "http://" ++ trimmed in
    match url_parse candidate with
    | Some (Some host, port) =>
        let bracket c := ((c =? LBRACKET) || (c =? RBRACKET))%N in
        let host := drop_end_while bracket (drop_while bracket host) in
        if host =s? [] then Err (MissingHost url)
        else Ok (mkParts host (from_option id default_port port))
    | _ => parse_host_port_fallback trimmed default_port
    end.

Definition resolve_addr (url : str) (default_port : N) : result ConfigError SocketAddr :=
  addr_parts ← parse_host_port url default_port;
  let host := if eq_ignore_ascii_case (sap_host addr_parts) (lit "localhost") then lit "127.0.0.1"
              else sap_host addr_parts in
  match parse_ip host with
  | Some ip => Ok (mkAddr ip (sap_port addr_parts))
  | None => Ok (mkAddr loopback_v4 (sap_port addr_parts))
  end.

Definition format_host_and_port (host : str) (port : N) : str :=
  if contains_char COLON host then lit "[" ++ host ++ lit "]:" ++ show_N port else host ++ lit ":" ++ show_N port.

Definition host_and_port_from_network_addr (value : str) (default_port : N) : str :=
  let trimmed := trim value in
  if trimmed =s? [] then lit "<missing>"
  else match parse_host_port trimmed default_port with
       | Ok parts => format_host_and_port (sap_host parts) (sap_port parts)
       | Err _ => format_host_and_port trimmed default_port
       end.

Context (M : Host).

Definition UnixStyleAbsolutePath_parse (value : str) : option str :=
  if starts_with [SLASH] value then Some value else None.

Definition ValidatedUnixSocketPath_parse (socket_path : str) : result ConfigError ValidatedUnixSocketPath :=
  if is_absolute (components socket_path) then
    match abs_from M socket_path with
    | Some p => Ok (Native p)
    | None => Err (FailedToNormalize socket_path)
    end
  else match UnixStyleAbsolutePath_parse socket_path with
       | Some p => Ok (UnixStyleAbsolute p)
       | None => Err (ExpectedAbsolutePath socket_path)
       end.

Fixpoint validate_socket_paths (index : nat) (paths : list str) : result ConfigError unit :=
  match paths with
  | [] => Ok tt
  | socket_path :: rest =>
      _ ← map_err (InvalidUnixSocket index) (ValidatedUnixSocketPath_parse socket_path);
      validate_socket_paths (S index) rest
  end.

Definition validate_unix_socket_allowlist_paths (cfg : NetworkProxyConfig) : result ConfigError unit :=
  validate_socket_paths 0 (allow_unix_sockets (network cfg)).

Definition resolve_runtime (cfg : NetworkProxyConfig) : result ConfigError RuntimeConfig :=
  _ ← validate_unix_socket_allowlist_paths cfg;
  http ← map_err (InvalidProxyUrl (ns_proxy_url (network cfg))) (resolve_addr (ns_proxy_url (network cfg)) 3128);
  socks ← map_err (InvalidSocksUrl (ns_socks_url (network cfg))) (resolve_addr (ns_socks_url (network cfg)) 8081);
  let '(http, socks) := clamp_bind_addrs http socks (network cfg) in
  Ok (mkRuntimeConfig http socks).
End Addresses.

(** ** The strictest entry of a pattern counts *)

Section Effective.

Definition has_entry (entries : list NetworkDomainPermissionEntry) (p : str) (perm : NetworkDomainPermission) : Prop :=
  mkDomainEntry p perm ∈ entries.

(** The strictest permission among the entries of a pattern. *)
Definition strictest (entries : list NetworkDomainPermissionEntry) (p : str) (perm : NetworkDomainPermission) : Prop :=
  has_entry entries p perm /\
  forall q, has_entry entries p q -> (permission_rank q <= permission_rank perm)%nat.

Lemma permission_rank_inj (p q : NetworkDomainPermission) : permission_rank p = permission_rank q -> p = q.
Proof. by destruct p, q. Qed.

Lemma strictest_fun entries p perm perm' :
  strictest entries p perm -> strictest entries p perm' -> perm = perm'.
Proof. intros [H1 H2] [H3 H4]. apply permission_rank_inj. apply H2 in H3. apply H4 in H1. lia. Qed.

Definition fold_ok (done : list NetworkDomainPermissionEntry)
    (acc : list str * gmap str NetworkDomainPermission) : Prop :=
  NoDup acc.1 /\
  (forall p, p ∈ acc.1 <-> is_Some (acc.2 !! p)) /\
  (forall p perm, has_entry done p perm -> is_Some (acc.2 !! p)) /\
  (forall p perm, acc.2 !! p = Some perm <-> strictest done p perm).

Lemma has_entry_snoc entries e p perm :
  has_entry (entries ++ [e]) p perm <-> has_entry entries p perm \/ (de_pattern e = p /\ de_permission e = perm).
Proof.
  unfold has_entry. rewrite elem_of_app, list_elem_of_singleton. destruct e; cbn. naive_solver.
Qed.

Lemma strictest_other entries e p perm :
  de_pattern e <> p -> strictest (entries ++ [e]) p perm <-> strictest entries p perm.
Proof. intros Hne. unfold strictest. setoid_rewrite has_entry_snoc. naive_solver. Qed.

Lemma strictest_first entries e perm :
  (forall q, ~ has_entry entries (de_pattern e) q) ->
  strictest (entries ++ [e]) (de_pattern e) perm <-> perm = de_permission e.
Proof.
  intros Hnone. unfold strictest. setoid_rewrite has_entry_snoc. split.
  - intros [[?|[_ ?]] _]; [|done]. by destruct (Hnone perm).
  - intros ->. split; [by right|]. intros q [?|[_ <-]]; [|done]. by destruct (Hnone q).
Qed.

Lemma strictest_again entries e old perm :
  strictest entries (de_pattern e) old ->
  strictest (entries ++ [e]) (de_pattern e) perm <->
  perm = if permission_gt (de_permission e) old then de_permission e else old.
Proof.
  intros [Hin Hmax].
  assert (strictest (entries ++ [e]) (de_pattern e)
            (if permission_gt (de_permission e) old then de_permission e else old)) as Hs.
  { unfold strictest, permission_gt. setoid_rewrite has_entry_snoc.
    destruct (Nat.ltb_spec (permission_rank old) (permission_rank (de_permission e))).
    - split; [by right|]. intros q [Hq|[_ <-]]; [apply Hmax in Hq; lia|done].
    - split; [by left|]. intros q [Hq|[_ <-]]; [by apply Hmax|done]. }
  split; [intros Hp; by eapply strictest_fun|by intros ->].
Qed.

Lemma effective_step_ok done acc e : fold_ok done acc -> fold_ok (done ++ [e]) (effective_step acc e).
Proof.
  destruct acc as [order m]. intros (Hnd & Hord & Hhas & Hm). cbn [fst snd] in *. unfold effective_step.
  destruct (m !! de_pattern e) as [old|] eqn:Hl.
  - pose proof (proj1 (Hm _ _) Hl) as Hs. split_and!; cbn [fst snd]; [done| | |].
    + intros p. rewrite Hord. destruct (permission_gt _ _); [|done].
      rewrite lookup_insert_is_Some. destruct (decide (de_pattern e = p)); naive_solver.
    + intros p perm Hp%has_entry_snoc. assert (is_Some (m !! p)) by (destruct Hp as [?|[<- _]]; eauto).
      destruct (permission_gt _ _); [|done]. apply lookup_insert_is_Some. destruct (decide (de_pattern e = p)); eauto.
    + intros p perm. destruct (decide (de_pattern e = p)) as [<-|Hne].
      * rewrite (strictest_again _ _ old) by done.
        destruct (permission_gt _ _); rewrite ?lookup_insert_eq, ?Hl; naive_solver.
      * rewrite strictest_other, <- Hm by done. destruct (permission_gt _ _); [|done].
        by rewrite lookup_insert_ne.
  - assert (forall q, ~ has_entry done (de_pattern e) q) as Hnone.
    { intros q Hq. apply Hhas in Hq as [? ?]. congruence. }
    split_and!; cbn [fst snd].
    + apply NoDup_app. split_and!; [done| |apply NoDup_singleton].
      intros p Hp%Hord ->%list_elem_of_singleton. rewrite Hl in Hp. by destruct Hp.
    + intros p. rewrite elem_of_app, list_elem_of_singleton, Hord, lookup_insert_is_Some. 
      destruct (decide (de_pattern e = p)); naive_solver.
    + intros p perm Hp%has_entry_snoc. apply lookup_insert_is_Some. destruct (decide (de_pattern e = p)); [by left|].
      right. split; [done|]. destruct Hp as [?|[? _]]; [eauto|done].
    + intros p perm. destruct (decide (de_pattern e = p)) as [<-|Hne].
      * rewrite strictest_first, lookup_insert_eq by done. naive_solver.
      * by rewrite strictest_other, <- Hm, lookup_insert_ne by done.
Qed.

Lemma effective_fold_ok entries : fold_ok entries (fold_left effective_step entries ([], ∅)).
Proof.
  induction entries as [|e entries IH] using rev_ind.
  - unfold fold_ok. cbn [fst snd fold_left]. split_and!; [constructor| | |].
    + intros p. rewrite lookup_empty. split; [by intros ?%elem_of_nil|by intros [? ?]].
    + by intros p perm ?%elem_of_nil.
    + intros p perm. rewrite lookup_empty. split; [done|]. by intros [?%elem_of_nil _].
  - rewrite fold_left_app. by apply effective_step_ok.
Qed.

Lemma take_effective_elem order m e :
  NoDup order ->
  e ∈ take_effective order m <-> de_pattern e ∈ order /\ m !! de_pattern e = Some (de_permission e).
Proof.
  intros Hnd. revert m. induction Hnd as [|p order Hp Hnd IH]; intros m; cbn.
  { rewrite !elem_of_nil. tauto. }
  destruct (m !! p) as [perm|] eqn:Hl.
  - rewrite !elem_of_cons, IH. destruct (decide (de_pattern e = p)) as [Heq|Hne].
    + rewrite Heq, Hl, lookup_delete_eq. destruct e; cbn in *. naive_solver.
    + rewrite lookup_delete_ne by done. destruct e; cbn in *. naive_solver.
  - rewrite elem_of_cons, IH. naive_solver congruence.
Qed.

(** [effective_entries] has each pattern with the strictest of its permissions. *)
Lemma effective_entries_elem self e :
  e ∈ effective_entries self <-> strictest (dp_entries self) (de_pattern e) (de_permission e).
Proof.
  unfold effective_entries. pose proof (effective_fold_ok (dp_entries self)) as Hok.
  destruct (fold_left _ _ _) as [order m]. destruct Hok as (Hnd & Hord & _ & Hm). cbn [fst snd] in *.
  rewrite take_effective_elem, Hord, Hm by done. split; [by intros [_ ?]|].
  intros Hs. split; [|done]. apply Hm in Hs. eauto.
Qed.

Lemma domain_entries_elem self perm p :
  p ∈ default [] (domain_entries self perm) <-> strictest (entries_of (ns_domains self)) p perm.
Proof.
  unfold domain_entries. destruct (ns_domains self) as [domains|]; cbn [mbind option_bind entries_of].
  - set (l := _ <$> _). assert (p ∈ l <-> strictest (dp_entries domains) p perm) as Hl.
    { subst l. rewrite list_elem_of_fmap. setoid_rewrite elem_of_filter_bool. setoid_rewrite effective_entries_elem.
      setoid_rewrite bool_decide_eq_true. split.
      - by intros (e & -> & ? & <-).
      - intros Hs. by exists (mkDomainEntry p perm). }
    rewrite <- Hl. case_bool_decide as Hn; cbn; [by rewrite Hn|done].
  - split; [by intros ?%elem_of_nil|by intros [?%elem_of_nil _]].
Qed.

(** A pattern is denied iff an entry denies it. *)
Lemma denied_domains_iff self p :
  p ∈ default [] (denied_domains self) <-> has_entry (entries_of (ns_domains self)) p DomainDeny.
Proof.
  unfold denied_domains. rewrite domain_entries_elem. unfold strictest. split; [by intros [? _]|].
  intros Hp. split; [done|]. intros [] _; cbn; lia.
Qed.

(** A pattern is allowed iff an entry allows it and none denies it. *)
Lemma allowed_domains_iff self p :
  p ∈ default [] (allowed_domains self) <->
  has_entry (entries_of (ns_domains self)) p DomainAllow /\ ~ has_entry (entries_of (ns_domains self)) p DomainDeny.
Proof.
  unfold allowed_domains. rewrite domain_entries_elem. unfold strictest. split.
  - intros [Hp Hmax]. split; [done|]. intros Hd%Hmax. cbn in Hd. lia.
  - intros [Hp Hd]. split; [done|]. intros [] Hq; cbn; [lia|lia|done].
Qed.
End Effective.

(** A list of domains is [Some] only when it is not empty. *)
Lemma domain_entries_nonempty self perm l : domain_entries self perm = Some l -> l <> [].
Proof. unfold domain_entries. intros (d & _ & Hl)%bind_Some. case_bool_decide; [done|]. by simplify_eq. Qed.

(** ** Updates *)

Lemma entries_of_some_domains l : entries_of (some_domains l) = l.
Proof. unfold some_domains. case_bool_decide as Hl; [by rewrite Hl|done]. Qed.

Lemma upsert_entries self host perm normalize e :
  e ∈ entries_of (ns_domains (upsert_domain_permission self host perm normalize)) <->
  e = mkDomainEntry host perm \/
  (e ∈ entries_of (ns_domains self) /\ normalize (de_pattern e) <> normalize host).
Proof.
  unfold upsert_domain_permission. cbn [ns_domains with_domains].
  rewrite entries_of_some_domains, elem_of_app, list_elem_of_singleton, elem_of_filter_bool.
  rewrite negb_true_iff, bool_decide_eq_false. tauto.
Qed.

(** After an update no other spelling of the host is in either list, and other
    patterns are as before. *)
Lemma upsert_domain_lists self host perm normalize p :
  (p ∈ default [] (denied_domains (upsert_domain_permission self host perm normalize)) <->
   (p = host /\ perm = DomainDeny) \/ (p ∈ default [] (denied_domains self) /\ normalize p <> normalize host)) /\
  (p ∈ default [] (allowed_domains (upsert_domain_permission self host perm normalize)) <->
   (p = host /\ perm = DomainAllow) \/ (p ∈ default [] (allowed_domains self) /\ normalize p <> normalize host)).
Proof.
  rewrite !denied_domains_iff, !allowed_domains_iff. unfold has_entry. rewrite !upsert_entries. cbn [de_pattern].
  split; [naive_solver|]. split.
  - intros [[[= <- <-]|[? ?]] Hd]; [by left|right]. split; [split; [done|]|done]. intros ?. apply Hd. by right.
  - intros [[-> ->]|[[? Hd] ?]].
    + split; [by left|]. intros [?|[_ ?]]; done.
    + split; [by right|]. intros [[= <- <-]|[? _]]; done.
Qed.

(** ** The proxy listens on loopback *)

Lemma clamp_loopback addr : is_loopback (addr_ip (clamp_non_loopback addr false)) = true.
Proof. unfold clamp_non_loopback. by destruct (is_loopback (addr_ip addr)) eqn:?. Qed.

(** The addresses the proxy binds to are loopback addresses unless the configuration sets
    [dangerously_allow_non_loopback_proxy], and also then when any Unix socket may be
    reached through it. *)
Theorem bind_addresses_loopback `{UrlParser} (M : Host) (cfg : NetworkProxyConfig) (rc : RuntimeConfig) :
  resolve_runtime M cfg = Ok rc ->
  ns_dangerously_allow_non_loopback_proxy (network cfg) = false \/
  ns_dangerously_allow_all_unix_sockets (network cfg) = true \/ allow_unix_sockets (network cfg) <> [] ->
  is_loopback (addr_ip (http_addr rc)) = true /\ is_loopback (addr_ip (socks_addr rc)) = true.
Proof.
  unfold resolve_runtime. intros Hok Hset. apply result_bind_ok in Hok as (_ & _ & Hok).
  apply result_bind_ok in Hok as (a & _ & Hok). apply result_bind_ok in Hok as (b & _ & Hok).
  unfold clamp_bind_addrs in Hok. destruct (_ && _) eqn:Hs; simplify_eq/=; [|done].
  apply andb_true_iff in Hs as [Hs1 Hs2]. bool_to_prop.
  destruct Hset as [->|[Hd|?]]; [|congruence|done]. split; apply clamp_loopback.
Qed.

(** A URL parser that rejects everything: the addresses come from the fallback. *)
Definition no_urls : UrlParser := {| url_parse := fun _ => None |}.
Definition bare_host : Host :=
  mkHost None (Some [RootDir]) None (fun _ => false) (fun _ => false) (fun _ => false) (fun _ => None)
    (fun _ => None) (fun _ => None).

Definition socket_config : NetworkProxyConfig :=
  mkConfig (set_allow_unix_sockets
    (mkSettings true (lit "http://0.0.0.0:3128") true (lit "[::]:8081") true true true false Full None None
       false false []) [lit "/var/run/docker.sock"]).

Lemma bind_addresses_loopback_witness :
  exists rc, resolve_runtime (H := no_urls) bare_host socket_config = Ok rc /\
             is_loopback (addr_ip (http_addr rc)) = true /\ is_loopback (addr_ip (socks_addr rc)) = true.
Proof.
  eexists. split; [vm_compute; reflexivity|].
  apply (@bind_addresses_loopback no_urls bare_host socket_config).
  - vm_compute. reflexivity.
  - right. right. vm_compute. discriminate.
Defined.

(** ** Replacing the entries of one permission *)

Lemma push_entries_elem perm entries acc e :
  e ∈ fold_left (fun acc entry =>
        if existsb (fun e => (de_pattern e =s? entry) && bool_decide (de_permission e = perm)) acc then acc
        else acc ++ [mkDomainEntry entry perm]) entries acc <->
  e ∈ acc \/ (de_permission e = perm /\ de_pattern e ∈ entries).
Proof.
  revert acc. induction entries as [|p entries IH]; intros acc; cbn [fold_left].
  { rewrite elem_of_nil. tauto. }
  rewrite IH, elem_of_cons. destruct (existsb _ acc) eqn:Hex.
  - apply existsb_exists in Hex as ([q r] & Hin%list_elem_of_In & Hq). cbn in Hq.
    apply andb_true_iff in Hq as [->%bool_decide_eq_true_1 ->%bool_decide_eq_true_1].
    split; [naive_solver|]. intros [?|[<- [<-|?]]]; [by left| |naive_solver]. left. by destruct e.
  - rewrite elem_of_app, list_elem_of_singleton. destruct e as [q r]; cbn. naive_solver.
Qed.

Lemma set_domain_entries_elem self l perm e :
  e ∈ entries_of (ns_domains (set_domain_entries self l perm)) <->
  (de_permission e <> perm /\ e ∈ entries_of (ns_domains self)) \/ (de_permission e = perm /\ de_pattern e ∈ l).
Proof.
  unfold set_domain_entries. cbn [ns_domains with_domains]. rewrite entries_of_some_domains, push_entries_elem.
  rewrite elem_of_filter_bool, negb_true_iff, bool_decide_eq_false. tauto.
Qed.

Lemma set_allowed_has_entry self l p perm :
  has_entry (entries_of (ns_domains (set_allowed_domains self l))) p perm <->
  match perm with DomainAllow => p ∈ l | _ => has_entry (entries_of (ns_domains self)) p perm end.
Proof. unfold has_entry, set_allowed_domains. rewrite set_domain_entries_elem. destruct perm; cbn; naive_solver. Qed.

Lemma set_denied_has_entry self l p perm :
  has_entry (entries_of (ns_domains (set_denied_domains self l))) p perm <->
  match perm with DomainDeny => p ∈ l | _ => has_entry (entries_of (ns_domains self)) p perm end.
Proof. unfold has_entry, set_denied_domains. rewrite set_domain_entries_elem. destruct perm; cbn; naive_solver. Qed.

(** The tests of config.rs: a conflict is decided for the denial. *)
Example deny_wins_over_allow :
  let s := with_domains NetworkProxySettings_default (Some (mkDomainPermissions
             [mkDomainEntry (lit "a.com") DomainAllow; mkDomainEntry (lit "b.com") DomainAllow;
              mkDomainEntry (lit "a.com") DomainDeny])) in
  allowed_domains s = Some [lit "b.com"] /\ denied_domains s = Some [lit "a.com"].
Proof. vm_compute. done. Qed.
