(* ===== verification/MitmHook.v ===== *)
(** * Hooks on intercepted requests

    network-proxy/src/mitm_hook.rs: for a host with hooks, an intercepted HTTPS request
    goes through only if a hook matches its method, path, query and headers; the hook
    may strip headers and inject secrets.  Hooks are validated when the configuration is
    checked and compiled when it is loaded.

    What the http, globset and url crates do with header names and values, globs and
    query strings is the class [HttpLib]; the environment and the files of secrets are
    functions.  [compiled_hooks_evaluate]: the compiled map decides as reading the
    configured hooks in their order would; [validated_hooks_compile]: nothing but a
    secret can make the compilation of a validated configuration fail. *)

From stdpp Require Import base numbers list gmap strings.
From Stdlib Require Import Lia NArith.
From S2P Require Import Prelude AbsolutePath Host IpAddr NetworkPolicy NetworkConfig.

(** ** Libraries *)

Class HttpLib : Type := {
  (** [HeaderName::from_bytes]: the name in its normal form. *)
  header_name_parse : str -> option str;
  (** [HeaderValue::from_str] accepts the text. *)
  header_value_ok : str -> bool;
  (** [form_urlencoded::parse] of a query. *)
  form_urlencoded : str -> list (str * str);
  (** [GlobBuilder] with escapes and the given [literal_separator], compiled. *)
  hook_glob : str -> bool -> option (str -> bool)
}.

(** [rama_http::Request]: a header value is its text, when it has one ([to_str]). *)
Record Request : Type := mkRequest {
  req_method : str;
  req_path : str;
  req_query : option str;
  req_headers : list (str * option str)
}.

(** ** Errors *)

Inductive HookFieldName : Type :=
| FieldHost | FieldMethods | FieldPathPrefixes | FieldQuery | FieldHeaders | FieldStrip | FieldInject.

Inductive HookError : Type :=
| MitmRequired
| InvalidHookField (hook_index : nat) (field : HookFieldName) (err : HookError)
| HookMethodsEmpty (hook_index : nat)
| HookPathPrefixesEmpty (hook_index : nat)
| HookBodyReserved (hook_index : nat)
| HookHostMustNotBeEmpty (hook_index : nat)
| HookHostEmpty
| HookHostWildcard
| EmptyMethod
| EmptyPathPrefix
| EmptyGlobPattern
| InvalidHookGlob (pattern : str)
| EmptyQueryKey
| QueryKeyWithoutValues (name : str)
| InvalidMatcher (name : str) (err : HookError)
| InvalidHeaderName (name : str)
| EmptySecretEnvVar
| ExactlyOneSecret
| EmptySecretFile
| SecretFileNotAbsolute (p : str)
| MissingEnvVar (name : str)
| SecretFileUnreadable (p : path)
| InvalidInjectedValue (name : str)
| InjectedHeaderFailed (name : str) (err : HookError).

(** ** Compiled hooks *)

(** [CompiledGlobMatcher]: the pattern with its matcher. *)
Record CompiledGlobMatcher : Type := mkCompiledGlob { cg_pattern : str; cg_is_match : str -> bool }.

Inductive PathMatcher : Type := PathPrefix (prefix : str) | PathGlob (glob : CompiledGlobMatcher).
Inductive ValueMatcher : Type := ValueExact (value : str) | ValueGlob (glob : CompiledGlobMatcher).
Inductive MatcherPattern : Type := PatternLiteral (s : str) | PatternGlob (s : str).

Record QueryConstraint : Type := mkQueryConstraint { qc_name : str; qc_allowed_values : list ValueMatcher }.
Record HeaderConstraint : Type := mkHeaderConstraint { hcn_name : str; hcn_allowed_values : list ValueMatcher }.

Inductive SecretSource : Type := SecretEnvVar (name : str) | SecretFile (p : path).

Record ResolvedInjectedHeader : Type := mkInjectedHeader {
  rih_name : str;
  rih_value : str;
  rih_source : SecretSource
}.

Record MitmHookActions : Type := mkHookActions {
  ha_strip_request_headers : list str;
  ha_inject_request_headers : list ResolvedInjectedHeader
}.

(** [MitmHookMatcher]; the field for bodies is reserved and never set. *)
Record MitmHookMatcher : Type := mkHookMatcher {
  hm_methods : list str;
  hm_path_prefixes : list PathMatcher;
  hm_query : list QueryConstraint;
  hm_headers : list HeaderConstraint
}.

Record MitmHook : Type := mkHook {
  hook_host : str;
  hook_matcher : MitmHookMatcher;
  hook_actions : MitmHookActions
}.

Abbreviation MitmHooksByHost := (gmap str (list MitmHook)) (only parsing).

Inductive HookEvaluation : Type :=
| NoHooksForHost
| Matched (actions : MitmHookActions)
| HookedHostNoMatch.

(** ** Matchers *)

Definition path_matcher_matches (self : PathMatcher) (candidate : str) : bool :=
  match self with
  | PathPrefix prefix => starts_with prefix candidate
  | PathGlob glob => cg_is_match glob candidate
  end.

Definition value_matches (self : ValueMatcher) (candidate : str) : bool :=
  match self with
  | ValueExact value => value =s? candidate
  | ValueGlob glob => cg_is_match glob candidate
  end.

Definition path_matches (path_prefixes : list PathMatcher) (p : str) : bool :=
  existsb (fun matcher => path_matcher_matches matcher p) path_prefixes.

Definition is_ascii_lower_to_upper (c : char) : char := if is_ascii_lowercase c then (c - 32)%N else c.
(** [str::to_ascii_uppercase]. *)
Definition to_ascii_uppercase (s : str) : str := is_ascii_lower_to_upper <$> s.

Section Hooks.
Context `{HttpLib}.

(** The values of each query name, in the order of the query. *)
Definition query_values (query : str) : gmap str (list str) :=
  fold_left (fun m '(name, value) => <[name := default [] (m !! name) ++ [value]]> m) (form_urlencoded query) ∅.

Definition query_matches (constraints : list QueryConstraint) (req : Request) : bool :=
  match constraints with
  | [] => true
  | _ =>
      let actual_values := query_values (default [] (req_query req)) in
      forallb (fun c =>
        match actual_values !! qc_name c with
        | Some actual => existsb (fun candidate => existsb (fun allowed => value_matches allowed candidate)
                                                     (qc_allowed_values c)) actual
        | None => false
        end) constraints
  end.

(** [HeaderMap::get_all]. *)
Definition get_all (name : str) (req : Request) : list (option str) :=
  snd <$> List.filter (fun h => h.1 =s? name) (req_headers req).

Definition headers_match (constraints : list HeaderConstraint) (req : Request) : bool :=
  forallb (fun c =>
    let actual := get_all (hcn_name c) req in
    match actual with
    | [] => false
    | _ =>
        match hcn_allowed_values c with
        | [] => true
        | allowed_values =>
            existsb (fun value =>
              match value with
              | Some candidate => existsb (fun allowed => value_matches allowed candidate) allowed_values
              | None => false
              end) actual
        end
    end) constraints.

Definition hook_matches (hook : MitmHook) (req : Request) : bool :=
  let method := to_ascii_uppercase (req_method req) in
  if negb (existsb (fun allowed => allowed =s? method) (hm_methods (hook_matcher hook))) then false
  else if negb (path_matches (hm_path_prefixes (hook_matcher hook)) (req_path req)) then false
  else if negb (query_matches (hm_query (hook_matcher hook)) req) then false
  else headers_match (hm_headers (hook_matcher hook)) req.

Fixpoint first_match (hooks : list MitmHook) (req : Request) : HookEvaluation :=
  match hooks with
  | [] => HookedHostNoMatch
  | hook :: rest => if hook_matches hook req then Matched (hook_actions hook) else first_match rest req
  end.

Definition evaluate_mitm_hooks (hooks_by_host : MitmHooksByHost) (host : str) (req : Request) : HookEvaluation :=
  match hooks_by_host !! normalize_host host with
  | None => NoHooksForHost
  | Some hooks => first_match hooks req
  end.

(** ** Compilation of the parts *)

Definition parse_matcher_pattern (pattern : str) : result HookError MatcherPattern :=
  match strip_prefix (lit "literal:") pattern with
  | Some literal => Ok (PatternLiteral literal)
  | None =>
      match strip_prefix (lit "pattern:") pattern with
      | None => Ok (PatternLiteral pattern)
      | Some glob_pattern => if glob_pattern =s? [] then Err EmptyGlobPattern else Ok (PatternGlob glob_pattern)
      end
  end.

Definition compile_glob_matcher (pattern : str) (literal_separator : bool) : result HookError CompiledGlobMatcher :=
  match hook_glob pattern literal_separator with
  | Some matcher => Ok (mkCompiledGlob pattern matcher)
  | None => Err (InvalidHookGlob pattern)
  end.

Definition compile_path_matcher (prefix : str) : result HookError PathMatcher :=
  pattern ← parse_matcher_pattern prefix;
  match pattern with
  | PatternLiteral prefix => if prefix =s? [] then Err EmptyPathPrefix else Ok (PathPrefix prefix)
  | PatternGlob glob => PathGlob <$> compile_glob_matcher glob true
  end.
Definition compile_path_matchers (path_prefixes : list str) : result HookError (list PathMatcher) :=
  mapM compile_path_matcher path_prefixes.

Definition compile_value_matcher (value : str) : result HookError ValueMatcher :=
  pattern ← parse_matcher_pattern value;
  match pattern with
  | PatternLiteral value => Ok (ValueExact value)
  | PatternGlob glob => ValueGlob <$> compile_glob_matcher glob false
  end.
Definition compile_value_matchers (values : list str) : result HookError (list ValueMatcher) :=
  mapM compile_value_matcher values.

Definition normalize_hook_host (host : str) : result HookError str :=
  let normalized := normalize_host host in
  if normalized =s? [] then Err HookHostEmpty
  else if contains_char STAR normalized then Err HookHostWildcard
  else Ok normalized.

Definition normalize_method (method : str) : result HookError str :=
  let normalized := to_ascii_uppercase (trim method) in
  if normalized =s? [] then Err EmptyMethod else Ok normalized.
Definition normalize_methods (methods : list str) : result HookError (list str) := mapM normalize_method methods.

Definition normalize_query_name (name : str) : result HookError str :=
  if name =s? [] then Err EmptyQueryKey else Ok name.

Definition parse_header_name (name : str) : result HookError str :=
  match header_name_parse name with
  | Some n => Ok n
  | None => Err (InvalidHeaderName name)
  end.

Context (M : Host).

Definition parse_secret_file (p : str) : result HookError path :=
  if trim p =s? [] then Err EmptySecretFile
  else if negb (is_absolute (components p)) then Err (SecretFileNotAbsolute p)
  else match abs_from M p with
       | Some p => Ok p
       | None => Err (SecretFileNotAbsolute p)
       end.

(** ** Validation *)

Fixpoint validate_query_constraints (query : BTree (list str)) : result HookError unit :=
  match query with
  | [] => Ok tt
  | (name, values) :: rest =>
      normalized ← normalize_query_name name;
      if normalized =s? [] then Err EmptyQueryKey
      else match values with
           | [] => Err (QueryKeyWithoutValues name)
           | _ =>
               _ ← map_err (InvalidMatcher name) (compile_value_matchers values);
               validate_query_constraints rest
           end
  end.

Fixpoint validate_header_constraints (headers : BTree (list str)) : result HookError unit :=
  match headers with
  | [] => Ok tt
  | (name, values) :: rest =>
      _ ← parse_header_name name;
      _ ← map_err (InvalidMatcher name) (compile_value_matchers values);
      validate_header_constraints rest
  end.

Fixpoint validate_strip_request_headers (header_names : list str) : result HookError unit :=
  match header_names with
  | [] => Ok tt
  | name :: rest => _ ← parse_header_name name; validate_strip_request_headers rest
  end.

Fixpoint validate_injected_headers (headers : list InjectedHeaderConfig) : result HookError unit :=
  match headers with
  | [] => Ok tt
  | header :: rest =>
      _ ← parse_header_name (ihc_name header);
      match ihc_secret_env_var header, ihc_secret_file header with
      | Some secret_env_var, None =>
          if trim secret_env_var =s? [] then Err EmptySecretEnvVar else validate_injected_headers rest
      | None, Some secret_file => _ ← parse_secret_file secret_file; validate_injected_headers rest
      | _, _ => Err ExactlyOneSecret
      end
  end.

(** The body of the loop of [validate_mitm_hook_config]. *)
Definition validate_hook (hook_index : nat) (hook : MitmHookConfig) : result HookError unit :=
  let at_field := InvalidHookField hook_index in
  host ← map_err (at_field FieldHost) (normalize_hook_host (hc_host hook));
  methods ← map_err (at_field FieldMethods) (normalize_methods (hmc_methods (hc_matcher hook)));
  if bool_decide (length methods = 0) then Err (HookMethodsEmpty hook_index)
  else
    path_prefixes ← map_err (at_field FieldPathPrefixes)
                      (compile_path_matchers (hmc_path_prefixes (hc_matcher hook)));
    if bool_decide (length path_prefixes = 0) then Err (HookPathPrefixesEmpty hook_index)
    else
      match hmc_body (hc_matcher hook) with
      | Some _ => Err (HookBodyReserved hook_index)
      | None =>
          _ ← map_err (at_field FieldQuery) (validate_query_constraints (hmc_query (hc_matcher hook)));
          _ ← map_err (at_field FieldHeaders) (validate_header_constraints (hmc_headers (hc_matcher hook)));
          _ ← map_err (at_field FieldStrip)
                (validate_strip_request_headers (hac_strip_request_headers (hc_actions hook)));
          _ ← map_err (at_field FieldInject)
                (validate_injected_headers (hac_inject_request_headers (hc_actions hook)));
          if host =s? [] then Err (HookHostMustNotBeEmpty hook_index) else Ok tt
      end.

Fixpoint validate_hooks (hook_index : nat) (hooks : list MitmHookConfig) : result HookError unit :=
  match hooks with
  | [] => Ok tt
  | hook :: rest => _ ← validate_hook hook_index hook; validate_hooks (S hook_index) rest
  end.

Definition validate_mitm_hook_config (config : NetworkProxyConfig) : result HookError unit :=
  match ns_mitm_hooks (network config) with
  | [] => Ok tt
  | hooks => if negb (ns_mitm (network config)) then Err MitmRequired else validate_hooks 0 hooks
  end.

(** ** Compilation *)

Context (resolve_env_var : str -> option str).

(** [read_secret_file]: the text of the file, trimmed. *)
Definition read_secret_file (p : path) : result HookError str :=
  match host_read_to_string M p with
  | Some value => Ok (trim value)
  | None => Err (SecretFileUnreadable p)
  end.

Definition compile_injected_header (header : InjectedHeaderConfig) : result HookError ResolvedInjectedHeader :=
  name ← parse_header_name (ihc_name header);
  '(secret, source) ←
    match ihc_secret_env_var header, ihc_secret_file header with
    | Some env_var, None =>
        match resolve_env_var env_var with
        | Some value => Ok (value, SecretEnvVar env_var)
        | None => Err (MissingEnvVar env_var)
        end
    | None, Some secret_file =>
        p ← parse_secret_file secret_file;
        value ← read_secret_file p;
        Ok (value, SecretFile p)
    | _, _ => Err ExactlyOneSecret
    end;
  let value := default [] (ihc_prefix header) ++ secret in
  if header_value_ok value then Ok (mkInjectedHeader name value source)
  else Err (InvalidInjectedValue (ihc_name header)).

(** The body of the loop of [compile_mitm_hooks_with_resolvers]. *)
Definition compile_hook (hook : MitmHookConfig) : result HookError MitmHook :=
  host ← normalize_hook_host (hc_host hook);
  methods ← normalize_methods (hmc_methods (hc_matcher hook));
  path_prefixes ← compile_path_matchers (hmc_path_prefixes (hc_matcher hook));
  query ← mapM (fun '(name, values) =>
                  name ← normalize_query_name name;
                  values ← compile_value_matchers values;
                  Ok (mkQueryConstraint name values)) (hmc_query (hc_matcher hook));
  headers ← mapM (fun '(name, values) =>
                    name ← parse_header_name name;
                    values ← compile_value_matchers values;
                    Ok (mkHeaderConstraint name values)) (hmc_headers (hc_matcher hook));
  strip_request_headers ← mapM parse_header_name (hac_strip_request_headers (hc_actions hook));
  inject_request_headers ←
    mapM (fun header => map_err (InjectedHeaderFailed (ihc_name header)) (compile_injected_header header))
      (hac_inject_request_headers (hc_actions hook));
  Ok (mkHook host (mkHookMatcher methods path_prefixes query headers)
        (mkHookActions strip_request_headers inject_request_headers)).

Fixpoint compile_hooks (hooks_by_host : MitmHooksByHost) (hooks : list MitmHookConfig) :
    result HookError MitmHooksByHost :=
  match hooks with
  | [] => Ok hooks_by_host
  | hook :: rest =>
      compiled ← compile_hook hook;
      compile_hooks (<[hook_host compiled := default [] (hooks_by_host !! hook_host compiled) ++ [compiled]]>
                       hooks_by_host) rest
  end.

Definition compile_mitm_hooks (config : NetworkProxyConfig) : result HookError MitmHooksByHost :=
  _ ← validate_mitm_hook_config config;
  compile_hooks ∅ (ns_mitm_hooks (network config)).
End Hooks.

(** ** The compiled map decides as the configured hooks in their order *)

Section Compiled.
Context `{HttpLib} (M : Host) (resolve_env_var : str -> option str).

Lemma mapM_ok {E A B} (f : A -> result E B) (l : list A) (k : list B) :
  mapM f l = Ok k <-> Forall2 (fun x y => f x = Ok y) l k.
Proof.
  revert k. induction l as [|x l IH]; intros k; cbn.
  - split; [intros [= <-]; constructor|by inversion 1].
  - split.
    + intros (y & Hy & Hk)%result_bind_ok. apply result_bind_ok in Hk as (ys & Hys & [= <-]).
      constructor; [done|by apply IH].
    + inversion 1; subst. rewrite H3. cbn. rewrite (proj2 (IH _)) by done. done.
Qed.

(** The hooks of a host, in the order of the configuration. *)
Definition hooks_of (host : str) (hooks : list MitmHook) : list MitmHook :=
  List.filter (fun hook => hook_host hook =s? host) hooks.

Lemma compile_hooks_map (m m' : MitmHooksByHost) (hooks : list MitmHookConfig) :
  compile_hooks M resolve_env_var m hooks = Ok m' ->
  exists compiled, mapM (compile_hook M resolve_env_var) hooks = Ok compiled /\
    forall host, m' !! host = match hooks_of host compiled with
                              | [] => m !! host
                              | own => Some (default [] (m !! host) ++ own)
                              end.
Proof.
  revert m. induction hooks as [|hook hooks IH]; intros m Hok.
  { cbn in Hok. simplify_eq. exists []. done. }
  apply result_bind_ok in Hok as (c & Hc & Hok). apply IH in Hok as (cs & Hcs & Hm').
  exists (c :: cs). split; [cbn; rewrite Hc; cbn; by rewrite Hcs|].
  intros host. rewrite Hm'. cbn [hooks_of List.filter]. fold (hooks_of host cs).
  case_bool_decide as Heq.
  - subst host. rewrite lookup_insert_eq. destruct (hooks_of (hook_host c) cs); [done|].
    cbn. by rewrite <- app_assoc.
  - by rewrite lookup_insert_ne.
Qed.

(** *** What a configured hook means

    Read off the configuration, without its compiled form. *)

(** A pattern is text, or a glob after [pattern:]; [literal:] marks text that could be
    taken for one. *)
Definition pattern_admits (literal_admits : str -> str -> Prop) (literal_separator : bool) (pattern candidate : str) :
    Prop :=
  match strip_prefix (lit "literal:") pattern, strip_prefix (lit "pattern:") pattern with
  | Some text, _ => literal_admits text candidate
  | None, Some glob => exists matcher, hook_glob glob literal_separator = Some matcher /\ matcher candidate = true
  | None, None => literal_admits pattern candidate
  end.

Definition path_admits : str -> str -> Prop := pattern_admits (fun prefix p => exists rest, p = prefix ++ rest) true.
Definition value_admits : str -> str -> Prop := pattern_admits eq false.

(** A hook matches a request: one of its methods, in any case; one of its paths; each of its
    query names with an admitted value; each of its headers, with an admitted value if any
    are listed. *)
Definition hook_admits (hook : MitmHookConfig) (req : Request) : Prop :=
  let matcher := hc_matcher hook in
  (exists method, method ∈ hmc_methods matcher /\ to_ascii_uppercase (trim method) = to_ascii_uppercase (req_method req)) /\
  (exists prefix, prefix ∈ hmc_path_prefixes matcher /\ path_admits prefix (req_path req)) /\
  (forall name values, (name, values) ∈ hmc_query matcher ->
     exists value pattern, (name, value) ∈ form_urlencoded (default [] (req_query req)) /\
       pattern ∈ values /\ value_admits pattern value) /\
  (forall name values, (name, values) ∈ hmc_headers matcher ->
     exists n value, header_name_parse name = Some n /\ (n, value) ∈ req_headers req /\
       (values = [] \/ exists text pattern, value = Some text /\ pattern ∈ values /\ value_admits pattern text)).

(** The secret of a header: the variable, or the trimmed text of the file. *)
Definition secret_of (header : InjectedHeaderConfig) (secret : str) : Prop :=
  match ihc_secret_env_var header, ihc_secret_file header with
  | Some var, None => resolve_env_var var = Some secret
  | None, Some file => exists p text, abs_from M file = Some p /\ host_read_to_string M p = Some text /\ secret = trim text
  | _, _ => False
  end.

(** The actions of a hook: the headers it strips, and each header it injects with its prefix and secret. *)
Definition hook_does (hook : MitmHookConfig) (actions : MitmHookActions) : Prop :=
  Forall2 (fun name n => header_name_parse name = Some n) (hac_strip_request_headers (hc_actions hook))
    (ha_strip_request_headers actions) /\
  Forall2 (fun header injected => header_name_parse (ihc_name header) = Some (rih_name injected) /\
             exists secret, secret_of header secret /\ rih_value injected = default [] (ihc_prefix header) ++ secret)
    (hac_inject_request_headers (hc_actions hook)) (ha_inject_request_headers actions).

(** The hooks configured for a host, in any spelling of it. *)
Definition own_hooks (host : str) (hooks : list MitmHookConfig) : list MitmHookConfig :=
  List.filter (fun hook => normalize_host (hc_host hook) =s? normalize_host host) hooks.

(** *** Compiled parts *)

Lemma parse_matcher_pattern_ok (pattern : str) (p : MatcherPattern) :
  parse_matcher_pattern pattern = Ok p ->
  match strip_prefix (lit "literal:") pattern, strip_prefix (lit "pattern:") pattern with
  | Some text, _ => p = PatternLiteral text
  | None, Some glob => p = PatternGlob glob
  | None, None => p = PatternLiteral pattern
  end.
Proof.
  unfold parse_matcher_pattern. destruct (strip_prefix (lit "literal:") pattern); [naive_solver|].
  destruct (strip_prefix (lit "pattern:") pattern); [|naive_solver]. case_bool_decide; naive_solver.
Qed.

Lemma compile_path_matcher_ok (pattern : str) (m : PathMatcher) (p : str) :
  compile_path_matcher pattern = Ok m -> path_matcher_matches m p = true <-> path_admits pattern p.
Proof.
  intros (mp & Hmp & Hm)%result_bind_ok. apply parse_matcher_pattern_ok in Hmp.
  unfold path_admits, pattern_admits.
  assert (forall text, mp = PatternLiteral text -> path_matcher_matches m p = true <-> exists rest, p = text ++ rest) as Hl.
  { intros text ->. case_bool_decide; simplify_eq. cbn. apply starts_with_true. }
  destruct (strip_prefix (lit "literal:") pattern); [by apply Hl|].
  destruct (strip_prefix (lit "pattern:") pattern) as [glob|]; [|by apply Hl]. subst mp.
  unfold compile_glob_matcher in Hm. destruct (hook_glob glob true) as [f|]; [|done]. cbn in Hm. simplify_eq. cbn.
  naive_solver.
Qed.

Lemma compile_value_matcher_ok (pattern : str) (m : ValueMatcher) (v : str) :
  compile_value_matcher pattern = Ok m -> value_matches m v = true <-> value_admits pattern v.
Proof.
  intros (mp & Hmp & Hm)%result_bind_ok. apply parse_matcher_pattern_ok in Hmp.
  unfold value_admits, pattern_admits.
  assert (forall text, mp = PatternLiteral text -> value_matches m v = true <-> text = v) as Hl.
  { intros text ->. simplify_eq. cbn. apply bool_decide_eq_true. }
  destruct (strip_prefix (lit "literal:") pattern); [by apply Hl|].
  destruct (strip_prefix (lit "pattern:") pattern) as [glob|]; [|by apply Hl]. subst mp.
  unfold compile_glob_matcher in Hm. destruct (hook_glob glob false) as [f|]; [|done]. cbn in Hm. simplify_eq. cbn.
  naive_solver.
Qed.

(** A test of some element of a compiled list, as one of the source list. *)
Lemma existsb_Forall2 {A B} (R : A -> B -> Prop) (f : B -> bool) (Q : A -> Prop) (l : list A) (k : list B) :
  Forall2 R l k -> (forall x y, R x y -> f y = true <-> Q x) -> existsb f k = true <-> exists x, x ∈ l /\ Q x.
Proof.
  intros HR Hf. induction HR as [|x y l k Hxy _ IH]; cbn.
  - split; [done|]. intros (x & Hx & _). by apply elem_of_nil in Hx.
  - rewrite orb_true_iff, IH, (Hf x y Hxy). split.
    + intros [Hq|(z & Hz & Hq)]; [exists x; split; [left|done]|exists z; split; [by right|done]].
    + intros (z & [->|Hz]%elem_of_cons & Hq); [by left|right; eauto].
Qed.

Lemma forallb_Forall2 {A B} (R : A -> B -> Prop) (f : B -> bool) (Q : A -> Prop) (l : list A) (k : list B) :
  Forall2 R l k -> (forall x y, R x y -> f y = true <-> Q x) -> forallb f k = true <-> forall x, x ∈ l -> Q x.
Proof.
  intros HR Hf. induction HR as [|x y l k Hxy _ IH]; cbn.
  - split; [|done]. intros _ x Hx. by apply elem_of_nil in Hx.
  - rewrite andb_true_iff, IH, (Hf x y Hxy). split.
    + intros [Hq Hl] z [->|Hz]%elem_of_cons; auto.
    + intros Hl. split; [apply Hl; left|]. intros z Hz. apply Hl. by right.
Qed.

Lemma values_admit (values : list str) (ms : list ValueMatcher) (v : str) :
  compile_value_matchers values = Ok ms ->
  existsb (fun m => value_matches m v) ms = true <-> exists pattern, pattern ∈ values /\ value_admits pattern v.
Proof.
  intros Hms%mapM_ok. eapply existsb_Forall2; [exact Hms|]. intros x y Hxy. by apply compile_value_matcher_ok.
Qed.

Lemma query_values_elem (query name value : str) :
  (exists l, query_values query !! name = Some l /\ value ∈ l) <-> (name, value) ∈ form_urlencoded query.
Proof.
  unfold query_values.
  assert (forall kvs (m : gmap str (list str)),
    (exists l, fold_left (fun m '(n, v) => <[n := default [] (m !! n) ++ [v]]> m) kvs m !! name = Some l /\ value ∈ l) <->
    (exists l, m !! name = Some l /\ value ∈ l) \/ (name, value) ∈ kvs) as Hgen.
  { induction kvs as [|[n v] kvs IH]; intros m; cbn [fold_left]; [rewrite elem_of_nil; tauto|].
    rewrite IH, elem_of_cons. destruct (decide (n = name)) as [->|Hne].
    - rewrite lookup_insert_eq. split.
      + intros [(l & [= <-] & Hin)|Hin]; [|by right; right]. apply elem_of_app in Hin as [Hin|Hin%list_elem_of_singleton].
        * left. destruct (m !! name) as [l|]; [by exists l|by apply elem_of_nil in Hin].
        * right; left. by subst.
      + intros [(l & Hl & Hin)|[[= ->]|Hin]]; [| |by right]; left; eexists; split; [done| |done|];
          rewrite elem_of_app, ?Hl; [by left|right; by apply list_elem_of_singleton].
    - rewrite lookup_insert_ne by done. split; [intros [?|?]; tauto|]. intros [?|[[= ? ?]|?]]; [tauto|congruence|tauto]. }
  rewrite Hgen. split; [|by right]. intros [(l & Hl & _)|?]; [by rewrite lookup_empty in Hl|done].
Qed.

Lemma query_admits (query : list (str * list str)) (qs : list QueryConstraint) (req : Request) :
  mapM (fun '(name, values) =>
          name ← normalize_query_name name;
          values ← compile_value_matchers values;
          Ok (mkQueryConstraint name values)) query = Ok qs ->
  query_matches qs req = true <->
  forall name values, (name, values) ∈ query ->
    exists value pattern, (name, value) ∈ form_urlencoded (default [] (req_query req)) /\
      pattern ∈ values /\ value_admits pattern value.
Proof.
  intros Hq%mapM_ok. set (actual := form_urlencoded _).
  transitivity (forall x, x ∈ query -> exists value pattern, (x.1, value) ∈ actual /\ pattern ∈ x.2 /\ value_admits pattern value).
  2: { split; [intros Hx n vs Hin; exact (Hx (n, vs) Hin)|]. intros Hx [n vs] Hin. by apply Hx. }
  rewrite <- (forallb_Forall2 _ (fun c => match query_values (default [] (req_query req)) !! qc_name c with
     | Some l => existsb (fun v => existsb (fun m => value_matches m v) (qc_allowed_values c)) l
     | None => false end) _ _ _ Hq).
  { unfold query_matches. destruct qs; [done|]. cbv zeta. done. }
  intros [name values] c Hc. apply result_bind_ok in Hc as (n & Hn & Hc). apply result_bind_ok in Hc as (ms & Hms & [= <-]).
  unfold normalize_query_name in Hn. case_bool_decide; simplify_eq. cbn [qc_name qc_allowed_values fst snd].
  subst actual. setoid_rewrite <- query_values_elem. destruct (query_values _ !! n) as [l|]; [|naive_solver].
  rewrite existsb_exists. setoid_rewrite (fun v => values_admit values ms v Hms). setoid_rewrite <- list_elem_of_In. naive_solver.
Qed.

Lemma get_all_elem (name : str) (req : Request) (v : option str) : v ∈ get_all name req <-> (name, v) ∈ req_headers req.
Proof.
  unfold get_all. rewrite list_elem_of_fmap. setoid_rewrite elem_of_filter_bool. split.
  - intros ([n v'] & -> & Hin & Hn). bool_to_prop. cbn in *. by subst.
  - intros Hin. exists (name, v). split_and!; [done|done|]. by apply bool_decide_eq_true.
Qed.

Lemma headers_admit (headers : list (str * list str)) (hs : list HeaderConstraint) (req : Request) :
  mapM (fun '(name, values) =>
          name ← parse_header_name name;
          values ← compile_value_matchers values;
          Ok (mkHeaderConstraint name values)) headers = Ok hs ->
  headers_match hs req = true <->
  forall name values, (name, values) ∈ headers ->
    exists n value, header_name_parse name = Some n /\ (n, value) ∈ req_headers req /\
      (values = [] \/ exists text pattern, value = Some text /\ pattern ∈ values /\ value_admits pattern text).
Proof.
  intros Hh%mapM_ok.
  transitivity (forall x, x ∈ headers -> exists n value, header_name_parse x.1 = Some n /\ (n, value) ∈ req_headers req /\
    (x.2 = [] \/ exists text pattern, value = Some text /\ pattern ∈ x.2 /\ value_admits pattern text)).
  2: { split; [intros Hx n vs Hin; exact (Hx (n, vs) Hin)|]. intros Hx [n vs] Hin. by apply Hx. }
  unfold headers_match. eapply forallb_Forall2; [exact Hh|].
  intros [name values] c Hc. apply result_bind_ok in Hc as (n & Hn & Hc). apply result_bind_ok in Hc as (ms & Hms & [= <-]).
  unfold parse_header_name in Hn. destruct (header_name_parse name) as [n'|] eqn:Hp; simplify_eq.
  cbn [hcn_name hcn_allowed_values fst snd]. cbv zeta. setoid_rewrite <- get_all_elem.
  assert (ms = [] <-> values = []) as Hnil.
  { apply mapM_ok in Hms. by destruct Hms. }
  destruct (get_all n req) as [|v0 vs] eqn:Hg.
  { split; [done|]. intros (n2 & v & Hn2 & Hin & _). simplify_eq. rewrite Hg in Hin. by apply elem_of_nil in Hin. }
  rewrite <- Hg. destruct ms as [|m ms].
  { split; [|done]. intros _. exists n, v0. rewrite Hg. split_and!; [done|left|]. left. by apply Hnil. }
  rewrite existsb_exists. setoid_rewrite <- list_elem_of_In. split.
  - intros (v & Hin & Hv). exists n, v. split_and!; [done|done|]. right. destruct v as [text|]; [|done].
    apply (values_admit values) in Hv as (pattern & ? & ?); [|done]. by exists text, pattern.
  - intros (n2 & v & Hn2 & Hin & [Hv|(text & pattern & -> & ? & ?)]); [by apply Hnil in Hv|]. simplify_eq.
    exists (Some text). split; [done|]. apply (values_admit values); eauto.
Qed.

Lemma compile_injected_ok (header : InjectedHeaderConfig) (i : ResolvedInjectedHeader) :
  compile_injected_header M resolve_env_var header = Ok i ->
  header_name_parse (ihc_name header) = Some (rih_name i) /\
  exists secret, secret_of header secret /\ rih_value i = default [] (ihc_prefix header) ++ secret.
Proof.
  intros (n & Hn & Hok)%result_bind_ok. apply result_bind_ok in Hok as ([secret source] & Hs & Hok).
  cbv beta iota zeta in Hok. destruct (header_value_ok (_ ++ _)); [|done]. simplify_eq. cbn [rih_name rih_value].
  unfold parse_header_name in Hn. destruct (header_name_parse (ihc_name header)); simplify_eq. split; [done|]. exists secret.
  split; [|done]. unfold secret_of. destruct (ihc_secret_env_var header) as [var|], (ihc_secret_file header) as [file|]; try done.
  - by destruct (resolve_env_var var); simplify_eq.
  - apply result_bind_ok in Hs as (p & Hp & Hs). apply result_bind_ok in Hs as (v & Hv & Hs). simplify_eq.
    unfold parse_secret_file in Hp. case_bool_decide; [done|]. destruct (negb _); [done|].
    destruct (abs_from M file) as [p'|]; simplify_eq. unfold read_secret_file in Hv.
    destruct (host_read_to_string M p) as [t|] eqn:Ht; simplify_eq. by exists p, t.
Qed.

(** A compiled hook means what its configuration means. *)
Lemma compile_hook_ok (hook : MitmHookConfig) (c : MitmHook) (req : Request) :
  compile_hook M resolve_env_var hook = Ok c ->
  hook_host c = normalize_host (hc_host hook) /\ (hook_matches c req = true <-> hook_admits hook req) /\
  hook_does hook (hook_actions c).
Proof.
  intros (host & Hhost & Hok)%result_bind_ok. apply result_bind_ok in Hok as (methods & Hme & Hok).
  apply result_bind_ok in Hok as (paths & Hpa & Hok). apply result_bind_ok in Hok as (query & Hq & Hok).
  apply result_bind_ok in Hok as (headers & Hh & Hok). apply result_bind_ok in Hok as (strip & Hs & Hok).
  apply result_bind_ok in Hok as (inject & Hi & [= <-]). cbn [hook_host hook_matcher hook_actions]. split_and!.
  - unfold normalize_hook_host in Hhost. case_bool_decide; [done|]. by destruct (contains_char _ _); simplify_eq.
  - unfold hook_matches, hook_admits. cbn [hook_matcher hm_methods hm_path_prefixes hm_query hm_headers]. cbv zeta.
    rewrite <- (query_admits _ _ req Hq), <- (headers_admit _ _ req Hh).
    apply mapM_ok in Hme, Hpa.
    rewrite <- (existsb_Forall2 _ (fun allowed => allowed =s? to_ascii_uppercase (req_method req)) _ _ _ Hme).
    2: { intros m n. unfold normalize_method. case_bool_decide; [done|]. intros [= <-]. by rewrite bool_decide_eq_true. }
    rewrite <- (existsb_Forall2 _ (fun m => path_matcher_matches m (req_path req)) _ _ _ Hpa)
      by (intros; by apply compile_path_matcher_ok).
    fold (path_matches paths (req_path req)).
    destruct (existsb _ _), (path_matches _ _), (query_matches _ _), (headers_match _ _); cbn; naive_solver.
  - split; cbn [ha_strip_request_headers ha_inject_request_headers].
    + apply mapM_ok in Hs. eapply Forall2_impl; [exact Hs|]. intros x y Hxy. unfold parse_header_name in Hxy.
      by destruct (header_name_parse x); simplify_eq.
    + apply mapM_ok in Hi. eapply Forall2_impl; [exact Hi|]. intros x y Hxy. cbv beta in Hxy.
      destruct (compile_injected_header _ _ x) eqn:Hc; cbn in Hxy; simplify_eq. by apply compile_injected_ok.
Qed.

Lemma own_hooks_compiled (host : str) (hooks : list MitmHookConfig) (compiled : list MitmHook) :
  Forall2 (fun hook c => compile_hook M resolve_env_var hook = Ok c) hooks compiled ->
  Forall2 (fun hook c => compile_hook M resolve_env_var hook = Ok c) (own_hooks host hooks)
    (hooks_of (normalize_host host) compiled).
Proof.
  induction 1 as [|hook c hooks compiled Hc _ IH]; [constructor|].
  unfold own_hooks, hooks_of. cbn [List.filter]. fold (own_hooks host hooks) (hooks_of (normalize_host host) compiled).
  destruct (compile_hook_ok hook c (mkRequest [] [] None []) Hc) as [-> _]. case_bool_decide; [by constructor|done].
Qed.

Lemma first_match_spec (hooks : list MitmHookConfig) (compiled : list MitmHook) (req : Request) :
  Forall2 (fun hook c => compile_hook M resolve_env_var hook = Ok c) hooks compiled ->
  match first_match compiled req with
  | NoHooksForHost => False
  | HookedHostNoMatch => Forall (fun hook => ~ hook_admits hook req) hooks
  | Matched actions =>
      exists before hook after, hooks = before ++ hook :: after /\ Forall (fun hook => ~ hook_admits hook req) before /\
        hook_admits hook req /\ hook_does hook actions
  end.
Proof.
  induction 1 as [|hook c hooks compiled Hc _ IH]; cbn [first_match]; [constructor|].
  destruct (compile_hook_ok hook c req Hc) as (_ & Hm & Hd). destruct (hook_matches c req).
  - exists [], hook, hooks. split_and!; [done|constructor|by apply Hm|done].
  - assert (~ hook_admits hook req) as Hn by (intros Hx%Hm; done).
    destruct (first_match compiled req) as [|actions|]; [done| |by constructor].
    destruct IH as (before & h & after & -> & ? & ? & ?). exists (hook :: before), h, after.
    split_and!; [done|by constructor|done|done].
Qed.

(** C32. The compiled map decides every request as the configuration says: a host without configured
    hooks is left alone; of the hooks of a host, in any spelling, the first in the order of the
    configuration that matches the request (method, path, query and headers) gives the actions,
    with each stripped name and each injected header with its prefix and secret; and a host with
    hooks of which none matches is refused. *)
Theorem compiled_hooks_evaluate (config : NetworkProxyConfig) (m : MitmHooksByHost) (host : str) (req : Request) :
  compile_mitm_hooks M resolve_env_var config = Ok m ->
  let own := own_hooks host (ns_mitm_hooks (network config)) in
  match evaluate_mitm_hooks m host req with
  | NoHooksForHost => own = []
  | HookedHostNoMatch => own <> [] /\ Forall (fun hook => ~ hook_admits hook req) own
  | Matched actions =>
      exists before hook after, own = before ++ hook :: after /\ Forall (fun hook => ~ hook_admits hook req) before /\
        hook_admits hook req /\ hook_does hook actions
  end.
Proof.
  unfold compile_mitm_hooks. intros Hok. apply result_bind_ok in Hok as (_ & _ & Hok).
  apply compile_hooks_map in Hok as (compiled & Hc%mapM_ok & Hm). apply (own_hooks_compiled host) in Hc.
  cbv zeta. unfold evaluate_mitm_hooks. rewrite Hm, lookup_empty. pose proof (first_match_spec _ _ req Hc) as Hf.
  destruct Hc as [|hook c hooks cs Hhc Hc]; [done|]. cbn [default app].
  destruct (first_match (c :: cs) req); [done|done|]. by split.
Qed.

(** ** Validated hooks compile *)

(** What only the environment can decide. *)
Definition secret_error (err : HookError) : Prop :=
  match err with
  | InjectedHeaderFailed _ (MissingEnvVar _ | SecretFileUnreadable _ | InvalidInjectedValue _) => True
  | _ => False
  end.

(** A computation that can fail only for a secret. *)
Definition compiles {A} (r : result HookError A) : Prop :=
  match r with Ok _ => True | Err err => secret_error err end.

Lemma compiles_bind {A B} (r : result HookError A) (f : A -> result HookError B) :
  compiles r -> (forall a, compiles (f a)) -> compiles (r ≫= f).
Proof. destruct r; cbn; auto. Qed.

Lemma compiles_mapM {A B} (f : A -> result HookError B) (l : list A) :
  Forall (fun x => compiles (f x)) l -> compiles (mapM f l).
Proof.
  induction 1 as [|x l Hx _ IH]; cbn [mapM]; [exact I|].
  apply compiles_bind; [done|]. intros y. apply compiles_bind; [done|]. intros ys. exact I.
Qed.

Lemma is_ok_compiles {A} (r : result HookError A) : is_ok r = true -> compiles r.
Proof. by destruct r. Qed.

Lemma map_err_is_ok {E F A} (g : E -> F) (r : result E A) (a : A) : map_err g r = Ok a -> r = Ok a.
Proof. by destruct r; intros [= ->]. Qed.

Lemma query_validated (query : BTree (list str)) :
  validate_query_constraints query = Ok tt ->
  compiles (mapM (fun '(name, values) =>
                    name ← normalize_query_name name;
                    values ← compile_value_matchers values;
                    Ok (mkQueryConstraint name values)) query).
Proof.
  intros Hok. apply compiles_mapM. induction query as [|[name values] query IH]; [constructor|].
  cbn in Hok. apply result_bind_ok in Hok as (n & Hn & Hok). case_bool_decide; [done|].
  destruct values as [|v values]; [done|]. apply result_bind_ok in Hok as (vs & Hvs%map_err_is_ok & Hok).
  constructor; [|by apply IH]. rewrite Hn. cbn [mbind result_bind]. by rewrite Hvs.
Qed.

Lemma headers_validated (headers : BTree (list str)) :
  validate_header_constraints headers = Ok tt ->
  compiles (mapM (fun '(name, values) =>
                    name ← parse_header_name name;
                    values ← compile_value_matchers values;
                    Ok (mkHeaderConstraint name values)) headers).
Proof.
  intros Hok. apply compiles_mapM. induction headers as [|[name values] headers IH]; [constructor|].
  cbn in Hok. apply result_bind_ok in Hok as (n & Hn & Hok).
  apply result_bind_ok in Hok as (vs & Hvs%map_err_is_ok & Hok).
  constructor; [|by apply IH]. rewrite Hn. cbn [mbind result_bind]. by rewrite Hvs.
Qed.

Lemma strip_validated (names : list str) :
  validate_strip_request_headers names = Ok tt -> compiles (mapM parse_header_name names).
Proof.
  intros Hok. apply compiles_mapM. induction names as [|name names IH]; [constructor|].
  cbn in Hok. apply result_bind_ok in Hok as (n & Hn & Hok). constructor; [|by apply IH]. by rewrite Hn.
Qed.

Lemma inject_validated (headers : list InjectedHeaderConfig) :
  validate_injected_headers M headers = Ok tt ->
  compiles (mapM (fun header => map_err (InjectedHeaderFailed (ihc_name header))
                                  (compile_injected_header M resolve_env_var header)) headers).
Proof.
  intros Hok. apply compiles_mapM. induction headers as [|h headers IH]; [constructor|].
  cbn in Hok. apply result_bind_ok in Hok as (n & Hn & Hok). unfold compile_injected_header.
  destruct (ihc_secret_env_var h) as [v|] eqn:Hv, (ihc_secret_file h) as [f|] eqn:Hf; try done.
  - case_bool_decide; [done|]. constructor; [|by apply IH].
    rewrite Hn, Hv, Hf. cbn [mbind result_bind]. destruct (resolve_env_var v); cbn [mbind result_bind]; [|exact I].
    by destruct (header_value_ok _).
  - apply result_bind_ok in Hok as (p & Hp & Hok). constructor; [|by apply IH].
    rewrite Hn, Hv, Hf. cbn [mbind result_bind]. rewrite Hp. cbn [mbind result_bind]. unfold read_secret_file.
    destruct (host_read_to_string M p); cbn [mbind result_bind]; [|exact I]. by destruct (header_value_ok _).
Qed.

Lemma hook_validated (i : nat) (hook : MitmHookConfig) :
  validate_hook M i hook = Ok tt -> compiles (compile_hook M resolve_env_var hook).
Proof.
  unfold validate_hook, compile_hook. intros Hok.
  apply result_bind_ok in Hok as (host & Hh%map_err_is_ok & Hok). rewrite Hh. cbn [mbind result_bind].
  apply result_bind_ok in Hok as (methods & Hm%map_err_is_ok & Hok). rewrite Hm. cbn [mbind result_bind].
  case_bool_decide; [done|]. apply result_bind_ok in Hok as (pp & Hp%map_err_is_ok & Hok).
  rewrite Hp. cbn [mbind result_bind]. case_bool_decide; [done|]. destruct (hmc_body _); [done|].
  apply result_bind_ok in Hok as ([] & Hq%map_err_is_ok & Hok).
  apply result_bind_ok in Hok as ([] & Hhd%map_err_is_ok & Hok).
  apply result_bind_ok in Hok as ([] & Hs%map_err_is_ok & Hok).
  apply result_bind_ok in Hok as ([] & Hi%map_err_is_ok & _).
  apply compiles_bind; [by apply query_validated|]. intros ?.
  apply compiles_bind; [by apply headers_validated|]. intros ?.
  apply compiles_bind; [by apply strip_validated|]. intros ?.
  apply compiles_bind; [by apply inject_validated|]. intros ?. exact I.
Qed.

Lemma hooks_validated (i : nat) (m : MitmHooksByHost) (hooks : list MitmHookConfig) :
  validate_hooks M i hooks = Ok tt -> compiles (compile_hooks M resolve_env_var m hooks).
Proof.
  revert i m. induction hooks as [|hook hooks IH]; intros i m Hok; [exact I|].
  apply result_bind_ok in Hok as ([] & Hh & Hok). apply compiles_bind; [by eapply hook_validated|].
  intros c. by eapply IH.
Qed.

(** A configuration whose hooks were validated compiles, unless a secret is missing,
    unreadable or not a header value: nothing else can fail after the validation. *)
Theorem validated_hooks_compile (config : NetworkProxyConfig) :
  validate_mitm_hook_config M config = Ok tt -> compiles (compile_mitm_hooks M resolve_env_var config).
Proof.
  intros Hok. unfold compile_mitm_hooks. rewrite Hok. cbn [mbind result_bind].
  unfold validate_mitm_hook_config in Hok. destruct (ns_mitm_hooks (network config)) as [|h hs]; [exact I|].
  destruct (negb _); [done|]. by eapply hooks_validated.
Qed.
End Compiled.

(** ** A concrete library and hook *)

Definition simple_http : HttpLib :=
  {| header_name_parse := fun n => if n =s? [] then None else Some (to_ascii_lowercase n);
     header_value_ok := forallb (fun c => (32 <=? c)%N && (c <? 127)%N);
     form_urlencoded := fun q => omap (split_once 61%N) (split_on 38%N q);
     hook_glob := fun p _ => Some (wild_match p) |}.

Definition github_hook : MitmHookConfig :=
  mkHookConfig (lit "API.GitHub.com")
    (mkHookMatchConfig [lit "post"] [lit "/repos/openai/"] [(lit "dry_run", [lit "true"])] [] None)
    (mkHookActionsConfig [lit "Authorization"]
       [mkInjectedHeaderConfig (lit "authorization") (Some (lit "TOKEN")) None (Some (lit "Bearer "))]).

Definition hook_config : NetworkProxyConfig :=
  mkConfig (mkSettings true default_proxy_url true default_socks_url true true false false Limited None None
              false true [github_hook]).

Definition token_env (name : str) : option str := if name =s? lit "TOKEN" then Some (lit "secret") else None.

Definition hooked_request (query : string) : Request :=
  mkRequest (lit "POST") (lit "/repos/openai/codex/pulls") (Some (lit query)) [].

Lemma compiled_hooks_evaluate_witness :
  exists m actions, compile_mitm_hooks (H := simple_http) bare_host token_env hook_config = Ok m /\
    evaluate_mitm_hooks (H := simple_http) m (lit "api.github.com:443") (hooked_request "dry_run=true") = Matched actions /\
    exists before hook after, own_hooks (lit "api.github.com:443") [github_hook] = before ++ hook :: after /\
      Forall (fun hook => ~ hook_admits (H := simple_http) hook (hooked_request "dry_run=true")) before /\
      hook_admits (H := simple_http) hook (hooked_request "dry_run=true") /\
      hook_does (H := simple_http) bare_host token_env hook actions.
Proof.
  assert (match compile_mitm_hooks (H := simple_http) bare_host token_env hook_config with
          | Ok m => match evaluate_mitm_hooks (H := simple_http) m (lit "api.github.com:443") (hooked_request "dry_run=true") with
                    | Matched _ => true | _ => false end
          | Err _ => false
          end = true) as Hrun by (vm_compute; reflexivity).
  destruct (compile_mitm_hooks (H := simple_http) bare_host token_env hook_config) as [m|] eqn:Hm; [|discriminate].
  pose proof (@compiled_hooks_evaluate simple_http bare_host token_env hook_config m (lit "api.github.com:443")
              (hooked_request "dry_run=true") Hm) as He.
  destruct (evaluate_mitm_hooks (H := simple_http) m (lit "api.github.com:443") (hooked_request "dry_run=true"))
    as [|actions|] eqn:Hev; [discriminate| |discriminate].
  exists m, actions. split; [reflexivity|]. split; [exact Hev|exact He].
Defined.

Example hook_injects_secret :
  (fun m => match evaluate_mitm_hooks (H := simple_http) m (lit "api.github.com:443") (hooked_request "dry_run=true") with
            | Matched a => rih_value <$> ha_inject_request_headers a | _ => [] end)
  <$> compile_mitm_hooks (H := simple_http) bare_host token_env hook_config = Ok [lit "Bearer secret"] /\
  (fun m => match evaluate_mitm_hooks (H := simple_http) m (lit "api.github.com") (hooked_request "") with
            | HookedHostNoMatch => true | _ => false end)
  <$> compile_mitm_hooks (H := simple_http) bare_host token_env hook_config = Ok true.
Proof. vm_compute. done. Qed.

Lemma validated_hooks_compile_witness :
  validate_mitm_hook_config (H := simple_http) bare_host hook_config = Ok tt /\
  compiles (compile_mitm_hooks (H := simple_http) bare_host (fun _ => None) hook_config).
Proof.
  split; [vm_compute; reflexivity|].
  apply (@validated_hooks_compile simple_http bare_host (fun _ => None) hook_config). vm_compute. reflexivity.
Defined.
