(* ===== verification/NetworkState.v ===== *)
(** * The state of the network proxy

    network-proxy/src/state.rs and runtime.rs: the constraints of a managed
    configuration, the check of a configuration against them, the compiled state of the
    proxy, and the operations on that state.  Name resolution, the certificate authority
    and the reloader are parameters.

    The state is shared: every operation first asks the reloader for a new state, reads
    under a lock, computes, and writes under a lock.  Module [Tasks] has these atomic
    sections as steps of concurrent tasks. *)

From stdpp Require Import base numbers list gmap strings.
From Stdlib Require Import Lia NArith ZArith.
From S2P Require Import Prelude AbsolutePath Host IpAddr NetworkPolicy NetworkConfig MitmHook.

(** ** Constraints *)

Record NetworkProxyConstraints : Type := mkConstraints {
  nc_enabled : option bool;
  nc_mode : option NetworkMode;
  nc_allow_upstream_proxy : option bool;
  nc_dangerously_allow_non_loopback_proxy : option bool;
  nc_dangerously_allow_all_unix_sockets : option bool;
  nc_allowed_domains : option (list str);
  nc_allowlist_expansion_enabled : option bool;
  nc_denied_domains : option (list str);
  nc_denylist_expansion_enabled : option bool;
  nc_allow_unix_sockets : option (list str);
  nc_allow_local_binding : option bool
}.
#[export] Instance NetworkProxyConstraints_eq_dec : EqDecision NetworkProxyConstraints.
Proof. solve_decision. Defined.

Definition NetworkProxyConstraints_default : NetworkProxyConstraints :=
  mkConstraints None None None None None None None None None None None.

Inductive ConstraintField : Type :=
| F_enabled | F_mode | F_allow_upstream_proxy | F_allow_non_loopback_proxy | F_allow_all_unix_sockets
| F_allow_local_binding | F_allowed_domains | F_denied_domains | F_allow_unix_sockets | F_mitm_hooks.

(** The rejected value and the values allowed, as the messages show them. *)
Inductive ConstraintText : Type :=
| Text (s : string)
| TextStr (s : str)
| TextList (l : list str)
| TextMode (m : NetworkMode)
| TextModeOrStricter (m : NetworkMode)
| TextHookError (err : HookError).

Inductive NetworkProxyConstraintError : Type :=
| InvalidValue (field_name : ConstraintField) (candidate allowed : ConstraintText).

Abbreviation check := (result NetworkProxyConstraintError unit) (only parsing).

Definition invalid_value (field : ConstraintField) (candidate allowed : ConstraintText) : check :=
  Err (InvalidValue field candidate allowed).

Definition disabled_by_managed_config (field : ConstraintField) : check :=
  invalid_value field (Text "true") (Text "false (disabled by managed config)").

Definition network_mode_rank (mode : NetworkMode) : nat := match mode with Limited => 0 | Full => 1 end.

Definition validate_non_global_wildcard_domain_patterns (field : ConstraintField) (patterns : list str) : check :=
  match List.find is_global_wildcard_domain_pattern patterns with
  | Some pattern =>
      invalid_value field (TextStr (trim pattern))
        (Text "exact hosts or scoped wildcards like *.example.com or **.example.com")
  | None => Ok tt
  end.

(** A [HashSet] of the entries in lower case. *)
Definition lower_set (entries : list str) : gset str := list_to_set (to_ascii_lowercase <$> entries).

(** The entries of a set that satisfy a predicate; the order of a [HashSet] is not
    specified, and shows only in a message. *)
Definition set_filter (keep : str -> bool) (s : gset str) : list str := List.filter keep (elements s).

(** *** The checks of [validate_policy_against_constraints], in their order *)

Section Validate.
Context `{UrlHostParser} `{HttpLib} (M : Host).

Definition config_allowed_domains (config : NetworkProxyConfig) : list str :=
  default [] (allowed_domains (network config)).
Definition config_denied_domains (config : NetworkProxyConfig) : list str :=
  default [] (denied_domains (network config)).

Definition validate_enabled (config : NetworkProxyConfig) (k : NetworkProxyConstraints) : check :=
  match nc_enabled k with
  | Some max_enabled =>
      if ns_enabled (network config) && negb max_enabled then disabled_by_managed_config F_enabled else Ok tt
  | None => Ok tt
  end.

Definition validate_mode (mode : NetworkMode) (k : NetworkProxyConstraints) : check :=
  match nc_mode k with
  | Some max_mode =>
      if (network_mode_rank max_mode <? network_mode_rank mode)%nat
      then invalid_value F_mode (TextMode mode) (TextModeOrStricter max_mode) else Ok tt
  | None => Ok tt
  end.

(** The three shapes of a boolean limit. *)
Definition validate_flag (field : ConstraintField) (candidate : bool) (limit : option bool) : check :=
  match limit with
  | Some true | None => Ok tt
  | Some false => if candidate then disabled_by_managed_config field else Ok tt
  end.

Definition validate_all_unix_sockets (config : NetworkProxyConfig) (k : NetworkProxyConstraints) : check :=
  let allow_all_unix_sockets :=
    match nc_dangerously_allow_all_unix_sockets k with
    | Some b => b
    | None => match nc_allow_unix_sockets k with None => true | Some _ => false end
    end in
  if ns_dangerously_allow_all_unix_sockets (network config) && negb allow_all_unix_sockets
  then disabled_by_managed_config F_allow_all_unix_sockets else Ok tt.

Definition validate_allow_local_binding (config : NetworkProxyConfig) (k : NetworkProxyConstraints) : check :=
  match nc_allow_local_binding k with
  | Some allow_local_binding =>
      if ns_allow_local_binding (network config) && negb allow_local_binding
      then disabled_by_managed_config F_allow_local_binding else Ok tt
  | None => Ok tt
  end.

Definition validate_allowed_domains (config : NetworkProxyConfig) (k : NetworkProxyConstraints) : check :=
  match nc_allowed_domains k with
  | None => Ok tt
  | Some managed =>
      _ ← validate_non_global_wildcard_domain_patterns F_allowed_domains managed;
      let candidate := config_allowed_domains config in
      let denied_domain_overrides := lower_set (config_denied_domains config) in
      match nc_allowlist_expansion_enabled k with
      | Some true =>
          let required_set := lower_set managed in
          let candidate_set := lower_set candidate in
          let missing := set_filter (fun entry => negb (bool_decide (entry ∈ candidate_set))
                                      && negb (bool_decide (entry ∈ denied_domain_overrides))) required_set in
          match missing with
          | [] => Ok tt
          | _ => invalid_value F_allowed_domains (Text "missing managed allowed_domains entries") (TextList missing)
          end
      | Some false =>
          if bool_decide (lower_set candidate = lower_set managed ∖ denied_domain_overrides) then Ok tt
          else invalid_value F_allowed_domains (TextList candidate) (Text "must match managed allowed_domains")
      | None =>
          let managed_patterns := parse_for_constraints <$> managed in
          let invalid := List.filter (fun entry =>
            negb (existsb (fun m => allows m (parse_for_constraints entry)) managed_patterns)) candidate in
          match invalid with
          | [] => Ok tt
          | _ => invalid_value F_allowed_domains (TextList invalid) (Text "subset of managed allowed_domains")
          end
      end
  end.

Definition validate_denied_domains (config : NetworkProxyConfig) (k : NetworkProxyConstraints) : check :=
  match nc_denied_domains k with
  | None => Ok tt
  | Some managed =>
      _ ← validate_non_global_wildcard_domain_patterns F_denied_domains managed;
      let candidate := config_denied_domains config in
      let required_set := lower_set managed in
      match nc_denylist_expansion_enabled k with
      | Some false =>
          if bool_decide (lower_set candidate = required_set) then Ok tt
          else invalid_value F_denied_domains (TextList candidate) (Text "must match managed denied_domains")
      | Some true | None =>
          let candidate_set := lower_set candidate in
          let missing := set_filter (fun entry => negb (bool_decide (entry ∈ candidate_set))) required_set in
          match missing with
          | [] => Ok tt
          | _ => invalid_value F_denied_domains (Text "missing managed denied_domains entries") (TextList missing)
          end
      end
  end.

Definition validate_allow_unix_sockets (config : NetworkProxyConfig) (k : NetworkProxyConstraints) : check :=
  match nc_allow_unix_sockets k with
  | None => Ok tt
  | Some managed =>
      let allowed_set := lower_set managed in
      let invalid := List.filter (fun entry => negb (bool_decide (to_ascii_lowercase entry ∈ allowed_set)))
                       (allow_unix_sockets (network config)) in
      match invalid with
      | [] => Ok tt
      | _ => invalid_value F_allow_unix_sockets (TextList invalid) (Text "subset of managed allow_unix_sockets")
      end
  end.

Definition invalid_mitm_hook_configuration (err : HookError) : NetworkProxyConstraintError :=
  InvalidValue F_mitm_hooks (TextHookError err) (Text "valid MITM hook configuration").

Definition validate_policy_against_constraints (config : NetworkProxyConfig) (k : NetworkProxyConstraints) : check :=
  _ ← map_err invalid_mitm_hook_configuration (validate_mitm_hook_config M config);
  _ ← validate_non_global_wildcard_domain_patterns F_denied_domains (config_denied_domains config);
  _ ← validate_enabled config k;
  _ ← validate_mode (ns_mode (network config)) k;
  _ ← validate_flag F_allow_upstream_proxy (ns_allow_upstream_proxy (network config)) (nc_allow_upstream_proxy k);
  _ ← validate_flag F_allow_non_loopback_proxy (ns_dangerously_allow_non_loopback_proxy (network config))
        (nc_dangerously_allow_non_loopback_proxy k);
  _ ← validate_all_unix_sockets config k;
  _ ← validate_allow_local_binding config k;
  _ ← validate_allowed_domains config k;
  _ ← validate_denied_domains config k;
  validate_allow_unix_sockets config k.
End Validate.

(** ** The compiled state *)

(** A request that was refused, for display. *)
Record BlockedRequest : Type := mkBlocked {
  br_host : str;
  br_reason : str;
  br_client : option str;
  br_method : option str;
  br_mode : option NetworkMode;
  br_protocol : str;
  br_decision : option str;
  br_source : option str;
  br_port : option N;
  br_timestamp : Z
}.

Definition MAX_BLOCKED_EVENTS : nat := 200.

(** [MitmUpstreamConfig], and a [MitmState] as the configuration it was made from. *)
Record MitmUpstreamConfig : Type := mkMitmUpstream { mu_allow_upstream_proxy : bool; mu_allow_local_binding : bool }.

Record ConfigState : Type := mkConfigState {
  cs_config : NetworkProxyConfig;
  cs_allow_set : list str;
  cs_deny_set : list str;
  cs_mitm : option MitmUpstreamConfig;
  cs_mitm_hooks : gmap str (list MitmHook);
  cs_constraints : NetworkProxyConstraints;
  cs_blocked : list BlockedRequest;
  cs_blocked_total : N
}.

Inductive ProxyError : Type :=
| SocketPathError (err : ConfigError)
| ConstraintError (err : NetworkProxyConstraintError)
| PatternError (err : PolicyError)
| HookConfigError (err : HookError)
| CertificateError
| ReloadError.

(** [new_state.blocked = ..; new_state.blocked_total = ..]. *)
Definition with_blocked (st : ConfigState) (blocked : list BlockedRequest) (total : N) : ConfigState :=
  mkConfigState (cs_config st) (cs_allow_set st) (cs_deny_set st) (cs_mitm st) (cs_mitm_hooks st)
    (cs_constraints st) blocked total.
Definition with_config (st : ConfigState) (config : NetworkProxyConfig) : ConfigState :=
  mkConfigState config (cs_allow_set st) (cs_deny_set st) (cs_mitm st) (cs_mitm_hooks st)
    (cs_constraints st) (cs_blocked st) (cs_blocked_total st).

(** The machine the proxy runs on: paths, environment, whether the certificate authority
    can be loaded or created, and the resolver. *)
Inductive LookupResult : Type := LookupAddrs (addrs : list SocketAddr) | LookupFailed | LookupTimedOut.

Record ProxyHost : Type := mkProxyHost {
  ph_host : Host;
  ph_env : str -> option str;
  ph_load_ca : bool;
  ph_lookup : str -> N -> LookupResult
}.

Section State.
Context `{UrlHostParser} `{HttpLib} `{GlobEngine} (P : ProxyHost).

(** [MitmState::new]. *)
Definition MitmState_new (config : MitmUpstreamConfig) : result ProxyError MitmUpstreamConfig :=
  if ph_load_ca P then Ok config else Err CertificateError.

Definition build_config_state (config : NetworkProxyConfig) (constraints : NetworkProxyConstraints) :
    result ProxyError ConfigState :=
  _ ← map_err SocketPathError (validate_unix_socket_allowlist_paths (ph_host P) config);
  _ ← map_err ConstraintError
        (validate_non_global_wildcard_domain_patterns F_denied_domains (config_denied_domains config));
  deny_set ← map_err PatternError (compile_denylist_globset (config_denied_domains config));
  allow_set ← map_err PatternError (compile_allowlist_globset (config_allowed_domains config));
  mitm_hooks ← map_err HookConfigError (compile_mitm_hooks (ph_host P) (ph_env P) config);
  mitm ← (if ns_mitm (network config) then
            Some <$> MitmState_new (mkMitmUpstream (ns_allow_upstream_proxy (network config))
                                      (ns_allow_local_binding (network config)))
          else Ok None);
  Ok (mkConfigState config allow_set deny_set mitm mitm_hooks constraints [] 0%N).

(** ** Decisions *)

Inductive HostBlockReason : Type := Denied | NotAllowed | NotAllowedLocal.
Inductive HostBlockDecision : Type := Allowed | Blocked (reason : HostBlockReason).

#[global] Instance HostBlockReason_eq_dec : EqDecision HostBlockReason.
Proof. solve_decision. Defined.
#[global] Instance HostBlockDecision_eq_dec : EqDecision HostBlockDecision.
Proof. solve_decision. Defined.

Definition host_resolves_to_non_public_ip (host : str) (port : N) : bool :=
  match parse_ip host with
  | Some ip => is_non_public_ip ip
  | None =>
      match ph_lookup P host port with
      | LookupAddrs addrs => existsb (fun addr => is_non_public_ip (addr_ip addr)) addrs
      | LookupFailed | LookupTimedOut => true
      end
  end.

(** A loopback name or a literal that is not public. *)
Definition local_literal (host : str) : bool :=
  let host_no_scope := from_option id host (unscoped_ip_literal host) in
  if is_loopback_host host then true
  else match parse_ip host_no_scope with
       | Some ip => is_non_public_ip ip
       | None => false
       end.

(** [NetworkProxyState::host_blocked] on the state read under the lock. *)
Definition host_blocked (st : ConfigState) (host : str) (port : N) : HostBlockDecision :=
  match Host_parse host with
  | Err _ => Blocked NotAllowed
  | Ok host =>
      let allowed := allowed_domains (network (cs_config st)) in
      let allowed_domains_empty := match allowed with None => true | Some _ => false end in
      let allowed := default [] allowed in
      if globset_matches_host_or_unscoped (cs_deny_set st) host then Blocked Denied
      else
        let is_allowlisted := globset_matches_host_or_unscoped (cs_allow_set st) host in
        let decide_allowlist :=
          if allowed_domains_empty || negb is_allowlisted then Blocked NotAllowed else Allowed in
        if negb (ns_allow_local_binding (network (cs_config st))) then
          if local_literal host then
            if negb (is_explicit_local_allowlisted allowed host) then Blocked NotAllowedLocal else decide_allowlist
          else if host_resolves_to_non_public_ip host port then Blocked NotAllowedLocal
          else decide_allowlist
        else decide_allowlist
  end.

(** The loop that keeps the buffer short: [while len > MAX { pop_front }]. *)
Fixpoint pop_to (fuel : nat) (blocked : list BlockedRequest) : list BlockedRequest :=
  match fuel with
  | O => blocked
  | S fuel => if (MAX_BLOCKED_EVENTS <? length blocked)%nat then pop_to fuel (tail blocked) else blocked
  end.

(** The write of [record_blocked]. *)
Definition record_blocked (st : ConfigState) (entry : BlockedRequest) : ConfigState :=
  let blocked := cs_blocked st ++ [entry] in
  with_blocked st (pop_to (length blocked) blocked) (sat_add (cs_blocked_total st) 1).

(** [drain_blocked]: the entries, and the state without them. *)
Definition drain_blocked (st : ConfigState) : list BlockedRequest * ConfigState :=
  (cs_blocked st, with_blocked st [] (cs_blocked_total st)).

(** [is_unix_socket_allowed], where Unix sockets are supported. *)
Definition socket_entry_matches (requested_abs : path) (requested_canonical : option path) (allowed : str) : bool :=
  match ValidatedUnixSocketPath_parse (ph_host P) allowed with
  | Ok (Native allowed_path) =>
      if bool_decide (allowed_path = requested_abs) then true
      else match requested_canonical, host_canonicalize (ph_host P) allowed_path with
           | Some requested, Some allowed_canonical => bool_decide (allowed_canonical = requested)
           | _, _ => false
           end
  | _ => false
  end.

Definition is_unix_socket_allowed (supported : bool) (st : ConfigState) (p : str) : bool :=
  if negb supported then false
  else if negb (is_absolute (components p)) then false
  else if ns_dangerously_allow_all_unix_sockets (network (cs_config st)) then true
  else match abs_from (ph_host P) p with
       | None => false
       | Some requested_abs =>
           existsb (socket_entry_matches requested_abs (host_canonicalize (ph_host P) requested_abs))
             (allow_unix_sockets (network (cs_config st)))
       end.

Definition method_allowed (st : ConfigState) (method : str) : bool :=
  allows_method (ns_mode (network (cs_config st))) method.
Definition host_has_mitm_hooks (st : ConfigState) (host : str) : bool :=
  match cs_mitm_hooks st !! normalize_host host with Some _ => true | None => false end.

(** ** Updates *)

Inductive DomainListKind : Type := ListAllow | ListDeny.

Definition kind_permission (kind : DomainListKind) : NetworkDomainPermission :=
  match kind with ListAllow => DomainAllow | ListDeny => DomainDeny end.
Definition kind_entries (kind : DomainListKind) (s : NetworkProxySettings) : list str :=
  match kind with ListAllow => default [] (allowed_domains s) | ListDeny => default [] (denied_domains s) end.
Definition kind_opposite_entries (kind : DomainListKind) (s : NetworkProxySettings) : list str :=
  match kind with ListAllow => default [] (denied_domains s) | ListDeny => default [] (allowed_domains s) end.

(** What an iteration of [update_domain_list] computes from the configuration and the
    constraints it read: nothing to do, an error, or a configuration and its state. *)
Inductive UpdatePlan : Type :=
| PlanDone
| PlanFailed (err : ProxyError)
| PlanCommit (candidate : NetworkProxyConfig) (new_state : ConfigState).

Definition plan_update (host : str) (kind : DomainListKind) (previous_cfg : NetworkProxyConfig)
    (constraints : NetworkProxyConstraints) : UpdatePlan :=
  let target_contains := existsb (fun e => normalize_host e =s? host) (kind_entries kind (network previous_cfg)) in
  let opposite_contains :=
    existsb (fun e => normalize_host e =s? host) (kind_opposite_entries kind (network previous_cfg)) in
  if target_contains && negb opposite_contains then PlanDone
  else
    let candidate := mkConfig (upsert_domain_permission (network previous_cfg) host (kind_permission kind)
                                 normalize_host) in
    match validate_policy_against_constraints (ph_host P) candidate constraints with
    | Err err => PlanFailed (ConstraintError err)
    | Ok _ =>
        match build_config_state candidate constraints with
        | Err err => PlanFailed err
        | Ok new_state => PlanCommit candidate new_state
        end
    end.
End State.

(** ** What a decision means *)

Section Decisions.
Context `{GlobEngine} (P : ProxyHost).

Lemma host_parse_ok (host h : str) : Host_parse host = Ok h <-> h = normalize_host host /\ h <> [].
Proof. unfold Host_parse. case_bool_decide; naive_solver. Qed.

(** The host is reachable as far as local networks are concerned: they are open, or it is
    a local literal listed as such, or all its addresses are public. *)
Definition local_policy_ok (st : ConfigState) (h : str) (port : N) : Prop :=
  ns_allow_local_binding (network (cs_config st)) = true \/
  (local_literal h = true /\
   is_explicit_local_allowlisted (default [] (allowed_domains (network (cs_config st)))) h = true) \/
  (local_literal h = false /\ host_resolves_to_non_public_ip P h port = false).

(** A host is allowed exactly when it is not empty, no denied pattern matches it, an allowed
    one does, and local networks are open to it: they are enabled, or it is a local literal
    listed as such, or it resolves to public addresses only. *)
Theorem host_blocked_allowed_iff (st : ConfigState) (host : str) (port : N) :
  host_blocked P st host port = Allowed <->
  exists h, Host_parse host = Ok h /\
    globset_matches_host_or_unscoped (cs_deny_set st) h = false /\
    globset_matches_host_or_unscoped (cs_allow_set st) h = true /\
    is_Some (allowed_domains (network (cs_config st))) /\
    local_policy_ok st h port.
Proof.
  unfold host_blocked, local_policy_ok. destruct (Host_parse host) as [h|err]; [|naive_solver].
  split.
  - intros Hd. exists h. split; [done|].
    destruct (globset_matches_host_or_unscoped (cs_deny_set st) h); [done|].
    destruct (globset_matches_host_or_unscoped (cs_allow_set st) h), (allowed_domains _) eqn:Ha,
      (ns_allow_local_binding _), (local_literal h), (is_explicit_local_allowlisted _ _),
      (host_resolves_to_non_public_ip P h port); cbn in *; try done; naive_solver.
  - intros (h' & [= <-] & -> & -> & [l ->] & Hl). cbn [default orb negb].
    destruct Hl as [->|[[-> Hl]|[-> ->]]]; [done| |]; [cbn [default] in Hl; rewrite Hl|]; by destruct (ns_allow_local_binding _).
Qed.

(** A denied pattern wins over everything else. *)
Lemma host_blocked_denied (st : ConfigState) (host h : str) (port : N) :
  Host_parse host = Ok h -> globset_matches_host_or_unscoped (cs_deny_set st) h = true ->
  host_blocked P st host port = Blocked Denied.
Proof. intros Hh Hd. unfold host_blocked. by rewrite Hh, Hd. Qed.
End Decisions.

(** ** The compiled state follows its configuration *)

Section Valid.
Context `{UrlHostParser} `{HttpLib} `{GlobEngine} (P : ProxyHost).

(** The configuration keeps to the constraints, and the sets and hooks are compiled from it. *)
Definition state_ok (st : ConfigState) : Prop :=
  validate_policy_against_constraints (ph_host P) (cs_config st) (cs_constraints st) = Ok tt /\
  compile_denylist_globset (config_denied_domains (cs_config st)) = Ok (cs_deny_set st) /\
  compile_allowlist_globset (config_allowed_domains (cs_config st)) = Ok (cs_allow_set st) /\
  compile_mitm_hooks (ph_host P) (ph_env P) (cs_config st) = Ok (cs_mitm_hooks st) /\
  (is_Some (cs_mitm st) <-> ns_mitm (network (cs_config st)) = true).

Lemma build_config_state_ok (config : NetworkProxyConfig) (k : NetworkProxyConstraints) (st : ConfigState) :
  validate_policy_against_constraints (ph_host P) config k = Ok tt -> build_config_state P config k = Ok st ->
  state_ok st /\ cs_config st = config /\ cs_constraints st = k /\ cs_blocked st = [].
Proof.
  unfold build_config_state. intros Hv Hok.
  apply result_bind_ok in Hok as (_ & _ & Hok). apply result_bind_ok in Hok as (_ & _ & Hok).
  apply result_bind_ok in Hok as (ds & Hd%map_err_is_ok & Hok). apply result_bind_ok in Hok as (al & Ha%map_err_is_ok & Hok).
  apply result_bind_ok in Hok as (hooks & Hh%map_err_is_ok & Hok). apply result_bind_ok in Hok as (mitm & Hm & Hok).
  simplify_eq. unfold state_ok. cbn [cs_config cs_constraints cs_deny_set cs_allow_set cs_mitm_hooks cs_mitm cs_blocked].
  split_and!; try done. destruct (ns_mitm (network config)) eqn:He; simplify_eq.
  - unfold MitmState_new in Hm. destruct (ph_load_ca P); cbn in Hm; simplify_eq. by split.
  - split; [by intros [? ?]|done].
Qed.

Lemma state_ok_with_blocked (st : ConfigState) (blocked : list BlockedRequest) (total : N) :
  state_ok st -> state_ok (with_blocked st blocked total).
Proof. done. Qed.

(** *** Managed lists *)

Lemma elem_of_lower_set (l : list str) (p : str) :
  p ∈ lower_set l <-> exists q, q ∈ l /\ to_ascii_lowercase q = p.
Proof. unfold lower_set. rewrite elem_of_list_to_set, list_elem_of_fmap. naive_solver. Qed.

Lemma set_filter_nil (keep : str -> bool) (s : gset str) (p : str) :
  set_filter keep s = [] -> p ∈ s -> keep p = false.
Proof.
  intros Hn Hp. destruct (keep p) eqn:Hk; [|done]. assert (p ∈ set_filter keep s) as Hin.
  { apply elem_of_filter_bool. split; [by apply elem_of_elements|done]. }
  rewrite Hn in Hin. by apply elem_of_nil in Hin.
Qed.

Lemma validate_parts (config : NetworkProxyConfig) (k : NetworkProxyConstraints) :
  validate_policy_against_constraints (ph_host P) config k = Ok tt <->
  validate_mitm_hook_config (ph_host P) config = Ok tt /\
  validate_non_global_wildcard_domain_patterns F_denied_domains (config_denied_domains config) = Ok tt /\
  validate_enabled config k = Ok tt /\ validate_mode (ns_mode (network config)) k = Ok tt /\
  validate_flag F_allow_upstream_proxy (ns_allow_upstream_proxy (network config)) (nc_allow_upstream_proxy k) = Ok tt /\
  validate_flag F_allow_non_loopback_proxy (ns_dangerously_allow_non_loopback_proxy (network config))
    (nc_dangerously_allow_non_loopback_proxy k) = Ok tt /\
  validate_all_unix_sockets config k = Ok tt /\ validate_allow_local_binding config k = Ok tt /\
  validate_allowed_domains config k = Ok tt /\ validate_denied_domains config k = Ok tt /\
  validate_allow_unix_sockets config k = Ok tt.
Proof.
  unfold validate_policy_against_constraints. split.
  - intros Hok. apply result_bind_ok in Hok as ([] & Hh%map_err_is_ok & Hok).
    do 9 (let E := fresh in apply result_bind_ok in Hok as ([] & E & Hok)). done.
  - intros (Hh & Hs). rewrite Hh. cbn [map_err mbind result_bind].
    repeat match type of Hs with ?a = Ok tt /\ _ => let E := fresh in destruct Hs as [E Hs]; rewrite E; cbn [mbind result_bind] end.
    done.
Qed.

(** A managed denial is in the list of the configuration, up to case. *)
Lemma managed_denials_listed (config : NetworkProxyConfig) (k : NetworkProxyConstraints) (managed : list str) (p : str) :
  validate_denied_domains config k = Ok tt -> nc_denied_domains k = Some managed -> p ∈ managed ->
  exists q, q ∈ config_denied_domains config /\ to_ascii_lowercase q = to_ascii_lowercase p.
Proof.
  unfold validate_denied_domains. intros Hok Hk Hp. rewrite Hk in Hok. apply result_bind_ok in Hok as (_ & _ & Hok).
  assert (to_ascii_lowercase p ∈ lower_set managed) as Hin by (apply elem_of_lower_set; eauto).
  apply elem_of_lower_set. destruct (nc_denylist_expansion_enabled k) as [[]|].
  - destruct (set_filter _ _) eqn:Hs; [|done]. apply (set_filter_nil _ _ _ Hs) in Hin. by bool_to_prop.
  - case_bool_decide as Heq; [|done]. by rewrite Heq.
  - destruct (set_filter _ _) eqn:Hs; [|done]. apply (set_filter_nil _ _ _ Hs) in Hin. by bool_to_prop.
Qed.

(** With a fixed allow list, an entry of the configuration is a managed one, up to case. *)
Lemma managed_allowances_fixed (config : NetworkProxyConfig) (k : NetworkProxyConstraints) (managed : list str) (q : str) :
  validate_allowed_domains config k = Ok tt -> nc_allowed_domains k = Some managed ->
  nc_allowlist_expansion_enabled k = Some false -> q ∈ config_allowed_domains config ->
  exists p, p ∈ managed /\ to_ascii_lowercase p = to_ascii_lowercase q.
Proof.
  unfold validate_allowed_domains. intros Hok Hk Hx Hq. rewrite Hk in Hok. apply result_bind_ok in Hok as (_ & _ & Hok).
  rewrite Hx in Hok. case_bool_decide as Heq; [|done].
  assert (to_ascii_lowercase q ∈ lower_set (config_allowed_domains config)) as Hin by (apply elem_of_lower_set; eauto).
  rewrite Heq in Hin. apply elem_of_difference in Hin as [Hin _]. by apply elem_of_lower_set in Hin.
Qed.

(** A pattern and a list that has it in other letters: the compiled list matches what the pattern matches. *)
Lemma compiled_has_pattern (w : GlobalWildcard) (l set : list str) (p q g h : str) :
  compile_globset_with_policy l w = Ok set -> q ∈ l -> to_ascii_lowercase q = to_ascii_lowercase p ->
  g ∈ expand_domain_pattern (normalize_pattern p) -> glob_is_match g h = true -> is_match set h = true.
Proof.
  intros Hc Hq Heq Hg Hm. apply (compile_matches _ _ _ _ Hc). exists q, g.
  by rewrite (normalize_pattern_case q p) by done.
Qed.

End Valid.

(** ** A valid state enforces the managed lists *)

Section Enforced.
Context `{UrlHostParser} `{HttpLib} `{GlobEngine} (P : ProxyHost).

(** A valid state whose constraints deny a pattern denies the hosts it matches. *)
Lemma state_ok_denies (st : ConfigState) (managed : list str) (p glob host h : str) (port : N) :
  state_ok P st -> nc_denied_domains (cs_constraints st) = Some managed -> p ∈ managed ->
  Host_parse host = Ok h -> glob ∈ expand_domain_pattern (normalize_pattern p) -> glob_is_match glob h = true ->
  host_blocked P st host port = Blocked Denied.
Proof.
  intros (Hv & Hd & _) Hk Hp Hh Hg Hm.
  apply validate_parts in Hv as (_ & _ & _ & _ & _ & _ & _ & _ & _ & Hden & _).
  destruct (managed_denials_listed _ _ _ _ Hden Hk Hp) as (q & Hq & Heq).
  apply (host_blocked_denied P st host h port Hh). unfold globset_matches_host_or_unscoped.
  by rewrite (compiled_has_pattern _ _ _ _ _ _ _ Hd Hq Heq Hg Hm).
Qed.

(** A fixed list of a valid state: what is allowed matches a managed pattern. *)
Lemma state_ok_allows_managed (st : ConfigState) (managed : list str) (host : str) (port : N) :
  state_ok P st -> nc_allowed_domains (cs_constraints st) = Some managed ->
  nc_allowlist_expansion_enabled (cs_constraints st) = Some false ->
  host_blocked P st host port = Allowed ->
  exists h p glob, Host_parse host = Ok h /\ p ∈ managed /\ glob ∈ expand_domain_pattern (normalize_pattern p) /\
    (glob_is_match glob h = true \/ exists ip, unscoped_ip_literal h = Some ip /\ glob_is_match glob ip = true).
Proof.
  intros (Hv & _ & Ha & _) Hk Hx Hal.
  apply validate_parts in Hv as (_ & _ & _ & _ & _ & _ & _ & _ & Hall & _ & _).
  apply host_blocked_allowed_iff in Hal as (h & Hh & _ & Hm & _). exists h.
  assert (forall x, is_match (cs_allow_set st) x = true ->
    exists p glob, p ∈ managed /\ glob ∈ expand_domain_pattern (normalize_pattern p) /\ glob_is_match glob x = true) as Hsrc.
  { intros x Hx'. apply (compile_matches _ _ _ _ Ha) in Hx' as (q & glob & Hq & Hg & Hmm).
    destruct (managed_allowances_fixed _ _ _ _ Hall Hk Hx Hq) as (p & Hp & Heq).
    exists p, glob. by rewrite (normalize_pattern_case p q). }
  unfold globset_matches_host_or_unscoped in Hm. apply orb_true_iff in Hm as [Hm|Hm].
  - destruct (Hsrc h Hm) as (p & glob & ? & ? & ?). exists p, glob. eauto.
  - destruct (unscoped_ip_literal h) as [ip|] eqn:Hip; [|done].
    destruct (Hsrc ip Hm) as (p & glob & ? & ? & ?). exists p, glob. split_and!; eauto.
Qed.
End Enforced.

(** ** Concurrent operations *)

Module Tasks.
Section Tasks.
Context `{UrlHostParser} `{HttpLib} `{GlobEngine} (P : ProxyHost).

(** The operations that change the state; the host of an update is already parsed. *)
Inductive Op : Type :=
| OpUpdate (host : str) (kind : DomainListKind)     (** [update_domain_list] *)
| OpSetMode (mode : NetworkMode)                    (** [set_network_mode] *)
| OpReplace (new_state : ConfigState)               (** [replace_config_state] *)
| OpRecord (entry : BlockedRequest)                 (** [record_blocked] *)
| OpDrain.                                          (** [drain_blocked] *)

(** Where a task is between two sections under the lock. *)
Inductive Task : Type :=
| Reloading (op : Op)                               (** before [maybe_reload] *)
| ReloadRead (op : Op) (new_state : ConfigState)    (** it returned a state *)
| ReloadWrite (op : Op) (new_state : ConfigState) (blocked : list BlockedRequest) (total : N)
| Running (op : Op)                                 (** after [reload_if_needed] *)
| UpdateCommit (host : str) (kind : DomainListKind) (previous_cfg : NetworkProxyConfig)
    (constraints : NetworkProxyConstraints) (new_state : ConfigState)
    (blocked : list BlockedRequest) (total : N)
| ModeCommit (mode : NetworkMode) (constraints : NetworkProxyConstraints)
| ForceAsk                                          (** [force_reload], before [reload_now] *)
| ForceWrite (new_state : ConfigState)
| Finished (outcome : result ProxyError (list BlockedRequest)).

(** What the reloader answers. *)
Inductive Answer : Type := NoReload | NewState (st : ConfigState) | ReloadFails.

(** [add_allowed_domain] and [add_denied_domain] parse the host first. *)
Definition start_update (host : str) (kind : DomainListKind) : Task :=
  match Host_parse host with
  | Ok h => Reloading (OpUpdate h kind)
  | Err err => Finished (Err (PatternError err))
  end.

(** One section of a task: the state behind the lock and the task after it. *)
Definition step_task (answer : Answer) (g : ConfigState) (t : Task) : option (ConfigState * Task) :=
  match t with
  | Reloading op =>
      match answer with
      | NoReload => Some (g, Running op)
      | NewState st => Some (g, ReloadRead op st)
      | ReloadFails => Some (g, Finished (Err ReloadError))
      end
  | ReloadRead op st => Some (g, ReloadWrite op st (cs_blocked g) (cs_blocked_total g))
  | ReloadWrite op st blocked total => Some (with_blocked st blocked total, Running op)
  | Running (OpUpdate host kind) =>
      match plan_update P host kind (cs_config g) (cs_constraints g) with
      | PlanDone => Some (g, Finished (Ok []))
      | PlanFailed err => Some (g, Finished (Err err))
      | PlanCommit _ new_state =>
          Some (g, UpdateCommit host kind (cs_config g) (cs_constraints g) new_state (cs_blocked g)
                     (cs_blocked_total g))
      end
  | UpdateCommit host kind previous_cfg constraints new_state blocked total =>
      if bool_decide (cs_constraints g = constraints) && bool_decide (cs_config g = previous_cfg)
      then Some (with_blocked new_state blocked total, Finished (Ok []))
      else Some (g, Reloading (OpUpdate host kind))
  | Running (OpSetMode mode) =>
      match validate_policy_against_constraints (ph_host P) (mkConfig (with_mode (network (cs_config g)) mode))
              (cs_constraints g) with
      | Ok _ => Some (g, ModeCommit mode (cs_constraints g))
      | Err err => Some (g, Finished (Err (ConstraintError err)))
      end
  | ModeCommit mode constraints =>
      if bool_decide (cs_constraints g = constraints)
      then Some (with_config g (mkConfig (with_mode (network (cs_config g)) mode)), Finished (Ok []))
      else Some (g, Reloading (OpSetMode mode))
  | Running (OpReplace st) => Some (with_blocked st (cs_blocked g) (cs_blocked_total g), Finished (Ok []))
  | Running (OpRecord entry) => Some (record_blocked g entry, Finished (Ok []))
  | Running OpDrain => let '(entries, g') := drain_blocked g in Some (g', Finished (Ok entries))
  | ForceAsk =>
      match answer with
      | NewState st => Some (g, ForceWrite st)
      | ReloadFails => Some (g, Finished (Err ReloadError))
      | NoReload => None
      end
  | ForceWrite st => Some (with_blocked st (cs_blocked g) (cs_blocked_total st), Finished (Ok []))
  | Finished _ => None
  end.

(** A state as the loader makes it: a configuration checked against its constraints, then built. *)
Definition built (st : ConfigState) : Prop :=
  exists config k, validate_policy_against_constraints (ph_host P) config k = Ok tt /\
                   build_config_state P config k = Ok st.

Definition good_answer (a : Answer) : Prop := match a with NewState st => built st | _ => True end.
Definition good_op (op : Op) : Prop := match op with OpReplace st => built st | _ => True end.

Definition Sys : Type := ConfigState * list Task.

Inductive sys_step : Sys -> Sys -> Prop :=
| sys_run g ts i t answer g' t' :
    ts !! i = Some t -> good_answer answer -> step_task answer g t = Some (g', t') ->
    sys_step (g, ts) (g', <[i := t']> ts)
| sys_operation g ts op : good_op op -> sys_step (g, ts) (g, ts ++ [Reloading op])
| sys_update g ts host kind : sys_step (g, ts) (g, ts ++ [start_update host kind])
| sys_force g ts : sys_step (g, ts) (g, ts ++ [ForceAsk]).

Definition reachable (st : ConfigState) (s : Sys) : Prop := rtc sys_step (st, []) s.

(** *** The invariant *)

Definition short (blocked : list BlockedRequest) : Prop := (length blocked <= MAX_BLOCKED_EVENTS)%nat.

Definition task_ok (t : Task) : Prop :=
  match t with
  | Reloading op | Running op => good_op op
  | ReloadRead op st => good_op op /\ built st
  | ReloadWrite op st blocked _ => good_op op /\ built st /\ short blocked
  | UpdateCommit _ _ _ k st blocked _ => state_ok P st /\ cs_constraints st = k /\ short blocked
  | ModeCommit mode k => validate_mode mode k = Ok tt
  | ForceWrite st => built st
  | ForceAsk | Finished _ => True
  end.

Definition sys_ok (s : Sys) : Prop := state_ok P s.1 /\ short (cs_blocked s.1) /\ Forall task_ok s.2.

Lemma built_state_ok (st : ConfigState) : built st -> state_ok P st /\ short (cs_blocked st).
Proof.
  intros (config & k & Hv & Hb). destruct (build_config_state_ok P config k st Hv Hb) as (Hok & _ & _ & Hn).
  split; [done|]. rewrite Hn. unfold short. cbn. lia.
Qed.

Lemma pop_to_short (fuel : nat) (l : list BlockedRequest) :
  (length l <= fuel + MAX_BLOCKED_EVENTS)%nat -> short (pop_to fuel l).
Proof.
  revert l. induction fuel as [|fuel IH]; intros l Hl; cbn [pop_to]; [done|].
  destruct (Nat.ltb_spec MAX_BLOCKED_EVENTS (length l)); [|unfold short; lia].
  apply IH. destruct l; cbn in *; lia.
Qed.

(** Changing the mode within its limit keeps the configuration within the constraints. *)
Lemma state_ok_with_mode (g : ConfigState) (mode : NetworkMode) :
  state_ok P g -> validate_mode mode (cs_constraints g) = Ok tt ->
  state_ok P (with_config g (mkConfig (with_mode (network (cs_config g)) mode))).
Proof.
  intros (Hv & Hrest) Hm. split; [|done]. apply validate_parts. apply validate_parts in Hv.
  destruct Hv as (H1' & H2' & H3' & _ & Hv). split_and!; done || apply Hv.
Qed.

Lemma plan_update_ok (host : str) (kind : DomainListKind) (config : NetworkProxyConfig)
    (k : NetworkProxyConstraints) (candidate : NetworkProxyConfig) (st : ConfigState) :
  plan_update P host kind config k = PlanCommit candidate st ->
  state_ok P st /\ cs_constraints st = k /\ cs_config st = candidate /\
  candidate = mkConfig (upsert_domain_permission (network config) host (kind_permission kind) normalize_host).
Proof.
  unfold plan_update. intros Hp. destruct (_ && _); [done|].
  destruct (validate_policy_against_constraints _ _ _) as [[]|] eqn:Hv; [|done].
  destruct (build_config_state P _ k) as [st'|] eqn:Hb; [|done]. simplify_eq.
  destruct (build_config_state_ok P _ _ _ Hv Hb) as (? & ? & ? & _). done.
Qed.

Lemma step_task_ok (answer : Answer) (g g' : ConfigState) (t t' : Task) :
  good_answer answer -> state_ok P g -> short (cs_blocked g) -> task_ok t ->
  step_task answer g t = Some (g', t') -> state_ok P g' /\ short (cs_blocked g') /\ task_ok t'.
Proof.
  intros Ha Hg Hs Ht Hstep. destruct t as [op|op st|op st b n|op|h kd c k st b n|m k| |st|o]; cbn in Hstep.
  - destruct answer; simplify_eq; done.
  - simplify_eq. by destruct Ht.
  - simplify_eq. destruct Ht as (? & Hb & ?). split_and!; [by apply built_state_ok in Hb as [? _]|done|done].
  - destruct op as [h kd|m|st|e|]; simplify_eq.
    + destruct (plan_update _ _ _ _ _) eqn:Hp; simplify_eq; try done.
      apply plan_update_ok in Hp as (? & ? & _). done.
    + destruct (validate_policy_against_constraints _ _ _) as [[]|] eqn:Hv; simplify_eq; [|done].
      apply validate_parts in Hv. split_and!; [done|done|]. by apply Hv.
    + split_and!; [by apply built_state_ok in Ht as [? _]|done|done].
    + split_and!; [done| |done]. apply pop_to_short. lia.
    + split_and!; [done| |done]. unfold short. cbn. lia.
  - destruct Ht as (? & ? & ?). destruct (_ && _); simplify_eq; done.
  - case_bool_decide as Hk; simplify_eq; [|done]. split_and!; [by apply state_ok_with_mode|done|done].
  - destruct answer; simplify_eq; done.
  - simplify_eq. split_and!; [by apply built_state_ok in Ht as [? _]|done|done].
  - done.
Qed.

Lemma sys_step_ok (s s' : Sys) : sys_ok s -> sys_step s s' -> sys_ok s'.
Proof.
  intros (Hg & Hs & Hts) Hstep. destruct Hstep as [g ts i t a g' t' Hi Ha Hst|g ts op Hop|g ts host kind|g ts];
    unfold sys_ok in *; cbn [fst snd] in *.
  - destruct (step_task_ok a g g' t t') as (? & ? & ?); try done.
    { rewrite Forall_lookup in Hts. by eapply Hts. }
    split_and!; [done|done|by apply Forall_insert].
  - split_and!; [done|done|]. apply Forall_app. by split; [|constructor].
  - split_and!; [done|done|]. apply Forall_app. split; [done|]. constructor; [|done].
    unfold start_update. by destruct (Host_parse host).
  - split_and!; [done|done|]. apply Forall_app. by split; [|constructor].
Qed.

(** In every state that concurrent operations reach, the configuration keeps to the
    constraints, the sets are compiled from it, and the buffer is bounded. *)
Lemma reachable_ok (st : ConfigState) (s : Sys) : built st -> reachable st s -> sys_ok s.
Proof.
  intros Hb Hr. assert (sys_ok (st, [])) as Hok.
  { apply built_state_ok in Hb as [? ?]. split_and!; [done|done|constructor]. }
  unfold reachable in Hr. remember (st, []) as s0 eqn:Heq. clear Heq.
  induction Hr as [|s1 s2 s3 Hstep _ IH]; [done|]. by eapply IH, sys_step_ok.
Qed.

(** C26. However the operations of concurrent tasks interleave and whatever valid states the
    reloader brings, the state of the proxy satisfies its constraints, its globs are those of
    its configuration, and it keeps at most [MAX_BLOCKED_EVENTS] records. *)
Theorem reachable_state_valid (st : ConfigState) (g : ConfigState) (ts : list Task) :
  built st -> reachable st (g, ts) ->
  validate_policy_against_constraints (ph_host P) (cs_config g) (cs_constraints g) = Ok tt /\
  compile_denylist_globset (config_denied_domains (cs_config g)) = Ok (cs_deny_set g) /\
  compile_allowlist_globset (config_allowed_domains (cs_config g)) = Ok (cs_allow_set g) /\
  (length (cs_blocked g) <= MAX_BLOCKED_EVENTS)%nat.
Proof. intros Hb Hr. destruct (reachable_ok st (g, ts) Hb Hr) as ((? & ? & ? & _) & ? & _). done. Qed.

(** C5. In every state concurrent tasks can reach, a host that a denied pattern of the managed
    configuration matches is blocked as denied, whatever was allowed meanwhile. *)
Theorem managed_denials_enforced (st : ConfigState) (g : ConfigState) (ts : list Task) (managed : list str)
    (p glob host h : str) (port : N) :
  built st -> reachable st (g, ts) ->
  nc_denied_domains (cs_constraints g) = Some managed -> p ∈ managed ->
  Host_parse host = Ok h -> glob ∈ expand_domain_pattern (normalize_pattern p) -> glob_is_match glob h = true ->
  host_blocked P g host port = Blocked Denied.
Proof.
  intros Hb Hr. destruct (reachable_ok st (g, ts) Hb Hr) as (Hok & _). by apply state_ok_denies.
Qed.

(** In every state concurrent tasks can reach, when the managed list of allowed domains may
    not be extended, an allowed host is matched by one of its patterns. *)
Theorem managed_allowlist_enforced (st : ConfigState) (g : ConfigState) (ts : list Task) (managed : list str)
    (host : str) (port : N) :
  built st -> reachable st (g, ts) ->
  nc_allowed_domains (cs_constraints g) = Some managed ->
  nc_allowlist_expansion_enabled (cs_constraints g) = Some false ->
  host_blocked P g host port = Allowed ->
  exists h p glob, Host_parse host = Ok h /\ p ∈ managed /\ glob ∈ expand_domain_pattern (normalize_pattern p) /\
    (glob_is_match glob h = true \/ exists ip, unscoped_ip_literal h = Some ip /\ glob_is_match glob ip = true).
Proof.
  intros Hb Hr. destruct (reachable_ok st (g, ts) Hb Hr) as (Hok & _). by apply state_ok_allows_managed.
Qed.

(** *** A task that runs alone *)

Fixpoint run_alone (n : nat) (g : ConfigState) (t : Task) : ConfigState * Task :=
  match n with
  | O => (g, t)
  | S n => match step_task NoReload g t with
           | Some (g', t') => run_alone n g' t'
           | None => (g, t)
           end
  end.

(** An update that is not disturbed ends after three sections, with the plan it made. *)
Lemma update_alone (g : ConfigState) (h : str) (kind : DomainListKind) :
  run_alone 3 g (Reloading (OpUpdate h kind)) =
  match plan_update P h kind (cs_config g) (cs_constraints g) with
  | PlanDone => (g, Finished (Ok []))
  | PlanFailed err => (g, Finished (Err err))
  | PlanCommit _ st => (with_blocked st (cs_blocked g) (cs_blocked_total g), Finished (Ok []))
  end.
Proof.
  cbn. destruct (plan_update _ _ _ _ _) as [| |c st]; cbn; [done|done|].
  by rewrite !bool_decide_eq_true_2.
Qed.
End Tasks.
End Tasks.

(** ** A denial takes effect *)

Lemma parse_ip_star (s : str) : parse_ip (STAR :: s) = None.
Proof. reflexivity. Qed.

Lemma find_sub_head (n s b r : str) (c d : char) :
  c <> d -> find_sub (c :: n) (d :: s) = Some (b, r) -> exists b', b = d :: b'.
Proof.
  intros Hcd. cbn [find_sub]. assert (strip_prefix (c :: n) (d :: s) = None) as ->.
  { destruct (strip_prefix (c :: n) (d :: s)) eqn:Hs; [|done]. apply strip_prefix_Some in Hs. by simplify_eq/=. }
  destruct (find_sub (c :: n) s) as [[b' r']|]; [|done]. intros [= <- <-]. by exists b'.
Qed.

Lemma normalize_dns_star (s : str) :
  head s = Some STAR -> head (normalize_dns_host_or_ip_literal s) = Some STAR.
Proof.
  destruct s as [|c s]; [done|]. intros [= ->]. unfold normalize_dns_host_or_ip_literal. rewrite lower_cons.
  change (lower STAR) with STAR.
  assert (exists s', trim_end_matches DOT (STAR :: to_ascii_lowercase s) = STAR :: s') as [s' ->].
  { generalize (to_ascii_lowercase s). intros t. induction t as [|x t IH] using rev_ind; [by exists []|].
    unfold trim_end_matches in *. change (STAR :: t ++ [x]) with ((STAR :: t) ++ [x]).
    rewrite drop_end_while_snoc. destruct (DOT =? x)%N; [done|by exists (t ++ [x])]. }
  unfold normalize_ip_literal. rewrite parse_ip_star. cbn [scoped_literal].
  destruct (find_sub (lit "%25") (STAR :: s')) as [[b r]|] eqn:H1.
  - apply (find_sub_head (lit "25") s' b r PERCENT STAR) in H1 as [b' ->]; [|done]. rewrite parse_ip_star.
    destruct (find_sub (lit "%") (STAR :: s')) as [[b r']|] eqn:H2; [|done].
    apply (find_sub_head [] s' b r' PERCENT STAR) in H2 as [b2 ->]; [|done]. by rewrite parse_ip_star.
  - destruct (find_sub (lit "%") (STAR :: s')) as [[b r']|] eqn:H2; [|done].
    apply (find_sub_head [] s' b r' PERCENT STAR) in H2 as [b2 ->]; [|done]. by rewrite parse_ip_star.
Qed.

(** Normalisation keeps a leading star. *)
Lemma normalize_host_star (e : str) : head (trim e) = Some STAR -> head (normalize_host e) = Some STAR.
Proof.
  intros He. unfold normalize_host. destruct (trim e) as [|c s] eqn:Ht; [done|]. simplify_eq/=.
  change (starts_with [LBRACKET] (STAR :: s)) with false. cbn iota.
  destruct (_ =? 1)%nat; [|by apply normalize_dns_star].
  apply normalize_dns_star. cbn [split_once]. change (STAR =? COLON)%N with false. cbn iota.
  destruct (split_once COLON s) as [[a b]|]; done.
Qed.

(** An entry that is a spelling of a domain name is compiled to that name. *)
Lemma pattern_of_domain_entry (e : str) :
  domain_name (normalize_host e) = true -> normalize_pattern e = normalize_host e.
Proof.
  intros Hd. pose proof (domain_name_not_in _ STAR Hd eq_refl) as Hs.
  assert (head (trim e) <> Some STAR) as Hne.
  { intros He%normalize_host_star%head_in. done. }
  unfold normalize_pattern, split_wildcard. case_bool_decide as Hst; [by rewrite Hst in Hne|].
  assert (forall r, strip_prefix (STAR :: r) (trim e) = None) as Hnone.
  { intros r. destruct (strip_prefix (STAR :: r) (trim e)) eqn:Hp; [|done].
    apply strip_prefix_Some in Hp. by rewrite Hp in Hne. }
  change (lit "**.") with (STAR :: lit "*."). change (lit "*.") with (STAR :: lit "."). rewrite !Hnone.
  cbn [bool_decide]. change (([] : str) =s? []) with true. cbn iota. unfold normalize_host. by rewrite trim_idemp.
Qed.

(** Normalised hosts are in lower case. *)
Lemma lower_fixed_app (s t : str) :
  to_ascii_lowercase (s ++ t) = s ++ t -> to_ascii_lowercase s = s /\ to_ascii_lowercase t = t.
Proof. rewrite lower_app. intros Heq. apply app_inj_1 in Heq; [done|]. apply length_fmap. Qed.

Lemma drop_end_while_fixed (p : char -> bool) (s : str) :
  to_ascii_lowercase s = s -> to_ascii_lowercase (drop_end_while p s) = drop_end_while p s.
Proof.
  intros Hs. destruct (drop_end_while_prefix p s) as (suf & Heq & _). rewrite Heq in Hs at 1 2.
  by apply lower_fixed_app in Hs as [? _].
Qed.

Lemma scoped_literal_fixed (ds : list str) (s r : str) :
  to_ascii_lowercase s = s -> scoped_literal ds s = Some r -> to_ascii_lowercase r = r.
Proof.
  intros Hs. induction ds as [|d ds IH]; cbn [scoped_literal]; [done|].
  destruct (find_sub d s) as [[b e]|] eqn:Hf; [|done]. destruct (parse_ip b); [|done]. intros [= <-].
  apply find_sub_Some in Hf as ->. apply lower_fixed_app in Hs as [Hb He]. apply lower_fixed_app in He as [_ He].
  change (b ++ [PERCENT] ++ e) with (b ++ PERCENT :: e). by rewrite lower_app, lower_cons, Hb, He.
Qed.

Lemma normalize_dns_fixed (s : str) :
  to_ascii_lowercase (normalize_dns_host_or_ip_literal s) = normalize_dns_host_or_ip_literal s.
Proof.
  unfold normalize_dns_host_or_ip_literal. set (t := trim_end_matches DOT (to_ascii_lowercase s)).
  assert (to_ascii_lowercase t = t) as Ht by apply drop_end_while_fixed, to_ascii_lowercase_idemp.
  unfold normalize_ip_literal. destruct (parse_ip t); [done|].
  destruct (scoped_literal _ t) as [r|] eqn:Hr; [|done]. by eapply scoped_literal_fixed.
Qed.

Lemma normalize_host_fixed (s : str) : to_ascii_lowercase (normalize_host s) = normalize_host s.
Proof. unfold normalize_host. repeat case_match; apply normalize_dns_fixed. Qed.

Section Denial.
Context `{UrlHostParser} `{HttpLib} `{GlobLaws} (P : ProxyHost).

(** A list with a spelling of a domain name matches the name. *)
Lemma domain_entry_matches (w : GlobalWildcard) (l set : list str) (e h : str) :
  compile_globset_with_policy l w = Ok set -> e ∈ l -> normalize_host e = h -> domain_name h = true ->
  is_match set h = true.
Proof.
  intros Hc He <- Hd. apply (compile_matches _ _ _ _ Hc). exists e, (normalize_host e).
  rewrite (pattern_of_domain_entry e Hd). unfold expand_domain_pattern.
  rewrite (parse_pattern_of [] (normalize_host e) Hd ltac:(by left) : DomainPattern_parse (normalize_host e) = _).
  split_and!; [done|left|]. apply glob_literal; [by apply domain_literal|done].
Qed.

(** After [add_denied_domain] of a host name has returned, with no other task in between, the
    host is blocked as denied, also when it was allowed before. *)
Theorem denial_takes_effect (g g' : ConfigState) (host h : str) (port : N) (o : list BlockedRequest) :
  state_ok P g -> Host_parse host = Ok h -> domain_name h = true ->
  Tasks.run_alone P 3 g (Tasks.start_update host ListDeny) = (g', Tasks.Finished (Ok o)) ->
  host_blocked P g' host port = Blocked Denied.
Proof.
  intros Hg Hh Hd Hrun. apply (host_blocked_denied P g' host h port Hh).
  unfold globset_matches_host_or_unscoped. apply orb_true_iff. left.
  unfold Tasks.start_update in Hrun. rewrite Hh, Tasks.update_alone in Hrun.
  assert (normalize_host h = h) as Hidem.
  { apply host_parse_ok in Hh as [-> _]. rewrite normalize_host_domain by done. apply normalize_host_fixed. }
  destruct (plan_update P h ListDeny (cs_config g) (cs_constraints g)) as [| |c st] eqn:Hp; simplify_eq.
  - unfold plan_update in Hp. destruct (_ && _) eqn:Hc; [|by repeat case_in Hp].
    apply andb_true_iff in Hc as [Hc _]. apply existsb_exists in Hc as (e & He%list_elem_of_In & Hn). bool_to_prop.
    destruct Hg as (_ & Hds & _). by eapply (domain_entry_matches WildcardReject).
  - apply Tasks.plan_update_ok in Hp as ((_ & Hds & _) & _ & Hcfg & ->). cbn [cs_deny_set with_blocked].
    eapply (domain_entry_matches WildcardReject); [exact Hds| |exact Hidem|done].
    unfold config_denied_domains. rewrite Hcfg. apply upsert_domain_lists. by left.
Qed.
End Denial.

(** ** Schedules *)

Section Schedules.
Context `{UrlHostParser} `{HttpLib} `{GlobEngine} (P : ProxyHost).

Inductive Action : Type :=
| Run (i : nat) (answer : Tasks.Answer)
| Operation (op : Tasks.Op)
| Update (host : str) (kind : DomainListKind)
| Force.

Definition good_action (a : Action) : Prop :=
  match a with
  | Run _ answer => Tasks.good_answer P answer
  | Operation op => Tasks.good_op P op
  | Update _ _ | Force => True
  end.

Definition do_action (a : Action) (s : Tasks.Sys) : option Tasks.Sys :=
  let '(g, ts) := s in
  match a with
  | Run i answer =>
      t ← ts !! i;
      '(g', t') ← Tasks.step_task P answer g t;
      Some (g', <[i := t']> ts)
  | Operation op => Some (g, ts ++ [Tasks.Reloading op])
  | Update host kind => Some (g, ts ++ [Tasks.start_update host kind])
  | Force => Some (g, ts ++ [Tasks.ForceAsk])
  end.

Fixpoint exec (acts : list Action) (s : Tasks.Sys) : option Tasks.Sys :=
  match acts with
  | [] => Some s
  | a :: acts => s' ← do_action a s; exec acts s'
  end.

Lemma do_action_step (a : Action) (s s' : Tasks.Sys) :
  good_action a -> do_action a s = Some s' -> Tasks.sys_step P s s'.
Proof.
  destruct s as [g ts]. destruct a as [i answer|op|host kind|]; cbn; intros Ha Hd.
  - apply bind_Some in Hd as (t & Ht & Hd). apply bind_Some in Hd as ([g' t'] & Hs & Hd). simplify_eq.
    by eapply Tasks.sys_run.
  - simplify_eq. by apply Tasks.sys_operation.
  - simplify_eq. apply Tasks.sys_update.
  - simplify_eq. apply Tasks.sys_force.
Qed.

Lemma exec_reachable (acts : list Action) (st : ConfigState) (s' : Tasks.Sys) :
  Forall good_action acts -> exec acts (st, []) = Some s' -> Tasks.reachable P st s'.
Proof.
  unfold Tasks.reachable. generalize (st, [] : list Tasks.Task). intros s Hg. revert s.
  induction Hg as [|a acts Ha _ IH]; cbn; intros s He; [by simplify_eq|].
  apply bind_Some in He as (s1 & H1' & He). eapply rtc_l; [by eapply do_action_step|by apply IH].
Qed.
End Schedules.

(** ** A concrete proxy *)

#[local] Existing Instances names_only simple_http wild_globs.

Definition test_proxy : ProxyHost :=
  mkProxyHost bare_host token_env true (fun _ _ => LookupAddrs [mkAddr (V4 (mkV4 93 184 216 34)) 443]).

Definition managed_constraints : NetworkProxyConstraints :=
  mkConstraints (Some true) (Some Full) None None None (Some [lit "Example.com"; lit "**.trusted.org"]) (Some false)
    (Some [lit "*.Evil.com"]) (Some true) None (Some false).

Definition managed_config : NetworkProxyConfig :=
  mkConfig (with_domains NetworkProxySettings_default (Some (mkDomainPermissions
    [mkDomainEntry (lit "*.evil.com") DomainDeny; mkDomainEntry (lit "example.com") DomainAllow;
     mkDomainEntry (lit "**.trusted.org") DomainAllow]))).

Definition state_of (config : NetworkProxyConfig) (k : NetworkProxyConstraints) : ConfigState :=
  match build_config_state test_proxy config k with
  | Ok st => st
  | Err _ => mkConfigState config [] [] None ∅ k [] 0
  end.
Definition managed_state : ConfigState := state_of managed_config managed_constraints.

Lemma managed_state_built : Tasks.built test_proxy managed_state.
Proof. exists managed_config, managed_constraints. split; vm_compute; reflexivity. Qed.

(** A user denies a host, and tries to allow one below a managed denial. *)
Definition managed_schedule : list Action :=
  [Update (lit "Tracker.net") ListDeny; Update (lit "api.evil.com") ListAllow;
   Run 0 Tasks.NoReload; Run 1 Tasks.NoReload; Run 0 Tasks.NoReload; Run 1 Tasks.NoReload; Run 0 Tasks.NoReload].

Definition managed_result : Tasks.Sys := default (managed_state, []) (exec test_proxy managed_schedule (managed_state, [])).

Lemma managed_result_reachable : Tasks.reachable test_proxy managed_state managed_result.
Proof.
  apply (exec_reachable test_proxy managed_schedule).
  - repeat constructor.
  - vm_compute. reflexivity.
Qed.

Example managed_result_lists :
  denied_domains (network (cs_config managed_result.1)) = Some [lit "*.evil.com"; lit "tracker.net"] /\
  allowed_domains (network (cs_config managed_result.1)) = Some [lit "example.com"; lit "**.trusted.org"].
Proof. vm_compute. done. Qed.

Lemma reachable_state_valid_witness :
  (length (cs_blocked managed_result.1) <= MAX_BLOCKED_EVENTS)%nat.
Proof.
  apply (Tasks.reachable_state_valid test_proxy managed_state managed_result.1 managed_result.2).
  - apply managed_state_built.
  - rewrite <- surjective_pairing. apply managed_result_reachable.
Defined.

Lemma managed_denials_enforced_witness :
  host_blocked test_proxy managed_result.1 (lit "API.evil.com:443") 443 = Blocked Denied.
Proof.
  apply (Tasks.managed_denials_enforced test_proxy managed_state managed_result.1 managed_result.2
           [lit "*.Evil.com"] (lit "*.Evil.com") (lit "?*.evil.com") (lit "API.evil.com:443") (lit "api.evil.com")).
  - apply managed_state_built.
  - rewrite <- surjective_pairing. apply managed_result_reachable.
  - vm_compute. reflexivity.
  - left.
  - vm_compute. reflexivity.
  - vm_compute. left.
  - vm_compute. reflexivity.
Defined.

Lemma managed_allowlist_enforced_witness :
  exists h p glob, Host_parse (lit "api.trusted.org") = Ok h /\ p ∈ [lit "Example.com"; lit "**.trusted.org"] /\
    glob ∈ expand_domain_pattern (normalize_pattern p) /\
    (glob_is_match glob h = true \/ exists ip, unscoped_ip_literal h = Some ip /\ glob_is_match glob ip = true).
Proof.
  apply (Tasks.managed_allowlist_enforced test_proxy managed_state managed_result.1 managed_result.2
           [lit "Example.com"; lit "**.trusted.org"] (lit "api.trusted.org") 443).
  - apply managed_state_built.
  - rewrite <- surjective_pairing. apply managed_result_reachable.
  - vm_compute. reflexivity.
  - vm_compute. reflexivity.
  - vm_compute. reflexivity.
Defined.

Lemma denial_takes_effect_witness :
  exists g', Tasks.run_alone test_proxy 3 managed_state (Tasks.start_update (lit "Tracker.net") ListDeny)
             = (g', Tasks.Finished (Ok [])) /\
             host_blocked test_proxy g' (lit "Tracker.net") 80 = Blocked Denied.
Proof.
  destruct (Tasks.run_alone test_proxy 3 managed_state (Tasks.start_update (lit "Tracker.net") ListDeny))
    as [g' t] eqn:Hr.
  assert (t = Tasks.Finished (Ok [])) as ->.
  { apply (f_equal snd) in Hr. vm_compute in Hr. by rewrite <- Hr. }
  exists g'. split; [done|].
  apply (@denial_takes_effect names_only simple_http wild_globs wild_globs_laws test_proxy managed_state g'
           (lit "Tracker.net") (lit "tracker.net") 80 []).
  - apply Tasks.built_state_ok, managed_state_built.
  - vm_compute. reflexivity.
  - vm_compute. reflexivity.
  - exact Hr.
Defined.

(** ** Where records are lost *)

Definition some_blocked : BlockedRequest :=
  mkBlocked (lit "evil.com") (lit "denied") None None None (lit "http") None None (Some 80%N) 0%Z.

(** An update of the lists writes back the records it read at its start: a request
    blocked in the meantime is forgotten, though nothing drained it. *)
Example update_loses_record :
  exists s, exec test_proxy
      [Update (lit "tracker.net") ListDeny; Operation (Tasks.OpRecord some_blocked);
       Run 0 Tasks.NoReload; Run 0 Tasks.NoReload; Run 1 Tasks.NoReload; Run 1 Tasks.NoReload; Run 0 Tasks.NoReload]
      (managed_state, []) = Some s /\
    s.2 = [Tasks.Finished (Ok []); Tasks.Finished (Ok [])] /\ cs_blocked s.1 = [] /\ cs_blocked_total s.1 = 0%N.
Proof. eexists. split; [vm_compute; reflexivity|]. vm_compute. done. Qed.

(** A forced reload keeps the records but starts counting again from zero. *)
Example force_reload_resets_total :
  exists s, exec test_proxy
      [Operation (Tasks.OpRecord some_blocked); Run 0 Tasks.NoReload; Run 0 Tasks.NoReload;
       Force; Run 1 (Tasks.NewState managed_state); Run 1 Tasks.NoReload] (managed_state, []) = Some s /\
    cs_blocked s.1 = [some_blocked] /\ cs_blocked_total s.1 = 0%N.
Proof. eexists. split; [vm_compute; reflexivity|]. vm_compute. done. Qed.
