(* ===== verification/ProxyHandlers.v ===== *)
(** * The request handlers of the network proxy

    What the proxy does with a request: network-proxy/src/network_policy.rs
    ([evaluate_host_policy], with an optional decider that may admit what the lists do
    not), http_proxy.rs (CONNECT and plain requests), socks5.rs (TCP and UDP), mitm.rs
    (requests inside an intercepted tunnel) and connect_policy.rs (the last check before
    a connection is opened).

    A handler asks the shared state several times, and each time the reloader may bring
    another one: a [World] is the state with the answers to come, and a change by another
    task between two questions shows as such an answer.  What a handler sends to the
    client is reduced to the reason of a refusal; audit events and logs are left out.

    [forwarded_requests_admitted]: whatever the handler, a request is forwarded exactly
    when the states read for its questions admit it, one by one: the proxy is enabled, the
    lists admit the host or the decider does and the host is only not listed, and the mode
    that was read is respected. *)

From stdpp Require Import base numbers list gmap strings.
From Stdlib Require Import Lia NArith ZArith.
From S2P Require Import Prelude AbsolutePath Host IpAddr NetworkPolicy NetworkConfig MitmHook NetworkState.

(** ** Decisions *)

Inductive NetworkProtocol : Type := Http | HttpsConnect | Socks5Tcp | Socks5Udp.
Definition as_policy_protocol (p : NetworkProtocol) : str :=
  match p with
  | Http => lit "http"
  | HttpsConnect => lit "https_connect"
  | Socks5Tcp => lit "socks5_tcp"
  | Socks5Udp => lit "socks5_udp"
  end.

Inductive NetworkPolicyDecision : Type := PolicyDeny | PolicyAsk.
Definition decision_str (d : NetworkPolicyDecision) : str :=
  match d with PolicyDeny => lit "deny" | PolicyAsk => lit "ask" end.

Inductive NetworkDecisionSource : Type := BaselinePolicy | ModeGuard | ProxyState | Decider.
Definition source_str (s : NetworkDecisionSource) : str :=
  match s with
  | BaselinePolicy => lit "baseline_policy"
  | ModeGuard => lit "mode_guard"
  | ProxyState => lit "proxy_state"
  | Decider => lit "decider"
  end.

Definition REASON_DENIED : str := lit "denied".
Definition REASON_METHOD_NOT_ALLOWED : str := lit "method_not_allowed".
Definition REASON_MITM_HOOK_DENIED : str := lit "mitm_hook_denied".
Definition REASON_MITM_REQUIRED : str := lit "mitm_required".
Definition REASON_NOT_ALLOWED : str := lit "not_allowed".
Definition REASON_NOT_ALLOWED_LOCAL : str := lit "not_allowed_local".
Definition REASON_POLICY_DENIED : str := lit "policy_denied".
Definition REASON_PROXY_DISABLED : str := lit "proxy_disabled".

Definition block_reason_str (r : HostBlockReason) : str :=
  match r with
  | Denied => REASON_DENIED
  | NotAllowed => REASON_NOT_ALLOWED
  | NotAllowedLocal => REASON_NOT_ALLOWED_LOCAL
  end.

Record NetworkPolicyRequest : Type := mkPolicyRequest {
  npr_protocol : NetworkProtocol;
  npr_host : str;
  npr_port : N;
  npr_client_addr : option str;
  npr_method : option str;
  npr_command : option str;
  npr_exec_policy_hint : option str
}.

Inductive NetworkDecision : Type :=
| DecisionAllow
| DecisionDeny (reason : str) (source : NetworkDecisionSource) (decision : NetworkPolicyDecision).

Definition reason_or_default (reason : str) : str := if reason =s? [] then REASON_POLICY_DENIED else reason.
Definition deny_with_source (reason : str) (source : NetworkDecisionSource) : NetworkDecision :=
  DecisionDeny (reason_or_default reason) source PolicyDeny.
Definition ask_with_source (reason : str) (source : NetworkDecisionSource) : NetworkDecision :=
  DecisionDeny (reason_or_default reason) source PolicyAsk.

Definition map_decider_decision (d : NetworkDecision) : NetworkDecision :=
  match d with
  | DecisionAllow => DecisionAllow
  | DecisionDeny reason _ decision => DecisionDeny reason Decider decision
  end.

(** ** Worlds *)

Record World : Type := mkWorld { w_state : ConfigState; w_answers : list Tasks.Answer }.

(** A handler's computation: a value, or an error of the state, and the world after it. *)
Definition PM (A : Type) : Type := World -> World * result ProxyError A.

#[export] Instance PM_ret : MRet PM := fun A a w => (w, Ok a).
#[export] Instance PM_bind : MBind PM := fun A B f m w =>
  match m w with
  | (w', Ok a) => f a w'
  | (w', Err e) => (w', Err e)
  end.

(** [reload_if_needed]: the records go over to the new state. *)
Definition reload_if_needed : PM unit := fun w =>
  match w_answers w with
  | [] => (w, Ok tt)
  | Tasks.NoReload :: rest => (mkWorld (w_state w) rest, Ok tt)
  | Tasks.NewState st :: rest =>
      (mkWorld (with_blocked st (cs_blocked (w_state w)) (cs_blocked_total (w_state w))) rest, Ok tt)
  | Tasks.ReloadFails :: rest => (mkWorld (w_state w) rest, Err ReloadError)
  end.

(** A question to the state: reload, then read. *)
Definition ask {A} (f : ConfigState -> A) : PM A := fun w =>
  match reload_if_needed w with
  | (w', Ok _) => (w', Ok (f (w_state w')))
  | (w', Err e) => (w', Err e)
  end.

(** [let _ = state.record_blocked(..)]: the error is dropped. *)
Definition record (entry : BlockedRequest) : PM unit := fun w =>
  match reload_if_needed w with
  | (w', Ok _) => (mkWorld (record_blocked (w_state w') entry) (w_answers w'), Ok tt)
  | (w', Err _) => (w', Ok tt)
  end.

(** [match m { Ok(a) => k a, Err(_) => fallback }]. *)
Definition or_refuse {A B} (m : PM A) (fallback : B) (k : A -> PM B) : PM B := fun w =>
  match m w with
  | (w', Ok a) => k a w'
  | (w', Err _) => (w', Ok fallback)
  end.

Section Handlers.
Context `{HttpLib} `{GlobEngine} (P : ProxyHost) (now : Z).
Context (decider : option (NetworkPolicyRequest -> NetworkDecision)).

Definition evaluate_host_policy (decider : option (NetworkPolicyRequest -> NetworkDecision))
    (request : NetworkPolicyRequest) : PM NetworkDecision :=
  host_decision ← ask (fun st => host_blocked P st (npr_host request) (npr_port request));
  mret (match host_decision with
        | Allowed => DecisionAllow
        | Blocked NotAllowed =>
            match decider with
            | Some decide => map_decider_decision (decide request)
            | None => deny_with_source (block_reason_str NotAllowed) BaselinePolicy
            end
        | Blocked reason => deny_with_source (block_reason_str reason) BaselinePolicy
        end).

(** Why a handler refuses, and what it does otherwise. *)
Inductive Outcome : Type :=
| Internal                       (** an error of the proxy *)
| BadRequest (message : str)
| Disabled                       (** the proxy is switched off *)
| Refused (reason : str)
| Unsupported
| Tunnel (mitm : bool) (mode : NetworkMode) (mitm_state : option MitmUpstreamConfig)
| Forward (upstream_proxy : bool)
| ForwardSocket (socket_path : str)
| Dial
| Relay.

(** [BlockedRequest::new] with the fields a handler fills in. *)
Definition blocked_entry (host reason : str) (client method : option str) (mode : option NetworkMode)
    (protocol : str) (decision source : option str) (port : N) : BlockedRequest :=
  mkBlocked host reason client method mode protocol decision source (Some port) now.

(** *** CONNECT *)

Record ConnectRequest : Type := mkConnect { cr_authority : option (str * N); cr_client : option str }.

Definition proxy_disabled_response (host : str) (port : N) (client method : option str)
    (protocol : NetworkProtocol) : PM Outcome :=
  _ ← record (blocked_entry host REASON_PROXY_DISABLED client method None (as_policy_protocol protocol)
                (Some (lit "deny")) (Some (lit "proxy_state")) port);
  mret Disabled.

(** A denial of the policy is recorded and refused. *)
Definition refuse (host reason : str) (client method : option str) (mode : option NetworkMode) (protocol : str)
    (decision : NetworkPolicyDecision) (source : NetworkDecisionSource) (port : N) : PM Outcome :=
  _ ← record (blocked_entry host reason client method mode protocol (Some (decision_str decision))
                (Some (source_str source)) port);
  mret (Refused reason).

Definition http_connect_accept (req : ConnectRequest) : PM Outcome :=
  match cr_authority req with
  | None => mret (BadRequest (lit "missing authority"))
  | Some (authority_host, port) =>
      let host := normalize_host authority_host in
      if host =s? [] then mret (BadRequest (lit "invalid host"))
      else
        let client := cr_client req in
        let method := Some (lit "CONNECT") in
        or_refuse (ask (fun st => ns_enabled (network (cs_config st)))) Internal (fun enabled =>
        if negb enabled then proxy_disabled_response host port client method HttpsConnect
        else
          let request := mkPolicyRequest HttpsConnect host port client method None None in
          or_refuse (evaluate_host_policy decider request) Internal (fun decision =>
          match decision with
          | DecisionDeny reason source decision =>
              refuse host reason client method None (lit "http-connect") decision source port
          | DecisionAllow =>
              or_refuse (ask (fun st => ns_mode (network (cs_config st)))) Internal (fun mode =>
              or_refuse (ask cs_mitm) Internal (fun mitm_state =>
              or_refuse (ask (fun st => host_has_mitm_hooks st host)) Internal (fun host_has_mitm_hooks =>
              let connect_needs_mitm := bool_decide (mode = Limited) || host_has_mitm_hooks in
              match connect_needs_mitm, mitm_state with
              | true, None =>
                  refuse host REASON_MITM_REQUIRED client method (Some mode) (lit "http-connect") PolicyDeny ModeGuard
                    port
              | _, _ => mret (Tunnel connect_needs_mitm mode (if connect_needs_mitm then mitm_state else None))
              end)))
          end))
  end.

(** *** Plain requests *)

(** [RequestContext]: the target of a request. *)
Record RequestContext : Type := mkRequestContext {
  rc_host : str;
  rc_authority_port : option N;
  rc_port : N;
  rc_default_port : bool
}.

Record PlainRequest : Type := mkPlain {
  pr_method : str;
  pr_unix_socket : option (option str);       (** the header [x-unix-socket], and its text *)
  pr_context : option RequestContext;
  pr_has_scheme : bool;                       (** the target is in absolute form *)
  pr_host_header : result unit (option (str * option N));
  pr_client : option str
}.

Definition HOST_MISMATCH : str := lit "Host header does not match request target".

Definition validate_absolute_form_host_header (req : PlainRequest) (ctx : RequestContext) : result str unit :=
  if negb (pr_has_scheme req) then Ok tt
  else match pr_host_header req with
       | Err _ => Err (lit "invalid Host header")
       | Ok None => Ok tt
       | Ok (Some (host, port)) =>
           if negb (host =s? rc_host ctx) then Err HOST_MISMATCH
           else match port with
                | Some p => if bool_decide (Some p = rc_authority_port ctx) then Ok tt else Err HOST_MISMATCH
                | None => if rc_default_port ctx then Ok tt else Err HOST_MISMATCH
                end
       end.

Context (sockets_supported : bool).

Definition unix_socket_request (req : PlainRequest) (method_ok : bool) (socket_path : str) : PM Outcome :=
  or_refuse (ask (fun st => ns_enabled (network (cs_config st)))) Internal (fun enabled =>
  if negb enabled then proxy_disabled_response socket_path 0 (pr_client req) (Some (pr_method req)) Http
  else if negb method_ok then mret (Refused REASON_METHOD_NOT_ALLOWED)
  else if negb sockets_supported then mret Unsupported
  else
    or_refuse (ask (fun st => is_unix_socket_allowed P sockets_supported st socket_path)) Internal (fun ok =>
    mret (if ok then ForwardSocket socket_path else Refused REASON_NOT_ALLOWED))).

Definition http_plain_proxy (req : PlainRequest) : PM Outcome :=
  or_refuse (ask (fun st => method_allowed st (pr_method req))) Internal (fun method_ok =>
  match pr_unix_socket req with
  | Some None => mret (BadRequest (lit "invalid x-unix-socket header"))
  | Some (Some socket_path) => unix_socket_request req method_ok socket_path
  | None =>
      match pr_context req with
      | None => mret (BadRequest (lit "missing host"))
      | Some ctx =>
          let host := normalize_host (rc_host ctx) in
          let port := rc_port ctx in
          let client := pr_client req in
          let method := Some (pr_method req) in
          match validate_absolute_form_host_header req ctx with
          | Err reason => mret (BadRequest reason)
          | Ok _ =>
              or_refuse (ask (fun st => ns_enabled (network (cs_config st)))) Internal (fun enabled =>
              if negb enabled then proxy_disabled_response host port client method Http
              else
                let request := mkPolicyRequest Http host port client method None None in
                or_refuse (evaluate_host_policy decider request) Internal (fun decision =>
                match decision with
                | DecisionDeny reason source decision =>
                    refuse host reason client method None (lit "http") decision source port
                | DecisionAllow =>
                    if negb method_ok then
                      refuse host REASON_METHOD_NOT_ALLOWED client method (Some Limited) (lit "http") PolicyDeny
                        ModeGuard port
                    else
                      or_refuse (ask (fun st => ns_allow_upstream_proxy (network (cs_config st)))) Internal
                        (fun allow_upstream_proxy => mret (Forward allow_upstream_proxy))
                end))
          end
      end
  end).

(** *** SOCKS5 *)

Record SocksRequest : Type := mkSocks { sr_host : str; sr_port : N; sr_client : option str }.

(** The part the two handlers share; only TCP looks for hooks. *)
Definition handle_socks (protocol : NetworkProtocol) (name : str) (check_hooks : bool) (success : Outcome)
    (req : SocksRequest) : PM Outcome :=
  let host := normalize_host (sr_host req) in
  let port := sr_port req in
  let client := sr_client req in
  if host =s? [] then mret (BadRequest (lit "invalid host"))
  else
    or_refuse (ask (fun st => ns_enabled (network (cs_config st)))) Internal (fun enabled =>
    if negb enabled then
      _ ← record (blocked_entry host REASON_PROXY_DISABLED client None None name (Some (decision_str PolicyDeny))
                    (Some (source_str ProxyState)) port);
      mret Disabled
    else
      or_refuse (ask (fun st => ns_mode (network (cs_config st)))) Internal (fun mode =>
      match mode with
      | Limited => refuse host REASON_METHOD_NOT_ALLOWED client None (Some Limited) name PolicyDeny ModeGuard port
      | Full =>
          let evaluate :=
            let request := mkPolicyRequest protocol host port client None None None in
            or_refuse (evaluate_host_policy decider request) Internal (fun decision =>
            match decision with
            | DecisionDeny reason source decision => refuse host reason client None None name decision source port
            | DecisionAllow => mret success
            end) in
          if check_hooks then
            or_refuse (ask (fun st => host_has_mitm_hooks st host)) Internal (fun hooked =>
            if (hooked : bool) then refuse host REASON_MITM_REQUIRED client None (Some Full) name PolicyDeny ModeGuard port
            else evaluate)
          else evaluate
      end)).

Definition handle_socks5_tcp : SocksRequest -> PM Outcome := handle_socks Socks5Tcp (lit "socks5") true Dial.
Definition inspect_socks5_udp : SocksRequest -> PM Outcome := handle_socks Socks5Udp (lit "socks5-udp") false Relay.

(** *** Inside an intercepted tunnel *)

Record MitmPolicyContext : Type := mkMitmPolicy { mp_target_host : str; mp_target_port : N; mp_mode : NetworkMode }.

Inductive MitmPolicyDecisionKind : Type :=
| MitmAllow (hook_actions : option MitmHookActions)
| MitmBlock (reason : str).

Definition mitm_entry (policy : MitmPolicyContext) (method : str) (client : option str) (reason : str) :
    BlockedRequest :=
  blocked_entry (mp_target_host policy) reason client (Some method) (Some (mp_mode policy)) (lit "https") None None
    (mp_target_port policy).

(** A block inside the tunnel is recorded. *)
Definition mitm_block (policy : MitmPolicyContext) (method : str) (client : option str) (reason : str) :
    PM MitmPolicyDecisionKind :=
  _ ← record (mitm_entry policy method client reason);
  mret (MitmBlock reason).

(** The last two checks: the hooks of the host, then the method. *)
Definition mitm_check_method (policy : MitmPolicyContext) (method : str) (client : option str)
    (hook_actions : option MitmHookActions) : PM MitmPolicyDecisionKind :=
  if negb (allows_method (mp_mode policy) method) then mitm_block policy method client REASON_METHOD_NOT_ALLOWED
  else mret (MitmAllow hook_actions).

Definition mitm_check_hooks (req : Request) (policy : MitmPolicyContext) (client : option str) :
    PM MitmPolicyDecisionKind :=
  hooks ← ask (fun st => evaluate_mitm_hooks (cs_mitm_hooks st) (mp_target_host policy) req);
  match hooks with
  | Matched actions => mitm_check_method policy (req_method req) client (Some actions)
  | HookedHostNoMatch => mitm_block policy (req_method req) client REASON_MITM_HOOK_DENIED
  | NoHooksForHost => mitm_check_method policy (req_method req) client None
  end.

(** [request_host] is what [extract_request_host] returns: the Host header, else the authority. *)
Definition evaluate_mitm_policy (req : Request) (request_host : option str) (client : option str)
    (policy : MitmPolicyContext) : PM MitmPolicyDecisionKind :=
  let method := req_method req in
  if method =s? lit "CONNECT" then mret (MitmBlock (lit "CONNECT not supported inside MITM"))
  else if match request_host with
          | Some h => let normalized := normalize_host h in
                      negb (normalized =s? []) && negb (normalized =s? mp_target_host policy)
          | None => false
          end
  then mret (MitmBlock (lit "host mismatch"))
  else
    host_decision ← ask (fun st => host_blocked P st (mp_target_host policy) (mp_target_port policy));
    match host_decision with
    | Blocked NotAllowedLocal => mitm_block policy method client REASON_NOT_ALLOWED_LOCAL
    | _ => mitm_check_hooks req policy client
    end.

(** *** Opening a connection *)

(** [TargetPolicy]: the state, or the setting fixed when a tunnel was set up. *)
Inductive TargetPolicy : Type := TargetConfig (allow_local_binding : bool) | TargetState.

Definition target_allow_local_binding (policy : TargetPolicy) : PM bool :=
  match policy with
  | TargetConfig b => mret b
  | TargetState => ask (fun st => ns_allow_local_binding (network (cs_config st)))
  end.

(** [TargetCheckedStreamConnector::connect]: [Ok None] when the target is rejected. *)
Definition connect (policy : TargetPolicy) (addr : SocketAddr) : PM (option SocketAddr) :=
  allow_local_binding ← target_allow_local_binding policy;
  mret (if negb allow_local_binding && is_non_public_ip (addr_ip addr) then None else Some addr).
End Handlers.

(** ** Headers *)

(** A [HeaderMap] as its entries; [remove] takes out all values of a name. *)
Abbreviation HeaderMap := (list (str * option str)) (only parsing).
Definition header_get (name : str) (headers : HeaderMap) : option (option str) :=
  snd <$> List.find (fun h => h.1 =s? name) headers.
Definition header_remove (name : str) (headers : HeaderMap) : HeaderMap :=
  List.filter (fun h => negb (h.1 =s? name)) headers.
Definition header_insert (name value : str) (headers : HeaderMap) : HeaderMap :=
  header_remove name headers ++ [(name, Some value)].

Definition apply_mitm_hook_actions (headers : HeaderMap) (actions : option MitmHookActions) : HeaderMap :=
  match actions with
  | None => headers
  | Some actions =>
      let stripped := fold_left (fun hs name => header_remove name hs) (ha_strip_request_headers actions) headers in
      fold_left (fun hs h => header_insert (rih_name h) (rih_value h) hs) (ha_inject_request_headers actions) stripped
  end.

Definition CONNECTION : str := lit "connection".

Section HopByHop.
Context `{HttpLib}.

(** The loop over Connection headers; each turn removes at least one. *)
Fixpoint strip_connection (fuel : nat) (headers : HeaderMap) : HeaderMap :=
  match fuel with
  | O => headers
  | S fuel =>
      match header_get CONNECTION headers with
      | None => headers
      | Some raw =>
          let headers := header_remove CONNECTION headers in
          let headers :=
            match raw with
            | Some text =>
                let tokens := List.filter (fun t => negb (t =s? [])) (trim <$> split_on 44%N text) in
                fold_left (fun hs token => match header_name_parse token with
                                           | Some name => header_remove name hs
                                           | None => hs
                                           end) tokens headers
            | None => headers
            end in
          strip_connection fuel headers
      end
  end.

Definition hop_by_hop_names : list str :=
  map lit ["keep-alive"; "proxy-connection"; "proxy-authorization"; "trailer"; "transfer-encoding"; "upgrade"; "te"].

Definition remove_hop_by_hop_request_headers (headers : HeaderMap) : HeaderMap :=
  fold_left (fun hs name => header_remove name hs) hop_by_hop_names
    (strip_connection (S (length headers)) headers).
End HopByHop.

(** ** Which states a handler reads *)

(** The world after the reload of a question. *)
Definition advance (w : World) : World := (reload_if_needed w).1.
Definition reload_ok (w : World) : Prop := head (w_answers w) <> Some Tasks.ReloadFails.

(** The state question [n] of a handler reads (from 0 on), as long as every question
    before it was answered and nothing was recorded; handlers record only what they refuse. *)
Fixpoint read_at (n : nat) (w : World) : ConfigState :=
  match n with
  | O => w_state (advance w)
  | S n => read_at n (advance w)
  end.

(** The reloads of the first [n] questions succeed. *)
Fixpoint reloads_ok (n : nat) (w : World) : Prop :=
  match n with
  | O => True
  | S n => reload_ok w /\ reloads_ok n (advance w)
  end.

Lemma reload_cases (w : World) :
  (reload_ok w /\ reload_if_needed w = (advance w, Ok tt)) \/
  (~ reload_ok w /\ reload_if_needed w = (advance w, Err ReloadError)).
Proof.
  unfold advance, reload_ok, reload_if_needed. destruct (w_answers w) as [|[|st|] rest]; cbn;
    [left|left|left|right]; split; congruence.
Qed.

(** A question is answered by the state of the world after its reload. *)
Lemma ask_iff {A} (f : ConfigState -> A) (w w' : World) (a : A) :
  ask f w = (w', Ok a) <-> reload_ok w /\ w' = advance w /\ a = f (read_at 0 w).
Proof.
  unfold ask. destruct (reload_cases w) as [[Hr ->]|[Hr ->]]; cbn [read_at]; split.
  - intros ?. by simplify_eq.
  - by intros (_ & -> & ->).
  - done.
  - tauto.
Qed.

(** The states a handler can read at all: the current one and those of the answers to
    come, with the records of some time. *)
Definition seen (w : World) (st : ConfigState) : Prop :=
  exists st' b n, st = with_blocked st' b n /\ (st' = w_state w \/ Tasks.NewState st' ∈ w_answers w).

Lemma with_blocked_id (st : ConfigState) : st = with_blocked st (cs_blocked st) (cs_blocked_total st).
Proof. by destruct st. Qed.

Lemma advance_seen (w : World) (st : ConfigState) : seen (advance w) st -> seen w st.
Proof.
  unfold advance, reload_if_needed. destruct (w_answers w) as [|[|st'|] rest] eqn:Ha; cbn [fst]; [done|..];
    intros (s & b & n & -> & [Hs|Hin]); cbn [w_state w_answers] in *.
  - exists s, b, n. split; [done|by left].
  - exists s, b, n. split; [done|]. right. rewrite Ha. by right.
  - subst s. exists st', b, n. split; [done|]. right. rewrite Ha. left.
  - exists s, b, n. split; [done|]. right. rewrite Ha. by right.
  - exists s, b, n. split; [done|by left].
  - exists s, b, n. split; [done|]. right. rewrite Ha. by right.
Qed.

Lemma read_at_seen (n : nat) (w : World) : seen w (read_at n w).
Proof.
  revert w. induction n as [|n IH]; intros w; apply advance_seen; cbn [read_at]; [|apply IH].
  exists (w_state (advance w)), (cs_blocked (w_state (advance w))), (cs_blocked_total (w_state (advance w))).
  eauto using with_blocked_id.
Qed.

(** ** What is forwarded was admitted *)

Inductive ProxyRequest : Type :=
| ReqConnect (req : ConnectRequest)
| ReqPlain (req : PlainRequest)
| ReqTcp (req : SocksRequest)
| ReqUdp (req : SocksRequest).

(** The question the policy is asked about a request to a host. *)
Definition policy_request (r : ProxyRequest) : option NetworkPolicyRequest :=
  match r with
  | ReqConnect req =>
      '(host, port) ← cr_authority req;
      Some (mkPolicyRequest HttpsConnect (normalize_host host) port (cr_client req) (Some (lit "CONNECT")) None None)
  | ReqPlain req =>
      ctx ← pr_context req;
      Some (mkPolicyRequest Http (normalize_host (rc_host ctx)) (rc_port ctx) (pr_client req) (Some (pr_method req))
              None None)
  | ReqTcp req => Some (mkPolicyRequest Socks5Tcp (normalize_host (sr_host req)) (sr_port req) (sr_client req) None None None)
  | ReqUdp req => Some (mkPolicyRequest Socks5Udp (normalize_host (sr_host req)) (sr_port req) (sr_client req) None None None)
  end.

(** The outcomes that reach the network. *)
Definition forwards (o : Outcome) : bool :=
  match o with Tunnel _ _ _ | Forward _ | Dial | Relay => true | _ => false end.

(** The computation ends with an outcome that reaches the network. *)
Definition sends (m : PM Outcome) (w : World) (o : Outcome) : Prop :=
  exists w', m w = (w', Ok o) /\ forwards o = true.

Lemma sends_ret (a o : Outcome) (w : World) : sends (mret a) w o <-> o = a /\ forwards a = true.
Proof.
  unfold sends. cbv [mret PM_ret]. split; [intros (w' & Hw & Hf); by simplify_eq|].
  intros [-> Hf]. by exists w.
Qed.

Lemma sends_record (e : BlockedRequest) (a o : Outcome) (w : World) :
  forwards a = false -> ~ sends (record e ≫= fun _ => mret a) w o.
Proof.
  intros Ha (w' & Hw & Hf). cbv [mbind PM_bind mret PM_ret record] in Hw.
  destruct (reload_cases w) as [[_ Hr]|[_ Hr]]; rewrite Hr in Hw; simplify_eq; congruence.
Qed.

Lemma sends_ask {A} (f : ConfigState -> A) (fallback : Outcome) (k : A -> PM Outcome) (w : World) (o : Outcome) :
  forwards fallback = false ->
  sends (or_refuse (ask f) fallback k) w o <-> reload_ok w /\ sends (k (f (read_at 0 w))) (advance w) o.
Proof.
  intros Hfb. unfold sends, or_refuse. destruct (ask f w) as [w1 [a|e]] eqn:Ha.
  - apply ask_iff in Ha as (Hr & -> & ->). split; [by intros ?|by intros [_ ?]].
  - split; [intros (w' & Hw & Hf); simplify_eq; congruence|]. intros [Hr _]. exfalso.
    assert (ask f w = (advance w, Ok (f (read_at 0 w)))) by by apply ask_iff. congruence.
Qed.

Section Admission.
Context `{HttpLib} `{GlobEngine} (P : ProxyHost) (now : Z).
Context (decider : option (NetworkPolicyRequest -> NetworkDecision)) (sockets_supported : bool).

Definition handle (r : ProxyRequest) : PM Outcome :=
  match r with
  | ReqConnect req => http_connect_accept P now decider req
  | ReqPlain req => http_plain_proxy P now decider sockets_supported req
  | ReqTcp req => handle_socks5_tcp P now decider req
  | ReqUdp req => inspect_socks5_udp P now decider req
  end.

(** The state allows the host; or it only does not list it, and the decider admits the request. *)
Definition admits (st : ConfigState) (req : NetworkPolicyRequest) : Prop :=
  host_blocked P st (npr_host req) (npr_port req) = Allowed \/
  (host_blocked P st (npr_host req) (npr_port req) = Blocked NotAllowed /\
   exists decide, decider = Some decide /\ decide req = DecisionAllow).

Definition enabled_in (st : ConfigState) : Prop := ns_enabled (network (cs_config st)) = true.
Definition mode_in (st : ConfigState) : NetworkMode := ns_mode (network (cs_config st)).

(** When each kind of request is forwarded, and how, by the states its questions read. *)
Definition forwarding (w : World) (r : ProxyRequest) (req : NetworkPolicyRequest) (o : Outcome) : Prop :=
  match r with
  | ReqConnect _ =>
      (* enabled?, admitted?, mode, certificate authority, hooks of the host *)
      let intercepted := mode_in (read_at 2 w) = Limited \/ host_has_mitm_hooks (read_at 4 w) (npr_host req) = true in
      npr_host req <> [] /\ reloads_ok 5 w /\ enabled_in (read_at 0 w) /\ admits (read_at 1 w) req /\
      ((intercepted /\ exists m, cs_mitm (read_at 3 w) = Some m /\ o = Tunnel true (mode_in (read_at 2 w)) (Some m)) \/
       (~ intercepted /\ o = Tunnel false Full None))
  | ReqPlain p =>
      (* method allowed?, enabled?, admitted?, upstream proxy *)
      pr_unix_socket p = None /\
      (exists ctx, pr_context p = Some ctx /\ validate_absolute_form_host_header p ctx = Ok tt) /\
      reloads_ok 4 w /\ method_allowed (read_at 0 w) (pr_method p) = true /\ enabled_in (read_at 1 w) /\
      admits (read_at 2 w) req /\ o = Forward (ns_allow_upstream_proxy (network (cs_config (read_at 3 w))))
  | ReqTcp _ =>
      (* enabled?, mode, hooks of the host, admitted? *)
      npr_host req <> [] /\ reloads_ok 4 w /\ enabled_in (read_at 0 w) /\ mode_in (read_at 1 w) = Full /\
      host_has_mitm_hooks (read_at 2 w) (npr_host req) = false /\ admits (read_at 3 w) req /\ o = Dial
  | ReqUdp _ =>
      (* enabled?, mode, admitted? *)
      npr_host req <> [] /\ reloads_ok 3 w /\ enabled_in (read_at 0 w) /\ mode_in (read_at 1 w) = Full /\
      admits (read_at 2 w) req /\ o = Relay
  end.

Lemma sends_refuse (h rs : str) (c m : option str) (md : option NetworkMode) (p : str) (d : NetworkPolicyDecision)
    (s : NetworkDecisionSource) (n : N) (w : World) (o : Outcome) :
  sends (refuse now h rs c m md p d s n) w o <-> False.
Proof. split; [by apply sends_record|done]. Qed.

Lemma sends_disabled (h : str) (n : N) (c m : option str) (p : NetworkProtocol) (w : World) (o : Outcome) :
  sends (proxy_disabled_response now h n c m p) w o <-> False.
Proof. split; [by apply sends_record|done]. Qed.

(** The decision of the policy, on the state its question reads. *)
Lemma sends_evaluate (req : NetworkPolicyRequest) (k : PM Outcome)
    (deny : str -> NetworkDecisionSource -> NetworkPolicyDecision -> PM Outcome) (w : World) (o : Outcome) :
  (forall rs s d w o, ~ sends (deny rs s d) w o) ->
  sends (or_refuse (evaluate_host_policy P decider req) Internal (fun decision =>
           match decision with DecisionDeny rs s d => deny rs s d | DecisionAllow => k end)) w o
  <-> reload_ok w /\ admits (read_at 0 w) req /\ sends k (advance w) o.
Proof.
  intros Hdeny. unfold sends at 1, or_refuse, evaluate_host_policy. cbv [mbind PM_bind mret PM_ret].
  set (f := fun st => host_blocked P st (npr_host req) (npr_port req)).
  destruct (ask f w) as [w1 [a|e]] eqn:Ha.
  - apply ask_iff in Ha as (Hr & -> & ->). unfold admits. fold (f (read_at 0 w)).
    destruct (f (read_at 0 w)) as [|[]] eqn:Hf0.
    + split; [intros Hs; split_and!; [done|by left|done]|by intros (_ & _ & ?)].
    + split; [intros Hs; by apply Hdeny in Hs|]. by intros (_ & [?|[? _]] & _).
    + destruct decider as [decide|].
      * destruct (decide req) as [|rs s d] eqn:Hd; cbn [map_decider_decision].
        -- split; [intros Hs; split_and!; [done|right; eauto|done]|by intros (_ & _ & ?)].
        -- split; [intros Hs; by apply Hdeny in Hs|]. intros (_ & [?|(_ & d' & Hd' & ?)] & _); simplify_eq; congruence.
      * split; [intros Hs; by apply Hdeny in Hs|]. by intros (_ & [?|(_ & d' & Hd' & ?)] & _).
    + split; [intros Hs; by apply Hdeny in Hs|]. by intros (_ & [?|[? _]] & _).
  - split; [intros (w' & Hw & Hf); simplify_eq; done|]. intros [Hr _]. exfalso.
    assert (ask f w = (advance w, Ok (f (read_at 0 w)))) by by apply ask_iff. congruence.
Qed.

Ltac no_deny := intros; rewrite sends_refuse; tauto.

Lemma connect_sends (w : World) (req : ConnectRequest) (o : Outcome) :
  sends (http_connect_accept P now decider req) w o <->
  exists q, policy_request (ReqConnect req) = Some q /\ forwarding w (ReqConnect req) q o.
Proof.
  unfold http_connect_accept. cbn [policy_request forwarding].
  destruct (cr_authority req) as [[ah port]|]; cbn [mbind option_bind];
    [|rewrite sends_ret; naive_solver].
  set (q := mkPolicyRequest _ _ _ _ _ _ _).
  transitivity (forwarding w (ReqConnect req) q o); [|naive_solver]. cbn [forwarding]. cbv zeta.
  case_bool_decide as Hh; [rewrite sends_ret; naive_solver|].
  rewrite sends_ask by done. unfold enabled_in. change (npr_host q) with (normalize_host ah).
  destruct (ns_enabled (network (cs_config (read_at 0 w)))); cbn [negb]; [|rewrite sends_disabled; naive_solver].
  fold q. rewrite sends_evaluate by no_deny. rewrite !sends_ask by done.
  change (read_at 0 (advance w)) with (read_at 1 w).
  change (read_at 0 (advance (advance w))) with (read_at 2 w).
  change (read_at 0 (advance (advance (advance w)))) with (read_at 3 w).
  change (read_at 0 (advance (advance (advance (advance w))))) with (read_at 4 w).
  cbn [reloads_ok]. fold (mode_in (read_at 2 w)).
  destruct (mode_in (read_at 2 w)), (host_has_mitm_hooks (read_at 4 w) (normalize_host ah)),
    (cs_mitm (read_at 3 w)) as [m|];
    cbn [bool_decide orb]; rewrite ?bool_decide_eq_true_2, ?bool_decide_eq_false_2 by done; cbn [orb];
    rewrite ?sends_refuse, ?sends_ret; naive_solver.
Qed.

Lemma plain_sends (w : World) (req : PlainRequest) (o : Outcome) :
  sends (http_plain_proxy P now decider sockets_supported req) w o <->
  exists q, policy_request (ReqPlain req) = Some q /\ forwarding w (ReqPlain req) q o.
Proof.
  unfold http_plain_proxy. rewrite sends_ask by done. cbn [policy_request forwarding].
  destruct (pr_unix_socket req) as [[socket|]|]; [|rewrite sends_ret; naive_solver|].
  - split; [|naive_solver]. intros [_ Hs]. exfalso. revert Hs. unfold unix_socket_request. rewrite sends_ask by done.
    intros [_ Hs]. destruct (ns_enabled _); cbn [negb] in Hs; [|by apply sends_disabled in Hs].
    destruct (method_allowed _ _); cbn [negb] in Hs; [|by apply sends_ret in Hs as [_ ?]].
    destruct sockets_supported; cbn [negb] in Hs; [|by apply sends_ret in Hs as [_ ?]].
    apply sends_ask in Hs as [_ Hs]; [|done]. by destruct (is_unix_socket_allowed _ _ _ _); apply sends_ret in Hs as [_ ?].
  - destruct (pr_context req) as [ctx|]; cbn [mbind option_bind]; [|rewrite sends_ret; naive_solver]. cbv zeta.
    set (q := mkPolicyRequest _ _ _ _ _ _ _).
    set (rest := fun q => reloads_ok 4 w /\ method_allowed (read_at 0 w) (pr_method req) = true /\ enabled_in (read_at 1 w) /\
      admits (read_at 2 w) q /\ o = Forward (ns_allow_upstream_proxy (network (cs_config (read_at 3 w))))).
    transitivity (validate_absolute_form_host_header req ctx = Ok tt /\ rest q).
    2: { clearbody q. split.
         { intros [? Hrest]. exists q. do 2 (split; [done|]). split; [by eexists|exact Hrest]. }
         intros (q' & Hq & _ & (ctx' & Hc & ?) & ?). simplify_eq. done. }
    subst rest. cbv beta. destruct (validate_absolute_form_host_header req ctx) as [[]|err] eqn:Hv;
      [|rewrite sends_ret; naive_solver].
    rewrite sends_ask by done. unfold enabled_in. change (read_at 0 (advance w)) with (read_at 1 w).
    destruct (ns_enabled (network (cs_config (read_at 1 w)))) eqn:He; cbn [negb]; [|rewrite sends_disabled; naive_solver].
    rewrite sends_evaluate by no_deny. change (read_at 0 (advance (advance w))) with (read_at 2 w).
    destruct (method_allowed (read_at 0 w) (pr_method req)); cbn [negb]; [|rewrite sends_refuse; naive_solver].
    rewrite sends_ask by done. rewrite sends_ret.
    change (read_at 0 (advance (advance (advance w)))) with (read_at 3 w). cbn [reloads_ok]. naive_solver.
Qed.

Lemma socks_sends (w : World) (protocol : NetworkProtocol) (name : str) (hooks : bool) (success o : Outcome)
    (req : SocksRequest) :
  let q := mkPolicyRequest protocol (normalize_host (sr_host req)) (sr_port req) (sr_client req) None None None in
  forwards success = true ->
  sends (handle_socks P now decider protocol name hooks success req) w o <->
  npr_host q <> [] /\ reloads_ok 2 w /\ enabled_in (read_at 0 w) /\ mode_in (read_at 1 w) = Full /\
  (if hooks then reloads_ok 4 w /\ host_has_mitm_hooks (read_at 2 w) (npr_host q) = false /\ admits (read_at 3 w) q
   else reloads_ok 3 w /\ admits (read_at 2 w) q) /\ o = success.
Proof.
  intros q Hs. unfold handle_socks. cbv zeta. fold q. change (npr_host q) with (normalize_host (sr_host req)).
  case_bool_decide as Hh; [rewrite sends_ret; naive_solver|].
  rewrite sends_ask by done. unfold enabled_in.
  destruct (ns_enabled (network (cs_config (read_at 0 w)))); cbn [negb].
  2: { split; [|naive_solver]. intros [_ Hr]. exfalso. revert Hr. by apply sends_record. }
  rewrite sends_ask by done. change (read_at 0 (advance w)) with (read_at 1 w). fold (mode_in (read_at 1 w)).
  destruct (mode_in (read_at 1 w)); [rewrite sends_refuse; naive_solver|].
  destruct hooks.
  - rewrite sends_ask by done. change (read_at 0 (advance (advance w))) with (read_at 2 w).
    destruct (host_has_mitm_hooks (read_at 2 w) _); [rewrite sends_refuse; naive_solver|].
    rewrite sends_evaluate by no_deny. rewrite sends_ret.
    change (read_at 0 (advance (advance (advance w)))) with (read_at 3 w). cbn [reloads_ok]. naive_solver.
  - rewrite sends_evaluate by no_deny. rewrite sends_ret.
    change (read_at 0 (advance (advance w))) with (read_at 2 w). cbn [reloads_ok]. naive_solver.
Qed.

Lemma handle_sends (w : World) (r : ProxyRequest) (o : Outcome) :
  sends (handle r) w o <-> exists req, policy_request r = Some req /\ forwarding w r req o.
Proof.
  destruct r as [req|req|req|req]; cbn [handle].
  - apply connect_sends.
  - apply plain_sends.
  - unfold handle_socks5_tcp. rewrite socks_sends by done. cbn [policy_request forwarding reloads_ok]. naive_solver.
  - unfold inspect_socks5_udp. rewrite socks_sends by done. cbn [policy_request forwarding reloads_ok]. naive_solver.
Qed.

(** What is forwarded, some state that was read admits. *)
Lemma handle_admits (w w' : World) (r : ProxyRequest) (o : Outcome) :
  handle r w = (w', Ok o) -> forwards o = true ->
  exists req n, policy_request r = Some req /\ admits (read_at n w) req.
Proof.
  intros Hh Hf. destruct (proj1 (handle_sends w r o)) as (req & Hreq & Hfw); [by exists w'|].
  exists req. destruct r; cbn [forwarding] in Hfw.
  - exists 1%nat. naive_solver.
  - exists 2%nat. naive_solver.
  - exists 3%nat. naive_solver.
  - exists 2%nat. naive_solver.
Qed.

End Admission.

(** ** Managed denials reach the handlers *)

Section Managed.
Context `{UrlHostParser} `{HttpLib} `{GlobEngine} (P : ProxyHost) (now : Z).
Context (decider : option (NetworkPolicyRequest -> NetworkDecision)) (sockets_supported : bool).

(** When every state a handler reads carries a managed denial of a pattern, no handler
    forwards a request to a host the pattern matches, and no decider can change that. *)
Theorem denied_host_never_forwarded (w w' : World) (r : ProxyRequest) (req : NetworkPolicyRequest) (o : Outcome)
    (p glob h : str) :
  (forall n, state_ok P (read_at n w) /\
     exists managed, nc_denied_domains (cs_constraints (read_at n w)) = Some managed /\ p ∈ managed) ->
  policy_request r = Some req -> Host_parse (npr_host req) = Ok h ->
  glob ∈ expand_domain_pattern (normalize_pattern p) -> glob_is_match glob h = true ->
  handle P now decider sockets_supported r w = (w', Ok o) -> forwards o = false.
Proof.
  intros Hst Hreq Hh Hg Hm Hhandle. destruct (forwards o) eqn:Hf; [|done].
  destruct (handle_admits P now decider sockets_supported w w' r o Hhandle Hf) as (req' & n & Hreq' & Hb). simplify_eq.
  destruct (Hst n) as (Hok & managed & Hk & Hp). unfold admits in Hb.
  rewrite (state_ok_denies P (read_at n w) managed p glob (npr_host req) h (npr_port req)) in Hb by done.
  by destruct Hb as [?|[? _]].
Qed.
End Managed.

(** ** Intercepted requests *)

Section Mitm.
Context `{HttpLib} `{GlobEngine} (P : ProxyHost) (now : Z).

(** A block inside a tunnel is not a pass. *)
Lemma mitm_block_not_allow (policy : MitmPolicyContext) (m : str) (c : option str) (rs : str) (w w' : World)
    (a : option MitmHookActions) :
  mitm_block now policy m c rs w <> (w', Ok (MitmAllow a)).
Proof.
  unfold mitm_block. cbv [mbind PM_bind mret PM_ret record].
  destruct (reload_cases w) as [[_ ->]|[_ ->]]; congruence.
Qed.

Lemma mitm_check_method_allow (policy : MitmPolicyContext) (m : str) (c : option str) (hooks : option MitmHookActions)
    (w w' : World) (a : option MitmHookActions) :
  mitm_check_method now policy m c hooks w = (w', Ok (MitmAllow a)) ->
  allows_method (mp_mode policy) m = true /\ a = hooks.
Proof.
  unfold mitm_check_method. destruct (allows_method _ _); cbn [negb]; [|by intros ?%mitm_block_not_allow].
  cbv [mret PM_ret]. by intros [= _ <-].
Qed.

(** The request names the host of its tunnel, or none. *)
Definition names_target (request_host : option str) (policy : MitmPolicyContext) : Prop :=
  forall h, request_host = Some h -> normalize_host h = [] \/ normalize_host h = mp_target_host policy.

(** A request inside an intercepted tunnel goes through only if it names the host of the tunnel or
    none, is no CONNECT, the mode of the tunnel allows its method, the state read first does not
    block the target as local, and the hooks of the state read second have no hook for the
    target or one that matches; the actions returned are those of the hook that matched. *)
Theorem intercepted_request_allowed (w w' : World) (req : Request) (rh client : option str)
    (policy : MitmPolicyContext) (actions : option MitmHookActions) :
  evaluate_mitm_policy P now req rh client policy w = (w', Ok (MitmAllow actions)) ->
  req_method req <> lit "CONNECT" /\ names_target rh policy /\
  allows_method (mp_mode policy) (req_method req) = true /\
  host_blocked P (read_at 0 w) (mp_target_host policy) (mp_target_port policy) <> Blocked NotAllowedLocal /\
  evaluate_mitm_hooks (cs_mitm_hooks (read_at 1 w)) (mp_target_host policy) req
    = match actions with Some a => Matched a | None => NoHooksForHost end.
Proof.
  unfold evaluate_mitm_policy. cbv zeta. case_bool_decide as Hc; [done|].
  destruct (match rh with Some _ => _ | None => false end) eqn:Hrh; [done|]. intros Hr.
  cbv [mbind PM_bind] in Hr. destruct (ask _ w) as [w1 [hd|e]] eqn:Ha; [|done].
  apply ask_iff in Ha as (_ & -> & ->). set (hd := host_blocked _ _ _ _) in *.
  destruct (decide (hd = Blocked NotAllowedLocal)) as [Hl|Hne].
  { rewrite Hl in Hr. by apply mitm_block_not_allow in Hr. }
  replace (match hd with Blocked NotAllowedLocal => _ | _ => _ end) with (mitm_check_hooks now req policy client)
    in Hr by (by destruct hd as [|[]]).
  unfold mitm_check_hooks in Hr. cbv [mbind PM_bind] in Hr. destruct (ask _ (advance w)) as [w2 [hooks|e]] eqn:Ha; [|done].
  apply ask_iff in Ha as (_ & -> & ->). change (read_at 0 (advance w)) with (read_at 1 w) in Hr.
  assert (names_target rh policy) as Hn.
  { intros h ->. cbv zeta in Hrh. apply andb_false_iff in Hrh as [Hrh|Hrh]; bool_to_prop; tauto. }
  destruct (evaluate_mitm_hooks _ _ _) as [|a|]; [| |by apply mitm_block_not_allow in Hr];
    apply mitm_check_method_allow in Hr as [? ->]; done.
Qed.

(** A connection is opened to a public address, or where local networks are open. *)
Lemma connect_target_public (w w' : World) (addr addr' : SocketAddr) :
  connect TargetState addr w = (w', Ok (Some addr')) ->
  addr' = addr /\
  (is_non_public_ip (addr_ip addr) = false \/ ns_allow_local_binding (network (cs_config (read_at 0 w))) = true).
Proof.
  unfold connect. cbv [mbind PM_bind mret PM_ret target_allow_local_binding]. intros Hc.
  destruct (ask _ w) as [w1 [b|e]] eqn:Ha; [|done]. apply ask_iff in Ha as (_ & -> & ->).
  destruct (ns_allow_local_binding _), (is_non_public_ip (addr_ip addr)); cbn [negb andb] in Hc; naive_solver.
Qed.
End Mitm.

(** ** Headers that do not leave the proxy *)

Section Stripping.
Context `{HttpLib}.

Lemma header_remove_elem (name : str) (headers : HeaderMap) (h : str * option str) :
  h ∈ header_remove name headers <-> h ∈ headers /\ h.1 <> name.
Proof. unfold header_remove. rewrite elem_of_filter_bool, negb_true_iff, bool_decide_eq_false. done. Qed.

Lemma remove_all_elem (names : list str) (headers : HeaderMap) (h : str * option str) :
  h ∈ fold_left (fun hs name => header_remove name hs) names headers <-> h ∈ headers /\ h.1 ∉ names.
Proof.
  revert headers. induction names as [|n names IH]; intros headers; cbn [fold_left].
  - rewrite elem_of_nil. tauto.
  - rewrite IH, header_remove_elem, not_elem_of_cons. tauto.
Qed.

Lemma header_get_elem (name : str) (headers : HeaderMap) :
  header_get name headers = None <-> forall h, h ∈ headers -> h.1 <> name.
Proof.
  unfold header_get. destruct (List.find _ headers) as [x|] eqn:Hf; cbn.
  - apply find_some in Hf as [Hin Hx]. apply list_elem_of_In in Hin. bool_to_prop. split; [done|].
    intros Hall. by destruct (Hall x Hin).
  - split; [|done]. intros _ h Hh. apply list_elem_of_In in Hh. eapply find_none in Hf; [|done].
    by bool_to_prop.
Qed.

Lemma fold_tokens_incl (tokens : list str) (headers : HeaderMap) (h : str * option str) :
  h ∈ fold_left (fun hs token => match header_name_parse token with
                                 | Some name => header_remove name hs
                                 | None => hs
                                 end) tokens headers -> h ∈ headers.
Proof.
  revert headers. induction tokens as [|t tokens IH]; intros headers; cbn [fold_left]; [done|].
  intros Hin%IH. destruct (header_name_parse t); [|done]. by apply header_remove_elem in Hin as [? _].
Qed.

Lemma strip_connection_incl (fuel : nat) (headers : HeaderMap) (h : str * option str) :
  h ∈ strip_connection fuel headers -> h ∈ headers.
Proof.
  revert headers. induction fuel as [|fuel IH]; intros headers; cbn [strip_connection]; [done|].
  destruct (header_get CONNECTION headers) as [[text|]|]; [| |done]; intros Hin%IH.
  - apply fold_tokens_incl in Hin. by apply header_remove_elem in Hin as [? _].
  - by apply header_remove_elem in Hin as [? _].
Qed.

(** The first turn of the loop leaves no Connection header. *)
Lemma strip_connection_none (fuel : nat) (headers : HeaderMap) (h : str * option str) :
  h ∈ strip_connection (S fuel) headers -> h.1 <> CONNECTION.
Proof.
  cbn [strip_connection]. destruct (header_get CONNECTION headers) as [[text|]|] eqn:Hg.
  - intros Hin%strip_connection_incl%fold_tokens_incl. by apply header_remove_elem in Hin as [_ ?].
  - intros Hin%strip_connection_incl. by apply header_remove_elem in Hin as [_ ?].
  - by apply header_get_elem.
Qed.

(** No hop-by-hop header is sent upstream, and no header is made up. *)
Lemma hop_by_hop_removed (headers : HeaderMap) (h : str * option str) :
  h ∈ remove_hop_by_hop_request_headers headers ->
  h ∈ headers /\ h.1 <> CONNECTION /\ h.1 ∉ hop_by_hop_names.
Proof.
  unfold remove_hop_by_hop_request_headers. rewrite remove_all_elem. intros [Hin Hn].
  split_and!; [by eapply strip_connection_incl|by eapply strip_connection_none|done].
Qed.

(** *** Hook actions *)

Lemma header_insert_elem (name value : str) (headers : HeaderMap) (h : str * option str) :
  h ∈ header_insert name value headers <-> (h ∈ headers /\ h.1 <> name) \/ h = (name, Some value).
Proof. unfold header_insert. by rewrite elem_of_app, list_elem_of_singleton, header_remove_elem. Qed.

(** A header that a hook strips reaches the server only as the hook injects it. *)
Lemma stripped_header_replaced (headers : HeaderMap) (actions : MitmHookActions) (h : str * option str) :
  h.1 ∈ ha_strip_request_headers actions -> h ∈ apply_mitm_hook_actions headers (Some actions) ->
  exists i, i ∈ ha_inject_request_headers actions /\ h = (rih_name i, Some (rih_value i)).
Proof.
  intros Hs. cbn [apply_mitm_hook_actions].
  set (stripped := fold_left _ (ha_strip_request_headers actions) headers).
  assert (h ∉ stripped) as Hno by (subst stripped; rewrite remove_all_elem; tauto).
  revert Hno. generalize stripped. induction (ha_inject_request_headers actions) as [|i inj IH]; intros hs Hno; cbn; [done|].
  intros Hin. destruct (decide (h = (rih_name i, Some (rih_value i)))) as [->|Hne].
  { exists i. split; [left|done]. }
  apply IH in Hin as (j & Hj & ->); [exists j; split; [by right|done]|].
  rewrite header_insert_elem. tauto.
Qed.
End Stripping.

(** ** Concrete requests *)

#[local] Existing Instances names_only simple_http wild_globs.

(** Of several Connection headers only the first is read, for removing it removes them
    all: the headers the others list go upstream. *)
Example second_connection_header_ignored :
  remove_hop_by_hop_request_headers
    [(lit "connection", Some (lit "close")); (lit "connection", Some (lit "x-secret")); (lit "x-secret", Some (lit "1"))]
  = [(lit "x-secret", Some (lit "1"))].
Proof. vm_compute. reflexivity. Qed.

(** A decider that admits everything cannot admit a denied host. *)
Definition yes (req : NetworkPolicyRequest) : NetworkDecision := DecisionAllow.

Definition open_state : ConfigState :=
  state_of (mkConfig (with_domains
    (mkSettings true default_proxy_url true default_socks_url true true false false Full None None false false [])
    (Some (mkDomainPermissions [mkDomainEntry (lit "*.evil.com") DomainDeny; mkDomainEntry (lit "example.com") DomainAllow]))))
    (mkConstraints None None None None None None None (Some [lit "*.Evil.com"]) None None None).

Definition quiet_world : World := mkWorld open_state [].

Definition connect_to (host : string) : ProxyRequest := ReqConnect (mkConnect (Some (lit host, 443%N)) None).

(** The limited mode read third goes with the tunnel, also when the states before it were full. *)
Definition limited_state : ConfigState :=
  state_of (mkConfig (mkSettings true default_proxy_url true default_socks_url true true false false Limited
    None None false true [])) NetworkProxyConstraints_default.


Lemma open_state_read (n : nat) :
  state_ok test_proxy (read_at n quiet_world) /\
  exists managed, nc_denied_domains (cs_constraints (read_at n quiet_world)) = Some managed /\ lit "*.Evil.com" ∈ managed.
Proof.
  assert (read_at n quiet_world = open_state) as ->.
  { induction n as [|n IH]; [done|]. exact IH. }
  split; [|exists [lit "*.Evil.com"]; split; [vm_compute; reflexivity|left]].
  unfold state_ok. split_and!; try (vm_compute; reflexivity). vm_compute. split; [by intros [? ?]|done].
Qed.

Lemma denied_host_never_forwarded_witness :
  forall w' o, handle test_proxy 0 (Some yes) false (connect_to "API.Evil.com") quiet_world = (w', Ok o) ->
    forwards o = false.
Proof.
  intros w' o. apply (denied_host_never_forwarded test_proxy 0 (Some yes) false quiet_world w'
    (connect_to "API.Evil.com")
    (mkPolicyRequest HttpsConnect (lit "api.evil.com") 443 None (Some (lit "CONNECT")) None None) o
    (lit "*.Evil.com") (lit "?*.evil.com") (lit "api.evil.com")).
  - apply open_state_read.
  - vm_compute. reflexivity.
  - vm_compute. reflexivity.
  - vm_compute. left.
  - vm_compute. reflexivity.
Defined.

Example denied_host_refused :
  (handle test_proxy 0 (Some yes) false (connect_to "API.Evil.com") quiet_world).2 = Ok (Refused REASON_DENIED).
Proof. vm_compute. reflexivity. Qed.

(** A hook for POST requests, in a proxy with full access. *)
Definition hooked_state : ConfigState :=
  state_of (mkConfig (mkSettings true default_proxy_url true default_socks_url true true false false Full
    (Some (mkDomainPermissions [mkDomainEntry (lit "api.github.com") DomainAllow])) None false true [github_hook]))
    NetworkProxyConstraints_default.

Definition hooked_world : World := mkWorld hooked_state [].

Definition github_policy : MitmPolicyContext := mkMitmPolicy (lit "api.github.com") 443 Full.

Lemma intercepted_request_allowed_witness :
  exists actions,
    (evaluate_mitm_policy test_proxy 0 (hooked_request "dry_run=true") None None github_policy hooked_world).2
      = Ok (MitmAllow (Some actions)) /\
    evaluate_mitm_hooks (cs_mitm_hooks (read_at 1 hooked_world)) (mp_target_host github_policy)
      (hooked_request "dry_run=true") = Matched actions.
Proof.
  destruct (evaluate_mitm_policy test_proxy 0 (hooked_request "dry_run=true") None None github_policy hooked_world)
    as [w' r] eqn:Hr.
  destruct r as [[[actions|]|reason]|err];
    try (exfalso; apply (f_equal snd) in Hr; vm_compute in Hr; discriminate).
  exists actions. split; [done|].
  destruct (intercepted_request_allowed test_proxy 0 hooked_world w' (hooked_request "dry_run=true") None None
              github_policy (Some actions) Hr) as (_ & _ & _ & _ & Hst).
  exact Hst.
Defined.

(** Hooks make a tunnel intercepted in full mode too. *)
Example full_mode_enters_mitm :
  (handle test_proxy 0 None false (connect_to "api.github.com") hooked_world).2
  = Ok (Tunnel true Full (Some (mkMitmUpstream true false))).
Proof. vm_compute. reflexivity. Qed.
