(* ===== verification/FileSystem.v ===== *)
(** * The file-system interface: [file-system/src/lib.rs]

    [ExecutorFileSystem] is the trait through which [apply_patch] reads and
    writes files; its implementations (the local disk, a sandboxed helper
    process, a remote environment) are behind it.  The class below has the
    methods of the trait that the patch code calls, over a state [W] of the
    world; the sandbox context is part of the instance.  [FileSystemLaws]
    states what the patch code relies on: the documented behaviour of the
    POSIX calls on a tree without links, where two different absolute paths
    are two different files.  [LinkedFileSystemLaws] states what is left of
    them when files may be symbolic links, which [get_metadata] reports: calls
    on a path that is no link act on that file alone, calls on a link on
    anything.  [TextLaws] is what the two have in common, and what the proofs
    about patches use.  [MemFs] and [LinkFs] are concrete file systems that
    satisfy the laws. *)

From S2P Require Import Prelude PatchParser Replacements AbsolutePath.

Record FileMetadata : Type := mkMetadata {
  is_directory : bool;
  is_file : bool;
  is_symlink : bool;
  created_at_ms : Z;
  modified_at_ms : Z;
}.

Record RemoveOptions : Type := mkRemove { rm_recursive : bool; rm_force : bool }.
Record CreateDirectoryOptions : Type := mkCreate { mk_recursive : bool }.

(** [read_file_text] decodes the bytes of a file; [write_file] is given the
    UTF-8 bytes of a [String], here the string itself. *)
Class ExecutorFileSystem (W : Type) : Type := {
  read_file_text : W -> path -> result io_Error str;
  write_file : W -> path -> str -> result io_Error unit * W;
  create_directory : W -> path -> CreateDirectoryOptions -> result io_Error unit * W;
  get_metadata : W -> path -> result io_Error FileMetadata;
  remove : W -> path -> RemoveOptions -> result io_Error unit * W;
}.

(** The text of the file at a path, if there is one that can be read. *)
Definition file_text {W} `{ExecutorFileSystem W} (w : W) (p : path) : option str :=
  ok (read_file_text w p).

Class FileSystemLaws (W : Type) `{ExecutorFileSystem W} : Prop := {
  write_file_text : forall w p s w',
    write_file w p s = (Ok tt, w') -> file_text w' p = Some s;
  write_file_frame : forall w p s r w' q,
    write_file w p s = (r, w') -> q <> p -> file_text w' q = file_text w q;
  create_directory_frame : forall w p o r w' q,
    create_directory w p o = (r, w') -> file_text w' q = file_text w q;
  remove_text : forall w p w',
    remove w p (mkRemove false false) = (Ok tt, w') -> file_text w' p = None;
  remove_failed_text : forall w p e w',
    remove w p (mkRemove false false) = (Err e, w') ->
    file_text w' p = file_text w p \/ file_text w' p = None;
  remove_frame : forall w p r w' q,
    remove w p (mkRemove false false) = (r, w') -> q <> p -> file_text w' q = file_text w q;
}.

(** What [get_metadata] says of a path, as the patch code reads it: a regular
    file, or nothing there. *)
Definition reports_plain {W} `{ExecutorFileSystem W} (w : W) (p : path) : bool :=
  match get_metadata w p with
  | Ok metadata => is_file metadata && negb (is_symlink metadata)
  | Err e => bool_decide (kind e = NotFound)
  end.
Definition reports_link {W} `{ExecutorFileSystem W} (w : W) (p : path) : bool :=
  match get_metadata w p with
  | Ok metadata => is_symlink metadata
  | Err _ => false
  end.
(** The text of a file that is not a link. *)
Definition plain_text {W} `{ExecutorFileSystem W} (w : W) (p : path) : option str :=
  if reports_link w p then None else file_text w p.

(** Links in the last component of a path only, every one reported: no link
    leads to a directory of other paths, and none dangles unseen. *)
Class LinkedFileSystemLaws (W : Type) `{ExecutorFileSystem W} : Prop := {
  linked_write : forall w p s w',
    write_file w p s = (Ok tt, w') -> reports_link w p = false -> plain_text w' p = Some s;
  linked_write_frame : forall w p s r w' q,
    write_file w p s = (r, w') -> reports_link w p = false -> q <> p -> plain_text w' q = plain_text w q;
  linked_write_links : forall w p s r w' q,
    write_file w p s = (r, w') -> reports_link w p = false -> reports_link w' q = reports_link w q;
  linked_create_directory : forall w p o r w' q,
    create_directory w p o = (r, w') ->
    plain_text w' q = plain_text w q /\ reports_link w' q = reports_link w q;
  linked_remove : forall w p w',
    remove w p (mkRemove false false) = (Ok tt, w') -> plain_text w' p = None;
  linked_remove_failed : forall w p e w',
    remove w p (mkRemove false false) = (Err e, w') -> reports_link w p = false ->
    plain_text w' p = plain_text w p \/ plain_text w' p = None;
  linked_remove_links : forall w p r w',
    remove w p (mkRemove false false) = (r, w') -> reports_link w p = false -> reports_link w' p = false;
  linked_remove_frame : forall w p r w' q,
    remove w p (mkRemove false false) = (r, w') -> q <> p -> plain_text w' q = plain_text w q;
}.

(** [text] is what is observed of the files, [plain] the paths on which the calls
    act as on a file of their own. *)
Class TextLaws (W : Type) `{ExecutorFileSystem W} (text : W -> path -> option str) (plain : W -> path -> Prop) : Prop := {
  plain_reported : forall w p, reports_plain w p = true -> plain w p;
  text_read : forall w p, plain w p -> text w p = file_text w p;
  text_write : forall w p s w', write_file w p s = (Ok tt, w') -> plain w p -> text w' p = Some s;
  text_write_frame : forall w p s r w' q,
    write_file w p s = (r, w') -> plain w p -> q <> p -> text w' q = text w q;
  plain_write : forall w p s r w' q, write_file w p s = (r, w') -> plain w p -> plain w q -> plain w' q;
  text_create_directory : forall w p o r w' q, create_directory w p o = (r, w') -> text w' q = text w q;
  plain_create_directory : forall w p o r w' q, create_directory w p o = (r, w') -> plain w q -> plain w' q;
  text_remove : forall w p w', remove w p (mkRemove false false) = (Ok tt, w') -> plain w p -> text w' p = None;
  text_remove_failed : forall w p e w',
    remove w p (mkRemove false false) = (Err e, w') -> plain w p -> text w' p = text w p \/ text w' p = None;
  plain_remove : forall w p r w', remove w p (mkRemove false false) = (r, w') -> plain w p -> plain w' p;
  text_remove_frame : forall w p r w' q,
    remove w p (mkRemove false false) = (r, w') -> plain w p -> q <> p -> text w' q = text w q;
}.

#[export] Instance link_free_text W `{FileSystemLaws W} : TextLaws W file_text (fun _ _ => True).
Proof.
  split; try done; intros.
  - by eapply write_file_text.
  - by eapply write_file_frame.
  - by eapply create_directory_frame.
  - by eapply remove_text.
  - by eapply remove_failed_text.
  - by eapply remove_frame.
Qed.

#[export] Instance linked_text W `{LinkedFileSystemLaws W} :
  TextLaws W plain_text (fun w p => reports_link w p = false).
Proof.
  split; intros w p.
  - unfold reports_plain, reports_link. destruct (get_metadata w p); [|done]. intros Hb. by bool_to_prop.
  - intros Hp. unfold plain_text. by rewrite Hp.
  - intros; by eapply linked_write.
  - intros; by eapply linked_write_frame.
  - intros s r w' q Hw Hp Hq. by rewrite (linked_write_links w p s r w' q Hw Hp).
  - intros o r w' q Hc. by apply (linked_create_directory w p o r w').
  - intros o r w' q Hc Hq. by rewrite (proj2 (linked_create_directory w p o r w' q Hc)).
  - intros; by eapply linked_remove.
  - intros; by eapply linked_remove_failed.
  - intros; by eapply linked_remove_links.
  - intros; by eapply linked_remove_frame.
Qed.

(** ** An in-memory file system *)

Inductive node : Type :=
| MemFile (content : str)
| MemDir.

Abbreviation MemFs := (gmap path node) (only parsing).

Definition err_not_found : io_Error := mkIo NotFound (lit "No such file or directory").
Definition err_is_dir : io_Error := mkIo OtherKind (lit "Is a directory").
Definition err_not_dir : io_Error := mkIo OtherKind (lit "Not a directory").
Definition err_not_empty : io_Error := mkIo OtherKind (lit "Directory not empty").

Definition mem_is_dir (m : MemFs) (p : path) : bool :=
  bool_decide (p = [RootDir]) || match m !! p with Some MemDir => true | _ => false end.

Definition mem_read (m : MemFs) (p : path) : result io_Error str :=
  match m !! p with
  | Some (MemFile s) => Ok s
  | Some MemDir => Err err_is_dir
  | None => Err err_not_found
  end.

Definition mem_write (m : MemFs) (p : path) (s : str) : result io_Error unit * MemFs :=
  if match parent p with Some d => mem_is_dir m d | None => false end then
    match m !! p with
    | Some MemDir => (Err err_is_dir, m)
    | _ => (Ok tt, <[p := MemFile s]> m)
    end
  else (Err err_not_found, m).

Definition mem_mkdir (m : MemFs) (p : path) : MemFs :=
  match m !! p with Some _ => m | None => <[p := MemDir]> m end.

(** The path and its ancestors below the root, outermost first. *)
Definition ancestors (p : path) : list path :=
  map (fun n => take n p) (seq 2 (length p - 1)).

Definition mem_create_directory (m : MemFs) (p : path) (o : CreateDirectoryOptions)
    : result io_Error unit * MemFs :=
  if mk_recursive o then
    let m' := foldl mem_mkdir m (ancestors p) in
    (if mem_is_dir m' p then Ok tt else Err err_not_dir, m')
  else match m !! p with
       | Some _ => (Err err_is_dir, m)
       | None => (Ok tt, mem_mkdir m p)
       end.

Definition mem_metadata (m : MemFs) (p : path) : result io_Error FileMetadata :=
  if mem_is_dir m p then Ok (mkMetadata true false false 0 0)
  else match m !! p with
       | Some _ => Ok (mkMetadata false true false 0 0)
       | None => Err err_not_found
       end.

Definition mem_has_children (m : MemFs) (p : path) : bool :=
  existsb (fun e => bool_decide (parent e.1 = Some p)) (map_to_list m).

Definition mem_remove (m : MemFs) (p : path) (o : RemoveOptions) : result io_Error unit * MemFs :=
  match m !! p with
  | None => if rm_force o then (Ok tt, m) else (Err err_not_found, m)
  | Some (MemFile _) => (Ok tt, delete p m)
  | Some MemDir =>
      if rm_recursive o then
        (Ok tt, filter (fun e => take (length p) e.1 <> p) m)
      else if mem_has_children m p then (Err err_not_empty, m)
      else (Ok tt, delete p m)
  end.

#[export] Instance MemFs_fs : ExecutorFileSystem MemFs := {
  read_file_text := mem_read;
  write_file := mem_write;
  create_directory := mem_create_directory;
  get_metadata := mem_metadata;
  remove := mem_remove;
}.

Lemma mem_text (m : MemFs) (p : path) :
  file_text m p = match m !! p with Some (MemFile s) => Some s | _ => None end.
Proof. unfold file_text. simpl. unfold mem_read. by destruct (m !! p) as [[]|]. Qed.

Lemma mem_mkdir_text (m : MemFs) (p q : path) : file_text (mem_mkdir m p) q = file_text m q.
Proof.
  unfold mem_mkdir. destruct (m !! p) eqn:Hp; [done|]. rewrite !mem_text.
  destruct (decide (p = q)) as [->|Hne]; [by rewrite lookup_insert_eq, Hp|].
  by rewrite lookup_insert_ne.
Qed.

Lemma mem_mkdirs_text (ps : list path) (m : MemFs) (q : path) :
  file_text (foldl mem_mkdir m ps) q = file_text m q.
Proof.
  revert m. induction ps as [|p ps IH]; intros m; simpl; [done|]. by rewrite IH, mem_mkdir_text.
Qed.

#[export] Instance MemFs_laws : FileSystemLaws MemFs.
Proof.
  split; intros w p; simpl.
  - intros s w'. unfold mem_write. intros H. repeat case_in H; rewrite mem_text, lookup_insert_eq; done.
  - intros s r w' q. unfold mem_write. intros H Hne. repeat case_in H; try done;
      rewrite !mem_text, lookup_insert_ne by congruence; done.
  - intros o r w' q. unfold mem_create_directory. intros H. repeat case_in H; try done;
      first [apply mem_mkdirs_text | apply mem_mkdir_text].
  - intros w'. unfold mem_remove. intros H. repeat case_in H; rewrite mem_text, lookup_delete_eq; done.
  - intros e w'. unfold mem_remove. intros H. repeat case_in H; by left.
  - intros r w' q. unfold mem_remove. intros H Hne. repeat case_in H; try done;
      rewrite !mem_text, lookup_delete_ne by congruence; done.
Qed.

(** ** An in-memory file system with links

    A link names another path; the calls that open a file follow it once. *)
Inductive lnode : Type :=
| LinkFile (content : str)
| LinkDir
| LinkTo (target : path).

Abbreviation LinkFs := (gmap path lnode) (only parsing).

Definition lnode_text (n : option lnode) : option str :=
  match n with Some (LinkFile s) => Some s | _ => None end.
Definition is_link_node (n : option lnode) : bool := match n with Some (LinkTo _) => true | _ => false end.

Definition link_is_dir (m : LinkFs) (p : path) : bool :=
  bool_decide (p = [RootDir]) || match m !! p with Some LinkDir => true | _ => false end.

Definition link_read (m : LinkFs) (p : path) : result io_Error str :=
  let p := match m !! p with Some (LinkTo t) => t | _ => p end in
  match m !! p with
  | Some (LinkFile s) => Ok s
  | Some _ => Err err_is_dir
  | None => Err err_not_found
  end.
Definition link_write (m : LinkFs) (p : path) (s : str) : result io_Error unit * LinkFs :=
  let p := match m !! p with Some (LinkTo t) => t | _ => p end in
  if match parent p with Some d => link_is_dir m d | None => false end then
    match m !! p with
    | Some LinkDir | Some (LinkTo _) => (Err err_is_dir, m)
    | _ => (Ok tt, <[p := LinkFile s]> m)
    end
  else (Err err_not_found, m).
Definition link_mkdir (m : LinkFs) (p : path) : LinkFs :=
  match m !! p with Some _ => m | None => <[p := LinkDir]> m end.
Definition link_create_directory (m : LinkFs) (p : path) (o : CreateDirectoryOptions) : result io_Error unit * LinkFs :=
  if mk_recursive o then
    let m' := foldl link_mkdir m (ancestors p) in
    (if link_is_dir m' p then Ok tt else Err err_not_dir, m')
  else match m !! p with
       | Some _ => (Err err_is_dir, m)
       | None => (Ok tt, link_mkdir m p)
       end.
Definition link_metadata (m : LinkFs) (p : path) : result io_Error FileMetadata :=
  match m !! p with
  | Some (LinkFile _) => Ok (mkMetadata false true false 0 0)
  | Some LinkDir => Ok (mkMetadata true false false 0 0)
  | Some (LinkTo t) =>
      Ok (mkMetadata (link_is_dir m t) match m !! t with Some (LinkFile _) => true | _ => false end true 0 0)
  | None => if bool_decide (p = [RootDir]) then Ok (mkMetadata true false false 0 0) else Err err_not_found
  end.
Definition link_remove (m : LinkFs) (p : path) (o : RemoveOptions) : result io_Error unit * LinkFs :=
  match m !! p with
  | None => if rm_force o then (Ok tt, m) else (Err err_not_found, m)
  | Some (LinkFile _) | Some (LinkTo _) => (Ok tt, delete p m)
  | Some LinkDir =>
      if rm_recursive o then (Ok tt, filter (fun e => take (length p) e.1 <> p) m)
      else if existsb (fun e => bool_decide (parent e.1 = Some p)) (map_to_list m) then (Err err_not_empty, m)
      else (Ok tt, delete p m)
  end.

#[export] Instance LinkFs_fs : ExecutorFileSystem LinkFs := {
  read_file_text := link_read;
  write_file := link_write;
  create_directory := link_create_directory;
  get_metadata := link_metadata;
  remove := link_remove;
}.

Lemma link_reports (m : LinkFs) (p : path) : reports_link m p = is_link_node (m !! p).
Proof. unfold reports_link. simpl. unfold link_metadata. destruct (m !! p) as [[]|]; try done. by case_bool_decide. Qed.
Lemma link_text (m : LinkFs) (p : path) : plain_text m p = lnode_text (m !! p).
Proof.
  unfold plain_text. rewrite link_reports. unfold file_text. simpl. unfold link_read.
  by destruct (m !! p) as [[]|] eqn:Hp; cbn [is_link_node]; rewrite ?Hp.
Qed.

(** Making a missing directory changes no file and no link. *)
Lemma link_mkdirs (ps : list path) (m : LinkFs) (q : path) :
  lnode_text (foldl link_mkdir m ps !! q) = lnode_text (m !! q)
  /\ is_link_node (foldl link_mkdir m ps !! q) = is_link_node (m !! q).
Proof.
  revert m. induction ps as [|p ps IH]; intros m; simpl; [done|]. destruct (IH (link_mkdir m p)) as [-> ->].
  unfold link_mkdir. destruct (m !! p) eqn:Hp; [done|].
  destruct (decide (p = q)) as [->|Hne]; [by rewrite lookup_insert_eq, Hp|by rewrite lookup_insert_ne].
Qed.

#[export] Instance LinkFs_laws : LinkedFileSystemLaws LinkFs.
Proof.
  assert (forall (m : LinkFs) p s r m', link_write m p s = (r, m') -> is_link_node (m !! p) = false ->
    (m' = m /\ r <> Ok tt) \/ (m' = <[p := LinkFile s]> m /\ r = Ok tt)) as Hw.
  { intros m p s r m' H Hl. unfold link_write in H. destruct (m !! p) as [[]|] eqn:Hp; try done; cbn zeta iota in H;
      rewrite ?Hp in H; repeat case_in H; simplify_eq; auto. }
  assert (forall (m : LinkFs) p r m', link_remove m p (mkRemove false false) = (r, m') ->
    (m' = m /\ r <> Ok tt) \/ (m' = delete p m /\ r = Ok tt)) as Hr.
  { intros m p r m' H. unfold link_remove in H. cbn in H. repeat case_in H; simplify_eq; auto. }
  split; intros w p.
  - intros s w' H Hl. rewrite link_reports in Hl. destruct (Hw _ _ _ _ _ H Hl) as [[_ ?]|[-> _]]; [done|].
    by rewrite link_text, lookup_insert_eq.
  - intros s r w' q H Hl Hne. rewrite link_reports in Hl. rewrite !link_text.
    destruct (Hw _ _ _ _ _ H Hl) as [[-> _]|[-> _]]; [done|]. by rewrite lookup_insert_ne.
  - intros s r w' q H Hl. rewrite !link_reports in *. destruct (Hw _ _ _ _ _ H Hl) as [[-> _]|[-> _]]; [done|].
    destruct (decide (q = p)) as [->|Hne]; [by rewrite lookup_insert_eq, Hl|by rewrite lookup_insert_ne].
  - intros o r w' q H. rewrite !link_reports, !link_text. simpl in H. unfold link_create_directory in H.
    destruct (mk_recursive o); [simplify_eq; apply link_mkdirs|].
    destruct (w !! p); simplify_eq; [done|]. apply (link_mkdirs [p]).
  - intros w' H. destruct (Hr _ _ _ _ H) as [[_ ?]|[-> _]]; [done|]. by rewrite link_text, lookup_delete_eq.
  - intros e w' H _. destruct (Hr _ _ _ _ H) as [[-> _]|[_ ?]]; [by left|done].
  - intros r w' H Hl. rewrite link_reports in *. destruct (Hr _ _ _ _ H) as [[-> _]|[-> _]]; [done|].
    by rewrite lookup_delete_eq.
  - intros r w' q H Hne. rewrite !link_text. destruct (Hr _ _ _ _ H) as [[-> _]|[-> _]]; [done|].
    by rewrite lookup_delete_ne.
Qed.
