(* ===== verification/ApplyPatch.v ===== *)
(** * Applying a patch to files: [apply-patch/src/lib.rs]

    [apply_hunks_to_files] runs the hunks of a patch against a file system and
    keeps a delta of what it committed; [apply_hunks] and [apply_patch] wrap it
    with parsing and output.  The code is written in a small monad of its own:
    a state (the world and the delta, which the source mutates through a
    reference), errors ([anyhow::Error], raised by [?]) and [None] for a panic.

    The theorems are stated over the texts of the files (a [view]): a patch
    that succeeds has the effect of [patch_effect], the pure reading of its
    hunks; and the delta, also of a patch that fails half-way, can be replayed
    from the state before and reverted from the state after, unless the code
    marked it as not exact.  The first is about file systems without links, the
    second also about files that are links, for which the code marks its deltas. *)

From S2P Require Import Prelude PatchParser Replacements AbsolutePath FileSystem.

(** ** Data *)

Inductive AppliedPatchFileChange : Type :=
| AddedFile (content : str) (overwritten_content : option str)
| DeletedFile (content : str)
| UpdatedFile (move_path : option path) (old_content : str)
    (overwritten_move_content : option str) (new_content : str).

Record AppliedPatchChange : Type := mkChange {
  change_path : path;
  change : AppliedPatchFileChange;
}.

Record AppliedPatchDelta : Type := mkDelta {
  changes : list AppliedPatchChange;
  exact : bool;
}.

Definition delta_empty : AppliedPatchDelta := mkDelta [] true.

(** [AppliedPatchDelta::append] *)
Definition delta_append (d other : AppliedPatchDelta) : AppliedPatchDelta :=
  mkDelta (changes d ++ changes other) (exact d && exact other).

Record AffectedPaths : Type := mkAffected {
  added : list str;
  modified : list str;
  deleted : list str;
}.

Record ApplyPatchFailure : Type := mkFailure {
  failure_error : ApplyPatchError;
  failure_delta : AppliedPatchDelta;
}.

Definition without_delta (e : ApplyPatchError) : ApplyPatchFailure := mkFailure e delta_empty.

(** ** Errors

    An [anyhow::Error]: an [io::Error], a message, an [ApplyPatchError], or one
    of them under a context. *)
Inductive anyhow_Error : Type :=
| AnyIo (e : io_Error)
| AnyMsg (message : str)
| AnyPatch (e : ApplyPatchError)
| AnyContext (context : str) (e : anyhow_Error).

Definition show_ParseError (e : ParseError) : str :=
  match e with
  | InvalidPatchError message => lit "invalid patch: " ++ message
  | InvalidHunkError message line_number =>
      lit "invalid hunk at line " ++ show_nat line_number ++ lit ", " ++ message
  end.

Definition show_ApplyPatchError (e : ApplyPatchError) : str :=
  match e with
  | ApplyParseError e => show_ParseError e
  | ApplyIoError e => context e ++ lit ": " ++ text (source e)
  | ComputeReplacements message => message
  | ImplicitInvocation =>
      lit "patch detected without explicit call to apply_patch. Rerun as ["
      ++ [34%N] ++ lit "apply_patch" ++ [34%N] ++ lit ", " ++ [34%N] ++ lit "<patch>" ++ [34%N] ++ lit "]"
  end.

(** [to_string] shows the outermost context; [downcast_ref::<io::Error>] looks
    through the contexts. *)
Definition show_anyhow (e : anyhow_Error) : str :=
  match e with
  | AnyIo e => text e
  | AnyMsg message => message
  | AnyPatch e => show_ApplyPatchError e
  | AnyContext context _ => context
  end.
Fixpoint downcast_io (e : anyhow_Error) : option io_Error :=
  match e with
  | AnyIo e => Some e
  | AnyContext _ e => downcast_io e
  | AnyMsg _ | AnyPatch _ => None
  end.

(** [ApplyPatchError::from(io::Error)] *)
Definition from_io (e : io_Error) : ApplyPatchError :=
  ApplyIoError (mkIoError (lit "I/O error") e).

(** ** The monad *)

Record st (W : Type) : Type := mkSt { world : W; delta : AppliedPatchDelta }.
Arguments mkSt {W} world delta.
Arguments world {W} s.
Arguments delta {W} s.

Definition M (W A : Type) : Type := st W -> option (result anyhow_Error A * st W).
#[export] Instance M_ret W : MRet (M W) := fun _ a s => Some (Ok a, s).
#[export] Instance M_bind W : MBind (M W) := fun _ _ f m s =>
  match m s with
  | Some (Ok a, s') => f a s'
  | Some (Err e, s') => Some (Err e, s')
  | None => None
  end.

Section apply.
Context {W : Type} `{ExecutorFileSystem W}.
(** [dirs::home_dir()] *)
Context (home : option path).

(** [?] *)
Definition try_ {A} (r : result anyhow_Error A) : M W A := fun s => Some (r, s).
Definition with_context {A} (ctx : str) (r : result io_Error A) : result anyhow_Error A :=
  map_err (fun e => AnyContext ctx (AnyIo e)) r.

(** A computation that may panic. *)
Definition or_panic {A} (r : option (result anyhow_Error A)) : M W A := fun s =>
  match r with Some r => Some (r, s) | None => None end.

(** Calls of the file system. *)
Definition fs_read (p : path) : M W (result io_Error str) := fun s =>
  Some (Ok (read_file_text (world s) p), s).
Definition fs_metadata (p : path) : M W (result io_Error FileMetadata) := fun s =>
  Some (Ok (get_metadata (world s) p), s).
Definition fs_write (p : path) (contents : str) : M W (result io_Error unit) := fun s =>
  let '(r, w) := write_file (world s) p contents in Some (Ok r, mkSt w (delta s)).
Definition fs_create_directory (p : path) (o : CreateDirectoryOptions) : M W (result io_Error unit) :=
  fun s => let '(r, w) := create_directory (world s) p o in Some (Ok r, mkSt w (delta s)).
Definition fs_remove (p : path) (o : RemoveOptions) : M W (result io_Error unit) := fun s =>
  let '(r, w) := remove (world s) p o in Some (Ok r, mkSt w (delta s)).

(** [delta.exact &= b], [delta.changes.push(c)], [delta.changes[i] = c] *)
Definition and_exact (b : bool) : M W unit := fun s =>
  Some (Ok tt, mkSt (world s) (mkDelta (changes (delta s)) (exact (delta s) && b))).
Definition push_change (c : AppliedPatchChange) : M W unit := fun s =>
  Some (Ok tt, mkSt (world s) (mkDelta (changes (delta s) ++ [c]) (exact (delta s)))).
Definition changes_len : M W nat := fun s => Some (Ok (length (changes (delta s))), s).
Definition set_change (i : nat) (c : AppliedPatchChange) : M W unit := fun s =>
  if bool_decide (i < length (changes (delta s)))%nat then
    Some (Ok tt, mkSt (world s) (mkDelta (<[i := c]> (changes (delta s))) (exact (delta s))))
  else None.

(** The [try_write!] macro. *)
Definition try_write {A} (m : M W A) : M W A := fun s =>
  match m s with
  | Some (Err error, s') =>
      Some (Err error, mkSt (world s') (mkDelta (changes (delta s')) false))
  | x => x
  end.

(** ** Helpers *)

Definition is_not_found (e : io_Error) : bool := bool_decide (kind e = NotFound).

Definition ensure_not_directory (p : path) : M W (result io_Error unit) :=
  metadata ← fs_metadata p;
  mret match metadata with
       | Err e => Err e
       | Ok metadata =>
           if is_directory metadata then Err (mkIo InvalidInput (lit "path is a directory"))
           else Ok tt
       end.

Definition remove_failure_was_side_effect_free (p : path) (expected_content : option str) : M W bool :=
  match expected_content with
  | Some expected_content =>
      content ← fs_read p;
      mret match content with
           | Ok content => content =s? expected_content
           | Err _ => false
           end
  | None => mret false
  end.

Definition note_existing_path_delta_support (p : path) : M W unit :=
  metadata ← fs_metadata p;
  match metadata with
  | Ok metadata =>
      if is_file metadata && negb (is_symlink metadata) then mret tt else and_exact false
  | Err source => if is_not_found source then mret tt else and_exact false
  end.

Definition read_optional_file_text_for_delta (p : path) : M W (option str) :=
  note_existing_path_delta_support p;;
  content ← fs_read p;
  match content with
  | Ok content => mret (Some content)
  | Err source =>
      if is_not_found source then mret None
      else and_exact false;; mret None
  end.

Definition write_file_with_missing_parent_retry (path_abs : path) (contents : str) : M W unit :=
  r ← fs_write path_abs contents;
  match r with
  | Ok _ => mret tt
  | Err err =>
      if is_not_found err then
        (match parent path_abs with
         | Some parent_abs =>
             r ← fs_create_directory parent_abs (mkCreate true);
             try_ (with_context
               (lit "Failed to create parent directories for " ++ display path_abs) r)
         | None => mret tt
         end);;
        r ← fs_write path_abs contents;
        try_ (with_context (lit "Failed to write file " ++ display path_abs) r)
      else
        try_ (with_context (lit "Failed to write file " ++ display path_abs) (Err err))
  end.

Definition derive_new_contents_from_chunks (path_abs : path) (chunks : list UpdateFileChunk)
    : M W AppliedPatch :=
  original_contents ← fs_read path_abs;
  match original_contents with
  | Err err =>
      try_ (Err (AnyPatch (ApplyIoError (mkIoError
        (lit "Failed to read file to update " ++ display path_abs) err))))
  | Ok original_contents =>
      or_panic (map_err AnyPatch <$> derive_new_contents (display path_abs) original_contents chunks)
  end.

(** ** The hunks *)

Definition apply_add (path_abs : path) (affected_path contents : str) (aff : AffectedPaths)
    : M W AffectedPaths :=
  overwritten_content ← read_optional_file_text_for_delta path_abs;
  try_write (write_file_with_missing_parent_retry path_abs contents);;
  push_change (mkChange path_abs (AddedFile contents overwritten_content));;
  mret (mkAffected (added aff ++ [affected_path]) (modified aff) (deleted aff)).

Definition apply_delete (path_abs : path) (affected_path : str) (aff : AffectedPaths)
    : M W AffectedPaths :=
  note_existing_path_delta_support path_abs;;
  r ← fs_read path_abs;
  let deleted_content := ok r in
  (if bool_decide (deleted_content = None) then and_exact false else mret tt);;
  let ctx := lit "Failed to delete file " ++ display path_abs in
  r ← ensure_not_directory path_abs;
  try_ (with_context ctx r);;
  r ← fs_remove path_abs (mkRemove false false);
  match with_context ctx r with
  | Err error =>
      b ← remove_failure_was_side_effect_free path_abs deleted_content;
      and_exact b;;
      try_ (Err error)
  | Ok _ =>
      (match deleted_content with
       | Some content => push_change (mkChange path_abs (DeletedFile content))
       | None => mret tt
       end);;
      mret (mkAffected (added aff) (modified aff) (deleted aff ++ [affected_path]))
  end.

Definition apply_move (path_abs dest_abs : path) (applied : AppliedPatch) : M W unit :=
  overwritten_move_content ← read_optional_file_text_for_delta dest_abs;
  try_write (write_file_with_missing_parent_retry dest_abs (new_contents applied));;
  dest_write_change_index ← changes_len;
  push_change (mkChange dest_abs (AddedFile (new_contents applied) overwritten_move_content));;
  let ctx := lit "Failed to remove original " ++ display path_abs in
  r ← ensure_not_directory path_abs;
  try_ (with_context ctx r);;
  r ← fs_remove path_abs (mkRemove false false);
  match with_context ctx r with
  | Err error =>
      b ← remove_failure_was_side_effect_free path_abs (Some (original_contents applied));
      and_exact b;;
      try_ (Err error)
  | Ok _ =>
      set_change dest_write_change_index
        (mkChange path_abs (UpdatedFile (Some dest_abs) (original_contents applied)
           overwritten_move_content (new_contents applied)))
  end.

Definition apply_update (path_abs : path) (affected_path : str) (dest_abs : option path)
    (chunks : list UpdateFileChunk) (aff : AffectedPaths) : M W AffectedPaths :=
  note_existing_path_delta_support path_abs;;
  applied ← derive_new_contents_from_chunks path_abs chunks;
  (match dest_abs with
   | Some dest_abs => apply_move path_abs dest_abs applied
   | None =>
       try_write
         (r ← fs_write path_abs (new_contents applied);
          try_ (with_context (lit "Failed to write file " ++ display path_abs) r));;
       push_change (mkChange path_abs
         (UpdatedFile None (original_contents applied) None (new_contents applied)))
   end);;
  mret (mkAffected (added aff) (modified aff ++ [affected_path]) (deleted aff)).

Definition resolve_path (cwd : path) (h : Hunk) : path :=
  resolve_path_against_base home (hunk_source_path h) cwd.

Definition apply_hunk (cwd : path) (hunk : Hunk) (aff : AffectedPaths) : M W AffectedPaths :=
  let affected_path := hunk_path hunk in
  let path_abs := resolve_path cwd hunk in
  match hunk with
  | AddFile _ contents => apply_add path_abs affected_path contents aff
  | DeleteFile _ => apply_delete path_abs affected_path aff
  | UpdateFile _ move_path chunks =>
      apply_update path_abs affected_path
        ((fun dest => resolve_path_against_base home dest cwd) <$> move_path) chunks aff
  end.

Fixpoint apply_hunk_loop (cwd : path) (hunks : list Hunk) (aff : AffectedPaths)
    : M W AffectedPaths :=
  match hunks with
  | [] => mret aff
  | hunk :: hunks' => aff ← apply_hunk cwd hunk aff; apply_hunk_loop cwd hunks' aff
  end.

Definition apply_hunks_to_files (cwd : path) (hunks : list Hunk) : M W AffectedPaths :=
  if bool_decide (hunks = []) then try_ (Err (AnyMsg (lit "No files were modified.")))
  else apply_hunk_loop cwd hunks (mkAffected [] [] []).

(** ** Output

    A writer of lines ([writeln!] to stdout or stderr). *)
Class Writer (O : Type) : Type := writeln : O -> str -> result io_Error unit * O.

Fixpoint write_lines {O} `{Writer O} (out : O) (ls : list str) : result io_Error unit * O :=
  match ls with
  | [] => (Ok tt, out)
  | l :: ls' =>
      match writeln out l with
      | (Ok _, out) => write_lines out ls'
      | (Err e, out) => (Err e, out)
      end
  end.

Definition print_summary {O} `{Writer O} (affected : AffectedPaths) (out : O)
    : result io_Error unit * O :=
  write_lines out
    (lit "Success. Updated the following files:"
     :: map (fun p => lit "A " ++ p) (added affected)
     ++ map (fun p => lit "M " ++ p) (modified affected)
     ++ map (fun p => lit "D " ++ p) (deleted affected)).

(** Everything a call of [apply_patch] changes. *)
Record io_state (W O : Type) : Type := mkIoState { io_world : W; stdout : O; stderr : O }.
End apply.

Arguments mkIoState {W O} io_world stdout stderr.
Arguments io_world {W O} i.
Arguments stdout {W O} i.
Arguments stderr {W O} i.

Section toplevel.
Context {W O : Type} `{ExecutorFileSystem W} `{Writer O}.
Context (home : option path).

Definition apply_hunks (hunks : list Hunk) (cwd : path) (io : io_state W O)
    : option (result ApplyPatchFailure AppliedPatchDelta * io_state W O) :=
  match apply_hunks_to_files home cwd hunks (mkSt (io_world io) delta_empty) with
  | None => None
  | Some (Ok affected_paths, s) =>
      let '(r, out) := print_summary affected_paths (stdout io) in
      let io := mkIoState (world s) out (stderr io) in
      Some (match r with
            | Err error => Err (mkFailure (from_io error) (delta s))
            | Ok _ => Ok (delta s)
            end, io)
  | Some (Err error, s) =>
      let msg := show_anyhow error in
      let '(r, err) := writeln (stderr io) msg in
      let io := mkIoState (world s) (stdout io) err in
      Some (match r with
            | Err error => Err (mkFailure (from_io error) (delta s))
            | Ok _ =>
                let error :=
                  match downcast_io error with
                  | Some io => from_io io
                  | None => ApplyIoError (mkIoError msg (mkIo OtherKind msg))
                  end in
                Err (mkFailure error (delta s))
            end, io)
  end.

Definition apply_patch (patch : str) (cwd : path) (io : io_state W O)
    : option (result ApplyPatchFailure AppliedPatchDelta * io_state W O) :=
  match parse_patch patch with
  | None => None
  | Some (Ok source) => apply_hunks (hunks source) cwd io
  | Some (Err e) =>
      let '(r, err) := writeln (stderr io)
        match e with
        | InvalidPatchError message => lit "Invalid patch: " ++ message
        | InvalidHunkError message line_number =>
            lit "Invalid patch hunk on line " ++ show_nat line_number ++ lit ": " ++ message
        end in
      let io := mkIoState (io_world io) (stdout io) err in
      Some (match r with
            | Err error => Err (without_delta (from_io error))
            | Ok _ => Err (without_delta (ApplyParseError e))
            end, io)
  end.
End toplevel.

(** ** Specification: the texts of the files *)

Definition view : Type := path -> option str.
Definition view_of {W} `{ExecutorFileSystem W} (w : W) : view := file_text w.
(** The texts of the files that are not links. *)
Definition plain_view {W} `{ExecutorFileSystem W} (w : W) : view := plain_text w.

#[export] Instance view_equiv : Equiv view := fun v v' => forall q, v q = v' q.
#[export] Instance view_equivalence : Equivalence (≡@{view}).
Proof. split; [by intros v q|by intros v v' Hv q|intros v1 v2 v3 H1 H2 q; by rewrite H1]. Qed.

Definition upd (p : path) (t : option str) (v : view) : view := fun q =>
  if decide (q = p) then t else v q.

#[export] Instance upd_proper p t : Proper ((≡) ==> (≡)) (upd p t).
Proof. intros v v' Hv q. unfold upd. by destruct (decide (q = p)). Qed.

(** What a successful hunk does to the texts. *)
Definition hunk_effect (home : option path) (cwd : path) (h : Hunk) (v : view) : option view :=
  let p := resolve_path home cwd h in
  match h with
  | AddFile _ contents => Some (upd p (Some contents) v)
  | DeleteFile _ => Some (upd p None v)
  | UpdateFile _ move_path chunks =>
      original ← v p;
      match derive_new_contents (display p) original chunks with
      | Some (Ok applied) =>
          Some match move_path with
               | None => upd p (Some (new_contents applied)) v
               | Some dest =>
                   upd p None
                     (upd (resolve_path_against_base home dest cwd) (Some (new_contents applied)) v)
               end
      | _ => None
      end
  end.

Fixpoint patch_effect (home : option path) (cwd : path) (hunks : list Hunk) (v : view) : option view :=
  match hunks with
  | [] => Some v
  | h :: hunks' => v ← hunk_effect home cwd h v; patch_effect home cwd hunks' v
  end.

(** Replaying and reverting a recorded change. *)
Definition replay_change (c : AppliedPatchChange) (v : view) : view :=
  match change c with
  | AddedFile content _ => upd (change_path c) (Some content) v
  | DeletedFile _ => upd (change_path c) None v
  | UpdatedFile None _ _ new_content => upd (change_path c) (Some new_content) v
  | UpdatedFile (Some dest) _ _ new_content =>
      upd (change_path c) None (upd dest (Some new_content) v)
  end.

Definition revert_change (c : AppliedPatchChange) (v : view) : view :=
  match change c with
  | AddedFile _ overwritten_content => upd (change_path c) overwritten_content v
  | DeletedFile content => upd (change_path c) (Some content) v
  | UpdatedFile None old_content _ _ => upd (change_path c) (Some old_content) v
  | UpdatedFile (Some dest) old_content overwritten_move_content _ =>
      upd (change_path c) (Some old_content) (upd dest overwritten_move_content v)
  end.

Definition replay (cs : list AppliedPatchChange) (v : view) : view :=
  foldl (fun v c => replay_change c v) v cs.
Definition revert (cs : list AppliedPatchChange) (v : view) : view :=
  foldr revert_change v cs.

(** ** The delta *)

(** [commits v cs v']: the changes lead from [v] to [v'], and each one records
    enough to be undone where it happened. *)
Fixpoint commits (v : view) (cs : list AppliedPatchChange) (v' : view) : Prop :=
  match cs with
  | [] => v' ≡ v
  | c :: cs' => revert_change c (replay_change c v) ≡ v /\ commits (replay_change c v) cs' v'
  end.

#[export] Instance replay_change_proper c : Proper ((≡) ==> (≡)) (replay_change c).
Proof.
  intros v v' Hv. unfold replay_change. destruct (change c) as [| |[]]; by rewrite Hv.
Qed.
#[export] Instance revert_change_proper c : Proper ((≡) ==> (≡)) (revert_change c).
Proof.
  intros v v' Hv. unfold revert_change. destruct (change c) as [| |[]]; by rewrite Hv.
Qed.

#[export] Instance commits_proper : Proper ((≡) ==> (=) ==> (≡) ==> iff) commits.
Proof.
  assert (forall cs (v1 v2 v1' v2' : view), v1 ≡ v2 -> v1' ≡ v2' -> commits v1 cs v1' -> commits v2 cs v2') as Himp.
  { induction cs as [|c cs IH]; intros v1 v2 v1' v2' Hv Hv'; simpl.
    - intros He. by rewrite <- Hv', He.
    - intros [Hr Hc]. split; [by rewrite <- Hv|]. eapply IH; [|exact Hv'|exact Hc]. by rewrite Hv. }
  intros v1 v2 Hv cs ? <- v1' v2' Hv'. split; apply Himp; done.
Qed.

Lemma commits_app v1 cs1 v2 cs2 v3 :
  commits v1 cs1 v2 -> commits v2 cs2 v3 -> commits v1 (cs1 ++ cs2) v3.
Proof.
  revert v1. induction cs1 as [|c cs1 IH]; intros v1; simpl.
  - intros Hv H. by rewrite <- Hv.
  - intros [Hr Hc] H. split; [done|]. by apply IH.
Qed.

Lemma commits_replay v cs v' : commits v cs v' -> v' ≡ replay cs v.
Proof. revert v. induction cs as [|c cs IH]; intros v; simpl; [done|]. intros [_ Hc]. by apply IH. Qed.

Lemma commits_revert v cs v' : commits v cs v' -> revert cs v' ≡ v.
Proof.
  revert v. induction cs as [|c cs IH]; intros v; simpl; [done|].
  intros [Hr Hc]. by rewrite (IH _ Hc).
Qed.

Lemma upd_same v p t : v p = t -> upd p t v ≡ v.
Proof. intros Hv q. unfold upd. by destruct (decide (q = p)) as [->|]. Qed.

Lemma upd_upd v p t t' : upd p t (upd p t' v) ≡ upd p t v.
Proof. intros q. unfold upd. by destruct (decide (q = p)). Qed.

Lemma upd_comm v p q t t' : p <> q -> upd p t (upd q t' v) ≡ upd q t' (upd p t v).
Proof.
  intros Hne x. unfold upd. destruct (decide (x = p)) as [->|]; [by rewrite decide_False|done].
Qed.

(** The four kinds of change, committed. *)
Lemma commits_add v p c o : v p = o -> commits v [mkChange p (AddedFile c o)] (upd p (Some c) v).
Proof. intros Hv. simpl. split; [|done]. unfold revert_change, replay_change; simpl. by rewrite upd_upd, upd_same. Qed.
Lemma commits_delete v p c : v p = Some c -> commits v [mkChange p (DeletedFile c)] (upd p None v).
Proof. intros Hv. simpl. split; [|done]. unfold revert_change, replay_change; simpl. by rewrite upd_upd, upd_same. Qed.
Lemma commits_update v p o n :
  v p = Some o -> commits v [mkChange p (UpdatedFile None o None n)] (upd p (Some n) v).
Proof. intros Hv. simpl. split; [|done]. unfold revert_change, replay_change; simpl. by rewrite upd_upd, upd_same. Qed.
Lemma commits_move v p d o om n :
  v p = Some o -> v d = om ->
  commits v [mkChange p (UpdatedFile (Some d) o om n)] (upd p None (upd d (Some n) v)).
Proof.
  intros Hv Hd. simpl. split; [|done]. unfold revert_change, replay_change; simpl.
  intros q. unfold upd. destruct (decide (q = p)) as [->|]; [done|]. by destruct (decide (q = d)) as [->|].
Qed.

(** ** The operations one by one *)

Lemma M_bind_ok {W A B} (m : M W A) (f : A -> M W B) s a s1 :
  m s = Some (Ok a, s1) -> (m ≫= f) s = f a s1.
Proof. intros Hm. unfold mbind, M_bind. by rewrite Hm. Qed.
Lemma M_bind_err {W A B} (m : M W A) (f : A -> M W B) s e s1 :
  m s = Some (Err e, s1) -> (m ≫= f) s = Some (Err e, s1).
Proof. intros Hm. unfold mbind, M_bind. by rewrite Hm. Qed.

(** Run the first step of a monadic goal with a lemma for it. *)
Ltac step H := rewrite (M_bind_ok _ _ _ _ _ H).
Ltac step_err H := rewrite (M_bind_err _ _ _ _ _ H).

Section run.
Context {W : Type} `{ExecutorFileSystem W} (text : W -> path -> option str) (plain : W -> path -> Prop)
        `{!TextLaws W text plain}.
Context (home : option path).
Abbreviation state := (st W) (only parsing).

Definition sview (s : state) : view := text (world s).

(** What is known of a path depends on the guard of the code: every path is
    plain, or the delta is still exact, so that the guard has seen a plain one. *)
Definition sure (s : state) : Prop := (forall w p, plain w p) \/ exact (delta s) = true.

(** Nothing written, nothing recorded; the delta may have become inexact. *)
Definition keeps (s s' : state) : Prop :=
  world s' = world s /\ changes (delta s') = changes (delta s) /\
  (exact (delta s') = true -> exact (delta s) = true).

Lemma keeps_trans s1 s2 s3 : keeps s1 s2 -> keeps s2 s3 -> keeps s1 s3.
Proof. unfold keeps. intros (-> & -> & ?) (-> & -> & ?). naive_solver. Qed.
Lemma keeps_sure s s' : keeps s s' -> sure s' -> sure s.
Proof. unfold sure. intros (_ & _ & He) [?|?]; [by left|right; by apply He]. Qed.

Lemma and_exact_keeps s b :
  exists s', and_exact b s = Some (Ok tt, s') /\ keeps s s' /\ (exact (delta s') = true -> b = true).
Proof.
  eexists. split; [reflexivity|]. unfold keeps; simpl.
  split; [split_and!; [done|done|]|]; intros [? ?]%andb_true_iff; done.
Qed.

(** The guard: the delta stays exact only on a plain path. *)
Lemma note_keeps p s :
  exists s', note_existing_path_delta_support p s = Some (Ok tt, s') /\ keeps s s' /\ (sure s' -> plain (world s') p).
Proof.
  destruct (and_exact_keeps s false) as (s' & He & Hk & Hf).
  assert (reports_plain (world s) p = true ->
    exists s', (mret tt : M W unit) s = Some (Ok tt, s') /\ keeps s s' /\ (sure s' -> plain (world s') p)) as Hgood.
  { intros Hr. exists s. split_and!; [done|done|]. intros _. by apply (plain_reported (text := text)). }
  assert (exists s', and_exact false s = Some (Ok tt, s') /\ keeps s s' /\ (sure s' -> plain (world s') p)) as Hbad.
  { exists s'. split_and!; [done|done|]. intros [Hall|Hx]; [by apply Hall|by specialize (Hf Hx)]. }
  unfold note_existing_path_delta_support, mbind, M_bind, fs_metadata, reports_plain in *.
  destruct (get_metadata _ _) as [md|e]; [destruct (is_file md && _)|unfold is_not_found; destruct (bool_decide _)]; auto.
Qed.

Lemma read_optional_spec p s :
  exists o s', read_optional_file_text_for_delta p s = Some (Ok o, s') /\ keeps s s' /\
    (exact (delta s') = true -> o = sview s p) /\ (sure s' -> plain (world s') p).
Proof.
  unfold read_optional_file_text_for_delta. destruct (note_keeps p s) as (s1 & He & Hk & Hp). step He.
  destruct (and_exact_keeps s1 false) as (s2 & He2 & Hk2 & Hf).
  assert (exact (delta s1) = true -> sview s p = ok (read_file_text (world s1) p)) as Hv.
  { intros Hx. unfold sview. rewrite <- (proj1 Hk). apply text_read, Hp. by right. }
  unfold fs_read. rewrite (M_bind_ok _ _ _ (read_file_text (world s1) p) s1) by done.
  destruct (read_file_text (world s1) p) as [c|e].
  { exists (Some c), s1. split_and!; [done|done|intros Hx; by rewrite Hv|done]. }
  destruct (is_not_found e).
  { exists None, s1. split_and!; [done|done|intros Hx; by rewrite Hv|done]. }
  step He2. exists None, s2. split_and!; [done|by eapply keeps_trans|naive_solver|].
  intros Hs. rewrite (proj1 Hk2). apply Hp. by eapply keeps_sure.
Qed.

Lemma write_effect w p c r w' :
  plain w p -> write_file w p c = (r, w') ->
  (forall q, q <> p -> text w' q = text w q) /\ (r = Ok tt -> (text w' : view) ≡ upd p (Some c) (text w)).
Proof.
  intros Hp Hw. assert (forall q, q <> p -> text w' q = text w q) as Hf
    by (intros q Hq; by eapply text_write_frame).
  split; [done|]. intros -> q. unfold upd. destruct (decide (q = p)) as [->|]; [|by apply Hf].
  by eapply text_write.
Qed.

(** A write to a plain path that succeeds has its effect and leaves plain paths
    plain. *)
Definition written (p : path) (c : str) (s s' : state) : Prop :=
  plain (world s) p -> sview s' ≡ upd p (Some c) (sview s) /\ forall q, plain (world s) q -> plain (world s') q.

Lemma write_retry_spec p c s :
  exists r s', write_file_with_missing_parent_retry p c s = Some (r, s') /\ delta s' = delta s /\
    (r = Ok tt -> written p c s s').
Proof.
  unfold write_file_with_missing_parent_retry, mbind, M_bind. unfold fs_write at 1.
  destruct (write_file (world s) p c) as [[[]|e] w1] eqn:Hw1.
  { eexists _, _. split; [reflexivity|]. split; [done|]. intros _ Hp. split; [by apply (write_effect _ _ _ _ _ Hp Hw1)|].
    intros q. simpl. by eapply (plain_write (text := text)). }
  destruct (is_not_found e); [|eexists _, _; split; [reflexivity|]; done].
  assert (forall w2, (forall q, text w2 q = text w1 q) -> (forall q, plain w1 q -> plain w2 q) ->
    exists r s', fs_write p c (mkSt w2 (delta s)) = Some (Ok r, s') /\ delta s' = delta s /\ (r = Ok tt -> written p c s s')) as Hretry.
  { intros w2 Hv2 Hp2. unfold fs_write; simpl. destruct (write_file w2 p c) as [r w3] eqn:Hw3.
    exists r, (mkSt w3 (delta s)). split_and!; [done|done|]. intros Hr Hp.
    assert (forall q, plain (world s) q -> plain w2 q) as Hp02 by (intros q Hq; apply Hp2; by eapply (plain_write (text := text))).
    pose proof (write_effect _ _ _ _ _ Hp Hw1) as [Hf1 _]. pose proof (write_effect _ _ _ _ _ (Hp02 _ Hp) Hw3) as [_ Hw3'].
    split.
    - intros q. unfold sview; simpl. rewrite (Hw3' Hr q). unfold upd. destruct (decide (q = p)); [done|].
      rewrite Hv2. by apply Hf1.
    - intros q Hq. simpl. eapply (plain_write (text := text)); [exact Hw3|by apply Hp02..]. }
  destruct (parent p) as [d|]; simpl.
  - unfold fs_create_directory; simpl. destruct (create_directory w1 d (mkCreate true)) as [r2 w2] eqn:Hd.
    unfold try_. destruct r2; simpl; [|eexists _, _; split; [reflexivity|]; done].
    destruct (Hretry w2) as (r & s' & -> & Hd' & Hr);
      [intros q; by eapply text_create_directory|intros q; by eapply (plain_create_directory (text := text))|].
    eexists _, s'. split; [reflexivity|]. split; [done|]. destruct r as [[]|]; [|done]. intros _. by apply Hr.
  - destruct (Hretry w1 ltac:(done) ltac:(done)) as (r & s' & -> & Hd' & Hr). eexists _, s'. split; [reflexivity|]. split; [done|].
    destruct r as [[]|]; [|done]. intros _. by apply Hr.
Qed.

(** A guarded write either has its effect or makes the delta inexact. *)
Lemma try_write_spec p c (m : M W unit) s :
  (exists r s', m s = Some (r, s') /\ delta s' = delta s /\ (r = Ok tt -> written p c s s')) ->
  exists r s', try_write m s = Some (r, s') /\ changes (delta s') = changes (delta s) /\
    match r with
    | Ok _ => exact (delta s') = exact (delta s) /\ written p c s s'
    | Err _ => exact (delta s') = false
    end.
Proof.
  intros (r & s' & Hm & Hd & Hv). unfold try_write. rewrite Hm. destruct r as [[]|e].
  - exists (Ok tt), s'. rewrite Hd. split_and!; [done|done|done|]. by apply Hv.
  - eexists _, _. split; [reflexivity|]. simpl. by rewrite Hd.
Qed.

Lemma ensure_not_directory_keeps p s : exists r, ensure_not_directory p s = Some (Ok r, s).
Proof. unfold ensure_not_directory, mbind, M_bind, fs_metadata. eauto. Qed.

Lemma remove_effect p s :
  exists r s', fs_remove p (mkRemove false false) s = Some (Ok r, s') /\ delta s' = delta s /\
    (plain (world s) p -> plain (world s') p /\
     match r with
     | Ok _ => sview s' ≡ upd p None (sview s)
     | Err _ => (forall q, q <> p -> sview s' q = sview s q) /\ (sview s' p = sview s p \/ sview s' p = None)
     end).
Proof.
  unfold fs_remove. destruct (remove (world s) p _) as [r w'] eqn:Hr. exists r, (mkSt w' (delta s)).
  split_and!; [done|done|]. intros Hp. split; [by eapply (plain_remove (text := text))|].
  assert (forall q, q <> p -> text w' q = text (world s) q) as Hf
    by (intros q Hq; by eapply text_remove_frame).
  destruct r as [[]|e].
  - intros q. unfold upd. destruct (decide (q = p)) as [->|]; [by apply (text_remove (text := text) (plain := plain) (world s))|by apply Hf].
  - split; [done|]. by apply (text_remove_failed (text := text) (plain := plain) (world s) p e).
Qed.

Lemma side_effect_free_spec p o s :
  exists b, remove_failure_was_side_effect_free p o s = Some (Ok b, s) /\
    (b = true -> plain (world s) p -> exists c, o = Some c /\ sview s p = Some c).
Proof.
  destruct o as [c|]; simpl; [|by exists false].
  unfold mbind, M_bind, fs_read. eexists. split; [reflexivity|].
  intros Hb Hp. exists c. split; [done|]. unfold sview. rewrite (text_read (plain := plain)) by done. unfold file_text.
  destruct (read_file_text (world s) p) as [t|]; [|done]. bool_to_prop. by subst.
Qed.

Lemma derive_spec p chunks s :
  exists r, derive_new_contents_from_chunks p chunks s = Some (r, s) /\
    match r with
    | Ok a => (plain (world s) p -> sview s p = Some (original_contents a)) /\
              derive_new_contents (display p) (original_contents a) chunks = Some (Ok a)
    | Err _ => True
    end.
Proof.
  unfold derive_new_contents_from_chunks. rewrite (M_bind_ok _ _ _ (read_file_text (world s) p) s) by done.
  destruct (read_file_text (world s) p) as [t|e] eqn:Hr; [|by eexists].
  destruct (derive_new_contents_total (display p) t chunks) as ([a|e] & Hd & Ht); rewrite Hd; [|by eexists].
  subst t. eexists. split; [reflexivity|]. split; [|done]. intros Hp. unfold sview.
  rewrite (text_read (plain := plain)) by done. unfold file_text. by rewrite Hr.
Qed.

(** ** Whole hunks *)

(** The delta grew by changes that, if it is exact, were committed. *)
Definition tracked (s s' : state) : Prop :=
  exists cs, changes (delta s') = changes (delta s) ++ cs /\
    (exact (delta s') = true -> exact (delta s) = true /\ commits (sview s) cs (sview s')).

Lemma tracked_trans s1 s2 s3 : tracked s1 s2 -> tracked s2 s3 -> tracked s1 s3.
Proof.
  intros (cs1 & Hc1 & He1) (cs2 & Hc2 & He2). exists (cs1 ++ cs2).
  split; [by rewrite Hc2, Hc1, app_assoc|]. intros He. destruct (He2 He) as [He' Hcm2].
  destruct (He1 He') as [He'' Hcm1]. split; [done|]. by eapply commits_app.
Qed.
Lemma tracked_sure s s' : tracked s s' -> sure s' -> sure s.
Proof. unfold sure. intros (cs & _ & He) [?|?]; [by left|right; by apply He]. Qed.

Lemma keeps_sview s s' : keeps s s' -> sview s' = sview s.
Proof. unfold sview. by intros [-> _]. Qed.

Lemma keeps_tracked s s' : keeps s s' -> tracked s s'.
Proof.
  intros Hk. exists []. rewrite app_nil_r. destruct Hk as (Hw & Hc & He). split; [done|].
  intros Hx. split; [by apply He|]. simpl. unfold sview. by rewrite Hw.
Qed.

(** An inexact delta that only grew claims nothing. *)
Lemma inexact_tracked s s' cs :
  changes (delta s') = changes (delta s) ++ cs -> exact (delta s') = false -> tracked s s'.
Proof. intros Hc He. exists cs. split; [done|]. by rewrite He. Qed.

Definition hunk_post {A} (effect : option view) (s : state) (o : option (result anyhow_Error A * state)) : Prop :=
  exists r s', o = Some (r, s') /\ tracked s s' /\
    match r with Ok _ => sure s' -> exists v, effect = Some v /\ sview s' ≡ v | Err _ => True end.

Lemma hunk_post_err {A} effect s e s' :
  tracked s s' -> @hunk_post A effect s (Some (Err e, s')).
Proof. intros Ht. by exists (Err e), s'. Qed.

Lemma hunk_post_ok {A} effect v s (a : A) s' :
  tracked s s' -> (sure s' -> effect = Some v /\ sview s' ≡ v) -> hunk_post effect s (Some (Ok a, s')).
Proof. intros Ht Hv. exists (Ok a), s'. split_and!; [done|done|]. intros Hs. exists v. by apply Hv. Qed.

(** A prefix of a hunk that only looks around. *)
Lemma hunk_post_keeps {A} effect s s1 (o : option (result anyhow_Error A * state)) :
  keeps s s1 -> hunk_post effect s1 o -> hunk_post effect s o.
Proof.
  intros Hk (r & s' & -> & Ht & Hr). exists r, s'. split_and!; [done| |done].
  eapply tracked_trans; [by apply keeps_tracked|done].
Qed.

Lemma push_tracked s s1 c :
  changes (delta s1) = changes (delta s) -> exact (delta s1) = exact (delta s) ->
  (exact (delta s) = true -> commits (sview s) [c] (sview s1)) ->
  tracked s (mkSt (world s1) (mkDelta (changes (delta s1) ++ [c]) (exact (delta s1)))).
Proof. intros Hc He Hcm. exists [c]. simpl. rewrite Hc, He. split; [done|]. intros Hx. split; [done|]. by apply Hcm. Qed.

Lemma apply_add_post p affected contents aff s :
  hunk_post (Some (upd p (Some contents) (sview s))) s (apply_add p affected contents aff s).
Proof.
  unfold apply_add. destruct (read_optional_spec p s) as (o & s1 & Hr & Hk & Ho & Hp). step Hr.
  eapply hunk_post_keeps; [exact Hk|]. rewrite <- (keeps_sview _ _ Hk) in *.
  destruct (try_write_spec p contents (write_file_with_missing_parent_retry p contents) s1 (write_retry_spec _ _ _))
    as (r & s2 & Hw & Hc & Hx). destruct r as [[]|e].
  - step Hw. destruct Hx as [He Hv].
    assert (tracked s1 (mkSt (world s2) (mkDelta (changes (delta s2) ++ [mkChange p (AddedFile contents o)]) (exact (delta s2))))) as Ht.
    { apply push_tracked; [done|done|]. intros Hx1. rewrite (proj1 (Hv (Hp (or_intror Hx1)))). apply commits_add. symmetry. by apply Ho. }
    eapply hunk_post_ok; [exact Ht|]. intros Hs. split; [reflexivity|]. apply Hv, Hp. by eapply tracked_sure.
  - step_err Hw. apply hunk_post_err. eapply (inexact_tracked _ _ []); [by rewrite app_nil_r|done].
Qed.

(** A failed removal is tracked: either the check sees the old text, or the
    delta becomes inexact. *)
Lemma failed_remove_post {A} effect p o e cs (s s1 s2 : state) :
  changes (delta s1) = changes (delta s) ++ cs -> exact (delta s1) = exact (delta s) -> delta s2 = delta s1 ->
  (exact (delta s) = true -> plain (world s2) p) ->
  (forall c, exact (delta s) = true -> o = Some c -> sview s2 p = Some c -> commits (sview s) cs (sview s2)) ->
  @hunk_post A effect s
    ((b ← remove_failure_was_side_effect_free p o; and_exact b;; try_ (Err e)) s2).
Proof.
  intros Hc He Hd Hpl Hcm. destruct (side_effect_free_spec p o s2) as (b & Hb & Hfree). step Hb.
  apply hunk_post_err. exists cs. simpl. rewrite Hd. split; [done|].
  rewrite He. intros [Hx Hb']%andb_true_iff. split; [done|].
  destruct (Hfree Hb' (Hpl Hx)) as (c & Hoc & Hv). by eapply Hcm.
Qed.

Lemma apply_delete_post p affected aff s :
  hunk_post (Some (upd p None (sview s))) s (apply_delete p affected aff s).
Proof.
  unfold apply_delete. destruct (note_keeps p s) as (s1 & Hn & Hk & Hp1). step Hn.
  eapply hunk_post_keeps; [exact Hk|]. rewrite <- (keeps_sview _ _ Hk). clear Hn Hk.
  rewrite (M_bind_ok _ _ _ (read_file_text (world s1) p) s1) by done. cbn zeta.
  set (content := ok (read_file_text (world s1) p)).
  assert (exists s2, (if bool_decide (content = None) then and_exact false else mret tt) s1 = Some (Ok tt, s2)
    /\ keeps s1 s2 /\ (exact (delta s2) = true -> content <> None)) as (s2 & Hm & Hk & Hx).
  { case_bool_decide; [|by exists s1]. destruct (and_exact_keeps s1 false) as (s2 & ? & ? & ?).
    exists s2. split_and!; [done|done|naive_solver]. }
  step Hm. eapply hunk_post_keeps; [exact Hk|].
  assert (sure s2 -> plain (world s2) p) as Hp by (intros Hs; rewrite (proj1 Hk); apply Hp1; by eapply keeps_sure).
  assert (sure s2 -> content = sview s2 p) as Hcv.
  { intros Hs. unfold sview. rewrite (text_read (plain := plain)) by by apply Hp. unfold file_text. by rewrite (proj1 Hk). }
  rewrite <- (keeps_sview _ _ Hk). clearbody content. clear Hm Hk Hp1.
  destruct (ensure_not_directory_keeps p s2) as ([[]|e] & He); step He;
    [|by apply hunk_post_err, keeps_tracked].
  rewrite (M_bind_ok _ _ _ tt s2) by done.
  destruct (remove_effect p s2) as (r & s3 & Hr & Hd & Hv). step Hr. destruct r as [[]|e]; cbn [with_context map_err].
  - destruct content as [c|].
    + assert (tracked s2 (mkSt (world s3) (mkDelta (changes (delta s3) ++ [mkChange p (DeletedFile c)]) (exact (delta s3))))) as Ht.
      { apply push_tracked; [by rewrite Hd|by rewrite Hd|]. intros Hx2. destruct (Hv (Hp (or_intror Hx2))) as [_ Hv'].
        rewrite Hv'. apply commits_delete. symmetry. apply Hcv. by right. }
      eapply hunk_post_ok; [exact Ht|]. intros Hs. split; [reflexivity|]. apply Hv, Hp. by eapply tracked_sure.
    + assert (tracked s2 s3) as Ht.
      { eapply (inexact_tracked _ _ []); [by rewrite app_nil_r, Hd|]. rewrite Hd.
        destruct (exact (delta s2)); [by destruct Hx|done]. }
      eapply hunk_post_ok; [exact Ht|]. intros Hs. split; [reflexivity|]. apply Hv, Hp. by eapply tracked_sure.
  - eapply (failed_remove_post _ _ _ _ [] s2 s2); [by rewrite app_nil_r|done|done|intros Hx2; by apply Hv, Hp; right|].
    intros c Hx2 Hoc Hc. destruct (Hv (Hp (or_intror Hx2))) as [_ [Hf _]].
    simpl. intros q. destruct (decide (q = p)) as [->|Hq]; [rewrite Hc, <- Hoc; apply Hcv; by right|]. by apply Hf.
Qed.

Lemma apply_move_post p d a s :
  (sure s -> plain (world s) p /\ sview s p = Some (original_contents a)) ->
  hunk_post (Some (upd p None (upd d (Some (new_contents a)) (sview s)))) s (apply_move p d a s).
Proof.
  intros Hps. unfold apply_move. destruct (read_optional_spec d s) as (o & s1 & Hr & Hk & Ho & Hd1). step Hr.
  eapply hunk_post_keeps; [exact Hk|]. rewrite <- (keeps_sview _ _ Hk) in *.
  assert (sure s1 -> plain (world s1) p /\ sview s1 p = Some (original_contents a)) as Hp.
  { intros Hs. rewrite (proj1 Hk). apply Hps. by eapply keeps_sure. }
  clear Hr Hk Hps.
  destruct (try_write_spec d (new_contents a) (write_file_with_missing_parent_retry d (new_contents a)) s1
    (write_retry_spec _ _ _)) as (r & s2 & Hw & Hc & Hx). destruct r as [[]|e]; [|].
  2:{ step_err Hw. apply hunk_post_err. eapply (inexact_tracked _ _ []); [by rewrite app_nil_r|done]. }
  step Hw. destruct Hx as [He Hv].
  rewrite (M_bind_ok _ _ _ (length (changes (delta s2))) s2) by done.
  set (c1 := mkChange d (AddedFile (new_contents a) o)).
  set (s3 := mkSt (world s2) (mkDelta (changes (delta s2) ++ [c1]) (exact (delta s2)))).
  rewrite (M_bind_ok _ _ _ tt s3) by done. cbn zeta.
  assert (sure s1 -> sview s3 ≡ upd d (Some (new_contents a)) (sview s1)) as Hv3 by (intros Hs; by apply Hv, Hd1).
  assert (sure s1 -> plain (world s3) p) as Hp3 by (intros Hs; apply Hv; [by apply Hd1|by apply Hp]).
  assert (exact (delta s1) = true -> commits (sview s1) [c1] (sview s3)) as Hcm.
  { intros Hx1. rewrite Hv3 by by right. apply commits_add. symmetry. by apply Ho. }
  destruct (ensure_not_directory_keeps p s3) as ([[]|e] & He3); step He3;
    [|apply hunk_post_err; by apply push_tracked].
  rewrite (M_bind_ok _ _ _ tt s3) by done.
  destruct (remove_effect p s3) as (r & s4 & Hr & Hd & Hv4). step Hr. destruct r as [[]|e]; cbn [with_context map_err].
  - unfold set_change. rewrite bool_decide_eq_true_2 by (rewrite Hd; simpl; rewrite length_app; simpl; lia).
    match goal with |- hunk_post _ _ (Some (_, ?s5)) =>
      assert (sure s1 -> sview s5 ≡ upd p None (upd d (Some (new_contents a)) (sview s1))) as Hv5 end.
    { intros Hs. destruct (Hv4 (Hp3 Hs)) as [_ Hv4']. unfold sview in *; simpl. by rewrite Hv4', Hv3. }
    match goal with |- hunk_post _ _ (Some (_, ?s5)) => assert (tracked s1 s5) as Ht end.
    { eexists [_]. simpl. rewrite Hd. simpl. rewrite insert_app_r_alt, Nat.sub_diag by lia. simpl.
      split; [by rewrite Hc|]. rewrite He. intros Hx. split; [done|].
      rewrite Hv5 by by right. apply commits_move; [apply Hp; by right|]. symmetry. by apply Ho. }
    eapply hunk_post_ok; [exact Ht|]. intros Hs. split; [reflexivity|]. apply Hv5. by eapply tracked_sure.
  - eapply (failed_remove_post _ _ _ _ [c1] s1 s3); [by simpl; rewrite Hc|done|done|intros Hx1; by apply Hv4, Hp3; right|].
    intros c Hx [= <-] Hpc. destruct (Hv4 (Hp3 (or_intror Hx))) as [_ [Hf Hp4]].
    enough (sview s4 ≡ sview s3) as -> by by apply Hcm.
    intros q. destruct (decide (q = p)) as [->|]; [|by apply Hf]. destruct Hp4 as [Heq|Heq]; [done|congruence].
Qed.

Lemma apply_update_post p affected dest chunks aff s :
  hunk_post
    (original ← sview s p;
     match derive_new_contents (display p) original chunks with
     | Some (Ok a) =>
         Some match dest with
              | None => upd p (Some (new_contents a)) (sview s)
              | Some d => upd p None (upd d (Some (new_contents a)) (sview s))
              end
     | _ => None
     end) s (apply_update p affected dest chunks aff s).
Proof.
  unfold apply_update. destruct (note_keeps p s) as (s1 & Hn & Hk & Hp1). step Hn.
  eapply hunk_post_keeps; [exact Hk|]. rewrite <- (keeps_sview _ _ Hk). clear Hn Hk.
  destruct (derive_spec p chunks s1) as ([a|e] & Hd & Ha);
    [step Hd|step_err Hd; by apply hunk_post_err, keeps_tracked].
  destruct Ha as [Hp Ha].
  set (eff := match dest with
              | None => upd p (Some (new_contents a)) (sview s1)
              | Some d => upd p None (upd d (Some (new_contents a)) (sview s1))
              end).
  assert (forall (m : M W unit), hunk_post (Some eff) s1 (m s1) ->
    hunk_post (original ← sview s1 p;
      match derive_new_contents (display p) original chunks with
      | Some (Ok a) => Some match dest with
          | None => upd p (Some (new_contents a)) (sview s1)
          | Some d => upd p None (upd d (Some (new_contents a)) (sview s1)) end
      | _ => None end) s1
      ((m;; mret (mkAffected (added aff) (modified aff ++ [affected]) (deleted aff))) s1)) as Hbind.
  { intros m ([[]|e] & s2 & Hm & Ht & Hr); [step Hm|step_err Hm; by apply hunk_post_err].
    eapply (hunk_post_ok _ eff); [exact Ht|]. intros Hs. destruct (Hr Hs) as (v & [= <-] & Hv). split; [|done].
    rewrite Hp by (apply Hp1; by eapply tracked_sure). cbn [mbind option_bind]. by rewrite Ha. }
  apply Hbind. unfold eff. destruct dest as [d|].
  { apply apply_move_post. intros Hs. split; [by apply Hp1|by apply Hp, Hp1]. }
  destruct (try_write_spec p (new_contents a)
    (r ← fs_write p (new_contents a); try_ (with_context (lit "Failed to write file " ++ display p) r)) s1)
    as ([[]|e] & s2 & Hw & Hc & Hx).
  { unfold mbind, M_bind, fs_write, try_. destruct (write_file (world s1) p (new_contents a)) as [r w'] eqn:Hw.
    eexists _, _. split; [reflexivity|]. split; [done|]. destruct r as [[]|]; [|done]. intros _ Hpl.
    split; [by apply (write_effect _ _ _ _ _ Hpl Hw)|]. intros q. simpl. by eapply (plain_write (text := text)). }
  - step Hw. destruct Hx as [He Hv].
    eapply hunk_post_ok.
    + apply push_tracked; [done|done|]. intros Hx1. rewrite (proj1 (Hv (Hp1 (or_intror Hx1)))). apply commits_update. by apply Hp, Hp1; right.
    + intros Hs. split; [reflexivity|]. apply Hv, Hp1. unfold sure in *. simpl in Hs. by rewrite He in Hs.
  - step_err Hw. apply hunk_post_err. eapply (inexact_tracked _ _ []); [by rewrite app_nil_r|done].
Qed.

Lemma apply_hunk_post cwd h aff s :
  hunk_post (hunk_effect home cwd h (sview s)) s (apply_hunk home cwd h aff s).
Proof.
  destruct h as [q c|q|q mv chunks]; cbn [apply_hunk hunk_effect].
  - apply apply_add_post.
  - apply apply_delete_post.
  - pose proof (apply_update_post (resolve_path home cwd (UpdateFile q mv chunks))
      (hunk_path (UpdateFile q mv chunks))
      ((fun dest => resolve_path_against_base home dest cwd) <$> mv) chunks aff s) as Hu.
    destruct mv; exact Hu.
Qed.

Lemma hunk_effect_equiv cwd h (v v' u : view) :
  v ≡ v' -> hunk_effect home cwd h v = Some u ->
  exists u', hunk_effect home cwd h v' = Some u' /\ u ≡ u'.
Proof.
  intros Hv. destruct h as [q c|q|q mv chunks]; cbn [hunk_effect].
  - intros [= <-]. eexists. split; [reflexivity|]. by rewrite Hv.
  - intros [= <-]. eexists. split; [reflexivity|]. by rewrite Hv.
  - rewrite (Hv _). destruct (v' _) as [t|]; [|done]. cbn [mbind option_bind].
    destruct (derive_new_contents _ _ _) as [[a|]|]; [|done|done].
    intros [= <-]. eexists. split; [reflexivity|]. destruct mv; by rewrite Hv.
Qed.

Lemma patch_effect_equiv cwd hs (v v' u : view) :
  v ≡ v' -> patch_effect home cwd hs v = Some u ->
  exists u', patch_effect home cwd hs v' = Some u' /\ u ≡ u'.
Proof.
  revert v v'. induction hs as [|h hs IH]; intros v v' Hv; cbn [patch_effect].
  - intros [= <-]. by exists v'.
  - destruct (hunk_effect home cwd h v) as [u1|] eqn:He; [|done].
    destruct (hunk_effect_equiv _ _ _ _ _ Hv He) as (u1' & -> & Hu). by apply IH.
Qed.

Lemma apply_hunk_loop_post cwd hs aff s :
  hunk_post (patch_effect home cwd hs (sview s)) s (apply_hunk_loop home cwd hs aff s).
Proof.
  revert aff s. induction hs as [|h hs IH]; intros aff s; cbn [apply_hunk_loop patch_effect].
  - eapply hunk_post_ok; [by apply keeps_tracked|]. intros _. split; [reflexivity|done].
  - destruct (apply_hunk_post cwd h aff s) as ([aff1|e] & s1 & Hh & Ht & Hr);
      [step Hh|step_err Hh; by apply hunk_post_err].
    destruct (IH aff1 s1) as (r & s2 & -> & Ht2 & Hr2). exists r, s2.
    split_and!; [done|by eapply tracked_trans|]. destruct r as [a|]; [|done]. intros Hsure.
    destruct (Hr (tracked_sure _ _ Ht2 Hsure)) as (v & Hv & Hs). rewrite Hv. cbn [mbind option_bind].
    destruct (Hr2 Hsure) as (u & Hu & Hs2). destruct (patch_effect_equiv _ _ _ _ _ Hs Hu) as (u' & -> & Huu).
    exists u'. split; [done|]. by rewrite Hs2.
Qed.

Lemma apply_hunks_to_files_post cwd hs s :
  hunk_post (patch_effect home cwd hs (sview s)) s (apply_hunks_to_files home cwd hs s).
Proof.
  unfold apply_hunks_to_files. case_bool_decide; [by apply hunk_post_err, keeps_tracked|].
  apply apply_hunk_loop_post.
Qed.

(** ** The summary *)

Lemma M_bind_Ok_inv {A B} (m : M W A) (f : A -> M W B) s b s' :
  (m ≫= f) s = Some (Ok b, s') -> exists a s1, m s = Some (Ok a, s1) /\ f a s1 = Some (Ok b, s').
Proof. unfold mbind, M_bind. destruct (m s) as [[[a|e] s1]|]; naive_solver. Qed.

Definition affect (h : Hunk) (aff : AffectedPaths) : AffectedPaths :=
  match h with
  | AddFile _ _ => mkAffected (added aff ++ [hunk_path h]) (modified aff) (deleted aff)
  | DeleteFile _ => mkAffected (added aff) (modified aff) (deleted aff ++ [hunk_path h])
  | UpdateFile _ _ _ => mkAffected (added aff) (modified aff ++ [hunk_path h]) (deleted aff)
  end.

Ltac inv_bind H :=
  let a := fresh "a" in let s := fresh "s" in let Hm := fresh "Hm" in
  apply M_bind_Ok_inv in H as (a & s & Hm & H).

Lemma apply_hunk_affects cwd h aff s aff' s' :
  apply_hunk home cwd h aff s = Some (Ok aff', s') -> aff' = affect h aff.
Proof.
  destruct h as [q c|q|q mv chunks]; cbn [apply_hunk affect]; intros Ha.
  - unfold apply_add in Ha. do 3 inv_bind Ha. by injection Ha.
  - unfold apply_delete in Ha. do 6 inv_bind Ha. cbn zeta in Ha.
    match type of Ha with context [with_context ?c ?r] => destruct (with_context c r) end; inv_bind Ha; [by injection Ha|]. by inv_bind Ha.
  - unfold apply_update in Ha. do 3 inv_bind Ha. by injection Ha.
Qed.

Lemma apply_hunk_loop_affects cwd hs aff s aff' s' :
  apply_hunk_loop home cwd hs aff s = Some (Ok aff', s') -> aff' = foldl (fun a h => affect h a) aff hs.
Proof.
  revert aff s. induction hs as [|h hs IH]; intros aff s Ha; cbn [apply_hunk_loop foldl] in *; [by injection Ha|].
  inv_bind Ha. apply apply_hunk_affects in Hm. subst. by eapply IH.
Qed.
End run.

(** On a tree without links. *)
Lemma link_free_post {W} `{FileSystemLaws W} (home : option path) (cwd : path) (hs : list Hunk) (w : W) :
  exists r s, apply_hunks_to_files home cwd hs (mkSt w delta_empty) = Some (r, s) /\
    match r with
    | Ok _ => exists v, patch_effect home cwd hs (view_of w) = Some v /\ view_of (world s) ≡ v
    | Err _ => True
    end.
Proof.
  destruct (apply_hunks_to_files_post file_text (fun _ _ => True) home cwd hs (mkSt w delta_empty)) as (r & s & Ha & _ & Hr).
  exists r, s. split; [done|]. destruct r; [|done]. apply Hr. by left.
Qed.

(** ** Properties *)

Section properties.
Context {W O : Type} `{FileSystemLaws W} `{Writer O}.

(** C1. Functional correctness of a patch: applying hunks never panics, and when
    it succeeds the texts of all files are those that the hunks prescribe one
    after the other ([patch_effect]), and the summary lists the added, modified
    and deleted paths in the order of the hunks. *)
Theorem apply_hunks_to_files_refines (home : option path) (cwd : path) (hs : list Hunk) (w : W) :
  exists r s, apply_hunks_to_files home cwd hs (mkSt w delta_empty) = Some (r, s) /\
    match r with
    | Ok aff =>
        hs <> []
        /\ (exists v, patch_effect home cwd hs (view_of w) = Some v /\ view_of (world s) ≡ v)
        /\ aff = foldl (fun a h => affect h a) (mkAffected [] [] []) hs
    | Err _ => True
    end.
Proof.
  destruct (link_free_post home cwd hs w) as (r & s & Ha & Hr).
  exists r, s. split; [done|]. destruct r as [aff|]; [|done]. unfold apply_hunks_to_files in Ha.
  case_bool_decide; [done|]. split_and!; [done|exact Hr|by eapply apply_hunk_loop_affects].
Qed.

(** A rename onto the file itself loses the file: an update hunk whose
    [Move to] path resolves to the path it updates writes the new contents and
    then removes them, and reports success. *)
Theorem move_to_itself_deletes (home : option path) (cwd : path) (p dest : str)
    (chunks : list UpdateFileChunk) (w : W) aff s :
  resolve_path_against_base home dest cwd = resolve_path_against_base home p cwd ->
  apply_hunks_to_files home cwd [UpdateFile p (Some dest) chunks] (mkSt w delta_empty) = Some (Ok aff, s) ->
  file_text (world s) (resolve_path_against_base home p cwd) = None.
Proof.
  intros Heq Ha.
  destruct (link_free_post home cwd [UpdateFile p (Some dest) chunks] w) as (r & s1 & Ha' & Hr).
  rewrite Ha in Ha'. simplify_eq. destruct Hr as (v & Hv & Hs). cbn [patch_effect hunk_effect] in Hv.
  destruct (view_of w _) as [t|]; [|done]. cbn [mbind option_bind] in Hv.
  destruct (derive_new_contents _ _ _) as [[a|]|]; [|done|done]. cbn [mbind option_bind] in Hv. simplify_eq.
  specialize (Hs (resolve_path_against_base home p cwd)). unfold view_of in Hs. rewrite Hs.
  unfold upd, resolve_path. cbn [hunk_source_path]. by rewrite decide_True.
Qed.
End properties.

(** C11. Faithfulness of the delta, on a file system whose files may be symbolic
    links (in the last component of a path, each reported by [get_metadata]):
    whatever happens in [apply_patch] - success, a patch that does not parse, a
    chunk that does not match, a file system or output error half-way - it does
    not panic, and if the delta it returns is marked exact, then replaying its
    changes on the texts of the files that are not links gives the texts after,
    and reverting them on the texts after gives the texts before.  A delta of
    changes made through a link is marked as not exact. *)
Theorem apply_patch_delta_faithful {W O : Type} `{LinkedFileSystemLaws W} `{Writer O} (home : option path) (patch : str)
    (cwd : path) (io : io_state W O) :
  exists r io', apply_patch home patch cwd io = Some (r, io') /\
    let d := match r with Ok d => d | Err f => failure_delta f end in
    exact d = true ->
    plain_view (io_world io') ≡ replay (changes d) (plain_view (io_world io))
    /\ revert (changes d) (plain_view (io_world io')) ≡ plain_view (io_world io).
Proof.
  unfold apply_patch. destruct (parse_patch_text_total patch (if PARSE_IN_STRICT_MODE then Strict else Lenient)) as [r Hp].
  change (parse_patch_text _ _) with (parse_patch patch) in Hp. rewrite Hp. destruct r as [args|e].
  2:{ destruct (writeln (stderr io) _) as [[[]|e2] err]; eexists _, _; (split; [reflexivity|]); done. }
  unfold apply_hunks.
  destruct (apply_hunks_to_files_post plain_text _ home cwd (hunks args) (mkSt (io_world io) delta_empty))
    as (r & s & -> & (cs & Hc & He) & _). simpl in Hc.
  assert (exact (delta s) = true ->
    plain_view (world s) ≡ replay (changes (delta s)) (plain_view (io_world io))
    /\ revert (changes (delta s)) (plain_view (world s)) ≡ plain_view (io_world io)) as Hd.
  { intros Hx. rewrite Hc. destruct (He Hx) as [_ Hcm]. split; [by apply commits_replay|by apply commits_revert]. }
  destruct r as [aff|e].
  - destruct (print_summary aff (stdout io)) as [[[]|e2] out]; eexists _, _; (split; [reflexivity|]); exact Hd.
  - destruct (writeln (stderr io) _) as [[[]|e2] err]; eexists _, _; (split; [reflexivity|]); exact Hd.
Qed.

(** ** Witnesses: an in-memory file system and output buffers *)

#[export] Instance vec_writer : Writer (list str) := fun out line => (Ok tt, out ++ [line]).

Definition demo_cwd : path := [RootDir; Normal (lit "w")].
Definition demo_world : MemFs :=
  <[demo_cwd := MemDir]>
  (<[demo_cwd ++ [Normal (lit "a.txt")] := MemFile (lit "one" ++ [LF] ++ lit "two" ++ [LF])]>
  (<[demo_cwd ++ [Normal (lit "b.txt")] := MemFile (lit "bye" ++ [LF])]> ∅)).

Definition demo_hunks : list Hunk :=
  [AddFile (lit "sub/new.txt") (lit "hello" ++ [LF]);
   UpdateFile (lit "a.txt") (Some (lit "./c.txt"))
     [mkChunk None [lit "two"] [lit "TWO"] false];
   DeleteFile (lit "b.txt")].

Definition demo_patch : str :=
  join [LF] [lit "*** Begin Patch"; lit "*** Add File: sub/new.txt"; lit "+hello";
             lit "*** Update File: a.txt"; lit "*** Move to: ./c.txt"; lit "@@"; lit "-two"; lit "+TWO";
             lit "*** Delete File: b.txt"; lit "*** End Patch"].

Lemma apply_hunks_to_files_refines_witness :
  (exists r s, apply_hunks_to_files None demo_cwd demo_hunks (mkSt demo_world delta_empty) = Some (r, s) /\
    match r with
    | Ok aff =>
        demo_hunks <> []
        /\ (exists v, patch_effect None demo_cwd demo_hunks (view_of demo_world) = Some v
                     /\ view_of (world s) ≡ v)
        /\ aff = foldl (fun a h => affect h a) (mkAffected [] [] []) demo_hunks
    | Err _ => True
    end)
  /\ match apply_hunks_to_files None demo_cwd demo_hunks (mkSt demo_world delta_empty) with
     | Some (Ok aff, s) =>
         aff = mkAffected [lit "sub/new.txt"] [lit "./c.txt"] [lit "b.txt"]
         /\ file_text (world s) (demo_cwd ++ [Normal (lit "c.txt")])
            = Some (lit "one" ++ [LF] ++ lit "TWO" ++ [LF])
         /\ file_text (world s) (demo_cwd ++ [Normal (lit "a.txt")]) = None
         /\ exact (delta s) = true
     | _ => False
     end.
Proof.
  split; [apply (apply_hunks_to_files_refines None demo_cwd demo_hunks demo_world)|].
  vm_compute. repeat split.
Defined.

(** The same files beside a link [l.txt] to [b.txt]. *)
Definition demo_links : LinkFs :=
  <[demo_cwd := LinkDir]>
  (<[demo_cwd ++ [Normal (lit "a.txt")] := LinkFile (lit "one" ++ [LF] ++ lit "two" ++ [LF])]>
  (<[demo_cwd ++ [Normal (lit "b.txt")] := LinkFile (lit "bye" ++ [LF])]>
  (<[demo_cwd ++ [Normal (lit "l.txt")] := LinkTo (demo_cwd ++ [Normal (lit "b.txt")])]> ∅))).
Definition link_patch : str :=
  join [LF] [lit "*** Begin Patch"; lit "*** Update File: l.txt"; lit "@@"; lit "-bye"; lit "+hi"; lit "*** End Patch"].

Lemma apply_patch_delta_faithful_witness :
  (exists r io', apply_patch None demo_patch demo_cwd (mkIoState demo_links [] []) = Some (r, io') /\
    let d := match r with Ok d => d | Err f => failure_delta f end in
    exact d = true ->
    plain_view (io_world io') ≡ replay (changes d) (plain_view demo_links)
    /\ revert (changes d) (plain_view (io_world io')) ≡ plain_view demo_links)
  /\ match apply_patch None demo_patch demo_cwd (mkIoState demo_links [] []) with
     | Some (Ok d, io') =>
         exact d = true /\ length (changes d) = 3%nat
         /\ stdout io' = [lit "Success. Updated the following files:"; lit "A sub/new.txt";
                          lit "M ./c.txt"; lit "D b.txt"]
     | _ => False
     end.
Proof.
  split; [apply (apply_patch_delta_faithful None demo_patch demo_cwd (mkIoState demo_links [] []))|].
  vm_compute. repeat split.
Defined.

(** An update through the link changes [b.txt], which the delta does not name:
    it is not exact. *)
Example update_through_link_inexact :
  match apply_patch None link_patch demo_cwd (mkIoState demo_links [] []) with
  | Some (Ok d, io') =>
      exact d = false /\ map change_path (changes d) = [demo_cwd ++ [Normal (lit "l.txt")]]
      /\ plain_view (io_world io') (demo_cwd ++ [Normal (lit "b.txt")]) = Some (lit "hi" ++ [LF])
  | _ => False
  end.
Proof. vm_compute. repeat split. Qed.

(** The world after [a.txt] was moved onto itself. *)
Definition demo_self_move :=
  apply_hunks_to_files None demo_cwd
    [UpdateFile (lit "a.txt") (Some (lit "./a.txt")) [mkChunk None [lit "two"] [lit "TWO"] false]]
    (mkSt demo_world delta_empty).

Definition run_ok {W A} (o : option (result anyhow_Error A * st W)) : bool :=
  match o with Some (Ok _, _) => true | _ => false end.

Lemma move_to_itself_deletes_witness :
  exists aff s, demo_self_move = Some (Ok aff, s)
    /\ bool_decide (file_text demo_world (demo_cwd ++ [Normal (lit "a.txt")]) = None) = false
    /\ file_text (world s) (resolve_path_against_base None (lit "a.txt") demo_cwd) = None.
Proof.
  assert (run_ok demo_self_move = true) as Hok by (vm_compute; reflexivity).
  remember demo_self_move as o eqn:Ho. destruct o as [[[aff|e] s]|]; [|discriminate Hok|discriminate Hok].
  exists aff, s. split; [reflexivity|]. split; [vm_compute; reflexivity|].
  apply (move_to_itself_deletes None demo_cwd (lit "a.txt") (lit "./a.txt")
    [mkChunk None [lit "two"] [lit "TWO"] false] demo_world aff s);
    [vm_compute; reflexivity|symmetry; exact Ho].
Defined.
