(* ===== verification/Invocation.v ===== *)
(** * Recognising and verifying an [apply_patch] call: [apply-patch/src/invocation.rs]

    [maybe_parse_apply_patch] recognises a command line as a call of
    [apply_patch] and [verify_apply_patch_args] computes, without writing, the
    changes that a user is asked to approve.  The heredoc extraction, a
    tree-sitter query, and the unified diff of the [similar] crate are
    parameters.  The main theorem relates the approved changes to what
    [apply_hunks_to_files] then does. *)

From S2P Require Import Prelude PatchParser Replacements AbsolutePath FileSystem ApplyPatch.

(** ** Data *)

Definition APPLY_PATCH_COMMANDS : list str := [lit "apply_patch"; lit "applypatch"].

Inductive ApplyPatchShell : Type := Unix | PowerShell | Cmd.

(** The errors of the grammar loader and of the UTF-8 decoder are their texts. *)
Inductive ExtractHeredocError : Type :=
| CommandDidNotStartWithApplyPatch
| FailedToLoadBashGrammar (e : str)
| HeredocNotUtf8 (e : str)
| FailedToParsePatchIntoAst
| FailedToFindHeredocBody.

#[export] Instance ExtractHeredocError_eq_dec : EqDecision ExtractHeredocError.
Proof. solve_decision. Defined.

Inductive MaybeApplyPatch : Type :=
| MaybeBody (args : ApplyPatchArgs)
| MaybeShellParseError (e : ExtractHeredocError)
| MaybePatchParseError (e : ParseError)
| MaybeNotApplyPatch.

Inductive ApplyPatchFileChange : Type :=
| ProposedAdd (content : str)
| ProposedDelete (content : str)
| ProposedUpdate (unified_diff : str) (move_path : option path) (new_content : str).

Record ApplyPatchAction : Type := mkAction {
  action_changes : gmap path ApplyPatchFileChange;
  action_patch : str;
  action_cwd : path;
}.

Inductive MaybeApplyPatchVerified : Type :=
| VerifiedBody (action : ApplyPatchAction)
| VerifiedShellParseError (e : ExtractHeredocError)
| CorrectnessError (e : ApplyPatchError)
| NotApplyPatch.

Record ApplyPatchFileUpdate : Type := mkUpdate {
  unified_diff_of : str;
  original_content : str;
  update_content : str;
}.

(** ** Shells *)

Definition DOT : char := 46%N.

(** [Path::file_stem] *)
Definition file_stem (p : path) : option str :=
  name ← file_name p;
  match rsplit_once DOT name with
  | Some ([], _) | None => Some name
  | Some (before, _) => Some before
  end.

Definition one_of (s : str) (ts : list str) : bool := existsb (fun t => s =s? t) ts.

Definition classify_shell_name (shell : str) : option str :=
  to_ascii_lowercase <$> file_stem (components shell).

Definition classify_shell (shell flag : str) : option ApplyPatchShell :=
  name ← classify_shell_name shell;
  if one_of name [lit "bash"; lit "zsh"; lit "sh"] && one_of flag [lit "-lc"; lit "-c"] then Some Unix
  else if one_of name [lit "pwsh"; lit "powershell"] && eq_ignore_ascii_case flag (lit "-command") then
    Some PowerShell
  else if (name =s? lit "cmd") && eq_ignore_ascii_case flag (lit "/c") then Some Cmd
  else None.

Definition can_skip_flag (shell flag : str) : bool :=
  match classify_shell_name shell with
  | Some name => one_of name [lit "pwsh"; lit "powershell"] && eq_ignore_ascii_case flag (lit "-noprofile")
  | None => false
  end.

Definition parse_shell_script (argv : list str) : option (ApplyPatchShell * str) :=
  match argv with
  | [shell; flag; script] => (fun t => (t, script)) <$> classify_shell shell flag
  | [shell; skip_flag; flag; script] =>
      if can_skip_flag shell skip_flag then (fun t => (t, script)) <$> classify_shell shell flag
      else None
  | _ => None
  end.

Section invocation.
Context {W : Type} `{ExecutorFileSystem W}.
Context (home : option path).
(** [extract_apply_patch_from_bash]: heredoc body and working directory. *)
Context (extract_apply_patch_from_bash : str -> result ExtractHeredocError (str * option str)).
(** [TextDiff::from_lines(old, new).unified_diff().context_radius(n)] *)
Context (text_diff : str -> str -> nat -> str).

Definition extract_apply_patch_from_shell (shell : ApplyPatchShell) (script : str)
    : result ExtractHeredocError (str * option str) :=
  match shell with
  | Unix | PowerShell | Cmd => extract_apply_patch_from_bash script
  end.

Definition parse_from_shell (argv : list str) : option MaybeApplyPatch :=
  match parse_shell_script argv with
  | Some (shell, script) =>
      match extract_apply_patch_from_shell shell script with
      | Ok (body, workdir) =>
          r ← parse_patch body;
          Some match r with
               | Ok source => MaybeBody (mkArgs (patch source) (hunks source) workdir (environment_id source))
               | Err e => MaybePatchParseError e
               end
      | Err CommandDidNotStartWithApplyPatch => Some MaybeNotApplyPatch
      | Err e => Some (MaybeShellParseError e)
      end
  | None => Some MaybeNotApplyPatch
  end.

Definition maybe_parse_apply_patch (argv : list str) : option MaybeApplyPatch :=
  match argv with
  | [cmd; body] =>
      if one_of cmd APPLY_PATCH_COMMANDS then
        r ← parse_patch body;
        Some match r with
             | Ok source => MaybeBody source
             | Err e => MaybePatchParseError e
             end
      else parse_from_shell argv
  | _ => parse_from_shell argv
  end.

Definition unified_diff_from_chunks_with_context (path_abs : path) (chunks : list UpdateFileChunk)
    (context : nat) (w : W) : option (result ApplyPatchError ApplyPatchFileUpdate) :=
  match read_file_text w path_abs with
  | Err err =>
      Some (Err (ApplyIoError (mkIoError (lit "Failed to read file to update " ++ display path_abs) err)))
  | Ok original =>
      r ← derive_new_contents (display path_abs) original chunks;
      Some match r with
           | Ok a => Ok (mkUpdate (text_diff (original_contents a) (new_contents a) context)
                           (original_contents a) (new_contents a))
           | Err e => Err e
           end
  end.

Definition unified_diff_from_chunks (path_abs : path) (chunks : list UpdateFileChunk) (w : W)
    : option (result ApplyPatchError ApplyPatchFileUpdate) :=
  unified_diff_from_chunks_with_context path_abs chunks 1 w.

(** The change of one hunk, computed on the file system as it is. *)
Definition verify_hunk (effective_cwd : path) (w : W) (hunk : Hunk)
    : option (result ApplyPatchError ApplyPatchFileChange) :=
  let p := resolve_path home effective_cwd hunk in
  match hunk with
  | AddFile _ contents => Some (Ok (ProposedAdd contents))
  | DeleteFile _ =>
      Some match read_file_text w p with
           | Ok content => Ok (ProposedDelete content)
           | Err e => Err (ApplyIoError (mkIoError (lit "Failed to read " ++ display p) e))
           end
  | UpdateFile _ move_path chunks =>
      r ← unified_diff_from_chunks p chunks w;
      Some match r with
           | Ok u => Ok (ProposedUpdate (unified_diff_of u)
                           ((fun d => resolve_path_against_base home d effective_cwd) <$> move_path)
                           (update_content u))
           | Err e => Err e
           end
  end.

Fixpoint verify_loop (effective_cwd : path) (w : W) (hs : list Hunk)
    (changes : gmap path ApplyPatchFileChange)
    : option (result ApplyPatchError (gmap path ApplyPatchFileChange)) :=
  match hs with
  | [] => Some (Ok changes)
  | hunk :: hs' =>
      r ← verify_hunk effective_cwd w hunk;
      match r with
      | Ok c => verify_loop effective_cwd w hs' (<[resolve_path home effective_cwd hunk := c]> changes)
      | Err e => Some (Err e)
      end
  end.

Definition effective_cwd_of (args : ApplyPatchArgs) (cwd : path) : path :=
  match workdir args with
  | Some dir => resolve_path_against_base home dir cwd
  | None => cwd
  end.

Definition verify_apply_patch_args (args : ApplyPatchArgs) (cwd : path) (w : W)
    : option MaybeApplyPatchVerified :=
  let effective_cwd := effective_cwd_of args cwd in
  r ← verify_loop effective_cwd w (hunks args) ∅;
  Some match r with
       | Ok changes => VerifiedBody (mkAction changes (patch args) effective_cwd)
       | Err e => CorrectnessError e
       end.

(** [parse_patch(..).is_ok()] *)
Definition parses (body : str) : bool :=
  match parse_patch body with Some (Ok _) => true | _ => false end.

Definition implicit_invocation (argv : list str) : bool :=
  match argv with [body] => parses body | _ => false end
  || match parse_shell_script argv with Some (_, script) => parses script | None => false end.

Definition maybe_parse_apply_patch_verified (argv : list str) (cwd : path) (w : W)
    : option MaybeApplyPatchVerified :=
  if implicit_invocation argv then Some (CorrectnessError ImplicitInvocation)
  else
    m ← maybe_parse_apply_patch argv;
    match m with
    | MaybeBody args => verify_apply_patch_args args cwd w
    | MaybeShellParseError e => Some (VerifiedShellParseError e)
    | MaybePatchParseError e => Some (CorrectnessError (ApplyParseError e))
    | MaybeNotApplyPatch => Some NotApplyPatch
    end.
End invocation.

(** ** What is approved is what is applied *)

(** The files a hunk writes or removes. *)
Definition touched (home : option path) (cwd : path) (h : Hunk) : list path :=
  resolve_path home cwd h ::
  match h with
  | UpdateFile _ (Some dest) _ => [resolve_path_against_base home dest cwd]
  | _ => []
  end.

(** A proposed change came true between two states of the files. *)
Definition realised (p : path) (c : ApplyPatchFileChange) (before after : view) : Prop :=
  match c with
  | ProposedAdd content => after p = Some content
  | ProposedDelete content => before p = Some content /\ after p = None
  | ProposedUpdate _ None new_content => after p = Some new_content
  | ProposedUpdate _ (Some dest) new_content => after p = None /\ after dest = Some new_content
  end.

Lemma upd_ne (p q : path) t (v : view) : q <> p -> upd p t v q = v q.
Proof. intros Hq. unfold upd. by rewrite decide_False. Qed.
Lemma upd_eq (p : path) t (v : view) : upd p t v p = t.
Proof. unfold upd. by rewrite decide_True. Qed.

Lemma hunk_effect_frame home cwd h v v' q :
  hunk_effect home cwd h v = Some v' -> q ∉ touched home cwd h -> v' q = v q.
Proof.
  intros He Hq. destruct h as [p c|p|p mv chunks]; cbn [hunk_effect] in He.
  - simplify_eq. apply upd_ne. set_solver.
  - simplify_eq. apply upd_ne. set_solver.
  - destruct (v _) as [t|]; [|done]. cbn [mbind option_bind] in He.
    destruct (derive_new_contents _ _ _) as [[a|]|]; [|done|done]. simplify_eq.
    destruct mv as [d|]; cbn [touched] in Hq; rewrite !upd_ne; set_solver.
Qed.

Lemma patch_effect_frame home cwd hs v v' q :
  patch_effect home cwd hs v = Some v' -> q ∉ concat (map (touched home cwd) hs) -> v' q = v q.
Proof.
  revert v. induction hs as [|h hs IH]; intros v He Hq; cbn [patch_effect] in He; [by simplify_eq|].
  destruct (hunk_effect home cwd h v) as [v1|] eqn:Hh; [|done]. cbn [map concat] in Hq.
  rewrite not_elem_of_app in Hq. destruct Hq as [Hq1 Hq2].
  rewrite (IH v1 He Hq2). by eapply hunk_effect_frame.
Qed.

Lemma patch_effect_app home cwd hs1 hs2 v v' :
  patch_effect home cwd (hs1 ++ hs2) v = Some v' ->
  exists v1, patch_effect home cwd hs1 v = Some v1 /\ patch_effect home cwd hs2 v1 = Some v'.
Proof.
  revert v. induction hs1 as [|h hs IH]; intros v; cbn [patch_effect app]; [by exists v|].
  destruct (hunk_effect home cwd h v); [|done]. apply IH.
Qed.

Section agreement.
Context {W : Type} `{ExecutorFileSystem W}.
Context (home : option path) (text_diff : str -> str -> nat -> str).

Lemma verify_loop_lookup cwd (w : W) hs acc m p c :
  verify_loop home text_diff cwd w hs acc = Some (Ok m) -> m !! p = Some c ->
  acc !! p = Some c
  \/ exists h, h ∈ hs /\ p = resolve_path home cwd h /\ verify_hunk home text_diff cwd w h = Some (Ok c).
Proof.
  revert acc. induction hs as [|h hs IH]; intros acc Hv Hm; cbn [verify_loop] in Hv; [left; by simplify_eq|].
  destruct (verify_hunk home text_diff cwd w h) as [[c'|]|] eqn:Hh; [|done|done].
  destruct (IH _ Hv Hm) as [Ha|(h' & Hin & Hp & Hc)].
  - rewrite lookup_insert_Some in Ha. destruct Ha as [[<- <-]|[_ Ha]]; [|by left].
    right. exists h. split_and!; [by left|done|done].
  - right. exists h'. split_and!; [by right|done|done].
Qed.

(** One hunk: computed on [w] and run on texts that agree with [w] on its file. *)
Lemma verify_hunk_realised cwd (w : W) h c v v' :
  verify_hunk home text_diff cwd w h = Some (Ok c) ->
  v (resolve_path home cwd h) = view_of w (resolve_path home cwd h) ->
  NoDup (touched home cwd h) -> hunk_effect home cwd h v = Some v' ->
  realised (resolve_path home cwd h) c (view_of w) v'.
Proof.
  intros Hc Hv Hnd He. destruct h as [q t|q|q mv chunks]; cbn [verify_hunk hunk_effect] in *.
  - simplify_eq. apply upd_eq.
  - simplify_eq. unfold view_of, file_text.
    destruct (read_file_text w _) as [t|] eqn:Hr; simplify_eq/=. split; [by rewrite Hr|apply upd_eq].
  - set (p := resolve_path home cwd (UpdateFile q mv chunks)) in *. rewrite Hv in He. clear Hv.
    unfold view_of, file_text in *.
    unfold unified_diff_from_chunks, unified_diff_from_chunks_with_context in Hc.
    destruct (read_file_text w p) as [t|] eqn:Hr; [|done]. cbn [ok mbind option_bind] in *.
    destruct (derive_new_contents (display p) t chunks) as [[a|]|]; [|done|done].
    cbn [mbind option_bind fmap result_fmap update_content unified_diff_of] in Hc. simplify_eq.
    destruct mv as [d|]; cbn [fmap option_fmap option_map realised]; [|apply upd_eq].
    split; [apply upd_eq|]. rewrite upd_ne; [apply upd_eq|]. intros Heq.
    cbn [touched] in Hnd. apply NoDup_cons in Hnd as [Hnd _]. apply Hnd. subst p. rewrite <- Heq. by left.
Qed.

Lemma verify_hunk_dest cwd (w : W) h d dest n :
  verify_hunk home text_diff cwd w h = Some (Ok (ProposedUpdate d (Some dest) n)) ->
  dest ∈ touched home cwd h.
Proof.
  destruct h as [q t|q|q mv chunks]; cbn [verify_hunk touched]; intros Hc; [done| |].
  - by destruct (read_file_text w _).
  - destruct (unified_diff_from_chunks _ _ _ _) as [[u|]|]; try done. cbn [mbind option_bind] in Hc.
    destruct mv as [dst|]; cbn [fmap option_fmap option_map] in Hc; [|done].
    injection Hc as _ <- _. right. by left.
Qed.

Lemma verified_realised cwd (w : W) hs m v' :
  NoDup (concat (map (touched home cwd) hs)) ->
  verify_loop home text_diff cwd w hs ∅ = Some (Ok m) ->
  patch_effect home cwd hs (view_of w) = Some v' ->
  forall p c, m !! p = Some c -> realised p c (view_of w) v'.
Proof.
  intros Hnd Hv He p c Hm. destruct (verify_loop_lookup _ _ _ _ _ _ _ Hv Hm) as [Ha|(h & Hin & -> & Hc)].
  { by rewrite lookup_empty in Ha. }
  apply list_elem_of_split in Hin as (hs1 & hs2 & ->).
  rewrite map_app, concat_app in Hnd. cbn [map concat] in Hnd.
  apply NoDup_app in Hnd as (_ & Hd1 & Hnd). apply NoDup_app in Hnd as (Hnd & Hd2 & _).
  apply patch_effect_app in He as (v1 & He1 & He2). cbn [patch_effect] in He2.
  destruct (hunk_effect home cwd h v1) as [v2|] eqn:Hh; [|done]. cbn [mbind option_bind] in He2.
  assert (resolve_path home cwd h ∈ touched home cwd h) as Hmem by by left.
  assert (v1 (resolve_path home cwd h) = view_of w (resolve_path home cwd h)) as Hv1.
  { eapply patch_effect_frame; [exact He1|]. intros Hx. apply (Hd1 _ Hx), elem_of_app. by left. }
  pose proof (verify_hunk_realised _ _ _ _ _ _ Hc Hv1 Hnd Hh) as Hr.
  assert (forall q, q ∈ touched home cwd h -> v' q = v2 q) as Hkeep.
  { intros q Hq. eapply patch_effect_frame; [exact He2|]. by apply Hd2. }
  destruct c as [t|t|d [dest|] n]; cbn [realised] in *; rewrite ?(Hkeep _ Hmem); try done.
  destruct Hr as [Hr1 Hr2]. split; [done|]. rewrite Hkeep; [done|]. by eapply verify_hunk_dest.
Qed.
End agreement.

(** ** Properties *)

(** C24. What the user approves is what is applied: if verification accepts a
    patch whose hunks touch pairwise different files, and applying its hunks in
    the verified working directory succeeds, then every proposed change has
    come true: an added file has the proposed content, a deleted one had the
    shown content and is gone, an updated one has the proposed new content, at
    its new place if it is moved. *)
Theorem verified_changes_applied {W} `{FileSystemLaws W} (home : option path)
    (text_diff : str -> str -> nat -> str) (args : ApplyPatchArgs) (cwd : path) (w : W)
    (action : ApplyPatchAction) aff s :
  verify_apply_patch_args home text_diff args cwd w = Some (VerifiedBody action) ->
  NoDup (concat (map (touched home (action_cwd action)) (hunks args))) ->
  apply_hunks_to_files home (action_cwd action) (hunks args) (mkSt w delta_empty) = Some (Ok aff, s) ->
  forall p c, action_changes action !! p = Some c -> realised p c (view_of w) (view_of (world s)).
Proof.
  unfold verify_apply_patch_args. intros Hv Hnd Ha.
  destruct (verify_loop _ _ _ _ _ _) as [[m|]|] eqn:Hl; cbn [mbind option_bind] in Hv; [|done|done].
  simplify_eq. cbn [action_cwd action_changes] in *.
  destruct (link_free_post home (effective_cwd_of home args cwd) (hunks args) w) as (r & s1 & Ha' & Hr).
  rewrite Ha in Ha'. simplify_eq. destruct Hr as (v & Hpe & Hs).
  intros p c Hc. pose proof (verified_realised _ _ _ _ _ _ _ Hnd Hl Hpe p c Hc) as Hre.
  destruct c as [t|t|d [dest|] n]; cbn [realised] in *; by rewrite !(Hs _).
Qed.

Definition demo_args : ApplyPatchArgs := mkArgs demo_patch demo_hunks None None.
Definition no_diff (_ _ : str) (_ : nat) : str := [].

Definition demo_action : option MaybeApplyPatchVerified :=
  verify_apply_patch_args None no_diff demo_args demo_cwd demo_world.

Lemma verified_changes_applied_witness :
  exists action aff s,
    demo_action = Some (VerifiedBody action)
    /\ apply_hunks_to_files None demo_cwd demo_hunks (mkSt demo_world delta_empty) = Some (Ok aff, s)
    /\ forall p c, action_changes action !! p = Some c -> realised p c (view_of demo_world) (view_of (world s)).
Proof.
  assert (match demo_action with Some (VerifiedBody a) => action_cwd a =s? demo_cwd | _ => false end = true)
    as Hact by (vm_compute; reflexivity).
  assert (run_ok (apply_hunks_to_files None demo_cwd demo_hunks (mkSt demo_world delta_empty)) = true)
    as Hok by (vm_compute; reflexivity).
  remember demo_action as o eqn:Ho. destruct o as [[action| | |]|]; try discriminate Hact.
  apply bool_decide_eq_true_1 in Hact.
  remember (apply_hunks_to_files None demo_cwd demo_hunks (mkSt demo_world delta_empty)) as r eqn:Hr.
  destruct r as [[[aff|e] s]|]; try discriminate Hok.
  exists action, aff, s. split; [reflexivity|]. split; [reflexivity|].
  apply (verified_changes_applied None no_diff demo_args demo_cwd demo_world action aff s).
  - symmetry. exact Ho.
  - rewrite Hact. apply (bool_decide_unpack _). vm_compute. exact I.
  - rewrite Hact. symmetry. exact Hr.
Defined.

(** A patch is only ever taken from an explicit call: whenever the recogniser
    yields a verified patch, the command line was [apply_patch] (or
    [applypatch]) with a body that parses, or a known shell with a script that
    the heredoc extraction accepts; a bare patch is refused as an implicit
    invocation, in both forms. *)
Theorem verified_body_explicit {W} `{ExecutorFileSystem W} (home : option path)
    (extract : str -> result ExtractHeredocError (str * option str))
    (text_diff : str -> str -> nat -> str) (argv : list str) (cwd : path) (w : W) :
  (forall action,
     maybe_parse_apply_patch_verified home extract text_diff argv cwd w = Some (VerifiedBody action) ->
     implicit_invocation argv = false /\
     exists args, verify_apply_patch_args home text_diff args cwd w = Some (VerifiedBody action) /\
       ((exists cmd body, argv = [cmd; body] /\ cmd ∈ APPLY_PATCH_COMMANDS
           /\ parse_patch body = Some (Ok args))
        \/ (exists shell script body dir source, parse_shell_script argv = Some (shell, script)
              /\ extract script = Ok (body, dir) /\ parse_patch body = Some (Ok source)
              /\ hunks args = hunks source /\ workdir args = dir)))
  /\ (implicit_invocation argv = true ->
      maybe_parse_apply_patch_verified home extract text_diff argv cwd w
      = Some (CorrectnessError ImplicitInvocation)).
Proof.
  unfold maybe_parse_apply_patch_verified. split; [|by intros ->].
  intros action Hm. destruct (implicit_invocation argv); [done|]. split; [done|].
  destruct (maybe_parse_apply_patch extract argv) as [[args| | |]|] eqn:Hp;
    cbn [mbind option_bind] in Hm; try done.
  exists args. split; [done|].
  assert (parse_from_shell extract argv = Some (MaybeBody args) ->
    exists shell script body dir source, parse_shell_script argv = Some (shell, script)
      /\ extract script = Ok (body, dir) /\ parse_patch body = Some (Ok source)
      /\ hunks args = hunks source /\ workdir args = dir) as Hsh.
  { unfold parse_from_shell. destruct (parse_shell_script argv) as [[sh script]|]; [|done].
    assert (extract_apply_patch_from_shell extract sh script = extract script) as -> by by destruct sh.
    destruct (extract script) as [[body dir]|e] eqn:He; [|by destruct e].
    destruct (parse_patch body) as [[source|]|] eqn:Hpp; cbn [mbind option_bind]; try done.
    intros [= <-]. exists sh, script, body, dir, source. done. }
  unfold maybe_parse_apply_patch in Hp. destruct argv as [|cmd [|body [|]]]; try (by right; apply Hsh).
  destruct (one_of cmd APPLY_PATCH_COMMANDS) eqn:Hc; [|by right; apply Hsh].
  left. destruct (parse_patch body) as [[source|]|] eqn:Hpp; cbn [mbind option_bind] in Hp; try done.
  simplify_eq. exists cmd, body. split_and!; [done| |done].
  unfold one_of in Hc. apply existsb_exists in Hc as (t & Ht & Heq). bool_to_prop. subst.
  by apply list_elem_of_In.
Qed.

(** Two hunks that update the same file. *)
Definition twice_hunks : list Hunk :=
  [UpdateFile (lit "a.txt") None [mkChunk None [lit "one"] [lit "ONE"] false];
   UpdateFile (lit "a.txt") None [mkChunk None [lit "two"] [lit "TWO"] false]].

(** Verification reads the files as they are before the patch, also for a
    second hunk on the same file, and keeps one change per file: the shown
    content of a file that two hunks update is not the one that results. *)
Theorem verify_keeps_last_hunk :
  let p := demo_cwd ++ [Normal (lit "a.txt")] in
  match verify_apply_patch_args None no_diff (mkArgs [] twice_hunks None None) demo_cwd demo_world,
        apply_hunks_to_files None demo_cwd twice_hunks (mkSt demo_world delta_empty) with
  | Some (VerifiedBody action), Some (Ok _, s) =>
      action_changes action !! p = Some (ProposedUpdate [] None (lit "one" ++ [LF] ++ lit "TWO" ++ [LF]))
      /\ file_text (world s) p = Some (lit "ONE" ++ [LF] ++ lit "TWO" ++ [LF])
  | _, _ => False
  end.
Proof. vm_compute. split; reflexivity. Qed.
