(* ===== verification/ExecPolicy.v ===== *)
(** * Command and network policies: [execpolicy/src/{decision,rule,policy,error}.rs]

    A policy is a multimap from program names to prefix rules, a list of
    network rules and a map of trusted executable paths.  [PrefixRule] is the
    only implementation of the trait [Rule], so a [RuleRef] is a prefix rule.
    The theorems: the decision of a check is the most restrictive one among
    the rules that match, and the check always has one; an overlay can add
    restrictions but not lift any; the compiled network domains follow the
    last decisive rule of each host. *)

From S2P Require Import Prelude AbsolutePath.

(** ** Decisions *)

Inductive Decision : Type := Allow | Prompt | Forbidden.
#[export] Instance Decision_eq_dec : EqDecision Decision.
Proof. solve_decision. Defined.

(** The derived order: Allow < Prompt < Forbidden. *)
Definition decision_rank (d : Decision) : nat :=
  match d with Allow => 0 | Prompt => 1 | Forbidden => 2 end.
Definition decision_le (d e : Decision) : Prop := (decision_rank d ≤ decision_rank e)%nat.
Definition decision_max (d e : Decision) : Decision :=
  if bool_decide (decision_rank e < decision_rank d)%nat then d else e.

(** ** Errors *)

Record TextPosition : Type := mkPos { pos_line : nat; pos_column : nat }.
Record TextRange : Type := mkRange { range_start : TextPosition; range_end : TextPosition }.
Record ErrorLocation : Type := mkLocation { location_path : str; location_range : TextRange }.

Inductive Error : Type :=
| InvalidDecision (raw : str)
| InvalidPattern (message : str)
| InvalidExample (message : str)
| InvalidRule (message : str)
| ExampleDidNotMatch (rules examples : list str) (location : option ErrorLocation)
| ExampleDidMatch (rule example : str) (location : option ErrorLocation)
| Starlark (message : str) (span : option ErrorLocation).

Definition with_location (e : Error) (location : ErrorLocation) : Error :=
  match e with
  | ExampleDidNotMatch rules examples None => ExampleDidNotMatch rules examples (Some location)
  | ExampleDidMatch rule example None => ExampleDidMatch rule example (Some location)
  | other => other
  end.

Definition error_location (e : Error) : option ErrorLocation :=
  match e with
  | ExampleDidNotMatch _ _ location | ExampleDidMatch _ _ location => location
  | Starlark _ span => span
  | _ => None
  end.

Definition decision_parse (raw : str) : result Error Decision :=
  if raw =s? lit "allow" then Ok Allow
  else if raw =s? lit "prompt" then Ok Prompt
  else if raw =s? lit "forbidden" then Ok Forbidden
  else Err (InvalidDecision raw).

(** ** Rules *)

Inductive PatternToken : Type :=
| Single (expected : str)
| Alts (alternatives : list str).

Definition token_matches (t : PatternToken) (token : str) : bool :=
  match t with
  | Single expected => expected =s? token
  | Alts alternatives => existsb (fun alt => alt =s? token) alternatives
  end.

Definition alternatives (t : PatternToken) : list str :=
  match t with
  | Single expected => [expected]
  | Alts alternatives => alternatives
  end.

Record PrefixPattern : Type := mkPattern { first : str; rest : list PatternToken }.

(** [for (pattern_token, cmd_token) in self.rest.iter().zip(..)] *)
Fixpoint zip_matches (tokens : list PatternToken) (cmd : list str) : bool :=
  match tokens, cmd with
  | t :: tokens', c :: cmd' => if token_matches t c then zip_matches tokens' cmd' else false
  | _, _ => true
  end.

Definition matches_prefix (p : PrefixPattern) (cmd : list str) : option (list str) :=
  let pattern_length := (length (rest p) + 1)%nat in
  if bool_decide (length cmd < pattern_length)%nat then None
  else match cmd with
       | [] => None
       | c :: _ =>
           if negb (c =s? first p) then None
           else if zip_matches (rest p) (drop 1 (take pattern_length cmd)) then
             Some (take pattern_length cmd)
           else None
       end.

Inductive RuleMatch : Type :=
| PrefixRuleMatch (matched_prefix : list str) (decision : Decision)
    (resolved_program : option path) (justification : option str)
| HeuristicsRuleMatch (command : list str) (decision : Decision).

Definition match_decision (m : RuleMatch) : Decision :=
  match m with
  | PrefixRuleMatch _ decision _ _ => decision
  | HeuristicsRuleMatch _ decision => decision
  end.

Definition with_resolved_program (m : RuleMatch) (resolved_program : path) : RuleMatch :=
  match m with
  | PrefixRuleMatch matched_prefix decision _ justification =>
      PrefixRuleMatch matched_prefix decision (Some resolved_program) justification
  | other => other
  end.

Record PrefixRule : Type := mkRule {
  pattern : PrefixPattern;
  rule_decision : Decision;
  rule_justification : option str;
}.

Definition program (r : PrefixRule) : str := first (pattern r).
Definition rule_matches (r : PrefixRule) (cmd : list str) : option RuleMatch :=
  (fun matched_prefix => PrefixRuleMatch matched_prefix (rule_decision r) None (rule_justification r))
  <$> matches_prefix (pattern r) cmd.

Inductive NetworkRuleProtocol : Type := Http | Https | Socks5Tcp | Socks5Udp.

Definition protocol_parse (raw : str) : result Error NetworkRuleProtocol :=
  if raw =s? lit "http" then Ok Http
  else if (raw =s? lit "https") || (raw =s? lit "https_connect") || (raw =s? lit "http-connect") then Ok Https
  else if raw =s? lit "socks5_tcp" then Ok Socks5Tcp
  else if raw =s? lit "socks5_udp" then Ok Socks5Udp
  else Err (InvalidRule
    (lit "network_rule protocol must be one of http, https, socks5_tcp, socks5_udp (got " ++ raw ++ lit ")")).

Definition as_policy_string (p : NetworkRuleProtocol) : str :=
  match p with
  | Http => lit "http"
  | Https => lit "https"
  | Socks5Tcp => lit "socks5_tcp"
  | Socks5Udp => lit "socks5_udp"
  end.

Record NetworkRule : Type := mkNetworkRule {
  host : str;
  protocol : NetworkRuleProtocol;
  net_decision : Decision;
  net_justification : option str;
}.

Definition COLON : char := 58%N.
Definition all_digits (s : str) : bool := forallb is_ascii_digit s.
Definition is_port (s : str) : bool := negb (s =s? []) && all_digits s.

(** The host without brackets or port. *)
Definition strip_host_port (raw host : str) : result Error str :=
  match strip_prefix (lit "[") host with
  | Some stripped =>
      match split_once 93%N stripped with
      | None => Err (InvalidRule (lit "network_rule host has an invalid bracketed IPv6 literal"))
      | Some (inside, rest) =>
          let port_ok := match strip_prefix [COLON] rest with Some port => is_port port | None => false end in
          if negb (rest =s? []) && negb port_ok then
            Err (InvalidRule (lit "network_rule host contains an unsupported suffix: " ++ raw))
          else Ok inside
      end
  | None =>
      if bool_decide (length (filter (fun c => c = COLON) host) = 1)%nat then
        match rsplit_once COLON host with
        | Some (candidate, port) =>
            if negb (candidate =s? []) && is_port port then Ok candidate else Ok host
        | None => Ok host
        end
      else Ok host
  end.

Definition normalize_network_rule_host (raw : str) : result Error str :=
  let host := trim raw in
  if host =s? [] then Err (InvalidRule (lit "network_rule host cannot be empty"))
  else if contains_str (lit "://") host || contains_char SLASH host
          || contains_char 63%N host || contains_char 35%N host then
    Err (InvalidRule (lit "network_rule host must be a hostname or IP literal (without scheme or path)"))
  else
    host ← strip_host_port raw host;
    let normalized := to_ascii_lowercase (trim (trim_end_matches 46%N host)) in
    if normalized =s? [] then Err (InvalidRule (lit "network_rule host cannot be empty"))
    else if contains_char STAR normalized then
      Err (InvalidRule (lit "network_rule host must be a specific host; wildcards are not allowed"))
    else if existsb is_whitespace normalized then
      Err (InvalidRule (lit "network_rule host cannot contain whitespace"))
    else Ok normalized.

(** ** Policies *)

Record MatchOptions : Type := mkOptions { resolve_host_executables : bool }.
Definition default_options : MatchOptions := mkOptions false.

(** [MultiMap<String, RuleRef>] *)
Abbreviation rule_map := (gmap (list N) (list PrefixRule)) (only parsing).
Definition mm_insert (m : rule_map) (k : str) (r : PrefixRule) : rule_map :=
  <[k := default [] (m !! k) ++ [r]]> m.

Record Policy : Type := mkPolicy {
  rules_by_program : rule_map;
  network_rules : list NetworkRule;
  host_executables_by_name : gmap (list N) (list path);
}.

Definition policy_new (rules : rule_map) : Policy := mkPolicy rules [] ∅.
Definition policy_empty : Policy := policy_new ∅.

Definition add_prefix_rule (p : Policy) (prefix : list str) (decision : Decision) : result Error Policy :=
  match prefix with
  | [] => Err (InvalidPattern (lit "prefix cannot be empty"))
  | first_token :: rest =>
      let rule := mkRule (mkPattern first_token (map Single rest)) decision None in
      Ok (mkPolicy (mm_insert (rules_by_program p) first_token rule)
            (network_rules p) (host_executables_by_name p))
  end.

(** [justification] given but blank. *)
Definition blank_justification (j : option str) : bool :=
  match j with Some raw => trim raw =s? [] | None => false end.

Definition add_network_rule (p : Policy) (h : str) (protocol : NetworkRuleProtocol)
    (decision : Decision) (justification : option str) : result Error Policy :=
  host ← normalize_network_rule_host h;
  if blank_justification justification then
    Err (InvalidRule (lit "justification cannot be empty"))
  else
    Ok (mkPolicy (rules_by_program p)
          (network_rules p ++ [mkNetworkRule host protocol decision justification])
          (host_executables_by_name p)).

Definition set_host_executable_paths (p : Policy) (name : str) (paths : list path) : Policy :=
  mkPolicy (rules_by_program p) (network_rules p) (<[name := paths]> (host_executables_by_name p)).

Definition insert_all (m : rule_map) (k : str) (rules : list PrefixRule) : rule_map :=
  foldl (fun m r => mm_insert m k r) m rules.

Definition merge_overlay (p overlay : Policy) : Policy :=
  mkPolicy
    (foldl (fun m e => insert_all m e.1 e.2) (rules_by_program p) (map_to_list (rules_by_program overlay)))
    (network_rules p ++ network_rules overlay)
    (foldl (fun m e => <[e.1 := e.2]> m) (host_executables_by_name p)
       (map_to_list (host_executables_by_name overlay))).

Definition retain_ne (host : str) (entries : list str) : list str :=
  filter (fun entry => entry <> host) entries.
Definition upsert_domain (entries : list str) (host : str) : list str :=
  retain_ne host entries ++ [host].

Definition domain_step (acc : list str * list str) (rule : NetworkRule) : list str * list str :=
  let '(allowed, denied) := acc in
  match net_decision rule with
  | Allow => (upsert_domain allowed (host rule), retain_ne (host rule) denied)
  | Forbidden => (retain_ne (host rule) allowed, upsert_domain denied (host rule))
  | Prompt => (allowed, denied)
  end.
Definition compiled_network_domains (p : Policy) : list str * list str :=
  foldl domain_step ([], []) (network_rules p).

Record Evaluation : Type := mkEvaluation {
  eval_decision : Decision;
  matched_rules : list RuleMatch;
}.

(** [Iterator::max] *)
Fixpoint max_decision (ds : list Decision) : option Decision :=
  match ds with
  | [] => None
  | d :: ds' => Some (match max_decision ds' with Some e => decision_max d e | None => d end)
  end.

(** [None] is the panic of the [expect]. *)
Definition from_matches (matched_rules : list RuleMatch) : option Evaluation :=
  decision ← max_decision (map match_decision matched_rules);
  Some (mkEvaluation decision matched_rules).

Definition is_match (e : Evaluation) : bool :=
  existsb (fun m => match m with HeuristicsRuleMatch _ _ => false | _ => true end) (matched_rules e).

Definition match_exact_rules (p : Policy) (cmd : list str) : option (list RuleMatch) :=
  first ← head cmd;
  Some match rules_by_program p !! first with
       | Some rules => omap (fun rule => rule_matches rule cmd) rules
       | None => []
       end.

(** Outside Windows the lookup key of an executable is its name. *)
Definition executable_lookup_key (raw : str) : str := raw.
Definition executable_path_lookup_key (p : path) : option str := executable_lookup_key <$> file_name p.

Section check.
(** [dirs::home_dir()] and [std::env::current_dir()]. *)
Context (home current_dir : option path).

Definition match_host_executable_rules (p : Policy) (cmd : list str) : list RuleMatch :=
  match head cmd with
  | None => []
  | Some first =>
      match from_absolute_path home current_dir first with
      | None => []
      | Some program =>
          match executable_path_lookup_key program with
          | None => []
          | Some basename =>
              match rules_by_program p !! basename with
              | None => []
              | Some rules =>
                  if match host_executables_by_name p !! basename with
                     | Some paths => negb (existsb (fun path => bool_decide (path = program)) paths)
                     | None => false
                     end
                  then []
                  else
                    let basename_command := basename :: drop 1 cmd in
                    map (fun rule_match => with_resolved_program rule_match program)
                      (omap (fun rule => rule_matches rule basename_command) rules)
              end
          end
      end
  end.

Definition nonempty {A} (o : option (list A)) : option (list A) :=
  match o with Some [] => None | _ => o end.

Definition matches_for_command_with_options (p : Policy) (cmd : list str)
    (heuristics_fallback : option (list str -> Decision)) (options : MatchOptions) : list RuleMatch :=
  let matched_rules :=
    match nonempty (match_exact_rules p cmd) with
    | Some ms => ms
    | None =>
        default [] (nonempty (if resolve_host_executables options
                              then Some (match_host_executable_rules p cmd) else None))
    end in
  match matched_rules, heuristics_fallback with
  | [], Some heuristics_fallback => [HeuristicsRuleMatch cmd (heuristics_fallback cmd)]
  | _, _ => matched_rules
  end.

Definition matches_for_command (p : Policy) (cmd : list str)
    (heuristics_fallback : option (list str -> Decision)) : list RuleMatch :=
  matches_for_command_with_options p cmd heuristics_fallback default_options.

Definition check_with_options (p : Policy) (cmd : list str) (heuristics_fallback : list str -> Decision)
    (options : MatchOptions) : option Evaluation :=
  from_matches (matches_for_command_with_options p cmd (Some heuristics_fallback) options).

Definition check (p : Policy) (cmd : list str) (heuristics_fallback : list str -> Decision)
    : option Evaluation :=
  check_with_options p cmd heuristics_fallback default_options.

Definition check_multiple_with_options (p : Policy) (commands : list (list str))
    (heuristics_fallback : list str -> Decision) (options : MatchOptions) : option Evaluation :=
  from_matches (concat (map (fun command =>
    matches_for_command_with_options p command (Some heuristics_fallback) options) commands)).

Definition check_multiple (p : Policy) (commands : list (list str))
    (heuristics_fallback : list str -> Decision) : option Evaluation :=
  check_multiple_with_options p commands heuristics_fallback default_options.

(** [shlex::try_join] and the [Debug] rendering of rules and matches. *)
Context (try_join : list str -> option str).
Context (debug_rule : PrefixRule -> str) (debug_match : RuleMatch -> str).

Definition render_example (example : list str) : str :=
  default (lit "unable to render example") (try_join example).

Definition validate_match_examples (policy : Policy) (rules : list PrefixRule) (matches : list (list str))
    : result Error unit :=
  let unmatched := filter (fun example =>
    matches_for_command_with_options policy example None (mkOptions true) = []) matches in
  match unmatched with
  | [] => Ok tt
  | _ => Err (ExampleDidNotMatch (map debug_rule rules) (map render_example unmatched) None)
  end.

Fixpoint validate_not_match_examples (policy : Policy) (rules : list PrefixRule)
    (not_matches : list (list str)) : result Error unit :=
  match not_matches with
  | [] => Ok tt
  | example :: not_matches' =>
      match matches_for_command_with_options policy example None (mkOptions true) with
      | rule :: _ => Err (ExampleDidMatch (debug_match rule) (render_example example) None)
      | [] => validate_not_match_examples policy rules not_matches'
      end
  end.
End check.

(** ** Lemmas *)

Lemma decision_max_le_l d e : decision_le d (decision_max d e).
Proof. unfold decision_le, decision_max. case_bool_decide; lia. Qed.
Lemma decision_max_le_r d e : decision_le e (decision_max d e).
Proof. unfold decision_le, decision_max. case_bool_decide; lia. Qed.
Lemma decision_max_either d e : decision_max d e = d \/ decision_max d e = e.
Proof. unfold decision_max. case_bool_decide; auto. Qed.
Lemma decision_le_trans d e f : decision_le d e -> decision_le e f -> decision_le d f.
Proof. unfold decision_le. lia. Qed.
Lemma decision_le_antisym d e : decision_le d e -> decision_le e d -> d = e.
Proof. unfold decision_le. destruct d, e; simpl; lia || done. Qed.
#[export] Hint Resolve decision_max_le_l decision_max_le_r : rust.

Lemma max_decision_upper ds d : max_decision ds = Some d -> forall e, e ∈ ds -> decision_le e d.
Proof.
  revert d. induction ds as [|x ds IH]; intros d; cbn [max_decision]; [done|]. intros [= <-] e He.
  apply elem_of_cons in He as [->|He].
  - destruct (max_decision ds); [auto with rust|]. unfold decision_le. lia.
  - destruct (max_decision ds) as [y|] eqn:Hy; [|destruct ds; [set_solver|done]].
    eapply decision_le_trans; [by apply IH|auto with rust].
Qed.

Lemma max_decision_in ds d : max_decision ds = Some d -> d ∈ ds.
Proof.
  revert d. induction ds as [|x ds IH]; intros d; cbn [max_decision]; [done|]. intros [= <-].
  destruct (max_decision ds) as [y|]; [|by left].
  destruct (decision_max_either x y) as [->| ->]; [by left|right; by apply IH].
Qed.

Lemma max_decision_some ds : ds <> [] -> is_Some (max_decision ds).
Proof. destruct ds; [done|]. by eexists. Qed.

(** An evaluation exists as soon as something matched; its decision is the
    greatest of the matches. *)
Lemma from_matches_spec ms :
  ms <> [] -> exists e, from_matches ms = Some e /\ matched_rules e = ms
    /\ (forall m, m ∈ ms -> decision_le (match_decision m) (eval_decision e))
    /\ exists m, m ∈ ms /\ match_decision m = eval_decision e.
Proof.
  intros Hne. unfold from_matches.
  destruct (max_decision_some (map match_decision ms)) as [d Hd]; [by destruct ms|]. rewrite Hd.
  eexists. split; [reflexivity|]. simpl. split; [done|]. split.
  - intros m Hm. eapply max_decision_upper; [exact Hd|]. apply list_elem_of_fmap. by exists m.
  - apply max_decision_in in Hd. apply list_elem_of_fmap in Hd as (m & -> & Hm). by exists m.
Qed.

Section matching.
Context (home current_dir : option path).

Lemma matches_nonempty p cmd h opts :
  matches_for_command_with_options home current_dir p cmd (Some h) opts <> [].
Proof.
  unfold matches_for_command_with_options.
  match goal with |- context [match ?x with [] => _ | _ :: _ => _ end] => by destruct x end.
Qed.

Lemma matches_exact p cmd h opts m ms :
  match_exact_rules p cmd = Some (m :: ms) ->
  matches_for_command_with_options home current_dir p cmd h opts = m :: ms.
Proof. intros Hm. unfold matches_for_command_with_options. by rewrite Hm. Qed.

Lemma match_exact_in p c cmd rules r m :
  rules_by_program p !! c = Some rules -> r ∈ rules -> rule_matches r (c :: cmd) = Some m ->
  exists ms, match_exact_rules p (c :: cmd) = Some ms /\ m ∈ ms.
Proof.
  intros Hr Hin Hm. unfold match_exact_rules. cbn [head mbind option_bind]. rewrite Hr.
  eexists. split; [reflexivity|]. apply list_elem_of_omap. by exists r.
Qed.
End matching.

Lemma zip_matches_Forall2 tokens args :
  length args = length tokens ->
  zip_matches tokens args = true <-> Forall2 (fun t a => token_matches t a = true) tokens args.
Proof.
  revert args. induction tokens as [|t tokens IH]; intros [|a args] Hl; simplify_eq/=; [by split|].
  destruct (token_matches t a) eqn:Ht.
  - rewrite IH by done. split; [by constructor|by inversion 1].
  - split; [done|]. inversion 1; congruence.
Qed.

Lemma insert_all_lookup m k rules k' :
  insert_all m k rules !! k'
  = if decide (k' = k) then match rules with [] => m !! k | _ => Some (default [] (m !! k) ++ rules) end
    else m !! k'.
Proof.
  revert m. induction rules as [|r rules IH]; intros m; simpl.
  - destruct (decide (k' = k)); by subst.
  - rewrite IH. unfold mm_insert. destruct (decide (k' = k)) as [->|]; [|by rewrite lookup_insert_ne].
    rewrite lookup_insert_eq. destruct rules; [done|]. simpl. by rewrite <- app_assoc.
Qed.

Lemma insert_all_default m k rules k' :
  default [] (insert_all m k rules !! k') = default [] (m !! k') ++ (if decide (k' = k) then rules else []).
Proof.
  rewrite insert_all_lookup. destruct (decide (k' = k)) as [->|]; [|by rewrite app_nil_r].
  destruct rules; [by rewrite app_nil_r|done].
Qed.

Lemma merge_list_default (l : list (list N * list PrefixRule)) (m : rule_map) k :
  NoDup l.*1 ->
  default [] (foldl (fun m e => insert_all m e.1 e.2) m l !! k)
  = default [] (m !! k) ++ default [] ((list_to_map l : rule_map) !! k).
Proof.
  revert m. induction l as [|[k' rules] l IH]; intros m Hnd; simpl; [by rewrite lookup_empty, app_nil_r|].
  apply NoDup_cons in Hnd as [Hk Hnd]. rewrite IH by done. rewrite insert_all_default.
  destruct (decide (k = k')) as [->|Hne].
  - rewrite lookup_insert_eq. rewrite not_elem_of_list_to_map_1 by done. simpl. by rewrite app_nil_r.
  - by rewrite lookup_insert_ne, app_nil_r.
Qed.

(** The rules of a program in a merged policy: those of the base, then those
    of the overlay. *)
Lemma merge_overlay_rules p o k :
  default [] (rules_by_program (merge_overlay p o) !! k)
  = default [] (rules_by_program p !! k) ++ default [] (rules_by_program o !! k).
Proof.
  cbn [merge_overlay rules_by_program]. rewrite merge_list_default by apply NoDup_fst_map_to_list.
  by rewrite list_to_map_to_list.
Qed.

Lemma match_exact_default p c cmd :
  match_exact_rules p (c :: cmd)
  = Some (omap (fun rule => rule_matches rule (c :: cmd)) (default [] (rules_by_program p !! c))).
Proof. unfold match_exact_rules. cbn [head mbind option_bind]. by destruct (rules_by_program p !! c). Qed.

Lemma match_exact_merge p o c cmd :
  exists ms ms', match_exact_rules p (c :: cmd) = Some ms /\ match_exact_rules o (c :: cmd) = Some ms'
    /\ match_exact_rules (merge_overlay p o) (c :: cmd) = Some (ms ++ ms').
Proof.
  eexists _, _. rewrite !match_exact_default. split_and!; [done|done|].
  rewrite merge_overlay_rules. by rewrite omap_app.
Qed.

(** The paths of a host executable in a merged policy: those of the overlay
    replace those of the base. *)
Lemma merge_overlay_host_executables p o k :
  host_executables_by_name (merge_overlay p o) !! k
  = match host_executables_by_name o !! k with
    | Some paths => Some paths
    | None => host_executables_by_name p !! k
    end.
Proof.
  cbn [merge_overlay host_executables_by_name]. rewrite <- (list_to_map_to_list (host_executables_by_name o)) at 2.
  pose proof (NoDup_fst_map_to_list (host_executables_by_name o)) as Hnd. revert Hnd.
  generalize (host_executables_by_name p). induction (map_to_list _) as [|[k' paths] l IH]; intros m Hnd; [done|].
  apply NoDup_cons in Hnd as [Hk Hnd]. cbn [foldl fst snd list_to_map foldr]. rewrite IH by done.
  destruct (decide (k = k')) as [->|Hne]; [|by rewrite !lookup_insert_ne].
  rewrite !lookup_insert_eq. by rewrite not_elem_of_list_to_map_1.
Qed.

Section host_executables.
Context (home current_dir : option path).

(** The program a command names by an absolute path, and the name its rules
    are looked up by. *)
Definition host_program (c : str) : option (path * str) :=
  program ← from_absolute_path home current_dir c;
  basename ← executable_path_lookup_key program;
  Some (program, basename).
Definition listed (p : Policy) (program : path) (basename : str) : bool :=
  match host_executables_by_name p !! basename with
  | Some paths => existsb (fun path => bool_decide (path = program)) paths
  | None => true
  end.

Lemma match_host_default p c args :
  match_host_executable_rules home current_dir p (c :: args)
  = match host_program c with
    | Some (program, basename) =>
        if listed p program basename
        then map (fun m => with_resolved_program m program)
               (omap (fun rule => rule_matches rule (basename :: args)) (default [] (rules_by_program p !! basename)))
        else []
    | None => []
    end.
Proof.
  unfold match_host_executable_rules, host_program, listed. cbn [head drop].
  destruct (from_absolute_path home current_dir c) as [program|]; [|done]. cbn [mbind option_bind].
  destruct (executable_path_lookup_key program) as [basename|]; [|done]. cbn [mbind option_bind]. rewrite drop_0.
  destruct (rules_by_program p !! basename) as [rules|], (host_executables_by_name p !! basename) as [paths|];
    try done; cbn; by destruct (existsb _ _).
Qed.

(** The matches of a policy that decide a command: those of the rules for its
    first word, or those of the rules for the program it names. *)
Definition matches_by (exact : bool) (p : Policy) (cmd : list str) : list RuleMatch :=
  if exact then default [] (match_exact_rules p cmd) else match_host_executable_rules home current_dir p cmd.

(** [y] leaves the way [x] decides a command alone: [x] has rules for its first
    word that match, or [y] has none and says nothing on where the program is. *)
Definition undisturbed (x y : Policy) (c : str) (args : list str) : Prop :=
  match_exact_rules x (c :: args) <> Some []
  \/ (match_exact_rules y (c :: args) = Some []
      /\ forall program basename, host_program c = Some (program, basename) ->
         host_executables_by_name y !! basename = None).

(** A decision made by rules is that of the rules for the first word, or, where
    those do not match, of the rules for the program. *)
Lemma check_by_rules p c args fallback options e :
  check_with_options home current_dir p (c :: args) fallback options = Some e -> is_match e = true ->
  exists exact, matched_rules e = matches_by exact p (c :: args) /\ matches_by exact p (c :: args) <> []
    /\ if exact then match_exact_rules p (c :: args) <> Some []
       else match_exact_rules p (c :: args) = Some [] /\ resolve_host_executables options = true.
Proof.
  unfold check_with_options, from_matches. intros (d & _ & [= <-])%bind_Some. unfold is_match. cbn [matched_rules].
  unfold matches_for_command_with_options, matches_by. rewrite match_exact_default.
  destruct (omap _ _) as [|m ms]; cbn [nonempty].
  - destruct (resolve_host_executables options) eqn:Ho; [|done]. intros Hm. exists false.
    destruct (match_host_executable_rules home current_dir p (c :: args)); [done|]. by cbn.
  - intros _. by exists true.
Qed.

Lemma matches_by_merge exact base overlay x y c args :
  (x = base /\ y = overlay) \/ (x = overlay /\ y = base) ->
  undisturbed x y c args -> matches_by exact x (c :: args) <> [] ->
  (if exact then True else match_exact_rules x (c :: args) = Some []) ->
  matches_by exact (merge_overlay base overlay) (c :: args)
  = matches_by exact base (c :: args) ++ matches_by exact overlay (c :: args).
Proof.
  intros Hxy Hun Hx Hmode. unfold matches_by in *. destruct exact.
  - rewrite !match_exact_default. cbn [default from_option id]. by rewrite merge_overlay_rules, omap_app.
  - destruct Hun as [?|[_ Hhost]]; [done|]. revert Hx. rewrite !match_host_default.
    destruct (host_program c) as [[program basename]|]; [|done]. specialize (Hhost program basename eq_refl).
    destruct (listed x program basename) eqn:Hlx; [|done]. intros _.
    assert (listed y program basename = true) as Hly by by unfold listed; rewrite Hhost.
    assert (listed base program basename = true /\ listed overlay program basename = true) as [-> ->]
      by by destruct Hxy as [[<- <-]|[<- <-]].
    assert (listed (merge_overlay base overlay) program basename = true) as ->.
    { unfold listed in *. rewrite merge_overlay_host_executables.
      destruct Hxy as [[<- <-]|[<- <-]]; rewrite Hhost; [done|]. by destruct (host_executables_by_name x !! basename). }
    by rewrite merge_overlay_rules, omap_app, map_app.
Qed.
End host_executables.

(** ** Network domains *)

(** The decision of the last rule for [h] that is not a prompt. *)
Definition last_decision (h : str) (rules : list NetworkRule) : option Decision :=
  foldl (fun acc r => if bool_decide (host r = h /\ net_decision r <> Prompt) then Some (net_decision r) else acc)
    None rules.

Lemma upsert_domain_elem entries h x : x ∈ upsert_domain entries h <-> x = h \/ x ∈ entries.
Proof.
  unfold upsert_domain, retain_ne. rewrite elem_of_app, list_elem_of_filter, list_elem_of_singleton.
  destruct (decide (x = h)); naive_solver.
Qed.

Lemma upsert_domain_NoDup entries h : NoDup entries -> NoDup (upsert_domain entries h).
Proof.
  intros Hn. unfold upsert_domain, retain_ne. apply NoDup_app. split_and!.
  - by apply NoDup_filter.
  - intros x [Hx _]%list_elem_of_filter. by rewrite list_elem_of_singleton.
  - apply NoDup_singleton.
Qed.

Definition domains_ok (acc : list str * list str) (rules : list NetworkRule) : Prop :=
  NoDup acc.1 /\ NoDup acc.2 /\
  forall h, (h ∈ acc.1 <-> last_decision h rules = Some Allow)
         /\ (h ∈ acc.2 <-> last_decision h rules = Some Forbidden).

Lemma last_decision_snoc h rules r :
  last_decision h (rules ++ [r])
  = if bool_decide (host r = h /\ net_decision r <> Prompt) then Some (net_decision r) else last_decision h rules.
Proof. unfold last_decision. by rewrite foldl_app. Qed.

Lemma domain_step_ok acc rules r :
  domains_ok acc rules -> domains_ok (domain_step acc r) (rules ++ [r]).
Proof.
  destruct acc as [al dn]. intros (Ha & Hd & Hm). unfold domains_ok. cbn [domain_step fst snd] in *.
  destruct (net_decision r) eqn:Hr; simpl; split_and!; try done;
    try (by apply upsert_domain_NoDup); try (by apply NoDup_filter);
    intros h; specialize (Hm h) as [Hma Hmd]; rewrite last_decision_snoc, Hr;
    unfold retain_ne; rewrite ?upsert_domain_elem, ?list_elem_of_filter, ?Hma, ?Hmd;
    case_bool_decide as Hb; destruct (decide (host r = h)); naive_solver.
Qed.

(** ** Hosts *)

(** What the normalisation promises of a host. *)
Record host_ok (h : str) : Prop := {
  host_nonempty : h <> [];
  host_no_wildcard : STAR ∉ h;
  host_no_space : Forall (fun c => is_whitespace c = false) h;
  host_lowercase : Forall (fun c => is_ascii_uppercase c = false) h;
  host_no_path : forall c, c ∈ h -> c <> SLASH /\ c <> 63%N /\ c <> 35%N;
}.

Lemma drop_while_subset {A} (f : A -> bool) (s : list A) x : x ∈ drop_while f s -> x ∈ s.
Proof. destruct (drop_while_suffix f s) as (pre & Heq & _). intros Hx. rewrite Heq. set_solver. Qed.
Lemma drop_end_while_subset {A} (f : A -> bool) (s : list A) x : x ∈ drop_end_while f s -> x ∈ s.
Proof. destruct (drop_end_while_prefix f s) as (suf & Heq & _). intros Hx. rewrite Heq. set_solver. Qed.
Lemma trim_subset s x : x ∈ trim s -> x ∈ s.
Proof. unfold trim, trim_end, trim_start. intros Hx%drop_end_while_subset. by eapply drop_while_subset. Qed.

Lemma strip_host_port_subset raw h h' :
  strip_host_port raw h = Ok h' -> forall x, x ∈ h' -> x ∈ h.
Proof.
  unfold strip_host_port. intros Hh x Hx. destruct (strip_prefix (lit "[") h) as [st|] eqn:Hp.
  - apply strip_prefix_Some in Hp as ->.
    destruct (split_once 93%N st) as [[inside r]|] eqn:Hs; [|done].
    destruct (negb _ && negb _); simplify_eq. apply split_once_app_eq in Hs as ->. set_solver.
  - case_bool_decide; [|by simplify_eq].
    destruct (rsplit_once COLON h) as [[cand port]|] eqn:Hr; [|by simplify_eq].
    destruct (_ && _); simplify_eq; [|done]. apply rsplit_once_app_eq in Hr as ->. set_solver.
Qed.

Lemma lowercase_not_upper (c : char) :
  is_ascii_uppercase (if is_ascii_uppercase c then (c + 32)%N else c) = false.
Proof.
  destruct (is_ascii_uppercase c) eqn:Hc; [|done]. unfold is_ascii_uppercase in *. bool_to_prop.
  apply andb_false_iff. right. apply N.leb_gt. lia.
Qed.

Lemma lowercase_other (c d : char) :
  is_ascii_lowercase d = false ->
  d = (if is_ascii_uppercase c then (c + 32)%N else c) -> c = d.
Proof.
  intros Hd Heq. destruct (is_ascii_uppercase c) eqn:Hc; [|done]. exfalso.
  unfold is_ascii_uppercase, is_ascii_lowercase in *. bool_to_prop.
  apply not_true_iff_false in Hd. apply Hd. apply andb_true_iff. rewrite !N.leb_le. lia.
Qed.

Lemma normalize_host_ok raw h : normalize_network_rule_host raw = Ok h -> host_ok h.
Proof.
  unfold normalize_network_rule_host. case_bool_decide; [done|].
  destruct (_ || _) eqn:Hbad; [done|]. bool_to_prop. intros Hh.
  apply result_bind_ok in Hh as (h1 & Hs & Hh).
  remember (to_ascii_lowercase (trim (trim_end_matches 46%N h1))) as n eqn:Hn.
  case_bool_decide; [done|]. destruct (contains_char STAR n) eqn:Hstar; [done|].
  destruct (existsb is_whitespace n) eqn:Hws; [done|]. injection Hh as <-.
  split; [done|by apply contains_char_false| | |].
  - apply Forall_forall. intros c Hc. apply not_true_iff_false. intros Hw.
    apply not_true_iff_false in Hws. apply Hws, existsb_exists. exists c. split; [by apply list_elem_of_In|done].
  - apply Forall_forall. intros c Hc. rewrite Hn in Hc.
    apply list_elem_of_fmap in Hc as (d & -> & _). apply lowercase_not_upper.
  - assert (forall c, is_ascii_lowercase c = false -> c ∈ n -> c ∈ trim raw) as Hin.
    { intros c Hl Hc. rewrite Hn in Hc. apply list_elem_of_fmap in Hc as (d & Heq & Hd).
      apply lowercase_other in Heq; [|done]. subst d.
      eapply strip_host_port_subset; [exact Hs|]. apply trim_subset in Hd. by eapply drop_end_while_subset. }
    intros c Hc. split_and!; intros ->;
      match type of Hc with ?x ∈ _ => apply (contains_char_false x (trim raw)); [done|by apply Hin] end.
Qed.

(** ** Properties *)

(** [matches_prefix] accepts exactly the commands that start with the program
    name followed by one argument for each pattern token that matches it, and
    returns that prefix; the command may go on arbitrarily. *)
Theorem matches_prefix_spec (p : PrefixPattern) (cmd m : list str) :
  matches_prefix p cmd = Some m <->
  exists args tail, cmd = first p :: args ++ tail
    /\ Forall2 (fun t a => token_matches t a = true) (rest p) args /\ m = first p :: args.
Proof.
  unfold matches_prefix. rewrite Nat.add_1_r. split.
  - case_bool_decide as Hl; [done|]. destruct cmd as [|c cmd]; [done|]. case_bool_decide as Hc; [|done]. subst c.
    cbn [negb take drop]. rewrite drop_0. destruct (zip_matches _ _) eqn:Hz; [|done]. intros [= <-].
    exists (take (length (rest p)) cmd), (drop (length (rest p)) cmd). rewrite take_drop.
    split_and!; [done| |done]. apply zip_matches_Forall2; [|done]. rewrite length_take. simpl in Hl. lia.
  - intros (args & tail & -> & Hf & ->). pose proof (Forall2_length _ _ _ Hf) as Hlen.
    rewrite bool_decide_eq_false_2 by (simpl; rewrite length_app; lia).
    rewrite bool_decide_eq_true_2 by done. cbn [negb take drop].
    rewrite drop_0, take_app_length' by done. apply zip_matches_Forall2 in Hf; [|done]. by rewrite Hf.
Qed.

(** C21. A check of a command with a program always has an answer, and it is the most restrictive one: it is
    the decision of some match, no match is stricter, and every rule of the
    program that matches the command bounds it from below - one matching
    [Forbidden] rule forbids the command whatever else matches, and a command
    is allowed only if every matching rule allows it. *)
Theorem check_most_restrictive (home current_dir : option path) (p : Policy) (c : str) (args : list str)
    (fallback : list str -> Decision) (options : MatchOptions) :
  exists e, check_with_options home current_dir p (c :: args) fallback options = Some e
    /\ (forall m, m ∈ matched_rules e -> decision_le (match_decision m) (eval_decision e))
    /\ (exists m, m ∈ matched_rules e /\ match_decision m = eval_decision e)
    /\ (forall rules r m, rules_by_program p !! c = Some rules -> r ∈ rules ->
          matches_prefix (pattern r) (c :: args) = Some m -> decision_le (rule_decision r) (eval_decision e)).
Proof.
  unfold check_with_options.
  destruct (from_matches_spec _ (matches_nonempty home current_dir p (c :: args) fallback options))
    as (e & -> & Hm & Hup & Hin).
  exists e. rewrite Hm. split_and!; [done|done|done|]. intros rules r m Hr Hr' Hp.
  destruct (match_exact_in p c args rules r (PrefixRuleMatch m (rule_decision r) None (rule_justification r)))
    as (ms & Hms & Hin'); [done|done|unfold rule_matches; by rewrite Hp|].
  destruct ms as [|m0 ms]; [set_solver|].
  rewrite (matches_exact home current_dir p _ _ options _ _ Hms) in Hup.
  by apply (Hup _ Hin').
Qed.

(** C22. Merging cannot lift a restriction of either policy, whatever the
    options of the check: where a rule of one of them decides a command, the
    merged policy decides it by the rules of both that match, and so at least as
    strictly as that policy and as every rule of the other that matches.  This
    holds as long as the other policy does not disturb the way the command is
    looked up: when the command is only matched by the name of the program its
    absolute path ends in, the other policy has no rule that matches the path
    itself and lists no paths for the program. *)
Theorem merge_overlay_monotone (home current_dir : option path) (base overlay x y : Policy)
    (c : str) (args : list str) (fallback : list str -> Decision) (options : MatchOptions) (e : Evaluation) :
  (x = base /\ y = overlay) \/ (x = overlay /\ y = base) ->
  undisturbed home current_dir x y c args ->
  check_with_options home current_dir x (c :: args) fallback options = Some e -> is_match e = true ->
  exists e' exact,
    check_with_options home current_dir (merge_overlay base overlay) (c :: args) fallback options = Some e'
    /\ matched_rules e = matches_by home current_dir exact x (c :: args)
    /\ matched_rules e' = matches_by home current_dir exact base (c :: args)
                          ++ matches_by home current_dir exact overlay (c :: args)
    /\ decision_le (eval_decision e) (eval_decision e')
    /\ Forall (fun m => decision_le (match_decision m) (eval_decision e'))
         (matches_by home current_dir exact y (c :: args)).
Proof.
  intros Hxy Hun He Hm. destruct (check_by_rules _ _ _ _ _ _ _ _ He Hm) as (exact & Heq & Hne & Hmode).
  assert (matches_for_command_with_options home current_dir (merge_overlay base overlay) (c :: args) (Some fallback) options
    = matches_by home current_dir exact base (c :: args) ++ matches_by home current_dir exact overlay (c :: args)) as Hmerge.
  { rewrite <- (matches_by_merge home current_dir exact base overlay x y) by (done || by destruct exact; [|apply Hmode]).
    assert (matches_by home current_dir exact (merge_overlay base overlay) (c :: args) <> []) as Hne'.
    { rewrite (matches_by_merge home current_dir exact base overlay x y) by (done || by destruct exact; [|apply Hmode]).
      destruct Hxy as [[<- _]|[<- _]]; [by destruct (matches_by _ _ exact x _)|].
      intros [_ ?]%app_nil. done. }
    unfold matches_for_command_with_options. destruct exact.
    - unfold matches_by in *. destruct (match_exact_rules (merge_overlay base overlay) (c :: args)) as [[|m ms]|]; done.
    - assert (match_exact_rules (merge_overlay base overlay) (c :: args) = Some []) as ->.
      { destruct Hun as [?|[Hy _]]; [by destruct Hmode|]. destruct Hmode as [Hx _].
        destruct (match_exact_merge base overlay c args) as (bs & os & Hb & Ho & ->).
        destruct Hxy as [[<- <-]|[<- <-]]; rewrite Hb in *; rewrite Ho in *; by simplify_eq. }
      destruct Hmode as [_ ->]. unfold matches_by in *. cbn [nonempty].
      by destruct (match_host_executable_rules home current_dir (merge_overlay base overlay) (c :: args)). }
  destruct (from_matches_spec (matches_by home current_dir exact base (c :: args)
    ++ matches_by home current_dir exact overlay (c :: args))) as (e' & He' & Hm' & Hup & _).
  { destruct Hxy as [[<- _]|[<- _]]; [by destruct (matches_by _ _ exact x _)|]. intros [_ ?]%app_nil. done. }
  exists e', exact. split_and!; [unfold check_with_options; by rewrite Hmerge|done|done| |].
  - unfold check_with_options in He.
    destruct (from_matches_spec _ (matches_nonempty home current_dir x (c :: args) fallback options))
      as (e0 & He0 & Hm0 & _ & (d & Hd & Hde)). rewrite He in He0. injection He0 as <-. rewrite <- Hde. apply Hup.
    rewrite <- Hm0, Heq in Hd. destruct Hxy as [[<- _]|[<- _]]; set_solver.
  - apply Forall_forall. intros m Hin. apply Hup. destruct Hxy as [[_ <-]|[_ <-]]; set_solver.
Qed.

(** The compiled network domains: a host is in the allow list exactly when
    its last rule that is not a prompt allows it, in the deny list exactly when
    that rule forbids it, and no list repeats a host; so no host is in both. *)
Theorem compiled_network_domains_last (p : Policy) :
  let '(allowed, denied) := compiled_network_domains p in
  NoDup allowed /\ NoDup denied /\
  forall h, (h ∈ allowed <-> last_decision h (network_rules p) = Some Allow)
         /\ (h ∈ denied <-> last_decision h (network_rules p) = Some Forbidden).
Proof.
  enough (domains_ok (compiled_network_domains p) (network_rules p)) as Hok
    by (by destruct (compiled_network_domains p)).
  unfold compiled_network_domains. induction (network_rules p) as [|r rules IH] using rev_ind.
  - split_and!; [apply NoDup_nil_2|apply NoDup_nil_2|]. intros h. cbn. split; (split; [set_solver|done]).
  - rewrite foldl_app. by apply domain_step_ok.
Qed.

(** Network rules only hold normalised hosts: adding a rule preserves the
    invariant that every host is not empty, lowercase, free of white space,
    wildcards, slashes, queries and fragments - and a rule that cannot be
    normalised leaves an error instead. *)
Theorem add_network_rule_hosts_ok (p p' : Policy) (h : str) (protocol : NetworkRuleProtocol)
    (decision : Decision) (justification : option str) :
  Forall (fun r => host_ok (host r)) (network_rules p) ->
  add_network_rule p h protocol decision justification = Ok p' ->
  Forall (fun r => host_ok (host r)) (network_rules p')
  /\ rules_by_program p' = rules_by_program p
  /\ exists h', normalize_network_rule_host h = Ok h'
     /\ network_rules p' = network_rules p ++ [mkNetworkRule h' protocol decision justification].
Proof.
  intros Hall Ha. unfold add_network_rule in Ha. apply result_bind_ok in Ha as (h' & Hn & Ha).
  destruct (blank_justification justification); [done|]. simplify_eq. cbn [network_rules rules_by_program].
  split_and!; [|done|by exists h']. apply Forall_app. split; [done|]. constructor; [|done].
  by eapply normalize_host_ok.
Qed.

(** ** Witnesses *)

Definition demo_base : Policy :=
  mkPolicy (mm_insert ∅ (lit "git") (mkRule (mkPattern (lit "git") [Single (lit "push")]) Prompt None)) [] ∅.
Definition demo_overlay : Policy :=
  mkPolicy (mm_insert ∅ (lit "git") (mkRule (mkPattern (lit "git") []) Allow None)) [] ∅.
Definition demo_cmd : list str := [lit "push"; lit "--force"].

Definition host_options : MatchOptions := mkOptions true.
Definition demo_path : str := lit "/usr/bin/git".

(** The overlay allows [git], the base asks before [git push]; named by its path
    the program is still looked up in both. *)
Lemma merge_overlay_monotone_witness :
  exists e', check_with_options None None (merge_overlay demo_base demo_overlay) (demo_path :: demo_cmd) (fun _ => Allow)
      host_options = Some e'
    /\ decision_le Prompt (eval_decision e') /\ length (matched_rules e') = 2%nat.
Proof.
  assert (exists e, check_with_options None None demo_base (demo_path :: demo_cmd) (fun _ => Allow) host_options = Some e
    /\ is_match e = true /\ eval_decision e = Prompt) as (e & He & Hm & Hd)
    by (eexists; split; [vm_compute; reflexivity|split; reflexivity]).
  destruct (merge_overlay_monotone None None demo_base demo_overlay demo_base demo_overlay demo_path demo_cmd
    (fun _ => Allow) host_options e) as (e' & exact & He' & _ & _ & Hle & _).
  - left. split; reflexivity.
  - right. split; [vm_compute; reflexivity|]. intros program basename _. apply lookup_empty.
  - exact He.
  - exact Hm.
  - exists e'. rewrite Hd in Hle. split; [exact He'|]. split; [exact Hle|].
    vm_compute in He'. injection He' as <-. reflexivity.
Defined.

(** A rule for the very path of a program hides the rules for its name: with an
    overlay that forbids [git] over a base that allows [/usr/bin/git], the
    merged policy allows what the overlay forbids. *)
Example path_rule_hides_name_rule :
  let forbid := mkPolicy (mm_insert ∅ (lit "git") (mkRule (mkPattern (lit "git") []) Forbidden None)) [] ∅ in
  let allow := mkPolicy (mm_insert ∅ demo_path (mkRule (mkPattern demo_path []) Allow None)) [] ∅ in
  (eval_decision <$> check_with_options None None forbid [demo_path] (fun _ => Prompt) host_options) = Some Forbidden
  /\ (eval_decision <$> check_with_options None None (merge_overlay allow forbid) [demo_path] (fun _ => Prompt) host_options)
     = Some Allow.
Proof. split; vm_compute; reflexivity. Qed.

Lemma add_network_rule_hosts_ok_witness :
  exists p', add_network_rule policy_empty (lit " Example.COM.:443 ") Https Allow None = Ok p'
    /\ Forall (fun r => host_ok (host r)) (network_rules p')
    /\ map host (network_rules p') = [lit "example.com"].
Proof.
  eexists. split; [vm_compute; reflexivity|]. split; [|vm_compute; reflexivity].
  apply (add_network_rule_hosts_ok policy_empty _ (lit " Example.COM.:443 ") Https Allow None);
    [constructor|vm_compute; reflexivity].
Defined.
