(* ===== verification/PolicyParser.v ===== *)
(** * Building and amending policies: [execpolicy/src/{parser,amend}.rs]

    A policy file is a Starlark program whose effects are calls of three
    built-ins, [prefix_rule], [network_rule] and [host_executable]; the
    Starlark evaluator is not modelled, its values are [Value].  The built-ins
    are modelled as operations on the [PolicyBuilder] they mutate, and a file
    as the sequence of calls it makes.  [append_locked_line] is how an approved
    command is remembered in the policy file. *)

From S2P Require Import Prelude PatchParser Replacements AbsolutePath ExecPolicy.

(** ** Starlark values, as far as the built-ins look at them *)

Inductive Value : Type :=
| VStr (s : str)
| VList (items : list Value)
| VOther (type_name : str).

Definition get_type (v : Value) : str :=
  match v with
  | VStr _ => lit "string"
  | VList _ => lit "list"
  | VOther type_name => type_name
  end.
Definition unpack_str (v : Value) : option str :=
  match v with VStr s => Some s | _ => None end.

(** [iter().map(f).collect::<Result<Vec<_>>>()] *)
Fixpoint collect {E A B} (f : A -> result E B) (l : list A) : result E (list B) :=
  match l with
  | [] => Ok []
  | a :: l' => b ← f a; bs ← collect f l'; Ok (b :: bs)
  end.

(** ** Arguments *)

Definition parse_pattern_token (value : Value) : result Error PatternToken :=
  match value with
  | VStr s => Ok (Single s)
  | VList items =>
      tokens ← collect (fun value =>
        match unpack_str value with
        | Some s => Ok s
        | None => Err (InvalidPattern
            (lit "pattern alternative must be a string (got " ++ get_type value ++ lit ")"))
        end) items;
      match tokens with
      | [] => Err (InvalidPattern (lit "pattern alternatives cannot be empty"))
      | [single] => Ok (Single single)
      | _ => Ok (Alts tokens)
      end
  | VOther _ => Err (InvalidPattern
      (lit "pattern element must be a string or list of strings (got " ++ get_type value ++ lit ")"))
  end.

Definition parse_pattern (pattern : list Value) : result Error (list PatternToken) :=
  tokens ← collect parse_pattern_token pattern;
  if bool_decide (length tokens = 0)%nat then Err (InvalidPattern (lit "pattern cannot be empty"))
  else Ok tokens.

Section parser.
Context (home current_dir : option path).
(** [shlex::split], [shlex::try_join], [Debug] renderings. *)
Context (shlex_split : str -> option (list str)) (try_join : list str -> option str).
Context (debug_rule : PrefixRule -> str) (debug_match : RuleMatch -> str).

Definition parse_string_example (raw : str) : result Error (list str) :=
  match shlex_split raw with
  | None => Err (InvalidExample (lit "example string has invalid shell syntax"))
  | Some tokens =>
      if bool_decide (tokens = []) then Err (InvalidExample (lit "example cannot be an empty string"))
      else Ok tokens
  end.

Definition parse_list_example (items : list Value) : result Error (list str) :=
  tokens ← collect (fun value =>
    match unpack_str value with
    | Some s => Ok s
    | None => Err (InvalidExample (lit "example tokens must be strings (got " ++ get_type value ++ lit ")"))
    end) items;
  if bool_decide (tokens = []) then Err (InvalidExample (lit "example cannot be an empty list"))
  else Ok tokens.

Definition parse_example (value : Value) : result Error (list str) :=
  match value with
  | VStr raw => parse_string_example raw
  | VList items => parse_list_example items
  | VOther _ => Err (InvalidExample
      (lit "example must be a string or list of strings (got " ++ get_type value ++ lit ")"))
  end.

Definition parse_examples (examples : list Value) : result Error (list (list str)) :=
  collect parse_example examples.

Definition parse_literal_absolute_path (raw : str) : result Error path :=
  if negb (is_absolute (components raw)) then
    Err (InvalidRule (lit "host_executable paths must be absolute (got " ++ raw ++ lit ")"))
  else match from_absolute_path home current_dir raw with
       | Some p => Ok p
       | None => Err (InvalidRule (lit "invalid absolute path `" ++ raw ++ lit "`"))
       end.

Definition validate_host_executable_name (name : str) : result Error unit :=
  if name =s? [] then Err (InvalidRule (lit "host_executable name cannot be empty"))
  else
    let path := components name in
    if negb (bool_decide (length path = 1)%nat) || negb (bool_decide (file_name path = Some name)) then
      Err (InvalidRule (lit "host_executable name must be a bare executable name (got " ++ name ++ lit ")"))
    else Ok tt.

Definition parse_network_rule_decision (raw : str) : result Error Decision :=
  if raw =s? lit "deny" then Ok Forbidden else decision_parse raw.

Definition attach_validation_location (error : Error) (location : option ErrorLocation) : Error :=
  match location with
  | Some location => with_location error location
  | None => error
  end.

(** ** The builder *)

Record PendingExampleValidation : Type := mkPending {
  pending_rules : list PrefixRule;
  pending_matches : list (list str);
  pending_not_matches : list (list str);
  pending_location : option ErrorLocation;
}.

Record PolicyBuilder : Type := mkBuilder {
  b_rules_by_program : gmap (list N) (list PrefixRule);
  b_network_rules : list NetworkRule;
  b_host_executables_by_name : gmap (list N) (list path);
  pending_example_validations : list PendingExampleValidation;
}.

Definition builder_new : PolicyBuilder := mkBuilder ∅ [] ∅ [].

Definition add_rule (b : PolicyBuilder) (rule : PrefixRule) : PolicyBuilder :=
  mkBuilder (mm_insert (b_rules_by_program b) (program rule) rule)
    (b_network_rules b) (b_host_executables_by_name b) (pending_example_validations b).
Definition builder_add_network_rule (b : PolicyBuilder) (rule : NetworkRule) : PolicyBuilder :=
  mkBuilder (b_rules_by_program b) (b_network_rules b ++ [rule])
    (b_host_executables_by_name b) (pending_example_validations b).
Definition add_host_executable (b : PolicyBuilder) (name : str) (paths : list path) : PolicyBuilder :=
  mkBuilder (b_rules_by_program b) (b_network_rules b)
    (<[name := paths]> (b_host_executables_by_name b)) (pending_example_validations b).
Definition add_pending_example_validation (b : PolicyBuilder) (v : PendingExampleValidation) : PolicyBuilder :=
  mkBuilder (b_rules_by_program b) (b_network_rules b)
    (b_host_executables_by_name b) (pending_example_validations b ++ [v]).

Definition validation_policy (b : PolicyBuilder) (v : PendingExampleValidation) : Policy :=
  mkPolicy (foldl (fun m rule => mm_insert m (program rule) rule) ∅ (pending_rules v))
    [] (b_host_executables_by_name b).

Definition validate_one (b : PolicyBuilder) (v : PendingExampleValidation) : result Error unit :=
  let policy := validation_policy b v in
  _ ← map_err (fun e => attach_validation_location e (pending_location v))
        (validate_not_match_examples home current_dir try_join debug_match policy
           (pending_rules v) (pending_not_matches v));
  map_err (fun e => attach_validation_location e (pending_location v))
    (validate_match_examples home current_dir try_join debug_rule policy
       (pending_rules v) (pending_matches v)).

Fixpoint validate_all (b : PolicyBuilder) (vs : list PendingExampleValidation) : result Error unit :=
  match vs with
  | [] => Ok tt
  | v :: vs' => _ ← validate_one b v; validate_all b vs'
  end.

(** [self.pending_example_validations[start..]] *)
Definition validate_pending_examples_from (b : PolicyBuilder) (start : nat) : result Error unit :=
  validate_all b (drop start (pending_example_validations b)).

Definition build (b : PolicyBuilder) : Policy :=
  mkPolicy (b_rules_by_program b) (b_network_rules b) (b_host_executables_by_name b).

(** ** The built-ins *)

Definition optional_examples (o : option (list Value)) : result Error (list (list str)) :=
  match o with Some examples => parse_examples examples | None => Ok [] end.

Definition checked_justification (justification : option str) : result Error (option str) :=
  if blank_justification justification then Err (InvalidRule (lit "justification cannot be empty"))
  else Ok justification.

Definition prefix_rule (pattern : list Value) (decision : option str)
    (match_ not_match : option (list Value)) (justification : option str)
    (location : option ErrorLocation) (b : PolicyBuilder) : result Error PolicyBuilder :=
  decision ← match decision with Some raw => decision_parse raw | None => Ok Allow end;
  justification ← checked_justification justification;
  pattern_tokens ← parse_pattern pattern;
  matches ← optional_examples match_;
  not_matches ← optional_examples not_match;
  match pattern_tokens with
  | [] => Err (InvalidPattern (lit "pattern cannot be empty"))
  | first_token :: rest =>
      let rules := map (fun head => mkRule (mkPattern head rest) decision justification)
                     (alternatives first_token) in
      let b := add_pending_example_validation b (mkPending rules matches not_matches location) in
      Ok (foldl add_rule b rules)
  end.

Definition network_rule (host protocol decision : str) (justification : option str)
    (b : PolicyBuilder) : result Error PolicyBuilder :=
  protocol ← protocol_parse protocol;
  decision ← parse_network_rule_decision decision;
  justification ← checked_justification justification;
  host ← normalize_network_rule_host host;
  Ok (builder_add_network_rule b (mkNetworkRule host protocol decision justification)).

Definition parse_host_path (name : str) (value : Value) : result Error path :=
  match unpack_str value with
  | None => Err (InvalidRule (lit "host_executable paths must be strings (got " ++ get_type value ++ lit ")"))
  | Some raw =>
      let wrong := Err (InvalidRule (lit "host_executable path `" ++ raw ++ lit "` must have basename `" ++ name ++ lit "`")) in
      path ← parse_literal_absolute_path raw;
      match executable_path_lookup_key path with
      | None => wrong
      | Some path_name => if negb (path_name =s? executable_lookup_key name) then wrong else Ok path
      end
  end.

Fixpoint parse_host_paths (name : str) (values : list Value) (parsed_paths : list path)
    : result Error (list path) :=
  match values with
  | [] => Ok parsed_paths
  | value :: values' =>
      path ← parse_host_path name value;
      parse_host_paths name values'
        (if existsb (fun existing => bool_decide (existing = path)) parsed_paths
         then parsed_paths else parsed_paths ++ [path])
  end.

Definition host_executable (name : str) (paths : list Value) (b : PolicyBuilder)
    : result Error PolicyBuilder :=
  _ ← validate_host_executable_name name;
  parsed_paths ← parse_host_paths name paths [];
  Ok (add_host_executable b (executable_lookup_key name) parsed_paths).

(** A policy file: the calls it makes. *)
Inductive Call : Type :=
| CallPrefixRule (pattern : list Value) (decision : option str)
    (match_ not_match : option (list Value)) (justification : option str)
    (location : option ErrorLocation)
| CallNetworkRule (host protocol decision : str) (justification : option str)
| CallHostExecutable (name : str) (paths : list Value).

Definition run_call (c : Call) (b : PolicyBuilder) : result Error PolicyBuilder :=
  match c with
  | CallPrefixRule pattern decision m n j loc => prefix_rule pattern decision m n j loc b
  | CallNetworkRule host protocol decision j => network_rule host protocol decision j b
  | CallHostExecutable name paths => host_executable name paths b
  end.

Fixpoint run_calls (cs : list Call) (b : PolicyBuilder) : result Error PolicyBuilder :=
  match cs with
  | [] => Ok b
  | c :: cs' => b ← run_call c b; run_calls cs' b
  end.

(** [PolicyParser::parse] *)
Definition parse (calls : list Call) (b : PolicyBuilder) : result Error PolicyBuilder :=
  let pending_validation_count := length (pending_example_validations b) in
  b ← run_calls calls b;
  _ ← validate_pending_examples_from b pending_validation_count;
  Ok b.
End parser.

(** ** Amending the policy file *)

(** The text of the file after a line was added to it. *)
Definition append_line (contents line : str) : str :=
  if existsb (fun existing => existing =s? line) (str_lines contents) then contents
  else (if negb (contents =s? []) && negb (ends_with [LF] contents)
        then contents ++ [LF] else contents) ++ line ++ [LF].

Inductive AmendError : Type :=
| EmptyPrefix
| InvalidNetworkRule (message : str)
| MissingParent (path : str)
| CreatePolicyDir (dir : str) (source : io_Error)
| SerializePrefix (source : str)
| SerializeNetworkRule (source : str)
| OpenPolicyFile (path : str) (source : io_Error)
| WritePolicyFile (path : str) (source : io_Error)
| LockPolicyFile (path : str) (source : io_Error)
| SeekPolicyFile (path : str) (source : io_Error)
| ReadPolicyFile (path : str) (source : io_Error)
| PolicyMetadata (path : str) (source : io_Error).

(** What the operating system answers to the calls on the policy file; the
    file is opened for appending, and [write_all] takes the text to append. *)
Record policy_file : Type := mkPolicyFile {
  policy_path : str;
  policy_dir : option str;
  create_dir : result io_Error unit;
  open_file : result io_Error unit;
  lock_file : result io_Error unit;
  seek_start : result io_Error unit;
  read_to_string : result io_Error str;
  write_all : str -> result io_Error unit;
}.

Section amend.
(** [serde_json::to_string] of a string. *)
Context (to_json : str -> result str str).
Context (show_Error : Error -> str).

(** The new text of the file. *)
Definition append_locked_line (f : policy_file) (line : str) : result AmendError str :=
  _ ← map_err (OpenPolicyFile (policy_path f)) (open_file f);
  _ ← map_err (LockPolicyFile (policy_path f)) (lock_file f);
  _ ← map_err (SeekPolicyFile (policy_path f)) (seek_start f);
  contents ← map_err (ReadPolicyFile (policy_path f)) (read_to_string f);
  if existsb (fun existing => existing =s? line) (str_lines contents) then Ok contents
  else
    contents ← (if negb (contents =s? []) && negb (ends_with [LF] contents)
                then _ ← map_err (WritePolicyFile (policy_path f)) (write_all f [LF]); Ok (contents ++ [LF])
                else Ok contents);
    _ ← map_err (WritePolicyFile (policy_path f)) (write_all f (line ++ [LF]));
    Ok (contents ++ line ++ [LF]).

Definition append_rule_line (f : policy_file) (rule : str) : result AmendError str :=
  match policy_dir f with
  | None => Err (MissingParent (policy_path f))
  | Some dir =>
      _ ← match create_dir f with
          | Ok _ => Ok tt
          | Err source =>
              if bool_decide (kind source = AlreadyExists) then Ok tt else Err (CreatePolicyDir dir source)
          end;
      append_locked_line f rule
  end.

Definition blocking_append_allow_prefix_rule (f : policy_file) (prefix : list str)
    : result AmendError str :=
  if bool_decide (prefix = []) then Err EmptyPrefix
  else
    tokens ← map_err SerializePrefix (collect to_json prefix);
    append_rule_line f
      (lit "prefix_rule(pattern=[" ++ join (lit ", ") tokens
       ++ lit "], decision=" ++ [34%N] ++ lit "allow" ++ [34%N] ++ lit ")").

Definition decision_keyword (d : Decision) : str :=
  match d with
  | Allow => lit "allow"
  | Prompt => lit "prompt"
  | Forbidden => lit "deny"
  end.

Definition blocking_append_network_rule (f : policy_file) (host : str) (protocol : NetworkRuleProtocol)
    (decision : Decision) (justification : option str) : result AmendError str :=
  host ← map_err (fun err => InvalidNetworkRule (show_Error err)) (normalize_network_rule_host host);
  if blank_justification justification then
    Err (InvalidNetworkRule (lit "justification cannot be empty"))
  else
    host ← map_err SerializeNetworkRule (to_json host);
    protocol ← map_err SerializeNetworkRule (to_json (as_policy_string protocol));
    decision ← map_err SerializeNetworkRule (to_json (decision_keyword decision));
    args ← match justification with
           | Some justification =>
               j ← map_err SerializeNetworkRule (to_json justification);
               Ok [lit "justification=" ++ j]
           | None => Ok []
           end;
    append_rule_line f
      (lit "network_rule("
       ++ join (lit ", ") ([lit "host=" ++ host; lit "protocol=" ++ protocol; lit "decision=" ++ decision] ++ args)
       ++ lit ")").
End amend.

(** ** Lemmas *)

Lemma add_rules_elem (rules : list PrefixRule) (b : PolicyBuilder) (r : PrefixRule) (k : str) :
  r ∈ default [] (b_rules_by_program (foldl add_rule b rules) !! k)
  <-> r ∈ default [] (b_rules_by_program b !! k) \/ (r ∈ rules /\ program r = k).
Proof.
  revert b. induction rules as [|x rules IH]; intros b; cbn [foldl]; [set_solver|].
  rewrite IH. cbn [add_rule b_rules_by_program]. unfold mm_insert.
  destruct (decide (program x = k)) as [<-|Hne].
  - rewrite lookup_insert_eq. simpl. rewrite elem_of_app, list_elem_of_singleton, elem_of_cons. naive_solver.
  - rewrite lookup_insert_ne by done. rewrite elem_of_cons. naive_solver.
Qed.

Lemma token_matches_alternatives t c : token_matches t c = true <-> c ∈ alternatives t.
Proof.
  destruct t as [e|alts]; cbn [token_matches alternatives].
  - rewrite bool_decide_eq_true. set_solver.
  - rewrite existsb_exists. setoid_rewrite <- list_elem_of_In. setoid_rewrite bool_decide_eq_true. naive_solver.
Qed.

Section validation.
Context (home current_dir : option path) (try_join : list str -> option str).
Context (debug_rule : PrefixRule -> str) (debug_match : RuleMatch -> str).
Abbreviation matches_of p ex := (matches_for_command_with_options home current_dir p ex None (mkOptions true))
  (only parsing).

Lemma validate_match_ok p rules ms :
  validate_match_examples home current_dir try_join debug_rule p rules ms = Ok tt ->
  forall ex, ex ∈ ms -> matches_of p ex <> [].
Proof.
  unfold validate_match_examples. destruct (filter _ ms) eqn:Hf; [|done]. intros _ ex Hex Hm.
  assert (ex ∈ filter (fun example => matches_of p example = []) ms) as Hin
    by (by apply list_elem_of_filter).
  rewrite Hf in Hin. set_solver.
Qed.

Lemma validate_not_match_ok p rules ms :
  validate_not_match_examples home current_dir try_join debug_match p rules ms = Ok tt ->
  forall ex, ex ∈ ms -> matches_of p ex = [].
Proof.
  induction ms as [|x ms IH]; cbn [validate_not_match_examples]; [set_solver|].
  destruct (matches_of p x) eqn:Hx; [|done]. intros Hv ex Hex.
  apply elem_of_cons in Hex as [->|Hex]; [done|by apply IH].
Qed.

Lemma map_err_ok {E F A} (f : E -> F) (r : result E A) a : map_err f r = Ok a -> r = Ok a.
Proof. destruct r; naive_solver. Qed.

Lemma validate_all_ok b vs :
  validate_all home current_dir try_join debug_rule debug_match b vs = Ok tt ->
  forall v, v ∈ vs ->
    (forall ex, ex ∈ pending_matches v -> matches_of (validation_policy b v) ex <> [])
    /\ (forall ex, ex ∈ pending_not_matches v -> matches_of (validation_policy b v) ex = []).
Proof.
  induction vs as [|x vs IH]; cbn [validate_all]; [set_solver|]. intros Hv v Hin.
  apply result_bind_ok in Hv as ([] & Hx & Hv). apply elem_of_cons in Hin as [->|Hin]; [|by apply IH].
  unfold validate_one in Hx. apply result_bind_ok in Hx as ([] & Hn & Hm).
  apply map_err_ok in Hn, Hm. split; [by eapply validate_match_ok|by eapply validate_not_match_ok].
Qed.
End validation.

Lemma split_on_cat (c : char) (s t : str) : split_on c (s ++ c :: t) = split_on c s ++ split_on c t.
Proof.
  induction s as [|x s IH]; cbn [app split_on]; [by rewrite N.eqb_refl|].
  destruct (x =? c)%N; [by rewrite IH|]. rewrite IH.
  destruct (split_on c s) eqn:Hs; [|done]. destruct s as [|y s]; [done|]. cbn [split_on] in Hs.
  destruct (y =? c)%N; [done|]. by destruct (split_on c s).
Qed.

Lemma lines_of_pieces_app (ps qs : list str) :
  qs <> [] -> lines_of_pieces (ps ++ qs) = map strip_cr ps ++ lines_of_pieces qs.
Proof.
  intros Hq. induction ps as [|p ps IH]; [done|]. cbn [app map]. rewrite <- IH.
  destruct (ps ++ qs) eqn:He; [|done]. by destruct ps, qs.
Qed.

Lemma str_lines_terminated (s t : str) :
  str_lines (s ++ LF :: t) = map strip_cr (split_on LF s) ++ str_lines t.
Proof.
  unfold str_lines. rewrite split_on_cat. apply lines_of_pieces_app.
  destruct t as [|x t]; cbn [split_on]; [done|]. destruct (x =? LF)%N; [done|]. by destruct (split_on LF t).
Qed.

Lemma str_lines_one (line : str) : line_ok line -> str_lines (line ++ [LF]) = [line].
Proof.
  intros [Hl Hc]. rewrite str_lines_terminated. rewrite split_on_app_no by done. cbn [map].
  by rewrite strip_cr_id.
Qed.

Lemma split_on_snoc_last (s : str) (x : char) :
  x <> LF -> exists ps p, split_on LF (s ++ [x]) = ps ++ [p ++ [x]].
Proof.
  intros Hx. induction s as [|y s (ps & p & IH)]; cbn [app split_on].
  - rewrite (proj2 (N.eqb_neq _ _)) by done. by exists [], [].
  - rewrite IH. destruct (y =? LF)%N; [by exists ([] :: ps), p|].
    destruct ps as [|q ps]; [by exists [], (y :: p)|by exists ((y :: q) :: ps), p].
Qed.

(** Ending an unfinished last line does not change the lines. *)
Lemma str_lines_unterminated (s : str) (x : char) :
  x <> LF -> x <> CR -> str_lines (s ++ [x]) = map strip_cr (split_on LF (s ++ [x])).
Proof.
  intros Hx Hc. unfold str_lines. destruct (split_on_snoc_last s x Hx) as (ps & p & ->).
  rewrite lines_of_pieces_app, map_app by done. f_equal. cbn [lines_of_pieces map].
  rewrite bool_decide_eq_false_2 by (by destruct p). rewrite strip_cr_id; [done|]. rewrite last_snoc. congruence.
Qed.

Lemma existing_line (ls : list str) (line : str) :
  existsb (fun existing => existing =s? line) ls = bool_decide (line ∈ ls).
Proof.
  apply eq_true_iff_eq. rewrite existsb_exists, bool_decide_eq_true.
  setoid_rewrite <- list_elem_of_In. setoid_rewrite bool_decide_eq_true. naive_solver.
Qed.

(** ** Properties *)

(** A rule in a policy file is enforced: after [prefix_rule] succeeds, a
    command that matches the pattern token by token, also through an
    alternative of the program token, is decided at least as strictly as the
    rule says, whatever was in the builder before. *)
Theorem prefix_rule_enforced (home current_dir : option path) (shlex_split : str -> option (list str))
    pat decision m n j loc (b b' : PolicyBuilder)
    (tokens : list PatternToken) (c : str) (args tail : list str) (d : Decision) (fallback : list str -> Decision) :
  prefix_rule shlex_split pat decision m n j loc b = Ok b' ->
  parse_pattern pat = Ok tokens ->
  match decision with Some raw => decision_parse raw | None => Ok Allow end = Ok d ->
  Forall2 (fun t a => token_matches t a = true) tokens (c :: args) ->
  exists e, check home current_dir (build b') (c :: args ++ tail) fallback = Some e
    /\ decision_le d (eval_decision e).
Proof.
  intros Hr Hp Hd Hf. unfold prefix_rule in Hr. rewrite Hd in Hr. cbn [mbind result_bind] in Hr.
  apply result_bind_ok in Hr as (j' & _ & Hr). rewrite Hp in Hr. cbn [mbind result_bind] in Hr.
  apply result_bind_ok in Hr as (ms & _ & Hr). apply result_bind_ok in Hr as (ns & _ & Hr).
  inversion Hf as [|t a ts as_ Ht Hts]; subst. cbn zeta in Hr.
  injection Hr as <-. set (rule := mkRule (mkPattern c ts) d j').
  match goal with |- context [foldl add_rule ?b0 ?rs] => set (b1 := b0); set (rules := rs) end.
  assert (rule ∈ default [] (b_rules_by_program (foldl add_rule b1 rules) !! c)) as Hin.
  { apply add_rules_elem. right. split; [|done]. apply list_elem_of_fmap. exists c. split; [done|].
    by apply token_matches_alternatives. }
  destruct (b_rules_by_program (foldl add_rule b1 rules) !! c) as [rs|] eqn:Hrs; [|set_solver].
  assert (match_prefix : matches_prefix (pattern rule) (c :: args ++ tail) = Some (c :: args)).
  { unfold matches_prefix. cbn [rule pattern rest first]. pose proof (Forall2_length _ _ _ Hts) as Hlen.
    rewrite Nat.add_1_r. rewrite bool_decide_eq_false_2 by (simpl; rewrite length_app; lia).
    rewrite bool_decide_eq_true_2 by done. cbn [negb take drop].
    rewrite drop_0, take_app_length' by done. rewrite (proj2 (zip_matches_Forall2 _ _ (eq_sym Hlen)) Hts). done. }
  unfold check, check_with_options.
  destruct (from_matches_spec _ (matches_nonempty home current_dir (build (foldl add_rule b1 rules))
    (c :: args ++ tail) fallback default_options)) as (e & -> & _ & Hup & _).
  exists e. split; [done|].
  destruct (match_exact_in (build (foldl add_rule b1 rules)) c (args ++ tail) rs rule
    (PrefixRuleMatch (c :: args) d None j')) as (es & Hes & Hin');
    [done|done|unfold rule_matches; by rewrite match_prefix|].
  destruct es as [|e0 es]; [set_solver|].
  rewrite (matches_exact home current_dir _ _ _ default_options _ _ Hes) in Hup. by apply (Hup _ Hin').
Qed.

Definition no_shlex (_ : str) : option (list str) := None.
Definition demo_pattern : list Value := [VList [VStr (lit "git"); VStr (lit "hub")]; VStr (lit "push")].
Definition demo_tokens : list PatternToken := [Alts [lit "git"; lit "hub"]; Single (lit "push")].

Lemma prefix_rule_enforced_witness :
  exists b', prefix_rule no_shlex demo_pattern (Some (lit "forbidden")) None None None None builder_new = Ok b'
    /\ exists e, check None None (build b') (lit "hub" :: [lit "push"] ++ [lit "-f"]) (fun _ => Allow) = Some e
       /\ decision_le Forbidden (eval_decision e).
Proof.
  eexists. split; [reflexivity|].
  eapply (prefix_rule_enforced None None no_shlex demo_pattern (Some (lit "forbidden")) None None None None
    builder_new _ demo_tokens (lit "hub") [lit "push"] [lit "-f"] Forbidden (fun _ => Allow));
    [reflexivity|reflexivity|reflexivity|repeat constructor].
Defined.

(** Examples in a policy file are checked: when [parse] accepts a file, every
    [match] example of each of its rules matches the rule, and no [not_match]
    example does. *)
Theorem parse_examples_hold (home current_dir : option path) (shlex_split : str -> option (list str))
    (try_join : list str -> option str) (debug_rule : PrefixRule -> str) (debug_match : RuleMatch -> str)
    (calls : list Call) (b b' : PolicyBuilder) (v : PendingExampleValidation) :
  parse home current_dir shlex_split try_join debug_rule debug_match calls b = Ok b' ->
  v ∈ drop (length (pending_example_validations b)) (pending_example_validations b') ->
  (forall ex, ex ∈ pending_matches v ->
     matches_for_command_with_options home current_dir (validation_policy b' v) ex None (mkOptions true) <> [])
  /\ (forall ex, ex ∈ pending_not_matches v ->
     matches_for_command_with_options home current_dir (validation_policy b' v) ex None (mkOptions true) = []).
Proof.
  unfold parse. intros Hp Hv. apply result_bind_ok in Hp as (b1 & _ & Hp).
  apply result_bind_ok in Hp as ([] & Hval & Hp). simplify_eq.
  by eapply validate_all_ok.
Qed.

Definition demo_calls : list Call :=
  [CallPrefixRule demo_pattern None (Some [VList [VStr (lit "git"); VStr (lit "push")]])
     (Some [VList [VStr (lit "git"); VStr (lit "pull")]]) None None].

Definition demo_parse : result Error PolicyBuilder :=
  parse None None no_shlex (fun _ => None) (fun _ => []) (fun _ => []) demo_calls builder_new.

Lemma parse_examples_hold_witness :
  exists b' v, demo_parse = Ok b' /\ pending_not_matches v = [[lit "git"; lit "pull"]]
    /\ (forall ex, ex ∈ pending_not_matches v ->
        matches_for_command_with_options None None (validation_policy b' v) ex None (mkOptions true) = []).
Proof.
  eexists _, (mkPending _ _ _ _). split; [vm_compute; reflexivity|]. split; [reflexivity|].
  eapply (parse_examples_hold None None no_shlex (fun _ => None) (fun _ => []) (fun _ => []) demo_calls builder_new);
    [vm_compute; reflexivity|]. left.
Defined.

(** The lines of a file after a line was added. *)
Lemma append_line_lines (contents line : str) :
  line_ok line -> last contents <> Some CR ->
  str_lines (append_line contents line)
  = if decide (line ∈ str_lines contents) then str_lines contents else str_lines contents ++ [line].
Proof.
  intros Hl Hcr. unfold append_line. rewrite existing_line.
  destruct (decide (line ∈ str_lines contents)) as [Hin|Hin]; [by rewrite bool_decide_eq_true_2|].
  rewrite bool_decide_eq_false_2 by done.
  destruct contents as [|x s _] using rev_ind; [by apply str_lines_one|].
  rewrite last_snoc in Hcr. rewrite (bool_decide_eq_false_2 (s ++ [x] = [])) by (by destruct s).
  cbn [negb andb]. destruct (decide (x = LF)) as [->|Hx].
  - unfold ends_with. rewrite bool_decide_eq_true_2 by (exists s; by apply strip_suffix_Some).
    cbn [negb]. rewrite <- app_assoc. cbn [app]. rewrite (str_lines_terminated s (line ++ [LF])), str_lines_one by done.
    by rewrite (str_lines_terminated s []), app_nil_r.
  - unfold ends_with. rewrite bool_decide_eq_false_2.
    2:{ intros [r Hr]. apply strip_suffix_Some in Hr. by simplify_list_eq. }
    cbn [negb]. rewrite str_lines_unterminated by congruence.
    rewrite <- !app_assoc. cbn [app]. change (s ++ x :: LF :: ?t) with (s ++ [x] ++ LF :: t).
    rewrite app_assoc, (str_lines_terminated (s ++ [x]) (line ++ [LF])), str_lines_one by done. done.
Qed.

(** A successful append computes [append_line]. *)
Lemma append_locked_line_text (f : policy_file) (line contents t : str) :
  read_to_string f = Ok contents -> append_locked_line f line = Ok t -> t = append_line contents line.
Proof.
  unfold append_locked_line, append_line. intros Hr Ha. rewrite Hr in Ha.
  do 3 apply result_bind_ok in Ha as ([] & _ & Ha). cbn [map_err mbind result_bind] in Ha.
  destruct (existsb _ _); [by simplify_eq|]. apply result_bind_ok in Ha as (c & Hc & Ha).
  apply result_bind_ok in Ha as ([] & _ & Ha). injection Ha as <-.
  destruct (_ && _); [|by simplify_eq]. apply result_bind_ok in Hc as ([] & _ & Hc). by simplify_eq.
Qed.

(** Remembering a rule: a successful append to a policy file keeps the lines
    it has and adds the new one at the end unless it is already there, also when
    the last line of the file was not ended; and when the file already has the
    line, nothing is written, so that appending twice is appending once. *)
Theorem append_locked_line_spec (f g : policy_file) (contents line t : str) :
  line_ok line -> last contents <> Some CR ->
  read_to_string f = Ok contents -> append_locked_line f line = Ok t ->
  str_lines t = (if decide (line ∈ str_lines contents) then str_lines contents else str_lines contents ++ [line])
  /\ (read_to_string g = Ok t -> forall t', append_locked_line g line = Ok t' -> t' = t).
Proof.
  intros Hl Hcr Hr Ha. rewrite (append_locked_line_text _ _ _ _ Hr Ha).
  pose proof (append_line_lines contents line Hl Hcr) as Hlines. split; [done|].
  intros Hg t' Ht'. rewrite (append_locked_line_text _ _ _ _ Hg Ht').
  unfold append_line at 1. rewrite existing_line, Hlines, bool_decide_eq_true_2; [done|].
  destruct (decide _); [done|set_solver].
Qed.

Definition demo_file (contents : str) : policy_file :=
  mkPolicyFile (lit "p") (Some (lit ".")) (Ok tt) (Ok tt) (Ok tt) (Ok tt) (Ok contents) (fun _ => Ok tt).

Lemma append_locked_line_witness :
  let t := lit "a" ++ [LF] ++ lit "b" ++ [LF] in
  str_lines t = (if decide (lit "b" ∈ str_lines (lit "a")) then str_lines (lit "a") else str_lines (lit "a") ++ [lit "b"])
  /\ (read_to_string (demo_file t) = Ok t -> forall t', append_locked_line (demo_file t) (lit "b") = Ok t' -> t' = t).
Proof.
  apply (append_locked_line_spec (demo_file (lit "a")) _ (lit "a") (lit "b"));
    [apply (bool_decide_unpack _); vm_compute; exact I|discriminate|reflexivity|reflexivity].
Defined.

(** What [blocking_append_network_rule] writes for a protocol and a decision is
    what the parser reads back. *)
Theorem network_keywords_roundtrip (p : NetworkRuleProtocol) (d : Decision) :
  protocol_parse (as_policy_string p) = Ok p /\ parse_network_rule_decision (decision_keyword d) = Ok d.
Proof. destruct p, d; split; vm_compute; reflexivity. Qed.

(** The host is not: normalisation is not idempotent, since the content of a
    bracketed literal is not checked to be an address. *)
Theorem normalize_host_not_idempotent :
  normalize_network_rule_host (lit "[example.com:80]") = Ok (lit "example.com:80")
  /\ normalize_network_rule_host (lit "example.com:80") = Ok (lit "example.com").
Proof. split; vm_compute; reflexivity. Qed.
