(* ===== verification/ShellParse.v ===== *)
(** * Plain commands of a shell script: [shell-command/src/bash.rs]

    A script given to [bash -lc] is parsed by tree-sitter, and the tree is
    walked: a script of plain commands joined by [&&], [||], [;] and [|] is cut
    into these commands, a single command with a here-document is recognised by
    its words, and anything else is left whole.  The tree-sitter parser is not
    part of the repository: the functions below take the tree it returns.

    The theorems show that a script is cut exactly when every node of its tree
    is one the code allows, that no command of the tree is left out, and that
    the words of a command are its literal text. *)

From S2P Require Import Prelude.

(** ** Trees

    A node of the concrete syntax tree: its kind, whether it is named, the byte
    it starts at, the source text it spans and its children. *)
Inductive Node : Type :=
  mkNode (kind : str) (named : bool) (start_byte : nat) (text : str) (children : list Node).
Definition node_kind (n : Node) : str := let 'mkNode kind _ _ _ _ := n in kind.
Definition is_named (n : Node) : bool := let 'mkNode _ named _ _ _ := n in named.
Definition start_byte (n : Node) : nat := let 'mkNode _ _ start _ _ := n in start.
Definition utf8_text (n : Node) : str := let 'mkNode _ _ _ text _ := n in text.
Definition children (n : Node) : list Node := let 'mkNode _ _ _ _ children := n in children.
Definition named_children (n : Node) : list Node := List.filter is_named (children n).

(** [root.has_error()] tells whether the parser had to recover from an error. *)
Record Tree : Type := mkTree { root_node : Node; has_error : bool }.

(** A node and all nodes below it. *)
Fixpoint nodes (n : Node) : list Node :=
  match n with mkNode _ _ _ _ children => n :: flat_map nodes children end.

Definition is_kind (kind : string) (n : Node) : bool := node_kind n =s? lit kind.

(** ** Words *)

Definition QUOTE : str := [39%N].
Definition DOUBLE_QUOTE : str := [34%N].

Definition parse_double_quoted_string (node : Node) : option str :=
  if negb (is_kind "string" node) then None
  else if negb (forallb (is_kind "string_content") (named_children node)) then None
  else
    text ← strip_prefix DOUBLE_QUOTE (utf8_text node);
    strip_suffix DOUBLE_QUOTE text.

Definition parse_raw_string (node : Node) : option str :=
  if negb (is_kind "raw_string" node) then None
  else
    s ← strip_prefix QUOTE (utf8_text node);
    strip_suffix QUOTE s.

(** The loop over the parts of a concatenation. *)
Fixpoint concatenated_parts (concatenated : str) (parts : list Node) : option str :=
  match parts with
  | [] => Some concatenated
  | part :: parts =>
      if is_kind "word" part || is_kind "number" part then
        concatenated_parts (concatenated ++ utf8_text part) parts
      else if is_kind "string" part then
        parsed ← parse_double_quoted_string part;
        concatenated_parts (concatenated ++ parsed) parts
      else if is_kind "raw_string" part then
        parsed ← parse_raw_string part;
        concatenated_parts (concatenated ++ parsed) parts
      else None
  end.

(** One child of a command. *)
Definition plain_child (child : Node) : option str :=
  if is_kind "command_name" child then
    word_node ← head (named_children child);
    if negb (is_kind "word" word_node) then None else Some (utf8_text word_node)
  else if is_kind "word" child || is_kind "number" child then Some (utf8_text child)
  else if is_kind "string" child then parse_double_quoted_string child
  else if is_kind "raw_string" child then parse_raw_string child
  else if is_kind "concatenation" child then
    concatenated ← concatenated_parts [] (named_children child);
    if concatenated =s? [] then None else Some concatenated
  else None.

Definition parse_plain_command_from_node (cmd : Node) : option (list str) :=
  if negb (is_kind "command" cmd) then None else mapM plain_child (named_children cmd).

(** ** Scripts of plain commands *)

Definition ALLOWED_KINDS : list str :=
  [lit "program"; lit "list"; lit "pipeline"; lit "command"; lit "command_name"; lit "word"; lit "string";
   lit "string_content"; lit "raw_string"; lit "number"; lit "concatenation"].
Definition ALLOWED_PUNCT_TOKENS : list str := [lit "&&"; lit "||"; lit ";"; lit "|"; DOUBLE_QUOTE; QUOTE].

(** The check of one node: whether the walk goes on. *)
Definition node_allowed (node : Node) : bool :=
  let kind := node_kind node in
  if is_named node then bool_decide (kind ∈ ALLOWED_KINDS)
  else if existsb (fun c => existsb (N.eqb c) (lit "&;|")) kind && negb (bool_decide (kind ∈ ALLOWED_PUNCT_TOKENS))
  then false
  else bool_decide (kind ∈ ALLOWED_PUNCT_TOKENS) || (trim kind =s? []).

(** The loop over the stack, its top first; the outer [None] is the end of the
    fuel. *)
Fixpoint walk (fuel : nat) (stack command_nodes : list Node) : option (option (list Node)) :=
  match stack with
  | [] => Some (Some command_nodes)
  | node :: stack =>
      match fuel with
      | O => None
      | S fuel =>
          if negb (node_allowed node) then Some None
          else walk fuel (rev (children node) ++ stack)
                 (if is_named node && is_kind "command" node then command_nodes ++ [node] else command_nodes)
      end
  end.

Definition try_parse_word_only_commands_sequence (tree : Tree) : option (list (list str)) :=
  if has_error tree then None
  else
    command_nodes ← walk (length (nodes (root_node tree))) [root_node tree] [] ≫= id;
    mapM parse_plain_command_from_node (sort_by_key start_byte command_nodes).

(** ** Here-documents *)

Definition is_literal_word_or_number (node : Node) : bool :=
  (is_kind "word" node || is_kind "number" node) && match named_children node with [] => true | _ => false end.
Definition is_allowed_heredoc_attachment_kind (kind : str) : bool :=
  bool_decide (kind ∈ [lit "heredoc_body"; lit "simple_heredoc_body"; lit "heredoc_redirect"; lit "herestring_redirect";
                       lit "redirected_statement"]).

(** The words one child of the command adds. *)
Definition heredoc_child (child : Node) : option (list str) :=
  if is_kind "command_name" child then
    word_node ← head (named_children child);
    if negb (is_kind "word" word_node || is_kind "number" word_node) || negb (is_literal_word_or_number word_node)
    then None else Some [utf8_text word_node]
  else if is_kind "word" child || is_kind "number" child then
    if negb (is_literal_word_or_number child) then None else Some [utf8_text child]
  else if is_kind "comment" child then Some []
  else if is_allowed_heredoc_attachment_kind (node_kind child) then Some []
  else None.
Definition parse_heredoc_command_words (cmd : Node) : option (list str) :=
  if negb (is_kind "command" cmd) then None
  else
    words ← @concat str <$> mapM heredoc_child (named_children cmd);
    if bool_decide (words = []) then None else Some words.

(** The loops below follow named children only. *)
Fixpoint find_single_loop (fuel : nat) (stack : list Node) (single_command : option Node) : option (option Node) :=
  match stack with
  | [] => Some single_command
  | node :: stack =>
      match fuel with
      | O => None
      | S fuel =>
          let next := rev (named_children node) ++ stack in
          if is_kind "command" node
          then match single_command with Some _ => Some None | None => find_single_loop fuel next (Some node) end
          else find_single_loop fuel next single_command
      end
  end.
Definition find_single_command_node (root : Node) : option Node :=
  find_single_loop (length (nodes root)) [root] None ≫= id.

Fixpoint has_kind_loop (fuel : nat) (stack : list Node) (kind : string) : option bool :=
  match stack with
  | [] => Some false
  | current :: stack =>
      match fuel with
      | O => None
      | S fuel =>
          if is_kind kind current then Some true else has_kind_loop fuel (rev (named_children current) ++ stack) kind
      end
  end.
Definition has_named_descendant_kind (node : Node) (kind : string) : bool :=
  default false (has_kind_loop (length (nodes node)) [node] kind).

(** ** Entry points

    On the tree of the script of an invocation. *)
Definition word_only_commands (parse : str -> option Tree) (script : str) : option (list (list str)) :=
  parse script ≫= try_parse_word_only_commands_sequence.

Definition single_command_prefix (parse : str -> option Tree) (script : str) : option (list str) :=
  tree ← parse script;
  let root := root_node tree in
  if has_error tree then None
  else if negb (has_named_descendant_kind root "heredoc_redirect") then None
  else if has_named_descendant_kind root "file_redirect" then None
  else
    command_node ← find_single_command_node root;
    parse_heredoc_command_words command_node.

(** ** The walks reach every node *)

Definition stack_size (stack : list Node) : nat := length (flat_map nodes stack).

Lemma nodes_children n : nodes n = n :: flat_map nodes (children n).
Proof. by destruct n. Qed.
Lemma size_children n stack : stack_size (children n ++ stack) = (length (nodes n) - 1 + stack_size stack)%nat.
Proof. unfold stack_size. rewrite flat_map_app, length_app, nodes_children. cbn [length]. lia. Qed.
Lemma flat_map_perm {A B} (f : A -> list B) (l l' : list A) : l ≡ₚ l' -> flat_map f l ≡ₚ flat_map f l'.
Proof.
  induction 1 as [|x l l' _ IH|x y l|l1 l2 l3 _ IH1 _ IH2]; cbn [flat_map]; [done|by rewrite IH| |by rewrite IH1].
  rewrite !app_assoc. by rewrite (Permutation_app_comm (f y) (f x)).
Qed.
Lemma size_rev n stack : stack_size (rev (children n) ++ stack) = stack_size (children n ++ stack).
Proof.
  unfold stack_size. apply Permutation_length, flat_map_perm. by rewrite <- Permutation_rev.
Qed.

(** The walk visits every node: it stops at the first that is not allowed, and
    otherwise gathers all the commands. *)
Lemma walk_spec fuel stack acc :
  (stack_size stack ≤ fuel)%nat ->
  if forallb node_allowed (flat_map nodes stack)
  then exists cs, walk fuel stack acc = Some (Some (acc ++ cs))
       /\ cs ≡ₚ List.filter (fun n => is_named n && is_kind "command" n) (flat_map nodes stack)
  else walk fuel stack acc = Some None.
Proof.
  revert stack acc. induction fuel as [|fuel IH]; intros [|n stack] acc Hf.
  - exists []. by rewrite app_nil_r.
  - unfold stack_size in Hf. cbn [flat_map] in Hf. rewrite length_app, nodes_children in Hf. cbn in Hf. lia.
  - exists []. by rewrite app_nil_r.
  - cbn [walk flat_map]. rewrite nodes_children. cbn [app forallb List.filter].
    destruct (node_allowed n); cbn [negb andb]; [|done].
    assert (stack_size (rev (children n) ++ stack) ≤ fuel)%nat as Hs.
    { rewrite size_rev, size_children. unfold stack_size in Hf. cbn [flat_map] in Hf. rewrite length_app in Hf.
      rewrite nodes_children in *. cbn [length] in *. unfold stack_size. lia. }
    assert (flat_map nodes (rev (children n) ++ stack) ≡ₚ flat_map nodes (children n) ++ flat_map nodes stack) as Hperm.
    { rewrite <- flat_map_app. apply flat_map_perm. by rewrite <- Permutation_rev. }
    set (acc' := if is_named n && is_kind "command" n then acc ++ [n] else acc).
    specialize (IH (rev (children n) ++ stack) acc' Hs).
    assert (forallb node_allowed (flat_map nodes (rev (children n) ++ stack))
      = forallb node_allowed (flat_map nodes (children n) ++ flat_map nodes stack)) as Heq.
    { apply eq_true_iff_eq. rewrite !forallb_forall. setoid_rewrite <- list_elem_of_In. by setoid_rewrite Hperm. }
    rewrite Heq in IH. destruct (forallb node_allowed _); [|done].
    destruct IH as (cs & -> & Hcs).
    exists ((if is_named n && is_kind "command" n then [n] else []) ++ cs). unfold acc'. split.
    + destruct (is_named n && is_kind "command" n); by rewrite <- ?app_assoc.
    + assert (List.filter (fun n => is_named n && is_kind "command" n) (flat_map nodes (rev (children n) ++ stack))
        ≡ₚ List.filter (fun n => is_named n && is_kind "command" n) (flat_map nodes (children n) ++ flat_map nodes stack)) as Hfp.
      { clear -Hperm. induction Hperm; cbn; repeat case_goal; eauto using Permutation. }
      rewrite Hcs, Hfp. by destruct (is_named n && is_kind "command" n).
Qed.

(** ** Words are literal text *)

(** A piece of a word: bare, between double quotes with nothing to expand, or
    between single quotes. *)
Inductive literal : Node -> str -> Prop :=
| literal_bare n : is_kind "word" n = true \/ is_kind "number" n = true -> literal n (utf8_text n)
| literal_double n s :
    is_kind "string" n = true -> Forall (fun part => is_kind "string_content" part = true) (named_children n) ->
    utf8_text n = DOUBLE_QUOTE ++ s ++ DOUBLE_QUOTE -> literal n s
| literal_single n s : is_kind "raw_string" n = true -> utf8_text n = QUOTE ++ s ++ QUOTE -> literal n s.

Inductive argument : Node -> str -> Prop :=
| argument_name n w rest :
    is_kind "command_name" n = true -> named_children n = w :: rest -> is_kind "word" w = true ->
    argument n (utf8_text w)
| argument_literal n s : literal n s -> argument n s
| argument_concatenation n parts :
    is_kind "concatenation" n = true -> Forall2 literal (named_children n) parts -> concat parts <> [] ->
    argument n (concat parts).

(** The words a command node is written with. *)
Definition spells (cmd : Node) (words : list str) : Prop :=
  is_kind "command" cmd = true /\ Forall2 argument (named_children cmd) words.

(** A kind excludes every other. *)
Lemma kinds_differ k k' n : is_kind k n = true -> lit k <> lit k' -> is_kind k' n = false.
Proof. unfold is_kind. intros Hk Hne. bool_to_prop. apply bool_decide_eq_false_2. congruence. Qed.
Ltac other_kind :=
  match goal with H : is_kind ?k ?n = true |- context [is_kind ?k' ?n] =>
    rewrite (kinds_differ k k' n H) by (apply (bool_decide_unpack _); vm_compute; exact I) end.

Lemma strip_quotes (q text s : str) :
  (t ← strip_prefix q text; strip_suffix q t) = Some s <-> text = q ++ s ++ q.
Proof.
  assert (forall t, strip_suffix q t = Some s <-> t = s ++ q) as Hsuf.
  { intros t. unfold strip_suffix. rewrite fmap_Some. setoid_rewrite strip_prefix_Some. split.
    - intros (r & Hr & ->). rewrite <- (reverse_involutive t), Hr, reverse_app, reverse_involutive. done.
    - intros ->. exists (reverse s). rewrite reverse_app, reverse_involutive. done. }
  split.
  - intros (t & Ht & Hs)%bind_Some. apply strip_prefix_Some in Ht as ->. apply Hsuf in Hs as ->. done.
  - intros ->. apply bind_Some. exists (s ++ q). split; [by apply strip_prefix_Some|by apply Hsuf].
Qed.

Lemma double_quoted_literal n s :
  parse_double_quoted_string n = Some s <->
  is_kind "string" n = true /\ Forall (fun part => is_kind "string_content" part = true) (named_children n)
  /\ utf8_text n = DOUBLE_QUOTE ++ s ++ DOUBLE_QUOTE.
Proof.
  unfold parse_double_quoted_string. destruct (is_kind "string" n); cbn [negb]; [|naive_solver].
  assert (forallb (is_kind "string_content") (named_children n) = true
    <-> Forall (fun part => is_kind "string_content" part = true) (named_children n)) as Hall.
  { rewrite forallb_forall, Forall_forall. by setoid_rewrite <- list_elem_of_In. }
  destruct (forallb _ _) eqn:Hf; cbn [negb].
  - rewrite strip_quotes. naive_solver.
  - split; [done|]. intros (_ & H & _). apply Hall in H. congruence.
Qed.
Lemma raw_literal n s :
  parse_raw_string n = Some s <-> is_kind "raw_string" n = true /\ utf8_text n = QUOTE ++ s ++ QUOTE.
Proof.
  unfold parse_raw_string. destruct (is_kind "raw_string" n); cbn [negb]; [|naive_solver].
  rewrite strip_quotes. naive_solver.
Qed.

Lemma literal_fun n s s' : literal n s -> literal n s' -> s = s'.
Proof.
  assert (forall q (a b : str), q ++ a ++ q = q ++ b ++ q -> a = b) as Hinj.
  { intros q a b H. apply (app_inv_head q) in H. by apply (app_inv_tail q) in H. }
  assert (forall k k', is_kind k n = true -> is_kind k' n = true -> lit k = lit k') as Hkind.
  { unfold is_kind. intros k k' H1 H2. apply bool_decide_eq_true in H1, H2. congruence. }
  intros Hl Hl'. destruct Hl as [m Hk|m t Hk _ Ht|m t Hk Ht]; inversion Hl' as [m' Hk'|m' t' Hk' _ Ht'|m' t' Hk' Ht']; subst; try done.
  all: repeat match goal with H : _ \/ _ |- _ => destruct H end.
  all: try (match goal with H1 : is_kind ?k _ = true, H2 : is_kind ?k' _ = true |- _ =>
    pose proof (Hkind k k' H1 H2) as Heq; exfalso; revert Heq; apply (bool_decide_unpack _); vm_compute; exact I end).
  all: eapply Hinj; etransitivity; [symmetry|]; eassumption.
Qed.

Lemma concatenated_parts_spec acc parts s :
  concatenated_parts acc parts = Some s <-> exists ss, Forall2 literal parts ss /\ s = acc ++ concat ss.
Proof.
  revert acc. induction parts as [|part parts IH]; intros acc; cbn [concatenated_parts].
  - split; [intros [= <-]; exists []; by rewrite app_nil_r|]. intros (ss & Hss & ->). inversion Hss. by rewrite app_nil_r.
  - assert (forall piece, literal part piece ->
      concatenated_parts (acc ++ piece) parts = Some s
      <-> exists ss, Forall2 literal (part :: parts) ss /\ s = acc ++ concat ss) as Hstep.
    { intros piece Hp. rewrite IH. split.
      - intros (ss & Hss & ->). exists (piece :: ss). split; [by constructor|]. cbn. by rewrite app_assoc.
      - intros (ss & Hss & ->). inversion Hss as [|? t ? ss' Ht Hss']; subst. exists ss'. split; [done|].
        rewrite (literal_fun part piece t Hp Ht). cbn. by rewrite app_assoc. }
    assert ((forall piece, ~ literal part piece) ->
      None = Some s <-> exists ss, Forall2 literal (part :: parts) ss /\ s = acc ++ concat ss) as Hnone.
    { intros Hno. split; [done|]. intros (ss & Hss & _). inversion Hss as [|? t ? ss' Ht]; subst. by destruct (Hno t). }
    destruct (is_kind "word" part || is_kind "number" part) eqn:Hw.
    { apply Hstep. constructor. by apply orb_true_iff in Hw. }
    apply orb_false_iff in Hw as [Hw Hn].
    destruct (is_kind "string" part) eqn:Hs.
    { destruct (parse_double_quoted_string part) as [piece|] eqn:Hd; cbn [mbind option_bind].
      - apply Hstep. apply double_quoted_literal in Hd as (? & ? & ?). by apply literal_double.
      - apply Hnone. intros piece. inversion 1 as [? [Hk|Hk]|? ? Hk Hall Ht|? ? Hk Ht]; subst; try congruence.
        + rewrite (proj2 (double_quoted_literal part piece)) in Hd; [done|done].
        + revert Hk. other_kind. done. }
    destruct (is_kind "raw_string" part) eqn:Hr.
    { destruct (parse_raw_string part) as [piece|] eqn:Hd; cbn [mbind option_bind].
      - apply Hstep. apply raw_literal in Hd as (? & ?). by apply literal_single.
      - apply Hnone. intros piece. inversion 1 as [? [Hk|Hk]|? ? Hk Hall Ht|? ? Hk Ht]; subst; try congruence.
        rewrite (proj2 (raw_literal part piece)) in Hd; done. }
    apply Hnone. intros piece. inversion 1 as [? [Hk|Hk]|? ? Hk|? ? Hk]; subst; congruence.
Qed.

Lemma plain_child_spec n s : plain_child n = Some s <-> argument n s.
Proof.
  unfold plain_child. split.
  - destruct (is_kind "command_name" n) eqn:Hc.
    { intros (w & Hw & Hs)%bind_Some. destruct (named_children n) as [|w' rest] eqn:Hn; [done|]. cbn in Hw.
      simplify_eq. destruct (is_kind "word" w) eqn:Hk; cbn in Hs; simplify_eq. by apply argument_name with rest. }
    destruct (is_kind "word" n || is_kind "number" n) eqn:Hw.
    { intros [= <-]. apply argument_literal. constructor. by apply orb_true_iff in Hw. }
    destruct (is_kind "string" n) eqn:Hs.
    { intros (? & ? & ?)%double_quoted_literal. apply argument_literal. by apply literal_double. }
    destruct (is_kind "raw_string" n) eqn:Hr.
    { intros (? & ?)%raw_literal. apply argument_literal. by apply literal_single. }
    destruct (is_kind "concatenation" n) eqn:Hk; [|done].
    intros (t & (ss & Hss & ->)%concatenated_parts_spec & Ht)%bind_Some. cbn [app] in Ht.
    case_bool_decide; simplify_eq. by apply argument_concatenation.
  - intros [n' w rest Hk Hn Hw|n' s' Hl|n' parts Hk Hp Hne].
    + rewrite Hk, Hn. cbn. by rewrite Hw.
    + destruct Hl as [m [Hk|Hk]|m t Hk Hall Ht|m t Hk Ht].
      * other_kind. by rewrite Hk.
      * other_kind. by rewrite Hk, orb_true_r.
      * do 3 other_kind. rewrite Hk. by apply double_quoted_literal.
      * do 4 other_kind. rewrite Hk. by apply raw_literal.
    + do 5 other_kind. rewrite Hk. cbn [orb].
      rewrite (proj2 (concatenated_parts_spec [] (named_children n') (concat parts))) by eauto. cbn [mbind option_bind].
      by rewrite bool_decide_false.
Qed.

Lemma plain_command_spec n words : parse_plain_command_from_node n = Some words <-> spells n words.
Proof.
  unfold parse_plain_command_from_node, spells. destruct (is_kind "command" n); cbn [negb]; [|naive_solver].
  rewrite mapM_Some. split.
  - intros H. split; [done|]. eapply Forall2_impl; [exact H|]. intros. by apply plain_child_spec.
  - intros [_ H]. eapply Forall2_impl; [exact H|]. intros. by apply plain_child_spec.
Qed.

(** ** Plain scripts *)

(** What a plain script is written with: commands, lists and pipelines of them,
    literal words, and between them the four operators, quotes and blanks. *)
Definition plain_node (n : Node) : Prop :=
  if is_named n then node_kind n ∈ ALLOWED_KINDS
  else node_kind n ∈ ALLOWED_PUNCT_TOKENS \/ trim (node_kind n) = [].
Definition command_nodes (t : Tree) : list Node :=
  List.filter (fun n => is_named n && is_kind "command" n) (nodes (root_node t)).
Definition plain_script (t : Tree) : Prop :=
  has_error t = false /\ Forall plain_node (nodes (root_node t))
  /\ Forall (fun n => exists words, spells n words) (command_nodes t).

Lemma trim_nil_blank s : trim s = [] -> forallb is_whitespace s = true.
Proof.
  unfold trim, trim_end, trim_start, drop_end_while. intros H%(f_equal reverse).
  rewrite reverse_involutive in H. cbn in H.
  assert (forall l : str, drop_while is_whitespace l = [] -> forallb is_whitespace l = true) as Hb.
  { induction l as [|c l IH]; cbn; [done|]. destruct (is_whitespace c); [exact IH|done]. }
  apply Hb. apply Hb in H.
  destruct (drop_while is_whitespace s) as [|c l] eqn:Hd; [done|]. exfalso.
  assert (is_whitespace c = false) as Hc.
  { clear -Hd. induction s as [|a s IH]; cbn in Hd; [done|]. destruct (is_whitespace a) eqn:Ha; [auto|]. by simplify_eq. }
  rewrite forallb_forall in H. rewrite (H c) in Hc; [done|]. apply list_elem_of_In. rewrite elem_of_reverse. set_solver.
Qed.

Lemma node_allowed_spec n : node_allowed n = true <-> plain_node n.
Proof.
  unfold node_allowed, plain_node. destruct (is_named n); [by rewrite bool_decide_eq_true|].
  destruct (bool_decide (node_kind n ∈ ALLOWED_PUNCT_TOKENS)) eqn:Hp.
  { apply bool_decide_eq_true in Hp. rewrite andb_false_r. cbn [orb]. naive_solver. }
  apply bool_decide_eq_false in Hp. rewrite andb_true_r. cbn [orb].
  destruct (existsb _ (node_kind n)) eqn:He; [|rewrite bool_decide_eq_true; naive_solver].
  split; [done|]. intros [?|Ht]; [done|]. exfalso.
  apply existsb_exists in He as (c & Hc & Hs). apply trim_nil_blank in Ht. rewrite forallb_forall in Ht.
  specialize (Ht c Hc). apply existsb_exists in Hs as (d & Hd & ->%N.eqb_eq).
  revert d Hd Ht Hc. change (forall d, In d [38; 59; 124]%N -> is_whitespace d = true -> In d (node_kind n) -> False).
  intros d [<-|[<-|[<-|[]]]]; done.
Qed.

(** The commands of a script are cut out exactly when it is plain, and then all
    of them are, in the order of their positions. *)
Lemma word_only_commands_spec (t : Tree) :
  match try_parse_word_only_commands_sequence t with
  | Some commands =>
      plain_script t
      /\ exists cs, cs ≡ₚ command_nodes t /\ sorted_by start_byte cs
         /\ Forall2 spells cs commands
  | None => ~ plain_script t
  end.
Proof.
  unfold try_parse_word_only_commands_sequence, plain_script. destruct (has_error t); [naive_solver|].
  pose proof (walk_spec (length (nodes (root_node t))) [root_node t] []) as Hw.
  unfold stack_size in Hw. cbn [flat_map] in Hw. rewrite app_nil_r in Hw. specialize (Hw ltac:(lia)).
  assert (forallb node_allowed (nodes (root_node t)) = true <-> Forall plain_node (nodes (root_node t))) as Hall.
  { rewrite forallb_forall, Forall_forall. setoid_rewrite <- list_elem_of_In. by setoid_rewrite node_allowed_spec. }
  destruct (forallb node_allowed _) eqn:Hf.
  2:{ rewrite Hw. cbn. intros (_ & Hp & _). apply Hall in Hp. congruence. }
  destruct Hw as (cs & -> & Hcs). cbn [mbind option_bind id app].
  assert (sort_by_key start_byte cs ≡ₚ command_nodes t) as Hperm by (by rewrite sort_by_key_perm).
  destruct (mapM _ _) as [commands|] eqn:Hm.
  - apply mapM_Some in Hm.
    assert (Forall2 spells (sort_by_key start_byte cs) commands) as Hsp.
    { eapply Forall2_impl; [exact Hm|]. intros. by apply plain_command_spec. }
    split; [split_and!; [done|by apply Hall|]|by exists (sort_by_key start_byte cs); auto using sort_by_key_sorted].
    rewrite <- Hperm. clear -Hsp. induction Hsp; constructor; eauto.
  - intros (_ & _ & Hsp). rewrite <- Hperm in Hsp. apply mapM_None in Hm. apply Exists_exists in Hm as (n & Hn & Hm).
    rewrite Forall_forall in Hsp. destruct (Hsp n Hn) as [words Hwords]. apply plain_command_spec in Hwords. congruence.
Qed.

(** ** One command with a here-document *)

(** The nodes reached from a node through named children. *)
Fixpoint named_nodes (n : Node) : list Node :=
  match n with
  | mkNode _ _ _ _ children => n :: flat_map (fun c => if is_named c then named_nodes c else []) children
  end.

Lemma named_nodes_children n : named_nodes n = n :: flat_map named_nodes (named_children n).
Proof.
  destruct n as [k b s t cs]. cbn. f_equal. unfold named_children. cbn.
  induction cs as [|c cs IH]; cbn; [done|]. destruct (is_named c); cbn; by rewrite IH.
Qed.
Lemma named_nodes_incl n m : m ∈ named_nodes n -> m ∈ nodes n.
Proof.
  remember (length (nodes n)) as k eqn:Hk. revert n Hk. induction k as [k IH] using lt_wf_ind. intros n ->.
  rewrite named_nodes_children, nodes_children, !elem_of_cons.
  intros [->|Hm]; [by left|right]. apply list_elem_of_In, in_flat_map in Hm as (c & Hc & Hm%list_elem_of_In).
  apply filter_In in Hc as [Hc _]. apply list_elem_of_In, in_flat_map. exists c. split; [done|].
  apply list_elem_of_In. eapply IH; [|reflexivity|done]. rewrite (nodes_children n). cbn [length].
  apply in_split in Hc as (l1 & l2 & ->). rewrite flat_map_app, length_app. cbn [flat_map]. rewrite length_app. lia.
Qed.
Lemma size_named n stack fuel :
  (stack_size (n :: stack) ≤ S fuel)%nat -> (stack_size (rev (named_children n) ++ stack) ≤ fuel)%nat.
Proof.
  intros Hf. assert (stack_size (named_children n ++ stack) ≤ stack_size (children n ++ stack))%nat as Hle.
  { unfold stack_size, named_children. rewrite !flat_map_app, !length_app. apply Nat.add_le_mono_r.
    induction (children n) as [|c cs IH]; cbn; [lia|]. rewrite length_app. destruct (is_named c); cbn; rewrite ?length_app; lia. }
  assert (stack_size (rev (named_children n) ++ stack) = stack_size (named_children n ++ stack)) as ->.
  { unfold stack_size. apply Permutation_length, flat_map_perm. by rewrite <- Permutation_rev. }
  rewrite size_children in Hle. unfold stack_size in Hf at 1. cbn [flat_map] in Hf. rewrite length_app in Hf.
  fold (stack_size stack) in Hf. rewrite nodes_children in *. cbn [length] in *. lia.
Qed.
Lemma named_step n stack :
  flat_map named_nodes (rev (named_children n) ++ stack) ≡ₚ flat_map named_nodes (named_children n) ++ flat_map named_nodes stack.
Proof. rewrite <- flat_map_app. apply flat_map_perm. by rewrite <- Permutation_rev. Qed.

Lemma has_kind_loop_spec fuel stack kind :
  (stack_size stack ≤ fuel)%nat ->
  exists b, has_kind_loop fuel stack kind = Some b
    /\ (b = true <-> Exists (fun n => is_kind kind n = true) (flat_map named_nodes stack)).
Proof.
  revert stack. induction fuel as [|fuel IH]; intros [|n stack] Hf; cbn [has_kind_loop flat_map].
  - exists false. by rewrite Exists_nil.
  - unfold stack_size in Hf. cbn [flat_map] in Hf. rewrite length_app, nodes_children in Hf. cbn in Hf. lia.
  - exists false. by rewrite Exists_nil.
  - rewrite named_nodes_children. cbn [app]. destruct (is_kind kind n) eqn:Hk.
    { exists true. rewrite Exists_cons. naive_solver. }
    destruct (IH (rev (named_children n) ++ stack)) as (b & -> & Hb); [by apply size_named|]. exists b. split; [done|].
    rewrite Exists_cons, Hb, named_step, Hk. naive_solver.
Qed.
Lemma has_named_descendant_spec n kind :
  has_named_descendant_kind n kind = true <-> Exists (fun m => is_kind kind m = true) (named_nodes n).
Proof.
  unfold has_named_descendant_kind. destruct (has_kind_loop_spec (length (nodes n)) [n] kind) as (b & -> & Hb).
  { unfold stack_size. cbn. by rewrite app_nil_r. }
  cbn [flat_map] in Hb. by rewrite app_nil_r in Hb.
Qed.

Lemma find_single_loop_spec fuel stack found :
  (stack_size stack ≤ fuel)%nat ->
  exists r, find_single_loop fuel stack found = Some r
    /\ forall n, r = Some n <-> option_list found ++ List.filter (is_kind "command") (flat_map named_nodes stack) ≡ₚ [n].
Proof.
  revert stack found. induction fuel as [|fuel IH]; intros [|n stack] found Hf; cbn [find_single_loop flat_map].
  2:{ unfold stack_size in Hf. cbn [flat_map] in Hf. rewrite length_app, nodes_children in Hf. cbn in Hf. lia. }
  1,2: exists found; split; [done|]; intros n'; rewrite app_nil_r; destruct found; cbn;
    [split; [by intros [= ->]|by intros ->%Permutation_length_1]|by split; [|intros ?%Permutation_nil]].
  rewrite named_nodes_children. cbn [app List.filter].
  assert (List.filter (is_kind "command") (flat_map named_nodes (rev (named_children n) ++ stack)) ≡ₚ
    List.filter (is_kind "command") (flat_map named_nodes (named_children n) ++ flat_map named_nodes stack)) as Hp.
  { generalize (named_step n stack). generalize (flat_map named_nodes (rev (named_children n) ++ stack)). intros l Hl.
    induction Hl; cbn; repeat case_goal; eauto using Permutation. }
  destruct (is_kind "command" n) eqn:Hk.
  - destruct found as [m|].
    + exists None. split; [done|]. intros n'. split; [done|]. intros H%Permutation_length. cbn in H. lia.
    + destruct (IH (rev (named_children n) ++ stack) (Some n)) as (r & -> & Hr); [by apply size_named|].
      exists r. split; [done|]. intros n'. rewrite Hr. cbn [option_list app]. by rewrite Hp.
  - destruct (IH (rev (named_children n) ++ stack) found) as (r & -> & Hr); [by apply size_named|].
    exists r. split; [done|]. intros n'. rewrite Hr. by rewrite Hp.
Qed.
Lemma find_single_spec root n :
  find_single_command_node root = Some n <-> List.filter (is_kind "command") (named_nodes root) = [n].
Proof.
  unfold find_single_command_node. destruct (find_single_loop_spec (length (nodes root)) [root] None) as (r & -> & Hr).
  { unfold stack_size. cbn. by rewrite app_nil_r. }
  cbn [flat_map mbind option_bind id] in *. rewrite app_nil_r in Hr. rewrite Hr. cbn [option_list app].
  split; [by intros ?%Permutation_singleton_r|by intros ->].
Qed.

(** A word with nothing inside it, and what a child of the command adds: its
    word, or nothing when it is a comment or attaches the standard input. *)
Definition bare (n : Node) : Prop := (is_kind "word" n = true \/ is_kind "number" n = true) /\ named_children n = [].
Inductive heredoc_piece : Node -> list str -> Prop :=
| piece_name n w rest :
    is_kind "command_name" n = true -> named_children n = w :: rest -> bare w -> heredoc_piece n [utf8_text w]
| piece_word n : bare n -> heredoc_piece n [utf8_text n]
| piece_attached n :
    is_kind "comment" n = true \/ is_allowed_heredoc_attachment_kind (node_kind n) = true -> heredoc_piece n [].

(** A script of one command with a here-document and no file redirection. *)
Definition heredoc_script (t : Tree) (words : list str) : Prop :=
  has_error t = false
  /\ Exists (fun n => is_kind "heredoc_redirect" n = true) (named_nodes (root_node t))
  /\ ~ Exists (fun n => is_kind "file_redirect" n = true) (named_nodes (root_node t))
  /\ exists cmd pieces, List.filter (is_kind "command") (named_nodes (root_node t)) = [cmd]
     /\ Forall2 heredoc_piece (named_children cmd) pieces /\ words = concat pieces /\ words <> [].

Lemma bare_spec n : is_literal_word_or_number n = true <-> bare n.
Proof.
  unfold is_literal_word_or_number, bare. rewrite andb_true_iff, orb_true_iff. destruct (named_children n); naive_solver.
Qed.
Lemma heredoc_child_spec n ws : heredoc_child n = Some ws <-> heredoc_piece n ws.
Proof.
  unfold heredoc_child. split.
  - destruct (is_kind "command_name" n) eqn:Hc.
    { intros (w & Hw & Hs)%bind_Some. destruct (named_children n) as [|w' rest] eqn:Hn; [done|]. cbn in Hw.
      simplify_eq. destruct (is_literal_word_or_number w) eqn:Hb; [|by rewrite orb_true_r in Hs].
      apply bare_spec in Hb. destruct (_ || _) in Hs; [done|]. simplify_eq. by apply piece_name with rest. }
    destruct (_ || _).
    { destruct (is_literal_word_or_number n) eqn:Hb; [|done]. intros [= <-]. apply bare_spec in Hb. by constructor. }
    destruct (is_kind "comment" n) eqn:Hk; [intros [= <-]; constructor; by left|].
    destruct (is_allowed_heredoc_attachment_kind _) eqn:Ha; [|done]. intros [= <-]. constructor. by right.
  - intros [n' w rest Hk Hn Hb|n' Hb|n' [Hk|Hk]].
    + rewrite Hk, Hn. cbn. destruct (Hb) as [Hw _]. apply bare_spec in Hb. rewrite Hb. apply orb_true_iff in Hw. by rewrite Hw.
    + destruct (Hb) as [[Hk|Hk] _]; apply bare_spec in Hb; other_kind; by rewrite Hk, ?orb_true_r, Hb.
    + do 3 other_kind. by rewrite Hk.
    + unfold is_kind. destruct (bool_decide _) eqn:E1.
      { apply bool_decide_eq_true in E1. rewrite E1 in Hk. by vm_compute in Hk. }
      destruct (_ || _) eqn:E2.
      { apply orb_true_iff in E2 as [E2|E2]; apply bool_decide_eq_true in E2; rewrite E2 in Hk; by vm_compute in Hk. }
      rewrite Hk. by destruct (node_kind _ =s? lit "comment").
Qed.

(** A script without errors that is one command with a here-document is read as
    that command, and no other script is. *)
Lemma single_command_prefix_spec (parse : str -> option Tree) (script : str) (words : list str) :
  single_command_prefix parse script = Some words <-> exists t, parse script = Some t /\ heredoc_script t words.
Proof.
  unfold single_command_prefix. destruct (parse script) as [t|]; cbn [mbind option_bind]; [|naive_solver].
  transitivity (heredoc_script t words); [|split; [eauto|by intros (t' & [= <-] & Ht)]]. unfold heredoc_script.
  destruct (has_error t); [naive_solver|].
  rewrite <- !has_named_descendant_spec. destruct (has_named_descendant_kind _ "heredoc_redirect"); cbn [negb]; [|naive_solver].
  destruct (has_named_descendant_kind _ "file_redirect"); [naive_solver|].
  transitivity (exists cmd, find_single_command_node (root_node t) = Some cmd
                  /\ parse_heredoc_command_words cmd = Some words); [apply bind_Some|].
  setoid_rewrite find_single_spec.
  assert (forall cmd, List.filter (is_kind "command") (named_nodes (root_node t)) = [cmd] ->
    parse_heredoc_command_words cmd = Some words
    <-> exists pieces, Forall2 heredoc_piece (named_children cmd) pieces /\ words = concat pieces /\ words <> []) as Hcmd.
  2:{ split; [intros (cmd & Hf & Hp%(Hcmd cmd Hf))|intros (_ & _ & _ & cmd & pieces & Hf & Hp)].
      - split_and!; [done..|]. destruct Hp as (pieces & Hp). by exists cmd, pieces.
      - exists cmd. split; [done|]. apply (Hcmd cmd Hf). eauto. }
  intros cmd Hf. unfold parse_heredoc_command_words.
  assert (is_kind "command" cmd = true) as ->.
  { assert (In cmd [cmd]) as Hin by (by left). rewrite <- Hf in Hin. by apply filter_In in Hin as [_ ?]. }
  cbn [negb]. split.
  - intros (ws & (pieces & Hp%mapM_Some & ->)%fmap_Some & Hw)%bind_Some. case_bool_decide; simplify_eq.
    exists pieces. split; [|done]. eapply Forall2_impl; [exact Hp|]. intros. by apply heredoc_child_spec.
  - intros (pieces & Hp & -> & Hne). apply bind_Some. exists (concat pieces). split; [|by rewrite bool_decide_false].
    apply fmap_Some. exists pieces. split; [|done]. apply mapM_Some.
    eapply Forall2_impl; [exact Hp|]. intros. by apply heredoc_child_spec.
Qed.

(** ** The commands of a script *)

(** The words of any command of a plain script. *)
Definition plain_command (t : Tree) (words : list str) : Prop :=
  plain_script t /\ exists cmd, cmd ∈ command_nodes t /\ spells cmd words.

Lemma plain_command_iff t words :
  plain_command t words <-> exists commands, try_parse_word_only_commands_sequence t = Some commands /\ words ∈ commands.
Proof.
  unfold plain_command. pose proof (word_only_commands_spec t) as Hspec.
  destruct (try_parse_word_only_commands_sequence t) as [commands|]; [|naive_solver].
  destruct Hspec as (Hp & cs & Hperm & _ & Hsp). split.
  - intros (_ & cmd & Hcmd & Hw). exists commands. split; [done|]. rewrite <- Hperm in Hcmd.
    apply list_elem_of_lookup in Hcmd as (i & Hi). destruct (Forall2_lookup_l _ _ _ _ _ Hsp Hi) as (words' & Hi' & Hw').
    apply plain_command_spec in Hw, Hw'. assert (words' = words) as -> by congruence. by apply list_elem_of_lookup_2 in Hi'.
  - intros (commands' & [= <-] & Hin). split; [done|].
    apply list_elem_of_lookup in Hin as (i & Hi). destruct (Forall2_lookup_r _ _ _ _ _ Hsp Hi) as (cmd & Hi' & Hw).
    exists cmd. split; [|done]. rewrite <- Hperm. by apply list_elem_of_lookup_2 in Hi'.
Qed.
Lemma heredoc_not_plain t words : heredoc_script t words -> ~ plain_script t.
Proof.
  intros (_ & (n & Hn%named_nodes_incl & Hk)%Exists_exists & _) (_ & Hp & _).
  rewrite Forall_forall in Hp. specialize (Hp n Hn). unfold plain_node in Hp. apply bool_decide_eq_true in Hk.
  rewrite Hk in Hp. revert Hp. destruct (is_named n); apply (bool_decide_unpack _); vm_compute; exact I.
Qed.

(** C36. Which scripts are cut into commands, and into which: a script that
    parses without an error is cut exactly when each node of its tree is a plain
    one and each of its commands is written in literal words; then no command of
    the tree is left out, they come in the order of their positions, and each is
    given by the text of its words without the quotes.  A script is read as one
    command with a here-document exactly when it has a here-document, no file
    redirection and one command, made of bare words; never both. *)
Theorem script_commands_spec (parse : str -> option Tree) (script : str) :
  match parse script with
  | None => word_only_commands parse script = None /\ single_command_prefix parse script = None
  | Some t =>
      match word_only_commands parse script with
      | Some commands =>
          plain_script t
          /\ exists cs, cs ≡ₚ command_nodes t /\ sorted_by start_byte cs /\ Forall2 spells cs commands
      | None => ~ plain_script t
      end
      /\ (forall words, single_command_prefix parse script = Some words <-> heredoc_script t words)
      /\ (word_only_commands parse script = None \/ single_command_prefix parse script = None)
  end.
Proof.
  destruct (parse script) as [t|] eqn:Hp.
  2:{ unfold word_only_commands, single_command_prefix. by rewrite Hp. }
  assert (forall words, single_command_prefix parse script = Some words <-> heredoc_script t words) as Hs.
  { intros words. rewrite single_command_prefix_spec, Hp. split; [by intros (? & [= <-] & ?)|eauto]. }
  assert (word_only_commands parse script = try_parse_word_only_commands_sequence t) as ->.
  { unfold word_only_commands. by rewrite Hp. }
  pose proof (word_only_commands_spec t) as Hspec. split_and!; [done..|].
  destruct (single_command_prefix parse script) as [words|]; [|by right]. left.
  assert (~ plain_script t) as Hnp by (by eapply heredoc_not_plain, Hs). destruct (try_parse_word_only_commands_sequence t); [by destruct Hspec|done].
Qed.

(** ** Examples

    The trees of a few scripts, as tree-sitter builds them. *)
Definition word_at (start : nat) (w : string) : Node := mkNode (lit "word") true start (lit w) [].
Definition command_at (start : nat) (text : string) (name : string) (args : list Node) : Node :=
  mkNode (lit "command") true start (lit text)
    (mkNode (lit "command_name") true start (lit name) [word_at start name] :: args).
Definition token_at (start : nat) (t : string) : Node := mkNode (lit t) false start (lit t) [].
Definition program_of (script : string) (cs : list Node) : Tree := mkTree (mkNode (lit "program") true 0 (lit script) cs) false.

Definition tree_bash : Tree := program_of "bash" [command_at 0 "bash" "bash" []].
Definition tree_push : Tree :=
  program_of "ls && git 'push'"
    [mkNode (lit "list") true 0 (lit "ls && git 'push'")
       [command_at 0 "ls" "ls" []; token_at 3 "&&";
        command_at 6 "git 'push'" "git" [mkNode (lit "raw_string") true 10 (lit "'push'") []]]].
(** [rm -rf / > x]: a redirection wraps the command. *)
Definition tree_redirect : Tree :=
  program_of "rm -rf / > x"
    [mkNode (lit "redirected_statement") true 0 (lit "rm -rf / > x")
       [command_at 0 "rm -rf /" "rm" [word_at 3 "-rf"; word_at 7 "/"];
        mkNode (lit "file_redirect") true 9 (lit "> x") [token_at 9 ">"; word_at 11 "x"]]].
Definition demo_trees : list (str * Tree) :=
  [(lit "bash", tree_bash); (lit "ls && git 'push'", tree_push); (lit "rm -rf / > x", tree_redirect)].
Definition demo_shell (script : str) : option Tree :=
  snd <$> find (fun entry => fst entry =s? script) demo_trees.

Example commands_of_list :
  word_only_commands demo_shell (lit "ls && git 'push'") = Some [[lit "ls"]; [lit "git"; lit "push"]].
Proof. vm_compute. reflexivity. Qed.
Example redirection_not_plain :
  word_only_commands demo_shell (lit "rm -rf / > x") = None
  /\ single_command_prefix demo_shell (lit "rm -rf / > x") = None.
Proof. vm_compute. auto. Qed.
