(* ===== verification/CommandSafety.v ===== *)
(** * Known-safe and dangerous commands: [shell-command/src/command_safety]

    [is_known_safe_command] decides which commands run without asking, and
    [command_might_be_dangerous] which are refused or prompted for, on a Unix
    host.  A [bash -lc] script is split into plain commands by a tree-sitter
    walk, which is modelled in [ShellParse] and any function here ([parse_script]).  The theorems: what an approved
    git command looks like; which [sed -n] scripts are accepted; and that no
    command is both known to be safe and flagged as dangerous. *)

From S2P Require Import Prelude PatchParser Replacements AbsolutePath FileSystem ApplyPatch Invocation.

(** ** Shells *)

Inductive ShellType : Type := Zsh | Bash | PowerShellType | Sh | CmdType.

(** [detect_shell_type]: by name, else by the name without directory and
    extension as long as that changes something. *)
Fixpoint detect_shell_fuel (fuel : nat) (shell_path : str) : option ShellType :=
  match fuel with
  | O => None
  | S fuel' =>
      if shell_path =s? lit "zsh" then Some Zsh
      else if shell_path =s? lit "sh" then Some Sh
      else if shell_path =s? lit "cmd" then Some CmdType
      else if shell_path =s? lit "bash" then Some Bash
      else if shell_path =s? lit "pwsh" then Some PowerShellType
      else if shell_path =s? lit "powershell" then Some PowerShellType
      else match file_stem (components shell_path) with
           | Some shell_name =>
               if negb (bool_decide (components shell_name = components shell_path))
               then detect_shell_fuel fuel' shell_name
               else None
           | None => None
           end
  end.
Definition detect_shell_type (shell_path : str) : option ShellType :=
  detect_shell_fuel (S (S (length shell_path))) shell_path.

Definition extract_bash_command (command : list str) : option (str * str) :=
  match command with
  | [shell; flag; script] =>
      if negb (one_of flag [lit "-lc"; lit "-c"])
         || negb (match detect_shell_type shell with Some (Zsh | Bash | Sh) => true | _ => false end)
      then None
      else Some (shell, script)
  | _ => None
  end.

(** ** git *)

Definition is_git_global_option_with_value (arg : str) : bool :=
  one_of arg [lit "-C"; lit "-c"; lit "--config-env"; lit "--exec-path"; lit "--git-dir";
              lit "--namespace"; lit "--super-prefix"; lit "--work-tree"].

Definition is_git_global_option_with_inline_value (arg : str) : bool :=
  (starts_with (lit "--config-env=") arg || starts_with (lit "--exec-path=") arg
   || starts_with (lit "--git-dir=") arg || starts_with (lit "--namespace=") arg
   || starts_with (lit "--super-prefix=") arg || starts_with (lit "--work-tree=") arg)
  || ((starts_with (lit "-C") arg || starts_with (lit "-c") arg) && (2 <? str_len arg)%N).

Definition executable_name_lookup_key (raw : str) : option str := file_name (components raw).

(** The loop over [command.iter().enumerate().skip(1)]. *)
Fixpoint git_subcommand_loop (subcommands : list str) (skip_next : bool) (idx : nat) (args : list str)
    : option (nat * str) :=
  match args with
  | [] => None
  | arg :: args' =>
      if skip_next then git_subcommand_loop subcommands false (S idx) args'
      else if is_git_global_option_with_inline_value arg then
        git_subcommand_loop subcommands false (S idx) args'
      else if is_git_global_option_with_value arg then
        git_subcommand_loop subcommands true (S idx) args'
      else if (arg =s? lit "--") || starts_with (lit "-") arg then
        git_subcommand_loop subcommands false (S idx) args'
      else if one_of arg subcommands then Some (idx, arg)
      else None
  end.

Definition find_git_subcommand (command : list str) (subcommands : list str) : option (nat * str) :=
  cmd0 ← head command;
  if negb (bool_decide (executable_name_lookup_key cmd0 = Some (lit "git"))) then None
  else git_subcommand_loop subcommands false 1 (drop 1 command).

Inductive GitOptionPattern : Type :=
| Exact (option : str)
| ShortWithInlineValue (option : str)
| Prefix (prefix : str).

Definition UNSAFE_GIT_GLOBAL_OPTIONS : list GitOptionPattern :=
  [Exact (lit "-C"); ShortWithInlineValue (lit "-C"); Exact (lit "-c"); ShortWithInlineValue (lit "-c");
   Exact (lit "-p"); Exact (lit "--config-env"); Prefix (lit "--config-env=");
   Exact (lit "--exec-path"); Prefix (lit "--exec-path="); Exact (lit "--git-dir"); Prefix (lit "--git-dir=");
   Exact (lit "--namespace"); Prefix (lit "--namespace="); Exact (lit "--paginate");
   Exact (lit "--super-prefix"); Prefix (lit "--super-prefix=");
   Exact (lit "--work-tree"); Prefix (lit "--work-tree=")].

Definition UNSAFE_GIT_SUBCOMMAND_OPTIONS : list GitOptionPattern :=
  [Exact (lit "--output"); Prefix (lit "--output="); Exact (lit "--ext-diff"); Exact (lit "--textconv");
   Exact (lit "--exec"); Prefix (lit "--exec=")].

Definition option_matches (p : GitOptionPattern) (arg : str) : bool :=
  match p with
  | Exact option => arg =s? option
  | ShortWithInlineValue option => starts_with option arg && (str_len option <? str_len arg)%N
  | Prefix prefix => starts_with prefix arg
  end.

Definition git_matches_option_pattern (arg : str) (patterns : list GitOptionPattern) : bool :=
  existsb (fun pattern => option_matches pattern arg) patterns.
Definition git_has_unsafe_global_option (global_args : list str) : bool :=
  existsb (fun arg => git_matches_option_pattern arg UNSAFE_GIT_GLOBAL_OPTIONS) global_args.
Definition git_subcommand_args_are_read_only (args : list str) : bool :=
  negb (existsb (fun arg => git_matches_option_pattern arg UNSAFE_GIT_SUBCOMMAND_OPTIONS) args).

Definition branch_flag_is_read_only (arg : str) : bool :=
  one_of arg [lit "--list"; lit "-l"; lit "--show-current"; lit "-a"; lit "--all"; lit "-r"; lit "--remotes";
              lit "-v"; lit "-vv"; lit "--verbose"]
  || starts_with (lit "--format=") arg.

Fixpoint git_branch_loop (saw_read_only_flag : bool) (branch_args : list str) : bool :=
  match branch_args with
  | [] => saw_read_only_flag
  | arg :: branch_args' => if branch_flag_is_read_only arg then git_branch_loop true branch_args' else false
  end.
Definition git_branch_is_read_only (branch_args : list str) : bool :=
  if bool_decide (branch_args = []) then true else git_branch_loop false branch_args.

Definition is_safe_git_command (command : list str) : bool :=
  match find_git_subcommand command [lit "status"; lit "log"; lit "diff"; lit "show"; lit "branch"] with
  | None => false
  | Some (subcommand_idx, subcommand) =>
      let global_args := drop 1 (take subcommand_idx command) in
      if git_has_unsafe_global_option global_args then false
      else
        let subcommand_args := drop (subcommand_idx + 1) command in
        if one_of subcommand [lit "status"; lit "log"; lit "diff"; lit "show"] then
          git_subcommand_args_are_read_only subcommand_args
        else if subcommand =s? lit "branch" then
          git_subcommand_args_are_read_only subcommand_args && git_branch_is_read_only subcommand_args
        else false
  end.

(** ** sed *)

Definition is_number (s : str) : bool := negb (s =s? []) && forallb is_ascii_digit s.

Definition is_valid_sed_n_arg (arg : option str) : bool :=
  match arg with
  | None => false
  | Some s =>
      match strip_suffix (lit "p") s with
      | None => false
      | Some core =>
          match split_on 44%N core with
          | [num] => is_number num
          | [a; b] => is_number a && is_number b
          | _ => false
          end
      end
  end.

(** ** Commands *)

Definition SAFE_PROGRAMS : list str :=
  [lit "cat"; lit "cd"; lit "cut"; lit "echo"; lit "expr"; lit "false"; lit "grep"; lit "head"; lit "id";
   lit "ls"; lit "nl"; lit "paste"; lit "pwd"; lit "rev"; lit "seq"; lit "stat"; lit "tail"; lit "tr";
   lit "true"; lit "uname"; lit "uniq"; lit "wc"; lit "which"; lit "whoami"].
Definition LINUX_SAFE_PROGRAMS : list str := [lit "numfmt"; lit "tac"].
Definition UNSAFE_BASE64_OPTIONS : list str := [lit "-o"; lit "--output"].
Definition UNSAFE_FIND_OPTIONS : list str :=
  [lit "-exec"; lit "-execdir"; lit "-ok"; lit "-okdir"; lit "-delete";
   lit "-fls"; lit "-fprint"; lit "-fprint0"; lit "-fprintf"].
Definition UNSAFE_RIPGREP_OPTIONS_WITH_ARGS : list str := [lit "--pre"; lit "--hostname-bin"].
Definition UNSAFE_RIPGREP_OPTIONS_WITHOUT_ARGS : list str := [lit "--search-zip"; lit "-z"].

Section commands.
(** [cfg!(target_os = linux)] *)
Context (linux : bool).
(** The plain commands of a script, or [None] if it has anything else. *)
Context (parse_script : str -> option (list (list str))).

Definition is_safe_to_call_with_exec (command : list str) : bool :=
  match head command with
  | None => false
  | Some cmd0 =>
      match executable_name_lookup_key cmd0 with
      | None => false
      | Some cmd =>
          if linux && one_of cmd LINUX_SAFE_PROGRAMS then true
          else if one_of cmd SAFE_PROGRAMS then true
          else if cmd =s? lit "base64" then
            negb (existsb (fun arg =>
              one_of arg UNSAFE_BASE64_OPTIONS || starts_with (lit "--output=") arg
              || (starts_with (lit "-o") arg && negb (arg =s? lit "-o"))) (drop 1 command))
          else if cmd =s? lit "find" then
            negb (existsb (fun arg => one_of arg UNSAFE_FIND_OPTIONS) command)
          else if cmd =s? lit "rg" then
            negb (existsb (fun arg =>
              one_of arg UNSAFE_RIPGREP_OPTIONS_WITHOUT_ARGS
              || existsb (fun opt => (arg =s? opt) || starts_with (opt ++ lit "=") arg)
                   UNSAFE_RIPGREP_OPTIONS_WITH_ARGS) command)
          else if cmd =s? lit "git" then is_safe_git_command command
          else if cmd =s? lit "sed" then
            bool_decide (length command ≤ 4)%nat
            && bool_decide (command !! 1%nat = Some (lit "-n")) && is_valid_sed_n_arg (command !! 2%nat)
          else false
      end
  end.

Definition parse_shell_lc_plain_commands (command : list str) : option (list (list str)) :=
  '(_, script) ← extract_bash_command command;
  parse_script script.

Definition zsh_to_bash (s : str) : str := if s =s? lit "zsh" then lit "bash" else s.

Definition is_known_safe_command (command : list str) : bool :=
  let command := map zsh_to_bash command in
  if is_safe_to_call_with_exec command then true
  else match parse_shell_lc_plain_commands command with
       | Some all_commands =>
           negb (bool_decide (all_commands = [])) && forallb is_safe_to_call_with_exec all_commands
       | None => false
       end.

Fixpoint is_dangerous_to_call_with_exec (command : list str) : bool :=
  match command with
  | [] => false
  | cmd0 :: rest =>
      if cmd0 =s? lit "rm" then
        match head rest with Some arg => one_of arg [lit "-f"; lit "-rf"] | None => false end
      else if cmd0 =s? lit "sudo" then is_dangerous_to_call_with_exec rest
      else false
  end.

Definition command_might_be_dangerous (command : list str) : bool :=
  if is_dangerous_to_call_with_exec command then true
  else match parse_shell_lc_plain_commands command with
       | Some all_commands => existsb is_dangerous_to_call_with_exec all_commands
       | None => false
       end.
End commands.

(** ** Lemmas *)

Lemma one_of_elem s ts : one_of s ts = true <-> s ∈ ts.
Proof.
  unfold one_of. rewrite existsb_exists. setoid_rewrite <- list_elem_of_In.
  setoid_rewrite bool_decide_eq_true. naive_solver.
Qed.

Lemma existsb_false_Forall {A} (f : A -> bool) (l : list A) :
  existsb f l = false <-> Forall (fun x => f x = false) l.
Proof.
  induction l as [|x l IH]; simpl; [by split|]. rewrite orb_false_iff, IH, Forall_cons. done.
Qed.

(** Fuel for the shell detection: a stem is shorter than the path. *)
Lemma split_on_piece (c : char) (s piece : str) :
  piece ∈ split_on c s -> (length piece ≤ length s)%nat /\ (length piece = length s -> piece = s).
Proof.
  revert piece. induction s as [|x s IH]; intros piece; cbn [split_on].
  { intros ->%list_elem_of_singleton. done. }
  destruct (x =? c)%N.
  - intros [->|Hin]%elem_of_cons; [split; simpl; [lia|done]|].
    destruct (IH _ Hin). split; simpl; [lia|lia].
  - destruct (split_on c s) as [|q qs].
    { intros ->%list_elem_of_singleton. split; [simpl; lia|]. by destruct s. }
    intros [->|Hin]%elem_of_cons.
    + destruct (IH q) as [Hle Heq]; [by left|]. split; simpl; [lia|]. intros [= He]. by rewrite Heq.
    + destruct (IH piece) as [Hle Heq]; [by right|]. split; simpl; lia.
Qed.

Lemma components_normal (p name : str) : Normal name ∈ components p -> name ∈ split_on SLASH p.
Proof.
  assert (forall piece, component_of piece = Some (Normal name) -> piece = name) as Hc.
  { intros piece. unfold component_of. repeat case_bool_decide; naive_solver. }
  unfold components. destruct (split_on SLASH p) as [|f rs]; [set_solver|].
  rewrite elem_of_app, list_elem_of_omap. intros [Hf|(piece & Hin & Hp)].
  - repeat case_bool_decide; try set_solver.
    destruct (component_of f) as [c|] eqn:He; [|set_solver]. apply list_elem_of_singleton in Hf. subst c.
    rewrite (Hc _ He). by left.
  - rewrite <- (Hc _ Hp). by right.
Qed.

Lemma file_stem_shorter (p stem : str) :
  file_stem (components p) = Some stem -> stem <> p -> (length stem < length p)%nat.
Proof.
  unfold file_stem, file_name. intros Hs Hne.
  destruct (last (components p)) as [[| | |name]|] eqn:Hl; try done. cbn [mbind option_bind] in Hs.
  assert (name ∈ split_on SLASH p) as [Hle Heq]%split_on_piece.
  { apply components_normal. rewrite last_lookup in Hl. by eapply list_elem_of_lookup_2. }
  destruct (rsplit_once DOT name) as [[[|b before] rest]|] eqn:Hr; simplify_eq.
  - destruct (decide (length stem = length p)); [by destruct Hne; apply Heq|lia].
  - apply rsplit_once_app_eq in Hr. rewrite Hr, length_app in Hle. simpl in *. lia.
  - destruct (decide (length stem = length p)); [by destruct Hne; apply Heq|lia].
Qed.

(** More fuel changes nothing: [detect_shell_type] is the recursive function. *)
Lemma detect_shell_fuel_enough n m p :
  (length p < n)%nat -> (length p < m)%nat -> detect_shell_fuel n p = detect_shell_fuel m p.
Proof.
  revert m p. induction n as [|n IH]; intros m p Hn Hm; [lia|]. destruct m as [|m]; [lia|].
  cbn [detect_shell_fuel]. destruct (file_stem (components p)) as [stem|] eqn:Hs; [|done].
  destruct (bool_decide (components stem = components p)) eqn:Hc; [done|]. bool_to_prop. cbn [negb].
  assert (length stem < length p)%nat.
  { apply file_stem_shorter; [done|]. intros ->. by apply Hc. }
  by rewrite (IH m stem) by lia.
Qed.

(** The option scanners agree: what the subcommand search skips as an option
    with a value is an unsafe global option. *)
Lemma value_option_unsafe arg :
  is_git_global_option_with_value arg = true -> git_matches_option_pattern arg UNSAFE_GIT_GLOBAL_OPTIONS = true.
Proof.
  intros H. apply one_of_elem in H.
  repeat (apply elem_of_cons in H as [->|H]; [vm_compute; reflexivity|]). set_solver.
Qed.

Lemma inline_option_unsafe arg :
  is_git_global_option_with_inline_value arg = true ->
  git_matches_option_pattern arg UNSAFE_GIT_GLOBAL_OPTIONS = true.
Proof.
  unfold is_git_global_option_with_inline_value, git_matches_option_pattern, UNSAFE_GIT_GLOBAL_OPTIONS.
  cbn [existsb option_matches]. change (str_len (lit "-C")) with 2%N. change (str_len (lit "-c")) with 2%N.
  rewrite !orb_true_iff, andb_true_iff, !orb_true_iff, !andb_true_iff. tauto.
Qed.

(** What the search for a subcommand skips. *)
Lemma git_subcommand_loop_spec subs skip idx args i sub :
  git_subcommand_loop subs skip idx args = Some (i, sub) ->
  exists globals rest, args = globals ++ sub :: rest /\ i = (idx + length globals)%nat /\ sub ∈ subs /\
    (skip = false -> git_has_unsafe_global_option globals = false ->
     Forall (fun g => starts_with (lit "-") g = true) globals).
Proof.
  revert skip idx. induction args as [|arg args IH]; intros skip idx Hl; cbn [git_subcommand_loop] in Hl; [done|].
  assert (forall skip', git_subcommand_loop subs skip' (S idx) args = Some (i, sub) ->
    (skip = false -> git_matches_option_pattern arg UNSAFE_GIT_GLOBAL_OPTIONS = false ->
       skip' = false /\ starts_with (lit "-") arg = true) ->
    exists globals rest, arg :: args = globals ++ sub :: rest /\ i = (idx + length globals)%nat /\ sub ∈ subs /\
    (skip = false -> git_has_unsafe_global_option globals = false ->
     Forall (fun g => starts_with (lit "-") g = true) globals)) as Hskip.
  { intros skip' Hl' Hd. destruct (IH _ _ Hl') as (g & r & -> & -> & Hs & Hf).
    exists (arg :: g), r. split_and!; [done|simpl; lia|done|]. intros Hsk Hu.
    unfold git_has_unsafe_global_option in Hu. cbn [existsb] in Hu. apply orb_false_iff in Hu as [Hu1 Hu2].
    destruct (Hd Hsk Hu1) as [-> Hd']. constructor; [done|]. by apply Hf. }
  destruct skip; [by apply (Hskip false)|].
  destruct (is_git_global_option_with_inline_value arg) eqn:Hin.
  { apply (Hskip false); [done|]. intros _. by rewrite inline_option_unsafe. }
  destruct (is_git_global_option_with_value arg) eqn:Hv.
  { apply (Hskip true); [done|]. intros _. by rewrite value_option_unsafe. }
  destruct (_ || _) eqn:Hdash.
  { apply (Hskip false); [done|]. intros _ _. split; [done|].
    apply orb_true_iff in Hdash as [Hd|Hd]; [|done]. bool_to_prop. by subst. }
  destruct (one_of arg subs) eqn:Ho; [|done]. simplify_eq. exists [], args.
  split_and!; [done|simpl; lia|by apply one_of_elem|by constructor].
Qed.

Lemma git_branch_loop_flags saw args :
  git_branch_loop saw args = true -> Forall (fun a => branch_flag_is_read_only a = true) args.
Proof.
  revert saw. induction args as [|a args IH]; intros saw; cbn [git_branch_loop]; [by constructor|].
  destruct (branch_flag_is_read_only a) eqn:Ha; [|done]. intros H. constructor; [done|]. by eapply IH.
Qed.

(** ** Safe programs *)

Definition APPROVED_PROGRAMS : list str :=
  LINUX_SAFE_PROGRAMS ++ SAFE_PROGRAMS ++ [lit "base64"; lit "find"; lit "rg"; lit "git"; lit "sed"].

Lemma safe_exec_program linux command :
  is_safe_to_call_with_exec linux command = true ->
  exists cmd0 args cmd, command = cmd0 :: args /\ file_name (components cmd0) = Some cmd /\ cmd ∈ APPROVED_PROGRAMS.
Proof.
  destruct command as [|cmd0 args]; [done|]. unfold is_safe_to_call_with_exec, executable_name_lookup_key.
  cbn [head]. destruct (file_name (components cmd0)) as [cmd|] eqn:Hf; [|done]. intros Hs.
  exists cmd0, args, cmd. split_and!; [done|done|]. unfold APPROVED_PROGRAMS.
  rewrite !elem_of_app, !elem_of_cons.
  destruct (linux && one_of cmd LINUX_SAFE_PROGRAMS) eqn:H1.
  { apply andb_true_iff in H1 as [_ H1]. apply one_of_elem in H1. by left. }
  destruct (one_of cmd SAFE_PROGRAMS) eqn:H2; [apply one_of_elem in H2; by auto|].
  repeat (case_bool_decide; [by auto 10|]). done.
Qed.

(** No approved program is a shell, [rm] or [sudo], whatever the directory. *)
Lemma approved_not_special cmd :
  cmd ∈ APPROVED_PROGRAMS ->
  (cmd =s? lit "rm") || (cmd =s? lit "sudo") = false /\ cmd <> lit "bash" /\ cmd <> lit "zsh"
  /\ file_stem [Normal cmd] = Some cmd /\ components cmd = [Normal cmd] /\ detect_shell_fuel 1 cmd = None.
Proof.
  intros H. unfold APPROVED_PROGRAMS, LINUX_SAFE_PROGRAMS, SAFE_PROGRAMS in H. cbn [app] in H.
  repeat (apply elem_of_cons in H as [->|H]; [vm_compute; split_and!; done|]). set_solver.
Qed.

Lemma file_name_whole p : components p = [Normal p] -> file_name (components p) = Some p.
Proof. by intros ->. Qed.

Lemma file_stem_name p cmd :
  file_name (components p) = Some cmd -> file_stem (components p) = file_stem [Normal cmd].
Proof.
  unfold file_stem, file_name. destruct (last (components p)) as [[| | |n]|]; try done. intros [= ->]. done.
Qed.

Lemma detect_stuck cmd p n :
  cmd ∈ APPROVED_PROGRAMS -> file_name (components p) = Some cmd -> detect_shell_fuel n p = None.
Proof.
  intros Hcmd Hf. destruct (approved_not_special cmd Hcmd) as (_ & _ & _ & Hst & Hco & Hd).
  assert (forall q, q ∈ [lit "zsh"; lit "sh"; lit "cmd"; lit "bash"; lit "pwsh"; lit "powershell"] -> p <> q) as Hp.
  { intros q Hq ->. repeat (apply elem_of_cons in Hq as [->|Hq];
      [vm_compute in Hf; injection Hf as <-; by vm_compute in Hd|]). set_solver. }
  destruct n as [|n]; [done|]. cbn [detect_shell_fuel].
  repeat match goal with |- context [bool_decide (p = lit ?s)] =>
    rewrite (bool_decide_eq_false_2 (p = lit s)) by (apply Hp; repeat (first [solve [left] | right])) end.
  rewrite (file_stem_name _ _ Hf), Hst. destruct (decide (components cmd = components p)) as [He|He].
  - by rewrite bool_decide_eq_true_2.
  - rewrite bool_decide_eq_false_2 by done. cbn [negb]. destruct n as [|n]; [done|].
    cbn [detect_shell_fuel] in Hd |- *. rewrite Hco, Hst in Hd |- *.
    repeat (case_bool_decide; [done|]). done.
Qed.

(** A program that is safe to call is neither dangerous to call nor a shell,
    with any arguments. *)
Definition safe_head (c : str) : Prop :=
  exists cmd, file_name (components c) = Some cmd /\ cmd ∈ APPROVED_PROGRAMS.

Lemma safe_head_ne c q : safe_head c -> components q = [Normal q] -> q ∉ APPROVED_PROGRAMS -> c <> q.
Proof. intros (cmd & Hf & Hcmd) Hq Hn ->. rewrite file_name_whole in Hf by done. congruence. Qed.

Lemma safe_head_not_dangerous c args :
  safe_head c -> is_dangerous_to_call_with_exec (c :: args) = false /\ extract_bash_command (c :: args) = None.
Proof.
  intros Hs. split.
  - cbn [is_dangerous_to_call_with_exec].
    rewrite !bool_decide_eq_false_2; [done|..]; apply safe_head_ne; try done; by apply (bool_decide_unpack _).
  - destruct Hs as (cmd & Hf & Hcmd). unfold extract_bash_command. destruct args as [|flag [|script [|]]]; try done.
    unfold detect_shell_type. rewrite (detect_stuck cmd) by done. by rewrite orb_true_r.
Qed.

Lemma safe_exec_head linux command :
  is_safe_to_call_with_exec linux command = true -> exists c args, command = c :: args /\ safe_head c.
Proof. intros (c & args & cmd & -> & Hf & Hc)%safe_exec_program. exists c, args. split; [done|by exists cmd]. Qed.

(** A shell call is not itself dangerous. *)
Lemma shell_call_not_dangerous shell flag script :
  one_of flag [lit "-lc"; lit "-c"] = true -> is_dangerous_to_call_with_exec [shell; flag; script] = false.
Proof.
  intros Hf%one_of_elem. cbn [is_dangerous_to_call_with_exec head].
  apply elem_of_cons in Hf as [->|Hf]; [|apply list_elem_of_singleton in Hf as ->];
    destruct (shell =s? lit "rm"), (shell =s? lit "sudo"); reflexivity.
Qed.

(** ** Properties *)

(** A git command that is approved without asking only reads: after the
    program come options, none of which overrides the configuration, the
    directory, the helper path or the pager, then one of five subcommands, with
    no argument that writes an output file or runs an external program; and for
    [branch] every argument is a listing flag. *)
Theorem safe_git_command_read_only (command : list str) :
  is_safe_git_command command = true ->
  exists exe globals sub args,
    command = exe :: globals ++ sub :: args
    /\ executable_name_lookup_key exe = Some (lit "git")
    /\ Forall (fun g => starts_with (lit "-") g = true
                 /\ git_matches_option_pattern g UNSAFE_GIT_GLOBAL_OPTIONS = false) globals
    /\ Forall (fun a => git_matches_option_pattern a UNSAFE_GIT_SUBCOMMAND_OPTIONS = false) args
    /\ (sub ∈ [lit "status"; lit "log"; lit "diff"; lit "show"]
        \/ sub = lit "branch" /\ Forall (fun a => branch_flag_is_read_only a = true) args).
Proof.
  unfold is_safe_git_command, find_git_subcommand. destruct command as [|exe command]; [done|].
  cbn [head mbind option_bind drop]. rewrite drop_0. case_bool_decide as Hexe; [|done]. cbn [negb].
  destruct (git_subcommand_loop _ false 1 command) as [[i sub]|] eqn:Hl; [|done].
  apply git_subcommand_loop_spec in Hl as (globals & args & -> & -> & Hsub & Hdash).
  assert (drop 1 (take (1 + length globals) (exe :: globals ++ sub :: args)) = globals) as ->.
  { cbn [take drop Nat.add]. by rewrite drop_0, take_app_length. }
  assert (drop (1 + length globals + 1) (exe :: globals ++ sub :: args) = args) as ->.
  { cbn [drop Nat.add]. rewrite Nat.add_1_r. rewrite (cons_middle sub), app_assoc.
    apply drop_app_length'. rewrite length_app. simpl. lia. }
  destruct (git_has_unsafe_global_option globals) eqn:Hu; [done|]. intros Hsafe.
  assert (Forall (fun a => git_matches_option_pattern a UNSAFE_GIT_SUBCOMMAND_OPTIONS = false) args
    /\ (sub ∈ [lit "status"; lit "log"; lit "diff"; lit "show"]
        \/ sub = lit "branch" /\ Forall (fun a => branch_flag_is_read_only a = true) args)) as [Ha Hs].
  { unfold git_subcommand_args_are_read_only in Hsafe. destruct (one_of sub _) eqn:Ho.
    - apply negb_true_iff, existsb_false_Forall in Hsafe. apply one_of_elem in Ho. by auto.
    - case_bool_decide; [|done]. apply andb_true_iff in Hsafe as [Hro Hbr].
      apply negb_true_iff, existsb_false_Forall in Hro. split; [done|]. right. split; [done|].
      unfold git_branch_is_read_only in Hbr. case_bool_decide; [subst; constructor|].
      by eapply git_branch_loop_flags. }
  exists exe, globals, sub, args. split_and!; [done|done| |done|done].
  specialize (Hdash eq_refl eq_refl). unfold git_has_unsafe_global_option in Hu.
  apply existsb_false_Forall in Hu. apply Forall_and. done.
Qed.

Lemma safe_git_command_read_only_witness :
  exists exe globals sub args,
    [lit "/usr/bin/git"; lit "--no-pager"; lit "log"; lit "-5"] = exe :: globals ++ sub :: args
    /\ executable_name_lookup_key exe = Some (lit "git")
    /\ Forall (fun g => starts_with (lit "-") g = true
                 /\ git_matches_option_pattern g UNSAFE_GIT_GLOBAL_OPTIONS = false) globals
    /\ Forall (fun a => git_matches_option_pattern a UNSAFE_GIT_SUBCOMMAND_OPTIONS = false) args
    /\ (sub ∈ [lit "status"; lit "log"; lit "diff"; lit "show"]
        \/ sub = lit "branch" /\ Forall (fun a => branch_flag_is_read_only a = true) args).
Proof.
  apply (safe_git_command_read_only [lit "/usr/bin/git"; lit "--no-pager"; lit "log"; lit "-5"]).
  vm_compute. reflexivity.
Defined.

Definition digits (s : str) : Prop := s <> [] /\ Forall (fun c => is_ascii_digit c = true) s.

Lemma is_number_digits s : is_number s = true <-> digits s.
Proof.
  unfold is_number, digits. rewrite andb_true_iff, negb_true_iff, bool_decide_eq_false, forallb_forall.
  rewrite Forall_forall. by setoid_rewrite list_elem_of_In.
Qed.

(** The [sed -n] scripts that are approved are exactly those of the form
    [<digits>p] and [<digits>,<digits>p]. *)
Theorem valid_sed_n_arg_spec (s : str) :
  is_valid_sed_n_arg (Some s) = true <->
  (exists a, digits a /\ s = a ++ lit "p")
  \/ (exists a b, digits a /\ digits b /\ s = a ++ lit "," ++ b ++ lit "p").
Proof.
  assert (forall a, digits a -> 44%N ∉ a) as Hno.
  { intros a [_ Ha] Hin. eapply Forall_forall in Ha; [|exact Hin]. done. }
  unfold is_valid_sed_n_arg. split.
  - destruct (strip_suffix (lit "p") s) as [core|] eqn:Hs; [|done]. apply strip_suffix_Some in Hs as ->.
    destruct (split_on 44%N core) as [|a [|b [|]]] eqn:Hsp; try done;
      assert (core = join [44%N] (split_on 44%N core)) as -> by (by rewrite join_split_on); rewrite Hsp.
    + intros Ha%is_number_digits. left. by exists a.
    + rewrite andb_true_iff. intros [Ha%is_number_digits Hb%is_number_digits]. right. exists a, b.
      split_and!; [done|done|]. cbn [join]. by rewrite <- !app_assoc.
  - intros [(a & Ha & ->)|(a & b & Ha & Hb & ->)].
    + rewrite (proj2 (strip_suffix_Some (lit "p") (a ++ lit "p") a) eq_refl).
      rewrite split_on_app_no by (by apply Hno). by apply is_number_digits.
    + rewrite (proj2 (strip_suffix_Some (lit "p") (a ++ lit "," ++ b ++ lit "p") (a ++ lit "," ++ b)))
        by (by rewrite <- !app_assoc).
      change (lit "," ++ b) with (44%N :: b). rewrite split_on_app, split_on_app_no by (by apply Hno).
      apply andb_true_iff. by rewrite !is_number_digits.
Qed.

Lemma known_safe_not_dangerous (linux : bool) (parse_script : str -> option (list (list str))) (command : list str) :
  parse_script (lit "bash") = Some [[lit "bash"]] ->
  is_known_safe_command linux parse_script command = true ->
  command_might_be_dangerous parse_script command = false.
Proof.
  intros Hbash. unfold is_known_safe_command, command_might_be_dangerous, parse_shell_lc_plain_commands.
  destruct (is_safe_to_call_with_exec linux (map zsh_to_bash command)) eqn:Hs.
  - intros _. apply safe_exec_head in Hs as (c & args & Hc & Hsafe).
    destruct command as [|c0 args0]; [done|]. injection Hc as Hc _. unfold zsh_to_bash in Hc.
    case_bool_decide; [subst; exfalso; eapply (safe_head_ne _ (lit "bash")); try exact Hsafe; try done;
      by apply (bool_decide_unpack _)|]. subst c.
    destruct (safe_head_not_dangerous c0 args0 Hsafe) as [-> ->]. done.
  - destruct command as [|shell [|flag [|script [|]]]]; try done. cbn [map]. unfold extract_bash_command at 1.
    destruct (negb (one_of (zsh_to_bash flag) _) || _) eqn:Hx; [done|]. bool_to_prop. cbn [mbind option_bind].
    assert (zsh_to_bash flag = flag) as Hflag.
    { match goal with Ho : one_of (zsh_to_bash flag) _ = true |- _ =>
        unfold zsh_to_bash in Ho |- *; case_bool_decide; [by vm_compute in Ho|done] end. }
    rewrite Hflag in *. rewrite shell_call_not_dangerous by done.
    unfold extract_bash_command. destruct (negb (one_of flag _) || _); [done|]. cbn [mbind option_bind].
    unfold zsh_to_bash at 1. case_bool_decide.
    { rewrite Hbash. vm_compute. destruct linux; discriminate. }
    destruct (parse_script script) as [cmds|]; [|done]. intros [_ Hall]%andb_true_iff.
    apply existsb_false_Forall. apply Forall_forall. intros cmd Hin.
    eapply forallb_forall in Hall; [|by apply list_elem_of_In].
    apply safe_exec_head in Hall as (c & args & -> & Hsafe). by apply safe_head_not_dangerous.
Qed.

(** C23. The two classifications never contradict each other: a command that is
    known to be safe, directly or as a script of plain commands, is not flagged
    as dangerous.  The parser of scripts is any function that reads the one-word
    script [bash] as the command [bash]. *)
Theorem safe_not_dangerous (linux : bool) (parse_script : str -> option (list (list str))) (command : list str) :
  parse_script (lit "bash") = Some [[lit "bash"]] ->
  is_known_safe_command linux parse_script command = true ->
  command_might_be_dangerous parse_script command = false.
Proof. apply known_safe_not_dangerous. Qed.

Definition demo_parse_script (script : str) : option (list (list str)) :=
  Some (map (split_on SP) (split_on 59%N script)).

Lemma safe_not_dangerous_witness :
  is_known_safe_command true demo_parse_script [lit "zsh"; lit "-lc"; lit "ls -l;pwd"] = true
  /\ command_might_be_dangerous demo_parse_script [lit "zsh"; lit "-lc"; lit "ls -l;pwd"] = false.
Proof.
  split; [vm_compute; reflexivity|].
  apply (safe_not_dangerous true demo_parse_script [lit "zsh"; lit "-lc"; lit "ls -l;pwd"]); vm_compute; reflexivity.
Defined.
