(* ===== verification/Approval.v ===== *)
(** * Approval of commands and patches:
      [core/src/exec_policy.rs], [core/src/safety.rs], [core/src/command_canonicalization.rs],
      [core/src/tools/sandboxing.rs]

    How the execution policy, the command heuristics, the approval mode and the
    sandbox permissions combine into the requirement a tool call must meet, and
    how an approved command becomes a rule.  The theorems show when a command
    can run without a prompt, when it can leave the sandbox, that the mode that
    never asks never asks, that proposed rules do what they promise, that
    concurrent amendments are not lost, and when a patch is applied unasked.
    The build is the one for Unix: [cfg!(windows)] is false. *)

From S2P Require Import Prelude PatchParser Replacements AbsolutePath Host Permissions SandboxRoots.
From S2P Require Import ApplyPatch Invocation ExecPolicy PolicyParser ShellParse CommandSafety.

(** ** Data *)

Record GranularApprovalConfig : Type := mkGranular {
  sandbox_approval : bool;
  granular_rules : bool;
  skill_approval : bool;
  request_permissions : bool;
  mcp_elicitations : bool
}.
Definition allows_sandbox_approval (g : GranularApprovalConfig) : bool := sandbox_approval g.
Definition allows_rules_approval (g : GranularApprovalConfig) : bool := granular_rules g.

Inductive AskForApproval : Type :=
| UnlessTrusted
| OnFailure
| OnRequest
| Granular (config : GranularApprovalConfig)
| Never.
#[export] Instance AskForApproval_eq_dec : EqDecision AskForApproval.
Proof. assert (EqDecision GranularApprovalConfig) by solve_decision. solve_decision. Defined.

Inductive SandboxPermissions : Type := UseDefault | RequireEscalated | WithAdditionalPermissions.
Definition requires_escalated_permissions (s : SandboxPermissions) : bool :=
  match s with RequireEscalated => true | _ => false end.
Definition requests_sandbox_override (s : SandboxPermissions) : bool :=
  match s with UseDefault => false | _ => true end.

Inductive WindowsSandboxLevel : Type := WslDisabled | WslRestrictedToken | WslElevated.
#[export] Instance WindowsSandboxLevel_eq_dec : EqDecision WindowsSandboxLevel.
Proof. solve_decision. Defined.

(** An [ExecPolicyAmendment] is the command prefix it would allow. *)
Record ExecPolicyAmendment : Type := mkAmendment { amendment_command : list str }.

Inductive ExecApprovalRequirement : Type :=
| ReqSkip (bypass_sandbox : bool) (proposed_execpolicy_amendment : option ExecPolicyAmendment)
| ReqNeedsApproval (reason : option str) (proposed_execpolicy_amendment : option ExecPolicyAmendment)
| ReqForbidden (reason : str).

Definition proposed_amendment (r : ExecApprovalRequirement) : option ExecPolicyAmendment :=
  match r with
  | ReqNeedsApproval _ (Some prefix) => Some prefix
  | ReqSkip _ (Some prefix) => Some prefix
  | _ => None
  end.

Definition PROMPT_CONFLICT_REASON : str :=
  lit "approval required by policy, but AskForApproval is set to Never".
Definition REJECT_SANDBOX_APPROVAL_REASON : str :=
  lit "approval required by policy, but AskForApproval::Granular.sandbox_approval is false".
Definition REJECT_RULES_APPROVAL_REASON : str :=
  lit "approval required by policy rule, but AskForApproval::Granular.rules is false".

Definition BANNED_PREFIX_SUGGESTIONS : list (list str) :=
  map (map lit) [
    ["python3"]; ["python3"; "-"]; ["python3"; "-c"]; ["python"]; ["python"; "-"]; ["python"; "-c"];
    ["py"]; ["py"; "-3"]; ["pythonw"]; ["pyw"]; ["pypy"]; ["pypy3"]; ["git"];
    ["bash"]; ["bash"; "-lc"]; ["sh"]; ["sh"; "-c"]; ["sh"; "-lc"]; ["zsh"]; ["zsh"; "-lc"];
    ["/bin/zsh"]; ["/bin/zsh"; "-lc"]; ["/bin/bash"]; ["/bin/bash"; "-lc"];
    ["pwsh"]; ["pwsh"; "-Command"]; ["pwsh"; "-c"];
    ["powershell"]; ["powershell"; "-Command"]; ["powershell"; "-c"];
    ["powershell.exe"]; ["powershell.exe"; "-Command"]; ["powershell.exe"; "-c"];
    ["env"]; ["sudo"]; ["node"]; ["node"; "-e"]; ["perl"]; ["perl"; "-e"]; ["ruby"]; ["ruby"; "-e"];
    ["php"]; ["php"; "-r"]; ["lua"]; ["lua"; "-e"]; ["osascript"] ]%string.

(** [cfg!(windows)] *)
Definition cfg_windows : bool := false.

Definition is_policy_match (m : RuleMatch) : bool :=
  match m with PrefixRuleMatch _ _ _ _ => true | HeuristicsRuleMatch _ _ => false end.
Definition is_policy_match_with (d : Decision) (m : RuleMatch) : bool :=
  is_policy_match m && bool_decide (match_decision m = d).

Definition prompt_is_rejected_by_policy (approval_policy : AskForApproval) (prompt_is_rule : bool) : option str :=
  match approval_policy with
  | Never => Some PROMPT_CONFLICT_REASON
  | OnFailure => None
  | OnRequest => None
  | UnlessTrusted => None
  | Granular granular_config =>
      if prompt_is_rule then
        if negb (allows_rules_approval granular_config) then Some REJECT_RULES_APPROVAL_REASON else None
      else if negb (allows_sandbox_approval granular_config) then Some REJECT_SANDBOX_APPROVAL_REASON
      else None
  end.

Definition is_unsandboxed_profile (p : PermissionProfile) : bool :=
  match p with ProfileDisabled | ProfileExternal _ => true | ProfileManaged _ _ => false end.

Definition profile_has_managed_filesystem_restrictions (p : PermissionProfile) : bool :=
  let policy := file_system_sandbox_policy p in
  match p with ProfileManaged _ _ => true | _ => false end
  && is_restricted policy && negb (has_full_disk_write_access policy).

(** ** Unmatched commands *)

Record UnmatchedCommandContext : Type := mkContext {
  ctx_approval_policy : AskForApproval;
  ctx_permission_profile : PermissionProfile;
  ctx_windows_sandbox_level : WindowsSandboxLevel;
  ctx_sandbox_permissions : SandboxPermissions;
  ctx_used_complex_parsing : bool
}.

Record ExecPolicyCommands : Type := mkCommands {
  commands : list (list str);
  used_complex_parsing : bool
}.

Record ExecApprovalRequest : Type := mkRequest {
  req_command : list str;
  req_approval_policy : AskForApproval;
  req_permission_profile : PermissionProfile;
  req_windows_sandbox_level : WindowsSandboxLevel;
  req_sandbox_permissions : SandboxPermissions;
  req_prefix_rule : option (list str)
}.

Section approval.
Context (H : Host).
(** [cfg!(target_os = linux)]; the plain commands of a script, and the command
    words before a heredoc, as the shell grammar reads them; [shlex::try_join]. *)
Context (linux : bool) (parse_script : str -> option (list (list str))).
Context (parse_heredoc_prefix : str -> option (list str)).
Context (try_join : list str -> option str).

Definition render_decision_for_unmatched_command (command : list str) (context : UnmatchedCommandContext) : Decision :=
  let approval_policy := ctx_approval_policy context in
  let permission_profile := ctx_permission_profile context in
  let policy := file_system_sandbox_policy permission_profile in
  let is_known_safe := is_known_safe_command linux parse_script command in
  let windows_managed_fs_restrictions_without_sandbox_backend :=
    cfg_windows && bool_decide (ctx_windows_sandbox_level context = WslDisabled)
    && profile_has_managed_filesystem_restrictions permission_profile in
  if is_known_safe && negb (ctx_used_complex_parsing context)
     && (bool_decide (approval_policy = UnlessTrusted) || windows_managed_fs_restrictions_without_sandbox_backend)
  then Allow
  else
    let command_is_dangerous := command_might_be_dangerous parse_script command in
    if command_is_dangerous || windows_managed_fs_restrictions_without_sandbox_backend then
      match approval_policy with
      | Never => if is_unsandboxed_profile permission_profile then Allow else Forbidden
      | OnFailure | OnRequest | UnlessTrusted | Granular _ => Prompt
      end
    else
      match approval_policy with
      | Never | OnFailure => Allow
      | UnlessTrusted => Prompt
      | OnRequest | Granular _ =>
          match policy_kind policy with
          | Unrestricted | ExternalSandboxKind => Allow
          | Restricted =>
              if requests_sandbox_override (ctx_sandbox_permissions context) then Prompt else Allow
          end
      end.

(** [parse_shell_lc_single_command_prefix] *)
Definition parse_shell_lc_single_command_prefix (command : list str) : option (list str) :=
  match extract_bash_command command with
  | Some (_, script) => parse_heredoc_prefix script
  | None => None
  end.

Definition commands_for_exec_policy (command : list str) : ExecPolicyCommands :=
  match parse_shell_lc_plain_commands parse_script command with
  | Some ((_ :: _) as commands) => mkCommands commands false
  | _ =>
      match parse_shell_lc_single_command_prefix command with
      | Some single_command => mkCommands [single_command] true
      | None => mkCommands [command] false
      end
  end.

(** ** Amendments *)

Definition try_derive_execpolicy_amendment_for_prompt_rules (matched_rules : list RuleMatch) :
  option ExecPolicyAmendment :=
  if existsb (is_policy_match_with Prompt) matched_rules then None
  else head (omap (fun m => match m with
                            | HeuristicsRuleMatch command Prompt => Some (mkAmendment command)
                            | _ => None
                            end) matched_rules).

Definition try_derive_execpolicy_amendment_for_allow_rules (matched_rules : list RuleMatch) :
  option ExecPolicyAmendment :=
  if existsb is_policy_match matched_rules then None
  else head (omap (fun m => match m with
                            | HeuristicsRuleMatch command Allow => Some (mkAmendment command)
                            | _ => None
                            end) matched_rules).

Definition match_options : MatchOptions := mkOptions true.

(** [None] is a panic of an evaluation without matches. *)
Fixpoint all_allowed (p : Policy) (fallback : list str -> Decision) (commands : list (list str)) : option bool :=
  match commands with
  | [] => Some true
  | command :: commands =>
      match check_with_options (home H) (current_dir H) p command fallback match_options with
      | None => None
      | Some e => if bool_decide (eval_decision e = Allow) then all_allowed p fallback commands else Some false
      end
  end.

Definition prefix_rule_would_approve_all_commands (exec_policy : Policy) (prefix_rule : list str)
    (commands : list (list str)) (fallback : list str -> Decision) : option bool :=
  match add_prefix_rule exec_policy prefix_rule Allow with
  | Err _ => Some false
  | Ok policy_with_prefix_rule => all_allowed policy_with_prefix_rule fallback commands
  end.

Definition derive_requested_execpolicy_amendment_from_prefix_rule (prefix_rule : option (list str))
    (matched_rules : list RuleMatch) (exec_policy : Policy) (commands : list (list str))
    (fallback : list str -> Decision) : option (option ExecPolicyAmendment) :=
  match prefix_rule with
  | None => Some None
  | Some prefix_rule =>
      if bool_decide (prefix_rule = []) then Some None
      else if existsb (fun banned => bool_decide (prefix_rule = banned)) BANNED_PREFIX_SUGGESTIONS then Some None
      else if existsb is_policy_match matched_rules then Some None
      else
        match prefix_rule_would_approve_all_commands exec_policy prefix_rule commands fallback with
        | None => None
        | Some true => Some (Some (mkAmendment prefix_rule))
        | Some false => Some None
        end
  end.

(** ** Reasons *)

Definition render_shlex_command (args : list str) : str := from_option id (join [SP] args) (try_join args).

Definition BACKTICK : str := [96%N].

Definition derive_prompt_reason (command_args : list str) (evaluation : Evaluation) : option str :=
  let command := render_shlex_command command_args in
  let prompts := omap (fun m => match m with
                                | PrefixRuleMatch matched_prefix Prompt _ justification =>
                                    Some (length matched_prefix, justification)
                                | _ => None
                                end) (matched_rules evaluation) in
  match max_by (fun a b => (a.1 <=? b.1)%nat) prompts with
  | Some (_, Some justification) => Some (BACKTICK ++ command ++ lit "` requires approval: " ++ justification)
  | Some (_, None) => Some (BACKTICK ++ command ++ lit "` requires approval by policy")
  | None => None
  end.

Definition derive_forbidden_reason (command_args : list str) (evaluation : Evaluation) : str :=
  let command := render_shlex_command command_args in
  let forbidden := omap (fun m => match m with
                                  | PrefixRuleMatch matched_prefix Forbidden _ justification =>
                                      Some (matched_prefix, justification)
                                  | _ => None
                                  end) (matched_rules evaluation) in
  match max_by (fun a b => (length a.1 <=? length b.1)%nat) forbidden with
  | Some (_, Some justification) => BACKTICK ++ command ++ lit "` rejected: " ++ justification
  | Some (matched_prefix, None) =>
      BACKTICK ++ command ++ lit "` rejected: policy forbids commands starting with `"
      ++ render_shlex_command matched_prefix ++ BACKTICK
  | None => BACKTICK ++ command ++ lit "` rejected: blocked by policy"
  end.

(** ** The requirement of a command *)

Definition fallback_of (req : ExecApprovalRequest) (complex : bool) (cmd : list str) : Decision :=
  render_decision_for_unmatched_command cmd
    (mkContext (req_approval_policy req) (req_permission_profile req) (req_windows_sandbox_level req)
       (req_sandbox_permissions req) complex).

Definition explicitly_allowed (exec_policy : Policy) (command : list str) : bool :=
  existsb (is_policy_match_with Allow)
    (matches_for_command_with_options (home H) (current_dir H) exec_policy command None match_options).

Definition create_exec_approval_requirement_for_command (exec_policy : Policy) (req : ExecApprovalRequest) :
  option ExecApprovalRequirement :=
  let cmds := commands_for_exec_policy (req_command req) in
  let auto_amendment_allowed := negb (used_complex_parsing cmds) in
  let fallback := fallback_of req (used_complex_parsing cmds) in
  match check_multiple_with_options (home H) (current_dir H) exec_policy (commands cmds) fallback match_options with
  | None => None
  | Some evaluation =>
      match (if auto_amendment_allowed then
               derive_requested_execpolicy_amendment_from_prefix_rule (req_prefix_rule req)
                 (matched_rules evaluation) exec_policy (commands cmds) fallback
             else Some None) with
      | None => None
      | Some requested_amendment =>
          Some match eval_decision evaluation with
               | Forbidden => ReqForbidden (derive_forbidden_reason (req_command req) evaluation)
               | Prompt =>
                   let prompt_is_rule := existsb (is_policy_match_with Prompt) (matched_rules evaluation) in
                   match prompt_is_rejected_by_policy (req_approval_policy req) prompt_is_rule with
                   | Some reason => ReqForbidden reason
                   | None =>
                       ReqNeedsApproval (derive_prompt_reason (req_command req) evaluation)
                         match requested_amendment with
                         | Some a => Some a
                         | None =>
                             if auto_amendment_allowed
                             then try_derive_execpolicy_amendment_for_prompt_rules (matched_rules evaluation)
                             else None
                         end
                   end
               | Allow =>
                   ReqSkip (forallb (explicitly_allowed exec_policy) (commands cmds))
                     (if auto_amendment_allowed
                      then try_derive_execpolicy_amendment_for_allow_rules (matched_rules evaluation)
                      else None)
               end
      end
  end.

(** ** Tool calls without a policy, and the first attempt: [tools/sandboxing.rs] *)

Definition default_exec_approval_requirement (policy : AskForApproval) (fs : FileSystemSandboxPolicy) :
  ExecApprovalRequirement :=
  let needs_approval :=
    match policy with
    | Never | OnFailure => false
    | OnRequest | Granular _ => is_restricted fs
    | UnlessTrusted => true
    end in
  if needs_approval && match policy with Granular g => negb (allows_sandbox_approval g) | _ => false end
  then ReqForbidden (lit "approval policy disallowed sandbox approval prompt")
  else if needs_approval then ReqNeedsApproval None None
  else ReqSkip false None.

Inductive SandboxOverride : Type := NoOverride | BypassSandboxFirstAttempt.

Definition unsandboxed_execution_allowed (fs : FileSystemSandboxPolicy) : bool :=
  negb (has_denied_read_restrictions fs).

Definition sandbox_override_for_first_attempt (sandbox_permissions : SandboxPermissions)
    (requirement : ExecApprovalRequirement) (fs : FileSystemSandboxPolicy) : SandboxOverride :=
  if negb (unsandboxed_execution_allowed fs) then NoOverride
  else match requirement with
       | ReqSkip true _ => BypassSandboxFirstAttempt
       | _ => if requires_escalated_permissions sandbox_permissions then BypassSandboxFirstAttempt else NoOverride
       end.

Definition sandbox_permissions_preserving_denied_reads (sandbox_permissions : SandboxPermissions)
    (fs : FileSystemSandboxPolicy) : SandboxPermissions :=
  if requires_escalated_permissions sandbox_permissions && negb (unsandboxed_execution_allowed fs)
  then UseDefault else sandbox_permissions.

(** ** Canonical commands: [command_canonicalization.rs], [shell-command/src/powershell.rs] *)

Definition POWERSHELL_FLAGS : list str := [lit "-nologo"; lit "-noprofile"; lit "-command"; lit "-c"].

Fixpoint powershell_script (args : list str) : option str :=
  match args with
  | flag :: ((script :: _) as rest) =>
      if negb (one_of (to_ascii_lowercase flag) POWERSHELL_FLAGS) then None
      else if eq_ignore_ascii_case flag (lit "-Command") || eq_ignore_ascii_case flag (lit "-c") then Some script
      else powershell_script rest
  | _ => None
  end.
Definition extract_powershell_command (command : list str) : option (str * str) :=
  if (length command <? 3)%nat then None
  else match command with
       | shell :: args =>
           match detect_shell_type shell with
           | Some PowerShellType =>
               match powershell_script args with Some script => Some (shell, script) | None => None end
           | _ => None
           end
       | [] => None
       end.

Definition CANONICAL_BASH_SCRIPT_PREFIX : str := lit "__codex_shell_script__".
Definition CANONICAL_POWERSHELL_SCRIPT_PREFIX : str := lit "__codex_powershell_script__".

Definition canonicalize_command_for_approval (command : list str) : list str :=
  match parse_shell_lc_plain_commands parse_script command with
  | Some [single_command] => single_command
  | _ =>
      match extract_bash_command command with
      | Some (_, script) => [CANONICAL_BASH_SCRIPT_PREFIX; default [] (command !! 1%nat); script]
      | None =>
          match extract_powershell_command command with
          | Some (_, script) => [CANONICAL_POWERSHELL_SCRIPT_PREFIX; script]
          | None => command
          end
      end
  end.
End approval.

(** ** Patches: [core/src/safety.rs] *)

Inductive Platform : Type := MacOs | Linux | Windows | OtherOs.
Inductive SandboxType : Type := SandboxNone | MacosSeatbelt | LinuxSeccomp | WindowsRestrictedToken.

Definition get_platform_sandbox (os : Platform) (windows_sandbox_enabled : bool) : option SandboxType :=
  match os with
  | MacOs => Some MacosSeatbelt
  | Linux => Some LinuxSeccomp
  | Windows => if windows_sandbox_enabled then Some WindowsRestrictedToken else None
  | OtherOs => None
  end.

Inductive SafetyCheck : Type :=
| AutoApprove (sandbox_type : SandboxType) (user_explicitly_approved : bool)
| AskUser
| Reject (reason : str).

Definition PATCH_REJECTED_OUTSIDE_PROJECT_REASON : str :=
  lit "writing outside of the project; rejected by user approval settings".
Definition PATCH_REJECTED_READ_ONLY_REASON : str :=
  lit "writing is blocked by read-only sandbox; rejected by user approval settings".

Section patches.
Context (H : Host) (os : Platform).

(** [crate::util::resolve_path] *)
Definition util_resolve_path (base p : path) : path := if is_absolute p then p else path_join base p.

(** The inner [normalize]; it always returns a path. *)
Definition safety_normalize (p : path) : path :=
  fold_left (fun out comp =>
    match comp with
    | ParentDir => pathbuf_pop out
    | CurDir => out
    | other => pathbuf_push out other
    end) p [].

Definition patch_path_writable (policy : FileSystemSandboxPolicy) (cwd : path) (p : path) : bool :=
  can_write_path_with_cwd H policy (display (safety_normalize (util_resolve_path cwd p))) (display cwd).

Definition change_writable (policy : FileSystemSandboxPolicy) (cwd : path) (e : path * ApplyPatchFileChange) : bool :=
  match e.2 with
  | ProposedAdd _ | ProposedDelete _ => patch_path_writable policy cwd e.1
  | ProposedUpdate _ move_path _ =>
      patch_path_writable policy cwd e.1
      && match move_path with Some dest => patch_path_writable policy cwd dest | None => true end
  end.

Definition is_write_patch_constrained_to_writable_paths (action : ApplyPatchAction)
    (policy : FileSystemSandboxPolicy) (cwd : path) : bool :=
  forallb (change_writable policy cwd) (map_to_list (action_changes action)).

Definition patch_rejection_reason (permission_profile : PermissionProfile) (policy : FileSystemSandboxPolicy)
    (cwd : path) : str :=
  match permission_profile with
  | ProfileManaged _ _ =>
      if negb (has_full_disk_write_access policy)
         && bool_decide (get_writable_roots_with_cwd H policy (display cwd) = [])
      then PATCH_REJECTED_READ_ONLY_REASON else PATCH_REJECTED_OUTSIDE_PROJECT_REASON
  | ProfileDisabled | ProfileExternal _ => PATCH_REJECTED_OUTSIDE_PROJECT_REASON
  end.

Definition rejects_sandbox_approval (policy : AskForApproval) : bool :=
  match policy with
  | Never => true
  | Granular granular_config => negb (sandbox_approval granular_config)
  | _ => false
  end.

Definition assess_patch_safety (action : ApplyPatchAction) (policy : AskForApproval)
    (permission_profile : PermissionProfile) (fs_policy : FileSystemSandboxPolicy) (cwd : path)
    (windows_sandbox_level : WindowsSandboxLevel) : SafetyCheck :=
  if bool_decide (action_changes action = ∅) then Reject (lit "empty patch")
  else
    match policy with
    | UnlessTrusted => AskUser
    | _ =>
        let rejected := Reject (patch_rejection_reason permission_profile fs_policy cwd) in
        if is_write_patch_constrained_to_writable_paths action fs_policy cwd
           || bool_decide (policy = OnFailure)
        then
          if is_unsandboxed_profile permission_profile then AutoApprove SandboxNone false
          else
            match get_platform_sandbox os (negb (bool_decide (windows_sandbox_level = WslDisabled))) with
            | Some sandbox_type => AutoApprove sandbox_type false
            | None => if rejects_sandbox_approval policy then rejected else AskUser
            end
        else if rejects_sandbox_approval policy then rejected
        else AskUser
    end.
End patches.

(** ** Loading the policy of a session *)

Inductive ConfigLayerSource : Type :=
| LayerMdm (domain key : str)
| LayerSystem (file : path)
| LayerEnterpriseManaged (id name : str)
| LayerUser (file : path) (profile : option str)
| LayerProject (dot_codex_folder : path)
| LayerSessionFlags
| LayerLegacyManagedFile (file : path)
| LayerLegacyManagedMdm.

Record ConfigLayerEntry : Type := mkLayer { layer_name : ConfigLayerSource; disabled_reason : option str }.

Definition config_folder (l : ConfigLayerEntry) : option path :=
  match layer_name l with
  | LayerMdm _ _ => None
  | LayerSystem file => parent file
  | LayerEnterpriseManaged _ _ => None
  | LayerUser file _ => parent file
  | LayerProject dot_codex_folder => Some dot_codex_folder
  | LayerSessionFlags => None
  | LayerLegacyManagedFile _ => None
  | LayerLegacyManagedMdm => None
  end.

(** The part of [ConfigLayerStack] that matters here: layers from the lowest
    precedence to the highest. *)
Record ConfigLayerStack : Type := mkStack {
  layers : list ConfigLayerEntry;
  ignore_user_and_project_exec_policy_rules : bool;
  requirements_exec_policy : option Policy
}.
Definition enabled_layers (s : ConfigLayerStack) : list ConfigLayerEntry :=
  List.filter (fun l => bool_decide (disabled_reason l = None)) (layers s).

Definition child_uses_parent_exec_policy (eq_policy : option Policy -> option Policy -> bool)
    (parent_config child_config : ConfigLayerStack) : bool :=
  bool_decide (omap config_folder (enabled_layers parent_config) = omap config_folder (enabled_layers child_config))
  && Bool.eqb (ignore_user_and_project_exec_policy_rules parent_config)
       (ignore_user_and_project_exec_policy_rules child_config)
  && eq_policy (requirements_exec_policy parent_config) (requirements_exec_policy child_config).

Inductive ExecPolicyError : Type :=
| ReadDir (dir : path) (source : io_Error)
| ReadFile (p : path) (source : io_Error)
| ParsePolicy (identifier : str) (source : Error).

(** What reading a directory yields: entries with the answer to [file_type], or
    an error of [next_entry]. *)
Inductive DirItem : Type :=
| DirEntry (p : path) (is_file : result io_Error bool)
| DirError (source : io_Error).

Definition RULES_DIR_NAME : str := lit "rules".
Definition RULE_EXTENSION : str := lit "rules".
Definition DEFAULT_POLICY_FILE : str := lit "default.rules".
Definition default_policy_path (codex_home : path) : path :=
  path_join (path_join codex_home (components RULES_DIR_NAME)) (components DEFAULT_POLICY_FILE).

(** [Path::extension] *)
Definition extension (p : path) : option str :=
  match file_name p with
  | None => None
  | Some name => match rsplit_once DOT name with
                 | Some ([], _) | None => None
                 | Some (_, after) => Some after
                 end
  end.

Section loading.
Context (H : Host).
Context (read_dir : path -> result io_Error (list DirItem)).
Context (read_file : path -> result io_Error str).
(** [PolicyParser::parse]: the Starlark evaluator runs the file's calls on the
    builder. *)
Context (parse_file : str -> str -> PolicyBuilder -> result Error PolicyBuilder).

Fixpoint collect_entries (dir : path) (items : list DirItem) : result ExecPolicyError (list path) :=
  match items with
  | [] => Ok []
  | DirError source :: _ => Err (ReadDir dir source)
  | DirEntry p is_file :: items =>
      match is_file with
      | Err source => Err (ReadDir dir source)
      | Ok is_file =>
          match collect_entries dir items with
          | Err e => Err e
          | Ok paths =>
              if bool_decide (extension p = Some RULE_EXTENSION) && is_file then Ok (p :: paths) else Ok paths
          end
      end
  end.

Definition collect_policy_files (dir : path) : result ExecPolicyError (list path) :=
  match read_dir dir with
  | Err source => if bool_decide (kind source = NotFound) then Ok [] else Err (ReadDir dir source)
  | Ok items =>
      match collect_entries dir items with
      | Ok policy_paths => Ok (sort_by path_leb policy_paths)
      | Err e => Err e
      end
  end.

Definition is_user_or_project (l : ConfigLayerEntry) : bool :=
  match layer_name l with LayerUser _ _ | LayerProject _ => true | _ => false end.

Fixpoint collect_layers (ignore : bool) (ls : list ConfigLayerEntry) : result ExecPolicyError (list path) :=
  match ls with
  | [] => Ok []
  | layer :: ls =>
      if ignore && is_user_or_project layer then collect_layers ignore ls
      else match config_folder layer with
           | None => collect_layers ignore ls
           | Some folder =>
               match collect_policy_files (abs_join H folder RULES_DIR_NAME) with
               | Err e => Err e
               | Ok paths =>
                   match collect_layers ignore ls with
                   | Err e => Err e
                   | Ok more => Ok (paths ++ more)
                   end
               end
           end
  end.

Fixpoint parse_files (paths : list path) (parser : PolicyBuilder) : result ExecPolicyError PolicyBuilder :=
  match paths with
  | [] => Ok parser
  | policy_path :: paths =>
      match read_file policy_path with
      | Err source => Err (ReadFile policy_path source)
      | Ok contents =>
          match parse_file (display policy_path) contents parser with
          | Err source => Err (ParsePolicy (display policy_path) source)
          | Ok parser => parse_files paths parser
          end
      end
  end.

Definition load_exec_policy (stack : ConfigLayerStack) : result ExecPolicyError Policy :=
  match collect_layers (ignore_user_and_project_exec_policy_rules stack) (enabled_layers stack) with
  | Err e => Err e
  | Ok policy_paths =>
      match parse_files policy_paths builder_new with
      | Err e => Err e
      | Ok parser =>
          let policy := build parser in
          match requirements_exec_policy stack with
          | None => Ok policy
          | Some requirements_policy => Ok (merge_overlay policy requirements_policy)
          end
      end
  end.

Definition load_exec_policy_with_warning (stack : ConfigLayerStack) :
  result ExecPolicyError (Policy * option ExecPolicyError) :=
  match load_exec_policy stack with
  | Ok policy => Ok (policy, None)
  | Err ((ParsePolicy _ _) as err) => Ok (policy_empty, Some err)
  | Err err => Err err
  end.

Definition check_execpolicy_for_warnings (stack : ConfigLayerStack) : result ExecPolicyError (option ExecPolicyError) :=
  match load_exec_policy_with_warning stack with
  | Ok (_, warning) => Ok warning
  | Err e => Err e
  end.

(** [ExecPolicyManager::load]: the policy the manager starts with. *)
Definition manager_load (stack : ConfigLayerStack) : result ExecPolicyError Policy :=
  match load_exec_policy_with_warning stack with
  | Ok (policy, _) => Ok policy
  | Err e => Err e
  end.
End loading.

(** ** Updating the policy *)

Inductive ExecPolicyUpdateError : Type :=
| AppendRule (source : AmendError)
| JoinBlockingTask
| AddRule (source : Error).

Section updating.
Context (H : Host) (to_json : str -> result str str) (show_Error : Error -> str).

(** The allow rule in memory: the second half of [append_amendment_and_update]. *)
Definition amend_policy (current_policy : Policy) (amendment : ExecPolicyAmendment) :
  option (result ExecPolicyUpdateError Policy) :=
  let command := amendment_command amendment in
  match check_multiple_with_options (home H) (current_dir H) current_policy [command] (fun _ => Forbidden)
          match_options with
  | None => None
  | Some existing_evaluation =>
      let already_allowed :=
        bool_decide (eval_decision existing_evaluation = Allow)
        && existsb (is_policy_match_with Allow) (matched_rules existing_evaluation) in
      Some (if already_allowed then Ok current_policy
            else match add_prefix_rule current_policy command Allow with
                 | Ok updated_policy => Ok updated_policy
                 | Err source => Err (AddRule source)
                 end)
  end.

(** [append_amendment_and_update] under the update lock: [file] answers for the
    policy file, [None] when the blocking task could not be joined.  The result,
    the policy of the manager afterwards and the new text of the file; [None] of
    the whole is a panic. *)
Definition append_amendment_and_update (file : option policy_file) (current_policy : Policy)
    (amendment : ExecPolicyAmendment) : option (result ExecPolicyUpdateError unit * Policy) :=
  match file with
  | None => Some (Err JoinBlockingTask, current_policy)
  | Some f =>
      match blocking_append_allow_prefix_rule to_json f (amendment_command amendment) with
      | Err source => Some (Err (AppendRule source), current_policy)
      | Ok _ =>
          match amend_policy current_policy amendment with
          | None => None
          | Some (Ok updated_policy) => Some (Ok tt, updated_policy)
          | Some (Err e) => Some (Err e, current_policy)
          end
      end
  end.

Definition append_network_rule_and_update (file : option policy_file) (current_policy : Policy)
    (h : str) (protocol : NetworkRuleProtocol) (decision : Decision) (justification : option str) :
  result ExecPolicyUpdateError unit * Policy :=
  match file with
  | None => (Err JoinBlockingTask, current_policy)
  | Some f =>
      match blocking_append_network_rule to_json show_Error f h protocol decision justification with
      | Err source => (Err (AppendRule source), current_policy)
      | Ok _ =>
          match add_network_rule current_policy h protocol decision justification with
          | Ok updated_policy => (Ok tt, updated_policy)
          | Err source => (Err (AddRule source), current_policy)
          end
      end
  end.
End updating.

(** ** Lemmas *)

Lemma commands_nonempty parse_script parse_heredoc command :
  commands (commands_for_exec_policy parse_script parse_heredoc command) <> [].
Proof.
  unfold commands_for_exec_policy.
  destruct (parse_shell_lc_plain_commands parse_script command) as [[|]|];
    try destruct (parse_shell_lc_single_command_prefix parse_heredoc command); cbn; congruence.
Qed.

Section evaluation.
Context (H : Host).

(** All matches of a list of commands, each command with its fallback. *)
Definition all_matches (p : Policy) (fallback : list str -> Decision) (cmds : list (list str)) : list RuleMatch :=
  concat (map (fun command =>
    matches_for_command_with_options (home H) (current_dir H) p command (Some fallback) match_options) cmds).

Lemma elem_of_all_matches p fallback cmds m :
  m ∈ all_matches p fallback cmds <->
  exists command, command ∈ cmds /\
    m ∈ matches_for_command_with_options (home H) (current_dir H) p command (Some fallback) match_options.
Proof.
  unfold all_matches. rewrite list_elem_of_In, in_concat. setoid_rewrite in_map_iff. split.
  - intros (l & (c & <- & Hc) & Hm). exists c. by rewrite !list_elem_of_In.
  - intros (c & Hc & Hm). eexists. split; [exists c; split; [done|by apply list_elem_of_In]|by apply list_elem_of_In].
Qed.

Lemma check_multiple_spec p fallback cmds :
  cmds <> [] ->
  exists e, check_multiple_with_options (home H) (current_dir H) p cmds fallback match_options = Some e
    /\ matched_rules e = all_matches p fallback cmds
    /\ (forall m, m ∈ all_matches p fallback cmds -> decision_le (match_decision m) (eval_decision e))
    /\ exists m, m ∈ all_matches p fallback cmds /\ match_decision m = eval_decision e.
Proof.
  intros Hne. apply from_matches_spec. fold (all_matches p fallback cmds). destruct cmds as [|c cmds]; [done|].
  unfold all_matches. cbn [map concat]. pose proof (matches_nonempty (home H) (current_dir H) p c fallback match_options).
  by destruct (matches_for_command_with_options _ _ p c _ _).
Qed.

(** Matches of a command are the matches of its rules, or one fallback when it
    has none. *)
Lemma matches_cases p cmd fallback :
  let rules := matches_for_command_with_options (home H) (current_dir H) p cmd None match_options in
  matches_for_command_with_options (home H) (current_dir H) p cmd (Some fallback) match_options
  = match rules with [] => [HeuristicsRuleMatch cmd (fallback cmd)] | _ => rules end.
Proof. unfold matches_for_command_with_options. by repeat case_match. Qed.

Lemma rule_matches_is_policy r c m : rule_matches r c = Some m -> is_policy_match m = true.
Proof. unfold rule_matches. destruct (matches_prefix _ _); cbn; intros; by simplify_eq. Qed.

Lemma exact_is_policy p cmd ms m : match_exact_rules p cmd = Some ms -> m ∈ ms -> is_policy_match m = true.
Proof.
  unfold match_exact_rules. destruct (head cmd) as [c|]; [|done]. cbn [mbind option_bind]. intros ? Hm. simplify_eq.
  destruct (rules_by_program p !! c) as [rules|]; [|set_solver].
  apply list_elem_of_omap in Hm as (r & _ & Hrm). by eapply rule_matches_is_policy.
Qed.

Lemma host_is_policy p cmd m :
  m ∈ match_host_executable_rules (home H) (current_dir H) p cmd -> is_policy_match m = true.
Proof.
  unfold match_host_executable_rules. repeat (case_match; try set_solver). all: try (intros Hm; set_solver).
  all: intros Hm; apply list_elem_of_In, in_map_iff in Hm as (m' & <- & Hm');
    apply list_elem_of_In, list_elem_of_omap in Hm' as (r & _ & Hr); apply rule_matches_is_policy in Hr; by destruct m'.
Qed.

Lemma rule_matches_policy p cmd m :
  m ∈ matches_for_command_with_options (home H) (current_dir H) p cmd None match_options -> is_policy_match m = true.
Proof.
  unfold matches_for_command_with_options. cbn [resolve_host_executables match_options].
  destruct (match_exact_rules p cmd) as [[|m0 ms]|] eqn:He; cbn [nonempty].
  2: { intros Hm. by eapply exact_is_policy. }
  all: destruct (match_host_executable_rules (home H) (current_dir H) p cmd) as [|m0 ms] eqn:Hh; cbn;
    [set_solver|intros Hm; eapply host_is_policy; by rewrite Hh].
Qed.
End evaluation.

(** A dangerous command is allowed by the heuristics only where the user
    switched prompts and sandbox off. *)
Lemma dangerous_unmatched linux parse_script cmd ctx :
  parse_script (lit "bash") = Some [[lit "bash"]] ->
  command_might_be_dangerous parse_script cmd = true ->
  render_decision_for_unmatched_command linux parse_script cmd ctx = Allow ->
  ctx_approval_policy ctx = Never /\ is_unsandboxed_profile (ctx_permission_profile ctx) = true.
Proof.
  intros Hb Hd. unfold render_decision_for_unmatched_command. cbn [cfg_windows andb].
  assert (is_known_safe_command linux parse_script cmd = false) as ->.
  { apply not_true_iff_false. intros Hs%known_safe_not_dangerous; congruence. }
  rewrite Hd. cbn. destruct (ctx_approval_policy ctx); try done. by destruct (is_unsandboxed_profile _).
Qed.
Lemma untrusted_unmatched linux parse_script cmd ctx :
  ctx_approval_policy ctx = UnlessTrusted ->
  command_might_be_dangerous parse_script cmd = false ->
  render_decision_for_unmatched_command linux parse_script cmd ctx = Allow ->
  is_known_safe_command linux parse_script cmd = true.
Proof.
  intros Hu Hd. unfold render_decision_for_unmatched_command, cfg_windows. cbn [andb orb]. rewrite Hu, Hd.
  destruct (is_known_safe_command _ _ _); [done|]. cbn. done.
Qed.

Lemma all_allowed_total H p fallback cmds : exists b, all_allowed H p fallback cmds = Some b.
Proof.
  induction cmds as [|c cmds [b Hb]]; cbn [all_allowed]; [by eexists|]. unfold check_with_options.
  destruct (from_matches_spec _ (matches_nonempty (home H) (current_dir H) p c fallback match_options)) as (e & -> & _).
  case_bool_decide; by eexists.
Qed.

Lemma all_allowed_true H p fallback cmds :
  all_allowed H p fallback cmds = Some true <->
  forall c, c ∈ cmds -> exists e,
    check_with_options (home H) (current_dir H) p c fallback match_options = Some e /\ eval_decision e = Allow.
Proof.
  induction cmds as [|c cmds IH]; cbn [all_allowed]; [set_solver|].
  destruct (check_with_options (home H) (current_dir H) p c fallback match_options) as [e|] eqn:He.
  - case_bool_decide as Hd.
    + rewrite IH. split; [|set_solver]. intros Hall c' [->|Hc']%elem_of_cons; [by exists e|by apply Hall].
    + split; [done|]. intros Hall. destruct (Hall c) as (e' & He' & Ha); [set_solver|]. congruence.
  - split; [done|]. intros Hall. destruct (Hall c) as (e' & He' & _); [set_solver|]. congruence.
Qed.

Section requirement.
Context (H : Host) (linux : bool) (parse_script : str -> option (list (list str))).
Context (parse_heredoc : str -> option (list str)) (try_join : list str -> option str).

Lemma requested_amendment_total prefix ms p cmds fallback :
  exists a, derive_requested_execpolicy_amendment_from_prefix_rule H prefix ms p cmds fallback = Some a.
Proof.
  unfold derive_requested_execpolicy_amendment_from_prefix_rule, prefix_rule_would_approve_all_commands.
  destruct prefix as [prefix|]; [|by eexists].
  destruct (bool_decide _); [by eexists|]. destruct (existsb _ BANNED_PREFIX_SUGGESTIONS); [by eexists|].
  destruct (existsb _ ms); [by eexists|]. destruct (add_prefix_rule p prefix Allow) as [q|]; [|by eexists].
  destruct (all_allowed_total H q fallback cmds) as [[] ->]; by eexists.
Qed.

Definition fallback_for (req : ExecApprovalRequest) : list str -> Decision :=
  fallback_of linux parse_script req
    (used_complex_parsing (commands_for_exec_policy parse_script parse_heredoc (req_command req))).
Definition request_commands (req : ExecApprovalRequest) : list (list str) :=
  commands (commands_for_exec_policy parse_script parse_heredoc (req_command req)).

(** The shape of every requirement: the evaluation of the parsed commands, then
    the case of its decision. *)
Lemma requirement_cases p req :
  exists e r,
    create_exec_approval_requirement_for_command H linux parse_script parse_heredoc try_join p req = Some r
    /\ matched_rules e = all_matches H p (fallback_for req) (request_commands req)
    /\ (forall m, m ∈ matched_rules e -> decision_le (match_decision m) (eval_decision e))
    /\ (exists m, m ∈ matched_rules e /\ match_decision m = eval_decision e)
    /\ match r with
       | ReqForbidden _ =>
           eval_decision e = Forbidden
           \/ eval_decision e = Prompt
              /\ prompt_is_rejected_by_policy (req_approval_policy req)
                   (existsb (is_policy_match_with Prompt) (matched_rules e)) <> None
       | ReqNeedsApproval _ _ =>
           eval_decision e = Prompt
           /\ prompt_is_rejected_by_policy (req_approval_policy req)
                (existsb (is_policy_match_with Prompt) (matched_rules e)) = None
       | ReqSkip bypass _ =>
           eval_decision e = Allow /\ bypass = forallb (explicitly_allowed H p) (request_commands req)
       end.
Proof.
  destruct (check_multiple_spec H p (fallback_for req) (request_commands req)) as (e & He & Hm & Hup & Hin);
    [apply commands_nonempty|].
  unfold create_exec_approval_requirement_for_command. fold (request_commands req). fold (fallback_for req).
  rewrite He. exists e.
  set (c := if negb _ then _ else Some None). assert (exists a, c = Some a) as [a ->].
  { unfold c. destruct (negb _); [apply requested_amendment_total|by eexists]. }
  eexists. split; [reflexivity|]. rewrite Hm. split_and!; [done..|].
  destruct (eval_decision e); [done| |by left].
  destruct (prompt_is_rejected_by_policy _ _) eqn:Hp; [|done]. right. split; [done|]. congruence.
Qed.
End requirement.

(** ** Properties of the requirement *)

(** A requirement is always computed, and the mode that never asks never
    asks: under [Never], and under a granular mode that allows neither rule nor
    sandbox prompts, no command needs approval. *)
Theorem never_never_asks (H : Host) (linux : bool) (parse_script : str -> option (list (list str)))
    (parse_heredoc : str -> option (list str)) (try_join : list str -> option str) (p : Policy)
    (req : ExecApprovalRequest) :
  match req_approval_policy req with
  | Never => True
  | Granular g => granular_rules g = false /\ sandbox_approval g = false
  | _ => False
  end ->
  exists r, create_exec_approval_requirement_for_command H linux parse_script parse_heredoc try_join p req = Some r
    /\ match r with ReqNeedsApproval _ _ => False | _ => True end.
Proof.
  intros Hmode.
  destruct (requirement_cases H linux parse_script parse_heredoc try_join p req) as (e & r & -> & _ & _ & _ & Hr).
  exists r. split; [done|]. destruct r as [|reason am|]; try done. destruct Hr as [_ Hr].
  unfold prompt_is_rejected_by_policy, allows_rules_approval, allows_sandbox_approval in Hr.
  destruct (req_approval_policy req) as [| | |g|]; try done. destruct Hmode as [H1 H2].
  rewrite H1, H2 in Hr. by destruct (existsb _ _).
Qed.

Definition demo_request (approval : AskForApproval) (profile : PermissionProfile) (command : list str) :
  ExecApprovalRequest := mkRequest command approval profile WslDisabled UseDefault None.
Definition demo_profile : PermissionProfile := ProfileManaged (ManagedRestricted read_only_file_system_entries None) NetRestricted.
Definition no_heredoc (_ : str) : option (list str) := None.
Definition no_join (_ : list str) : option str := None.

Lemma never_never_asks_witness :
  exists r, create_exec_approval_requirement_for_command empty_host true demo_parse_script no_heredoc no_join
              policy_empty (demo_request Never demo_profile [lit "rm"; lit "-rf"; lit "/"]) = Some r
    /\ match r with ReqNeedsApproval _ _ => False | _ => True end.
Proof. by apply never_never_asks. Defined.

(** The commands an invocation runs, as far as its text tells: the commands of a
    script of plain commands; the one command of a script with a here-document
    and no other redirection; and otherwise the invocation itself, which is then
    one command, the shell's, whatever the script says. *)
Inductive invokes (parse : str -> option Tree) (command : list str) : list str -> Prop :=
| invokes_plain shell script t cmd :
    extract_bash_command command = Some (shell, script) -> parse script = Some t -> plain_command t cmd ->
    invokes parse command cmd
| invokes_heredoc shell script t cmd :
    extract_bash_command command = Some (shell, script) -> parse script = Some t -> heredoc_script t cmd ->
    invokes parse command cmd
| invokes_itself :
    (forall shell script t cmd,
       extract_bash_command command = Some (shell, script) -> parse script = Some t ->
       ~ plain_command t cmd /\ ~ heredoc_script t cmd) ->
    invokes parse command command.

(** The commands that are checked are those the invocation runs. *)
Lemma commands_invoked parse command cmd :
  invokes parse command cmd ->
  cmd ∈ commands (commands_for_exec_policy (word_only_commands parse) (single_command_prefix parse) command).
Proof.
  unfold commands_for_exec_policy, parse_shell_lc_plain_commands, parse_shell_lc_single_command_prefix, word_only_commands.
  intros [shell script t c He Hp Hc|shell script t c He Hp Hc|Hno].
  - rewrite He. cbn [mbind option_bind]. rewrite Hp. cbn [mbind option_bind].
    apply plain_command_iff in Hc as (cmds & -> & Hin). destruct cmds; [by apply not_elem_of_nil in Hin|done].
  - rewrite He. cbn [mbind option_bind]. rewrite Hp. cbn [mbind option_bind].
    pose proof (word_only_commands_spec t) as Hspec. pose proof (heredoc_not_plain _ _ Hc) as Hnp.
    destruct (try_parse_word_only_commands_sequence t); [by destruct Hspec|].
    rewrite (proj2 (single_command_prefix_spec parse script c)) by eauto. set_solver.
  - destruct (extract_bash_command command) as [[shell script]|] eqn:He; cbn [mbind option_bind]; [|set_solver].
    destruct (single_command_prefix parse script) as [ws|] eqn:Hs.
    { apply single_command_prefix_spec in Hs as (t & Hp & Hs). by destruct (Hno shell script t ws eq_refl Hp). }
    destruct (parse script) as [t|] eqn:Hp; cbn [mbind option_bind]; [|set_solver].
    destruct (try_parse_word_only_commands_sequence t) as [[|c cs]|] eqn:Ht; [set_solver| |set_solver].
    destruct (Hno shell script t c eq_refl Hp) as [[] _]. apply plain_command_iff. exists (c :: cs). set_solver.
Qed.

(** C20. What runs without a prompt: when the requirement of a command line is
    [Skip], every command it [invokes] either matches rules that all allow it, or
    has no rule, is not dangerous and, under the policy that trusts only known
    commands, is known to be safe - unless prompts and sandbox are both switched
    off.  A script that is neither a list of plain commands nor one command with
    a here-document is not looked into: there the command is the shell itself
    ([redirected_script_not_split]). *)
Theorem skip_commands_trusted (H : Host) (linux : bool) (parse : str -> option Tree)
    (try_join : list str -> option str) (p : Policy)
    (req : ExecApprovalRequest) (bypass : bool) (amendment : option ExecPolicyAmendment) (cmd : list str) :
  let parse_script := word_only_commands parse in
  parse_script (lit "bash") = Some [[lit "bash"]] ->
  create_exec_approval_requirement_for_command H linux parse_script (single_command_prefix parse) try_join p req
  = Some (ReqSkip bypass amendment) ->
  invokes parse (req_command req) cmd ->
  let rules := matches_for_command_with_options (home H) (current_dir H) p cmd None match_options in
  (rules <> [] /\ Forall (fun m => match_decision m = Allow) rules)
  \/ (rules = []
      /\ (command_might_be_dangerous parse_script cmd = false
          /\ (req_approval_policy req = UnlessTrusted -> is_known_safe_command linux parse_script cmd = true)
          \/ (req_approval_policy req = Never /\ is_unsandboxed_profile (req_permission_profile req) = true))).
Proof.
  intros parse_script Hb Hreq Hcmd%commands_invoked rules. set (parse_heredoc := single_command_prefix parse) in *.
  destruct (requirement_cases H linux parse_script parse_heredoc try_join p req) as (e & r & Hr & Hm & Hup & _ & Hcase).
  rewrite Hreq in Hr. simplify_eq. destruct Hcase as [Ha _].
  assert (forall m, m ∈ matches_for_command_with_options (home H) (current_dir H) p cmd
            (Some (fallback_for linux parse_script parse_heredoc req)) match_options -> match_decision m = Allow) as Hall.
  { intros m Hin. specialize (Hup m). rewrite Hm, Ha in Hup.
    assert (decision_le (match_decision m) Allow) as Hle by (apply Hup, elem_of_all_matches; by exists cmd).
    unfold decision_le in Hle. destruct (match_decision m); cbn in Hle; [done|lia..]. }
  rewrite matches_cases in Hall. fold rules in Hall. destruct rules as [|m ms].
  - right. split; [done|].
    specialize (Hall (HeuristicsRuleMatch cmd (fallback_for linux parse_script parse_heredoc req cmd))
                  ltac:(set_solver)). cbn in Hall.
    destruct (command_might_be_dangerous parse_script cmd) eqn:Hd.
    + right. by apply (dangerous_unmatched linux parse_script cmd) in Hall.
    + left. split; [done|]. intros Hu. by apply (untrusted_unmatched linux parse_script cmd) in Hall.
  - left. split; [done|]. by apply Forall_forall.
Qed.

Definition allow_git_status : Policy :=
  match add_prefix_rule policy_empty [lit "git"; lit "push"] Allow with Ok p => p | Err _ => policy_empty end.

Lemma skip_commands_trusted_witness :
  let req := demo_request UnlessTrusted demo_profile [lit "bash"; lit "-lc"; lit "ls && git 'push'"] in
  let parse_script := word_only_commands demo_shell in
  let rules := matches_for_command_with_options None None allow_git_status [lit "git"; lit "push"] None match_options in
  (rules <> [] /\ Forall (fun m => match_decision m = Allow) rules)
  \/ (rules = []
      /\ (command_might_be_dangerous parse_script [lit "git"; lit "push"] = false
          /\ (req_approval_policy req = UnlessTrusted ->
              is_known_safe_command true parse_script [lit "git"; lit "push"] = true)
          \/ (req_approval_policy req = Never /\ is_unsandboxed_profile (req_permission_profile req) = true))).
Proof.
  apply (skip_commands_trusted empty_host true demo_shell no_join allow_git_status
           (demo_request UnlessTrusted demo_profile [lit "bash"; lit "-lc"; lit "ls && git 'push'"]) false None);
    [vm_compute; reflexivity..|].
  apply (invokes_plain _ _ (lit "bash") (lit "ls && git 'push'") tree_push); [vm_compute; reflexivity..|].
  apply plain_command_iff. exists [[lit "ls"]; [lit "git"; lit "push"]]. split; [vm_compute; reflexivity|].
  apply (bool_decide_unpack _). vm_compute. exact I.
Defined.

(** A redirection keeps a script whole: [rm -rf / > x] runs in the sandbox without
    a prompt, while [rm -rf /] needs one. *)
Example redirected_script_not_split :
  let ask cmd := create_exec_approval_requirement_for_command empty_host true (word_only_commands demo_shell)
                   (single_command_prefix demo_shell) no_join policy_empty (demo_request OnRequest demo_profile cmd) in
  (exists amendment, ask [lit "bash"; lit "-lc"; lit "rm -rf / > x"] = Some (ReqSkip false amendment))
  /\ (exists reason amendment, ask [lit "rm"; lit "-rf"; lit "/"] = Some (ReqNeedsApproval reason amendment)).
Proof. split; repeat eexists; vm_compute; reflexivity. Qed.

(** C34. What leaves the sandbox: the first attempt of a command runs unsandboxed
    only under a policy without denied reads, and only when an allow rule covers
    every command of the line or the call itself asked to be escalated. *)
Theorem bypass_sandbox_justified (H : Host) (linux : bool) (parse_script : str -> option (list (list str)))
    (parse_heredoc : str -> option (list str)) (try_join : list str -> option str) (p : Policy)
    (req : ExecApprovalRequest) (r : ExecApprovalRequirement) (fs : FileSystemSandboxPolicy) :
  create_exec_approval_requirement_for_command H linux parse_script parse_heredoc try_join p req = Some r ->
  sandbox_override_for_first_attempt (req_sandbox_permissions req) r fs = BypassSandboxFirstAttempt ->
  has_denied_read_restrictions fs = false
  /\ (req_sandbox_permissions req = RequireEscalated
      \/ forall cmd, cmd ∈ request_commands parse_script parse_heredoc req ->
           exists prefix prog just,
             PrefixRuleMatch prefix Allow prog just
             ∈ matches_for_command_with_options (home H) (current_dir H) p cmd None match_options).
Proof.
  intros Hreq Hov.
  destruct (requirement_cases H linux parse_script parse_heredoc try_join p req) as (e & r' & Hr & _ & _ & _ & Hcase).
  rewrite Hreq in Hr. simplify_eq. unfold sandbox_override_for_first_attempt, unsandboxed_execution_allowed in Hov.
  destruct (has_denied_read_restrictions fs); [done|]. cbn [negb] in Hov. split; [done|].
  destruct (decide (requires_escalated_permissions (req_sandbox_permissions req) = true)) as [Hes|Hes].
  { left. by destruct (req_sandbox_permissions req). }
  apply not_true_iff_false in Hes. rewrite Hes in Hov. destruct r' as [[] am| |]; try done.
  destruct Hcase as [_ Hall]. right. intros cmd Hcmd.
  symmetry in Hall. rewrite forallb_forall in Hall. specialize (Hall cmd (proj1 (list_elem_of_In _ _) Hcmd)).
  apply existsb_exists in Hall as (m & Hm & Hpm). apply list_elem_of_In in Hm.
  unfold is_policy_match_with in Hpm. bool_to_prop. destruct m as [prefix d prog just|]; simplify_eq/=. by eexists _, _, _.
Qed.

Lemma bypass_sandbox_justified_witness :
  let req := demo_request UnlessTrusted demo_profile [lit "git"; lit "push"; lit "origin"] in
  has_denied_read_restrictions read_only = false
  /\ (req_sandbox_permissions req = RequireEscalated
      \/ forall cmd, cmd ∈ request_commands demo_parse_script no_heredoc req ->
           exists prefix prog just,
             PrefixRuleMatch prefix Allow prog just
             ∈ matches_for_command_with_options None None allow_git_status cmd None match_options).
Proof.
  apply (bypass_sandbox_justified empty_host true demo_parse_script no_heredoc no_join allow_git_status
           (demo_request UnlessTrusted demo_profile [lit "git"; lit "push"; lit "origin"]) (ReqSkip true None));
    by vm_compute.
Defined.

(** A forbidding rule cannot be outvoted: when any command of the line matches
    a [Forbidden] rule the requirement is [Forbidden], whatever the other
    commands, the approval mode and the sandbox. *)
Theorem forbidden_rule_forbids (H : Host) (linux : bool) (parse_script : str -> option (list (list str)))
    (parse_heredoc : str -> option (list str)) (try_join : list str -> option str) (p : Policy)
    (req : ExecApprovalRequest) (cmd : list str) (m : RuleMatch) :
  cmd ∈ request_commands parse_script parse_heredoc req ->
  m ∈ matches_for_command_with_options (home H) (current_dir H) p cmd None match_options ->
  match_decision m = Forbidden ->
  exists reason,
    create_exec_approval_requirement_for_command H linux parse_script parse_heredoc try_join p req
    = Some (ReqForbidden reason).
Proof.
  intros Hcmd Hm Hf.
  destruct (requirement_cases H linux parse_script parse_heredoc try_join p req) as (e & r & -> & Hms & Hup & _ & Hcase).
  assert (eval_decision e = Forbidden) as He.
  { assert (decision_le Forbidden (eval_decision e)) as Hle.
    { rewrite <- Hf. apply Hup. rewrite Hms. apply elem_of_all_matches. exists cmd. split; [done|].
      rewrite matches_cases. cbv zeta.
      by destruct (matches_for_command_with_options _ _ p cmd None match_options); [set_solver|]. }
    unfold decision_le in Hle. destruct (eval_decision e); cbn in Hle; [lia..|done]. }
  rewrite He in Hcase. destruct r as [| |reason]; [naive_solver..|]. by exists reason.
Qed.

Definition forbid_curl : Policy :=
  match add_prefix_rule allow_git_status [lit "curl"] Forbidden with Ok p => p | Err _ => policy_empty end.

Lemma forbidden_rule_forbids_witness :
  exists reason,
    create_exec_approval_requirement_for_command empty_host true demo_parse_script no_heredoc no_join forbid_curl
      (demo_request OnFailure ProfileDisabled [lit "bash"; lit "-lc"; lit "git push;curl x"])
    = Some (ReqForbidden reason).
Proof.
  apply (forbidden_rule_forbids empty_host true demo_parse_script no_heredoc no_join forbid_curl _
           [lit "curl"; lit "x"] (PrefixRuleMatch [lit "curl"] Forbidden None None)).
  - apply (bool_decide_unpack _). by vm_compute.
  - assert (matches_for_command_with_options (home empty_host) (current_dir empty_host) forbid_curl
      [lit "curl"; lit "x"] None match_options = [PrefixRuleMatch [lit "curl"] Forbidden None None]) as ->
      by by vm_compute. set_solver.
  - reflexivity.
Defined.

(** A rule proposed at the model's request does what it promises: it is not
    one of the banned prefixes, no rule matched the line, and with it added every
    command of the line is allowed. *)
Theorem requested_amendment_approves (H : Host) (prefix : option (list str)) (ms : list RuleMatch) (p : Policy)
    (cmds : list (list str)) (fallback : list str -> Decision) (a : ExecPolicyAmendment) :
  derive_requested_execpolicy_amendment_from_prefix_rule H prefix ms p cmds fallback = Some (Some a) ->
  prefix = Some (amendment_command a) /\ amendment_command a ∉ BANNED_PREFIX_SUGGESTIONS
  /\ (forall m, m ∈ ms -> is_policy_match m = false)
  /\ exists p', add_prefix_rule p (amendment_command a) Allow = Ok p'
       /\ forall c, c ∈ cmds -> exists e,
            check_with_options (home H) (current_dir H) p' c fallback match_options = Some e
            /\ eval_decision e = Allow.
Proof.
  unfold derive_requested_execpolicy_amendment_from_prefix_rule, prefix_rule_would_approve_all_commands.
  destruct prefix as [prefix|]; [|done]. destruct (bool_decide _); [done|].
  destruct (existsb _ BANNED_PREFIX_SUGGESTIONS) eqn:Hb; [done|]. destruct (existsb _ ms) eqn:Hm; [done|].
  destruct (add_prefix_rule p prefix Allow) as [p'|] eqn:Hp; [|done].
  destruct (all_allowed H p' fallback cmds) as [[]|] eqn:Ha; intros; simplify_eq. cbn [amendment_command].
  split_and!; [done| | |exists p'; split; [done|]; by apply (proj1 (all_allowed_true H p' fallback cmds))].
  - intros Hin. pose proof (existsb_false _ _ _ Hb Hin) as Hx. cbv beta in Hx. by bool_to_prop.
  - intros m Hin. by apply (existsb_false _ _ _ Hm).
Qed.

Lemma requested_amendment_approves_witness :
  exists p', add_prefix_rule policy_empty [lit "npm"; lit "test"] Allow = Ok p'
    /\ forall c, c ∈ [[lit "npm"; lit "test"; lit "a"]] -> exists e,
         check_with_options None None p' c (fun _ => Prompt) match_options = Some e /\ eval_decision e = Allow.
Proof.
  eapply (requested_amendment_approves empty_host (Some [lit "npm"; lit "test"]) [] policy_empty
           [[lit "npm"; lit "test"; lit "a"]] (fun _ => Prompt) (mkAmendment [lit "npm"; lit "test"])).
  by vm_compute.
Defined.

(** ** Added rules *)

Lemma zip_matches_single rest : zip_matches (map Single rest) rest = true.
Proof. induction rest as [|t rest IH]; [done|]. cbn. by rewrite bool_decide_eq_true_2. Qed.

Lemma matches_prefix_literal c rest args :
  matches_prefix (mkPattern c (map Single rest)) (c :: rest ++ args) = Some (c :: rest).
Proof.
  unfold matches_prefix. cbn [ExecPolicy.rest ExecPolicy.first]. rewrite length_map.
  rewrite bool_decide_eq_false_2 by (cbn; rewrite length_app; lia).
  rewrite bool_decide_eq_true_2 by done. cbn [negb].
  replace (length rest + 1)%nat with (S (length rest)) by lia. cbn [take]. rewrite take_app_length. cbn [drop].
  by rewrite zip_matches_single.
Qed.

(** The matching rules of one program. *)
Definition rules_match (rules : list PrefixRule) (cmd : list str) : list RuleMatch :=
  omap (fun rule => rule_matches rule cmd) rules.

Lemma existsb_app_l {A} (f : A -> bool) (l k : list A) : existsb f l = true -> existsb f (l ++ k) = true.
Proof. intros Hl. rewrite existsb_app, Hl. done. Qed.

Section added.
Context (H : Host) (p p' : Policy) (prefix : list str).
Context (Hadd : add_prefix_rule p prefix Allow = Ok p').

(** Rules are appended to those of a program, and they allow. *)
Lemma add_prefix_rules k :
  exists new, default [] (rules_by_program p' !! k) = default [] (rules_by_program p !! k) ++ new
    /\ Forall (fun r => rule_decision r = Allow) new.
Proof.
  clear -Hadd. unfold add_prefix_rule in Hadd. destruct prefix as [|c rest]; simplify_eq/=. unfold mm_insert.
  destruct (decide (c = k)) as [->|Hne].
  - rewrite lookup_insert_eq. eexists. split; [reflexivity|by repeat constructor].
  - rewrite lookup_insert_ne by done. exists []. by rewrite app_nil_r.
Qed.

Lemma add_prefix_hosts : host_executables_by_name p' = host_executables_by_name p.
Proof. clear -Hadd. unfold add_prefix_rule in Hadd. destruct prefix; by simplify_eq/=. Qed.

Lemma allow_rules_match new cmd :
  Forall (fun r => rule_decision r = Allow) new -> rules_match new cmd <> [] ->
  existsb (is_policy_match_with Allow) (rules_match new cmd) = true.
Proof.
  clear. intros Hn Hne. destruct (rules_match new cmd) as [|m ms] eqn:Hm; [done|].
  assert (m ∈ rules_match new cmd) as (r & Hr & Hrm)%list_elem_of_omap by (rewrite Hm; set_solver).
  rewrite Forall_forall in Hn. specialize (Hn r Hr). unfold rule_matches in Hrm.
  destruct (matches_prefix _ _); simplify_eq/=. unfold is_policy_match_with. cbn. by rewrite Hn.
Qed.
End added.

(** The exact matches are those of the rules of the program. *)
Lemma match_exact_rules_default p c cmd :
  match_exact_rules p (c :: cmd) = Some (rules_match (default [] (rules_by_program p !! c)) (c :: cmd)).
Proof. unfold match_exact_rules. cbn. by destruct (rules_by_program p !! c). Qed.

(** Matching against the rules of a program found through its host path. *)
Definition host_matches (H : Host) (p : Policy) (cmd : list str) : list RuleMatch :=
  match_host_executable_rules (home H) (current_dir H) p cmd.

Lemma host_matches_add H p p' prefix cmd :
  add_prefix_rule p prefix Allow = Ok p' ->
  existsb (is_policy_match_with Allow) (host_matches H p cmd) = true ->
  existsb (is_policy_match_with Allow) (host_matches H p' cmd) = true.
Proof.
  intros Hadd. unfold host_matches, match_host_executable_rules. rewrite (add_prefix_hosts p p' prefix Hadd).
  destruct (head cmd); [|done]. destruct (from_absolute_path _ _ _) as [prog|]; [|done].
  destruct (executable_path_lookup_key prog) as [b|]; [|done].
  destruct (add_prefix_rules p p' prefix Hadd b) as (new & Hnew & _).
  destruct (rules_by_program p !! b) as [rules|] eqn:Hr; [|done]. cbn [default] in Hnew.
  destruct (rules_by_program p' !! b) as [rules'|] eqn:Hr'; cbn in Hnew; subst.
  - match goal with |- context [if ?x then _ else _] => destruct x end; [done|].
    rewrite omap_app, map_app. apply existsb_app_l.
  - symmetry in Hnew. apply app_nil in Hnew as [-> ->]. by match goal with |- context [if ?x then _ else _] => destruct x end.
Qed.

(** [explicitly_allowed] through the two stages of a match. *)
Lemma explicitly_allowed_stages H p c cmd :
  explicitly_allowed H p (c :: cmd)
  = match rules_match (default [] (rules_by_program p !! c)) (c :: cmd) with
    | [] => existsb (is_policy_match_with Allow) (host_matches H p (c :: cmd))
    | ms => existsb (is_policy_match_with Allow) ms
    end.
Proof.
  unfold explicitly_allowed, matches_for_command_with_options. rewrite match_exact_rules_default.
  destruct (rules_match _ _); [|done]. cbn [nonempty resolve_host_executables match_options]. unfold host_matches.
  by destruct (match_host_executable_rules (home H) (current_dir H) p (c :: cmd)).
Qed.

(** Adding an allow rule keeps every explicit allowance and makes its own. *)
Lemma add_allow_keeps H p p' prefix cmd :
  add_prefix_rule p prefix Allow = Ok p' -> explicitly_allowed H p cmd = true -> explicitly_allowed H p' cmd = true.
Proof.
  intros Hadd. destruct cmd as [|c cmd].
  { unfold explicitly_allowed, matches_for_command_with_options. done. }
  rewrite !explicitly_allowed_stages. destruct (add_prefix_rules p p' prefix Hadd c) as (new & -> & Hn).
  unfold rules_match. rewrite omap_app. fold (rules_match (default [] (rules_by_program p !! c)) (c :: cmd)).
  fold (rules_match new (c :: cmd)).
  destruct (rules_match (default [] (rules_by_program p !! c)) (c :: cmd)) as [|m ms].
  - intros Hh. cbn [app]. pose proof (allow_rules_match new (c :: cmd) Hn) as Ha.
    destruct (rules_match new (c :: cmd)); [by eapply host_matches_add|by apply Ha].
  - intros Hm. by apply (existsb_app_l _ (m :: ms)).
Qed.

Lemma add_allow_own H p p' prefix :
  add_prefix_rule p prefix Allow = Ok p' -> explicitly_allowed H p' prefix = true.
Proof.
  intros Hadd. unfold add_prefix_rule in Hadd. destruct prefix as [|c rest]; simplify_eq/=.
  rewrite explicitly_allowed_stages. cbn [rules_by_program]. unfold mm_insert. rewrite lookup_insert_eq. cbn [from_option].
  change (id ?x) with x.
  match goal with |- context [_ ++ [?r]] => set (rule := r) end.
  pose proof (matches_prefix_literal c rest []) as Hl. rewrite app_nil_r in Hl.
  assert (rules_match [rule] (c :: rest) = [PrefixRuleMatch (c :: rest) Allow None None]) as Hr.
  { unfold rules_match, rule_matches. cbn [omap list_omap pattern rule]. by rewrite Hl. }
  unfold rules_match. rewrite omap_app. fold (rules_match [rule] (c :: rest)). rewrite Hr.
  destruct (omap _ _) as [|m ms]; [done|].
  apply existsb_exists. exists (PrefixRuleMatch (c :: rest) Allow None None). split; [|done].
  apply list_elem_of_In. cbn [app]. set_solver.
Qed.

Lemma amend_policy_total H p a : exists r, amend_policy H p a = Some r.
Proof.
  unfold amend_policy.
  destruct (check_multiple_spec H p (fun _ => Forbidden) [amendment_command a]) as (e & -> & _); [done|]. by eexists.
Qed.

Lemma amend_policy_allows H p p' a :
  amend_policy H p a = Some (Ok p') ->
  explicitly_allowed H p' (amendment_command a) = true
  /\ forall cmd, explicitly_allowed H p cmd = true -> explicitly_allowed H p' cmd = true.
Proof.
  unfold amend_policy.
  destruct (check_multiple_spec H p (fun _ => Forbidden) [amendment_command a]) as (e & -> & Hm & _); [done|].
  destruct (bool_decide _ && _) eqn:Hal; intros Heq.
  - simplify_eq. split; [|done]. bool_to_prop. unfold explicitly_allowed.
    match goal with Hx : existsb _ (matched_rules e) = true |- _ => rewrite Hm in Hx; rename Hx into Hex end.
    unfold all_matches in Hex. cbn [map concat] in Hex. rewrite app_nil_r, matches_cases in Hex. cbv zeta in Hex.
    by destruct (matches_for_command_with_options _ _ p' (amendment_command a) None match_options).
  - destruct (add_prefix_rule p (amendment_command a) Allow) as [q|] eqn:Hadd; simplify_eq.
    split; [by eapply add_allow_own|]. intros cmd. by eapply add_allow_keeps.
Qed.

(** Remembering an approval: after [append_amendment_and_update] succeeds an
    allow rule of the manager's policy matches the approved command and every
    command that a rule explicitly allowed before is still explicitly allowed;
    after an error the policy is unchanged. *)
Theorem append_amendment_effect (H : Host) (to_json : str -> result str str) (file : option policy_file)
    (p : Policy) (a : ExecPolicyAmendment) :
  exists r p', append_amendment_and_update H to_json file p a = Some (r, p')
    /\ match r with
       | Ok _ => explicitly_allowed H p' (amendment_command a) = true
                 /\ forall cmd, explicitly_allowed H p cmd = true -> explicitly_allowed H p' cmd = true
       | Err _ => p' = p
       end.
Proof.
  unfold append_amendment_and_update. destruct file as [f|]; [|by eexists _, _].
  destruct (blocking_append_allow_prefix_rule _ _ _); [|by eexists _, _].
  destruct (amend_policy_total H p a) as [[p'|err] Hr]; rewrite Hr; [|by eexists _, _].
  eexists _, _. split; [done|]. by apply amend_policy_allows.
Qed.

(** ** Concurrent updates

    Tasks update one manager.  Each takes the update lock, waits for the advisory
    lock of the policy file, which another process may hold, appends its line,
    reads the current policy, and stores the new one; other tasks can run between
    any two of these steps, and a task that waits can be dropped, which frees the
    update lock but lets the append go on (a drop before the file is locked is
    the same step as an error of opening it). *)

Module Updates.
Inductive Update : Type :=
| UpdAmend (a : ExecPolicyAmendment)
| UpdNetwork (h : str) (protocol : NetworkRuleProtocol) (decision : Decision) (justification : option str).

Inductive Phase : Type :=
| Waiting (u : Update)
| Locked (u : Update)
| Appending (u : Update)
| Appended (u : Update)
| Loaded (u : Update) (snapshot : Policy)
| Finished (u : Update) (ok : bool).

(** The holder of the lock of the policy file: the append of a task, or
    something else - another process, or the append of a dropped task. *)
Inductive Holder : Type := HeldBy (i : nat) | HeldElsewhere.

Record State : Type :=
  mkState { manager : Policy; lock : option nat; file_lock : option Holder; tasks : list Phase }.

(** What the update computes from the policy it has read. *)
Definition apply_update (H : Host) (u : Update) (snapshot : Policy) : option (result ExecPolicyUpdateError Policy) :=
  match u with
  | UpdAmend a => amend_policy H snapshot a
  | UpdNetwork h protocol decision justification =>
      Some (match add_network_rule snapshot h protocol decision justification with
            | Ok p => Ok p
            | Err e => Err (AddRule e)
            end)
  end.

Inductive step (H : Host) : State -> State -> Prop :=
| step_acquire p fl ts i u :
    ts !! i = Some (Waiting u) -> step H (mkState p None fl ts) (mkState p (Some i) fl (<[i := Locked u]> ts))
| step_lock_file p l ts i u :
    ts !! i = Some (Locked u) ->
    step H (mkState p l None ts) (mkState p l (Some (HeldBy i)) (<[i := Appending u]> ts))
| step_append p l fl ts i u :
    ts !! i = Some (Appending u) -> step H (mkState p l fl ts) (mkState p l None (<[i := Appended u]> ts))
| step_open_error p l fl ts i u :
    ts !! i = Some (Locked u) -> step H (mkState p l fl ts) (mkState p None fl (<[i := Finished u false]> ts))
| step_append_error p l fl ts i u :
    ts !! i = Some (Appending u) -> step H (mkState p l fl ts) (mkState p None None (<[i := Finished u false]> ts))
| step_load p l fl ts i u :
    ts !! i = Some (Appended u) -> step H (mkState p l fl ts) (mkState p l fl (<[i := Loaded u p]> ts))
| step_store p p' l fl ts i u snapshot :
    ts !! i = Some (Loaded u snapshot) -> apply_update H u snapshot = Some (Ok p') ->
    step H (mkState p l fl ts) (mkState p' None fl (<[i := Finished u true]> ts))
| step_store_error p l fl ts i u snapshot e :
    ts !! i = Some (Loaded u snapshot) -> apply_update H u snapshot = Some (Err e) ->
    step H (mkState p l fl ts) (mkState p None fl (<[i := Finished u false]> ts))
| step_drop_waiting p l fl ts i u :
    ts !! i = Some (Waiting u) -> step H (mkState p l fl ts) (mkState p l fl (<[i := Finished u false]> ts))
| step_drop_appending p l fl ts i u :
    ts !! i = Some (Appending u) ->
    step H (mkState p l fl ts) (mkState p None (Some HeldElsewhere) (<[i := Finished u false]> ts))
| step_lock_elsewhere p l ts : step H (mkState p l None ts) (mkState p l (Some HeldElsewhere) ts)
| step_unlock_elsewhere p l ts : step H (mkState p l (Some HeldElsewhere) ts) (mkState p l None ts).

Inductive reachable (H : Host) (p : Policy) (us : list Update) : State -> Prop :=
| reach_init : reachable H p us (mkState p None None (map Waiting us))
| reach_step s s' : reachable H p us s -> step H s s' -> reachable H p us s'.

(** A task inside the critical section. *)
Definition critical (t : Phase) : bool :=
  match t with Locked _ | Appending _ | Appended _ | Loaded _ _ => true | _ => false end.

(** The invariant: only the holder of the lock is in the critical section, what
    it has read is current, and every finished amendment is in force. *)
Record inv (H : Host) (s : State) : Prop := {
  inv_mutex : forall i t, tasks s !! i = Some t -> critical t = true -> lock s = Some i;
  inv_holder : forall i, lock s = Some i -> exists t, tasks s !! i = Some t /\ critical t = true;
  inv_current : forall i u snapshot, tasks s !! i = Some (Loaded u snapshot) -> snapshot = manager s;
  inv_done : forall i a, tasks s !! i = Some (Finished (UpdAmend a) true) ->
    explicitly_allowed H (manager s) (amendment_command a) = true
}.

Lemma network_rule_keeps H p p' h pr d j cmd :
  add_network_rule p h pr d j = Ok p' -> explicitly_allowed H p cmd = explicitly_allowed H p' cmd.
Proof.
  unfold add_network_rule. destruct (normalize_network_rule_host h); [|done]. cbn [mbind result_bind].
  destruct (blank_justification j); intros; by simplify_eq.
Qed.

Lemma apply_update_keeps H u p p' :
  apply_update H u p = Some (Ok p') ->
  (forall cmd, explicitly_allowed H p cmd = true -> explicitly_allowed H p' cmd = true)
  /\ forall a, u = UpdAmend a -> explicitly_allowed H p' (amendment_command a) = true.
Proof.
  destruct u as [a|h pr d j]; cbn [apply_update]; intros Hu.
  - apply amend_policy_allows in Hu as [? ?]. split; [done|]. naive_solver.
  - destruct (add_network_rule p h pr d j) as [q|] eqn:Hq; simplify_eq. split; [|done].
    intros cmd. by rewrite (network_rule_keeps H p p' h pr d j cmd Hq).
Qed.

Lemma apply_update_total H u p : exists r, apply_update H u p = Some r.
Proof. destruct u; [apply amend_policy_total|by eexists]. Qed.

Ltac split_task i j :=
  destruct (decide (i = j)) as [->|?];
  [rewrite ?list_lookup_insert_eq in * by (by eapply lookup_lt_Some)|rewrite ?list_lookup_insert_ne in * by done].

(** A task that stays in the critical section, or outside it. *)
Lemma inv_advance H p l fl fl' ts i t t' :
  ts !! i = Some t -> critical t' = critical t ->
  (forall u snapshot, t' = Loaded u snapshot -> snapshot = p) -> (forall a, t' <> Finished (UpdAmend a) true) ->
  inv H (mkState p l fl ts) -> inv H (mkState p l fl' (<[i := t']> ts)).
Proof.
  intros Hi Hcr Hl Hf [Hm Hh Hc Hd]. cbn [manager lock tasks] in *. split; cbn [manager lock tasks].
  - intros j t0. split_task i j; [intros [= <-]; rewrite Hcr; by apply Hm|by apply Hm].
  - intros j Hj. split_task i j; [|by apply Hh]. exists t'. split; [done|]. rewrite Hcr.
    destruct (Hh j Hj) as (t0 & Ht0 & ?). congruence.
  - intros j u snapshot. split_task i j; [intros [= ->]; by eapply Hl|by apply Hc].
  - intros j a. split_task i j; [intros [= ->]; by destruct (Hf a)|by apply Hd].
Qed.
(** The holder leaves the critical section, with the policy it stores. *)
Lemma inv_release H p p' l fl fl' ts i t u ok :
  ts !! i = Some t -> critical t = true ->
  (forall cmd, explicitly_allowed H p cmd = true -> explicitly_allowed H p' cmd = true) ->
  (forall a, u = UpdAmend a -> ok = true -> explicitly_allowed H p' (amendment_command a) = true) ->
  inv H (mkState p l fl ts) -> inv H (mkState p' None fl' (<[i := Finished u ok]> ts)).
Proof.
  intros Hi Hcr Hk Ho [Hm Hh Hc Hd]. cbn [manager lock tasks] in *.
  assert (l = Some i) as -> by by eapply Hm. split; cbn [manager lock tasks].
  - intros j t0. split_task i j; [naive_solver|]. intros Ht Hcr'. specialize (Hm j t0 Ht Hcr'). naive_solver.
  - done.
  - intros j u' snapshot. split_task i j; [naive_solver|]. intros Hj. specialize (Hm j _ Hj eq_refl). naive_solver.
  - intros j a. split_task i j; naive_solver.
Qed.

Lemma step_inv H s s' : step H s s' -> inv H s -> inv H s'.
Proof.
  intros Hs. destruct Hs as [p fl ts i u Hi| | | | | |p p' l fl ts i u snap Hi Hu| | | | |];
    try (intros Hinv; eapply inv_advance; [eassumption|reflexivity|naive_solver|naive_solver|exact Hinv]).
  2,3,5,6: intros Hinv; eapply inv_release; [eassumption|reflexivity|done|done|exact Hinv].
  3,4: intros [Hm Hh Hc Hd]; by split.
  - intros [Hm Hh Hc Hd]. cbn [manager lock tasks] in *. split; cbn [manager lock tasks].
    + intros j t. split_task i j; [naive_solver|]. intros Ht Hcr. specialize (Hm j t Ht Hcr). done.
    + intros j [= <-]. exists (Locked u). by rewrite list_lookup_insert_eq by by eapply lookup_lt_Some.
    + intros j. split_task i j; naive_solver.
    + intros j. split_task i j; naive_solver.
  - intros Hinv. assert (snap = p) as -> by (eapply (inv_current H _ Hinv); exact Hi).
    destruct (apply_update_keeps H u p p' Hu) as [Hk Ho]. eapply inv_release; [exact Hi|done|done|naive_solver|exact Hinv].
Qed.

Lemma reachable_inv H p us s : reachable H p us s -> inv H s.
Proof.
  induction 1 as [|s s' _ IH Hs]; [|by eapply step_inv].
  split; cbn [manager lock tasks]; try done; intros i; rewrite list_lookup_fmap;
    destruct (us !! i); cbn; naive_solver.
Qed.
End Updates.

(** C35. No update is lost: however the steps of concurrent tasks interleave, at
    every moment the policy of the manager has an allow rule for the command of
    every amendment whose task has succeeded. *)
Theorem updates_not_lost (H : Host) (p : Policy) (us : list Updates.Update) (s : Updates.State) (i : nat)
    (a : ExecPolicyAmendment) :
  Updates.reachable H p us s -> Updates.tasks s !! i = Some (Updates.Finished (Updates.UpdAmend a) true) ->
  explicitly_allowed H (Updates.manager s) (amendment_command a) = true.
Proof. intros Hs Hi. eapply Updates.inv_done; [by eapply Updates.reachable_inv|exact Hi]. Qed.

Definition npm_test : ExecPolicyAmendment := mkAmendment [lit "npm"; lit "test"].
Definition two_updates : list Updates.Update :=
  [Updates.UpdAmend npm_test; Updates.UpdAmend (mkAmendment [lit "cargo"; lit "build"])].

Lemma updates_not_lost_witness :
  exists q, explicitly_allowed empty_host q (amendment_command npm_test) = true.
Proof.
  destruct (Updates.apply_update_total empty_host (Updates.UpdAmend npm_test) policy_empty) as [[q|e] Hq];
    [|by vm_compute in Hq].
  exists q.
  set (u := Updates.UpdAmend npm_test) in *.
  eapply (updates_not_lost empty_host policy_empty two_updates
            (Updates.mkState q None None
               (<[0%nat := Updates.Finished u true]> (<[0%nat := Updates.Loaded u policy_empty]>
                  (<[0%nat := Updates.Appended u]> (<[0%nat := Updates.Appending u]>
                     (<[0%nat := Updates.Locked u]> (map Updates.Waiting two_updates))))))) 0); [|reflexivity].
  eapply Updates.reach_step; [eapply Updates.reach_step; [eapply Updates.reach_step;
    [eapply Updates.reach_step; [eapply Updates.reach_step; [apply Updates.reach_init|]|]|]|]|].
  - by apply (Updates.step_acquire _ _ _ _ 0 u).
  - by apply (Updates.step_lock_file _ _ _ _ 0 u).
  - by apply (Updates.step_append _ _ _ _ _ 0 u).
  - by apply (Updates.step_load _ _ _ _ _ 0 u).
  - by eapply (Updates.step_store _ _ _ _ _ _ 0 u).
Defined.

(** ** Patches *)

(** The places a proposed change writes to. *)
Definition change_targets (e : path * ApplyPatchFileChange) : list path :=
  match e.2 with
  | ProposedAdd _ | ProposedDelete _ => [e.1]
  | ProposedUpdate _ move_path _ => e.1 :: match move_path with Some dest => [dest] | None => [] end
  end.

Lemma safety_normalize_id p : absolute_normalized p -> safety_normalize p = p.
Proof.
  intros Hp. rewrite <- (normalize_normalized p Hp) at 2. destruct Hp as (names & -> & _).
  unfold safety_normalize, normalize_path.
  assert (forall l (buf : path), fold_left (fun out comp =>
    match comp with ParentDir => pathbuf_pop out | CurDir => out | other => pathbuf_push out other end) l buf
    = fold_left normalize_step l buf) as Hf.
  { induction l as [|c l IH]; intros buf; [done|]. cbn [fold_left]. rewrite IH. by destruct c. }
  rewrite Hf. cbn [fold_left normalize_step pathbuf_push]. rewrite fold_normalize_names. done.
Qed.

Lemma change_writable_targets H pol cwd e :
  change_writable H pol cwd e = true ->
  forall q, q ∈ change_targets e -> absolute_normalized q ->
    can_write_path_with_cwd H pol (display q) (display cwd) = true.
Proof.
  intros Hw q Hq Hn.
  assert (patch_path_writable H pol cwd q = true) as Hp.
  { unfold change_writable, change_targets in *. destruct (e.2) as [| |diff [dest|] new]; bool_to_prop; set_solver. }
  unfold patch_path_writable, util_resolve_path in Hp.
  assert (is_absolute q = true) as Ha by by destruct Hn as (? & -> & _).
  rewrite Ha, safety_normalize_id in Hp by done. exact Hp.
Qed.

(** When a patch is applied unasked: an approved patch is not empty, the mode is
    not the one that always asks, and - except in the deprecated mode that retries
    failures - every file it adds, deletes, updates or moves to can be written
    under the file system policy; it then runs in the platform's sandbox unless the
    profile has none. *)
Theorem patch_auto_approved (H : Host) (os : Platform) (action : ApplyPatchAction) (mode : AskForApproval)
    (profile : PermissionProfile) (pol : FileSystemSandboxPolicy) (cwd : path) (level : WindowsSandboxLevel)
    (sandbox : SandboxType) (explicit : bool) :
  assess_patch_safety H os action mode profile pol cwd level = AutoApprove sandbox explicit ->
  action_changes action <> ∅ /\ mode <> UnlessTrusted
  /\ (mode = OnFailure
      \/ forall p c q, action_changes action !! p = Some c -> q ∈ change_targets (p, c) -> absolute_normalized q ->
           can_write_path_with_cwd H pol (display q) (display cwd) = true)
  /\ (is_unsandboxed_profile profile = true
      \/ get_platform_sandbox os (negb (bool_decide (level = WslDisabled))) = Some sandbox).
Proof.
  unfold assess_patch_safety. case_bool_decide as Hne; [done|]. intros Ha.
  assert (mode <> UnlessTrusted) as Hm by by intros ->. split_and!; [done|done| |].
  - destruct (decide (mode = OnFailure)) as [->|Hf]; [by left|right].
    destruct (is_write_patch_constrained_to_writable_paths H action pol cwd) eqn:Hw.
    + intros p c q Hp Hq Hn. unfold is_write_patch_constrained_to_writable_paths in Hw. rewrite forallb_forall in Hw.
      eapply change_writable_targets; [|exact Hq|done]. apply Hw, list_elem_of_In. by apply elem_of_map_to_list.
    + exfalso. rewrite (bool_decide_eq_false_2 _ Hf) in Ha. cbn [orb] in Ha.
      destruct mode; try done; by destruct (rejects_sandbox_approval _).
  - destruct (is_unsandboxed_profile profile); [by left|right].
    destruct mode; try done;
      (destruct (is_write_patch_constrained_to_writable_paths H action pol cwd || _);
       [destruct (get_platform_sandbox os _); [congruence|]|]; by destruct (rejects_sandbox_approval _)).
Qed.

Definition demo_patch_action : ApplyPatchAction :=
  mkAction {[ components (lit "/a/x") := ProposedUpdate [] (Some (components (lit "/a/y"))) [] ]} [] dir_a.

Lemma patch_auto_approved_witness :
  assess_patch_safety empty_host Linux demo_patch_action OnRequest demo_profile carved_policy dir_a WslDisabled
  = AutoApprove LinuxSeccomp false
  /\ action_changes demo_patch_action <> ∅.
Proof.
  assert (assess_patch_safety empty_host Linux demo_patch_action OnRequest demo_profile carved_policy dir_a WslDisabled
    = AutoApprove LinuxSeccomp false) as Ha by by vm_compute.
  split; [exact Ha|]. eapply patch_auto_approved. exact Ha.
Defined.

(** A patch is never turned into a question when questions are off: under
    [Never], or a granular mode without sandbox approval, a patch is approved or
    rejected. *)
Theorem patch_never_asks (H : Host) (os : Platform) (action : ApplyPatchAction) (mode : AskForApproval)
    (profile : PermissionProfile) (pol : FileSystemSandboxPolicy) (cwd : path) (level : WindowsSandboxLevel) :
  rejects_sandbox_approval mode = true ->
  assess_patch_safety H os action mode profile pol cwd level <> AskUser.
Proof.
  intros Hr. unfold assess_patch_safety. case_bool_decide; [done|]. rewrite Hr.
  destruct mode; try done; repeat (case_match; try done).
Qed.

Lemma patch_never_asks_witness :
  assess_patch_safety empty_host Linux demo_patch_action Never demo_profile read_only dir_a WslDisabled <> AskUser.
Proof. by apply patch_never_asks. Defined.

(** ** Loading *)

(** A rules file that does not parse switches the execution policy off: the
    manager starts with the empty policy, so that also the rules of the managed
    requirements are not enforced. *)
Theorem parse_error_drops_requirements (H : Host) (read_dir : path -> result io_Error (list DirItem))
    (read_file : path -> result io_Error str)
    (parse_file : str -> str -> PolicyBuilder -> result Error PolicyBuilder) (stack : ConfigLayerStack)
    (identifier : str) (source : Error) :
  load_exec_policy H read_dir read_file parse_file stack = Err (ParsePolicy identifier source) ->
  manager_load H read_dir read_file parse_file stack = Ok policy_empty.
Proof. intros Hl. unfold manager_load, load_exec_policy_with_warning. by rewrite Hl. Qed.

Definition user_layer : ConfigLayerEntry := mkLayer (LayerUser (components (lit "/home/u/.codex/config.toml")) None) None.
Definition managed_stack : ConfigLayerStack := mkStack [user_layer] false (Some forbid_curl).
Definition one_rules_file (_ : path) : result io_Error (list DirItem) :=
  Ok [DirEntry (components (lit "/home/u/.codex/rules/my.rules")) (Ok true)].
Definition bad_syntax (_ _ : str) (_ : PolicyBuilder) : result Error PolicyBuilder :=
  Err (InvalidRule (lit "syntax")).

Lemma parse_error_drops_requirements_witness :
  manager_load empty_host one_rules_file (fun _ => Ok []) bad_syntax managed_stack = Ok policy_empty.
Proof.
  eapply (parse_error_drops_requirements empty_host one_rules_file (fun _ => Ok []) bad_syntax managed_stack
            (lit "/home/u/.codex/rules/my.rules") (InvalidRule (lit "syntax"))).
  by vm_compute.
Defined.

(** When loading succeeds the managed requirements are in force: the decision
    of the loaded policy on a command is at least as strict as every requirement
    rule that matches it. *)
Theorem load_enforces_requirements (H : Host) (read_dir : path -> result io_Error (list DirItem))
    (read_file : path -> result io_Error str)
    (parse_file : str -> str -> PolicyBuilder -> result Error PolicyBuilder) (stack : ConfigLayerStack)
    (p req : Policy) (c : str) (args : list str) (fallback : list str -> Decision) (m : RuleMatch) (ms : list RuleMatch) :
  load_exec_policy H read_dir read_file parse_file stack = Ok p ->
  requirements_exec_policy stack = Some req ->
  match_exact_rules req (c :: args) = Some ms -> m ∈ ms ->
  exists e, check_with_options (home H) (current_dir H) p (c :: args) fallback match_options = Some e
    /\ decision_le (match_decision m) (eval_decision e).
Proof.
  unfold load_exec_policy. intros Hl Hr Hms Hm.
  destruct (collect_layers _ _ _ _) as [paths|]; [|done]. destruct (parse_files _ _ _ _) as [b|]; [|done].
  rewrite Hr in Hl. injection Hl as <-.
  destruct (match_exact_merge (build b) req c args) as (ms1 & os & _ & Ho & Hmerge).
  rewrite Hms in Ho. injection Ho as <-. unfold check_with_options.
  destruct (ms1 ++ ms) as [|m0 l] eqn:Hl; [destruct ms1; set_solver|].
  rewrite (matches_exact (home H) (current_dir H) _ _ _ match_options _ _ Hmerge).
  destruct (from_matches_spec (m0 :: l)) as (e & -> & _ & Hup & _); [done|].
  exists e. split; [done|]. apply Hup. rewrite <- Hl. set_solver.
Qed.

Lemma load_enforces_requirements_witness :
  exists e, check_with_options None None
      (merge_overlay (build builder_new) forbid_curl) [lit "curl"; lit "x"] (fun _ => Allow) match_options = Some e
    /\ decision_le Forbidden (eval_decision e).
Proof.
  apply (load_enforces_requirements empty_host one_rules_file (fun _ => Ok []) (fun _ _ b => Ok b) managed_stack
           _ forbid_curl (lit "curl") [lit "x"] (fun _ => Allow)
           (PrefixRuleMatch [lit "curl"] Forbidden None None) [PrefixRuleMatch [lit "curl"] Forbidden None None]);
    [by vm_compute..|set_solver].
Defined.
