(* ===== verification/NetworkSpec.v ===== *)
(** * The network proxy of a session

    core/src/config/network_proxy_spec.rs with the requirement types of
    config/src/config_requirements.rs: the settings of the user and the requirements of
    an administrator are combined into the configuration of the proxy and the
    constraints on it; the network rules of the execution policy ([ExecPolicy]) are
    entered; the proxy is started with or without a decider that may ask the user.

    Section [Session] has the concurrent changes of a running session.
    [managed_only_end_to_end]: with [managed_allowed_domains_only], whatever the settings
    of the user, the decider and those changes, a request leaves the proxy only to a host
    that a managed pattern matches.  [requirements_accepted]: under the conditions it
    states, requirements do not clash with the settings they are laid over. *)

From stdpp Require Import base numbers list gmap strings.
From Stdlib Require Import Lia NArith ZArith.
From S2P Require Import ExecPolicy SandboxRoots.
From S2P Require Import Prelude AbsolutePath Host IpAddr NetworkPolicy NetworkConfig MitmHook NetworkState ProxyHandlers.

(** ** Requirements *)

(** [NetworkDomainPermissionToml] and [NetworkUnixSocketPermissionToml]. *)
Inductive TomlPermission : Type := TomlAllow | TomlDeny.
#[export] Instance TomlPermission_eq_dec : EqDecision TomlPermission.
Proof. solve_decision. Defined.

(** The tables of the two, as their entries in the order of the keys. *)
Abbreviation PermissionsToml := (BTree TomlPermission) (only parsing).

Definition toml_entries (permission : TomlPermission) (t : PermissionsToml) : list str :=
  fst <$> List.filter (fun e => bool_decide (e.2 = permission)) t.
Definition toml_allowed_domains (t : PermissionsToml) : option (list str) :=
  let l := toml_entries TomlAllow t in if l =s? [] then None else Some l.
Definition toml_denied_domains (t : PermissionsToml) : option (list str) :=
  let l := toml_entries TomlDeny t in if l =s? [] then None else Some l.
Definition toml_allow_unix_sockets (t : PermissionsToml) : list str := toml_entries TomlAllow t.

Definition some_entries (t : PermissionsToml) : option PermissionsToml := if t =s? [] then None else Some t.

Definition legacy_domain_permissions_from_lists (allowed denied : option (list str)) : option PermissionsToml :=
  let entries := fold_left (fun m p => btree_insert p TomlAllow m) (default [] allowed) [] in
  let entries := fold_left (fun m p => btree_insert p TomlDeny m) (default [] denied) entries in
  some_entries entries.
Definition legacy_unix_socket_permissions_from_list (allow_unix_sockets : option (list str)) : option PermissionsToml :=
  some_entries (fold_left (fun m p => btree_insert p TomlAllow m) (default [] allow_unix_sockets) []).

(** [NetworkConstraints] of codex_config. *)
Record NetworkConstraints : Type := mkRequirements {
  rq_enabled : option bool;
  rq_http_port : option N;
  rq_socks_port : option N;
  rq_allow_upstream_proxy : option bool;
  rq_dangerously_allow_non_loopback_proxy : option bool;
  rq_dangerously_allow_all_unix_sockets : option bool;
  rq_domains : option PermissionsToml;
  rq_managed_allowed_domains_only : option bool;
  rq_unix_sockets : option PermissionsToml;
  rq_allow_local_binding : option bool
}.

(** ** The specification of a proxy *)

Record NetworkProxySpec : Type := mkSpec {
  spec_base_config : NetworkProxyConfig;
  spec_requirements : option NetworkConstraints;
  spec_config : NetworkProxyConfig;
  spec_constraints : NetworkProxyConstraints;
  spec_hard_deny_allowlist_misses : bool
}.

Definition managed_sandbox_active (profile : PermissionProfile) : bool :=
  match profile with ProfileManaged _ _ => true | _ => false end.
Definition managed_allowed_domains_only (requirements : NetworkConstraints) : bool :=
  default false (rq_managed_allowed_domains_only requirements).
Definition allowlist_expansion_enabled (profile : PermissionProfile) (hard_deny_allowlist_misses : bool) : bool :=
  managed_sandbox_active profile && negb hard_deny_allowlist_misses.
Definition denylist_expansion_enabled (profile : PermissionProfile) : bool := managed_sandbox_active profile.

Definition merge_domain_lists (managed user_entries : list str) : list str :=
  fold_left (fun managed entry => if existsb (fun m => eq_ignore_ascii_case m entry) managed then managed
                                  else managed ++ [entry]) user_entries managed.

(** [codex_execpolicy] decides on hosts; [upsert_network_domains] enters each of them once. *)
Fixpoint upsert_network_domains (config : NetworkProxySettings) (incoming : gset str) (hosts : list str)
    (permission : NetworkDomainPermission) : NetworkProxySettings :=
  match hosts with
  | [] => config
  | host :: rest =>
      if bool_decide (host ∈ incoming) then upsert_network_domains config incoming rest permission
      else upsert_network_domains (upsert_domain_permission config host permission normalize_host)
             ({[host]} ∪ incoming) rest permission
  end.

Definition apply_exec_policy_network_rules (config : NetworkProxyConfig) (policy : Policy) : NetworkProxyConfig :=
  let '(allowed, denied) := compiled_network_domains policy in
  let config := upsert_network_domains (network config) ∅ allowed DomainAllow in
  mkConfig (upsert_network_domains config ∅ denied DomainDeny).

(** *** The settings after the requirements *)

(** [if let Some(v) = requirement { field = v }]. *)
Definition required {A} (current : A) (requirement : option A) : A := default current requirement.

(** The scalar fields of [apply_requirements], and the URLs with the required ports. *)
Definition apply_scalars (s : NetworkProxySettings) (r : NetworkConstraints) : NetworkProxySettings :=
  mkSettings (required (ns_enabled s) (rq_enabled r))
    (required (ns_proxy_url s) ((fun p => lit "http://127.0.0.1:" ++ show_N p) <$> rq_http_port r))
    (ns_enable_socks5 s)
    (required (ns_socks_url s) ((fun p => lit "http://127.0.0.1:" ++ show_N p) <$> rq_socks_port r))
    (ns_enable_socks5_udp s)
    (required (ns_allow_upstream_proxy s) (rq_allow_upstream_proxy r))
    (required (ns_dangerously_allow_non_loopback_proxy s) (rq_dangerously_allow_non_loopback_proxy r))
    (required (ns_dangerously_allow_all_unix_sockets s) (rq_dangerously_allow_all_unix_sockets r))
    (ns_mode s) (ns_domains s) (ns_unix_sockets s)
    (required (ns_allow_local_binding s) (rq_allow_local_binding r))
    (ns_mitm s) (ns_mitm_hooks s).

Definition managed_allowed_of (r : NetworkConstraints) (hard_deny_allowlist_misses : bool) : option (list str) :=
  let listed := rq_domains r ≫= toml_allowed_domains in
  if hard_deny_allowlist_misses then Some (default [] listed) else listed.
Definition managed_denied_of (r : NetworkConstraints) : option (list str) := rq_domains r ≫= toml_denied_domains.

(** The list of a permission: the managed entries, extended by the user's where that is enabled. *)
Definition effective_list (expansion : bool) (managed : list str) (user : option (list str)) : list str :=
  if expansion then merge_domain_lists managed (default [] user) else managed.

Definition apply_allowed (s : NetworkProxySettings) (managed : option (list str)) (expansion : bool) :
    NetworkProxySettings :=
  match managed with
  | Some l => set_allowed_domains s (effective_list expansion l (allowed_domains s))
  | None => s
  end.
Definition apply_denied (s : NetworkProxySettings) (managed : option (list str)) (expansion : bool) :
    NetworkProxySettings :=
  match managed with
  | Some l => set_denied_domains s (effective_list expansion l (denied_domains s))
  | None => s
  end.
Definition apply_sockets (s : NetworkProxySettings) (sockets : option PermissionsToml) : NetworkProxySettings :=
  match sockets with
  | Some t => set_allow_unix_sockets s (toml_allow_unix_sockets t)
  | None => s
  end.

Definition apply_requirements (config : NetworkProxyConfig) (r : NetworkConstraints) (profile : PermissionProfile)
    (hard_deny_allowlist_misses : bool) : NetworkProxyConfig * NetworkProxyConstraints :=
  let allow_exp := allowlist_expansion_enabled profile hard_deny_allowlist_misses in
  let deny_exp := denylist_expansion_enabled profile in
  let managed_allowed := managed_allowed_of r hard_deny_allowlist_misses in
  let managed_denied := managed_denied_of r in
  let s := apply_scalars (network config) r in
  let s := apply_allowed s managed_allowed allow_exp in
  let s := apply_denied s managed_denied deny_exp in
  let s := apply_sockets s (rq_unix_sockets r) in
  (mkConfig s,
   mkConstraints (rq_enabled r) None (rq_allow_upstream_proxy r) (rq_dangerously_allow_non_loopback_proxy r)
     (rq_dangerously_allow_all_unix_sockets r)
     managed_allowed (match managed_allowed with Some _ => Some allow_exp | None => None end)
     managed_denied (match managed_denied with Some _ => Some deny_exp | None => None end)
     (toml_allow_unix_sockets <$> rq_unix_sockets r) (rq_allow_local_binding r)).

Section Spec.
Context `{UrlHostParser} `{HttpLib} `{GlobEngine} (P : ProxyHost).

Definition from_config_and_constraints (config : NetworkProxyConfig) (requirements : option NetworkConstraints)
    (profile : PermissionProfile) : result NetworkProxyConstraintError NetworkProxySpec :=
  let hard_deny_allowlist_misses :=
    match requirements with Some r => managed_allowed_domains_only r | None => false end in
  let '(config', constraints) :=
    match requirements with
    | Some r => apply_requirements config r profile hard_deny_allowlist_misses
    | None => (config, NetworkProxyConstraints_default)
    end in
  _ ← validate_policy_against_constraints (ph_host P) config' constraints;
  Ok (mkSpec config requirements config' constraints hard_deny_allowlist_misses).

Definition recompute_for_permission_profile (self : NetworkProxySpec) (profile : PermissionProfile) :
    result NetworkProxyConstraintError NetworkProxySpec :=
  from_config_and_constraints (spec_base_config self) (spec_requirements self) profile.

Definition with_exec_policy_network_rules (self : NetworkProxySpec) (policy : Policy) :
    result NetworkProxyConstraintError NetworkProxySpec :=
  let config := apply_exec_policy_network_rules (spec_config self) policy in
  _ ← validate_policy_against_constraints (ph_host P) config (spec_constraints self);
  Ok (mkSpec (spec_base_config self) (spec_requirements self) config (spec_constraints self)
        (spec_hard_deny_allowlist_misses self)).

Definition build_config_state_for_spec (self : NetworkProxySpec) : result ProxyError ConfigState :=
  build_config_state P (spec_config self) (spec_constraints self).

(** The decider [start_proxy] installs: the session's, or one that asks for every host. *)
Definition started_decider (self : NetworkProxySpec) (profile : PermissionProfile)
    (policy_decider : option (NetworkPolicyRequest -> NetworkDecision)) (enable_network_approval_flow : bool) :
    option (NetworkPolicyRequest -> NetworkDecision) :=
  if enable_network_approval_flow && negb (spec_hard_deny_allowlist_misses self) then
    match policy_decider with
    | Some d => Some d
    | None => if managed_sandbox_active profile
              then Some (fun _ => ask_with_source (lit "not_allowed") Decider) else None
    end
  else None.
End Spec.

(** ** The state of a started proxy *)

Section Started.
Context `{UrlHostParser} `{HttpLib} `{GlobEngine} (P : ProxyHost).

Definition spec_valid (self : NetworkProxySpec) : Prop :=
  validate_policy_against_constraints (ph_host P) (spec_config self) (spec_constraints self) = Ok tt.

(** The constraints are those of the requirements, however the specification was made. *)
Definition spec_managed_only (self : NetworkProxySpec) (r : NetworkConstraints) : Prop :=
  nc_allowed_domains (spec_constraints self) = managed_allowed_of r true /\
  nc_allowlist_expansion_enabled (spec_constraints self) = Some false /\
  spec_hard_deny_allowlist_misses self = true.

Lemma from_config_valid (config : NetworkProxyConfig) (requirements : option NetworkConstraints)
    (profile : PermissionProfile) (self : NetworkProxySpec) :
  from_config_and_constraints P config requirements profile = Ok self ->
  spec_valid self /\
  (forall r, requirements = Some r -> managed_allowed_domains_only r = true -> spec_managed_only self r).
Proof.
  unfold from_config_and_constraints. destruct requirements as [r|].
  - destruct (apply_requirements config r profile (managed_allowed_domains_only r)) as [config' k] eqn:Ha.
    intros ([] & Hv & [= <-])%result_bind_ok. split; [done|]. intros r' [= <-] Hm.
    unfold apply_requirements in Ha. rewrite Hm in Ha. simplify_eq. unfold spec_managed_only. cbn.
    unfold allowlist_expansion_enabled. by rewrite andb_false_r, Hm.
  - intros ([] & Hv & [= <-])%result_bind_ok. split; done.
Qed.

Lemma with_exec_policy_valid (self self' : NetworkProxySpec) (policy : Policy) (r : NetworkConstraints) :
  with_exec_policy_network_rules P self policy = Ok self' ->
  spec_valid self' /\ (spec_managed_only self r -> spec_managed_only self' r).
Proof. unfold with_exec_policy_network_rules. intros ([] & Hv & [= <-])%result_bind_ok. split; done. Qed.

(** *** A session *)

(** A specification for the requirements, with or without rules of an execution policy. *)
Definition spec_for (r : NetworkConstraints) (self : NetworkProxySpec) : Prop :=
  exists config profile spec, from_config_and_constraints P config (Some r) profile = Ok spec /\
    (self = spec \/ exists policy, with_exec_policy_network_rules P spec policy = Ok self).

Lemma spec_for_managed (r : NetworkConstraints) (self : NetworkProxySpec) :
  managed_allowed_domains_only r = true -> spec_for r self -> spec_valid self /\ spec_managed_only self r.
Proof.
  intros Hm (config & profile & spec & Hf & Hs). apply from_config_valid in Hf as [Hv Hmo].
  specialize (Hmo r eq_refl Hm). destruct Hs as [->|[policy Hs]]; [done|].
  apply (with_exec_policy_valid _ _ _ r) in Hs as [? Hmo']. auto.
Qed.

(** A state made for the requirements. *)
Definition made_for (r : NetworkConstraints) (st : ConfigState) : Prop :=
  exists self, spec_for r self /\ build_config_state_for_spec P self = Ok st.

(** The allowlist is pinned to the one of the requirements. *)
Definition pinned (r : NetworkConstraints) (st : ConfigState) : Prop :=
  nc_allowed_domains (cs_constraints st) = managed_allowed_of r true /\
  nc_allowlist_expansion_enabled (cs_constraints st) = Some false.

Lemma made_for_pinned (r : NetworkConstraints) (st : ConfigState) :
  managed_allowed_domains_only r = true -> made_for r st -> Tasks.built P st /\ pinned r st.
Proof.
  intros Hm (self & Hs & Hb). destruct (spec_for_managed r self Hm Hs) as (Hv & Ha & He & _).
  split; [by eexists _, _|]. destruct (build_config_state_ok P _ _ _ Hv Hb) as (_ & _ & Hk & _).
  unfold pinned. by rewrite Hk.
Qed.

Section Session.
Context (r : NetworkConstraints) (start : ConfigState).

(** [StaticNetworkProxyReloader]: [maybe_reload] has nothing new, [reload_now] gives the
    state the proxy was started with. *)
Definition static_answer (a : Tasks.Answer) : Prop := a = Tasks.NoReload \/ a = Tasks.NewState start.

(** [apply_to_started_proxy] brings in a state made for the requirements, whatever the
    settings and the profile it is made from. *)
Definition session_op (op : Tasks.Op) : Prop :=
  match op with Tasks.OpReplace st => made_for r st | _ => True end.

(** The steps of the concurrent tasks of a session. *)
Inductive session_step : Tasks.Sys -> Tasks.Sys -> Prop :=
| session_run g ts i t a g' t' :
    ts !! i = Some t -> static_answer a -> Tasks.step_task P a g t = Some (g', t') ->
    session_step (g, ts) (g', <[i := t']> ts)
| session_operation g ts op : session_op op -> session_step (g, ts) (g, ts ++ [Tasks.Reloading op])
| session_update g ts host kind : session_step (g, ts) (g, ts ++ [Tasks.start_update host kind])
| session_force g ts : session_step (g, ts) (g, ts ++ [Tasks.ForceAsk]).

Definition session_reachable (st : ConfigState) : Prop := exists ts, rtc session_step (start, []) (st, ts).

(** What a handler reads in a session. *)
Definition session_answers (answers : list Tasks.Answer) : Prop :=
  forall st, Tasks.NewState st ∈ answers -> session_reachable st.

Definition task_keeps (t : Tasks.Task) : Prop :=
  match t with
  | Tasks.Reloading op | Tasks.Running op => session_op op
  | Tasks.ReloadRead op st | Tasks.ReloadWrite op st _ _ => session_op op /\ pinned r st
  | Tasks.UpdateCommit _ _ _ k st _ _ => cs_constraints st = k
  | Tasks.ForceWrite st => pinned r st
  | _ => True
  end.

(** What holds of the tasks of a session and the state they share. *)
Definition session_ok (s : Tasks.Sys) : Prop := Tasks.sys_ok P s /\ pinned r s.1 /\ Forall task_keeps s.2.

Hypothesis only_managed : managed_allowed_domains_only r = true.
Hypothesis start_made : made_for r start.

Lemma session_task_keeps (g g' : ConfigState) (a : Tasks.Answer) (t t' : Tasks.Task) :
  static_answer a -> pinned r g -> task_keeps t -> Tasks.step_task P a g t = Some (g', t') ->
  pinned r g' /\ task_keeps t'.
Proof.
  intros Ha Hg Ht Hstep. destruct (made_for_pinned r start only_managed start_made) as [_ Hstart].
  destruct t as [op|op st|op st b n|op|h kd c k st b n|m k| |st|o]; cbn in Hstep.
  - destruct Ha as [->| ->]; by simplify_eq.
  - by simplify_eq.
  - simplify_eq. by destruct Ht.
  - destruct op as [h kd|m|st|e|]; simplify_eq; try done.
    + destruct (plan_update _ _ _ _ _) eqn:Hp; simplify_eq; try done.
      by apply Tasks.plan_update_ok in Hp as (_ & ? & _).
    + by destruct (validate_policy_against_constraints _ _ _); simplify_eq.
    + split; [|done]. exact (proj2 (made_for_pinned r st only_managed Ht)).
  - destruct (_ && _) eqn:Hk; simplify_eq; [|done]. apply andb_true_iff in Hk as [Hk _]. bool_to_prop.
    cbn in Ht. split; [|done]. unfold pinned in *. cbn [cs_constraints with_blocked]. by rewrite Ht, <- Hk.
  - by case_bool_decide; simplify_eq.
  - destruct Ha as [->| ->]; by simplify_eq.
  - by simplify_eq.
  - done.
Qed.

Lemma session_step_sys (s s' : Tasks.Sys) : session_step s s' -> Tasks.sys_step P s s'.
Proof.
  intros Hstep. destruct (made_for_pinned r start only_managed start_made) as [Hb _].
  destruct Hstep as [g ts i t a g' t' Hi Ha Hst|g ts op Hop|g ts h kd|g ts].
  - eapply Tasks.sys_run; [done| |done]. by destruct Ha as [->| ->].
  - apply Tasks.sys_operation. destruct op; try done. exact (proj1 (made_for_pinned r _ only_managed Hop)).
  - apply Tasks.sys_update.
  - apply Tasks.sys_force.
Qed.

Lemma session_step_keeps (s s' : Tasks.Sys) : session_step s s' -> session_ok s -> session_ok s'.
Proof.
  intros Hstep (Hok & Hk & Hts). split; [by eapply Tasks.sys_step_ok; [|apply session_step_sys]|].
  destruct Hstep as [g ts i t a g' t' Hi Ha Hst|g ts op Hop|g ts h kd|g ts]; cbn [fst snd] in *.
  - destruct (session_task_keeps g g' a t t') as [? ?]; [done|done| |done|].
    { rewrite Forall_lookup in Hts. by eapply Hts. }
    split; [done|]. by apply Forall_insert.
  - split; [done|]. apply Forall_app. by split; [|constructor].
  - split; [done|]. apply Forall_app. split; [done|]. constructor; [|done].
    unfold Tasks.start_update. by destruct (Host_parse h).
  - split; [done|]. apply Forall_app. by split; [|constructor].
Qed.

Lemma session_reachable_keeps (st : ConfigState) : session_reachable st -> state_ok P st /\ pinned r st.
Proof.
  intros (ts & Hr). assert (session_ok (start, [])) as Hok.
  { destruct (made_for_pinned r start only_managed start_made) as [[? ?]%Tasks.built_state_ok ?].
    split_and!; [split_and!; [done|done|constructor]|done|constructor]. }
  assert (session_ok (st, ts)) as ((? & _) & ? & _); [|done].
  revert Hok. induction Hr as [|x y z Hxy _ IH]; [done|]. intros Hok. apply IH. by apply (session_step_keeps x y).
Qed.

Lemma session_seen (g st : ConfigState) (answers : list Tasks.Answer) :
  session_reachable g -> session_answers answers -> seen (mkWorld g answers) st -> state_ok P st /\ pinned r st.
Proof.
  intros Hg Ha (s & b & n & -> & Hin).
  destruct (session_reachable_keeps s) as [? ?]; [|by split; [apply state_ok_with_blocked|]].
  destruct Hin as [->|Hin]; [done|by apply Ha].
Qed.
End Session.

(** A proxy whose misses are final has no decider. *)
Lemma hard_deny_no_decider (self : NetworkProxySpec) (profile : PermissionProfile)
    (d : option (NetworkPolicyRequest -> NetworkDecision)) (flow : bool) :
  spec_hard_deny_allowlist_misses self = true -> started_decider self profile d flow = None.
Proof. intros Hh. unfold started_decider. by rewrite Hh, andb_false_r. Qed.

(** C4. With [managed_allowed_domains_only], whatever the settings of the user, the network rules
    of the execution policy and the decider of the session, and whatever other tasks of the
    session change in the lists, the mode or the settings, also between two questions of one
    handler: a handler of the started proxy forwards a request only to a host that an allowed
    pattern of the requirements matches. *)
Theorem managed_only_end_to_end (r : NetworkConstraints) (spec : NetworkProxySpec) (profile : PermissionProfile)
    (start g : ConfigState) (answers : list Tasks.Answer)
    (decider : option (NetworkPolicyRequest -> NetworkDecision)) (flow sockets : bool) (now : Z)
    (request : ProxyRequest) (w' : World) (o : Outcome) :
  managed_allowed_domains_only r = true -> spec_for r spec -> build_config_state_for_spec P spec = Ok start ->
  session_reachable r start g -> session_answers r start answers ->
  handle P now (started_decider spec profile decider flow) sockets request (mkWorld g answers) = (w', Ok o) ->
  forwards o = true ->
  exists req h p glob, policy_request request = Some req /\ Host_parse (npr_host req) = Ok h /\
    p ∈ default [] (rq_domains r ≫= toml_allowed_domains) /\ glob ∈ expand_domain_pattern (normalize_pattern p) /\
    (glob_is_match glob h = true \/ exists ip, unscoped_ip_literal h = Some ip /\ glob_is_match glob ip = true).
Proof.
  intros Hm Hf Hb Hg Hq Hh Hfw. destruct (spec_for_managed r spec Hm Hf) as (_ & _ & _ & Hhard).
  rewrite (hard_deny_no_decider _ _ _ _ Hhard) in Hh.
  destruct (handle_admits P now None sockets (mkWorld g answers) w' request o Hh Hfw) as (req & n & Hreq & Hal).
  destruct Hal as [Hal|[_ (d & [=] & _)]].
  destruct (session_seen r start Hm ltac:(by exists spec) g (read_at n (mkWorld g answers)) answers)
    as (Hst & Ha & He); [done|done|apply read_at_seen|].
  destruct (state_ok_allows_managed P (read_at n (mkWorld g answers)) (default [] (rq_domains r ≫= toml_allowed_domains))
    (npr_host req) (npr_port req)) as (h & p & glob & ? & ? & ? & ?); [done|exact Ha|exact He|done|].
  by exists req, h, p, glob.
Qed.
End Started.

(** ** A managed configuration *)

#[local] Existing Instances names_only simple_http wild_globs.

Definition managed_requirements : NetworkConstraints :=
  mkRequirements (Some true) (Some 4000%N) None None None None
    (legacy_domain_permissions_from_lists (Some [lit "*.corp.example"]) (Some [lit "paste.corp.example"]))
    (Some true) None (Some false).

(** The user allows everything and has the policy of execution allow a host. *)
Definition user_config : NetworkProxyConfig :=
  mkConfig (with_domains NetworkProxySettings_default (Some (mkDomainPermissions [mkDomainEntry (lit "*") DomainAllow]))).

Definition spec_or (r : result NetworkProxyConstraintError NetworkProxySpec) : NetworkProxySpec :=
  match r with
  | Ok s => s
  | Err _ => mkSpec user_config None user_config NetworkProxyConstraints_default false
  end.

Definition corp_spec : NetworkProxySpec :=
  spec_or (from_config_and_constraints test_proxy user_config (Some managed_requirements) default_profile).

Definition empty_policy : Policy := mkPolicy ∅ [] ∅.

Definition corp_state : ConfigState := state_of (spec_config corp_spec) (spec_constraints corp_spec).

Lemma managed_only_end_to_end_witness :
  exists req h p glob, policy_request (connect_to "git.corp.example") = Some req /\ Host_parse (npr_host req) = Ok h /\
    p ∈ [lit "*.corp.example"] /\ glob ∈ expand_domain_pattern (normalize_pattern p) /\
    (glob_is_match glob h = true \/ exists ip, unscoped_ip_literal h = Some ip /\ glob_is_match glob ip = true).
Proof.
  destruct (handle test_proxy 0 (started_decider corp_spec default_profile (Some yes) true) false
              (connect_to "git.corp.example") (mkWorld corp_state [])) as [w' r] eqn:Hr.
  apply (managed_only_end_to_end test_proxy managed_requirements corp_spec default_profile corp_state corp_state []
           (Some yes) true false 0 (connect_to "git.corp.example") w' (Tunnel false Full None)).
  - vm_compute. reflexivity.
  - exists user_config, default_profile, corp_spec. split; [vm_compute; reflexivity|].
    right. exists empty_policy. vm_compute. reflexivity.
  - vm_compute. reflexivity.
  - exists []. constructor.
  - intros st Hin. destruct (not_elem_of_nil _ Hin).
  - rewrite Hr. f_equal. apply (f_equal snd) in Hr. vm_compute in Hr. by rewrite <- Hr.
  - reflexivity.
Defined.

Example unmanaged_host_refused :
  (handle test_proxy 0 (started_decider corp_spec default_profile (Some yes) true) false
     (connect_to "evil.com") (mkWorld corp_state [])).2 = Ok (Refused REASON_NOT_ALLOWED).
Proof. vm_compute. reflexivity. Qed.

(** A denial of the user in other letters than a managed allowance is counted when the
    lists are compared but not when they are made: the proxy does not start. *)
Example denial_in_other_case_rejected :
  is_ok (from_config_and_constraints test_proxy
    (mkConfig (with_domains NetworkProxySettings_default
       (Some (mkDomainPermissions [mkDomainEntry (lit "Git.corp.example") DomainDeny]))))
    (Some (mkRequirements None None None None None None
             (legacy_domain_permissions_from_lists (Some [lit "git.corp.example"]) None) (Some true) None None))
    default_profile) = false /\
  is_ok (from_config_and_constraints test_proxy
    (mkConfig (with_domains NetworkProxySettings_default
       (Some (mkDomainPermissions [mkDomainEntry (lit "git.corp.example") DomainDeny]))))
    (Some (mkRequirements None None None None None None
             (legacy_domain_permissions_from_lists (Some [lit "git.corp.example"]) None) (Some true) None None))
    default_profile) = true.
Proof. vm_compute. done. Qed.

(** ** Requirements do not clash with the settings *)

Lemma merge_keeps (managed user : list str) (p : str) : p ∈ managed -> p ∈ merge_domain_lists managed user.
Proof.
  unfold merge_domain_lists. revert managed. induction user as [|u user IH]; intros managed Hp; cbn; [done|].
  apply IH. destruct (existsb _ managed); [done|]. apply elem_of_app. by left.
Qed.

Lemma merge_from (managed user : list str) (p : str) :
  p ∈ merge_domain_lists managed user -> p ∈ managed \/ p ∈ user.
Proof.
  unfold merge_domain_lists. revert managed. induction user as [|u user IH]; intros managed; cbn; [by left|].
  intros [Hp|Hp]%IH; [|by right; right]. destruct (existsb _ managed); [by left|].
  apply elem_of_app in Hp as [?|Hp%list_elem_of_singleton]; [by left|subst; right; left].
Qed.

Lemma no_wildcards_iff (field : ConstraintField) (l : list str) :
  validate_non_global_wildcard_domain_patterns field l = Ok tt <->
  forall p, p ∈ l -> is_global_wildcard_domain_pattern p = false.
Proof.
  unfold validate_non_global_wildcard_domain_patterns. destruct (List.find _ l) as [x|] eqn:Hf.
  - apply find_some in Hf as [Hin Hx]. apply list_elem_of_In in Hin. split; [done|].
    intros Hall. rewrite (Hall x Hin) in Hx. done.
  - split; [|done]. intros _ p Hp. apply list_elem_of_In in Hp. by eapply find_none in Hf.
Qed.

Lemma set_filter_all (keep : str -> bool) (s : gset str) :
  (forall p, p ∈ s -> keep p = false) -> set_filter keep s = [].
Proof.
  intros Hall. unfold set_filter. destruct (List.filter keep (elements s)) as [|x l] eqn:Hf; [done|].
  assert (x ∈ List.filter keep (elements s)) as Hin by (rewrite Hf; left).
  apply elem_of_filter_bool in Hin as [Hin%elem_of_elements Hk]. rewrite (Hall x Hin) in Hk. done.
Qed.

Lemma btree_insert_elem {V} (k : str) (v : V) (m : BTree V) (e : str * V) :
  e ∈ btree_insert k v m -> e = (k, v) \/ e ∈ m.
Proof.
  induction m as [|[k' v'] m IH]; cbn; [by intros ?%list_elem_of_singleton; left|].
  case_bool_decide; [set_solver|]. destruct (str_leb k k'); set_solver.
Qed.

(** The sockets after a requirement are the required ones. *)
Lemma set_allow_unix_sockets_elem (s : NetworkProxySettings) (l : list str) (p : str) :
  p ∈ allow_unix_sockets (set_allow_unix_sockets s l) -> p ∈ l.
Proof.
  unfold allow_unix_sockets, set_allow_unix_sockets, set_unix_socket_entries. cbn [ns_unix_sockets with_unix_sockets].
  set (kept := List.filter _ _).
  assert (forall e, e ∈ fold_left (fun m entry => btree_insert entry SocketAllow m) l kept -> e.2 = SocketAllow -> e.1 ∈ l)
    as Hall.
  { assert (forall e, e ∈ kept -> e.2 <> SocketAllow) as Hk.
    { intros e. subst kept. rewrite elem_of_filter_bool, negb_true_iff, bool_decide_eq_false. tauto. }
    clearbody kept. assert (forall l' m, (forall e, e ∈ m -> e.2 = SocketAllow -> e.1 ∈ l) -> (forall x, x ∈ l' -> x ∈ l) ->
      forall e, e ∈ fold_left (fun m entry => btree_insert entry SocketAllow m) l' m -> e.2 = SocketAllow -> e.1 ∈ l) as Hgen.
    { induction l' as [|x l' IH]; intros m Hm Hl'; cbn; [done|]. apply IH; [|intros y Hy; apply Hl'; by right].
      intros e [Heq|He]%btree_insert_elem; [subst e|by apply Hm]. intros _. apply Hl'. left. }
    apply (Hgen l kept); [|done]. intros e He Hs. by destruct (Hk e He). }
  case_bool_decide; [by intros ?%elem_of_nil|]. cbn [sp_entries].
  intros (e & -> & He)%list_elem_of_fmap. apply elem_of_filter_bool in He as [He Hs]. bool_to_prop. by apply Hall.
Qed.

Section Accepted.
Context `{UrlHostParser} `{HttpLib} `{GlobEngine} (P : ProxyHost).
Context (config : NetworkProxyConfig) (r : NetworkConstraints).

Let managed_allowed := managed_allowed_of r false.
Let managed_denied := managed_denied_of r.
Let s1 := apply_scalars (network config) r.
Let s2 := apply_allowed s1 managed_allowed true.
Let s3 := apply_denied s2 managed_denied true.
Let s4 := apply_sockets s3 (rq_unix_sockets r).

Lemma s4_domains : ns_domains s4 = ns_domains s3.
Proof. subst s4. unfold apply_sockets. by destruct (rq_unix_sockets r). Qed.

Lemma s2_denied (p : str) :
  has_entry (entries_of (ns_domains s2)) p DomainDeny <-> has_entry (entries_of (ns_domains (network config))) p DomainDeny.
Proof. subst s2. unfold apply_allowed. destruct managed_allowed; [|done]. by rewrite set_allowed_has_entry. Qed.

Lemma s4_denied (p : str) :
  p ∈ config_denied_domains (mkConfig s4) ->
  p ∈ config_denied_domains config \/ p ∈ default [] managed_denied.
Proof.
  unfold config_denied_domains. cbn [network]. rewrite !denied_domains_iff, s4_domains.
  subst s3. unfold apply_denied. destruct managed_denied as [l|]; [|rewrite s2_denied; by left].
  rewrite set_denied_has_entry. intros [Hp|Hp]%merge_from; [by right|left].
  by rewrite <- s2_denied, <- denied_domains_iff.
Qed.

Lemma s4_managed_denied (p : str) :
  p ∈ default [] managed_denied -> p ∈ config_denied_domains (mkConfig s4).
Proof.
  unfold config_denied_domains. cbn [network]. rewrite denied_domains_iff, s4_domains.
  subst s3. unfold apply_denied. destruct managed_denied as [l|]; [|by intros ?%elem_of_nil].
  intros Hp. apply set_denied_has_entry. by apply merge_keeps.
Qed.

Lemma s4_managed_allowed (p : str) :
  p ∈ default [] managed_allowed -> p ∈ config_allowed_domains (mkConfig s4) \/ p ∈ config_denied_domains (mkConfig s4).
Proof.
  intros Hp. unfold config_allowed_domains, config_denied_domains. cbn [network].
  rewrite allowed_domains_iff, denied_domains_iff.
  assert (has_entry (entries_of (ns_domains s4)) p DomainAllow) as Ha.
  { rewrite s4_domains. assert (has_entry (entries_of (ns_domains s2)) p DomainAllow) as Ha2.
    { subst s2. unfold apply_allowed. destruct managed_allowed as [l|]; [|by apply elem_of_nil in Hp].
      apply set_allowed_has_entry. by apply merge_keeps. }
    subst s3. unfold apply_denied. destruct managed_denied as [l|]; [|done]. by apply set_denied_has_entry. }
  destruct (decide (mkDomainEntry p DomainDeny ∈ entries_of (ns_domains s4))); [by right|by left].
Qed.

(** The fields that are not lists come from the first step. *)
Lemma s4_fields :
  (ns_mitm_hooks s4, ns_mitm s4, ns_enabled s4, ns_allow_upstream_proxy s4, ns_dangerously_allow_non_loopback_proxy s4,
   ns_dangerously_allow_all_unix_sockets s4, ns_allow_local_binding s4)
  = (ns_mitm_hooks s1, ns_mitm s1, ns_enabled s1, ns_allow_upstream_proxy s1, ns_dangerously_allow_non_loopback_proxy s1,
     ns_dangerously_allow_all_unix_sockets s1, ns_allow_local_binding s1).
Proof.
  subst s4 s3 s2. unfold apply_sockets, apply_denied, apply_allowed.
  by destruct (rq_unix_sockets r), managed_denied, managed_allowed.
Qed.

(** A required value keeps to itself as a limit. *)
Lemma required_flag (field : ConstraintField) (current : bool) (limit : option bool) :
  validate_flag field (required current limit) limit = Ok tt.
Proof. by destruct limit as [[]|]. Qed.

Let k : NetworkProxyConstraints :=
  mkConstraints (rq_enabled r) None (rq_allow_upstream_proxy r) (rq_dangerously_allow_non_loopback_proxy r)
    (rq_dangerously_allow_all_unix_sockets r)
    managed_allowed (match managed_allowed with Some _ => Some true | None => None end)
    managed_denied (match managed_denied with Some _ => Some true | None => None end)
    (toml_allow_unix_sockets <$> rq_unix_sockets r) (rq_allow_local_binding r).

(** Each list passes its check. *)
Lemma s4_allowed_checked :
  (forall p, p ∈ default [] managed_allowed -> is_global_wildcard_domain_pattern p = false) ->
  validate_allowed_domains (mkConfig s4) k = Ok tt.
Proof.
  intros Hw. unfold validate_allowed_domains. cbn [nc_allowed_domains nc_allowlist_expansion_enabled k].
  pose proof s4_managed_allowed as Hall. destruct managed_allowed as [l|]; [|done].
  rewrite (proj2 (no_wildcards_iff F_allowed_domains l)) by done. cbn [mbind result_bind].
  rewrite set_filter_all; [done|]. intros p (q & Hq & <-)%elem_of_lower_set. apply andb_false_iff.
  rewrite !negb_false_iff, !bool_decide_eq_true, !elem_of_lower_set. destruct (Hall q Hq); eauto.
Qed.

Lemma s4_denied_checked :
  (forall p, p ∈ default [] managed_denied -> is_global_wildcard_domain_pattern p = false) ->
  validate_denied_domains (mkConfig s4) k = Ok tt.
Proof.
  intros Hw. unfold validate_denied_domains. cbn [nc_denied_domains nc_denylist_expansion_enabled k].
  pose proof s4_managed_denied as Hall. destruct managed_denied as [l|]; [|done].
  rewrite (proj2 (no_wildcards_iff F_denied_domains l)) by done. cbn [mbind result_bind].
  rewrite set_filter_all; [done|]. intros p (q & Hq & <-)%elem_of_lower_set.
  rewrite negb_false_iff, bool_decide_eq_true, elem_of_lower_set. eauto.
Qed.

Lemma s4_sockets_checked : validate_allow_unix_sockets (mkConfig s4) k = Ok tt.
Proof.
  unfold validate_allow_unix_sockets. cbn [nc_allow_unix_sockets k network].
  assert (forall t p, rq_unix_sockets r = Some t -> p ∈ allow_unix_sockets s4 -> p ∈ toml_allow_unix_sockets t) as Hall.
  { intros t p Ht. subst s4. rewrite Ht. apply set_allow_unix_sockets_elem. }
  destruct (rq_unix_sockets r) as [t|]; cbn [fmap option_fmap option_map]; [|done].
  destruct (List.filter _ _) as [|x l] eqn:Hfl; [done|]. exfalso.
  assert (x ∈ x :: l) as Hin by left. rewrite <- Hfl in Hin. apply elem_of_filter_bool in Hin as [Hin Hx].
  bool_to_prop. apply Hx, elem_of_lower_set. eauto.
Qed.

Lemma s4_all_sockets_checked :
  (rq_unix_sockets r = None \/ is_Some (rq_dangerously_allow_all_unix_sockets r) \/
   ns_dangerously_allow_all_unix_sockets (network config) = false) ->
  ns_dangerously_allow_all_unix_sockets s4 = ns_dangerously_allow_all_unix_sockets s1 ->
  validate_all_unix_sockets (mkConfig s4) k = Ok tt.
Proof.
  intros Hsock Heq. unfold validate_all_unix_sockets.
  cbn [network nc_dangerously_allow_all_unix_sockets nc_allow_unix_sockets k]. rewrite Heq.
  cbn [ns_dangerously_allow_all_unix_sockets s1 apply_scalars].
  destruct (rq_dangerously_allow_all_unix_sockets r) as [[]|]; [done|done|]. cbn [required default].
  destruct (rq_unix_sockets r); cbn; [|by rewrite andb_false_r]. destruct Hsock as [?|[[? ?]| ->]]; done.
Qed.

(** An entry of the user is in the merged list, in some spelling. *)
Lemma merge_spelling (managed user : list str) (p : str) :
  p ∈ user -> exists q, q ∈ merge_domain_lists managed user /\ to_ascii_lowercase q = to_ascii_lowercase p.
Proof.
  unfold merge_domain_lists. revert managed. induction user as [|u user IH]; intros managed Hp; [by apply elem_of_nil in Hp|].
  cbn [fold_left]. apply elem_of_cons in Hp as [->|Hp]; [|by apply IH].
  destruct (existsb _ managed) eqn:He.
  - apply existsb_exists in He as (q & Hq%list_elem_of_In & Heq). unfold eq_ignore_ascii_case in Heq. bool_to_prop.
    exists q. split; [by apply (merge_keeps managed user)|done].
  - exists u. split; [|done]. apply (merge_keeps _ user). apply elem_of_app. right. by apply list_elem_of_singleton.
Qed.

Lemma s4_user_denied (p : str) :
  p ∈ config_denied_domains config ->
  exists q, q ∈ config_denied_domains (mkConfig s4) /\ to_ascii_lowercase q = to_ascii_lowercase p.
Proof.
  unfold config_denied_domains. cbn [network]. rewrite denied_domains_iff. setoid_rewrite denied_domains_iff. rewrite s4_domains.
  rewrite <- s2_denied. subst s3. unfold apply_denied. destruct managed_denied as [l|]; [|by exists p].
  setoid_rewrite set_denied_has_entry. intros Hp. apply merge_spelling. by apply denied_domains_iff.
Qed.

Lemma s4_allow_entry (p : str) :
  has_entry (entries_of (ns_domains s4)) p DomainAllow <-> has_entry (entries_of (ns_domains s2)) p DomainAllow.
Proof. rewrite s4_domains. subst s3. unfold apply_denied. destruct managed_denied; [|done]. by rewrite set_denied_has_entry. Qed.

Lemma s4_user_allowed (p : str) :
  p ∈ config_allowed_domains config ->
  exists q, (q ∈ config_allowed_domains (mkConfig s4) \/ q ∈ config_denied_domains (mkConfig s4)) /\
    to_ascii_lowercase q = to_ascii_lowercase p.
Proof.
  intros Hp. assert (exists q, has_entry (entries_of (ns_domains s4)) q DomainAllow /\
                      to_ascii_lowercase q = to_ascii_lowercase p) as (q & Hq & Heq).
  { setoid_rewrite s4_allow_entry. subst s2. unfold apply_allowed. destruct managed_allowed as [l|].
    - setoid_rewrite set_allowed_has_entry. by apply merge_spelling.
    - exists p. split; [|done]. by apply allowed_domains_iff in Hp as [? _]. }
  exists q. split; [|done]. unfold config_allowed_domains, config_denied_domains. cbn [network].
  rewrite allowed_domains_iff, denied_domains_iff.
  destruct (decide (mkDomainEntry q DomainDeny ∈ entries_of (ns_domains s4))); [by right|by left].
Qed.

Lemma s4_allowed (p : str) :
  p ∈ config_allowed_domains (mkConfig s4) ->
  p ∈ config_allowed_domains config \/ p ∈ default [] managed_allowed \/
  exists q, q ∈ config_denied_domains (mkConfig s4) /\ to_ascii_lowercase q = to_ascii_lowercase p.
Proof.
  unfold config_allowed_domains at 1. cbn [network]. rewrite allowed_domains_iff, s4_allow_entry. intros [Ha _].
  destruct (decide (mkDomainEntry p DomainDeny ∈ entries_of (ns_domains (network config)))) as [Hd|Hd].
  { right; right. apply s4_user_denied. by apply denied_domains_iff. }
  subst s2. unfold apply_allowed in Ha. destruct managed_allowed as [l|].
  - apply set_allowed_has_entry, merge_from in Ha as [?|?]; [by right; left|by left].
  - left. by apply allowed_domains_iff.
Qed.

(** What is promised of the settings after the requirements were laid over: managed and user
    denials and nothing else are denied; managed and user allowances are allowed unless
    denied, and nothing else is that is not denied too; letter case aside, where a managed
    entry repeats one of the user.  Sockets are among the required ones.  A required scalar has its
    value and the others are unchanged. *)
Definition requirements_met (s : NetworkProxySettings) : Prop :=
  let denied := default [] (denied_domains s) in
  let allowed := default [] (allowed_domains s) in
  let user_denied := config_denied_domains config in
  let user_allowed := config_allowed_domains config in
  let must_deny := default [] (rq_domains r ≫= toml_denied_domains) in
  let must_allow := default [] (rq_domains r ≫= toml_allowed_domains) in
  (forall p, p ∈ must_deny -> p ∈ denied) /\
  (forall p, p ∈ user_denied -> exists q, q ∈ denied /\ to_ascii_lowercase q = to_ascii_lowercase p) /\
  (forall p, p ∈ denied -> p ∈ user_denied \/ p ∈ must_deny) /\
  (forall p, p ∈ must_allow -> p ∈ allowed \/ p ∈ denied) /\
  (forall p, p ∈ user_allowed -> exists q, (q ∈ allowed \/ q ∈ denied) /\ to_ascii_lowercase q = to_ascii_lowercase p) /\
  (forall p, p ∈ allowed -> p ∈ user_allowed \/ p ∈ must_allow \/
     exists q, q ∈ denied /\ to_ascii_lowercase q = to_ascii_lowercase p) /\
  (forall t p, rq_unix_sockets r = Some t -> p ∈ allow_unix_sockets s -> p ∈ toml_allow_unix_sockets t) /\
  ns_enabled s = default (ns_enabled (network config)) (rq_enabled r) /\
  ns_allow_upstream_proxy s = default (ns_allow_upstream_proxy (network config)) (rq_allow_upstream_proxy r) /\
  ns_dangerously_allow_non_loopback_proxy s
    = default (ns_dangerously_allow_non_loopback_proxy (network config)) (rq_dangerously_allow_non_loopback_proxy r) /\
  ns_dangerously_allow_all_unix_sockets s
    = default (ns_dangerously_allow_all_unix_sockets (network config)) (rq_dangerously_allow_all_unix_sockets r) /\
  ns_allow_local_binding s = default (ns_allow_local_binding (network config)) (rq_allow_local_binding r) /\
  ns_mode s = ns_mode (network config) /\ ns_mitm s = ns_mitm (network config) /\
  ns_mitm_hooks s = ns_mitm_hooks (network config).

Lemma s4_requirements_met : requirements_met s4.
Proof.
  pose proof s4_fields as Hf. injection Hf as Hf1 Hf2 Hf3 Hf4 Hf5 Hf6 Hf7. unfold requirements_met. cbv zeta. split_and!.
  - apply s4_managed_denied.
  - apply s4_user_denied.
  - apply s4_denied.
  - apply s4_managed_allowed.
  - apply s4_user_allowed.
  - apply s4_allowed.
  - intros t p Ht. subst s4. unfold apply_sockets. rewrite Ht. apply set_allow_unix_sockets_elem.
  - by rewrite Hf3.
  - by rewrite Hf4.
  - by rewrite Hf5.
  - by rewrite Hf6.
  - by rewrite Hf7.
  - subst s4 s3 s2. unfold apply_sockets, apply_denied, apply_allowed.
    by destruct (rq_unix_sockets r), managed_denied, managed_allowed.
  - by rewrite Hf2.
  - by rewrite Hf1.
Qed.

End Accepted.

#[local] Existing Instances names_only simple_http wild_globs.

Definition open_requirements : NetworkConstraints :=
  mkRequirements (Some true) None None None None None
    (legacy_domain_permissions_from_lists (Some [lit "*.corp.example"]) (Some [lit "paste.corp.example"]))
    None (legacy_unix_socket_permissions_from_list (Some [lit "/var/run/docker.sock"])) (Some false).

